(* ===== verification/_CoqProject ===== *)
-Q . S2P
Prelude.v
GoStrings.v
GoRunes.v
GoPath.v
ShellLexer.v
ShellPolicy.v
Permissions.v
PermissionKeys.v
PermissionManager.v
PermissionInv.v
PermissionGate.v
PermissionGrants.v
PermissionSessions.v
JSON.v
Cycles.v
FlowModel.v
FlowContracts.v
FlowGraph.v
FlowValidate.v
FlowSession.v
FlowCompile.v
FlowSpec.v
FlowCompileSpec.v
FlowCompileEdges.v
FlowExamples.v
WorkflowTypes.v
WorkflowConditions.v
WorkflowGraph.v
WorkflowEngine.v
WorkflowRun.v
WorkflowOps.v
TaskTypes.v
TaskConflicts.v
TaskLedger.v
TaskLedgerSpec.v
TaskLedgerInv.v
TaskBoard.v
TaskBoardMoves.v
TaskStatus.v
Tasks.v
Todos.v
SessionGraph.v
Requires.v
PkgDeps.v
Scope.v
PluginManifest.v
PluginGraph.v
PluginRegistry.v
PluginHost.v
PluginManager.v
PluginEffects.v
WorkflowFrame.v
WorkflowInv.v
WorkflowOnce.v
WorkflowSched.v
WorkflowAdvance.v
WorkflowSpec.v
WorkflowCompile.v
SessionTypes.v
SessionJournal.v
SessionStore.v
SessionSpec.v
SessionReads.v
SessionRefine.v
SessionHistory.v
SessionExamples.v
LoopGuard.v
Sanitize.v
TurnErrors.v
Messages.v
Runner.v
RunnerSpec.v
ConversationExamples.v
