(* ===== verification/Prelude.v ===== *)
(** * GoDex: a verified model of the core of the agent workspace

    GoDex is an agent workspace written in Go. This library models the parts of
    it that keep state and take decisions of their own, and proves what they
    are meant to guarantee. It reads like the code: one definition per function
    or method, with the guards in the order of the source.

    ** Components, files and the code they model

    - Task board ([internal/plugins/taskboard]). [TaskTypes]: the structs of
      [types.go]. [TaskConflicts]: paths and conflict reports of
      [conflicts.go]. [TaskLedger]: the operations of [ledger.go].
      [TaskStatus]: the snapshot of [status.go]. The theorems are spread over
      [TaskLedgerSpec] (what each operation does to one card, as a relation),
      [TaskLedgerInv] (the well-formedness invariant, operation by operation),
      [TaskBoard] (invariant, done gate, optimistic concurrency, durability,
      atomicity) and [TaskBoardMoves] (functional behaviour of single calls).
    - Shell command policy ([internal/platform/tooling/shell_policy.go]).
      [ShellLexer]: tokens, segments, substitutions of a command line.
      [ShellPolicy]: risk, allow-list, checks of one command, recursive
      validation, and what an accepted command line guarantees.
    - Tool permissions ([internal/toolruntime/permissions.go]). [Permissions]:
      requests, policies, rules. [PermissionKeys]: grant scopes and storage
      keys. [PermissionManager]: the operations of the manager.
      [PermissionGate]: the interceptor with its reviewer. The theorems are in
      [PermissionInv] (the invariant, operation by operation), [PermissionGate]
      (consent), [PermissionGrants] (uses, time, sessions, keys, patterns) and
      [PermissionSessions] (export and restore), which also applies them to a
      concrete library.
    - Flows ([internal/core/flow]). [JSON]: values of decoded JSON.
      [FlowModel]: the types of [model.go]. [FlowContracts]: typed values of
      [contracts.go]. [FlowValidate], [FlowSession] and [FlowGraph]: the checks
      of [validate.go], those of session flows, and the graph searches of both.
      [FlowCompile]: [compile.go]. The theorems are in [FlowContracts] (no
      panic), [FlowGraph] (cycles, reachability), [FlowSpec] (accepted edges
      and sessions), [FlowCompileSpec] (compiled
      nodes), [FlowCompileEdges] (termination, edges, digest, regions) and
      [FlowExamples], which applies them and holds the counterexamples.
    - Agent workflows ([internal/agent/workflow.go], [workflow_flow*.go],
      [flow_human_ops.go]). [WorkflowTypes]: the state of a workflow and its
      nodes and edges. [WorkflowConditions]: conditions of edges, decisions,
      retries. [WorkflowGraph]: nodes and edges from their inputs, validation,
      templates. [WorkflowEngine]: the engine, which holds one loaded workflow,
      the three files of each workflow on disk and the world. [WorkflowRun]:
      starting and finishing nodes, firing edges. [WorkflowOps]: the public
      operations and the scheduler. [WorkflowCompile]: compiled flows as
      workflows. The theorems are in [WorkflowGraph] (the validation is
      exact), [WorkflowFrame] (what each program may
      change), [WorkflowInv] (the invariant of the files), [WorkflowOnce]
      (edges are processed once), [WorkflowSched] (what is started),
      [WorkflowAdvance] (termination, quiescence), [WorkflowSpec] (save and
      load, append, loops), which also runs the engine on concrete worlds, and
      [WorkflowCompile] (a run is its flow).
    - Flow sessions ([internal/agent/flow_session_store.go], the event input of
      [flow_session_ops.go]). [SessionTypes]: records, events and their encoding.
      [SessionJournal]: the journal file, appending to it and recovering its last
      line, over a storage whose calls may fail. [SessionStore]: the operations of
      the store. [SessionReads]: reading events and pages. The theorems are in
      [SessionSpec] and [SessionRefine] (what each operation does, against an
      abstract session) and [SessionHistory] (runs with failures and crashes);
      [SessionExamples] applies them.
    - Conversations ([internal/core/conversation]). [LoopGuard]:
      [loop_guard.go] and the fingerprints of [runner.go]. [Sanitize] and
      [Messages]: the blocks and messages of [internal/contracts/protocol], and
      what is sent to a provider. [TurnErrors]: [turn_error.go]. [Runner]: the
      tools of a turn, and the loop of [runner.go] and [runner_execution.go]. The
      theorems are in the file of each part and in [RunnerSpec];
      [ConversationExamples] applies them.
    - Tasks and todos ([internal/domain/task/task.go], [todo/todo.go]):
      [Tasks], [Todos].
    - Session graph ([internal/sessiongraph/graph.go]): [SessionGraph].
    - Packages ([internal/core/packages]): [Requires] models [requires.go],
      [PkgDeps] models [deps.go], and [Cycles] the depth-first search that
      [deps.go] and the plugin graph have in common.
    - Scopes ([internal/core/scope/scope.go]): [Scope].
    - Plugin kernel ([internal/pluginrt]). [PluginManifest]: [manifest.go].
      [PluginGraph]: [graph.go]. [PluginRegistry]: [registry.go], refined to a
      set of facts. [PluginHost]: [instance.go], [effects.go], [routes.go],
      [schedule.go]. [PluginManager]: [manager.go]. [PluginEffects]: what
      reverting undoes, and a concrete world in which the theorems about the
      kernel are applied.
    - [Prelude] (this file) holds integers, the state-and-error monad, sorting,
      deduplication and the tactics; [GoStrings] the functions of the [strings]
      and [strconv] packages that the code uses, on byte strings; [GoRunes]
      UTF-8 and the functions on runes; [GoPath] [path/filepath] for slashes.

    The parts interact as in the code: the interceptor builds a request from a
    tool call, asks the rules of the policy, which classify shell commands with
    [ShellPolicy], and marks an approved call for the shell policy; the plugin kernel validates manifests
    with [Scope] and [PluginGraph] and records capabilities in
    [PluginRegistry]; the ledger uses [TaskConflicts] for its dispatch gate and
    merge reports; both dependency graphs run [Cycles], and the search of the flow
    validator is shown to report its first cycle; compilation starts with
    validation and relies on what it has checked; a run builds its workflow from
    a compiled flow, and the engine checks the outputs of its nodes with
    [FlowContracts]; the runner of a conversation asks [Sanitize] for what it
    sends, [TurnErrors] whether to ask again, and [LoopGuard] after every batch
    of tools.

    ** State and operations

    A method on a shared receiver is a program of the monad [M S E A]: it takes
    the state, returns a value or an error, and what it wrote stays written in
    both cases, as in Go. [run] is the state left behind and [out] the result.
    Each call is one step: the mutex that every modelled method takes for its
    whole body makes it so; [RejectCard], which takes it twice, is modelled as
    two steps with other calls in between. Pointers that matter (plugin
    instances, transactions) are indices into a heap.

    ** What is a parameter

    The clock (a function of the number of readings), the outcome of the n-th
    save, the Unicode tables beyond ASCII ([Unicode]), the URL, address and
    glob libraries of the shell policy ([ShellLib]), durations and the digest
    of request ids ([PermissionLib]; free of collisions where a theorem says
    so), the JSON decoder and encoder ([JSONLib]), the digest of a compiled flow
    ([FlowDigest]), the automatic reviewer, SHA-256 (of a create request, of a
    scope id), the services around the workflow engine ([WorkflowLib], [Services]:
    jobs of sub-agents, functions, HTTP services, the decision model, the file
    system's errors, each a function of the world that returns a new one), the [%q] verb, the order in which Go visits a map where it shows,
    the repositories of tasks and todos, the code of plugins, the cron library
    and the root mux. Repositories, cron and mux are classes with their laws
    and a concrete instance; the other hypotheses are stated in the theorems.

    ** Bounds and fuel

    [int] is 64 bits with wrap-around ([wrap64]) wherever the code adds to one.
    Recursion is structural except: the search of [Cycles], whose fuel is the
    number of nodes ([search_correct] proves it is enough); the search for a
    free task id, whose fuel is one more than the number of tasks
    ([Create_least_id]); the validation of scripts within scripts, whose fuel is
    one more than the number of runes ([validate_unfold]: no fuel runs out,
    since a script is shorter than the line it is part of); the searches of
    [FlowGraph], whose fuel is the number of nodes and of edges
    ([findCycle_exact], [sessionRouteChain_reaches]); the loop over the
    iterations of a loop node ([Compile_terminates]: 65 rounds are enough for
    every flow whose size fits an [int]; [Compile_can_diverge]: nothing is for
    others); the depth-first search over the nodes of a workflow, whose fuel is
    one more than their number ([validateWorkflowDeps_exact]); the scheduler's
    loop, whose fuel [advance_fuel] is computed from the state it starts with
    ([advance_terminates]); the last line of a journal, found with fuel for each
    byte before it, and read again at most once after a truncation; the calls of
    the model in a turn, whose fuel is one more than the retries and compactions
    ([run_terminates]); the classification of an error, one more than its layers;
    and the trimming of strings, bounded by their length. The depth of
    a schema is bounded by the code itself.

    ** The theorems

    Invariants of all reachable states ([ledger_invariant], [kernel_invariant],
    [manager_invariant], [workflow_invariant], [tasks_invariant],
    [todos_invariant], [graph_closed_acyclic]); safety of the gate in front of the tools
    ([no_call_without_consent], [accepted_is_safe], [strict_profile_blocks],
    [operands_confined], [no_substitution]) and of
    the protocols ([done_gate], [single_winner], [claim_is_exclusive],
    [execution_exclusive_and_released], [commit_transactional]) and of the
    workflow engine ([scheduler_safe], [append_once], [processing_settles]),
    whose scheduler ends and leaves nothing undone ([advance_terminates],
    [advance_quiesces]); of flow sessions, through failures and crashes
    ([acknowledged_events_stay], [retry_once], [work_in_order], [ended_stays],
    [page_follows]); of conversations ([run_keeps_pairs], [run_terminates],
    [run_outcome], [run_repetition_bounded], [repetition_stopped],
    [recovery_budget_kept], [abort_only_strict], [sanitized_well_formed],
    [sanitized_prefix]); refinement and
    equivalence ([session_refines], [guard_cycles_exact],
    [classification_agrees], [history_roundtrip],
    [splitShellCommand_sound], [SplitCommandLine_quoted],
    [decision_key_exact], [session_roundtrip], [registry_refines], [write_through], [Validate_exact],
    [candidate_report_exact], [pathsOverlap_iff], [edges_accepted_iff],
    [compiled_nodes_exact], [branch_ports], [digest_scope],
    [run_is_flow], [validateWorkflowDeps_exact], [save_load_roundtrip],
    [loop_edges_partition]); what a session can
    run ([session_regions_run]) and values that never panic
    ([schema_check_never_panics]); behaviour under errors
    ([refusal_is_atomic], [activation_transactional], [ledger_undo]); and the
    places where the code falls short of what it means to do, each proved
    ([shell_policy_gaps], [trusted_prefix_gap], [pattern_grant_reach],
    [parsePositiveInt_wraps], [reset_is_local], [decision_key_exact],
    [ChecklistAdd_keeps_partial], [UpdateProject_keeps_partial],
    [failed_save_stays_in_memory], [reload_unmounts], [route_removal],
    [schedule_removal], [compilation_gaps], [engine_gaps], [session_gaps],
    [guard_gaps], [sanitize_gaps], [run_gaps], [flow_retry_ignored],
    [StorageKey_collision], [wildcard_and_v_defects],
    [capability_reference]).

    ** Not modelled

    Transport, terminal and web interfaces, LLM clients and stores are I/O. Of
    the workflow engine the event log, the agent identities, the contents and
    digests of handoffs, the text of prompts, the outputs of scripts, the waiting
    for jobs and the store of flows and run records are left out; of flow sessions
    their run time (workers, regions, locks, listings), and the loss of power but
    for [session_gaps]: a crash ends the process and keeps what was written; of
    conversations the wire formats and streams of the providers and the times of
    requests. The adapters of the task board (routes, tools), the WASM runtime and
    the brokers of the plugin kernel, and the cron and heartbeat services are not
    modelled. Of the shell policy the child environments
    and exit codes, of the permissions the texts for the user are left out: they
    decide nothing. The manager of the permissions is never nil. Data races are outside the
    model, since each call is one step. *)
From stdpp Require Import base list gmap strings sorting pretty.
From stdpp Require Export base list gmap strings sorting.
From Stdlib Require Import ZArith Lia.

(** ** Go integers *)

Definition int_min : Z := (- 2 ^ 63)%Z.
Definition int_max : Z := (2 ^ 63 - 1)%Z.

(** Two's complement wrap-around of a 64-bit Go [int]. *)
Definition wrap64 (z : Z) : Z := ((z + 2 ^ 63) mod 2 ^ 64 - 2 ^ 63)%Z.

Definition is_int (z : Z) : Prop := (int_min <= z <= int_max)%Z.

(** ** Results and the state-and-error monad of the mutating operations *)

Inductive result (E A : Type) : Type :=
| Ok (a : A)
| Err (e : E).
Arguments Ok {E A} a.
Arguments Err {E A} e.

Definition is_ok {E A} (r : result E A) : bool :=
  match r with Ok _ => true | Err _ => false end.

(** [if err != nil { return err }] in functions that mutate nothing. *)
#[export] Instance result_ret E : MRet (result E) := λ A a, Ok a.
#[export] Instance result_bind E : MBind (result E) := λ A B k r,
  match r with Ok a => k a | Err e => Err e end.

(** A loop that appends what each item yields and stops at the first error. *)
Section ResultMap.
Context {E A B : Type} (f : A → result E B).
Fixpoint result_map (l : list A) : result E (list B) :=
  match l with
  | [] => Ok []
  | x :: l => y ← f x; ys ← result_map l; Ok (y :: ys)
  end.
End ResultMap.

(** A Go method that works on a shared receiver: it returns a value or an
    error, and what it wrote to the receiver stays written in both cases. *)
Definition M (S E A : Type) : Type := S → S * result E A.

#[export] Instance M_ret S E : MRet (M S E) := λ A a s, (s, Ok a).
#[export] Instance M_bind S E : MBind (M S E) := λ A B k m s,
  match m s with
  | (s', Ok a) => k a s'
  | (s', Err e) => (s', Err e)
  end.

Definition throw {S E A} (e : E) : M S E A := λ s, (s, Err e).
Definition gets {S E A} (f : S → A) : M S E A := λ s, (s, Ok (f s)).
Definition update {S E} (f : S → S) : M S E unit := λ s, (f s, Ok tt).
Definition when {S E} (b : bool) (m : M S E unit) : M S E unit :=
  if b then m else mret tt.

(** [run m s]: the state left behind; [out m s]: what the caller receives. *)
Definition run {S E A} (m : M S E A) (s : S) : S := (m s).1.
Definition out {S E A} (m : M S E A) (s : S) : result E A := (m s).2.

(** ** Checks: [None] is success, [Some e] the error of the first that fails *)

Definition or_else {E} (e1 e2 : option E) : option E := match e1 with Some e => Some e | None => e2 end.

Section FirstError.
Context {E A : Type} (f : A → option E).
Fixpoint first_error (l : list A) : option E :=
  match l with
  | [] => None
  | x :: l => or_else (f x) (first_error l)
  end.
End FirstError.

(** A check as a step that writes nothing. *)
Definition require {S E} (c : option E) : M S E unit :=
  match c with Some e => throw e | None => mret tt end.

(** A loop that stops at the first error. *)
Fixpoint each {S E A} (f : A → M S E unit) (l : list A) : M S E unit :=
  match l with
  | [] => mret tt
  | x :: l => f x ≫= λ _, each f l
  end.

(** [first_error] with the index of each item. *)
Section FirstErrorIndexed.
Context {E A : Type} (f : Z → A → option E).
Fixpoint first_error_from (i : Z) (l : list A) : option E :=
  match l with
  | [] => None
  | x :: l => or_else (f i x) (first_error_from (i + 1) l)
  end.
End FirstErrorIndexed.

(** ** Maps in Go's order

    Go visits a map in any order; [visit] is the one of this run. *)
Class MapOrder : Type := {
  visit : ∀ {A}, gmap string A → list (string * A);
  visit_perm : ∀ {A} (m : gmap string A), visit m ≡ₚ map_to_list m;
}.

(** ** Stable insertion sort: the behaviour of [sort.SliceStable] for a strict
    weak order [lt], and of [sort.Strings]/[sort.Ints]. *)
Section InsertionSort.
Context {A : Type} (lt : A → A → bool).

Fixpoint sort_insert (x : A) (l : list A) : list A :=
  match l with
  | [] => [x]
  | y :: ys => if lt y x then y :: sort_insert x ys else x :: y :: ys
  end.

Fixpoint stable_sort (l : list A) : list A :=
  match l with
  | [] => []
  | x :: xs => sort_insert x (stable_sort xs)
  end.

End InsertionSort.

(** ** First-seen deduplication, the idiom
    [if _, ok := seen[k]; ok { continue }; seen[k] = struct{}{}; out = append(out, x)]. *)
Section Dedup.
Context {A K : Type} `{EqDecision K} (key : A → K).

Fixpoint dedup_from (seen : list K) (l : list A) : list A :=
  match l with
  | [] => []
  | x :: xs =>
      if decide (key x ∈ seen) then dedup_from seen xs
      else x :: dedup_from (key x :: seen) xs
  end.

Definition dedup_by (l : list A) : list A := dedup_from [] l.

End Dedup.

Definition dedup {A} `{EqDecision A} (l : list A) : list A := dedup_by (λ x, x) l.

(** The loop [for i := range l { if p(l[i]) { f(&l[i]); break } }]. *)
Fixpoint update_first {A} (p : A → bool) (f : A → A) (l : list A) : list A :=
  match l with
  | [] => []
  | x :: xs => if p x then f x :: xs else x :: update_first p f xs
  end.

(** The index of the first element satisfying [p]. *)
Fixpoint find_index {A} (p : A → bool) (l : list A) : option nat :=
  match l with
  | [] => None
  | x :: xs => if p x then Some 0 else S <$> find_index p xs
  end.

(** The first element satisfying [p]. *)
Fixpoint find_first {A} (p : A → bool) (l : list A) : option A :=
  match l with
  | [] => None
  | x :: xs => if p x then Some x else find_first p xs
  end.

(** The items of the two kinds, in order. *)
Definition lefts {A B} (l : list (A + B)) : list A :=
  omap (λ x, match x with inl s => Some s | inr _ => None end) l.
Definition rights {A B} (l : list (A + B)) : list B :=
  omap (λ x, match x with inr s => Some s | inl _ => None end) l.

(** ** Automation *)

(** [ltac:(with_field eta proj r v)] is the record [r] with the field [proj]
    set to [v]; [eta] rebuilds a record from its projections. *)
Ltac with_field eta proj r v :=
  let e := eval red in (eta r) in
  let p := eval pattern (proj r) in e in
  match p with ?g _ => let e' := eval cbv beta in (g v) in exact e' end.

Create HintDb godex discriminated.
Create HintDb preserve discriminated.
Create Rewrite HintDb mstep.
Create Rewrite HintDb elems.
#[export] Hint Extern 1 (is_int _) => unfold is_int, int_min, int_max; lia : godex.

(** Case on the outermost match or decision of the goal, cleaning up. *)
Ltac split_case :=
  first [ case_decide | case_match ]; simplify_eq/=.
Ltac split_cases := repeat (split_case; try done).

(** Case on the outermost match of a hypothesis. *)
Ltac split_case_in H :=
  match type of H with
  | context [ match ?x with _ => _ end ] =>
      lazymatch x with
      | context [ match _ with _ => _ end ] => fail
      | _ => destruct x eqn:?; simplify_eq/=
      end
  end.

(** Turns boolean tests of the context into propositions. *)
Ltac bool_prop :=
  repeat match goal with
  | H : negb _ = true |- _ => apply negb_true_iff in H
  | H : negb _ = false |- _ => apply negb_false_iff in H
  | H : andb _ _ = true |- _ => apply andb_true_iff in H as [? ?]
  | H : orb _ _ = false |- _ => apply orb_false_iff in H as [? ?]
  | H : bool_decide _ = true |- _ => apply bool_decide_eq_true in H
  | H : bool_decide _ = false |- _ => apply bool_decide_eq_false in H
  | H : Is_true _ |- _ => apply Is_true_true in H
  end.

(** ** Integer lemmas *)

Lemma wrap64_id z : is_int z → wrap64 z = z.
Proof. unfold is_int, int_min, int_max, wrap64. intros. rewrite Z.mod_small; lia. Qed.

Lemma wrap64_is_int z : is_int (wrap64 z).
Proof.
  unfold is_int, int_min, int_max, wrap64.
  pose proof (Z.mod_pos_bound (z + 2 ^ 63) (2 ^ 64)). lia.
Qed.

Lemma wrap64_succ_ne z : is_int z → wrap64 (z + 1) ≠ z.
Proof.
  unfold is_int, int_min, int_max, wrap64. intros Hz Heq.
  destruct (decide (z = 2 ^ 63 - 1)%Z) as [->|Hne].
  - by vm_compute in Heq.
  - rewrite Z.mod_small in Heq; lia.
Qed.

(** ** Monad lemmas *)

Lemma run_bind {S E A B} (m : M S E A) (k : A → M S E B) s :
  run (m ≫= k) s = match out m s with Ok a => run (k a) (run m s) | Err _ => run m s end.
Proof. unfold run, out, mbind, M_bind. by destruct (m s) as [s' [a|e]]. Qed.

Lemma out_bind {S E A B} (m : M S E A) (k : A → M S E B) s :
  out (m ≫= k) s = match out m s with Ok a => out (k a) (run m s) | Err e => Err e end.
Proof. unfold run, out, mbind, M_bind. by destruct (m s) as [s' [a|e]]. Qed.

Lemma bind_ok {S E A B} (m : M S E A) (k : A → M S E B) s s' a :
  m s = (s', Ok a) → (m ≫= k) s = k a s'.
Proof. unfold mbind, M_bind. by intros ->. Qed.

Lemma bind_err {S E A B} (m : M S E A) (k : A → M S E B) s s' e :
  m s = (s', Err e) → (m ≫= k) s = (s', Err e).
Proof. unfold mbind, M_bind. by intros ->. Qed.

(** Reading and writing step by step. *)
Lemma run_gets {S E A B} (f : S → A) (k : A → M S E B) s :
  run (gets f ≫= k) s = run (k (f s)) s.
Proof. done. Qed.

Lemma out_gets {S E A B} (f : S → A) (k : A → M S E B) s :
  out (gets f ≫= k) s = out (k (f s)) s.
Proof. done. Qed.

Lemma run_update {S E B} (f : S → S) (k : unit → M S E B) s :
  run (update f ≫= k) s = run (k tt) (f s).
Proof. done. Qed.

Lemma out_update {S E B} (f : S → S) (k : unit → M S E B) s :
  out (update f ≫= k) s = out (k tt) (f s).
Proof. done. Qed.

Lemma run_when {S E} (b : bool) (m : M S E unit) s :
  run (when b m) s = if b then run m s else s.
Proof. by destruct b. Qed.

Lemma out_when {S E} (b : bool) (m : M S E unit) s :
  out (when b m) s = if b then out m s else Ok tt.
Proof. by destruct b. Qed.

#[export] Hint Rewrite @run_bind @out_bind @run_when @out_when : mstep.

(** A program preserves a state predicate when it does so from every state. *)
Definition preserves {S E A} (P : S → Prop) (m : M S E A) : Prop :=
  ∀ s, P s → P (run m s).

Section Preserves.
Context {S E : Type} (P : S → Prop).

Lemma preserves_ret {A} (a : A) : preserves (E:=E) P (mret a).
Proof. by intros s. Qed.

Lemma preserves_throw {A} (e : E) : preserves (A:=A) P (throw e).
Proof. by intros s. Qed.

Lemma preserves_gets {A} (f : S → A) : preserves (E:=E) P (gets f).
Proof. by intros s. Qed.

Lemma preserves_bind {A B} (m : M S E A) (k : A → M S E B) :
  preserves P m → (∀ a, preserves P (k a)) → preserves P (m ≫= k).
Proof.
  intros Hm Hk s Hs. rewrite run_bind. destruct (out m s); [apply Hk|]; by apply Hm.
Qed.

Lemma preserves_update (f : S → S) : (∀ s, P s → P (f s)) → preserves (E:=E) P (update f).
Proof. intros Hf s. apply Hf. Qed.

(** What follows a reading may use what was read. *)
Lemma preserves_read {A B} (f : S → A) (k : A → M S E B) :
  (∀ s, P s → P (run (k (f s)) s)) → preserves P (gets f ≫= k).
Proof. intros Hk s Hs. rewrite run_gets. by apply Hk. Qed.

Lemma preserves_when b (m : M S E unit) : preserves P m → preserves P (when b m).
Proof. destruct b; [done|]. intros _. apply preserves_ret. Qed.

Lemma preserves_seq {A} (ms : list (M S E A)) s :
  Forall (preserves P) ms → P s → P (fold_left (λ s m, run m s) ms s).
Proof. intros Hms. revert s. induction Hms; simpl; auto. Qed.

End Preserves.

(** A program establishes a state predicate when it does so whenever it returns
    a value. *)
Definition establishes {S E A} (P : S → Prop) (m : M S E A) : Prop :=
  ∀ s, is_ok (out m s) = true → P (run m s).

Section Establishes.
Context {S E : Type} (P : S → Prop).

Lemma establishes_throw {A} (e : E) : establishes (A:=A) P (throw e).
Proof. done. Qed.

Lemma establishes_bind {A B} (m : M S E A) (k : A → M S E B) :
  (∀ a, establishes P (k a)) → establishes P (m ≫= k).
Proof.
  intros Hk s. rewrite run_bind, out_bind. destruct (out m s); [apply Hk|done].
Qed.

(** What follows only reads. *)
Lemma establishes_bind_read {A B} (m : M S E A) (k : A → M S E B) :
  establishes P m → (∀ a s, run (k a) s = s) → establishes P (m ≫= k).
Proof.
  intros Hm Hk s. rewrite run_bind, out_bind. specialize (Hm s).
  destruct (out m s); [|done]. rewrite Hk. intros _. by apply Hm.
Qed.

End Establishes.

#[export] Hint Resolve preserves_ret preserves_throw preserves_gets preserves_bind
  preserves_update preserves_when : preserve.

(** A program respects a relation when the states before and after it are
    related, whether it returns a value or an error. *)
Definition respects {S E A} (R : S → S → Prop) (m : M S E A) : Prop := ∀ s, R s (run m s).

Section Respects.
Context {S E : Type} (R : S → S → Prop) `{!PreOrder R}.

Lemma respects_ret {A} (a : A) : respects (E:=E) R (mret a).
Proof. intros s. reflexivity. Qed.

Lemma respects_throw {A} (e : E) : respects (A:=A) R (throw e).
Proof. intros s. reflexivity. Qed.

Lemma respects_gets {A} (f : S → A) : respects (E:=E) R (gets f).
Proof. intros s. reflexivity. Qed.

Lemma respects_update (f : S → S) : (∀ s, R s (f s)) → respects (E:=E) R (update f).
Proof. done. Qed.

Lemma respects_bind {A B} (m : M S E A) (k : A → M S E B) :
  respects R m → (∀ a, respects R (k a)) → respects R (m ≫= k).
Proof.
  intros Hm Hk s. rewrite run_bind. destruct (out m s); [|apply Hm].
  etransitivity; [apply Hm|apply Hk].
Qed.

(** What follows a reading may use what was read. *)
Lemma respects_read {A B} (f : S → A) (k : A → M S E B) :
  (∀ s, R s (run (k (f s)) s)) → respects R (gets f ≫= k).
Proof. intros Hk s. rewrite run_gets. apply Hk. Qed.

End Respects.

Lemma respects_sub {S E A} (R R' : S → S → Prop) (m : M S E A) :
  (∀ s s', R s s' → R' s s') → respects R m → respects R' m.
Proof. intros Hsub Hm s. apply Hsub, Hm. Qed.

(** An invariant that the relation carries along. *)
Lemma respects_preserves {S E A} (R : S → S → Prop) (P : S → Prop) (m : M S E A) :
  (∀ s s', R s s' → P s → P s') → respects R m → preserves P m.
Proof. intros HP Hm s. apply HP, Hm. Qed.

Create HintDb respect discriminated.
#[export] Hint Resolve respects_ret respects_throw respects_gets respects_bind : respect.

(** ** Sorting lemmas *)

Class StrictWeak {A} (lt : A → A → bool) : Prop := {
  lt_irrefl : ∀ x, lt x x = false;
  lt_trans : ∀ x y z, lt x y = true → lt y z = true → lt x z = true;
  lt_split : ∀ x y z, lt x z = true → lt x y = true ∨ lt y z = true;
}.

Section SortLemmas.
Context {A : Type} (lt : A → A → bool).

Lemma sort_insert_perm x l : sort_insert lt x l ≡ₚ x :: l.
Proof.
  induction l as [|y l IH]; simpl; [done|]. case_match; [|done].
  rewrite IH. apply Permutation_swap.
Qed.

Lemma stable_sort_perm l : stable_sort lt l ≡ₚ l.
Proof. induction l as [|x l IH]; simpl; [done|]. by rewrite sort_insert_perm, IH. Qed.

Lemma elem_of_stable_sort x l : x ∈ stable_sort lt l ↔ x ∈ l.
Proof. by rewrite stable_sort_perm. Qed.

Context `{!StrictWeak lt}.

(** "No later element is less than an earlier one". *)
Definition not_after (x y : A) : Prop := lt y x = false.

#[local] Instance not_after_trans : Transitive not_after.
Proof.
  intros x y z Hxy Hyz. unfold not_after in *. destruct (lt z x) eqn:Hzx; [|done].
  destruct (lt_split z y x Hzx); congruence.
Qed.

Lemma lt_asym x y : lt x y = true → lt y x = false.
Proof.
  intros Hxy. destruct (lt y x) eqn:Hyx; [|done].
  pose proof (lt_trans _ _ _ Hxy Hyx). by rewrite lt_irrefl in *.
Qed.

Lemma sort_insert_sorted x l :
  StronglySorted not_after l → StronglySorted not_after (sort_insert lt x l).
Proof.
  induction 1 as [|y l Hs IH Hf]; simpl; [by repeat constructor|].
  destruct (lt y x) eqn:Hyx.
  - constructor; [done|]. rewrite sort_insert_perm. constructor; [|done].
    by apply lt_asym.
  - constructor; [by constructor|]. constructor; [done|].
    eapply Forall_impl; [done|]. intros z Hz. by transitivity y.
Qed.

Lemma stable_sort_sorted l : StronglySorted not_after (stable_sort lt l).
Proof. induction l; simpl; [constructor|]. by apply sort_insert_sorted. Qed.

(** Stability: the elements of a class of pairwise incomparable elements keep
    their order. *)
Lemma sort_insert_filter (P : A → Prop) `{!∀ x, Decision (P x)} x l :
  (∀ y, P x → P y → lt y x = false) →
  filter P (sort_insert lt x l) = filter P (x :: l).
Proof.
  intros Hinc. induction l as [|y l IH]; simpl; [done|].
  destruct (lt y x) eqn:Hyx; [|done].
  rewrite filter_cons, IH, !filter_cons.
  repeat case_decide; try done. rewrite (Hinc y) in Hyx; done.
Qed.

Lemma stable_sort_filter (P : A → Prop) `{!∀ x, Decision (P x)} l :
  (∀ x y, P x → P y → lt y x = false) →
  filter P (stable_sort lt l) = filter P l.
Proof.
  intros Hinc. induction l as [|x l IH]; simpl; [done|].
  rewrite sort_insert_filter by eauto. by rewrite !filter_cons, IH.
Qed.

End SortLemmas.

Lemma StronglySorted_impl {A} (R R' : A → A → Prop) l :
  (∀ x y, R x y → R' x y) → StronglySorted R l → StronglySorted R' l.
Proof.
  intros HR. induction 1 as [|x l Hs IH Hf]; constructor; [done|].
  eapply Forall_impl; [done|]. auto.
Qed.

(** ** Deduplication lemmas *)
Section DedupLemmas.
Context {A K : Type} `{EqDecision K} (key : A → K).

Lemma dedup_from_sublist seen l : dedup_from key seen l `sublist_of` l.
Proof.
  revert seen. induction l as [|x l IH]; intros seen; simpl; [done|].
  case_decide; by constructor.
Qed.

Lemma dedup_from_key seen l k :
  k ∈ key <$> dedup_from key seen l ↔ k ∈ key <$> l ∧ k ∉ seen.
Proof.
  revert seen. induction l as [|x l IH]; intros seen; cbn.
  { rewrite elem_of_nil. tauto. }
  rewrite elem_of_cons. case_decide as Hx; cbn; rewrite ?elem_of_cons, IH;
    rewrite ?elem_of_cons; destruct (decide (k = key x)); naive_solver.
Qed.

Lemma dedup_from_NoDup seen l : NoDup (key <$> dedup_from key seen l).
Proof.
  revert seen. induction l as [|x l IH]; intros seen; cbn; [constructor|].
  case_decide; [done|]. cbn. constructor; [|done].
  rewrite dedup_from_key, elem_of_cons. tauto.
Qed.

Lemma dedup_from_id seen l :
  NoDup (key <$> l) → Forall (λ x, key x ∉ seen) l → dedup_from key seen l = l.
Proof.
  intros Hnd Hs. revert seen Hs. induction l as [|x l IH]; intros seen; cbn; [done|].
  rewrite Forall_cons. intros [Hx Hl].
  rewrite fmap_cons, NoDup_cons in Hnd. destruct Hnd as [Hnin Hnd].
  rewrite decide_False by done. f_equal. apply IH; [done|].
  rewrite Forall_forall in Hl |- *. intros y Hy. rewrite not_elem_of_cons.
  split; [|by apply Hl]. intros Heq. apply Hnin. rewrite <- Heq. by apply list_elem_of_fmap_2.
Qed.

Lemma dedup_by_NoDup l : NoDup (key <$> dedup_by key l).
Proof. apply dedup_from_NoDup. Qed.

Lemma dedup_by_key l k : k ∈ key <$> dedup_by key l ↔ k ∈ key <$> l.
Proof. unfold dedup_by. rewrite dedup_from_key, elem_of_nil. tauto. Qed.

Lemma dedup_by_elem l x : x ∈ dedup_by key l → x ∈ l.
Proof.
  intros Hx. eapply elem_of_sublist; [done|]. apply dedup_from_sublist.
Qed.

Lemma dedup_by_id l : NoDup (key <$> l) → dedup_by key l = l.
Proof.
  intros. apply dedup_from_id; [done|]. apply Forall_forall. intros x _. apply not_elem_of_nil.
Qed.

Lemma dedup_by_idemp l : dedup_by key (dedup_by key l) = dedup_by key l.
Proof. apply dedup_by_id, dedup_by_NoDup. Qed.

End DedupLemmas.

Lemma elem_of_dedup {A} `{EqDecision A} (x : A) l : x ∈ dedup l ↔ x ∈ l.
Proof. pose proof (dedup_by_key (λ y, y) l x) as H. by rewrite !list_fmap_id in H. Qed.

Lemma NoDup_dedup {A} `{EqDecision A} (l : list A) : NoDup (dedup l).
Proof. pose proof (dedup_by_NoDup (λ y, y) l) as H. by rewrite list_fmap_id in H. Qed.

Lemma dedup_id {A} `{EqDecision A} (l : list A) : NoDup l → dedup l = l.
Proof. intros. apply dedup_by_id. by rewrite list_fmap_id. Qed.

#[export] Hint Rewrite @elem_of_stable_sort @elem_of_dedup : elems.
#[export] Hint Resolve NoDup_dedup stable_sort_perm : godex.

(** ** Lemmas on checks and map orders *)

Lemma or_else_None {E} (e1 e2 : option E) : or_else e1 e2 = None ↔ e1 = None ∧ e2 = None.
Proof. destruct e1; simpl; naive_solver. Qed.

Lemma first_error_None {E A} (f : A → option E) l : first_error f l = None ↔ Forall (λ x, f x = None) l.
Proof.
  induction l as [|x l IH]; simpl; [done|]. by rewrite or_else_None, IH, Forall_cons.
Qed.

(** Steps that succeed, from the last backwards. *)
Lemma M_bind_Ok {S E A B} (m : M S E A) (k : A → M S E B) s s' b :
  (m ≫= k) s = (s', Ok b) ↔ ∃ a s1, m s = (s1, Ok a) ∧ k a s1 = (s', Ok b).
Proof. unfold mbind, M_bind. destruct (m s) as [s1 [a|e]]; naive_solver. Qed.

Lemma require_Ok {S E} (c : option E) (s s' : S) u : require c s = (s', Ok u) ↔ c = None ∧ s' = s.
Proof. destruct c, u; cbn; unfold throw, mret, M_ret; naive_solver. Qed.

(** The invariant of a loop that ran to its end. *)
Lemma each_Ok {S E A} (I : list A → S → Prop) (f : A → M S E unit) l s s' u :
  I [] s →
  (∀ before x s s', x ∈ l → I before s → f x s = (s', Ok tt) → I (before ++ [x]) s') →
  each f l s = (s', Ok u) → I l s'.
Proof.
  intros H0 Hf. enough (∀ after before s, before ++ after = l → I before s →
    each f after s = (s', Ok u) → I l s') as Hloop by by apply (Hloop l [] s).
  intros after. induction after as [|x after IH]; intros before s0 Hl Hb; cbn.
  - intros [= <- _]. by rewrite <- Hl, app_nil_r.
  - intros ([]&s1&Hx&Hrest)%M_bind_Ok. eapply (IH (before ++ [x])); [|eapply Hf; [|exact Hb|exact Hx]|exact Hrest].
    + rewrite <- Hl, <- (assoc_L (++)). done.
    + rewrite <- Hl. apply elem_of_app. right. by left.
Qed.

Lemma result_bind_Ok {E A B} (r : result E A) (k : A → result E B) b :
  (r ≫= k) = Ok b ↔ ∃ a, r = Ok a ∧ k a = Ok b.
Proof. destruct r as [a|e]; simpl; naive_solver. Qed.

Lemma result_map_Ok {E A B} (f : A → result E B) l k :
  result_map f l = Ok k ↔ Forall2 (λ x y, f x = Ok y) l k.
Proof.
  revert k. induction l as [|x l IH]; intros k; simpl.
  - split; [by intros [= <-]|]. by intros ->%Forall2_nil_inv_l.
  - split.
    + intros (y&Hy&(ys&Hys&[= <-])%result_bind_Ok)%result_bind_Ok.
      constructor; [done|]. by apply IH.
    + intros (y&ys&Hy&Hys&->)%Forall2_cons_inv_l.
      apply result_bind_Ok. exists y. split; [done|].
      apply result_bind_Ok. exists ys. split; [by apply IH|done].
Qed.

Lemma first_error_ext {E A} (f g : A → option E) l :
  (∀ x, x ∈ l → f x = g x) → first_error f l = first_error g l.
Proof.
  intros H. induction l as [|x l IH]; [done|]. simpl. rewrite H by by left.
  f_equal. apply IH. intros y ?. apply H. by right.
Qed.

Lemma first_error_from_None {E A} (f : Z → A → option E) i l :
  first_error_from f i l = None ↔ ∀ k x, l !! k = Some x → f (i + Z.of_nat k)%Z x = None.
Proof.
  revert i. induction l as [|x l IH]; intros i; simpl; [by split|].
  rewrite or_else_None, IH. split.
  - intros [Hx Hl] [|k] y; simpl; [intros [= <-]; by rewrite Z.add_0_r|].
    intros Hk. replace (i + Z.of_nat (S k))%Z with (i + 1 + Z.of_nat k)%Z by lia. by apply Hl.
  - intros H. split; [rewrite <- (Z.add_0_r i); by apply (H 0)|].
    intros k y Hk. replace (i + 1 + Z.of_nat k)%Z with (i + Z.of_nat (S k))%Z by lia. by apply H.
Qed.

Lemma elem_of_visit `{O : MapOrder} {A} (m : gmap string A) x :
  x ∈ (visit m).*2 ↔ ∃ k, m !! k = Some x.
Proof.
  rewrite list_elem_of_fmap. setoid_rewrite visit_perm. split.
  - intros ([k y]&->&Hy). exists k. by apply elem_of_map_to_list.
  - intros [k Hk]. exists (k, x). split; [done|]. by apply elem_of_map_to_list.
Qed.

(** ** Slots of a list *)

Lemma list_alter_lookup {A} (f : A → A) (l : list A) i x :
  l !! i = Some x → alter f i l = <[i:=f x]> l.
Proof.
  revert i. induction l as [|y l IH]; intros [|i] Hi; simplify_eq/=; [done|].
  f_equal. by apply IH.
Qed.

Lemma Forall_insert {A} (P : A → Prop) (l : list A) i x :
  Forall P l → P x → Forall P (<[i:=x]> l).
Proof.
  intros Hl Hx. revert i. induction Hl; intros [|i]; simpl; constructor; auto.
Qed.

(** ** Lists that only grow *)

(** The items of [l], each after a step of [R], and then new ones. *)
Definition extension {A} (R : A → A → Prop) (Q : A → Prop) (l l' : list A) : Prop :=
  ∃ old new, l' = old ++ new ∧ Forall2 R l old ∧ Forall Q new.

Lemma extension_same {A} (R : A → A → Prop) Q l l' : Forall2 R l l' → extension R Q l l'.
Proof. intros H. exists l', []. rewrite app_nil_r. by split_and!. Qed.

Lemma extension_trans {A} (R : A → A → Prop) `{!PreOrder R} Q l1 l2 l3 :
  (∀ x y, R x y → Q x → Q y) → extension R Q l1 l2 → extension R Q l2 l3 → extension R Q l1 l3.
Proof.
  intros HQ (old&new&->&Ho&Hnew) (old'&new'&->&Ho'&Hnew').
  apply Forall2_app_inv_l in Ho' as (a&b&Ha&Hb&->). exists a, (b ++ new'). rewrite <- app_assoc.
  split_and!; [done|by etrans|]. apply Forall_app. split; [|done].
  clear -Hb Hnew HQ. induction Hb; [done|]. apply Forall_cons in Hnew as [? ?]. constructor; eauto.
Qed.

(** ** Filtering *)

Lemma filter_all {A} (P : A → Prop) `{!∀ x, Decision (P x)} l : Forall P l → filter P l = l.
Proof. induction 1; [done|]. rewrite filter_cons_True by done. by f_equal. Qed.

Lemma filter_none {A} (P : A → Prop) `{!∀ x, Decision (P x)} l :
  Forall (λ x, ¬ P x) l → filter P l = [].
Proof. induction 1; [done|]. by rewrite filter_cons_False. Qed.

Lemma omap_nil {A B} (f : A → option B) l : omap f l = [] ↔ Forall (λ x, f x = None) l.
Proof.
  induction l as [|x l IH]; simpl; [done|]. rewrite Forall_cons.
  destruct (f x); [split; [done|by intros []]|rewrite IH]. split; [done|by intros []].
Qed.

Lemma lefts_rights_nil {A B} (l : list (A + B)) : lefts l = [] ∧ rights l = [] ↔ l = [].
Proof.
  unfold lefts, rights. rewrite !omap_nil. split; [|by intros ->].
  destruct l as [|[s|s] l]; [done|..]; rewrite !Forall_cons; intros [[? _] [? _]]; done.
Qed.

(** ** Search lemmas *)
Section Find.
Context {A : Type} (p : A → bool).

Lemma find_index_Some l i :
  find_index p l = Some i ↔
  (∃ x, l !! i = Some x ∧ p x = true) ∧ ∀ j y, j < i → l !! j = Some y → p y = false.
Proof.
  revert i. induction l as [|x l IH]; intros i; simpl.
  { split; [done|]. by intros [(x&?&?) _]. }
  destruct (p x) eqn:Hx.
  - split.
    + intros [= <-]. split; [by exists x|]. intros; lia.
    + intros [_ Hmin]. destruct i as [|i]; [done|].
      specialize (Hmin 0 x ltac:(lia) eq_refl). congruence.
  - destruct i as [|i]; simpl.
    + split; [by destruct (find_index p l)|]. intros [(?&[= <-]&?) _]. congruence.
    + rewrite fmap_Some. split.
      * intros (j&Hj&[= <-]). apply IH in Hj as [Hex Hmin]. split; [done|].
        intros [|j'] y ?; simpl; [by intros [= <-]|]. apply Hmin. lia.
      * intros [Hex Hmin]. exists i. split; [|done]. apply IH. split; [done|].
        intros j y ??. apply (Hmin (S j) y); [lia|done].
Qed.

Lemma find_index_None l : find_index p l = None ↔ Forall (λ x, p x = false) l.
Proof.
  induction l as [|x l IH]; simpl; [done|].
  rewrite Forall_cons. destruct (p x) eqn:Hx; [|rewrite fmap_None, IH]; naive_solver.
Qed.

Lemma find_first_index l : find_first p l = find_index p l ≫= λ i, l !! i.
Proof.
  induction l as [|x l IH]; simpl; [done|]. destruct (p x); [done|].
  rewrite IH. by destruct (find_index p l).
Qed.

Lemma find_first_Some l x : find_first p l = Some x → x ∈ l ∧ p x = true.
Proof.
  induction l as [|y l IH]; simpl; [done|]. destruct (p y) eqn:Hy.
  - intros [= <-]. split; [by left|done].
  - intros [??]%IH. split; [by right|done].
Qed.

Lemma find_first_None l : find_first p l = None ↔ Forall (λ x, p x = false) l.
Proof.
  induction l as [|x l IH]; simpl; [done|].
  rewrite Forall_cons. destruct (p x); [|rewrite IH]; naive_solver.
Qed.

End Find.

Lemma find_index_fmap {A B} (p : B → bool) (f : A → B) l :
  find_index p (f <$> l) = find_index (λ x, p (f x)) l.
Proof. induction l as [|x l IH]; cbn; [done|]. by rewrite IH. Qed.

Lemma fmap_insert_same {A B} (f : A → B) (l : list A) i x y :
  l !! i = Some x → f y = f x → f <$> <[i:=y]> l = f <$> l.
Proof.
  intros Hi Hf. rewrite list_fmap_insert, Hf. apply list_insert_id. by rewrite list_lookup_fmap, Hi.
Qed.
