(* ===== verification/GoStrings.v ===== *)
(** * Go's [strings], [strconv] and [fmt] as the components use them

    Go strings are byte sequences and a Rocq [string] is a sequence of bytes,
    so every function below is the byte-level behaviour of the library
    function it is named after, on valid and invalid UTF-8 alike. *)
From S2P Require Import Prelude.
From stdpp Require Import pretty.
From Stdlib Require Import Ascii ZArith Lia.

(** ** [strings.TrimSpace] *)

Definition code (c : ascii) : N := N_of_ascii c.

(** ['\t' '\n' '\v' '\f' '\r' ' '] *)
Definition ascii_space (a : ascii) : bool :=
  ((9 <=? code a) && (code a <=? 13))%N || (code a =? 32)%N.

(** The two-byte encodings of U+0085 and U+00A0. *)
Definition space2 (a b : ascii) : bool :=
  ((code a =? 194) && ((code b =? 133) || (code b =? 160)))%N.

(** The three-byte encodings of the other [unicode.IsSpace] runes: U+1680,
    U+2000..U+200A, U+2028, U+2029, U+202F, U+205F and U+3000. *)
Definition space3 (a b c : ascii) : bool :=
  let x := code a in let y := code b in let z := code c in
  (((x =? 225) && (y =? 154) && (z =? 128))
   || ((x =? 226) && (y =? 128) &&
       (((128 <=? z) && (z <=? 138)) || (z =? 168) || (z =? 169) || (z =? 175)))
   || ((x =? 226) && (y =? 129) && (z =? 159))
   || ((x =? 227) && (y =? 128) && (z =? 128)))%N.

Section DropRunes.
Context (sp1 : ascii → bool) (sp2 : ascii → ascii → bool)
  (sp3 : ascii → ascii → ascii → bool).

(** Drops the leading runes of at most three bytes that the tests accept. *)
Fixpoint drop_runes (s : string) : string :=
  match s with
  | "" => ""
  | String a s1 =>
      if sp1 a then drop_runes s1 else
      match s1 with
      | "" => s
      | String b s2 =>
          if sp2 a b then drop_runes s2 else
          match s2 with
          | "" => s
          | String c s3 => if sp3 a b c then drop_runes s3 else s
          end
      end
  end.

End DropRunes.

Definition trim_left_space (s : string) : string :=
  drop_runes ascii_space space2 space3 s.
Definition trim_right_space (s : string) : string :=
  String.rev (drop_runes ascii_space (λ b a, space2 a b) (λ c b a, space3 a b c)
    (String.rev s)).
Definition TrimSpace (s : string) : string := trim_right_space (trim_left_space s).

(** ** [strings.Trim(s, "/")] and the other byte-level helpers *)

Fixpoint drop_byte (c : ascii) (s : string) : string :=
  match s with
  | "" => ""
  | String a s' => if decide (a = c) then drop_byte c s' else s
  end.

(** [strings.Trim(s, string(c))] for a one-byte cutset. *)
Definition Trim (s : string) (c : ascii) : string :=
  String.rev (drop_byte c (String.rev (drop_byte c s))).

Definition HasPrefix (s p : string) : bool := String.prefix p s.

Fixpoint sdrop (n : nat) (s : string) : string :=
  match n, s with
  | S n, String _ s' => sdrop n s'
  | _, _ => s
  end.

Definition TrimPrefix (s p : string) : string :=
  if HasPrefix s p then sdrop (String.length p) s else s.
Definition TrimSuffix (s p : string) : string :=
  String.rev (TrimPrefix (String.rev s) (String.rev p)).

(** [strings.Cut(s, string(c))] *)
Fixpoint Cut (s : string) (c : ascii) : string * string * bool :=
  match s with
  | "" => ("", "", false)
  | String a s' =>
      if decide (a = c) then ("", s', true)
      else match Cut s' c with (b, r, f) => (String a b, r, f) end
  end.

(** [strings.Split(s, string(c))] *)
Fixpoint Split (s : string) (c : ascii) : list string :=
  match s with
  | "" => [""]
  | String a s' =>
      if decide (a = c) then "" :: Split s' c
      else match Split s' c with
           | [] => [String a ""]
           | w :: ws => String a w :: ws
           end
  end.

(** [strings.Join(l, sep)] *)
Fixpoint Join (l : list string) (sep : string) : string :=
  match l with
  | [] => ""
  | [w] => w
  | w :: ws => w +:+ sep +:+ Join ws sep
  end.

(** [strings.Contains] and [strings.ContainsAny], for sets of bytes. *)
Fixpoint ContainsAny (s : string) (p : ascii → bool) : bool :=
  match s with
  | "" => false
  | String a s' => p a || ContainsAny s' p
  end.
Definition is_byte (c a : ascii) : bool := bool_decide (a = c).

(** [s[:strings.IndexAny(s, p)]], the whole of [s] when no byte of [p] occurs. *)
Fixpoint before_any (s : string) (p : ascii → bool) : string :=
  match s with
  | "" => ""
  | String a s' => if p a then "" else String a (before_any s' p)
  end.

(** [strings.ReplaceAll(s, string(c), r)] *)
Fixpoint ReplaceByte (s : string) (c : ascii) (r : string) : string :=
  match s with
  | "" => ""
  | String a s' =>
      if decide (a = c) then r +:+ ReplaceByte s' c r else String a (ReplaceByte s' c r)
  end.

(** ** [strconv.Atoi] and the [%d] verb *)

Definition digit_val (a : ascii) : option Z :=
  if ((48 <=? code a) && (code a <=? 57))%N then Some (Z.of_N (code a) - 48)%Z else None.

Fixpoint digits_acc (acc : Z) (s : string) : option Z :=
  match s with
  | "" => Some acc
  | String a s' => d ← digit_val a; digits_acc (acc * 10 + d)%Z s'
  end.

Definition digits (s : string) : option Z :=
  match s with "" => None | _ => digits_acc 0 s end.

(** [None] is any of Go's errors: empty, not a number, or out of range. *)
Definition Atoi (s : string) : option Z :=
  n ← match s with
      | String "-" s' => Z.opp <$> digits s'
      | String "+" s' => digits s'
      | _ => digits s
      end;
  if decide (is_int n) then Some n else None.

Definition itoa (z : Z) : string := pretty z.

(** ** Ordering: Go compares strings byte by byte *)

Definition str_lt (s t : string) : bool := String.ltb s t.
Definition SortStrings (l : list string) : list string := stable_sort str_lt l.

(** * Lemmas *)

(** ** String algebra *)

Lemma app_nil_l_s s : "" +:+ s = s.
Proof. done. Qed.

Lemma app_cons_s a s t : String a s +:+ t = String a (s +:+ t).
Proof. done. Qed.

Lemma app_nil_r_s s : s +:+ "" = s.
Proof. induction s; [done|]. by rewrite app_cons_s, IHs. Qed.

Lemma app_assoc_s s t u : (s +:+ t) +:+ u = s +:+ t +:+ u.
Proof. induction s; [done|]. by rewrite !app_cons_s, IHs. Qed.

Lemma length_app_s s t : String.length (s +:+ t) = String.length s + String.length t.
Proof. induction s; [done|]. rewrite app_cons_s. simpl. by rewrite IHs. Qed.

Create Rewrite HintDb str.
#[export] Hint Rewrite app_nil_l_s app_cons_s app_nil_r_s app_assoc_s length_app_s : str.

Lemma rev_app_spec s t : String.rev_app s t = String.rev s +:+ t.
Proof.
  unfold String.rev. revert t. induction s as [|a s IH]; intros t; simpl; [done|].
  rewrite IH, (IH (String a "")), app_assoc_s. done.
Qed.

Lemma rev_cons_s a s : String.rev (String a s) = String.rev s +:+ String a "".
Proof. unfold String.rev at 1. simpl. apply rev_app_spec. Qed.

Lemma rev_app_s s t : String.rev (s +:+ t) = String.rev t +:+ String.rev s.
Proof.
  induction s as [|a s IH]; [by rewrite app_nil_r_s|].
  by rewrite app_cons_s, !rev_cons_s, IH, app_assoc_s.
Qed.

Lemma rev_involutive_s s : String.rev (String.rev s) = s.
Proof. induction s; [done|]. by rewrite rev_cons_s, rev_app_s, IHs. Qed.

Lemma rev_inj_s s t : String.rev s = String.rev t → s = t.
Proof. intros H. by rewrite <- (rev_involutive_s s), H, rev_involutive_s. Qed.

Lemma rev_nil_s s : String.rev s = "" → s = "".
Proof. intros H. apply rev_inj_s. by rewrite H. Qed.

Lemma HasPrefix_iff s p : HasPrefix s p = true ↔ ∃ r, s = p +:+ r.
Proof.
  unfold HasPrefix. revert s. induction p as [|a p IH]; intros s; simpl.
  { destruct s; split; eauto. }
  destruct s as [|b s]; simpl.
  { split; [done|]. by intros [r Hr]. }
  destruct (ascii_dec a b) as [->|Hne].
  - rewrite IH. split; intros [r Hr]; exists r; [by rewrite Hr|by injection Hr].
  - split; [done|]. intros [r Hr]. by injection Hr.
Qed.

Lemma HasPrefix_refl s : HasPrefix s s = true.
Proof. apply HasPrefix_iff. exists "". by rewrite app_nil_r_s. Qed.

Lemma sdrop_app p r : sdrop (String.length p) (p +:+ r) = r.
Proof. induction p; [by destruct r|done]. Qed.

Lemma TrimPrefix_app p r : TrimPrefix (p +:+ r) p = r.
Proof.
  unfold TrimPrefix.
  rewrite (proj2 (HasPrefix_iff (p +:+ r) p)) by eauto. apply sdrop_app.
Qed.

(** ** Trimming *)

Section DropRunesLemmas.
Context (sp1 : ascii → bool) (sp2 : ascii → ascii → bool)
  (sp3 : ascii → ascii → ascii → bool).
#[local] Abbreviation drop := (drop_runes sp1 sp2 sp3).

(** What is dropped is a prefix, and what is left starts with no accepted rune. *)
Lemma drop_runes_split s : ∃ p, s = p +:+ drop s.
Proof.
  induction s as [s IH] using (induction_ltof1 _ String.length); unfold ltof in IH.
  assert (Hstep : ∀ p r, s = p +:+ r → p ≠ "" → ∃ p', s = p' +:+ drop r).
  { intros p r -> Hp. destruct (IH r) as [q Hq].
    { destruct p; [done|]. rewrite app_cons_s. simpl. rewrite length_app_s. lia. }
    exists (p +:+ q). by rewrite app_assoc_s, <- Hq. }
  destruct s as [|a [|b [|c s]]]; simpl.
  - by exists "".
  - destruct (sp1 a); [by apply (Hstep (String a "") "")|by exists ""].
  - destruct (sp1 a); [by apply (Hstep (String a "") (String b ""))|].
    destruct (sp2 a b); [by apply (Hstep (String a (String b "")) "")|by exists ""].
  - destruct (sp1 a); [by apply (Hstep (String a "") (String b (String c s)))|].
    destruct (sp2 a b); [by apply (Hstep (String a (String b "")) (String c s))|].
    destruct (sp3 a b c); [by apply (Hstep (String a (String b (String c ""))) s)|].
    by exists "".
Qed.

Lemma drop_runes_length s : String.length (drop s) ≤ String.length s.
Proof.
  destruct (drop_runes_split s) as [p Hp]. rewrite Hp at 2. rewrite length_app_s. lia.
Qed.

(** [drop s = s] when no accepted rune leads [s]. *)
Definition no_lead (s : string) : Prop :=
  match s with
  | "" => True
  | String a s1 => sp1 a = false ∧
      match s1 with
      | "" => True
      | String b s2 => sp2 a b = false ∧
          match s2 with "" => True | String c _ => sp3 a b c = false end
      end
  end.

Lemma no_lead_id s : no_lead s → drop s = s.
Proof.
  destruct s as [|a [|b [|c s]]]; simpl; intros Hs; destruct_and?;
    repeat match goal with H : ?x = false |- _ => rewrite H; clear H end; done.
Qed.

Lemma drop_runes_no_lead s : no_lead (drop s).
Proof.
  induction s as [s IH] using (induction_ltof1 _ String.length); unfold ltof in IH.
  destruct s as [|a [|b [|c s]]]; simpl; [done|..].
  - destruct (sp1 a) eqn:?; [done|]. by split.
  - destruct (sp1 a) eqn:?; [apply (IH (String b "")); simpl; lia|].
    destruct (sp2 a b) eqn:?; [done|]. by split.
  - destruct (sp1 a) eqn:?; [apply (IH (String b (String c s))); simpl; lia|].
    destruct (sp2 a b) eqn:?; [apply (IH (String c s)); simpl; lia|].
    destruct (sp3 a b c) eqn:?; [apply IH; simpl; lia|]. by repeat split.
Qed.

Lemma drop_runes_idemp s : drop (drop s) = drop s.
Proof. apply no_lead_id, drop_runes_no_lead. Qed.

Lemma no_lead_prefix p r : no_lead (p +:+ r) → no_lead p.
Proof.
  destruct p as [|a [|b [|c p]]]; [done|..]; rewrite ?app_cons_s; cbn; tauto.
Qed.

End DropRunesLemmas.

Lemma trim_right_prefix s : ∃ r, s = trim_right_space s +:+ r.
Proof.
  unfold trim_right_space.
  match goal with |- context [ drop_runes ?x ?y ?z ?u ] =>
    destruct (drop_runes_split x y z u) as [p Hp] end.
  exists (String.rev p). by rewrite <- rev_app_s, <- Hp, rev_involutive_s.
Qed.

Lemma trim_right_idemp s : trim_right_space (trim_right_space s) = trim_right_space s.
Proof. unfold trim_right_space. by rewrite rev_involutive_s, drop_runes_idemp. Qed.

Lemma TrimSpace_idemp s : TrimSpace (TrimSpace s) = TrimSpace s.
Proof.
  unfold TrimSpace at 1. unfold trim_left_space. rewrite no_lead_id.
  - apply trim_right_idemp.
  - unfold TrimSpace. destruct (trim_right_prefix (trim_left_space s)) as [r Hr].
    eapply no_lead_prefix. rewrite <- Hr. apply drop_runes_no_lead.
Qed.

Lemma drop_byte_spec c s : ∃ p, s = p +:+ drop_byte c s.
Proof.
  induction s as [|a s [p IH]]; [by exists ""|]. simpl.
  case_decide; [|by exists ""]. exists (String a p). by rewrite app_cons_s, <- IH.
Qed.

Lemma drop_byte_lead c s : ∀ s', drop_byte c s ≠ String c s'.
Proof.
  induction s as [|a s IH]; intros s'; simpl; [done|].
  case_decide; [apply IH|]. congruence.
Qed.

Lemma drop_byte_id c s : (∀ s', s ≠ String c s') → drop_byte c s = s.
Proof. destruct s as [|a s]; intros Hs; [done|]. simpl. case_decide; naive_solver. Qed.

(** The two ends of a trimmed string. *)
Lemma Trim_lead c s s' : Trim s c ≠ String c s'.
Proof.
  unfold Trim. intros Heq. destruct (drop_byte_spec c (String.rev (drop_byte c s))) as [p Hp].
  apply (f_equal String.rev) in Hp.
  rewrite rev_involutive_s, rev_app_s, Heq, app_cons_s in Hp.
  by apply (drop_byte_lead c s) in Hp.
Qed.

Lemma Trim_trail c s s' : Trim s c ≠ s' +:+ String c "".
Proof.
  unfold Trim. intros Heq. apply (f_equal String.rev) in Heq.
  rewrite rev_involutive_s, rev_app_s in Heq. by apply (drop_byte_lead c) in Heq.
Qed.

Lemma Trim_id c s :
  (∀ s', s ≠ String c s') → (∀ s', s ≠ s' +:+ String c "") → Trim s c = s.
Proof.
  intros Hl Ht. unfold Trim. rewrite (drop_byte_id c s) by done.
  rewrite drop_byte_id; [apply rev_involutive_s|].
  intros s' Heq. apply (f_equal String.rev) in Heq.
  rewrite rev_involutive_s, rev_cons_s in Heq. by apply Ht in Heq.
Qed.

Lemma Trim_idemp c s : Trim (Trim s c) c = Trim s c.
Proof. apply Trim_id; [apply Trim_lead|apply Trim_trail]. Qed.

#[export] Hint Rewrite TrimSpace_idemp Trim_idemp : str.

(** ** Splitting and joining *)

Lemma Split_nonempty s c : Split s c ≠ [].
Proof. destruct s as [|a s]; simpl; [done|]. case_decide; [done|]. by case_match. Qed.

Lemma Join_Split s c : Join (Split s c) (String c "") = s.
Proof.
  induction s as [|a s IH]; simpl; [done|].
  case_decide as Ha.
  - subst. pose proof (Split_nonempty s c). destruct (Split s c) as [|w ws] eqn:?; [done|].
    simpl. rewrite app_nil_l_s, app_cons_s, app_nil_l_s. f_equal. exact IH.
  - pose proof (Split_nonempty s c). destruct (Split s c) as [|w [|w' ws]] eqn:?; [done|..].
    + simpl in *. by rewrite IH.
    + simpl in *. rewrite app_cons_s. by rewrite IH.
Qed.

(** A string without the separator; the parts of a split are such strings. *)
Definition part (c : ascii) (s : string) : Prop := Split s c = [s].

Lemma part_cons c a s : part c (String a s) ↔ a ≠ c ∧ part c s.
Proof.
  unfold part. simpl. destruct (decide (a = c)) as [Ha|Ha].
  - split; [|by intros []]. intros Hs. exfalso. injection Hs as _ Hs. by destruct (Split_nonempty s c).
  - destruct (Split s c) as [|w ws] eqn:Hs; [by destruct (Split_nonempty s c)|].
    split; [intros [= -> ->]; done|]. by intros [_ [= -> ->]].
Qed.

Lemma Split_parts s c : Forall (part c) (Split s c).
Proof.
  induction s as [|a s IH]; simpl; [by constructor|]. case_decide; [by constructor|].
  destruct (Split s c) as [|w ws]; [by constructor; [apply part_cons|]|].
  apply Forall_cons in IH as [Hw Hws]. constructor; [|done]. by apply part_cons.
Qed.

Lemma Split_app s t c : Split (s +:+ String c t) c = Split s c ++ Split t c.
Proof.
  induction s as [|a s IH]; [rewrite app_nil_l_s; simpl; by rewrite decide_True|].
  rewrite app_cons_s. simpl. case_decide; rewrite IH; [done|].
  pose proof (Split_nonempty s c). by destruct (Split s c).
Qed.

Lemma Split_Join l c : l ≠ [] → Forall (part c) l → Split (Join l (String c "")) c = l.
Proof.
  intros Hne Hl. induction Hl as [|w l Hw Hl IH]; [done|]. destruct l as [|w' l]; [done|].
  change (Join (w :: w' :: l) (String c "")) with (w +:+ String c "" +:+ Join (w' :: l) (String c "")).
  rewrite app_cons_s, app_nil_l_s, Split_app, IH by done. by rewrite Hw.
Qed.

Lemma Cut_spec s c b r f :
  Cut s c = (b, r, f) →
  ContainsAny b (is_byte c) = false ∧
  (f = true ∧ s = b +:+ String c r ∨ f = false ∧ s = b ∧ r = "").
Proof.
  revert b r f. induction s as [|a s IH]; intros b r f; simpl.
  { intros [= <- <- <-]. auto. }
  case_decide as Ha; [intros [= <- <- <-]; subst; auto|].
  destruct (Cut s c) as [[b' r'] f'] eqn:Hc. intros [= <- <- <-].
  destruct (IH _ _ _ eq_refl) as [Hb Hs]. simpl. rewrite Hb. unfold is_byte.
  rewrite bool_decide_false by done. split; [done|].
  rewrite app_cons_s. naive_solver.
Qed.

Lemma Cut_part k t c : part c k → Cut (k +:+ String c t) c = (k, t, true).
Proof.
  induction k as [|a k IH]; intros Hp.
  - rewrite app_nil_l_s. simpl. by rewrite decide_True.
  - apply part_cons in Hp as [Ha Hp]. rewrite app_cons_s. simpl. rewrite decide_False by done.
    by rewrite IH.
Qed.

Lemma Cut_absent s c : part c s → Cut s c = (s, "", false).
Proof.
  induction s as [|a s IH]; [done|]. intros [Ha Hs]%part_cons. simpl.
  rewrite decide_False by done. by rewrite IH.
Qed.

(** ** Numbers *)

Lemma digit_val_range a d : digit_val a = Some d → (0 <= d <= 9)%Z.
Proof.
  unfold digit_val. case_match eqn:H; [|done]. intros [= <-].
  apply andb_true_iff in H as [?%N.leb_le ?%N.leb_le]. lia.
Qed.

Lemma digits_acc_mono acc s n : (0 <= acc)%Z → digits_acc acc s = Some n → (acc <= n)%Z.
Proof.
  revert acc. induction s as [|a s IH]; intros acc Hacc; simpl; [intros [= <-]; lia|].
  destruct (digit_val a) eqn:Hd; simpl; [|done]. apply digit_val_range in Hd.
  intros Hn. apply IH in Hn; lia.
Qed.

Lemma digits_nonneg s n : digits s = Some n → (0 <= n)%Z.
Proof. destruct s; [done|]. intros H. eapply digits_acc_mono, H. lia. Qed.

Lemma Atoi_is_int s n : Atoi s = Some n → is_int n.
Proof.
  unfold Atoi. intros H. apply bind_Some in H as (m&_&H). by case_decide; simplify_eq.
Qed.

Lemma pretty_digits x s : (0 < x)%N →
  digits_acc 0 (pretty_N_go x s) = digits_acc (Z.of_N x) s.
Proof.
  revert s. induction (N.lt_wf_0 x) as [x _ IH]; intros s Hx.
  rewrite pretty_N_go_step by done.
  assert (Hd : digit_val (pretty_N_char (x `mod` 10)) = Some (Z.of_N (x `mod` 10))).
  { assert (x `mod` 10 < 10)%N as Hm by (apply N.mod_lt; lia).
    revert Hm. generalize (x `mod` 10)%N as y. intros y Hy.
    assert (y = 0 ∨ y = 1 ∨ y = 2 ∨ y = 3 ∨ y = 4 ∨ y = 5 ∨ y = 6 ∨ y = 7 ∨ y = 8 ∨ y = 9)%N
      as Hc by lia.
    by repeat destruct Hc as [->|Hc]; [..|rewrite Hc]. }
  pose proof (N.div_mod x 10 ltac:(lia)) as Hdm.
  set (q := (x `div` 10)%N) in *. set (r := (x `mod` 10)%N) in *.
  assert (Hx10 : (Z.of_N q * 10 + Z.of_N r)%Z = Z.of_N x) by lia.
  destruct (decide (q = 0)%N) as [Hz|Hz].
  - rewrite Hz, pretty_N_go_0. cbn [digits_acc]. rewrite Hd. cbn [mbind option_bind].
    rewrite <- Hx10, Hz. done.
  - rewrite IH; [|by apply N.div_lt|lia]. cbn [digits_acc]. rewrite Hd.
    cbn [mbind option_bind]. by rewrite Hx10.
Qed.

Lemma pretty_N_digits (n : N) : digits (pretty n) = Some (Z.of_N n).
Proof.
  unfold pretty, pretty_N. case_decide as Hn; [by subst|].
  assert (Hd : digits_acc 0 (pretty_N_go n "") = Some (Z.of_N n)) by (apply pretty_digits; lia).
  destruct (pretty_N_go n "") eqn:Hp; [|by rewrite <- Hd]. simpl in Hd. injection Hd. lia.
Qed.

Lemma pretty_N_head (n : N) : ∃ a s d, pretty n = String a s ∧ digit_val a = Some d.
Proof.
  pose proof (pretty_N_digits n) as H. destruct (pretty n) as [|a s]; [done|].
  simpl in H. destruct (digit_val a) eqn:Ha; [|done]. eauto.
Qed.

(** [Atoi] is a left inverse of [%d] on the 64-bit integers. *)
Lemma Atoi_itoa z : is_int z → Atoi (itoa z) = Some z.
Proof.
  intros Hz. unfold Atoi, itoa.
  assert (∀ n : N, match (pretty n : string) with
    | String "-" s' => Z.opp <$> digits s' | String "+" s' => digits s'
    | _ => digits (pretty n) end = Some (Z.of_N n)) as Hpos.
  { intros n. destruct (pretty_N_head n) as (a&s&d&Hp&Hd).
    pose proof (pretty_N_digits n) as Hn. rewrite Hp in Hn |- *.
    destruct a as [[] [] [] [] [] [] [] []]; try done; by vm_compute in Hd. }
  destruct z as [|p|p].
  - done.
  - change (pretty (Z.pos p)) with (pretty (N.pos p)). rewrite Hpos.
    cbn [mbind option_bind Z.of_N]. by rewrite decide_True.
  - change (pretty (Z.neg p)) with ("-" +:+ pretty (N.pos p)).
    rewrite app_cons_s, app_nil_l_s, pretty_N_digits. cbn [fmap option_fmap option_map].
    cbn [mbind option_bind Z.of_N Z.opp]. by rewrite decide_True.
Qed.

(** ** Strings all of whose bytes satisfy a test *)

Fixpoint all_bytes (p : ascii → bool) (s : string) : bool :=
  match s with "" => true | String a s => p a && all_bytes p s end.

Lemma all_bytes_app p s t : all_bytes p (s +:+ t) = all_bytes p s && all_bytes p t.
Proof.
  induction s as [|a s IH]; [done|]. rewrite app_cons_s. simpl. by rewrite IH, andb_assoc.
Qed.

Lemma all_bytes_rev p s : all_bytes p (String.rev s) = all_bytes p s.
Proof.
  induction s as [|a s IH]; [done|]. rewrite rev_cons_s, all_bytes_app, IH. simpl.
  by rewrite andb_true_r, andb_comm.
Qed.

Lemma all_bytes_impl (p q : ascii → bool) s :
  (∀ a, p a = true → q a = true) → all_bytes p s = true → all_bytes q s = true.
Proof.
  intros Hpq. induction s as [|a s IH]; simpl; [done|]. rewrite !andb_true_iff. naive_solver.
Qed.

(** Printable ASCII other than the space. *)
Definition plain (a : ascii) : bool := ((33 <=? code a) && (code a <=? 126))%N.
Definition is_digit (a : ascii) : bool := ((48 <=? code a) && (code a <=? 57))%N.

Lemma digit_plain a : is_digit a = true → plain a = true.
Proof. unfold is_digit, plain. rewrite !andb_true_iff, !N.leb_le. lia. Qed.

Ltac n_tests := rewrite ?andb_true_iff, ?andb_false_iff, ?orb_false_iff, ?N.leb_le, ?N.leb_gt,
  ?N.eqb_eq, ?N.eqb_neq in *.

Lemma plain_no_space a :
  plain a = true → ascii_space a = false ∧ (∀ b, space2 a b = false) ∧ (∀ b, space2 b a = false)
    ∧ (∀ b c, space3 a b c = false) ∧ (∀ b c, space3 b c a = false).
Proof.
  unfold plain, ascii_space, space2, space3. intros H. split_and!; intros; repeat progress n_tests; lia.
Qed.

Lemma no_lead_plain a s :
  plain a = true → no_lead ascii_space space2 space3 (String a s)
    ∧ no_lead ascii_space (λ b a, space2 a b) (λ c b a, space3 a b c) (String a s).
Proof.
  intros Ha. destruct (plain_no_space a Ha) as (?&?&?&?&?).
  split; (split; [done|]); destruct s as [|b s]; try done; (split; [auto|]); destruct s; auto.
Qed.

(** A string that starts and ends with a plain byte is left alone. *)
Lemma TrimSpace_ends a s b r :
  plain a = true → plain b = true → String.rev (String a s) = String b r →
  TrimSpace (String a s) = String a s.
Proof.
  intros Ha Hb Hr. unfold TrimSpace, trim_right_space, trim_left_space.
  rewrite (no_lead_id ascii_space space2 space3) by (by apply no_lead_plain).
  rewrite no_lead_id; [apply rev_involutive_s|]. rewrite Hr. by apply no_lead_plain.
Qed.

Lemma TrimSpace_plain s : all_bytes plain s = true → TrimSpace s = s.
Proof.
  intros Hs. destruct s as [|a s]; [done|].
  destruct (String.rev (String a s)) as [|b r] eqn:Hr; [by apply rev_nil_s in Hr|].
  apply (TrimSpace_ends a s b r); [by apply andb_true_iff in Hs as [? _]| |done].
  rewrite <- (all_bytes_rev plain), Hr in Hs. by apply andb_true_iff in Hs as [? _].
Qed.

Lemma part_all c s : all_bytes (λ a, negb (is_byte c a)) s = true → part c s.
Proof.
  induction s as [|a s IH]; simpl; [done|]. rewrite andb_true_iff, negb_true_iff. unfold is_byte at 1.
  rewrite bool_decide_eq_false. intros [Ha Hs]. apply part_cons. auto.
Qed.

Lemma before_any_none p s : all_bytes (λ a, negb (p a)) s = true → before_any s p = s.
Proof.
  induction s as [|a s IH]; simpl; [done|]. rewrite andb_true_iff, negb_true_iff. intros [-> Hs].
  by rewrite IH.
Qed.

Lemma before_any_app p s t :
  all_bytes (λ a, negb (p a)) s = true → before_any (s +:+ t) p = s +:+ before_any t p.
Proof.
  induction s as [|a s IH]; simpl; [done|]. rewrite andb_true_iff, negb_true_iff, !app_cons_s.
  intros [Ha Hs]. simpl. by rewrite Ha, IH.
Qed.

Lemma ContainsAny_none p s : all_bytes (λ a, negb (p a)) s = true → ContainsAny s p = false.
Proof.
  induction s as [|a s IH]; simpl; [done|]. rewrite andb_true_iff, negb_true_iff. intros [-> ?]. auto.
Qed.

Lemma digits_acc_all acc s n : digits_acc acc s = Some n → all_bytes is_digit s = true.
Proof.
  revert acc. induction s as [|a s IH]; intros acc; simpl; [done|].
  destruct (digit_val a) eqn:Ha; [|done]. simpl. intros H. rewrite andb_true_iff.
  split; [|by eapply IH]. unfold digit_val in Ha. unfold is_digit. by destruct (_ && _)%N.
Qed.

(** The decimal form of a natural number is a non-empty string of digits. *)
Lemma itoa_digits z : (0 <= z)%Z → all_bytes is_digit (itoa z) = true ∧ itoa z ≠ "".
Proof.
  intros Hz. unfold itoa. assert (∃ n : N, pretty z = pretty n) as [n ->].
  { destruct z as [|p|p]; [by exists 0%N|by exists (N.pos p)|lia]. }
  pose proof (pretty_N_digits n) as Hd. destruct (pretty n) as [|a s]; [done|].
  split; [|done]. by apply (digits_acc_all 0 _ _ Hd).
Qed.

(** ** Ordering *)

Lemma str_lt_le s t : str_lt s t = true ↔ ¬ String.le t s.
Proof.
  unfold str_lt, String.le, String.ltb, String.leb. rewrite (String.compare_antisym t s).
  destruct (String.compare s t); simpl; intuition congruence.
Qed.

#[export] Instance str_lt_strict : StrictWeak str_lt.
Proof.
  split.
  - intros x. apply not_true_iff_false. rewrite str_lt_le. by intros [].
  - intros x y z. rewrite !str_lt_le. intros Hxy Hyz Hzx. apply Hyz.
    destruct (total String.le x y) as [?|?]; [by transitivity x|done].
  - intros x y z. rewrite !str_lt_le. intros Hxz.
    destruct (decide (String.le y x)); [|by left]. right. intros Hzy.
    apply Hxz. by transitivity y.
Qed.

Lemma str_lt_total s t : str_lt s t = false → str_lt t s = false → s = t.
Proof.
  rewrite <- !not_true_iff_false, !str_lt_le. intros Hst Hts.
  apply dec_stable in Hst, Hts. by apply (anti_symm String.le).
Qed.

Lemma not_after_le s t : not_after str_lt s t → String.le s t.
Proof.
  unfold not_after. rewrite <- not_true_iff_false, str_lt_le. intros H. by apply dec_stable in H.
Qed.

Lemma SortStrings_sorted l : StronglySorted String.le (SortStrings l).
Proof.
  unfold SortStrings. induction (stable_sort_sorted str_lt l) as [|x l' _ IH Hx];
    constructor; [done|]. eapply Forall_impl; [exact Hx|]. apply not_after_le.
Qed.

Lemma SortStrings_perm l : SortStrings l ≡ₚ l.
Proof. apply stable_sort_perm. Qed.

(** The sorted slice depends only on the collection that was sorted, not on
    the order in which a map iteration delivered it. *)
#[export] Instance SortStrings_Proper : Proper ((≡ₚ) ==> (=)) SortStrings.
Proof.
  intros l l' Hl. apply (StronglySorted_unique String.le); try apply SortStrings_sorted.
  by rewrite !SortStrings_perm.
Qed.
