(* ===== verification/GoRunes.v ===== *)
(** * Go's runes: UTF-8, [unicode] and the rune-level functions of [strings]

    A rune is a number below [0x110000]. The tables of [unicode] beyond ASCII
    (letters, digits, lower case, case folding) are the class [Unicode]; on
    ASCII the functions are the ones of the library. *)
From S2P Require Import Prelude GoStrings.
From Stdlib Require Import Ascii ZArith Lia.

(** ** UTF-8 *)

Definition RuneError : N := 65533.

(** The runes that have an encoding: all but the surrogates. *)
Definition valid_rune (r : N) : bool :=
  ((r <? 55296) || ((57344 <=? r) && (r <? 1114112)))%N.

Definition cont (a : ascii) : bool := ((128 <=? code a) && (code a <? 192))%N.
Definition between (lo hi : N) (a : ascii) : bool := ((lo <=? code a) && (code a <=? hi))%N.

(** The well-formed sequences of two, three and four bytes. *)
Definition seq2 (a b : ascii) : bool := between 194 223 a && cont b.
Definition seq3 (a b c : ascii) : bool :=
  ((is_byte "224" a && between 160 191 b)
   || (is_byte "237" a && between 128 159 b)
   || (between 225 239 a && negb (is_byte "237" a) && cont b)) && cont c.
Definition seq4 (a b c d : ascii) : bool :=
  ((is_byte "240" a && between 144 191 b)
   || (is_byte "244" a && between 128 143 b)
   || (between 241 243 a && cont b)) && cont c && cont d.

Definition rune2 (a b : ascii) : N := ((code a - 192) * 64 + (code b - 128))%N.
Definition rune3 (a b c : ascii) : N :=
  ((code a - 224) * 4096 + (code b - 128) * 64 + (code c - 128))%N.
Definition rune4 (a b c d : ascii) : N :=
  ((code a - 240) * 262144 + (code b - 128) * 4096 + (code c - 128) * 64 + (code d - 128))%N.

(** [[]rune(s)], and the runes that [range s] visits: a byte that starts no
    well-formed sequence is read as [RuneError]. *)
Fixpoint runes (s : string) : list N :=
  match s with
  | "" => []
  | String a s1 =>
      if (code a <? 128)%N then code a :: runes s1 else
      match s1 with
      | "" => RuneError :: runes s1
      | String b s2 =>
          if seq2 a b then rune2 a b :: runes s2 else
          match s2 with
          | "" => RuneError :: runes s1
          | String c s3 =>
              if seq3 a b c then rune3 a b c :: runes s3 else
              match s3 with
              | "" => RuneError :: runes s1
              | String d s4 =>
                  if seq4 a b c d then rune4 a b c d :: runes s4 else RuneError :: runes s1
              end
          end
      end
  end.

Definition byte (n : N) : ascii := ascii_of_N n.

(** [utf8.AppendRune] and [strings.Builder.WriteRune] *)
Definition encode_rune (r : N) : string :=
  let r := if valid_rune r then r else RuneError in
  if (r <? 128)%N then String (byte r) ""
  else if (r <? 2048)%N then
    String (byte (192 + r / 64)) (String (byte (128 + r mod 64)) "")
  else if (r <? 65536)%N then
    String (byte (224 + r / 4096)) (String (byte (128 + r / 64 mod 64))
      (String (byte (128 + r mod 64)) ""))
  else
    String (byte (240 + r / 262144)) (String (byte (128 + r / 4096 mod 64))
      (String (byte (128 + r / 64 mod 64)) (String (byte (128 + r mod 64)) ""))).

Definition encode (rs : list N) : string := foldr (λ r s, encode_rune r +:+ s) "" rs.

(** ** [unicode] *)

Class Unicode : Type := {
  lower_beyond : N → N;
  upper_beyond : N → N;
  letter_beyond : N → bool;
  digit_beyond : N → bool;
  (** Case folding of two runes that are not both ASCII. *)
  fold_beyond : N → N → bool;
}.

Definition IsSpace (r : N) : bool :=
  (((9 <=? r) && (r <=? 13)) || (r =? 32) || (r =? 133) || (r =? 160) || (r =? 5760)
   || ((8192 <=? r) && (r <=? 8202)) || (r =? 8232) || (r =? 8233) || (r =? 8239)
   || (r =? 8287) || (r =? 12288))%N.

Section Tables.
Context {U : Unicode}.

Definition upper_ascii (r : N) : bool := ((65 <=? r) && (r <=? 90))%N.
Definition lower_ascii (r : N) : bool := ((97 <=? r) && (r <=? 122))%N.

Definition unicode_ToLower (r : N) : N :=
  if (r <? 128)%N then (if upper_ascii r then r + 32 else r)%N else lower_beyond r.
Definition IsLetter (r : N) : bool :=
  if (r <? 128)%N then upper_ascii r || lower_ascii r else letter_beyond r.
Definition IsDigit (r : N) : bool :=
  if (r <? 128)%N then ((48 <=? r) && (r <=? 57))%N else digit_beyond r.

Definition unicode_ToUpper (r : N) : N :=
  if (r <? 128)%N then (if lower_ascii r then r - 32 else r)%N else upper_beyond r.

(** ** [strings.ToLower], [strings.ToUpper] and [strings.EqualFold] *)

Definition ToUpper (s : string) : string := encode (unicode_ToUpper <$> runes s).

Definition ToLower (s : string) : string := encode (unicode_ToLower <$> runes s).

Definition fold_rune (r r' : N) : bool :=
  (r =? r')%N
  || (if ((r <? 128) && (r' <? 128))%N then (unicode_ToLower r =? unicode_ToLower r')%N
      else fold_beyond r r').

Fixpoint fold_runes (rs rs' : list N) : bool :=
  match rs, rs' with
  | [], [] => true
  | r :: rs, r' :: rs' => fold_rune r r' && fold_runes rs rs'
  | _, _ => false
  end.

Definition EqualFold (s t : string) : bool := fold_runes (runes s) (runes t).

End Tables.

(** ** [strings.Fields] *)

Definition flush (cur : string) (l : list string) : list string :=
  if bool_decide (cur = "") then l else cur :: l.

(** [cur] is the field being read. *)
Fixpoint fields_from (cur : string) (s : string) : list string :=
  match s with
  | "" => flush cur []
  | String a s1 =>
      let keep := λ _ : unit, fields_from (cur +:+ String a "") s1 in
      if ascii_space a then flush cur (fields_from "" s1) else
      match s1 with
      | "" => keep tt
      | String b s2 =>
          if space2 a b then flush cur (fields_from "" s2) else
          match s2 with
          | "" => keep tt
          | String c s3 => if space3 a b c then flush cur (fields_from "" s3) else keep tt
          end
      end
  end.

Definition Fields (s : string) : list string := fields_from "" s.

(** ** Substrings and cutsets *)

Fixpoint Contains (s sub : string) : bool :=
  HasPrefix s sub ||
  match s with
  | "" => false
  | String _ s' => Contains s' sub
  end.

Definition HasSuffix (s t : string) : bool := HasPrefix (String.rev s) (String.rev t).

Fixpoint drop_while (p : ascii → bool) (s : string) : string :=
  match s with
  | "" => ""
  | String a s' => if p a then drop_while p s' else s
  end.

(** [strings.TrimRight] and [strings.Trim] for a cutset of ASCII bytes. *)
Definition TrimRightSet (p : ascii → bool) (s : string) : string :=
  String.rev (drop_while p (String.rev s)).
Definition TrimSet (p : ascii → bool) (s : string) : string := TrimRightSet p (drop_while p s).

(** The character 34, which delimits Rocq strings. *)
Definition dquote : ascii := ascii_of_N 34.
Definition squote : ascii := ascii_of_N 39.

(** * Lemmas *)

Ltac byte_tests :=
  unfold seq2, seq3, seq4, between, cont, is_byte in *;
  repeat match goal with
  | H : context [bool_decide (?a = ?b)] |- _ => destruct (bool_decide_reflect (a = b)); subst
  | |- context [bool_decide (?a = ?b)] => destruct (bool_decide_reflect (a = b)); subst
  end.

Lemma seq2_cont a b : seq2 a b = true → cont b = true.
Proof. unfold seq2. by intros [_ H]%andb_true_iff. Qed.

Lemma cont_iff a : cont a = true ↔ (128 <= code a < 192)%N.
Proof. unfold cont. rewrite andb_true_iff, N.leb_le, N.ltb_lt. tauto. Qed.

Lemma seq3_cont a b c : seq3 a b c = true → cont b = true ∧ cont c = true.
Proof.
  unfold seq3. intros [H Hc]%andb_true_iff. split; [|done].
  rewrite !orb_true_iff, !andb_true_iff in H. unfold between in H. apply cont_iff.
  destruct H as [[[_ H]|[_ H]]|[_ H]]; [| |by apply cont_iff in H];
    rewrite andb_true_iff, !N.leb_le in H; lia.
Qed.

Lemma seq4_cont a b c d :
  seq4 a b c d = true → cont b = true ∧ cont c = true ∧ cont d = true.
Proof.
  unfold seq4. intros [[H Hc]%andb_true_iff Hd]%andb_true_iff. split; [|done].
  rewrite !orb_true_iff, !andb_true_iff in H. unfold between in H. apply cont_iff.
  destruct H as [[[_ H]|[_ H]]|[_ H]]; [| |by apply cont_iff in H];
    rewrite andb_true_iff, !N.leb_le in H; lia.
Qed.

(** [utf8.DecodeRuneInString]: the first rune and what follows it. *)
Definition DecodeRune (a : ascii) (s1 : string) : N * string :=
  let bad := (RuneError, s1) in
  if (code a <? 128)%N then (code a, s1) else
  match s1 with
  | "" => bad
  | String b s2 =>
      if seq2 a b then (rune2 a b, s2) else
      match s2 with
      | "" => bad
      | String c s3 =>
          if seq3 a b c then (rune3 a b c, s3) else
          match s3 with
          | "" => bad
          | String d s4 => if seq4 a b c d then (rune4 a b c d, s4) else bad
          end
      end
  end.

Lemma runes_cons a s : runes (String a s) = (DecodeRune a s).1 :: runes (DecodeRune a s).2.
Proof.
  unfold DecodeRune. cbn [runes]. repeat (case_match; [done|]). repeat case_match; done.
Qed.

Lemma DecodeRune_length a s : String.length (DecodeRune a s).2 ≤ String.length s.
Proof. unfold DecodeRune. repeat case_match; simpl; lia. Qed.

(** Induction over a string, a rune at a time. *)
Lemma runes_ind (P : string → Prop) :
  P "" → (∀ a s, P (DecodeRune a s).2 → P (String a s)) → ∀ s, P s.
Proof.
  intros H0 HS s. induction s as [s IH] using (induction_ltof1 _ String.length).
  unfold ltof in IH. destruct s as [|a s]; [done|]. apply HS, IH. simpl.
  pose proof (DecodeRune_length a s). lia.
Qed.

(** A byte that continues no sequence starts a rune of its own. *)
Lemma DecodeRune_app x s a t :
  cont a = false →
  DecodeRune x (s +:+ String a t) = ((DecodeRune x s).1, (DecodeRune x s).2 +:+ String a t).
Proof.
  intros Ha.
  assert (H2 : seq2 x a = false) by (apply not_true_is_false; intros ?%seq2_cont; congruence).
  assert (H3 : ∀ y, seq3 x a y = false ∧ seq3 x y a = false).
  { intros y. split; apply not_true_is_false; intros [? ?]%seq3_cont; congruence. }
  assert (H4 : ∀ y z, seq4 x a y z = false ∧ seq4 x y a z = false ∧ seq4 x y z a = false).
  { intros y z. repeat split; apply not_true_is_false; intros (?&?&?)%seq4_cont; congruence. }
  unfold DecodeRune. destruct (code x <? 128)%N; [done|].
  destruct s as [|y [|z [|w s]]]; rewrite ?app_cons_s, ?app_nil_l_s;
    repeat first [rewrite H2|rewrite (proj1 (H3 _))|rewrite (proj2 (H3 _))
      |rewrite (proj1 (H4 _ _))|rewrite (proj1 (proj2 (H4 _ _)))
      |rewrite (proj2 (proj2 (H4 _ _)))|case_match]; simplify_eq/=; done.
Qed.

Lemma runes_app s a t :
  cont a = false → runes (s +:+ String a t) = runes s ++ runes (String a t).
Proof.
  intros Ha. induction s as [|x s IH] using runes_ind; [done|].
  rewrite app_cons_s, !(runes_cons x), DecodeRune_app by done. simpl. by rewrite IH.
Qed.

(** ** Encoding *)

Lemma code_byte n : (n < 256)%N → code (byte n) = n.
Proof. apply N_ascii_embedding. Qed.

Lemma byte_code a : byte (code a) = a.
Proof. apply ascii_N_embedding. Qed.

Ltac Zify.zify_post_hook ::= Z.to_euclidean_division_equations.

Ltac byte_bool :=
  repeat first
    [ rewrite orb_true_iff | rewrite andb_true_iff | rewrite negb_true_iff
    | rewrite N.leb_le | rewrite N.ltb_lt | rewrite bool_decide_eq_true
    | rewrite bool_decide_eq_false ].

Lemma valid_rune_iff r : valid_rune r = true ↔ (r < 55296 ∨ 57344 <= r < 1114112)%N.
Proof. unfold valid_rune. byte_bool. tauto. Qed.

Lemma is_byte_code c a : is_byte c a = (code a =? code c)%N.
Proof.
  unfold is_byte. apply eq_true_iff_eq. rewrite bool_decide_eq_true, N.eqb_eq.
  split; [congruence|]. intros H. by rewrite <- (byte_code a), H, byte_code.
Qed.

Lemma runes_encode_rune r s : valid_rune r = true → runes (encode_rune r +:+ s) = r :: runes s.
Proof.
  intros Hr. unfold encode_rune. rewrite Hr. apply valid_rune_iff in Hr.
  destruct (r <? 128)%N eqn:H1; [apply N.ltb_lt in H1|apply N.ltb_ge in H1].
  { rewrite app_cons_s, app_nil_l_s, runes_cons. unfold DecodeRune.
    rewrite code_byte by lia. by rewrite (proj2 (N.ltb_lt _ _)). }
  destruct (r <? 2048)%N eqn:H2; [apply N.ltb_lt in H2|apply N.ltb_ge in H2].
  { rewrite !app_cons_s, app_nil_l_s, runes_cons. unfold DecodeRune.
    unfold seq2, rune2, cont, between. rewrite !code_byte by lia.
    rewrite (proj2 (N.ltb_ge _ _)) by lia.
    rewrite (proj2 (andb_true_iff _ _)); [cbn [fst snd]; f_equal; lia|].
    byte_bool. lia. }
  destruct (r <? 65536)%N eqn:H3; [apply N.ltb_lt in H3|apply N.ltb_ge in H3].
  { rewrite !app_cons_s, app_nil_l_s, runes_cons. unfold DecodeRune.
    unfold seq2, seq3, rune3, cont, between. rewrite !is_byte_code, !code_byte by lia.
    rewrite (proj2 (N.ltb_ge _ _)) by lia.
    rewrite (proj2 (andb_false_iff _ _)) by (left; apply andb_false_iff; right; apply N.leb_gt; lia).
    rewrite (proj2 (andb_true_iff _ _)); [cbn [fst snd]; f_equal; lia|].
    change (code "224") with 224%N. change (code "237") with 237%N.
    byte_bool. rewrite !N.eqb_eq, N.eqb_neq. lia. }
  rewrite !app_cons_s, app_nil_l_s, runes_cons. unfold DecodeRune.
  unfold seq2, seq3, seq4, rune4, cont, between. rewrite !is_byte_code, !code_byte by lia.
  change (code "224") with 224%N. change (code "237") with 237%N.
  change (code "240") with 240%N. change (code "244") with 244%N.
  rewrite (proj2 (N.ltb_ge _ _)) by lia.
  rewrite (proj2 (andb_false_iff _ _)) by (left; apply andb_false_iff; right; apply N.leb_gt; lia).
  match goal with |- context [if ?b then _ else _] => assert (b = false) as -> end.
  { apply not_true_is_false. byte_bool. rewrite !N.eqb_eq, N.eqb_neq. lia. }
  rewrite (proj2 (andb_true_iff _ _)); [cbn [fst snd]; f_equal; lia|].
  byte_bool. rewrite !N.eqb_eq. lia.
Qed.

Lemma runes_encode rs : Forall (λ r, valid_rune r = true) rs → runes (encode rs) = rs.
Proof.
  induction 1 as [|r rs Hr _ IH]; [done|]. simpl. by rewrite runes_encode_rune, IH.
Qed.

Lemma seq2_valid a b : seq2 a b = true → valid_rune (rune2 a b) = true.
Proof.
  unfold seq2, rune2, cont, between. byte_bool. intros. apply valid_rune_iff. lia.
Qed.

Lemma seq3_valid a b c : seq3 a b c = true → valid_rune (rune3 a b c) = true.
Proof.
  unfold seq3, rune3, cont, between. rewrite !is_byte_code.
  change (code "224") with 224%N. change (code "237") with 237%N.
  byte_bool. rewrite !N.eqb_eq, N.eqb_neq. intros. apply valid_rune_iff. lia.
Qed.

Lemma seq4_valid a b c d : seq4 a b c d = true → valid_rune (rune4 a b c d) = true.
Proof.
  unfold seq4, rune4, cont, between. rewrite !is_byte_code.
  change (code "240") with 240%N. change (code "244") with 244%N.
  byte_bool. rewrite !N.eqb_eq. intros. apply valid_rune_iff. lia.
Qed.

Lemma DecodeRune_valid a s : valid_rune (DecodeRune a s).1 = true.
Proof.
  unfold DecodeRune. destruct (N.ltb_spec (code a) 128).
  { apply valid_rune_iff. simpl. lia. }
  repeat case_match; by eauto using seq2_valid, seq3_valid, seq4_valid.
Qed.

(** A byte beyond ASCII starts a rune beyond ASCII. *)
Lemma DecodeRune_high a s : (128 <= code a)%N → (128 <= (DecodeRune a s).1)%N.
Proof.
  intros Ha. unfold DecodeRune. rewrite (proj2 (N.ltb_ge _ _)) by done. unfold RuneError.
  repeat case_match; cbn [fst]; try lia;
    repeat match goal with H : _ = false |- _ => clear H end;
    match goal with H : _ = true |- _ => revert H end;
    unfold seq2, seq3, seq4, rune2, rune3, rune4, cont, between; rewrite ?is_byte_code;
    change (code "224") with 224%N; change (code "237") with 237%N;
    change (code "240") with 240%N; change (code "244") with 244%N;
    byte_bool; rewrite ?N.eqb_eq, ?N.eqb_neq; intros; lia.
Qed.

Lemma runes_valid s : Forall (λ r, valid_rune r = true) (runes s).
Proof.
  induction s as [|a s IH] using runes_ind; [constructor|].
  rewrite runes_cons. constructor; [apply DecodeRune_valid|done].
Qed.

(** ** ASCII strings: the rune functions are the byte functions *)

Definition ascii_string (s : string) : bool := all_bytes (λ a, code a <? 128)%N s.

Lemma runes_ascii s : ascii_string s = true → runes s = code <$> String.list_ascii_of_string s.
Proof.
  induction s as [|a s IH]; [done|]. cbn. intros [Ha Hs]%andb_true_iff.
  rewrite Ha. f_equal. by apply IH.
Qed.

Lemma encode_runes s : ascii_string s = true → encode (runes s) = s.
Proof.
  induction s as [|a s IH]; [done|]. cbn. intros [Ha Hs]%andb_true_iff. rewrite Ha. cbn.
  unfold encode_rune, valid_rune. apply N.ltb_lt in Ha as Hc.
  rewrite (proj2 (N.ltb_lt (code a) 55296)) by lia. simpl orb. cbn iota beta.
  rewrite Ha, byte_code, app_cons_s, app_nil_l_s. f_equal. by apply IH.
Qed.

(** ** Spaces *)

(** A string of whole white-space runes. *)
Inductive spaces : string → Prop :=
| spaces_nil : spaces ""
| spaces_1 a s : ascii_space a = true → spaces s → spaces (String a s)
| spaces_2 a b s : space2 a b = true → spaces s → spaces (String a (String b s))
| spaces_3 a b c s :
    space3 a b c = true → spaces s → spaces (String a (String b (String c s))).
#[local] Hint Constructors spaces : core.

Lemma spaces_app s t : spaces s → spaces t → spaces (s +:+ t).
Proof. induction 1; intros; rewrite ?app_cons_s; auto. Qed.

Lemma drop_runes_dropped sp1 sp2 sp3 (P : string → Prop) s :
  P "" → (∀ a w, sp1 a = true → P w → P (String a w)) →
  (∀ a b w, sp2 a b = true → P w → P (String a (String b w))) →
  (∀ a b c w, sp3 a b c = true → P w → P (String a (String b (String c w)))) →
  ∃ w, s = w +:+ drop_runes sp1 sp2 sp3 s ∧ P w.
Proof.
  intros P0 P1 P2 P3. induction s as [s IH] using (induction_ltof1 _ String.length).
  unfold ltof in IH.
  destruct s as [|a s1]; [by exists ""|]. cbn [drop_runes].
  destruct (sp1 a) eqn:E1.
  { destruct (IH s1 ltac:(simpl; lia)) as (w&Hw&Pw). exists (String a w).
    rewrite app_cons_s, <- Hw. auto. }
  destruct s1 as [|b s2]; [by exists ""|]. destruct (sp2 a b) eqn:E2.
  { destruct (IH s2 ltac:(simpl; lia)) as (w&Hw&Pw). exists (String a (String b w)).
    rewrite !app_cons_s, <- Hw. auto. }
  destruct s2 as [|c s3]; [by exists ""|]. destruct (sp3 a b c) eqn:E3; [|by exists ""].
  destruct (IH s3 ltac:(simpl; lia)) as (w&Hw&Pw). exists (String a (String b (String c w))).
  rewrite !app_cons_s, <- Hw. auto.
Qed.

Lemma trim_left_split s : ∃ w, s = w +:+ trim_left_space s ∧ spaces w.
Proof. apply drop_runes_dropped; auto. Qed.

Lemma trim_right_split s : ∃ w, s = trim_right_space s +:+ w ∧ spaces w.
Proof.
  unfold trim_right_space.
  destruct (drop_runes_dropped ascii_space (λ b a, space2 a b) (λ c b a, space3 a b c)
    (λ w, spaces (String.rev w)) (String.rev s)) as (w&Hw&Hsp).
  - done.
  - intros a w Ha Hw. rewrite rev_cons_s. apply spaces_app; auto.
  - intros a b w Hab Hw. rewrite !rev_cons_s, app_assoc_s. apply spaces_app; [done|].
    rewrite app_cons_s, app_nil_l_s. auto.
  - intros a b c w Habc Hw. rewrite !rev_cons_s, !app_assoc_s. apply spaces_app; [done|].
    rewrite !app_cons_s, !app_nil_l_s. auto.
  - exists (String.rev w). split; [|done]. by rewrite <- rev_app_s, <- Hw, rev_involutive_s.
Qed.

(** [strings.TrimSpace] removes white space at both ends and nothing else. *)
Lemma TrimSpace_split s : ∃ w w', s = w +:+ TrimSpace s +:+ w' ∧ spaces w ∧ spaces w'.
Proof.
  destruct (trim_left_split s) as (w&Hw&?).
  destruct (trim_right_split (trim_left_space s)) as (w'&Hw'&?).
  exists w, w'. split; [|done]. unfold TrimSpace. by rewrite <- Hw'.
Qed.

Lemma space2_codes a b : space2 a b = true → code a = 194%N ∧ (code b = 133 ∨ code b = 160)%N.
Proof. unfold space2. rewrite andb_true_iff, orb_true_iff, !N.eqb_eq. tauto. Qed.

Lemma space3_codes a b c :
  space3 a b c = true → (225 <= code a <= 227 ∧ 128 <= code b < 160 ∧ 128 <= code c < 176)%N.
Proof.
  unfold space3. cbn zeta. rewrite !orb_true_iff, !andb_true_iff, !orb_true_iff, !andb_true_iff.
  rewrite !N.eqb_eq, !N.leb_le. lia.
Qed.

Lemma spaces_lead s : spaces s → s = "" ∨ ∃ a s', s = String a s' ∧ cont a = false.
Proof.
  intros Hs. destruct Hs as [|a s Ha _|a b s Ha _|a b c s Ha _]; [by left|right..];
    (eexists _, _; split; [done|]); apply not_true_is_false; rewrite cont_iff.
  - unfold ascii_space in Ha. rewrite orb_true_iff, andb_true_iff, !N.leb_le, N.eqb_eq in Ha. lia.
  - apply space2_codes in Ha. lia.
  - apply space3_codes in Ha. lia.
Qed.

Lemma runes_app_spaces s w : spaces w → runes (s +:+ w) = runes s ++ runes w.
Proof.
  intros [->|(a&w'&->&Ha)]%spaces_lead; [by rewrite app_nil_r_s, app_nil_r|]. by apply runes_app.
Qed.

Lemma runes_spaces_app w s : spaces w → runes (w +:+ s) = runes w ++ runes s.
Proof.
  induction 1 as [|a w Ha _ IH|a b w Ha _ IH|a b c w Ha _ IH]; [done|..];
    rewrite ?app_cons_s, !(runes_cons a); unfold DecodeRune.
  - unfold ascii_space in Ha. rewrite orb_true_iff, andb_true_iff, !N.leb_le, N.eqb_eq in Ha.
    rewrite (proj2 (N.ltb_lt _ _)) by lia. cbn. by rewrite IH.
  - apply space2_codes in Ha as Hc. rewrite (proj2 (N.ltb_ge _ _)) by lia.
    assert (seq2 a b = true) as ->.
    { unfold seq2, between, cont. byte_bool. lia. }
    cbn. by rewrite IH.
  - apply space3_codes in Ha as Hc. rewrite (proj2 (N.ltb_ge _ _)) by lia.
    assert (seq2 a b = false) as ->.
    { apply not_true_is_false. unfold seq2, between, cont. byte_bool. lia. }
    destruct (seq3 a b c) eqn:E; [cbn; by rewrite IH|]. exfalso.
    apply (not_true_iff_false (seq3 a b c)) in E. apply E. unfold seq3, between, cont.
    rewrite !is_byte_code. change (code "224") with 224%N. change (code "237") with 237%N.
    byte_bool. rewrite !N.eqb_eq, N.eqb_neq. lia.
Qed.

Lemma runes_TrimSpace s : ∃ r r', runes s = r ++ runes (TrimSpace s) ++ r'.
Proof.
  destruct (TrimSpace_split s) as (w&w'&Hs&Hw&Hw').
  exists (runes w), (runes w'). rewrite Hs at 1.
  by rewrite runes_spaces_app, runes_app_spaces by done.
Qed.

Lemma length_runes_TrimSpace s : length (runes (TrimSpace s)) ≤ length (runes s).
Proof. destruct (runes_TrimSpace s) as (r&r'&->). rewrite !length_app. lia. Qed.
