(* ===== verification/GoPath.v ===== *)
(** * Go's [path/filepath] on a system whose separator is a slash

    [Clean], [Base], [Dir], [Join] and [Abs] on every path, [Rel] on two rooted
    ones. A rooted path is cleaned to the list of its elements, and containment
    of paths is the prefix relation of these lists. *)
From S2P Require Import Prelude GoStrings GoRunes.
From Stdlib Require Import Ascii ZArith Lia.

Definition slash : ascii := "/"%char.

Definition IsAbs (p : string) : bool := HasPrefix p "/".

(** One path element of [filepath.Clean]; the stack of kept elements is
    reversed. *)
Definition clean_elem (rooted : bool) (stack : list string) (e : string) : list string :=
  if bool_decide (e = "" ∨ e = ".") then stack
  else if bool_decide (e = "..") then
    match stack with
    | [] => if rooted then [] else [".."]
    | x :: stack' => if bool_decide (x = "..") then ".." :: stack else stack'
    end
  else e :: stack.

Definition clean_elems (rooted : bool) (p : string) : list string :=
  rev (fold_left (clean_elem rooted) (Split p slash) []).

(** [filepath.Clean] *)
Definition Clean (p : string) : string :=
  if IsAbs p then "/" +:+ Join (clean_elems true p) "/"
  else
    let r := Join (clean_elems false p) "/" in
    if bool_decide (r = "") then "." else r.

(** [filepath.Base] *)
Definition Base (p : string) : string :=
  if bool_decide (p = "") then "."
  else
    let p := TrimRightSet (is_byte slash) p in
    let e := String.rev (before_any (String.rev p) (is_byte slash)) in
    if bool_decide (e = "") then "/" else e.

(** [filepath.Dir] *)
Definition Dir (p : string) : string :=
  Clean (TrimRightSet (λ a, negb (is_byte slash a)) p).

(** [filepath.Join] of two elements. *)
Definition JoinPath (a b : string) : string :=
  if bool_decide (a = "") then (if bool_decide (b = "") then "" else Clean b)
  else Clean (a +:+ "/" +:+ b).

(** [filepath.Abs], given what [os.Getwd] returns. *)
Definition Abs {E} (getwd : result E string) (p : string) : result E string :=
  if IsAbs p then Ok (Clean p)
  else match getwd with Ok wd => Ok (JoinPath wd p) | Err e => Err e end.

Fixpoint drop_common (base targ : list string) : list string * list string :=
  match base, targ with
  | b :: base', t :: targ' => if bool_decide (b = t) then drop_common base' targ' else (base, targ)
  | _, _ => (base, targ)
  end.

(** [filepath.Rel] on two rooted paths, which does not fail. *)
Definition Rel (basepath targpath : string) : string :=
  let base := clean_elems true basepath in
  let targ := clean_elems true targpath in
  if bool_decide (base = targ) then "."
  else match drop_common base targ with
       | (base', targ') => Join (((λ _, "..") <$> base') ++ targ') "/"
       end.

(** * Lemmas *)

(** An element [filepath.Clean] keeps. *)
Definition clean_part (e : string) : Prop := part slash e ∧ e ≠ "" ∧ e ≠ "." ∧ e ≠ "..".

Lemma clean_elem_part stack e :
  part slash e → Forall clean_part stack → Forall clean_part (clean_elem true stack e).
Proof.
  intros He Hs. unfold clean_elem. case_bool_decide as H1; [done|].
  case_bool_decide as H2.
  - destruct Hs as [|x stack (?&?&?&?) Hs]; [done|]. by rewrite bool_decide_false.
  - constructor; [|done]. unfold clean_part. tauto.
Qed.

Lemma clean_fold_part l stack :
  Forall (part slash) l → Forall clean_part stack →
  Forall clean_part (fold_left (clean_elem true) l stack).
Proof. intros Hl. revert stack. induction Hl; simpl; auto using clean_elem_part. Qed.

Lemma clean_fold_id rooted l stack :
  Forall clean_part l → fold_left (clean_elem rooted) l stack = rev l ++ stack.
Proof.
  intros Hl. revert stack. induction Hl as [|e l (_&H1&H2&H3) Hl IH]; intros stack; [done|]. simpl.
  rewrite IH. unfold clean_elem. rewrite !bool_decide_false by tauto.
  by rewrite <- app_assoc.
Qed.

Lemma clean_elems_parts p : Forall clean_part (clean_elems true p).
Proof. apply Forall_rev, clean_fold_part; [|constructor]. apply Split_parts. Qed.

(** The rooted path with the given elements. *)
Definition rooted (l : list string) : string := "/" +:+ Join l "/".

Lemma IsAbs_rooted l : IsAbs (rooted l) = true.
Proof. apply HasPrefix_iff. by eexists. Qed.

Lemma Clean_abs p : IsAbs p = true → Clean p = rooted (clean_elems true p).
Proof. unfold Clean. by intros ->. Qed.

Lemma clean_elems_rooted l : Forall clean_part l → clean_elems true (rooted l) = l.
Proof.
  intros Hl. unfold clean_elems, rooted. apply rev_inj. rewrite rev_involutive.
  change (Split ("/" +:+ Join l "/") slash) with ("" :: Split (Join l (String slash "")) slash).
  destruct (decide (l = [])) as [->|Hne]; [done|].
  rewrite Split_Join; [|done|].
  - change (fold_left (clean_elem true) ("" :: l) []) with (fold_left (clean_elem true) l []).
    rewrite clean_fold_id by done. by rewrite app_nil_r.
  - eapply Forall_impl; [done|]. by intros e [? _].
Qed.

(** What [Clean] returns: a slash and the kept elements. *)
Lemma Clean_parts p :
  IsAbs p = true → ∃ l, Clean p = rooted l ∧ Forall clean_part l.
Proof. intros Hp. rewrite Clean_abs by done. eauto using clean_elems_parts. Qed.

Lemma Clean_rooted l : Forall clean_part l → Clean (rooted l) = rooted l.
Proof. intros Hl. by rewrite Clean_abs, clean_elems_rooted by (done || apply IsAbs_rooted). Qed.

(** A path joined to a rooted one extends the elements of the latter. *)
Lemma clean_elems_Join w p :
  IsAbs w = true →
  clean_elems true (JoinPath w p) =
  rev (fold_left (clean_elem true) (Split p slash) (rev (clean_elems true w))).
Proof.
  intros Hw. unfold JoinPath. rewrite bool_decide_false by (by intros ->).
  assert (IsAbs (w +:+ "/" +:+ p) = true) as Hj.
  { apply HasPrefix_iff in Hw as [r ->]. apply HasPrefix_iff. exists (r +:+ "/" +:+ p).
    by rewrite app_assoc_s. }
  rewrite Clean_abs, clean_elems_rooted by (done || apply clean_elems_parts).
  unfold clean_elems. change (w +:+ "/" +:+ p) with (w +:+ String slash p).
  rewrite (Split_app w p slash), fold_left_app. by rewrite rev_involutive.
Qed.

(** ** Containment *)

Lemma drop_common_spec base targ base' targ' :
  drop_common base targ = (base', targ') →
  ∃ c, base = c ++ base' ∧ targ = c ++ targ' ∧
    (base' = [] ∨ ¬ base' `prefix_of` targ').
Proof.
  revert targ. induction base as [|b base IH]; intros targ; simpl.
  { intros [= <- <-]. exists []. naive_solver. }
  destruct targ as [|t targ].
  { intros [= <- <-]. exists []. split_and!; [done..|]. right. by apply prefix_nil_not. }
  case_bool_decide as Hb.
  - intros (c&->&->&Hc)%IH. exists (b :: c). by subst.
  - intros [= <- <-]. exists []. split_and!; [done..|]. right. by intros ?%prefix_cons_inv_1.
Qed.

(** The test of the code on the result of [Rel]. *)
Definition escapes (rel : string) : bool :=
  bool_decide (rel = "..") || HasPrefix rel "../" || IsAbs rel.

Lemma Split_Join_parts l : Forall clean_part l → l ≠ [] → Split (Join l "/") slash = l.
Proof.
  intros Hl Hne. apply (Split_Join l slash Hne). eapply Forall_impl; [done|]. by intros e [? _].
Qed.

(** The result of [filepath.Rel] points outside exactly when the target does not
    extend the base. *)
Lemma escapes_Rel base targ :
  escapes (Rel base targ) = false ↔ clean_elems true base `prefix_of` clean_elems true targ.
Proof.
  unfold Rel. case_bool_decide as Heq; [by rewrite Heq|].
  destruct (drop_common _ _) as [base' targ'] eqn:Hd.
  apply drop_common_spec in Hd as (c&Hb&Ht&Hc). rewrite Hb, Ht.
  destruct base' as [|b base'].
  - rewrite app_nil_r. split; [by eexists|]. intros _. cbn [fmap list_fmap app].
    assert (targ' ≠ []) as Hne by (intros ->; congruence).
    pose proof (clean_elems_parts targ) as Hp. rewrite Ht, Forall_app in Hp. destruct Hp as [_ Hp].
    pose proof (Split_Join_parts targ' Hp Hne) as Hs.
    apply not_true_is_false. unfold escapes, IsAbs.
    rewrite !orb_true_iff, bool_decide_eq_true, !HasPrefix_iff.
    intros [[Hj|[r Hj]]|[r Hj]]; rewrite Hj in Hs; rewrite <- Hs in Hp;
      cbn in Hp; by apply Forall_cons in Hp as [(_&?&?&?) _].
  - split.
    + intros Hesc. exfalso. revert Hesc. apply not_false_iff_true. unfold escapes.
      rewrite !orb_true_iff, bool_decide_eq_true, HasPrefix_iff. cbn [fmap list_fmap app].
      cbn [Join]. case_match; [by left; left|]. left. right. by eexists.
    + intros Hpre. apply prefix_app_inv in Hpre. naive_solver.
Qed.
