(* ===== verification/ShellLexer.v ===== *)
(** * Shell command lines: tokens, segments and substitutions
    ([internal/platform/tooling/shell_policy.go], first half)

    The hand-written lexers of the shell policy, byte by byte or rune by rune
    as in the code: [SplitCommandLine] (argv), [splitShellCommand] (segments of
    a command line), [extractCommandSubstitutions], and the classification of
    tokens. A loop of the code is a recursion on what is left of the input,
    with the loop's variables as arguments. *)
From S2P Require Import Prelude GoStrings GoRunes GoPath.
From Stdlib Require Import Ascii ZArith Lia.

Section Lexer.
Context {U : Unicode}.

(** ** [SplitCommandLine] *)

Definition backslash_rune : N := 92.
Definition squote_rune : N := 39.
Definition dquote_rune : N := 34.

(** [rest] is what follows the backslash; [quote] is [None] for 0. *)
Definition escapedRune (rest : list N) (quote : option N) : option N :=
  match rest with
  | [] => None
  | next :: _ =>
      if (next =? backslash_rune)%N || (next =? squote_rune)%N || (next =? dquote_rune)%N
         || IsSpace next
      then
        match quote with
        | None => Some next
        | Some q =>
            if (next =? q)%N || (next =? backslash_rune)%N || IsSpace next
            then Some next else None
        end
      else None
  end.

(** [flush]: the token read so far goes in front of the ones to come, unless it
    is empty. *)
Definition push_token (current : list N) (args : result string (list string)) :
    result string (list string) :=
  match args with
  | Ok args => Ok (if bool_decide (current = []) then args else encode current :: args)
  | Err e => Err e
  end.

Fixpoint split_command (quote : option N) (current : list N) (rs : list N) :
    result string (list string) :=
  match rs with
  | [] =>
      match quote with
      | Some _ => Err "unterminated quote"
      | None => push_token current (Ok [])
      end
  | r :: rest =>
      let write := λ _ : unit, split_command quote (current ++ [r]) rest in
      let or_escaped := λ _ : unit,
        match escapedRune rest quote, rest with
        | Some next, _ :: rest' => split_command quote (current ++ [next]) rest'
        | _, _ => write tt
        end in
      match quote with
      | Some q =>
          if (r =? q)%N then split_command None current rest
          else if (r =? backslash_rune)%N then or_escaped tt
          else write tt
      | None =>
          if (r =? backslash_rune)%N then or_escaped tt
          else if (r =? squote_rune)%N || (r =? dquote_rune)%N then split_command (Some r) current rest
          else if IsSpace r then push_token current (split_command None [] rest)
          else write tt
      end
  end.

Definition SplitCommandLine (input : string) : result string (list string) :=
  let input := TrimSpace input in
  if bool_decide (input = "") then Err "empty command"
  else
    match split_command None [] (runes input) with
    | Err e => Err e
    | Ok [] => Err "empty command"
    | Ok args => Ok args
    end.

(** ** [splitShellCommand] *)

Definition backslash : ascii := "\"%char.
Definition backtick : ascii := "`"%char.
Definition newline : ascii := "010"%char.

Definition lastNonSpaceByte (data : string) : ascii :=
  match drop_while (λ a, IsSpace (code a)) (String.rev data) with
  | "" => "000"%char
  | String a _ => a
  end.

(** [appendSegment] *)
Definition push_segment (current : string) (segments : result string (list string)) :
    result string (list string) :=
  match segments with
  | Ok segments =>
      Ok (if bool_decide (TrimSpace current = "") then segments else TrimSpace current :: segments)
  | Err e => Err e
  end.

(** [command[i+1] == c], within bounds. *)
Definition next_is (c : ascii) (s : string) : bool :=
  match s with "" => false | String a _ => is_byte c a end.

Fixpoint split_segments (inSingle inDouble escaped : bool) (current command : string) :
    result string (list string) :=
  match command with
  | "" =>
      if escaped then Err "unfinished escape sequence"
      else if inSingle || inDouble then Err "unterminated quote"
      else push_segment current (Ok [])
  | String ch rest =>
      let current' := current +:+ String ch "" in
      if escaped then split_segments inSingle inDouble false current' rest
      else if inSingle then split_segments (negb (is_byte squote ch)) inDouble false current' rest
      else if is_byte backtick ch then Err "command substitution is not allowed"
      else if (is_byte "<" ch || is_byte ">" ch) && next_is "(" rest
      then Err "process substitution is not allowed"
      else if inDouble then
        if is_byte backslash ch then split_segments false true true current' rest
        else split_segments false (negb (is_byte dquote ch)) false current' rest
      else if is_byte backslash ch then split_segments false false true current' rest
      else if is_byte squote ch then split_segments true false false current' rest
      else if is_byte dquote ch then split_segments false true false current' rest
      else if is_byte "&" ch then
        if next_is "&" rest then
          push_segment current
            match rest with
            | "" => Ok []
            | String _ rest' => split_segments false false false "" rest'
            end
        else if next_is ">" rest then split_segments false false false current' rest
        else if is_byte ">" (lastNonSpaceByte current) || is_byte "<" (lastNonSpaceByte current)
        then split_segments false false false current' rest
        else Err "background execution is not allowed"
      else if is_byte "|" ch then
        push_segment current
          match rest with
          | String c rest' =>
              if is_byte "|" c then split_segments false false false "" rest'
              else split_segments false false false "" rest
          | "" => split_segments false false false "" rest
          end
      else if is_byte ";" ch || is_byte newline ch
      then push_segment current (split_segments false false false "" rest)
      else split_segments false false false current' rest
  end.

Definition splitShellCommand (command : string) : result string (list string) :=
  let command := TrimSpace command in
  if bool_decide (command = "") then Ok []
  else split_segments false false false "" command.

(** ** Command substitutions *)

(** [extractBalancedParen] on what follows the opening parenthesis: the inner
    text and the number of bytes read, the closing parenthesis included. *)
Fixpoint balanced (depth : nat) (inSingle inDouble escaped : bool) (inner s : string) :
    option (string * nat) :=
  match s with
  | "" => None
  | String ch rest =>
      let inner' := inner +:+ String ch "" in
      let more := λ r, match r with Some (t, n) => Some (t, S n) | None => None end in
      if escaped then more (balanced depth inSingle inDouble false inner' rest)
      else if is_byte backslash ch then more (balanced depth inSingle inDouble true inner' rest)
      else if inSingle then more (balanced depth (negb (is_byte squote ch)) inDouble false inner' rest)
      else if is_byte squote ch then more (balanced depth true inDouble false inner' rest)
      else if inDouble then more (balanced depth false (negb (is_byte dquote ch)) false inner' rest)
      else if is_byte dquote ch then more (balanced depth false true false inner' rest)
      else if is_byte "(" ch then more (balanced (S depth) false false false inner' rest)
      else if is_byte ")" ch then
        match depth with
        | 0 => Some (TrimSpace inner, 1)
        | S depth => more (balanced depth false false false inner' rest)
        end
      else more (balanced depth false false false inner' rest)
  end.

Definition extractBalancedParen (s : string) : option (string * nat) :=
  balanced 0 false false false "" s.

(** The loop of [extractCommandSubstitutions]; [skip] counts the bytes that
    [i = end] jumps over and [escaped] is [command[i-1] == '\\']. *)
Fixpoint extract (skip : nat) (escaped inSingle : bool) (command : string) : list string :=
  match command with
  | "" => []
  | String ch rest =>
      let next := λ k q, extract k (is_byte backslash ch) q rest in
      match skip with
      | S skip => next skip inSingle
      | 0 =>
          if is_byte squote ch && negb escaped then next 0 (negb inSingle)
          else if inSingle then next 0 true
          else if negb (is_byte "$" ch) then next 0 false
          else
            match rest with
            | String p inside =>
                if negb (is_byte "(" p) then next 0 false
                else if next_is "(" inside then next 0 false
                else
                  match extractBalancedParen inside with
                  | None => next 0 false
                  | Some (inner, n) => inner :: next (S n) false
                  end
            | "" => next 0 false
            end
      end
  end.

Definition extractCommandSubstitutions (command : string) : list string :=
  extract 0 false false command.

(** ** Tokens *)

(** The runes of [token[:idx]]: letters, underscores, and digits but for the
    first. *)
Fixpoint assignment_name (first : bool) (rs : list N) : bool :=
  match rs with
  | [] => true
  | r :: rs =>
      ((r =? 95)%N || IsLetter r || (IsDigit r && negb first)) && assignment_name false rs
  end.

Definition isShellEnvAssignment (token : string) : bool :=
  match Cut token "=" with
  | (name, _, found) =>
      if negb found || bool_decide (name = "") then false
      else assignment_name true (runes name)
  end.

Definition redirectionConsumesNextToken (token : string) : bool :=
  bool_decide (token ∈ ["<"; ">"; ">>"; "<<"; "<<<"; "<>"; "1>"; "1>>"; "1<"; "2>"; "2>>"; "2<";
                        "&>"; "&>>"; ">&"; "<&"]).

Definition isShellRedirectionToken (token : string) : bool :=
  if bool_decide (token = "") then false
  else if redirectionConsumesNextToken token then true
  else if HasPrefix token "&>" then true
  else
    let rest := drop_while is_digit token in
    if next_is "<" rest || next_is ">" rest then true
    else HasPrefix token "<" || HasPrefix token ">".

Fixpoint first_command (skipNext : bool) (argv : list string) : string :=
  match argv with
  | [] => ""
  | token :: argv =>
      if skipNext then first_command false argv
      else if bool_decide (token = "") then first_command false argv
      else if isShellEnvAssignment token then first_command false argv
      else if redirectionConsumesNextToken token then first_command true argv
      else if isShellRedirectionToken token then first_command false argv
      else token
  end.

Definition firstShellCommandName (segment : string) : result string string :=
  match SplitCommandLine segment with
  | Err e => Err e
  | Ok argv => Ok (first_command false argv)
  end.

End Lexer.

(** * Theorems *)

(** ** Segments are simple commands *)

(** The text between two double quotes: a backslash takes the next byte with it,
    and neither a backtick nor a process substitution occurs. *)
Inductive dquoted : string → Prop :=
| dquoted_nil : dquoted ""
| dquoted_byte a s :
    a ≠ dquote → a ≠ backslash → a ≠ backtick → dquoted s → dquoted (String a s)
| dquoted_escape a s : dquoted s → dquoted (String backslash (String a s)).

(** An unquoted byte that is neither a quote, nor an escape, nor an operator. *)
Definition ordinary (a : ascii) : Prop :=
  a ∉ [squote; dquote; backslash; backtick; newline; "&"%char; "|"%char; ";"%char].

(** What a shell reads as one simple command: ordinary bytes, escaped bytes,
    quoted texts, and the ampersands of redirections. Operators occur only
    escaped or quoted. *)
Inductive simple_command : string → Prop :=
| simple_nil : simple_command ""
| simple_byte a s : ordinary a → simple_command s → simple_command (String a s)
| simple_escape a s : simple_command s → simple_command (String backslash (String a s))
| simple_single q s :
    part squote q → simple_command s →
    simple_command (String squote (q +:+ String squote s))
| simple_double q s :
    dquoted q → simple_command s → simple_command (String dquote (q +:+ String dquote s))
| simple_ampersand s :
    next_is "&" s = false → simple_command s → simple_command (String "&" s).

Definition separators : list string := ["&&"; "||"; "|"; ";"; String newline ""].

(** A command line: simple commands with separators in between. *)
Fixpoint weave (c : string) (l : list (string * string)) : string :=
  match l with
  | [] => c
  | (sep, c') :: l => c +:+ sep +:+ weave c' l
  end.

Definition segments_of (cs : list string) : list string := filter (λ s, s ≠ "") (TrimSpace <$> cs).

Lemma is_byte_true c a : is_byte c a = true → a = c.
Proof. apply bool_decide_eq_true_1. Qed.

Lemma is_byte_false c a : is_byte c a = false → a ≠ c.
Proof. apply bool_decide_eq_false_1. Qed.

Lemma push_segment_ok cur r segs :
  push_segment cur r = Ok segs →
  ∃ l, r = Ok l ∧ segs = filter (λ s, s ≠ "") [TrimSpace cur] ++ l.
Proof.
  destruct r as [l|]; [|done]. intros [= <-]. exists l. split; [done|].
  rewrite filter_cons. case_bool_decide; case_decide; naive_solver.
Qed.

Section Segments.
#[local] Abbreviation loop := split_segments.

(** A single quote is read up to the next one. *)
Lemma single_closes cur s segs :
  loop true false false cur s = Ok segs →
  ∃ q s', s = q +:+ String squote s' ∧ part squote q ∧
    loop false false false (cur +:+ q +:+ String squote "") s' = Ok segs.
Proof.
  revert cur. induction s as [|a s IH]; intros cur; [done|]. cbn [split_segments].
  destruct (is_byte squote a) eqn:Ha; simpl.
  - apply is_byte_true in Ha as ->. intros H. exists "", s. done.
  - apply is_byte_false in Ha. intros (q&s'&->&Hq&H)%IH. exists (String a q), s'.
    rewrite app_cons_s. split_and!; [done|by apply part_cons|].
    by rewrite app_assoc_s, app_cons_s, app_nil_l_s in H.
Qed.

(** A double quote is read up to the next one that is not escaped. *)
Lemma double_closes s cur segs :
  loop false true false cur s = Ok segs →
  ∃ q s', s = q +:+ String dquote s' ∧ dquoted q ∧
    loop false false false (cur +:+ q +:+ String dquote "") s' = Ok segs.
Proof.
  revert cur. induction s as [s IH] using (induction_ltof1 _ String.length). unfold ltof in IH.
  intros cur. destruct s as [|a s]; [done|]. cbn [split_segments].
  destruct (is_byte backtick a) eqn:Hbt; [done|].
  destruct (_ && _); [done|].
  destruct (is_byte backslash a) eqn:Hbs.
  - apply is_byte_true in Hbs as ->. destruct s as [|b s]; [done|]. cbn [split_segments].
    intros (q&s'&->&Hq&H)%IH; [|simpl; lia]. exists (String backslash (String b q)), s'.
    rewrite !app_cons_s. split_and!; [done|by constructor|].
    by rewrite !app_assoc_s, !app_cons_s, !app_nil_l_s in H.
  - apply is_byte_false in Hbt, Hbs. destruct (is_byte dquote a) eqn:Hd; simpl.
    + apply is_byte_true in Hd as ->. intros H. exists "", s. split_and!; [done|constructor|done].
    + apply is_byte_false in Hd. intros (q&s'&->&Hq&H)%IH; [|simpl; lia]. exists (String a q), s'.
      rewrite app_cons_s. split_and!; [done|by constructor|].
      by rewrite app_assoc_s, app_cons_s, app_nil_l_s in H.
Qed.

(** What the loop returns from an unquoted position. *)
Definition reads (cur s : string) (segs : list string) : Prop :=
  ∃ c l, s = weave c l ∧ simple_command c ∧
    Forall (λ p, p.1 ∈ separators ∧ simple_command p.2) l ∧
    segs = segments_of ((cur +:+ c) :: l.*2).

Lemma weave_app u c l : weave (u +:+ c) l = u +:+ weave c l.
Proof. destruct l as [|[sep c'] l]; simpl; by rewrite ?app_assoc_s. Qed.

Lemma reads_more u cur s segs :
  (∀ c r, s = c +:+ r → simple_command c → simple_command (u +:+ c)) →
  reads (cur +:+ u) s segs → reads cur (u +:+ s) segs.
Proof.
  intros Hu (c&l&->&Hc&Hl&->). exists (u +:+ c), l. rewrite weave_app, app_assoc_s.
  split_and!; [done| |done..]. destruct l as [|[sep c'] l]; [|by eapply Hu].
  apply (Hu c ""); [by rewrite app_nil_r_s|done].
Qed.

Lemma reads_sep sep cur s r segs :
  sep ∈ separators → push_segment cur r = Ok segs →
  (∀ l, r = Ok l → reads "" s l) → reads cur (sep +:+ s) segs.
Proof.
  intros Hsep (l&->&->)%push_segment_ok H. destruct (H l eq_refl) as (c&l'&->&Hc&Hl&->).
  exists "", ((sep, c) :: l'). split_and!; [done|constructor|by constructor|].
  rewrite app_nil_r_s. unfold segments_of. by rewrite <- filter_app.
Qed.

Lemma split_segments_reads cur s segs : loop false false false cur s = Ok segs → reads cur s segs.
Proof.
  revert cur segs. induction s as [s IH] using (induction_ltof1 _ String.length). unfold ltof in IH.
  intros cur segs. destruct s as [|a s].
  { cbn [split_segments orb]. intros (l&[= <-]&->)%push_segment_ok. exists "", []. rewrite app_nil_r_s.
    split_and!; [done|constructor|constructor|]. unfold segments_of. by rewrite app_nil_r. }
  assert (Hmore : (∀ c r, s = c +:+ r → simple_command c → simple_command (String a c)) →
    loop false false false (cur +:+ String a "") s = Ok segs → reads cur (String a s) segs).
  { intros Ha H%IH; [|simpl; lia]. by apply (reads_more (String a "")). }
  cbn [split_segments].
  destruct (is_byte backtick a) eqn:Hbt; [done|].
  destruct ((_ || _) && _) eqn:Hps; [done|].
  destruct (is_byte backslash a) eqn:Hbs.
  { apply is_byte_true in Hbs as ->. destruct s as [|b s]; [done|]. cbn [split_segments].
    intros H%IH; [|simpl; lia].
    apply (reads_more (String backslash (String b ""))); [by intros; constructor|].
    by rewrite app_assoc_s in H. }
  destruct (is_byte squote a) eqn:Hsq.
  { apply is_byte_true in Hsq as ->. intros (q&s'&->&Hq&H)%single_closes.
    apply IH in H; [|simpl; rewrite length_app_s; simpl; lia].
    rewrite app_assoc_s, app_cons_s, app_nil_l_s in H.
    apply (reads_more (String squote (q +:+ String squote ""))) in H.
    + by rewrite app_cons_s, app_assoc_s in H.
    + intros c r _ Hc. rewrite app_cons_s, app_assoc_s. by constructor. }
  destruct (is_byte dquote a) eqn:Hdq.
  { apply is_byte_true in Hdq as ->. intros (q&s'&->&Hq&H)%double_closes.
    apply IH in H; [|simpl; rewrite length_app_s; simpl; lia].
    rewrite app_assoc_s, app_cons_s, app_nil_l_s in H.
    apply (reads_more (String dquote (q +:+ String dquote ""))) in H.
    + by rewrite app_cons_s, app_assoc_s in H.
    + intros c r _ Hc. rewrite app_cons_s, app_assoc_s. by constructor. }
  destruct (is_byte "&" a) eqn:Hamp.
  { apply is_byte_true in Hamp as ->. destruct s as [|b s]; cbn [next_is].
    - destruct (is_byte ">" _ || is_byte "<" _); [|done]. apply Hmore. intros c r Heq Hc. apply simple_ampersand; [by destruct c|done].
    - destruct (is_byte "&" b) eqn:Hb.
      + apply is_byte_true in Hb as ->. intros H.
        apply (reads_sep "&&" cur s) in H; [done|set_solver|]. intros l. apply IH. simpl. lia.
      + assert (∀ c r, String b s = c +:+ r → simple_command c → simple_command (String "&" c)) as Hc.
        { intros c r Heq Hc. apply simple_ampersand; [|done].
          destruct c as [|x c]; [done|]. by injection Heq as <- _. }
        destruct (is_byte ">" b); [by apply Hmore|].
        destruct (is_byte ">" _ || is_byte "<" _); [by apply Hmore|done]. }
  destruct (is_byte "|" a) eqn:Hbar.
  { apply is_byte_true in Hbar as ->. destruct s as [|b s]; [|destruct (is_byte "|" b) eqn:Hb].
    - intros H. apply (reads_sep "|" cur "") in H; [done|set_solver|]. intros l. apply IH. simpl. lia.
    - apply is_byte_true in Hb as ->. intros H.
      apply (reads_sep "||" cur s) in H; [done|set_solver|]. intros l. apply IH. simpl. lia.
    - intros H. apply (reads_sep "|" cur (String b s)) in H; [done|set_solver|].
      intros l. apply IH. simpl. lia. }
  destruct (is_byte ";" a || is_byte newline a) eqn:Hend.
  { intros H. apply (reads_sep (String a "") cur s) in H; [done| |].
    - apply orb_true_iff in Hend as [->%is_byte_true| ->%is_byte_true]; set_solver.
    - intros l. apply IH. simpl. lia. }
  apply Hmore. intros c _ _ Hc. constructor; [|done]. unfold ordinary.
  apply orb_false_iff in Hend as [? ?].
  repeat match goal with H : is_byte _ a = false |- _ => apply is_byte_false in H end. set_solver.
Qed.
End Segments.

(** Every command line that the lexer accepts is a sequence of simple
    commands with separators ([&&], [||], [|], [;], newline) in between, from
    the first byte to the last: in a simple command of the declarative grammar
    an operator, a backtick or a newline occurs only quoted or escaped. The
    segments returned, which is all that the policy looks at, are exactly these
    simple commands, trimmed, blank ones left out, in order: no part of the
    command line escapes the checks. *)
Theorem splitShellCommand_sound command segs :
  splitShellCommand command = Ok segs →
  ∃ c l, TrimSpace command = weave c l ∧ simple_command c ∧
    Forall (λ p, p.1 ∈ separators ∧ simple_command p.2) l ∧
    segs = segments_of (c :: l.*2).
Proof.
  unfold splitShellCommand. cbn zeta. case_bool_decide as Hc.
  - intros [= <-]. exists "", []. rewrite Hc. repeat constructor.
  - intros (c&l&?&?&?&->)%split_segments_reads. by exists c, l.
Qed.

(** ** Quoting and splitting *)

(** [arg] in double quotes, with a backslash before a double quote or a
    backslash. *)
Definition escape_runes (rs : list N) : list N :=
  rs ≫= λ r, if (r =? backslash_rune)%N || (r =? dquote_rune)%N then [backslash_rune; r] else [r].
Definition quoted_runes (rs : list N) : list N :=
  dquote_rune :: escape_runes rs ++ [dquote_rune].
Definition quote_arg (arg : string) : string := encode (quoted_runes (runes arg)).

Lemma encode_app rs rs' : encode (rs ++ rs') = encode rs +:+ encode rs'.
Proof. induction rs as [|r rs IH]; [done|]. simpl. by rewrite IH, app_assoc_s. Qed.

Lemma encode_nil rs : encode rs = "" ↔ rs = [].
Proof.
  split; [|by intros ->]. destruct rs as [|r rs]; [done|]. simpl.
  unfold encode_rune. by repeat case_match.
Qed.

Lemma split_quoted cur rs rest :
  split_command (Some dquote_rune) cur (escape_runes rs ++ dquote_rune :: rest)
  = split_command None (cur ++ rs) rest.
Proof.
  revert cur. induction rs as [|r rs IH]; intros cur; [by rewrite app_nil_r|].
  replace (cur ++ r :: rs) with ((cur ++ [r]) ++ rs) by by rewrite <- app_assoc.
  rewrite <- IH. change (escape_runes (r :: rs)) with
    ((if (r =? backslash_rune)%N || (r =? dquote_rune)%N then [backslash_rune; r] else [r])
      ++ escape_runes rs).
  rewrite <- app_assoc.
  destruct (N.eqb_spec r backslash_rune) as [->|Hb]; [done|].
  destruct (N.eqb_spec r dquote_rune) as [->|Hd]; [done|]. simpl app.
  cbn [split_command]. apply N.eqb_neq in Hb, Hd. by rewrite Hb, Hd.
Qed.

(** The runes of the quoted arguments, with a space in between. *)
Fixpoint join_runes (l : list (list N)) : list N :=
  match l with
  | [] => []
  | [rs] => quoted_runes rs
  | rs :: l => quoted_runes rs ++ 32%N :: join_runes l
  end.

Lemma split_join l :
  split_command None [] (join_runes l) = Ok (encode <$> filter (λ rs, rs ≠ []) l).
Proof.
  induction l as [|rs l IH]; [done|].
  assert (∀ rest, split_command None [] (quoted_runes rs ++ rest) = split_command None rs rest) as Hq.
  { intros rest. unfold quoted_runes. rewrite <- app_comm_cons, <- app_assoc.
    change (split_command (Some dquote_rune) [] (escape_runes rs ++ dquote_rune :: rest)
      = split_command None rs rest). by rewrite split_quoted. }
  rewrite filter_cons. destruct l as [|rs' l].
  - specialize (Hq []). rewrite app_nil_r in Hq. cbn [join_runes]. rewrite Hq. simpl.
    case_bool_decide; case_decide; naive_solver.
  - change (join_runes (rs :: rs' :: l)) with (quoted_runes rs ++ 32%N :: join_runes (rs' :: l)).
    rewrite Hq. cbn [split_command].
    change (push_token rs (split_command None [] (join_runes (rs' :: l))) =
      Ok (encode <$> (if decide (rs ≠ []) then rs :: filter (λ rs, rs ≠ []) (rs' :: l)
                      else filter (λ rs, rs ≠ []) (rs' :: l)))).
    rewrite IH. simpl. case_bool_decide; case_decide; naive_solver.
Qed.

Lemma encode_join_runes l :
  encode (join_runes l) = Join ((λ rs, encode (quoted_runes rs)) <$> l) " ".
Proof.
  induction l as [|rs [|rs' l] IH]; [done|done|].
  change (join_runes (rs :: rs' :: l)) with (quoted_runes rs ++ 32%N :: join_runes (rs' :: l)).
  rewrite encode_app. change (encode (32%N :: join_runes (rs' :: l))) with (" " +:+ encode (join_runes (rs' :: l))).
  by rewrite IH.
Qed.

Lemma join_runes_quoted rs l :
  ∃ m, encode (join_runes (rs :: l)) = String dquote (m +:+ String dquote "").
Proof.
  revert rs. induction l as [|rs' l IH]; intros rs.
  - exists (encode (escape_runes rs)). change (join_runes [rs]) with (quoted_runes rs).
    unfold quoted_runes. cbn [encode foldr]. fold (encode (escape_runes rs ++ [dquote_rune])).
    by rewrite encode_app.
  - destruct (IH rs') as [m Hm].
    exists (encode (escape_runes rs) +:+ String dquote (String " " (String dquote m))).
    change (join_runes (rs :: rs' :: l)) with (quoted_runes rs ++ 32%N :: join_runes (rs' :: l)).
    rewrite encode_app. change (encode (32%N :: join_runes (rs' :: l))) with (" " +:+ encode (join_runes (rs' :: l))).
    rewrite Hm. unfold quoted_runes. cbn [encode foldr]. fold (encode (escape_runes rs ++ [dquote_rune])).
    rewrite encode_app, !app_assoc_s. reflexivity.
Qed.

Lemma join_runes_valid l :
  Forall (Forall (λ r, valid_rune r = true)) l → Forall (λ r, valid_rune r = true) (join_runes l).
Proof.
  assert (∀ rs, Forall (λ r, valid_rune r = true) rs →
    Forall (λ r, valid_rune r = true) (quoted_runes rs)) as Hq.
  { intros rs Hrs. unfold quoted_runes. constructor; [done|]. apply Forall_app. split; [|by constructor].
    induction Hrs as [|r rs Hr _ IH]; [constructor|]. apply Forall_app. split; [|done].
    case_match; repeat constructor; done. }
  induction 1 as [|rs l Hrs Hl IH]; [constructor|].
  destruct l as [|rs' l]; [by apply Hq|].
  change (join_runes (rs :: rs' :: l)) with (quoted_runes rs ++ 32%N :: join_runes (rs' :: l)).
  apply Forall_app. split; [by apply Hq|by constructor].
Qed.

(** [s] is valid UTF-8. *)
Definition utf8 (s : string) : Prop := encode (runes s) = s.

(** C37: Splitting is a left inverse of quoting, up to empty arguments: joining
    any valid UTF-8 arguments, whatever they contain (spaces, quotes,
    backslashes, newlines), each in double quotes with double quotes and
    backslashes escaped, and splitting the result gives back these arguments in
    order, except that an empty argument disappears; if nothing is left the
    command is refused as empty. *)
Theorem SplitCommandLine_quoted args :
  Forall utf8 args →
  SplitCommandLine (Join (quote_arg <$> args) " ") =
  match filter (λ a, a ≠ "") args with [] => Err "empty command" | args => Ok args end.
Proof.
  intros Hu. destruct args as [|a args]; [done|].
  replace (quote_arg <$> a :: args) with ((λ rs, encode (quoted_runes rs)) <$> (runes <$> a :: args))
    by by rewrite <- list_fmap_compose.
  rewrite <- encode_join_runes. set (l := runes <$> a :: args).
  destruct (join_runes_quoted (runes a) (runes <$> args)) as [m Hm].
  assert (TrimSpace (encode (join_runes l)) = encode (join_runes l)) as Ht.
  { unfold l. rewrite fmap_cons, Hm. apply (TrimSpace_ends _ _ dquote (String.rev (String dquote m))); [done..|].
    rewrite <- (app_cons_s dquote m), rev_app_s. done. }
  unfold SplitCommandLine. cbn zeta. rewrite Ht, bool_decide_false.
  2: { unfold l. by rewrite fmap_cons, Hm. }
  rewrite runes_encode, split_join.
  2: { apply join_runes_valid, Forall_fmap, Forall_true. intros s. apply runes_valid. }
  assert (encode <$> filter (λ rs, rs ≠ []) l = filter (λ a, a ≠ "") (a :: args)) as ->.
  2: { by case_match. }
  unfold l. clear - Hu. induction Hu as [|s args' Hs _ IH]; [done|].
  rewrite fmap_cons, !filter_cons, <- IH.
  assert (runes s ≠ [] ↔ s ≠ "") as Hne by (by rewrite <- encode_nil, Hs).
  repeat case_decide; try tauto. by rewrite fmap_cons, Hs.
Qed.

(** ** Substitutions *)

Lemma balanced_text depth q d e inner s t n :
  balanced depth q d e inner s = Some (t, n) →
  ∃ x r, s = x +:+ String ")" r ∧ t = TrimSpace (inner +:+ x).
Proof.
  revert depth q d e inner n. induction s as [|ch s IH]; intros depth q d e inner n; [done|].
  assert (∀ depth q d e,
    match balanced depth q d e (inner +:+ String ch "") s with
    | Some (t, n) => Some (t, S n) | None => None end = Some (t, n) →
    ∃ x r, String ch s = x +:+ String ")" r ∧ t = TrimSpace (inner +:+ x)) as Hmore.
  { intros depth' q' d' e' H. destruct (balanced depth' _ _ _ _ _) as [[t' n']|] eqn:Hb; [|done].
    injection H as <- _. apply IH in Hb as (x&r&->&->). exists (String ch x), r.
    by rewrite app_assoc_s, !app_cons_s, app_nil_l_s. }
  cbn [balanced]. repeat (case_match; [by eauto|]). case_match eqn:Hp; [|by eauto].
  apply is_byte_true in Hp as ->. destruct depth; [|by eauto].
  intros [= <- _]. exists "", s. by rewrite app_nil_r_s.
Qed.

(** What is extracted is the trimmed text between some dollar-parenthesis and
    some closing parenthesis after it. *)
Lemma extract_text inner k e q command :
  inner ∈ extract k e q command →
  ∃ p x r, command = p +:+ "$(" +:+ x +:+ String ")" r ∧ inner = TrimSpace x.
Proof.
  revert k e q. induction command as [|ch rest IH]; intros k e q; [by intros ?%elem_of_nil|].
  assert (∀ k e q, inner ∈ extract k e q rest →
    ∃ p x r, String ch rest = p +:+ "$(" +:+ x +:+ String ")" r ∧ inner = TrimSpace x) as Hmore.
  { intros k' e' q' (p&x&r&->&->)%IH. by exists (String ch p), x, r. }
  cbn [extract]. destruct k; [|by eauto]. destruct (_ && _); [by eauto|].
  destruct q; [by eauto|]. destruct (is_byte "$" ch) eqn:Hd; cbn [negb]; [|by eauto].
  apply is_byte_true in Hd as ->. destruct rest as [|p inside]; [by eauto|].
  destruct (is_byte "(" p) eqn:Hp; cbn [negb]; [|by eauto]. apply is_byte_true in Hp as ->.
  destruct (next_is "(" inside); [by eauto|].
  destruct (extractBalancedParen inside) as [[t n]|] eqn:Hb; [|by eauto].
  intros [->|?]%elem_of_cons; [|by eauto].
  apply balanced_text in Hb as (x&r&->&->). by exists "", x, r.
Qed.

(** Without a single quote nothing hides a substitution. *)
Lemma extract_finds e command p r :
  part squote command → extract 0 e false command = [] → command = p +:+ "$(" +:+ r →
  next_is "(" r = true ∨ extractBalancedParen r = None.
Proof.
  revert e command. induction p as [|a p IH]; intros e command Hq Hx ->.
  - rewrite app_nil_l_s, !app_cons_s, app_nil_l_s in Hx. cbn -[extractBalancedParen] in Hx. destruct (next_is "(" r); [by left|right].
    by destruct (extractBalancedParen r) as [[]|].
  - rewrite app_cons_s in Hx, Hq. apply part_cons in Hq as [Ha Hq].
    apply (IH (is_byte backslash a) (p +:+ "$(" +:+ r)); [done| |done].
    set (rest := p +:+ "$(" +:+ r) in *. cbn [extract] in Hx.
    assert (is_byte squote a = false) as Hsq by by apply bool_decide_eq_false.
    rewrite Hsq in Hx. cbn [andb] in Hx. destruct (is_byte "$" a); [|done]. cbn [negb] in Hx.
    destruct rest as [|x inside]; [done|]. destruct (is_byte "(" x); [|done]. cbn [negb] in Hx.
    destruct (next_is "(" inside); [done|]. by destruct (extractBalancedParen inside) as [[]|].
Qed.

(** Inside single quotes, as the code tracks them, nothing is extracted. *)
Lemma extract_single e command :
  part squote command → extract 0 e true command = [].
Proof.
  revert e. induction command as [|a s IH]; intros e; [done|].
  intros [Ha Hs]%part_cons. cbn [extract].
  assert (is_byte squote a = false) as -> by by apply bool_decide_eq_false. by apply IH.
Qed.

(** [echo "it's $(x)"]: in double quotes the apostrophe quotes nothing, and the
    shell runs [x]. *)
Definition apostrophe_then (x : string) : string :=
  "echo " +:+ String dquote ("it's $(" +:+ x +:+ ")" +:+ String dquote "").

Lemma apostrophe_hides x : part squote x → extractCommandSubstitutions (apostrophe_then x) = [].
Proof.
  intros Hx. change (extract 0 false true ("s $(" +:+ x +:+ ")" +:+ String dquote "") = []).
  apply extract_single. rewrite app_cons_s. do 4 (apply part_cons; split; [done|]).
  induction x as [|a x IH].
  - by vm_compute.
  - apply part_cons in Hx as [Ha Hx]. rewrite app_cons_s. apply part_cons. auto.
Qed.

(** ** Sizes, for the recursion of the validator *)

Definition size (s : string) : nat := length (runes s).

Lemma runes_ascii_app s a t : cont a = false →
  size (s +:+ String a t) = size s + size (String a t).
Proof. intros Ha. unfold size. by rewrite runes_app, length_app. Qed.

Lemma size_cons a s : size (String a s) = S (length (runes (DecodeRune a s).2)).
Proof. unfold size. by rewrite runes_cons. Qed.

Lemma size_ascii a s : (code a <? 128)%N = true → size (String a s) = S (size s).
Proof. intros Ha. rewrite size_cons. unfold DecodeRune. by rewrite Ha. Qed.

Lemma size_TrimSpace s : size (TrimSpace s) ≤ size s.
Proof. apply length_runes_TrimSpace. Qed.

Lemma size_encode rs : Forall (λ r, valid_rune r = true) rs → size (encode rs) = length rs.
Proof. intros. unfold size. by rewrite runes_encode. Qed.

Lemma size_separator c sep s : sep ∈ separators → size (c +:+ sep +:+ s) ≥ size c + size s.
Proof.
  unfold separators. rewrite !elem_of_cons, elem_of_nil.
  intros [->|[->|[->|[->|[->|[]]]]]]; rewrite !app_cons_s, !app_nil_l_s, runes_ascii_app by done;
    rewrite !size_ascii by done; lia.
Qed.

Lemma size_weave c l x :
  Forall (λ p, p.1 ∈ separators ∧ simple_command p.2) l → x ∈ c :: l.*2 → size x ≤ size (weave c l).
Proof.
  intros Hl. revert c. induction Hl as [|[sep c'] l [Hsep _] _ IH]; intros c Hx; cbn [weave].
  - rewrite list_elem_of_singleton in Hx. by subst.
  - pose proof (size_separator c sep (weave c' l) Hsep).
    apply elem_of_cons in Hx as [->|Hx]; [lia|]. specialize (IH c' Hx). lia.
Qed.

Lemma size_segment command segs s :
  splitShellCommand command = Ok segs → s ∈ segs → size s ≤ size command.
Proof.
  unfold splitShellCommand. cbn zeta. case_bool_decide as Hc.
  { intros [= <-] ?%elem_of_nil. done. }
  intros (c&l&Hw&_&Hl&->)%split_segments_reads.
  unfold segments_of. rewrite list_elem_of_filter, list_elem_of_fmap. intros [_ (x&->&Hx)].
  pose proof (size_TrimSpace x). pose proof (size_TrimSpace command).
  pose proof (size_weave c l x Hl Hx). rewrite <- Hw in *. lia.
Qed.

Lemma escapedRune_valid rest quote next :
  escapedRune rest quote = Some next → ∃ rest', rest = next :: rest'.
Proof. destruct rest as [|r rest]; [done|]. cbn [escapedRune]. repeat case_match; naive_solver. Qed.

Lemma push_token_ok cur r args :
  push_token cur r = Ok args →
  ∃ l, r = Ok l ∧ args = (encode <$> filter (λ rs, rs ≠ []) [cur]) ++ l.
Proof.
  destruct r as [l|]; [|done]. intros [= <-]. exists l. split; [done|].
  rewrite filter_cons. case_bool_decide; case_decide; naive_solver.
Qed.

(** Non-empty tokens with at most [n] runes in all. *)
Definition tokens_within (n : nat) (args : list string) : Prop :=
  ∃ l, args = encode <$> l ∧ Forall (λ t, t ≠ [] ∧ Forall (λ r, valid_rune r = true) t) l ∧
    sum_list (length <$> l) ≤ n.

Lemma tokens_within_le n n' args : tokens_within n args → n ≤ n' → tokens_within n' args.
Proof. intros (l&?&?&?) ?. exists l. split_and!; [done..|lia]. Qed.

Lemma push_token_within cur r args n :
  push_token cur r = Ok args → Forall (λ r, valid_rune r = true) cur →
  (∀ args, r = Ok args → tokens_within n args) → tokens_within (length cur + n) args.
Proof.
  intros (l&->&->)%push_token_ok Hc Hr. destruct (Hr l eq_refl) as (l'&->&Hl&Hn).
  exists (filter (λ rs, rs ≠ []) [cur] ++ l'). rewrite fmap_app. split; [done|].
  rewrite filter_cons. case_decide; cbn; [split; [by constructor|lia]|split; [done|lia]].
Qed.

Lemma split_command_within quote cur rs args :
  split_command quote cur rs = Ok args →
  Forall (λ r, valid_rune r = true) (cur ++ rs) → tokens_within (length cur + length rs) args.
Proof.
  revert quote cur args. induction rs as [rs IH] using (induction_ltof1 _ length). unfold ltof in IH.
  intros quote cur args. destruct rs as [|r rest].
  { cbn [split_command]. destruct quote; [done|]. rewrite app_nil_r. intros H Hc.
    eapply push_token_within; [done..|]. intros a [= <-]. by exists []. }
  intros H Hv. apply Forall_app in Hv as [Hcur [Hr Hrest]%Forall_cons].
  assert (∀ quote x rest', split_command quote (cur ++ [x]) rest' = Ok args → x ∈ r :: rest →
    length rest' ≤ length rest → Forall (λ r, valid_rune r = true) rest' →
    tokens_within (length cur + length (r :: rest)) args) as Hwrite.
  { intros q x rest' Hs Hx Hle Hv. apply IH in Hs; [|simpl; lia|].
    - eapply tokens_within_le; [done|]. rewrite length_app. simpl. lia.
    - rewrite !Forall_app. split_and!; [done| |done]. constructor; [|done].
      eapply (Forall_forall (λ r, valid_rune r = true)); [|done]. by constructor. }
  assert (∀ quote, split_command quote cur rest = Ok args →
    tokens_within (length cur + length (r :: rest)) args) as Hskip.
  { intros q Hs. apply IH in Hs; [|simpl; lia|by apply Forall_app].
    eapply tokens_within_le; [done|simpl; lia]. }
  assert (∀ H : match escapedRune rest quote, rest with
      | Some next, _ :: rest' => split_command quote (cur ++ [next]) rest'
      | _, _ => split_command quote (cur ++ [r]) rest end = Ok args,
    tokens_within (length cur + length (r :: rest)) args) as Hesc.
  { destruct (escapedRune rest quote) as [next|] eqn:He; [|intros Hs; eapply Hwrite; eauto; by left].
    apply escapedRune_valid in He as [rest' ->]. intros Hs.
    apply Forall_cons in Hrest as [_ Hrest]. eapply Hwrite; [done|set_solver|simpl; lia|done]. }
  assert (split_command quote (cur ++ [r]) rest = Ok args →
    tokens_within (length cur + length (r :: rest)) args) as Hplain.
  { intros Hs. eapply Hwrite; [done|by left|done|done]. }
  cbn [split_command] in H. destruct quote as [q|].
  - destruct (r =? q)%N; [by eapply Hskip|]. destruct (r =? backslash_rune)%N; auto.
  - destruct (r =? backslash_rune)%N; [auto|]. destruct (_ || _); [by eapply Hskip|].
    destruct (IsSpace r); [|auto]. eapply push_token_within; [done..|].
    intros a Ha. apply IH in Ha; [|simpl; lia|done]. eapply tokens_within_le; [done|simpl; lia].
Qed.

(** A token that is not the first is shorter than the command line. *)
Lemma SplitCommandLine_later input name args arg :
  SplitCommandLine input = Ok (name :: args) → arg ∈ args → size arg < size input.
Proof.
  unfold SplitCommandLine. cbn zeta. case_bool_decide; [done|].
  destruct (split_command _ _ _) as [[|n a]|] eqn:Hs; [done| |done]. intros [= -> ->] Harg.
  apply split_command_within in Hs as (l&Hl&Hv&Hn); [|apply runes_valid].
  pose proof (size_TrimSpace input). cbn [length] in Hn. fold (size (TrimSpace input)) in Hn.
  destruct l as [|t l]; [done|]. injection Hl as _ ->. cbn in Hn.
  apply Forall_cons in Hv as [[Ht _] Hv]. destruct t as [|r t]; [done|]. simpl in Hn.
  apply list_elem_of_fmap in Harg as (t'&->&Ht').
  rewrite Forall_forall in Hv. destruct (Hv t' Ht') as [_ Hv'].
  rewrite size_encode by done. apply (list_elem_of_fmap_2 length) in Ht'.
  assert (length t' ≤ sum_list (length <$> l)); [|lia].
  clear -Ht'. induction (length <$> l) as [|x xs IH]; [by apply elem_of_nil in Ht'|].
  apply elem_of_cons in Ht' as [->|?]; simpl; [lia|]. specialize (IH H). lia.
Qed.

Lemma size_substitution command inner :
  inner ∈ extractCommandSubstitutions command → size inner < size command.
Proof.
  intros (p&x&r&->&->)%extract_text. pose proof (size_TrimSpace x).
  rewrite !app_cons_s, app_nil_l_s, runes_ascii_app, !size_ascii, runes_ascii_app by done. lia.
Qed.
