(* ===== verification/Permissions.v ===== *)
(** * Tool permissions: requests, keys, scopes, policies and rules
    ([internal/toolruntime/permissions.go], first part)

    A tool call becomes a [PermissionRequest]; rules give it a decision; grants
    are stored under keys made of the request's fields. *)
From S2P Require Import Prelude GoStrings GoRunes GoPath ShellLexer ShellPolicy.
From Stdlib Require Import Ascii ZArith Lia.

(** ** Data *)

(** Decisions are strings in the code; [DecisionUnset] is the empty one. *)
Inductive PermissionDecision :=
| DecisionUnset | PermissionAbstain | PermissionAllow | PermissionDeny | PermissionPending.
#[export] Instance PermissionDecision_eq : EqDecision PermissionDecision.
Proof. solve_decision. Defined.

Inductive PermissionStatus :=
| StatusUnset | PermissionStatusPending | PermissionStatusApproved | PermissionStatusDenied
| PermissionStatusExpired | PermissionStatusResumed.
#[export] Instance PermissionStatus_eq : EqDecision PermissionStatus.
Proof. solve_decision. Defined.

(** Grant scopes are free text, parsed below. *)
Definition PermissionGrantOnce : string := "once".
Definition PermissionGrantTask : string := "task".
Definition PermissionGrantSession : string := "session".
Definition PermissionGrantPattern : string := "pattern".

Definition InteractiveApprovalModeManual : string := "manual".
Definition InteractiveApprovalModeReview : string := "review".
Definition InteractiveApprovalModeYOLO : string := "yolo".

Definition SecurityProfileTrustedLocal : string := "trusted-local".
Definition SecurityProfileGuardedLocal : string := "guarded-local".
Definition SecurityProfileSandboxed : string := "sandboxed".
Definition SecurityProfileStrict : string := "strict".
Definition SecurityProfileHostPrivileged : string := "host-privileged".
Definition SecurityProfileDevRepair : string := "dev/repair".

Definition defaultTrustedCommandPrefixes : list string :=
  ["cat "; "curl "; "date"; "diff "; "echo "; "find "; "git diff"; "git log"; "git show"; "git status";
   "grep "; "head "; "jq "; "ls"; "pwd"; "rg "; "sed -n"; "tail "; "uname"; "wc "; "wget "; "whoami"].

Record InteractiveApprovalPolicy := mkApproval {
  Mode : string;
  Enabled : bool;
  Sources : list string;
  Tools : list string;
  TrustedPathPrefixes : list string;
  TrustedCommandPrefixes : list string;
  PendingTTLSeconds : Z;
}.

Record PermissionPolicy := mkPolicy {
  BlockAutomationMutations : bool;
  InteractiveApproval : InteractiveApprovalPolicy;
  SecurityProfile : string;
}.

(** A value of an [interface{}]: strings, string slices, slices, maps, and
    values that the code only copies. *)
Inductive value :=
| VString (s : string)
| VStrings (l : list string)
| VList (l : list value)
| VMap (m : list (string * value))
| VStringMap (m : list (string * string))
| VInts (l : list Z)
| VBool (b : bool)
| VOther (n : Z).

Definition input := gmap string value.

Record PermissionRequest := mkRequest {
  SessionID : string;
  TurnID : string;
  Source : string;
  Sender : string;
  ToolName : string;
  Action : string;
  Paths : list string;
  Command : string;
  Mutation : bool;
  Input : input;
}.

Record PermissionResult := mkResult {
  Decision : PermissionDecision;
  Reason : string;
  Scope : string;
  RequestID : string;
}.

(** Times are nanoseconds since the zero time, for which [IsZero] holds. *)
Record PendingPermission := mkPending {
  Pending_ID : string;
  Pending_Status : PermissionStatus;
  Request : PermissionRequest;
  Pending_Reason : string;
  CreatedAt : Z;
  ExpiresAt : Z;
}.

Record PermissionOverrideState := mkOverrideState {
  State_Request : PermissionRequest;
  State_Result : PermissionResult;
  Remaining : Z;
  State_ExpiresAt : Z;
}.

Record PermissionSessionState := mkSessionState {
  Overrides : list PermissionOverrideState;
  Pending : list PendingPermission;
}.

Record PermissionResolution := mkResolution {
  Resolution_RequestID : string;
  Resolution_Decision : PermissionDecision;
  Resolution_Status : PermissionStatus;
  Resolution_Scope : string;
  Resolution_Reason : string;
  Resolution_Request : PermissionRequest;
  ResolvedAt : Z;
}.

Record permissionOverride := mkOverride {
  request : PermissionRequest;
  override_result : PermissionResult;
  remaining : Z;
  expiresAt : Z;
}.

(** A rule; [None] when it does not handle the request. *)
Definition PermissionRule := PermissionRequest → option PermissionResult.

(** The kind of a grant scope. *)
Inductive grant_kind := GrantOnce | GrantTask | GrantSession | GrantPattern | GrantCount | GrantTimebox.
#[export] Instance grant_kind_eq : EqDecision grant_kind.
Proof. solve_decision. Defined.

Record parsedPermissionGrant := mkGrant { kind : grant_kind; count : Z; duration : Z }.

(** [time.ParseDuration] (nanoseconds), SHA-1 and the root of the hexadecimal
    request ids. *)
Class PermissionLib : Type := {
  ParseDuration : string → option Z;
  pendingPermissionID : string → string;
}.

(** ** Values of the input map ([runtime.go]) *)

Fixpoint cloneJSONValue (v : value) : value :=
  match v with
  | VMap m => VMap ((λ '(k, v), (k, cloneJSONValue v)) <$> m)
  | VStringMap m => VMap ((λ '(k, s), (k, VString s)) <$> m)
  | VList l => VList (cloneJSONValue <$> l)
  | VStrings l => VList (VString <$> l)
  | VInts l => VList (VOther <$> l)
  | v => v
  end.

Definition cloneStringAnyMap (i : input) : input := cloneJSONValue <$> i.

Definition asString (v : option value) : string :=
  match v with Some (VString s) => s | _ => "" end.

Definition asStringSlice (v : option value) : list string :=
  match v with
  | Some (VStrings l) => l
  | Some (VList l) => omap (λ item, match item with VString s => Some s | _ => None end) l
  | _ => []
  end.

Definition clonePermissionRequest (r : PermissionRequest) : PermissionRequest :=
  mkRequest (SessionID r) (TurnID r) (Source r) (Sender r) (ToolName r) (Action r) (Paths r)
    (Command r) (Mutation r) (cloneStringAnyMap (Input r)).

Definition clonePendingPermission (p : PendingPermission) : PendingPermission :=
  mkPending (Pending_ID p) (Pending_Status p) (clonePermissionRequest (Request p)) (Pending_Reason p)
    (CreatedAt p) (ExpiresAt p).

Definition sameSession (requestSessionID sessionID : string) : bool :=
  bool_decide (TrimSpace requestSessionID = TrimSpace sessionID).

(** ** Normalisation of policies *)

Section Rules.
Context {U : Unicode}.

(** The loop that the three list normalisers share. *)
Definition normalize_with (f : string → string) (values : list string) : list string :=
  SortStrings (dedup (filter (λ v, v ≠ "") (f <$> values))).

Definition normalizePermissionPath (value : string) : string :=
  let value := TrimSpace value in
  if bool_decide (value = "") then "" else Clean value.

Definition normalizeStringList (values : list string) : list string :=
  normalize_with (λ v, ToLower (TrimSpace v)) values.
Definition normalizePathPrefixes (values : list string) : list string :=
  normalize_with normalizePermissionPath values.
Definition normalizeCommandPrefixes (values : list string) : list string :=
  normalize_with TrimSpace values.

Definition normalizeInteractiveApprovalMode (mode : string) : string :=
  let mode := ToLower (TrimSpace mode) in
  if bool_decide (mode = InteractiveApprovalModeReview) then InteractiveApprovalModeReview
  else if bool_decide (mode = InteractiveApprovalModeYOLO) then InteractiveApprovalModeYOLO
  else InteractiveApprovalModeManual.

Definition normalizeInteractiveApprovalPolicy (p : InteractiveApprovalPolicy) : InteractiveApprovalPolicy :=
  mkApproval (normalizeInteractiveApprovalMode (Mode p)) (Enabled p) (normalizeStringList (Sources p))
    (normalizeStringList (Tools p)) (normalizePathPrefixes (TrustedPathPrefixes p))
    (normalizeCommandPrefixes (TrustedCommandPrefixes p))
    (if (PendingTTLSeconds p <=? 0)%Z then 300 else PendingTTLSeconds p).

Definition normalizeSecurityProfile (profile : string) : string :=
  let profile := ToLower (TrimSpace profile) in
  if bool_decide (profile = "" ∨ profile = SecurityProfileGuardedLocal) then SecurityProfileGuardedLocal
  else if bool_decide (profile ∈ [SecurityProfileTrustedLocal; SecurityProfileSandboxed;
      SecurityProfileStrict; SecurityProfileHostPrivileged; SecurityProfileDevRepair]) then profile
  else if bool_decide (profile ∈ ["dev-repair"; "dev_repair"; "repair"]) then SecurityProfileDevRepair
  else SecurityProfileGuardedLocal.

Definition normalizePermissionPolicy (p : PermissionPolicy) : PermissionPolicy :=
  mkPolicy (BlockAutomationMutations p) (normalizeInteractiveApprovalPolicy (InteractiveApproval p))
    (normalizeSecurityProfile (SecurityProfile p)).

Definition default_sources : list string :=
  ["web"; "gateway"; "feishu"; "weixin"; "cli"; "tui"; "acp"].

Definition DefaultPermissionPolicy : PermissionPolicy :=
  mkPolicy true
    (mkApproval InteractiveApprovalModeManual true default_sources
      ["bash"; "background"; "write_file"; "edit_file"; "attach_file"; "skill"; "memory"; "task";
       "install_package"; "remove_package"; "tool_exchange"; "cron"; "heartbeat"; "browser"; "desktop"]
      [] defaultTrustedCommandPrefixes 300) "".

Definition with_mode (mode : string) (p : InteractiveApprovalPolicy) : InteractiveApprovalPolicy :=
  mkApproval mode (Enabled p) (Sources p) (Tools p) (TrustedPathPrefixes p) (TrustedCommandPrefixes p)
    (PendingTTLSeconds p).
Definition without_trust (p : InteractiveApprovalPolicy) : InteractiveApprovalPolicy :=
  mkApproval InteractiveApprovalModeManual (Enabled p) (Sources p) (Tools p) [] [] (PendingTTLSeconds p).

Definition PermissionPolicyForSecurityProfile (profile approvalMode : string) : PermissionPolicy :=
  let profile := normalizeSecurityProfile profile in
  let mode := normalizeInteractiveApprovalMode approvalMode in
  let approval := with_mode mode (InteractiveApproval DefaultPermissionPolicy) in
  mkPolicy (BlockAutomationMutations DefaultPermissionPolicy)
    (if bool_decide (profile ∈ [SecurityProfileSandboxed; SecurityProfileStrict; SecurityProfileDevRepair])
     then without_trust approval
     else if bool_decide (profile = SecurityProfileHostPrivileged)
             && bool_decide (mode = InteractiveApprovalModeYOLO)
     then with_mode InteractiveApprovalModeManual approval
     else approval)
    profile.

(** ** Rules *)

Definition policy_deny (reason : string) : option PermissionResult :=
  Some (mkResult PermissionDeny reason "policy" "").

Definition newAutomationMutationRule (enabled : bool) : PermissionRule := λ req,
  if negb enabled then None
  else if negb (bool_decide (Source req ∈ ["cron"; "heartbeat"])) then None
  else if bool_decide (ToolName req = "cron") then
    if bool_decide (Action req ∈ ["create"; "update"; "toggle"; "delete"])
    then policy_deny "cron schedule mutations are disabled during active automation runs; execute the scheduled work instead"
    else None
  else if bool_decide (ToolName req = "heartbeat") then
    if bool_decide (Action req ∈ ["set"; "toggle"])
    then policy_deny "heartbeat configuration changes are disabled during active automation runs; execute the scheduled work instead"
    else None
  else if bool_decide (ToolName req = "tool_exchange") then
    if Mutation req
    then policy_deny "tool bundle mutations are disabled during active automation runs; execute the scheduled work instead"
    else None
  else if bool_decide (ToolName req = "manage_session") then
    if Mutation req
    then policy_deny "session-management mutations are disabled during active automation runs; execute the scheduled work instead"
    else None
  else None.

Definition pendingScopeForApprovalMode (approvalMode : string) : string :=
  if bool_decide (normalizeInteractiveApprovalMode approvalMode = InteractiveApprovalModeReview)
  then "review" else "approval".

Definition shell_tool (name : string) : bool :=
  bool_decide (ToLower (TrimSpace name) ∈ ["bash"; "background"]).

Definition remote_or_automated : list string :=
  ["web"; "gateway"; "feishu"; "weixin"; "cron"; "heartbeat"].

Definition NewSecurityProfileRuleWithApprovalMode (profile approvalMode : string) : PermissionRule :=
  let profile := normalizeSecurityProfile profile in
  let approvalMode := normalizeInteractiveApprovalMode approvalMode in
  let scope := pendingScopeForApprovalMode approvalMode in
  λ req,
    let toolName := ToLower (TrimSpace (ToolName req)) in
    let source := ToLower (TrimSpace (Source req)) in
    if bool_decide (profile = SecurityProfileStrict)
       && bool_decide (toolName ∈ ["bash"; "background"; "desktop"])
       && bool_decide (source ∈ remote_or_automated)
    then policy_deny "strict security profile denies host execution tools for remote or automated sources"
    else if shell_tool (ToolName req) then
      let risk := ClassifyShellCommandRisk (Command req) in
      if bool_decide (Level risk = ShellRiskHigh) then
        let why := ShellPolicy.Reason risk in
        if bool_decide (profile = SecurityProfileStrict)
        then policy_deny ("strict security profile denies high-risk shell command: " +:+ why)
        else if bool_decide (profile = SecurityProfileDevRepair)
        then Some (mkResult PermissionPending
          ("dev/repair profile requires approval for high-risk repair shell command: " +:+ why) scope "")
        else if bool_decide (approvalMode = InteractiveApprovalModeYOLO)
        then Some (mkResult PermissionAllow
          ("high-risk shell command auto-approved by yolo mode: " +:+ why) "policy" "")
        else Some (mkResult PermissionPending
          ("high-risk shell command requires approval: " +:+ why) scope "")
      else None
    else None.

Definition repairDiagnosticCommands (profile : string) : list string :=
  if bool_decide (normalizeSecurityProfile profile = SecurityProfileDevRepair)
  then ["which"; "command"; "pgrep"; "lsof"; "ps"; "stat"] else [].

(** [ShellCommandOptions{AllowedCommands: names}] *)
Definition allowing (names : list string) : ShellCommandOptions :=
  mkOptions false "" [] [] false names false false false.

Definition newUnlistedShellCommandApprovalRule (profile approvalMode : string) : PermissionRule :=
  let profile := normalizeSecurityProfile profile in
  let approvalMode := normalizeInteractiveApprovalMode approvalMode in
  let scope := pendingScopeForApprovalMode approvalMode in
  λ req,
    if negb (shell_tool (ToolName req)) then None
    else
      let command := TrimSpace (Command req) in
      if bool_decide (command = "") then None
      else
        match DisallowedShellCommandsWithOptions command (allowing (repairDiagnosticCommands profile)) with
        | Err _ | Ok [] => None
        | Ok names =>
            let reason := "shell command uses command(s) outside the allowlist: " +:+ Join names ", " in
            if bool_decide (approvalMode = InteractiveApprovalModeYOLO)
            then Some (mkResult PermissionAllow ("request auto-approved by yolo mode: " +:+ reason) "policy" "")
            else Some (mkResult PermissionPending reason scope "")
        end.

Definition approvalReason (req : PermissionRequest) : string :=
  let tool := ToolName req in
  if bool_decide (tool ∈ ["bash"; "background"]) then "shell execution requires approval in remote sessions"
  else if bool_decide (tool = "attach_file") then "sending local files requires approval in remote sessions"
  else if bool_decide (tool ∈ ["write_file"; "edit_file"])
  then "workspace file mutations require approval in remote sessions"
  else if bool_decide (tool = "browser") then "interactive browser actions require approval in remote sessions"
  else if bool_decide (tool = "desktop") then "local desktop control requires approval in remote sessions"
  else if bool_decide (tool = "tool_exchange") then "tool bundle mutations require approval in remote sessions"
  else if bool_decide (tool ∈ ["cron"; "heartbeat"])
  then "automation configuration changes require approval in remote sessions"
  else if bool_decide (tool = "skill") then "skill installation requires approval in remote sessions"
  else if bool_decide (tool ∈ ["install_package"; "remove_package"])
  then "package changes require approval in remote sessions"
  else "approval required before running this tool".

Definition file_tools : list string :=
  ["write_file"; "edit_file"; "attach_file"; "skill"; "install_package"; "remove_package"].

Definition requiresInteractiveApproval (req : PermissionRequest) : bool :=
  if bool_decide (ToolName req ∈ ["bash"; "background"] ++ file_tools) then true
  else if bool_decide (ToolName req ∈ ["tool_exchange"; "cron"; "heartbeat"; "browser"; "desktop"])
  then Mutation req
  else false.

Definition permissionPathHasPrefix (path prefix : string) : bool :=
  if bool_decide (path = prefix) then true
  else if bool_decide (prefix = ".") then negb (HasPrefix path "/")
  else if bool_decide (prefix = "/") then HasPrefix path "/"
  else if HasSuffix prefix "/" then HasPrefix path prefix
  else HasPrefix path (prefix +:+ "/").

Definition pathMatchesTrustedPrefix (path : string) (prefixes : list string) : bool :=
  let path := normalizePermissionPath path in
  if bool_decide (path = "") then false
  else existsb (permissionPathHasPrefix path) prefixes.

Definition allPathsTrusted (paths prefixes : list string) : bool :=
  if bool_decide (paths = []) || bool_decide (prefixes = []) then false
  else forallb (λ path, pathMatchesTrustedPrefix path prefixes) paths.

Definition commandMatchesTrustedPrefix (command : string) (prefixes : list string) : bool :=
  let command := TrimSpace command in
  if bool_decide (command = "") || bool_decide (prefixes = []) then false
  else existsb (HasPrefix command) prefixes.

Definition matchesTrustedInteractiveApproval (req : PermissionRequest) (p : InteractiveApprovalPolicy) : bool :=
  if bool_decide (ToolName req ∈ file_tools)
  then negb (bool_decide (Paths req = [])) && allPathsTrusted (Paths req) (TrustedPathPrefixes p)
  else if bool_decide (ToolName req ∈ ["bash"; "background"]) then
    if negb (commandMatchesTrustedPrefix (Command req) (TrustedCommandPrefixes p)) then false
    else bool_decide (Paths req = []) || allPathsTrusted (Paths req) (TrustedPathPrefixes p)
  else false.

(** [None] is the nil rule. *)
Definition newInteractiveApprovalRule (p : InteractiveApprovalPolicy) : option PermissionRule :=
  let p := normalizeInteractiveApprovalPolicy p in
  if negb (Enabled p) then None
  else
    let lower := λ s, ToLower (TrimSpace s) in
    let keep := λ l, filter (λ s, s ≠ "") (lower <$> l) in
    let allowedSources := keep (Sources p) in
    let allowedTools := keep (Tools p) in
    Some (λ req,
      if negb (bool_decide (lower (Source req) ∈ allowedSources)) then None
      else if negb (bool_decide (lower (ToolName req) ∈ allowedTools)) then None
      else if negb (requiresInteractiveApproval req) then None
      else if matchesTrustedInteractiveApproval req p
      then Some (mkResult PermissionAllow "request matched a trusted interactive approval bypass" "policy" "")
      else if bool_decide (Mode p = InteractiveApprovalModeReview)
      then Some (mkResult PermissionPending (approvalReason req) "review" "")
      else if bool_decide (Mode p = InteractiveApprovalModeYOLO)
      then Some (mkResult PermissionAllow "request auto-approved by yolo mode" "policy" "")
      else Some (mkResult PermissionPending (approvalReason req) "approval" "")).

Definition permissionRulesForPolicy (p : PermissionPolicy) : list PermissionRule :=
  let p := normalizePermissionPolicy p in
  (if BlockAutomationMutations p then [newAutomationMutationRule true] else [])
  ++ [NewSecurityProfileRuleWithApprovalMode (SecurityProfile p) (Mode (InteractiveApproval p))]
  ++ (if Enabled (InteractiveApproval p)
      then [newUnlistedShellCommandApprovalRule (SecurityProfile p) (Mode (InteractiveApproval p))]
      else [])
  ++ match newInteractiveApprovalRule (InteractiveApproval p) with Some rule => [rule] | None => [] end.

(** ** From a tool call to a request *)

Definition lower_action (i : input) : string := ToLower (TrimSpace (asString (i !! "action"))).

Definition exchanges_bundles (i : input) : bool :=
  negb (bool_decide (asStringSlice (i !! "enable_bundles") = []))
  || negb (bool_decide (asStringSlice (i !! "disable_bundles") = [])).

Definition inferPermissionAction (toolName : string) (i : input) : string :=
  let action := lower_action i in
  if negb (bool_decide (action = "")) then action
  else if bool_decide (toolName = "tool_exchange") then
    if exchanges_bundles i then "mutate" else "inspect"
  else if bool_decide (toolName = "install_package") then "install"
  else if bool_decide (toolName = "remove_package") then "remove"
  else if bool_decide (toolName = "write_file") then "write"
  else if bool_decide (toolName = "edit_file") then "edit"
  else if bool_decide (toolName = "attach_file") then "attach"
  else if bool_decide (toolName = "read_file") then "read"
  else if bool_decide (toolName = "bash") then "exec"
  else if bool_decide (toolName = "manage_session") then lower_action i
  else "".

Definition inferPermissionMutation (toolName : string) (i : input) : bool :=
  if bool_decide (toolName ∈ ["bash"; "background"; "write_file"; "edit_file"; "attach_file";
      "tool_exchange"; "skill"; "memory"; "task"; "subagent"; "install_package"; "remove_package";
      "send_message"; "broadcast"; "shutdown_request"; "plan_approval"; "todo_write"])
  then if bool_decide (toolName = "tool_exchange") then exchanges_bundles i else true
  else if bool_decide (toolName = "manage_session")
  then bool_decide (lower_action i ∈ ["clear_messages"; "approve_permission"; "deny_permission";
                                      "auth_login"; "auth_logout"])
  else if bool_decide (toolName = "browser")
  then bool_decide (lower_action i ∈ ["open"; "navigate"; "click"; "type"; "press"; "screenshot";
         "fill_form"; "upload_file"; "download"; "capture_page"; "search_and_open"; "handoff"; "resume"])
  else if bool_decide (toolName = "desktop")
  then bool_decide (lower_action i ∈ ["screenshot"; "click"; "type_text"; "key"; "clipboard_set"])
  else if bool_decide (toolName = "cron")
  then bool_decide (lower_action i ∈ ["create"; "update"; "toggle"; "delete"])
  else if bool_decide (toolName = "heartbeat")
  then bool_decide (lower_action i ∈ ["set"; "toggle"])
  else false.

Definition extractPermissionPaths (i : input) : list string :=
  dedup (filter (λ v, v ≠ "")
    (((λ key, TrimSpace (asString (i !! key))) <$>
       ["path"; "root"; "file"; "source"; "output_path"; "download_path"; "screenshot_path"])
     ++ (TrimSpace <$> asStringSlice (i !! "paths")))).

(** What the interceptor sees of [ToolCall] and of its session context. *)
Record ToolCall := mkCall {
  Name : string;
  NormalizedInput : input;
  Session_SessionID : string;
  Session_Source : string;
  Session_Sender : string;
  Session_turn_id : string;
}.

Definition PermissionRequestFromCall (call : ToolCall) : PermissionRequest :=
  let name := TrimSpace (Name call) in
  mkRequest (TrimSpace (Session_SessionID call)) (TrimSpace (Session_turn_id call))
    (TrimSpace (Session_Source call)) (TrimSpace (Session_Sender call)) name
    (inferPermissionAction name (NormalizedInput call)) (extractPermissionPaths (NormalizedInput call))
    (TrimSpace (asString (NormalizedInput call !! "command")))
    (inferPermissionMutation name (NormalizedInput call)) (cloneStringAnyMap (NormalizedInput call)).

(** [markApprovedShellCommand]: the call as the tool will see it. *)
Definition markApprovedShellCommand (call : ToolCall) (req : PermissionRequest) : ToolCall :=
  if negb (shell_tool (ToolName req)) then call
  else
    let command := TrimSpace (Command req) in
    if bool_decide (command = "") then call
    else
      match DisallowedShellCommands command with
      | Err _ | Ok [] => call
      | Ok _ =>
          mkCall (Name call) (<["_allow_unlisted_commands" := VBool true]> (NormalizedInput call))
            (Session_SessionID call) (Session_Source call) (Session_Sender call) (Session_turn_id call)
      end.

End Rules.
