(* ===== verification/PermissionKeys.v ===== *)
(** * Tool permissions: grant scopes and storage keys
    ([internal/toolruntime/permissions.go], second part)

    A grant is stored under a key made of fields of the request joined with
    bars. Which key depends on the scope of the grant; a request is looked up
    under all the keys that could hold a grant for it. *)
From S2P Require Import Prelude GoStrings GoRunes GoPath Permissions.
From Stdlib Require Import Ascii ZArith Lia.

Definition bar : ascii := "|"%char.

Section Keys.
Context {U : Unicode} {L : PermissionLib}.

(** ** Grant scopes *)

(** [parsePositiveInt]: the loop's arithmetic wraps around. *)
Fixpoint positive_from (value : Z) (rs : list N) : result string Z :=
  match rs with
  | [] => if (value <=? 0)%Z then Err "invalid count" else Ok value
  | ch :: rs =>
      if ((ch <? 48) || (57 <? ch))%N then Err "invalid count"
      else positive_from (wrap64 (wrap64 (value * 10) + (Z.of_N ch - 48))) rs
  end.

Definition parsePositiveInt (text : string) : result string Z :=
  if bool_decide (text = "") then Err "missing count" else positive_from 0 (runes text).

(** [None] is the error [unsupported permission grant scope]. *)
Definition parsePermissionGrantScope (scope : string) : option parsedPermissionGrant :=
  let raw := ToLower (TrimSpace scope) in
  if bool_decide (raw = "" ∨ raw = PermissionGrantOnce) then Some (mkGrant GrantOnce 0 0)
  else if bool_decide (raw = PermissionGrantTask) then Some (mkGrant GrantTask 0 0)
  else if bool_decide (raw = PermissionGrantSession) then Some (mkGrant GrantSession 0 0)
  else if bool_decide (raw = PermissionGrantPattern) then Some (mkGrant GrantPattern 0 0)
  else if HasPrefix raw "count:" then
    match parsePositiveInt (TrimSpace (TrimPrefix raw "count:")) with
    | Ok count => Some (mkGrant GrantCount count 0)
    | Err _ => None
    end
  else if HasPrefix raw "timebox:" then
    match ParseDuration (TrimSpace (TrimPrefix raw "timebox:")) with
    | Some duration => if (duration <=? 0)%Z then None else Some (mkGrant GrantTimebox 0 duration)
    | None => None
    end
  else None.

Definition storedPermissionGrantScope (state : PermissionOverrideState) : string :=
  let scope := TrimSpace (Scope (State_Result state)) in
  match parsePermissionGrantScope scope with
  | Some _ => scope
  | None => if bool_decide (Remaining state = 1%Z) then PermissionGrantOnce else PermissionGrantSession
  end.

(** ** Keys *)

Definition permissionDecisionKey (req : PermissionRequest) : string :=
  Join (TrimSpace <$> [SessionID req; ToolName req; Action req] ++ Paths req ++ [Command req]) "|".

Definition permissionTaskKey (req : PermissionRequest) : string :=
  let turnID := TrimSpace (TurnID req) in
  if bool_decide (turnID = "") then ""
  else TrimSpace (SessionID req) +:+ "|task:" +:+ turnID +:+ "|" +:+ permissionDecisionKey req.

Definition permissionSessionToolKey (req : PermissionRequest) : string :=
  let sessionID := TrimSpace (SessionID req) in
  let toolName := TrimSpace (ToolName req) in
  if bool_decide (sessionID = "") || bool_decide (toolName = "") then ""
  else if bool_decide (toolName ∈ ["browser"; "desktop"]) then
    let action := TrimSpace (Action req) in
    let action := if bool_decide (action = "") then "*" else action in
    Join [sessionID; toolName; action] "|"
  else "".

Definition commandApprovalPattern (command : string) : string :=
  Join (take 2 (Fields (TrimSpace command))) " ".

Fixpoint pathApprovalPattern (paths : list string) : string :=
  match paths with
  | [] => ""
  | path :: paths =>
      let path := normalizePermissionPath path in
      if bool_decide (path = "") then pathApprovalPattern paths
      else
        let dir := Dir path in
        if bool_decide (dir = ".") || bool_decide (dir = "") then path else dir
  end.

Definition permissionPatternKey (req : PermissionRequest) : string :=
  let sessionID := TrimSpace (SessionID req) in
  let toolName := TrimSpace (ToolName req) in
  if bool_decide (sessionID = "") || bool_decide (toolName = "") then ""
  else
    let pattern :=
      if bool_decide (toolName ∈ ["bash"; "background"]) then commandApprovalPattern (Command req)
      else if bool_decide (toolName ∈ file_tools) then pathApprovalPattern (Paths req)
      else "" in
    if bool_decide (pattern = "") then ""
    else Join [sessionID; toolName; "pattern"; TrimSpace (Action req); pattern] "|".

(** The keys under which a grant for [req] may be stored, in the order in which
    they are tried. *)
Definition permissionDecisionKeys (req : PermissionRequest) : list string :=
  let exact := permissionDecisionKey req in
  exact :: filter (λ key, key ≠ "" ∧ key ≠ exact)
    [permissionTaskKey req; permissionSessionToolKey req; permissionPatternKey req].

(** The key under which a grant with this scope is stored. *)
Definition permissionOverrideKey (req : PermissionRequest) (scope : string) : string :=
  let exact := permissionDecisionKey req in
  let broad :=
    if bool_decide (scope = PermissionGrantSession) then
      if bool_decide (permissionSessionToolKey req = "") then exact else permissionSessionToolKey req
    else exact in
  match kind <$> parsePermissionGrantScope scope with
  | Some GrantPattern =>
      if bool_decide (permissionPatternKey req = "") then broad else permissionPatternKey req
  | Some GrantTask =>
      if bool_decide (permissionTaskKey req = "") then broad else permissionTaskKey req
  | _ => broad
  end.

(** * Theorems *)

(** A grant is looked up where it was stored: the key of a grant for a request
    is one of the keys tried for the same request. *)
Lemma override_key_tried req scope :
  permissionOverrideKey req scope ∈ permissionDecisionKeys req.
Proof.
  unfold permissionOverrideKey, permissionDecisionKeys. cbn zeta.
  set (exact := permissionDecisionKey req).
  assert (∀ k, k ∈ [permissionTaskKey req; permissionSessionToolKey req; permissionPatternKey req] →
    k ≠ "" → k ∈ exact :: filter (λ key, key ≠ "" ∧ key ≠ exact)
      [permissionTaskKey req; permissionSessionToolKey req; permissionPatternKey req]) as Hk.
  { intros k Hk Hne. destruct (decide (k = exact)) as [->|]; [by left|right].
    by apply list_elem_of_filter. }
  repeat case_match; repeat case_bool_decide; try (by left); apply Hk; set_solver.
Qed.

(** ** Counts *)

Lemma wrap64_step v d : wrap64 (wrap64 (wrap64 v * 10) + d) = wrap64 (v * 10 + d).
Proof. unfold wrap64. Z.div_mod_to_equations. lia. Qed.

Lemma digit_rune a d : digit_val a = Some d →
  (code a <? 128)%N = true ∧ ((code a <? 48) || (57 <? code a))%N = false ∧ d = (Z.of_N (code a) - 48)%Z.
Proof.
  unfold digit_val. case_match eqn:H; [|done]. intros [= <-].
  apply andb_true_iff in H as [H1%N.leb_le H2%N.leb_le].
  rewrite orb_false_iff, N.ltb_lt, !N.ltb_ge. lia.
Qed.

Lemma other_rune a s : digit_val a = None →
  (((DecodeRune a s).1 <? 48) || (57 <? (DecodeRune a s).1))%N = true.
Proof.
  unfold digit_val. case_match eqn:H; [done|]. intros _.
  apply andb_false_iff in H. rewrite !N.leb_gt in H. rewrite orb_true_iff, !N.ltb_lt.
  destruct (N.ltb_spec (code a) 128) as [Ha|Ha]; [|pose proof (DecodeRune_high a s Ha); lia].
  unfold DecodeRune. rewrite (proj2 (N.ltb_lt _ _)) by done. cbn [fst]. lia.
Qed.

Lemma positive_from_wraps s : ∀ v, positive_from (wrap64 v) (runes s) =
  match digits_acc v s with
  | Some n => if (0 <? wrap64 n)%Z then Ok (wrap64 n) else Err "invalid count"
  | None => Err "invalid count"
  end.
Proof.
  induction s as [|a s IH] using runes_ind; intros v.
  { cbn. destruct (Z.leb_spec (wrap64 v) 0), (Z.ltb_spec 0 (wrap64 v)); (done || lia). }
  rewrite runes_cons. cbn [positive_from digits_acc]. destruct (digit_val a) as [d|] eqn:Hd.
  - apply digit_rune in Hd as (Ha&Hr&->). unfold DecodeRune in IH |- *. rewrite Ha in IH |- *.
    cbn [fst snd] in IH |- *. rewrite Hr, wrap64_step. apply IH.
  - by rewrite other_rune.
Qed.

(** A count of uses is read modulo 2^64. The text of a count is accepted
    exactly when it is a decimal number whose value, wrapped to 64 bits, is
    positive, and that wrapped value is granted: the number itself up to
    2^63 - 1, while [count:18446744073709551617] grants one use. *)
Theorem parsePositiveInt_wraps text :
  parsePositiveInt text =
    match digits text with
    | Some n => if (0 <? wrap64 n)%Z then Ok (wrap64 n) else Err "invalid count"
    | None => Err (if bool_decide (text = "") then "missing count" else "invalid count")
    end ∧
  (∀ n, (0 < n <= int_max)%Z → parsePositiveInt (itoa n) = Ok n) ∧
  parsePermissionGrantScope "count:18446744073709551617" = Some (mkGrant GrantCount 1 0) ∧
  parsePermissionGrantScope "count:9223372036854775808" = None.
Proof.
  assert (∀ text, parsePositiveInt text = match digits text with
    | Some n => if (0 <? wrap64 n)%Z then Ok (wrap64 n) else Err "invalid count"
    | None => Err (if bool_decide (text = "") then "missing count" else "invalid count") end) as H.
  { intros t. unfold parsePositiveInt. case_bool_decide as Ht; [by subst|].
    change 0%Z with (wrap64 0) at 1. rewrite positive_from_wraps. by destruct t. }
  split; [apply H|]. split; [|split; vm_compute; reflexivity]. intros n Hn. rewrite H.
  assert (digits (itoa n) = Some n) as ->.
  { destruct n as [|p|p]; [lia| |lia]. apply (pretty_N_digits (N.pos p)). }
  rewrite wrap64_id by (unfold is_int, int_min, int_max in *; lia).
  by rewrite (proj2 (Z.ltb_lt 0 n)) by lia.
Qed.

(** ** Keys of requests without bars *)

(** The fields that make the exact key. *)
Definition key_fields (req : PermissionRequest) : list string :=
  TrimSpace <$> [SessionID req; ToolName req; Action req] ++ Paths req ++ [Command req].

Lemma permissionDecisionKey_fields req req' :
  Forall (part bar) (key_fields req) → Forall (part bar) (key_fields req') →
  permissionDecisionKey req = permissionDecisionKey req' → key_fields req = key_fields req'.
Proof.
  intros H H' Heq. rewrite <- (Split_Join (key_fields req) bar) by done.
  rewrite <- (Split_Join (key_fields req') bar) by done. by f_equal.
Qed.

End Keys.

#[global] Arguments permissionDecisionKey : simpl never.
#[global] Arguments permissionOverrideKey : simpl never.
#[global] Arguments permissionDecisionKeys : simpl never.
