(* ===== verification/PermissionManager.v ===== *)
(** * The permission manager ([internal/toolruntime/permissions.go], third part)

    The state and the operations of [PermissionManager]. Each operation is one
    step: it holds the mutex for its whole body. [RestoreSession] takes it twice
    and is modelled as the reset followed by the rest. The manager is not nil. *)
From S2P Require Import Prelude GoStrings GoRunes GoPath Permissions PermissionKeys.
From Stdlib Require Import Ascii ZArith Lia.

(** ** State *)

Record manager := mkManager {
  rules : list PermissionRule;
  decisions : gmap string permissionOverride;
  pending : gmap string PendingPermission;
  pendingKey : gmap string string;
  pendingTTL : Z;
  (** How often the clock was read. *)
  ticks : nat;
}.

Definition eta_manager (m : manager) : manager :=
  mkManager (rules m) (decisions m) (pending m) (pendingKey m) (pendingTTL m) (ticks m).
Definition set_rules (v : list PermissionRule) (m : manager) : manager :=
  ltac:(with_field eta_manager rules m v).
Definition set_decisions (v : gmap string permissionOverride) (m : manager) : manager :=
  ltac:(with_field eta_manager decisions m v).
Definition set_pending (v : gmap string PendingPermission) (m : manager) : manager :=
  ltac:(with_field eta_manager pending m v).
Definition set_pendingKey (v : gmap string string) (m : manager) : manager :=
  ltac:(with_field eta_manager pendingKey m v).
Definition set_pendingTTL (v : Z) (m : manager) : manager :=
  ltac:(with_field eta_manager pendingTTL m v).
Definition set_ticks (v : nat) (m : manager) : manager :=
  ltac:(with_field eta_manager ticks m v).

Abbreviation P := (M manager string).

Definition second : Z := 1000000000.
Definition five_minutes : Z := (300 * second)%Z.

(** [NewPermissionManager]; a nil rule is [None]. *)
Definition NewPermissionManager (rules : list (option PermissionRule)) : manager :=
  mkManager (omap id rules) ∅ ∅ ∅ five_minutes 0.

Section Manager.
Context {U : Unicode} {L : PermissionLib} (clock : nat → Z).

(** ** Rules and policies *)

Definition setPendingTTL (seconds : Z) : P unit :=
  update (set_pendingTTL (if (seconds <=? 0)%Z then five_minutes else wrap64 (seconds * second))).

Definition AddRules (rs : list (option PermissionRule)) : P unit :=
  update (λ m, set_rules (rules m ++ omap id rs) m).

Definition ReplaceRules (rs : list (option PermissionRule)) : P unit :=
  update (set_rules (omap id rs)).

Definition ApplyPolicy (policy : PermissionPolicy) : P unit :=
  let policy := normalizePermissionPolicy policy in
  setPendingTTL (PendingTTLSeconds (InteractiveApproval policy)) ;;
  ReplaceRules (Some <$> permissionRulesForPolicy policy).

Definition NewPermissionManagerForPolicy (policy : PermissionPolicy) : manager :=
  run (ApplyPolicy policy) (NewPermissionManager []).

Definition NewDefaultPermissionManager : manager :=
  NewPermissionManagerForPolicy DefaultPermissionPolicy.

(** ** Time *)

Definition nowUTCLocked : P Z :=
  n ← gets ticks; (update (set_ticks (S n)) ;; mret (clock n)).

(** A zero [expiry] is never reached. *)
Definition expired (now expiry : Z) : bool := negb (expiry =? 0)%Z && (expiry <=? now)%Z.

(** [!t.IsZero() && !m.nowUTCLocked().Before(t)] *)
Definition reached (t : Z) : P bool :=
  if (t =? 0)%Z then mret false else now ← nowUTCLocked; mret (expired now t).

Definition pendingExpiredLocked (p : PendingPermission) : P bool := reached (ExpiresAt p).

Definition pruneExpiredLocked : P unit :=
  now ← nowUTCLocked;
  update (λ m, set_decisions (filter (λ kv, expired now (expiresAt kv.2) = false) (decisions m)) m) ;;
  m ← gets id;
  let gone := filter (λ kv, expired now (ExpiresAt kv.2) = true) (map_to_list (pending m)) in
  update (set_pending (foldr (λ kv, delete kv.1) (pending m) gone)) ;;
  update (set_pendingKey
    (foldr (λ kv, delete (permissionDecisionKey (Request kv.2))) (pendingKey m) gone)).

(** ** Grants *)

(** The result of an override, and whether there was one. *)
Definition consumeOverrideLocked (key : string) : P (option PermissionResult) :=
  m ← gets id;
  match decisions m !! key with
  | None => mret None
  | Some override =>
      gone ← reached (expiresAt override);
      if (gone : bool) then update (λ m, set_decisions (delete key (decisions m)) m) ;; mret None
      else
        (if (remaining override =? 1)%Z
         then update (λ m, set_decisions (delete key (decisions m)) m)
         else if (1 <? remaining override)%Z
         then update (λ m, set_decisions (<[key := mkOverride (request override) (override_result override)
                (remaining override - 1) (expiresAt override)]> (decisions m)) m)
         else mret tt) ;;
        mret (Some (override_result override))
  end.

Definition drop_pending_of (key : string) : P unit :=
  m ← gets id;
  match pendingKey m !! key with
  | None => mret tt
  | Some pendingID =>
      update (set_pendingKey (delete key (pendingKey m))) ;;
      update (set_pending (delete pendingID (pending m)))
  end.

Definition grant_expiry (parsed : parsedPermissionGrant) : P Z :=
  if bool_decide (kind parsed = GrantTimebox)
  then now ← nowUTCLocked; mret (now + duration parsed)%Z else mret 0%Z.

Definition setSessionDecisionLocked (req : PermissionRequest) (result : PermissionResult) (scope : string) :
    P unit :=
  if bool_decide (SessionID req = "") then mret tt
  else
    let parsed := default (mkGrant GrantSession 0 0) (parsePermissionGrantScope scope) in
    expires ← grant_expiry parsed;
    let left_ := match kind parsed with GrantOnce => 1 | GrantCount => count parsed | _ => -1 end%Z in
    let override := mkOverride (clonePermissionRequest req) result left_ expires in
    update (λ m, set_decisions (<[permissionOverrideKey req scope := override]> (decisions m)) m) ;;
    drop_pending_of (permissionDecisionKey req).

Definition set_SessionID (s : string) (r : PermissionRequest) : PermissionRequest :=
  mkRequest s (TurnID r) (Source r) (Sender r) (ToolName r) (Action r) (Paths r) (Command r)
    (Mutation r) (Input r).

Definition setSessionDecision (req : PermissionRequest) (result : PermissionResult) (scope : string) : P unit :=
  let req := set_SessionID (TrimSpace (SessionID req)) req in
  if bool_decide (SessionID req = "") then mret tt else setSessionDecisionLocked req result scope.

Definition AllowSession (req : PermissionRequest) : P unit :=
  setSessionDecision req (mkResult PermissionAllow "" PermissionGrantSession "") PermissionGrantSession.

Definition AllowOnce (req : PermissionRequest) : P unit :=
  setSessionDecision req (mkResult PermissionAllow "" PermissionGrantOnce "") PermissionGrantOnce.

Definition AllowPattern (req : PermissionRequest) (reason : string) : P unit :=
  if bool_decide (permissionPatternKey req = "") then AllowOnce req
  else
    let trimmed := TrimSpace reason in
    let trimmed := if bool_decide (trimmed = "") then "auto-approved by permission review" else trimmed in
    setSessionDecision req (mkResult PermissionAllow trimmed PermissionGrantPattern "")
      PermissionGrantPattern.

Definition DenySession (req : PermissionRequest) (reason : string) : P unit :=
  setSessionDecision req (mkResult PermissionDeny (TrimSpace reason) PermissionGrantSession "")
    PermissionGrantSession.

(** ** Pending requests *)

Definition ensurePendingLocked (req : PermissionRequest) (result : PermissionResult) : P PendingPermission :=
  let key := permissionDecisionKey req in
  m ← gets id;
  match pendingKey m !! key with
  | Some pendingID => mret (default (mkPending "" StatusUnset (mkRequest "" "" "" "" "" "" [] "" false ∅) "" 0 0)
                             (pending m !! pendingID))
  | None =>
      let reason := TrimSpace (Reason result) in
      let reason := if bool_decide (reason = "") then "approval required before running this tool" else reason in
      now ← nowUTCLocked;
      let p := mkPending (pendingPermissionID key) PermissionStatusPending (clonePermissionRequest req)
                 reason now (now + pendingTTL m)%Z in
      update (λ m, set_pending (<[Pending_ID p := p]> (pending m)) m) ;;
      update (λ m, set_pendingKey (<[key := Pending_ID p]> (pendingKey m)) m) ;;
      mret p
  end.

Definition RequestApproval (req : PermissionRequest) (reason : string) : P PermissionResult :=
  p ← ensurePendingLocked req (mkResult PermissionPending (TrimSpace reason) "approval" "");
  mret (mkResult PermissionPending (Pending_Reason p) "approval" (Pending_ID p)).

(** ** [Evaluate] *)

Definition abstain : PermissionResult := mkResult PermissionAbstain "" "" "".

(** The loop over the keys: the first override that is found. *)
Fixpoint consume_first (keys : list string) : P (option PermissionResult) :=
  match keys with
  | [] => mret None
  | key :: keys =>
      found ← consumeOverrideLocked key;
      match found with Some result => mret (Some result) | None => consume_first keys end
  end.

(** The first rule that handles the request. *)
Definition first_rule (rs : list PermissionRule) (req : PermissionRequest) : option PermissionResult :=
  head (omap (λ rule, rule req) rs).

Definition apply_rules (req : PermissionRequest) : P PermissionResult :=
  m ← gets id;
  match first_rule (rules m) req with
  | None => mret abstain
  | Some result =>
      let decision := if bool_decide (Decision result = DecisionUnset) then PermissionAbstain
                      else Decision result in
      let result := mkResult decision (Reason result) (Scope result) (RequestID result) in
      if bool_decide (decision = PermissionPending) && negb (bool_decide (TrimSpace (Scope result) = "review"))
      then
        p ← ensurePendingLocked req result;
        mret (mkResult decision
          (if bool_decide (TrimSpace (Reason result) = "") then Pending_Reason p else Reason result)
          (Scope result) (Pending_ID p))
      else mret result
  end.

Definition Evaluate (req : PermissionRequest) : P PermissionResult :=
  pruneExpiredLocked ;;
  found ← consume_first (permissionDecisionKeys req);
  match found with
  | Some result => mret result
  | None =>
      m ← gets id;
      match pendingKey m !! permissionDecisionKey req with
      | Some pendingID =>
          match pending m !! pendingID with
          | Some p => mret (mkResult PermissionPending (Pending_Reason p) "approval" (Pending_ID p))
          | None => mret (mkResult PermissionPending "" "approval" "")
          end
      | None => apply_rules req
      end
  end.

(** ** Resolution *)

Definition find_pending (sessionID requestID : string) : P PendingPermission :=
  m ← gets id;
  match pending m !! requestID with
  | None => throw "permission request not found"
  | Some p =>
      if sameSession (SessionID (Request p)) sessionID then mret p
      else throw "permission request not found"
  end.

Definition remove_pending (requestID : string) (p : PendingPermission) : P unit :=
  update (λ m, set_pending (delete requestID (pending m)) m) ;;
  update (λ m, set_pendingKey (delete (permissionDecisionKey (Request p)) (pendingKey m)) m).

(** The end of [ApprovePending], for a request taken off the tables. *)
Definition grant_approved (requestID scope : string) (req : PermissionRequest) : P PermissionResolution :=
  setSessionDecisionLocked req (mkResult PermissionAllow "" scope "") scope ;;
  now ← nowUTCLocked;
  mret (mkResolution requestID PermissionAllow PermissionStatusApproved scope ""
          (clonePermissionRequest req) now).

Definition ApprovePending (sessionID requestID scope : string) : P PermissionResolution :=
  let scope := if bool_decide (scope = "") then PermissionGrantSession else scope in
  match parsePermissionGrantScope scope with
  | None => throw "unsupported permission grant scope"
  | Some _ =>
      p ← find_pending sessionID requestID;
      gone ← pendingExpiredLocked p;
      remove_pending requestID p ;;
      if (gone : bool) then throw "permission request expired"
      else grant_approved requestID scope (Request p)
  end.

(** The end of [DenyPending]. *)
Definition deny_recorded (requestID reason : string) (req : PermissionRequest) : P PermissionResolution :=
  setSessionDecisionLocked req (mkResult PermissionDeny reason PermissionGrantSession "")
    PermissionGrantSession ;;
  now ← nowUTCLocked;
  mret (mkResolution requestID PermissionDeny PermissionStatusDenied PermissionGrantSession reason
          (clonePermissionRequest req) now).

Definition DenyPending (sessionID requestID reason : string) : P PermissionResolution :=
  p ← find_pending sessionID requestID;
  remove_pending requestID p ;;
  let trimmedReason := TrimSpace reason in
  let trimmedReason := if bool_decide (trimmedReason = "") then "permission request denied"
                       else trimmedReason in
  deny_recorded requestID trimmedReason (Request p).

Definition CancelPending (sessionID requestID : string) : P bool :=
  let sessionID := TrimSpace sessionID in
  let requestID := TrimSpace requestID in
  if bool_decide (sessionID = "") || bool_decide (requestID = "") then mret false
  else
    m ← gets id;
    match pending m !! requestID with
    | None => mret false
    | Some p =>
        if sameSession (SessionID (Request p)) sessionID
        then remove_pending requestID p ;; mret true else mret false
    end.

(** ** Sessions *)

Definition ResetSession (sessionID : string) : P unit :=
  let sessionID := TrimSpace sessionID in
  if bool_decide (sessionID = "") then mret tt
  else
    let prefix := sessionID +:+ "|" in
    update (λ m, set_decisions (filter (λ kv, HasPrefix kv.1 prefix = false) (decisions m)) m) ;;
    m ← gets id;
    let gone := filter (λ kv, SessionID (Request kv.2) = sessionID) (map_to_list (pending m)) in
    update (set_pendingKey
      (foldr (λ kv, delete (permissionDecisionKey (Request kv.2))) (pendingKey m) gone)) ;;
    update (set_pending (foldr (λ kv, delete kv.1) (pending m) gone)).

Section Sessions.
Context {O : MapOrder}.

(** [sort.Slice]: the sort is not stable, and sorts what the map's order gives. *)
Definition ListPending (sessionID : string) : P (list PendingPermission) :=
  let sessionID := TrimSpace sessionID in
  pruneExpiredLocked ;;
  m ← gets id;
  mret (stable_sort (λ p q, CreatedAt p <? CreatedAt q)%Z
    (clonePendingPermission <$>
      filter (λ p, sessionID = "" ∨ SessionID (Request p) = sessionID) (visit (pending m)).*2)).

Definition export_override (o : permissionOverride) : PermissionOverrideState :=
  mkOverrideState (clonePermissionRequest (request o)) (override_result o) (remaining o) (expiresAt o).

Definition override_before (s t : PermissionOverrideState) : bool :=
  str_lt (permissionDecisionKey (State_Request s)) (permissionDecisionKey (State_Request t)).

Definition pending_before (p q : PendingPermission) : bool :=
  if (CreatedAt p =? CreatedAt q)%Z then str_lt (Pending_ID p) (Pending_ID q)
  else (CreatedAt p <? CreatedAt q)%Z.

Definition ExportSession (sessionID : string) : P PermissionSessionState :=
  let sessionID := TrimSpace sessionID in
  if bool_decide (sessionID = "") then mret (mkSessionState [] [])
  else
    pruneExpiredLocked ;;
    m ← gets id;
    mret (mkSessionState
      (stable_sort override_before (export_override <$>
        filter (λ o, TrimSpace (SessionID (request o)) = sessionID) (visit (decisions m)).*2))
      (stable_sort pending_before (clonePendingPermission <$>
        filter (λ p, TrimSpace (SessionID (Request p)) = sessionID) (visit (pending m)).*2))).

End Sessions.

(** The session id that [RestoreSession] gives to a request, if it restores it. *)
Definition in_session (sessionID : string) (req : PermissionRequest) : option PermissionRequest :=
  let req := clonePermissionRequest req in
  let req := if bool_decide (TrimSpace (SessionID req) = "") then set_SessionID sessionID req else req in
  if bool_decide (TrimSpace (SessionID req) = sessionID) then Some req else None.

Definition restore_override (sessionID : string) (item : PermissionOverrideState) : P unit :=
  match in_session sessionID (State_Request item) with
  | None => mret tt
  | Some req =>
      update (λ m, set_decisions
        (<[permissionOverrideKey req (storedPermissionGrantScope item) :=
           mkOverride req (State_Result item) (Remaining item) (State_ExpiresAt item)]> (decisions m)) m)
  end.

Definition restore_pending (sessionID : string) (item : PendingPermission) : P unit :=
  match in_session sessionID (Request item) with
  | None => mret tt
  | Some req =>
      let key := permissionDecisionKey req in
      let id_ := if bool_decide (Pending_ID item = "") then pendingPermissionID key else Pending_ID item in
      created ← (if (CreatedAt item =? 0)%Z then nowUTCLocked else mret (CreatedAt item) : P Z);
      ttl ← gets pendingTTL;
      let expires := if (ExpiresAt item =? 0)%Z then (created + ttl)%Z else ExpiresAt item in
      let status := if bool_decide (Pending_Status item = StatusUnset) then PermissionStatusPending
                    else Pending_Status item in
      let p := mkPending id_ status req (Pending_Reason item) created expires in
      update (λ m, set_pending (<[id_ := p]> (pending m)) m) ;;
      update (λ m, set_pendingKey (<[key := id_]> (pendingKey m)) m)
  end.

Fixpoint each {A} (f : A → P unit) (l : list A) : P unit :=
  match l with
  | [] => mret tt
  | x :: l => f x ;; each f l
  end.

Definition RestoreSession (sessionID : string) (state : PermissionSessionState) : P unit :=
  let sessionID := TrimSpace sessionID in
  if bool_decide (sessionID = "") then mret tt
  else
    ResetSession sessionID ;;
    each (restore_override sessionID) (Overrides state) ;;
    each (restore_pending sessionID) (Pending state).

End Manager.
