(* ===== verification/PermissionInv.v ===== *)
(** * Invariant of the permission manager

    The table of pending requests and its index by key are two views of the same
    set, request ids are the ids of their keys, every grant is stored under a
    key that its own request is looked up with, and a grant that counts its uses
    has some left. *)
From S2P Require Import Prelude GoStrings GoRunes GoPath Permissions PermissionKeys PermissionManager.
From Stdlib Require Import Ascii ZArith Lia.

(** ** Maps *)

Lemma lookup_foldr_delete {A B} (f : A → string) (l : list A) (m : gmap string B) k :
  foldr (λ x, delete (f x)) m l !! k = if decide (k ∈ f <$> l) then None else m !! k.
Proof.
  induction l as [|x l IH]; [done|]. cbn [foldr]. rewrite fmap_cons.
  destruct (decide (k = f x)) as [->|Hne].
  - rewrite lookup_delete_eq. by rewrite decide_True by set_solver.
  - rewrite lookup_delete_ne, IH by done. apply decide_ext. set_solver.
Qed.

Section Inv.
Context {U : Unicode} {L : PermissionLib} (clock : nat → Z).

(** The index is the converse of the table. *)
Record wf_manager (m : manager) : Prop := {
  wf_id : ∀ i p, pending m !! i = Some p →
    i = Pending_ID p ∧ i = pendingPermissionID (permissionDecisionKey (Request p));
  wf_index : ∀ k i, pendingKey m !! k = Some i ↔
    ∃ p, pending m !! i = Some p ∧ permissionDecisionKey (Request p) = k;
  wf_grant : ∀ k o, decisions m !! k = Some o →
    k ∈ permissionDecisionKeys (request o) ∧ remaining o ≠ 0%Z;
}.

(** Requests with different keys get different ids. *)
Context (id_inj : ∀ k k', pendingPermissionID k = pendingPermissionID k' → k = k').

(** ** Changes of the state that keep it well formed *)

Lemma wf_frame m m' :
  wf_manager m → pending m' = pending m → pendingKey m' = pendingKey m →
  (∀ k o, decisions m' !! k = Some o →
    k ∈ permissionDecisionKeys (request o) ∧ remaining o ≠ 0%Z) → wf_manager m'.
Proof.
  intros [Hid Hix _] Hp Hk Hd. split; [by rewrite Hp|by rewrite Hp, Hk|done].
Qed.

(** Forgetting some pending requests in both tables. *)
Lemma wf_forget gone m m' :
  wf_manager m → decisions m' = decisions m →
  gone ⊆ map_to_list (pending m) →
  pending m' = foldr (λ kv, delete kv.1) (pending m) gone →
  pendingKey m' = foldr (λ kv, delete (permissionDecisionKey (Request kv.2))) (pendingKey m) gone →
  wf_manager m'.
Proof.
  intros [Hid Hix Hg] Hd Hgone Hp Hk.
  assert (∀ i p, pending m !! i = Some p →
    (i ∈ gone.*1 ↔ permissionDecisionKey (Request p) ∈ (λ kv, permissionDecisionKey (Request kv.2)) <$> gone))
    as Hboth.
  { intros i p Hi. rewrite !list_elem_of_fmap. split.
    - intros ([j q]&Hj&Hin). simpl in Hj. subst j. exists (i, q). split; [|done].
      apply Hgone, elem_of_map_to_list in Hin. simpl. congruence.
    - intros ([j q]&Hkey&Hin). exists (j, q). split; [|done]. simpl in *.
      apply Hgone, elem_of_map_to_list in Hin. apply Hid in Hi as [_ ->]. apply Hid in Hin as [_ ->].
      by rewrite Hkey. }
  split.
  - intros i p. rewrite Hp, lookup_foldr_delete. case_decide; [done|]. apply Hid.
  - intros k i. rewrite Hk, lookup_foldr_delete. setoid_rewrite Hp.
    setoid_rewrite lookup_foldr_delete. case_decide as Hin.
    + split; [done|]. intros (p&Hi&<-).
      destruct (decide (i ∈ gone.*1)) as [Hgi|Hgi]; [done|]. by destruct Hgi; apply (Hboth i p Hi).
    + rewrite Hix. split; intros (p&Hi&<-).
      * exists p. split; [|done]. rewrite decide_False; [done|]. by rewrite (Hboth i p Hi).
      * destruct (decide (i ∈ gone.*1)); [done|]. eauto.
  - by rewrite Hd.
Qed.

Lemma wf_remove m i p :
  wf_manager m → pending m !! i = Some p →
  wf_manager (set_pendingKey (delete (permissionDecisionKey (Request p)) (pendingKey m))
                (set_pending (delete i (pending m)) m)).
Proof.
  intros Hwf Hi. apply (wf_forget [(i, p)] m); try done.
  intros kv ->%list_elem_of_singleton. by apply elem_of_map_to_list.
Qed.

Lemma wf_add m p :
  wf_manager m → pendingKey m !! permissionDecisionKey (Request p) = None →
  Pending_ID p = pendingPermissionID (permissionDecisionKey (Request p)) →
  wf_manager (set_pendingKey (<[permissionDecisionKey (Request p) := Pending_ID p]> (pendingKey m))
                (set_pending (<[Pending_ID p := p]> (pending m)) m)).
Proof.
  intros [Hid Hix Hg] Hnone HID.
  assert (pending m !! Pending_ID p = None) as Hfresh.
  { destruct (pending m !! Pending_ID p) as [q|] eqn:Hq; [|done]. apply Hid in Hq as Hq'.
    destruct Hq' as [_ Hq']. rewrite HID in Hq'. apply id_inj in Hq'.
    assert (pendingKey m !! permissionDecisionKey (Request p) = Some (Pending_ID p)) as Hs; [|congruence].
    apply Hix. exists q. by rewrite Hq'. }
  split; cbn.
  - intros i q [[<- <-]|[_ Hi]]%lookup_insert_Some; [done|]. by apply Hid.
  - intros k i. rewrite lookup_insert_Some, Hix. split.
    + intros [[<- <-]|[Hne (q&Hi&<-)]].
      * exists p. by rewrite lookup_insert_eq.
      * exists q. rewrite lookup_insert_ne by (intros <-; congruence). done.
    + intros (q&[[<- <-]|[Hne Hi]]%lookup_insert_Some&<-); [by left|right].
      split; [|by eauto]. intros Heq. assert (pendingKey m !! permissionDecisionKey (Request q) = Some i) as Hs
        by (apply Hix; eauto). by rewrite <- Heq, Hnone in Hs.
  - done.
Qed.

(** ** The operations *)

Abbreviation keeps := (preserves (E:=string) wf_manager).

Lemma wf_clock_read m n : wf_manager m → wf_manager (set_ticks n m).
Proof. intros Hm. apply (wf_frame m); try done. apply Hm. Qed.

(** Reading the clock. *)
Lemma run_now {A} (k : Z → P A) m :
  run (nowUTCLocked clock ≫= k) m = run (k (clock (ticks m))) (set_ticks (S (ticks m)) m).
Proof. done. Qed.

Lemma out_now {A} (k : Z → P A) m :
  out (nowUTCLocked clock ≫= k) m = out (k (clock (ticks m))) (set_ticks (S (ticks m)) m).
Proof. done. Qed.

Lemma keeps_now : keeps (nowUTCLocked clock).
Proof. intros m Hm. by apply wf_clock_read. Qed.

Lemma keeps_reached t : keeps (reached clock t).
Proof. intros m Hm. unfold reached. case_match; [done|]. by apply wf_clock_read. Qed.

Lemma keeps_setPendingTTL seconds : keeps (setPendingTTL seconds).
Proof. intros m Hm. apply (wf_frame m); try done. apply Hm. Qed.

Lemma keeps_rules f : keeps (update (λ m, set_rules (f m) m)).
Proof. intros m Hm. apply (wf_frame m); try done. apply Hm. Qed.

Lemma keeps_ApplyPolicy policy : keeps (ApplyPolicy policy).
Proof. apply preserves_bind; [apply keeps_setPendingTTL|]. intros _. apply (keeps_rules (λ _, _)). Qed.

Lemma keeps_pruneExpiredLocked : keeps (pruneExpiredLocked clock).
Proof.
  intros m Hm. set (now := clock (ticks m)).
  apply (wf_forget (filter (λ kv, expired now (ExpiresAt kv.2) = true) (map_to_list (pending m)))
    (set_decisions (filter (λ kv, expired now (expiresAt kv.2) = false) (decisions m))
      (set_ticks (S (ticks m)) m))); [|done| |done|done].
  - apply (wf_frame m); [done..|]. cbn. intros k o [Ho _]%map_lookup_filter_Some. by apply Hm.
  - intros kv [_ Hkv]%list_elem_of_filter. done.
Qed.

(** Any change of the grants that stores them under keys of their own. *)
Lemma keeps_decisions f :
  (∀ m k o, wf_manager m → f (decisions m) !! k = Some o →
    k ∈ permissionDecisionKeys (request o) ∧ remaining o ≠ 0%Z) →
  keeps (update (λ m, set_decisions (f (decisions m)) m)).
Proof. intros Hf m Hm. apply (wf_frame m); [done..|]. intros k o. by apply Hf. Qed.

Lemma keeps_delete_grant key : keeps (update (λ m, set_decisions (delete key (decisions m)) m)).
Proof.
  apply (keeps_decisions (delete key)). intros m k o Hm [_ Ho]%lookup_delete_Some. by apply Hm.
Qed.

Lemma keeps_insert_grant key o :
  key ∈ permissionDecisionKeys (request o) → remaining o ≠ 0%Z →
  keeps (update (λ m, set_decisions (<[key := o]> (decisions m)) m)).
Proof.
  intros Hk Hr. apply (keeps_decisions (insert key o)).
  intros m k o' Hm [[<- <-]|[_ Ho]]%lookup_insert_Some; [done|]. by apply Hm.
Qed.

#[local] Hint Resolve keeps_now keeps_reached keeps_ApplyPolicy keeps_pruneExpiredLocked
  keeps_delete_grant : preserve.

Lemma keeps_consume key : keeps (consumeOverrideLocked clock key).
Proof.
  apply preserves_read. intros m Hm. cbn [id]. destruct (decisions m !! key) as [o|] eqn:Ho; [|done].
  destruct (wf_grant m Hm key o Ho) as [Hk Hr]. revert m Hm Ho.
  assert (keeps (gone ← reached clock (expiresAt o);
      if (gone : bool) then update (λ m, set_decisions (delete key (decisions m)) m) ;; mret None
      else
        (if (remaining o =? 1)%Z
         then update (λ m, set_decisions (delete key (decisions m)) m)
         else if (1 <? remaining o)%Z
         then update (λ m, set_decisions (<[key := mkOverride (request o) (override_result o)
                (remaining o - 1) (expiresAt o)]> (decisions m)) m)
         else mret tt) ;;
        mret (Some (override_result o)))) as H; [|intros m Hm _; by apply H].
  apply preserves_bind; [auto with preserve|]. intros gone. destruct gone; [auto with preserve|].
  apply preserves_bind; [|auto with preserve]. repeat case_match; auto with preserve.
  apply keeps_insert_grant; [done|]. simpl. lia.
Qed.

Lemma keeps_consume_first keys : keeps (consume_first clock keys).
Proof.
  induction keys as [|key keys IH]; [apply preserves_ret|].
  apply preserves_bind; [apply keeps_consume|]. intros []; [apply preserves_ret|done].
Qed.

Lemma keeps_drop_pending_of key : keeps (drop_pending_of key).
Proof.
  apply preserves_read. intros m Hm. cbn [id]. destruct (pendingKey m !! key) as [i|] eqn:Hk; [|done].
  apply (wf_index m Hm) in Hk as (p&Hi&<-). by apply wf_remove with (i := i) (p := p).
Qed.

Lemma positive_from_pos value rs n : positive_from value rs = Ok n → (0 < n)%Z.
Proof.
  revert value. induction rs as [|ch rs IH]; intros value; cbn [positive_from].
  - case_match; [done|]. intros [= <-]. lia.
  - case_match; [done|]. apply IH.
Qed.

(** A scope that counts uses grants at least one. *)
Lemma parsed_count scope g :
  parsePermissionGrantScope scope = Some g → kind g = GrantCount → (0 < count g)%Z.
Proof.
  unfold parsePermissionGrantScope. cbn zeta. repeat (case_bool_decide; [by intros [= <-]|]).
  case_match.
  - unfold parsePositiveInt. case_bool_decide; [done|]. case_match eqn:Hp; [|done].
    intros [= <-] _. by apply positive_from_pos in Hp.
  - case_match; [|done]. case_match; [|done]. case_match; [done|]. by intros [= <-].
Qed.

Lemma keeps_setSessionDecisionLocked req result scope :
  keeps (setSessionDecisionLocked clock req result scope).
Proof.
  unfold setSessionDecisionLocked. case_bool_decide; [apply preserves_ret|]. cbn zeta.
  apply preserves_bind.
  { unfold grant_expiry. case_bool_decide; eauto with preserve. }
  intros expires. apply preserves_bind; [|intros _; apply keeps_drop_pending_of].
  apply keeps_insert_grant; [exact (override_key_tried req scope)|]. cbn.
  destruct (parsePermissionGrantScope scope) as [g|] eqn:Hg; [|done]. cbn.
  destruct (kind g) eqn:Hkind; try done. apply parsed_count in Hg; [lia|done].
Qed.

Lemma keeps_setSessionDecision req result scope : keeps (setSessionDecision clock req result scope).
Proof.
  unfold setSessionDecision. cbn zeta.
  case_bool_decide; [apply preserves_ret|apply keeps_setSessionDecisionLocked].
Qed.

Lemma keeps_ensurePendingLocked req result : keeps (ensurePendingLocked clock req result).
Proof.
  apply preserves_read. intros m Hm. cbn [id].
  destruct (pendingKey m !! permissionDecisionKey req) as [i|] eqn:Hk; [done|].
  cbn zeta. rewrite run_now, !run_update.
  match goal with |- context [mkPending ?i ?s ?r ?t ?c ?e] =>
    apply (wf_add (set_ticks (S (ticks m)) m) (mkPending i s r t c e)) end;
    [by apply wf_clock_read|exact Hk|done].
Qed.

Lemma keeps_apply_rules req : keeps (apply_rules clock req).
Proof.
  apply preserves_read. intros m Hm. cbn [id]. destruct (first_rule (rules m) req); [|done].
  cbn zeta. destruct (_ && _); [|done]. revert m Hm.
  eapply preserves_bind; [apply keeps_ensurePendingLocked|]. intros ?. apply preserves_ret.
Qed.

Lemma keeps_Evaluate req : keeps (Evaluate clock req).
Proof.
  apply preserves_bind; [auto with preserve|]. intros _.
  apply preserves_bind; [apply keeps_consume_first|]. intros [r|]; [apply preserves_ret|].
  apply preserves_read. intros m Hm. repeat case_match; try done. by apply keeps_apply_rules.
Qed.

(** A request that is found is in the table. *)
Lemma keeps_found {A} sessionID requestID (k : PendingPermission → P A) :
  (∀ m p, wf_manager m → pending m !! requestID = Some p → wf_manager (run (k p) m)) →
  keeps (find_pending sessionID requestID ≫= k).
Proof.
  intros Hk m Hm. rewrite run_bind. unfold find_pending. rewrite out_gets, run_gets. cbn [id].
  destruct (pending m !! requestID) as [p|] eqn:Hp; [|done].
  destruct (sameSession _ _); [|done]. by apply Hk.
Qed.

Lemma wf_remove_pending requestID p m :
  wf_manager m → pending m !! requestID = Some p → wf_manager (run (remove_pending requestID p) m).
Proof. intros Hm Hp. by apply (wf_remove m requestID p). Qed.

Lemma keeps_grant_approved requestID scope req : keeps (grant_approved clock requestID scope req).
Proof.
  apply preserves_bind; [apply keeps_setSessionDecisionLocked|]. intros _.
  apply preserves_bind; [apply keeps_now|]. intros now. apply preserves_ret.
Qed.

Lemma keeps_deny_recorded requestID reason req : keeps (deny_recorded clock requestID reason req).
Proof.
  apply preserves_bind; [apply keeps_setSessionDecisionLocked|]. intros _.
  apply preserves_bind; [apply keeps_now|]. intros now. apply preserves_ret.
Qed.

Lemma keeps_ApprovePending sessionID requestID scope :
  keeps (ApprovePending clock sessionID requestID scope).
Proof.
  unfold ApprovePending. cbn zeta. set (s := if bool_decide (scope = "") then _ else scope).
  destruct (parsePermissionGrantScope s) as [g|]; [|apply preserves_throw].
  apply keeps_found. intros m p Hm Hp. rewrite run_bind.
  assert (∀ m', wf_manager m' → pending m' !! requestID = Some p → ∀ gone : bool, wf_manager
    (run (remove_pending requestID p ;; if gone then throw "permission request expired"
      else grant_approved clock requestID s (Request p)) m')) as H'.
  { intros m' Hm' Hp' gone. rewrite run_bind. apply wf_remove_pending in Hp'; [|done].
    case_match; [|done]. destruct gone; [done|]. by apply keeps_grant_approved. }
  unfold pendingExpiredLocked, reached. destruct (ExpiresAt p =? 0)%Z; [by apply (H' m)|].
  apply (H' (set_ticks (S (ticks m)) m)); [by apply wf_clock_read|done].
Qed.

Lemma keeps_DenyPending sessionID requestID reason :
  keeps (DenyPending clock sessionID requestID reason).
Proof.
  apply keeps_found. intros m p Hm Hp. rewrite run_bind.
  apply wf_remove_pending in Hp; [|done]. case_match; [|done]. by apply keeps_deny_recorded.
Qed.

Lemma keeps_CancelPending sessionID requestID : keeps (CancelPending sessionID requestID).
Proof.
  unfold CancelPending. cbn zeta. case_match; [apply preserves_ret|].
  apply preserves_read. intros m Hm. cbn [id]. destruct (pending m !! _) as [p|] eqn:Hp; [|done].
  case_match; [|done]. rewrite run_bind. apply wf_remove_pending in Hp; [|done]. by case_match.
Qed.

Lemma keeps_ResetSession sessionID : keeps (ResetSession sessionID).
Proof.
  unfold ResetSession. cbn zeta. case_bool_decide; [apply preserves_ret|]. intros m Hm.
  rewrite run_update, run_gets, run_update. cbn [id].
  match goal with |- context [foldr (λ kv, delete kv.1) _ ?g] =>
    apply (wf_forget g (set_decisions (filter (λ kv, HasPrefix kv.1 (TrimSpace sessionID +:+ "|") = false)
      (decisions m)) m)); [|done| |done|done] end.
  - apply (wf_frame m); [done..|]. cbn. intros k o [Ho _]%map_lookup_filter_Some. by apply Hm.
  - intros kv [_ Hkv]%list_elem_of_filter. done.
Qed.

(** ** Restoring a session *)

(** What a persisted session must satisfy: the ids of its pending requests are
    those of their keys, and no grant has zero uses left. *)
Definition wf_session (sessionID : string) (state : PermissionSessionState) : Prop :=
  Forall (λ o, Remaining o ≠ 0%Z) (Overrides state) ∧
  Forall (λ p, ∀ req, in_session (TrimSpace sessionID) (Request p) = Some req →
    Pending_ID p = "" ∨ Pending_ID p = pendingPermissionID (permissionDecisionKey req)) (Pending state).

Lemma wf_put m p :
  wf_manager m → Pending_ID p = pendingPermissionID (permissionDecisionKey (Request p)) →
  wf_manager (set_pendingKey (<[permissionDecisionKey (Request p) := Pending_ID p]> (pendingKey m))
                (set_pending (<[Pending_ID p := p]> (pending m)) m)).
Proof.
  intros Hm HID. destruct (pendingKey m !! permissionDecisionKey (Request p)) as [i|] eqn:Hk;
    [|by apply wf_add].
  destruct (proj1 (wf_index m Hm _ _) Hk) as (q&Hq&Hkey). pose proof (wf_id m Hm i q Hq) as [_ Hi].
  rewrite Hkey, <- HID in Hi. subst i. split; cbn.
  - intros j r [[<- <-]|[_ Hr]]%lookup_insert_Some; [done|]. by apply Hm.
  - intros k j. rewrite lookup_insert_Some. split.
    + intros [[<- <-]|[Hne Hkj]]; [exists p; by rewrite lookup_insert_eq|].
      apply Hm in Hkj as (r&Hr&<-). exists r. split; [|done]. rewrite lookup_insert_ne; [done|].
      intros <-. congruence.
    + intros (r&[[<- <-]|[Hne Hr]]%lookup_insert_Some&<-); [by left|].
      right. split; [|apply Hm; by eauto]. intros Heq. apply Hne.
      assert (pendingKey m !! permissionDecisionKey (Request r) = Some j) as Hs by (apply Hm; eauto).
      congruence.
  - apply Hm.
Qed.

Lemma keeps_each {A} (f : A → P unit) l : Forall (λ x, keeps (f x)) l → keeps (each f l).
Proof.
  induction 1 as [|x l Hx _ IH]; [apply preserves_ret|]. by apply preserves_bind; [|intros _].
Qed.

Lemma keeps_restore_override sessionID item :
  Remaining item ≠ 0%Z → keeps (restore_override sessionID item).
Proof.
  intros Hr. unfold restore_override. case_match; [|apply preserves_ret].
  by apply keeps_insert_grant; [apply override_key_tried|].
Qed.

Lemma keeps_restore_pending sessionID item :
  (∀ req, in_session sessionID (Request item) = Some req →
    Pending_ID item = "" ∨ Pending_ID item = pendingPermissionID (permissionDecisionKey req)) →
  keeps (restore_pending clock sessionID item).
Proof.
  intros HID. unfold restore_pending. case_match; [|apply preserves_ret]. cbn zeta.
  apply preserves_bind; [case_match; auto with preserve|]. intros created.
  apply preserves_read. intros m Hm. rewrite run_update.
  match goal with |- context [mkPending ?i ?s ?r ?t ?c ?e] =>
    apply (wf_put m (mkPending i s r t c e)) end; [done|].
  cbn. destruct (HID _ eq_refl) as [->| ->]; [done|]. by case_bool_decide.
Qed.

Lemma keeps_RestoreSession sessionID state :
  wf_session sessionID state → keeps (RestoreSession clock sessionID state).
Proof.
  intros [Ho Hp]. unfold RestoreSession. cbn zeta. case_bool_decide; [apply preserves_ret|].
  apply preserves_bind; [apply keeps_ResetSession|]. intros _.
  apply preserves_bind; [|intros _]; apply keeps_each.
  - eapply Forall_impl; [done|]. intros. by apply keeps_restore_override.
  - eapply Forall_impl; [done|]. intros. by apply keeps_restore_pending.
Qed.

End Inv.
