(* ===== verification/PermissionGate.v ===== *)
(** * The permission gate ([internal/toolruntime/permissions.go], last part)

    The interceptor that every tool call passes, with the automatic review, and
    the theorems about the manager behind it: its invariant over any sequence
    of calls, what lets a tool call through, how long a grant lasts. *)
From S2P Require Import Prelude GoStrings GoRunes GoPath ShellLexer ShellPolicy Permissions PermissionKeys PermissionManager PermissionInv.
From Stdlib Require Import Ascii ZArith Lia.

(** An automatic reviewer; an error is its text. *)
Definition PermissionReviewer := PermissionRequest → result string PermissionResult.

(** What the interceptor returns: the call goes on as it is left, or one of the
    errors [ErrPermissionDenied] and [ErrPermissionPending]. *)
Inductive verdict :=
| Proceed (call : ToolCall)
| Denied (tool action reason : string)
| Waiting (tool action requestID reason : string).

Section Gate.
Context {U : Unicode} {L : PermissionLib} (clock : nat → Z).

Definition or_default (reason fallback : string) : string :=
  if bool_decide (TrimSpace reason = "") then fallback else TrimSpace reason.

Definition resolveReviewedPermission (reviewer : option PermissionReviewer) (req : PermissionRequest)
    (initial : PermissionResult) : P PermissionResult :=
  let fallback := λ reason,
    let reason := TrimSpace reason in
    let reason := if bool_decide (reason = "") then Reason initial else reason in
    let reason := if bool_decide (TrimSpace reason = "")
                  then "automatic review requested manual approval" else reason in
    RequestApproval clock req reason in
  match reviewer with
  | None => fallback "automatic review is unavailable; manual approval required"
  | Some review =>
      match review req with
      | Err e => fallback ("automatic review failed: " +:+ e)
      | Ok reviewed =>
          if bool_decide (Decision reviewed = PermissionAllow ∨ Decision reviewed = PermissionDeny)
          then mret reviewed
          else if bool_decide (Decision reviewed = PermissionPending)
                  && negb (bool_decide (TrimSpace (RequestID reviewed) = ""))
          then mret reviewed
          else fallback (Reason reviewed)
      end
  end.

(** [NewPermissionInterceptorWithReview]; without a reviewer it is
    [NewPermissionInterceptor]. *)
Definition intercept (reviewer : option PermissionReviewer) (call : ToolCall) : P verdict :=
  let req := PermissionRequestFromCall call in
  let waiting := λ result : PermissionResult,
    Waiting (ToolName req) (Action req) (RequestID result)
      (or_default (Reason result) "tool call requires approval") in
  result ← Evaluate clock req;
  match Decision result with
  | PermissionDeny =>
      mret (Denied (ToolName req) (Action req)
        (or_default (Reason result) "tool call denied by permission policy"))
  | PermissionPending =>
      if bool_decide (TrimSpace (Scope result) = "review") then
        reviewed ← resolveReviewedPermission reviewer req result;
        match Decision reviewed with
        | PermissionAllow =>
            AllowPattern clock req (Reason reviewed) ;;
            mret (Proceed (markApprovedShellCommand call req))
        | PermissionDeny =>
            mret (Denied (ToolName req) (Action req)
              (or_default (Reason reviewed) "tool call denied by automatic review"))
        | _ => mret (waiting reviewed)
        end
      else mret (waiting result)
  | PermissionAllow => mret (Proceed (markApprovedShellCommand call req))
  | _ => mret (Proceed call)
  end.

(** ** Calls on a manager *)

Inductive op :=
| OApplyPolicy (policy : PermissionPolicy)
| OAddRules (rs : list (option PermissionRule))
| OReplaceRules (rs : list (option PermissionRule))
| OEvaluate (req : PermissionRequest)
| OIntercept (reviewer : option PermissionReviewer) (call : ToolCall)
| OAllowSession (req : PermissionRequest)
| OAllowOnce (req : PermissionRequest)
| OAllowPattern (req : PermissionRequest) (reason : string)
| ODenySession (req : PermissionRequest) (reason : string)
| ORequestApproval (req : PermissionRequest) (reason : string)
| OApprovePending (sessionID requestID scope : string)
| ODenyPending (sessionID requestID reason : string)
| OCancelPending (sessionID requestID : string)
| OListPending (sessionID : string)
| OExportSession (sessionID : string)
| OResetSession (sessionID : string)
| ORestoreSession (sessionID : string) (state : PermissionSessionState).

Definition drop_value {A} (m : P A) : P unit := m ;; mret tt.

Definition exec {O : MapOrder} (o : op) : P unit :=
  match o with
  | OApplyPolicy policy => ApplyPolicy policy
  | OAddRules rs => AddRules rs
  | OReplaceRules rs => ReplaceRules rs
  | OEvaluate req => drop_value (Evaluate clock req)
  | OIntercept reviewer call => drop_value (intercept reviewer call)
  | OAllowSession req => AllowSession clock req
  | OAllowOnce req => AllowOnce clock req
  | OAllowPattern req reason => AllowPattern clock req reason
  | ODenySession req reason => DenySession clock req reason
  | ORequestApproval req reason => drop_value (RequestApproval clock req reason)
  | OApprovePending s i scope => drop_value (ApprovePending clock s i scope)
  | ODenyPending s i reason => drop_value (DenyPending clock s i reason)
  | OCancelPending s i => drop_value (CancelPending s i)
  | OListPending s => drop_value (ListPending clock s)
  | OExportSession s => drop_value (ExportSession clock s)
  | OResetSession s => ResetSession s
  | ORestoreSession s state => RestoreSession clock s state
  end.

(** A persisted session is read back as some session of a manager was saved. *)
Definition op_ok (o : op) : Prop :=
  match o with ORestoreSession s state => wf_session s state | _ => True end.

(** The states that a manager goes through. *)
Inductive reachable {O : MapOrder} : manager → Prop :=
| reach_new rs : reachable (NewPermissionManager rs)
| reach_step m o : reachable m → op_ok o → reachable (run (exec o) m).

End Gate.

(** ** Invariant *)

Section Invariant.
Context {U : Unicode} {L : PermissionLib} {O : MapOrder} (clock : nat → Z).
Context (id_inj : ∀ k k', pendingPermissionID k = pendingPermissionID k' → k = k').
#[local] Abbreviation keeps := (preserves (E:=string) wf_manager).

Lemma keeps_AllowPattern req reason : keeps (AllowPattern clock req reason).
Proof. unfold AllowPattern. case_bool_decide; apply keeps_setSessionDecision. Qed.

Lemma keeps_RequestApproval req reason : keeps (RequestApproval clock req reason).
Proof.
  apply preserves_bind; [by apply keeps_ensurePendingLocked|]. intros. apply preserves_ret.
Qed.

Lemma keeps_resolve reviewer req initial :
  keeps (resolveReviewedPermission clock reviewer req initial).
Proof.
  unfold resolveReviewedPermission. cbn zeta.
  repeat case_match; first [apply preserves_ret | apply keeps_RequestApproval].
Qed.

Lemma keeps_intercept reviewer call : keeps (intercept clock reviewer call).
Proof.
  apply preserves_bind; [by apply keeps_Evaluate|]. intros result.
  repeat case_match; try apply preserves_ret.
  apply preserves_bind; [apply keeps_resolve|]. intros reviewed.
  case_match; try apply preserves_ret.
  apply preserves_bind; [apply keeps_AllowPattern|]. intros _. apply preserves_ret.
Qed.

Lemma keeps_drop_value {A} (m : P A) : keeps m → keeps (drop_value m).
Proof. intros Hm. apply preserves_bind; [done|]. intros. apply preserves_ret. Qed.

Lemma keeps_ListPending s : keeps (ListPending clock s).
Proof. apply preserves_bind; [apply keeps_pruneExpiredLocked|]. by intros _ m. Qed.

Lemma keeps_ExportSession s : keeps (ExportSession clock s).
Proof.
  unfold ExportSession. cbn zeta. case_bool_decide; [apply preserves_ret|].
  apply preserves_bind; [apply keeps_pruneExpiredLocked|]. by intros _ m.
Qed.

Lemma keeps_exec o : op_ok o → keeps (exec clock o).
Proof.
  destruct o; cbn [exec op_ok]; intros Hok; try apply keeps_drop_value;
    first [ apply keeps_ApplyPolicy | apply (keeps_rules (λ m, _)) | by apply keeps_Evaluate
          | apply keeps_intercept | apply keeps_setSessionDecision | apply keeps_AllowPattern
          | apply keeps_RequestApproval | by apply keeps_ApprovePending | by apply keeps_DenyPending
          | apply keeps_CancelPending | apply keeps_ListPending | apply keeps_ExportSession
          | apply keeps_ResetSession | by apply keeps_RestoreSession ].
Qed.

Lemma reachable_wf m : reachable clock m → wf_manager m.
Proof.
  induction 1 as [rs|m o _ IH Hok]; [|by apply keeps_exec].
  split; cbn; [by intros ??; rewrite lookup_empty| |by intros ??; rewrite lookup_empty].
  intros k i. rewrite lookup_empty. split; [done|]. intros (p&Hp&_). by rewrite lookup_empty in Hp.
Qed.


End Invariant.

(** ** What [Evaluate] answers *)

Section Evaluation.
Context {U : Unicode} {L : PermissionLib} (clock : nat → Z).

(** The state after the expired grants and requests are dropped. *)
Definition pruned (m : manager) : manager := run (pruneExpiredLocked clock) m.

Lemma pruned_decision m k o :
  decisions (pruned m) !! k = Some o ↔
  decisions m !! k = Some o ∧ expired (clock (ticks m)) (expiresAt o) = false.
Proof. unfold pruned. apply map_lookup_filter_Some. Qed.

Lemma pruned_rules m : rules (pruned m) = rules m.
Proof. done. Qed.

(** Looking for grants writes nothing but grants. *)
Record quiet (m m' : manager) : Prop := {
  quiet_rules : rules m' = rules m;
  quiet_pending : pending m' = pending m;
  quiet_pendingKey : pendingKey m' = pendingKey m;
}.

#[local] Instance quiet_preorder : PreOrder quiet.
Proof. split; [by intros m|]. intros m1 m2 m3 [] []. split; congruence. Qed.

(** A grant once used. *)
Definition use_grant (key : string) (o : permissionOverride) (d : gmap string permissionOverride) :=
  if (remaining o =? 1)%Z then delete key d
  else if (1 <? remaining o)%Z
  then <[key := mkOverride (request o) (override_result o) (remaining o - 1) (expiresAt o)]> d
  else d.

Definition after_read (o : permissionOverride) (m : manager) : manager :=
  if (expiresAt o =? 0)%Z then m else set_ticks (S (ticks m)) m.

Lemma consume_none key m :
  decisions m !! key = None → consumeOverrideLocked clock key m = (m, Ok None).
Proof.
  intros Hk. unfold consumeOverrideLocked, mbind, M_bind. cbn [gets id]. by rewrite Hk.
Qed.

Lemma set_decisions_same m : set_decisions (decisions m) m = m.
Proof. by destruct m. Qed.

Lemma consume_some key m o :
  decisions m !! key = Some o →
  consumeOverrideLocked clock key m =
  if expired (clock (ticks m)) (expiresAt o)
  then (set_decisions (delete key (decisions m)) (after_read o m), Ok None)
  else (set_decisions (use_grant key o (decisions m)) (after_read o m), Ok (Some (override_result o))).
Proof.
  intros Hk. unfold consumeOverrideLocked, reached, nowUTCLocked, mbind, M_bind. cbn [gets id].
  rewrite Hk. unfold after_read, use_grant, expired, gets, update, mret, M_ret, id.
  destruct (expiresAt o =? 0)%Z; cbn; [|destruct (expiresAt o <=? clock (ticks m))%Z; cbn; [done|]];
    (destruct (remaining o =? 1)%Z; [done|]); (destruct (1 <? remaining o)%Z; [done|]);
    by destruct m.
Qed.

Lemma consume_quiet key m : quiet m (run (consumeOverrideLocked clock key) m).
Proof.
  unfold run. destruct (decisions m !! key) as [o|] eqn:Ho; [|by rewrite consume_none].
  rewrite (consume_some key m o) by done. unfold after_read. by repeat case_match.
Qed.

Lemma consume_first_quiet keys m : quiet m (run (consume_first clock keys) m).
Proof.
  revert m. induction keys as [|key keys IH]; intros m; [done|]. cbn [consume_first].
  rewrite run_bind. destruct (out (consumeOverrideLocked clock key) m) as [[r|]|].
  - apply consume_quiet.
  - etransitivity; [apply consume_quiet|apply IH].
  - apply consume_quiet.
Qed.

(** A grant that answers is stored under one of the keys, and had not expired
    when the clock was read. *)
Lemma consume_first_found keys m r :
  out (consume_first clock keys) m = Ok (Some r) →
  ∃ k o, k ∈ keys ∧ decisions m !! k = Some o ∧ r = override_result o ∧
    ∃ n, ticks m ≤ n ∧ expired (clock n) (expiresAt o) = false.
Proof.
  revert m. induction keys as [|key keys IH]; intros m; [done|]. cbn [consume_first].
  rewrite out_bind. unfold out at 1, run. destruct (decisions m !! key) as [o|] eqn:Ho.
  - rewrite (consume_some key m o) by done. destruct (expired _ _) eqn:He; cbn.
    + intros (k&o'&Hk&Hd&->&n&Hn&Hx)%IH. cbn in Hd. apply lookup_delete_Some in Hd as [_ Hd].
      exists k, o'. split_and!; [by right|done..|]. exists n. split; [|done].
      revert Hn. unfold after_read. case_match; cbn; lia.
    + intros [= <-]. exists key, o. split_and!; [by left|done..|]. by exists (ticks m).
  - rewrite consume_none by done. cbn. intros (k&o&Hk&Hrest)%IH. exists k, o. split; [by right|done].
Qed.

(** Without a grant under any of the keys nothing happens. *)
Lemma consume_first_none keys m :
  (∀ k, k ∈ keys → decisions m !! k = None) → consume_first clock keys m = (m, Ok None).
Proof.
  induction keys as [|key keys IH]; intros Hk; [done|]. cbn [consume_first].
  unfold mbind, M_bind. rewrite consume_none by (apply Hk; by left). apply IH.
  intros k ?. apply Hk. by right.
Qed.

(** The rest of [Evaluate]: requests that wait, then rules. *)
Definition decide_without_grants (req : PermissionRequest) : P PermissionResult :=
  m ← gets id;
  match pendingKey m !! permissionDecisionKey req with
  | Some pendingID =>
      match pending m !! pendingID with
      | Some p => mret (mkResult PermissionPending (Pending_Reason p) "approval" (Pending_ID p))
      | None => mret (mkResult PermissionPending "" "approval" "")
      end
  | None => apply_rules clock req
  end.

Lemma out_Evaluate req m :
  out (Evaluate clock req) m =
  match out (consume_first clock (permissionDecisionKeys req)) (pruned m) with
  | Ok (Some r) => Ok r
  | Ok None => out (decide_without_grants req)
                 (run (consume_first clock (permissionDecisionKeys req)) (pruned m))
  | Err e => Err e
  end.
Proof.
  unfold Evaluate. rewrite out_bind. change (out (pruneExpiredLocked clock) m) with (@Ok string unit tt).
  cbn iota. rewrite out_bind. by destruct (out (consume_first _ _) _) as [[]|].
Qed.

Lemma apply_rules_out req m r :
  out (apply_rules clock req) m = Ok r →
  match first_rule (rules m) req with
  | None => r = abstain
  | Some r0 =>
      Decision r = (if bool_decide (Decision r0 = DecisionUnset) then PermissionAbstain else Decision r0) ∧
      Scope r = Scope r0
  end.
Proof.
  unfold apply_rules. rewrite out_gets. cbn [id]. destruct (first_rule (rules m) req) as [r0|].
  2: { by intros [= <-]. }
  cbn zeta. destruct (_ && _); [|by intros [= <-]]. rewrite out_bind.
  destruct (out (ensurePendingLocked _ _ _) _); [|done]. by intros [= <-].
Qed.

(** The three sources of an answer. *)
Lemma Evaluate_answer req m r :
  out (Evaluate clock req) m = Ok r →
  (∃ k o n, k ∈ permissionDecisionKeys req ∧ decisions m !! k = Some o ∧
     expired (clock (ticks m)) (expiresAt o) = false ∧
     ticks m < n ∧ expired (clock n) (expiresAt o) = false ∧ r = override_result o)
  ∨ (is_Some (pendingKey (pruned m) !! permissionDecisionKey req) ∧
     Decision r = PermissionPending ∧ Scope r = "approval")
  ∨ (pendingKey (pruned m) !! permissionDecisionKey req = None ∧
     match first_rule (rules m) req with
     | None => r = abstain
     | Some r0 =>
         Decision r = (if bool_decide (Decision r0 = DecisionUnset) then PermissionAbstain else Decision r0) ∧
         Scope r = Scope r0
     end).
Proof.
  rewrite out_Evaluate. set (keys := permissionDecisionKeys req).
  destruct (out (consume_first clock keys) (pruned m)) as [[r'|]|] eqn:Hc; [| |done].
  - intros [= ->]. apply consume_first_found in Hc as (k&o&Hk&Ho&->&n&Hn&Hx).
    apply pruned_decision in Ho as [Ho He]. left. exists k, o, n. done.
  - destruct (consume_first_quiet keys (pruned m)) as [Hr Hp Hk].
    unfold decide_without_grants. rewrite out_gets. cbn [id]. rewrite Hk, Hp.
    destruct (pendingKey (pruned m) !! _) as [i|].
    + destruct (pending (pruned m) !! i); intros [= <-]; right; left; done.
    + intros Ha%apply_rules_out. rewrite Hr in Ha. right. by right.
Qed.

Lemma resolve_allows reviewer req initial m r :
  out (resolveReviewedPermission clock reviewer req initial) m = Ok r → Decision r = PermissionAllow →
  ∃ review, reviewer = Some review ∧ review req = Ok r.
Proof.
  assert (∀ reason m r, out (RequestApproval clock req reason) m = Ok r → Decision r ≠ PermissionAllow)
    as Hfall.
  { intros reason m' r'. unfold RequestApproval. rewrite out_bind. case_match; [|done]. by intros [= <-]. }
  unfold resolveReviewedPermission. cbn zeta.
  destruct reviewer as [review|]; [|by intros ?%Hfall].
  destruct (review req) as [reviewed|e] eqn:Hr; [|by intros ?%Hfall].
  destruct (bool_decide _); [by intros [= <-] _; exists review|].
  destruct (_ && _); [by intros [= <-] _; exists review|]. by intros ?%Hfall.
Qed.

(** ** What lets a call through *)

(** A result that does not hold a call back: it allows or abstains, or asks for
    an automatic review and the reviewer allows the request. *)
Definition agrees (reviewer : option PermissionReviewer) (req : PermissionRequest) (r : PermissionResult) : Prop :=
  match Decision r with
  | PermissionDeny => False
  | PermissionPending =>
      TrimSpace (Scope r) = "review" ∧
      ∃ review r', reviewer = Some review ∧ review req = Ok r' ∧ Decision r' = PermissionAllow
  | _ => True
  end.

(** Somebody's consent: a live grant for one of the request's keys, or, where
    nothing is waiting for approval under its key, the first rule that handles
    it, or that no rule protects it. *)
Inductive consent (reviewer : option PermissionReviewer) (m : manager) (req : PermissionRequest) : Prop :=
| consent_grant k o n :
    k ∈ permissionDecisionKeys req → decisions m !! k = Some o →
    expired (clock (ticks m)) (expiresAt o) = false →
    ticks m < n → expired (clock n) (expiresAt o) = false →
    agrees reviewer req (override_result o) → consent reviewer m req
| consent_rule r :
    pendingKey (pruned m) !! permissionDecisionKey req = None →
    first_rule (rules m) req = Some r → agrees reviewer req r → consent reviewer m req
| consent_unprotected :
    pendingKey (pruned m) !! permissionDecisionKey req = None →
    first_rule (rules m) req = None → consent reviewer m req.

Lemma proceeds_consent reviewer call m call' :
  out (intercept clock reviewer call) m = Ok (Proceed call') →
  consent reviewer m (PermissionRequestFromCall call).
Proof.
  unfold intercept. cbn zeta. rewrite out_bind. set (req := PermissionRequestFromCall call).
  destruct (out (Evaluate clock req) m) as [r|e] eqn:He; [|done]. intros Hp.
  assert (agrees reviewer req r) as Ha.
  { unfold agrees. destruct (Decision r); try done. case_bool_decide as Hs; [|done].
    rewrite out_bind in Hp.
    destruct (out (resolveReviewedPermission _ _ _ _) _) as [r'|] eqn:Hr; [|done].
    destruct (Decision r') eqn:Hd; try done.
    apply resolve_allows in Hr as (review&->&Hr); [|done]. split; [done|]. by exists review, r'. }
  clear Hp. apply Evaluate_answer in He as [(k&o&n&?&?&?&?&?&->)|[(_&Hd&Hs)|(Hnone&Hrule)]].
  - by eapply consent_grant.
  - unfold agrees in Ha. rewrite Hd, Hs in Ha. destruct Ha as [Hs' _]. by vm_compute in Hs'.
  - destruct (first_rule (rules m) req) as [r0|] eqn:Hf; [|by apply consent_unprotected].
    apply (consent_rule _ _ _ r0); [done..|]. destruct Hrule as [Hd Hs].
    unfold agrees in *. rewrite Hd, Hs in Ha. by destruct (Decision r0).
Qed.

(** C3: No tool call runs without consent. If the interceptor lets a call go on,
    then there is a grant, stored under a key of this very request, not expired
    at the start of the check nor when it was used, that does not deny it; or
    no request for the same call is waiting and the first rule that handles it
    allows it or abstains, or asks for a review that the reviewer answers with
    an explicit allow (an error, an empty answer or a missing reviewer never
    do), or no rule handles it. *)
Theorem no_call_without_consent reviewer call m call' :
  out (intercept clock reviewer call) m = Ok (Proceed call') →
  consent reviewer m (PermissionRequestFromCall call).
Proof. apply proceeds_consent. Qed.

(** ** The strict profile *)

Lemma automation_denies req r :
  newAutomationMutationRule true req = Some r → Decision r = PermissionDeny.
Proof.
  unfold newAutomationMutationRule, policy_deny. cbn [negb].
  repeat case_match; intros; by simplify_eq.
Qed.

Lemma first_rule_cons rule rs req :
  first_rule (rule :: rs) req = match rule req with Some r => Some r | None => first_rule rs req end.
Proof. unfold first_rule. simpl. by destruct (rule req). Qed.

(** Under the strict profile, whatever the rest of the policy and whatever
    the reviewer says, no call of [bash], [background] or [desktop] (in any
    spelling) from a remote or automated source runs, unless a grant other than
    a denial is stored under one of its keys and alive. *)
Theorem strict_profile_blocks policy reviewer call m call' :
  normalizeSecurityProfile (SecurityProfile policy) = SecurityProfileStrict →
  rules m = permissionRulesForPolicy policy →
  (∀ k o, k ∈ permissionDecisionKeys (PermissionRequestFromCall call) → decisions m !! k = Some o →
     Decision (override_result o) = PermissionDeny ∨ expired (clock (ticks m)) (expiresAt o) = true) →
  ToLower (TrimSpace (TrimSpace (Name call))) ∈ ["bash"; "background"; "desktop"] →
  ToLower (TrimSpace (TrimSpace (Session_Source call))) ∈ remote_or_automated →
  out (intercept clock reviewer call) m ≠ Ok (Proceed call').
Proof.
  intros Hprofile Hrules Hgrants Htool Hsource Hp.
  set (req := PermissionRequestFromCall call) in *.
  assert (∃ r, first_rule (rules m) req = Some r ∧ Decision r = PermissionDeny) as (r&Hr&Hd).
  { rewrite Hrules. unfold permissionRulesForPolicy. cbn zeta.
    cbn [BlockAutomationMutations normalizePermissionPolicy SecurityProfile InteractiveApproval].
    rewrite Hprofile. set (others := (if Enabled _ then _ else _) ++ _).
    assert (∃ r, first_rule (NewSecurityProfileRuleWithApprovalMode SecurityProfileStrict
      (Mode (normalizeInteractiveApprovalPolicy (InteractiveApproval policy))) :: others) req = Some r ∧
      Decision r = PermissionDeny) as (r&Hr&Hd).
    { rewrite first_rule_cons. unfold NewSecurityProfileRuleWithApprovalMode. cbn zeta.
      assert (normalizeSecurityProfile SecurityProfileStrict = SecurityProfileStrict) as ->
        by (vm_compute; reflexivity).
      cbn [ToolName Source req PermissionRequestFromCall]. rewrite !bool_decide_true by done.
      by eexists. }
    destruct (BlockAutomationMutations policy); cbn [app]; [|by eauto].
    rewrite first_rule_cons. destruct (newAutomationMutationRule true req) as [r'|] eqn:Ha; [|by eauto].
    apply automation_denies in Ha. eauto. }
  apply proceeds_consent in Hp. fold req in Hp. inversion Hp as [k o n Hk Ho He _ _ Hag|r' _ Hr' Hag|_ Hr'].
  - unfold agrees in Hag. destruct (Hgrants k o Hk Ho) as [Hdeny|Hx]; [by rewrite Hdeny in Hag|congruence].
  - rewrite Hr in Hr'. injection Hr' as <-. unfold agrees in Hag. by rewrite Hd in Hag.
  - congruence.
Qed.

(** ** Trusted prefixes *)

(** A call of [bash] from the web console. *)
Definition web_bash (command : string) : ToolCall :=
  mkCall "bash" {["command" := VString command]} "s1" "web" "user" "t1".

(** The default policy asks the user before a shell command from a remote
    source runs, except for trusted command prefixes such as [ls], [git diff]
    and [echo]. The test is a prefix of the whole command line, and the blank
    that ends a prefix such as [echo] is lost in normalisation: what follows is
    not looked at, so that each of these command lines runs on a fresh manager
    without anybody being asked. *)
Theorem trusted_prefix_gap :
  TrustedCommandPrefixes (normalizeInteractiveApprovalPolicy (InteractiveApproval DefaultPermissionPolicy)) =
    ["cat"; "curl"; "date"; "diff"; "echo"; "find"; "git diff"; "git log"; "git show"; "git status";
     "grep"; "head"; "jq"; "ls"; "pwd"; "rg"; "sed -n"; "tail"; "uname"; "wc"; "wget"; "whoami"] ∧
  Forall (λ command,
    out (intercept clock None (web_bash command)) NewDefaultPermissionManager
    = Ok (Proceed (web_bash command)))
    ["ls; rm -rf src"; "echo pwned > ~/.bashrc"; "git difftool -x reboot HEAD"; "findstr /s key";
     "cat notes.txt | python deploy.py"].
Proof.
  split; [vm_compute; reflexivity|].
  repeat (apply Forall_cons; split; [vm_compute; reflexivity|]). constructor.
Qed.

End Evaluation.
