(* ===== verification/PermissionGrants.v ===== *)
(** * How far a grant reaches: uses, time, keys and sessions

    An approval is worth exactly its number of uses, what has expired counts for
    nothing, a reset forgets one session as long as names have no bar, keys tell
    requests apart up to bars, and a shell pattern covers two words. *)
From S2P Require Import Prelude GoStrings GoRunes GoPath ShellLexer ShellPolicy Permissions PermissionKeys PermissionManager PermissionInv PermissionGate.
From Stdlib Require Import Ascii ZArith Lia.

Section Grants.
Context {U : Unicode} {L : PermissionLib} (clock : nat → Z).

(** ** Uses *)

Lemma expired_never now : expired now 0 = false.
Proof. done. Qed.

Lemma decision_keys_head req : ∃ keys, permissionDecisionKeys req = permissionDecisionKey req :: keys.
Proof. unfold permissionDecisionKeys. eauto. Qed.

(** A grant under the exact key answers first. *)
Lemma Evaluate_exact req m o :
  decisions m !! permissionDecisionKey req = Some o → expiresAt o = 0%Z →
  out (Evaluate clock req) m = Ok (override_result o) ∧
  decisions (run (Evaluate clock req) m) !! permissionDecisionKey req =
    use_grant (permissionDecisionKey req) o (decisions m) !! permissionDecisionKey req.
Proof.
  intros Ho Hz. assert (decisions (pruned clock m) !! permissionDecisionKey req = Some o) as Hp.
  { apply pruned_decision. by rewrite Hz. }
  destruct (decision_keys_head req) as [keys Hkeys].
  assert (consume_first clock (permissionDecisionKeys req) (pruned clock m) =
    (set_decisions (use_grant (permissionDecisionKey req) o (decisions (pruned clock m))) (pruned clock m),
     Ok (Some (override_result o)))) as Hc.
  { rewrite Hkeys. cbn [consume_first]. unfold mbind, M_bind. rewrite (consume_some clock _ _ o) by done.
    unfold after_read. by rewrite Hz. }
  split; [by rewrite out_Evaluate; unfold out; rewrite Hc|].
  unfold Evaluate. rewrite run_bind. change (out (pruneExpiredLocked clock) m) with (@Ok string unit tt).
  cbn iota. rewrite run_bind. fold (pruned clock m). unfold out, run. rewrite Hc. cbn [fst snd].
  unfold use_grant. cbn [decisions set_decisions mret M_ret].
  repeat case_match; cbn; by rewrite ?lookup_delete_eq, ?lookup_insert_eq, ?Hp, ?Ho.
Qed.

(** The same request evaluated [n] times: the decisions. *)
Fixpoint evaluate_times (n : nat) (req : PermissionRequest) : P (list PermissionDecision) :=
  match n with
  | 0 => mret []
  | S n =>
      r ← Evaluate clock req;
      l ← evaluate_times n req;
      mret (Decision r :: l)
  end.

Lemma counted_uses n req m o :
  decisions m !! permissionDecisionKey req = Some o → expiresAt o = 0%Z →
  remaining o = Z.of_nat (S n) →
  out (evaluate_times (S n) req) m = Ok (replicate (S n) (Decision (override_result o))) ∧
  decisions (run (evaluate_times (S n) req) m) !! permissionDecisionKey req = None.
Proof.
  revert m o. induction n as [|n IH]; intros m o Ho Hz Hr;
    destruct (Evaluate_exact req m o Ho Hz) as [Hout Hrun]; unfold use_grant in Hrun;
    rewrite Hr in Hrun.
  - cbn [evaluate_times]. rewrite out_bind, run_bind, Hout. split; [done|].
    change (run (mret [] ≫= λ l, mret (Decision (override_result o) :: l)) (run (Evaluate clock req) m))
      with (run (Evaluate clock req) m). rewrite Hrun. apply lookup_delete_eq.
  - rewrite (proj2 (Z.eqb_neq _ _)), (proj2 (Z.ltb_lt _ _)), lookup_insert_eq in Hrun by lia.
    edestruct (IH (run (Evaluate clock req) m)) as [Ho' Hr']; [exact Hrun|done|cbn; lia|].
    remember (S n) as k. cbn [evaluate_times]. rewrite out_bind, run_bind, Hout.
    rewrite out_bind, run_bind, Ho'. split; [done|]. exact Hr'.
Qed.

(** ** Approvals *)

Lemma override_key_counted req scope g :
  parsePermissionGrantScope scope = Some g → kind g = GrantOnce ∨ kind g = GrantCount →
  permissionOverrideKey req scope = permissionDecisionKey req.
Proof.
  intros Hg Hk. unfold permissionOverrideKey. cbn zeta. rewrite Hg. cbn.
  assert (scope ≠ PermissionGrantSession) as Hs.
  { intros ->. assert (parsePermissionGrantScope PermissionGrantSession = Some (mkGrant GrantSession 0 0)) as H
      by (vm_compute; reflexivity). rewrite H in Hg. injection Hg as <-. cbn in Hk. naive_solver. }
  rewrite bool_decide_false by done. by destruct Hk as [-> | ->].
Qed.

(** How many uses a parsed scope grants, [None] without limit. *)
Definition uses (g : parsedPermissionGrant) : option nat :=
  match kind g with
  | GrantOnce => Some 1
  | GrantCount => Some (Z.to_nat (count g))
  | _ => None
  end.

Lemma setSession_counted req result scope g n m :
  SessionID req ≠ "" → parsePermissionGrantScope scope = Some g → uses g = Some n →
  out (setSessionDecisionLocked clock req result scope) m = Ok tt ∧
  decisions (run (setSessionDecisionLocked clock req result scope) m) !! permissionDecisionKey req =
    Some (mkOverride (clonePermissionRequest req) result (Z.of_nat n) 0) ∧ n ≠ 0.
Proof.
  intros Hs Hg Hn. unfold setSessionDecisionLocked. rewrite bool_decide_false by done. cbn zeta.
  rewrite Hg. change (default (mkGrant GrantSession 0 0) (Some g)) with g.
  assert (kind g = GrantOnce ∨ kind g = GrantCount) as Hk by (unfold uses in Hn; destruct (kind g); auto; done).
  rewrite (override_key_counted req scope g Hg Hk).
  assert (grant_expiry clock g = mret 0%Z) as ->.
  { unfold grant_expiry. rewrite bool_decide_false; [done|]. by destruct Hk as [-> | ->]. }
  assert (match kind g with GrantOnce => 1 | GrantCount => count g | _ => -1 end%Z = Z.of_nat n ∧ n ≠ 0)
    as [-> Hne].
  { unfold uses in Hn. destruct Hk as [Hk|Hk]; rewrite Hk in *; injection Hn as <-; [done|].
    pose proof (parsed_count scope g Hg Hk). lia. }
  match goal with |- out (?a ≫= ?k) m = _ ∧ _ =>
    change (out (a ≫= k) m) with (out (k 0%Z) m); change (run (a ≫= k) m) with (run (k 0%Z) m) end.
  cbn beta. rewrite out_update, run_update. unfold drop_pending_of. rewrite out_gets, run_gets.
  split_and!; [by case_match| |done]. case_match; apply lookup_insert_eq.
Qed.

(** An approval is worth exactly the number of uses it was given for. If a
    waiting request that has not expired is approved by its own session with a
    scope of one use ([once]) or of [n] ([count:n]), the approval succeeds, the
    next [n] evaluations of the same call are all allowed, whatever the rules
    say, and after them the grant is gone. *)
Theorem approval_counts sessionID requestID scope g n p m :
  pending m !! requestID = Some p → sameSession (SessionID (Request p)) sessionID = true →
  SessionID (Request p) ≠ "" → expired (clock (ticks m)) (ExpiresAt p) = false →
  scope ≠ "" → parsePermissionGrantScope scope = Some g → uses g = Some n →
  let m' := run (ApprovePending clock sessionID requestID scope) m in
  is_ok (out (ApprovePending clock sessionID requestID scope) m) = true ∧
  out (evaluate_times n (Request p)) m' = Ok (replicate n PermissionAllow) ∧
  decisions (run (evaluate_times n (Request p)) m') !! permissionDecisionKey (Request p) = None.
Proof.
  intros Hp Hsame Hne Hx Hscope Hg Hn m'.
  assert (∃ m0, ApprovePending clock sessionID requestID scope m =
    grant_approved clock requestID scope (Request p) m0) as [m0 Heq].
  { unfold ApprovePending. cbn zeta. rewrite bool_decide_false, Hg by done.
    unfold find_pending, pendingExpiredLocked, reached, nowUTCLocked, remove_pending, mbind, M_bind.
    cbn [gets id]. rewrite Hp, Hsame. cbn -[grant_approved]. unfold expired in *.
    destruct (ExpiresAt p =? 0)%Z; cbn -[grant_approved] in *; [by eexists|].
    rewrite Hx. by eexists. }
  destruct (setSession_counted (Request p) (mkResult PermissionAllow "" scope "") scope g n m0)
    as (Hok&Hd&Hn0); [done..|].
  assert (is_ok (out (grant_approved clock requestID scope (Request p)) m0) = true ∧
    decisions (run (grant_approved clock requestID scope (Request p)) m0) !! permissionDecisionKey (Request p)
      = Some (mkOverride (clonePermissionRequest (Request p)) (mkResult PermissionAllow "" scope "")
                (Z.of_nat n) 0)) as [Hok' Hd'].
  { unfold grant_approved. rewrite out_bind, run_bind, Hok. done. }
  assert (m' = run (grant_approved clock requestID scope (Request p)) m0) as -> by
    by unfold m', run; rewrite Heq.
  split; [by unfold out in *; rewrite Heq|]. destruct n as [|n]; [done|].
  by apply (counted_uses n (Request p) _ _ Hd').
Qed.

(** ** Time *)

Lemma ensure_without_grants req result d m :
  out (ensurePendingLocked clock req result) (set_decisions d m) = out (ensurePendingLocked clock req result) m.
Proof.
  unfold ensurePendingLocked. rewrite !out_gets. cbn [id]. cbn [pendingKey set_decisions].
  destruct (pendingKey m !! _); [done|]. done.
Qed.

Lemma decide_ignores_grants req d m :
  out (decide_without_grants clock req) (set_decisions d m) = out (decide_without_grants clock req) m.
Proof.
  unfold decide_without_grants. rewrite !out_gets. cbn [id]. cbn [pendingKey pending set_decisions].
  destruct (pendingKey m !! _) as [i|]; [by case_match|].
  unfold apply_rules. rewrite !out_gets. cbn [id]. cbn [rules set_decisions].
  destruct (first_rule (rules m) req) as [r|]; [|done]. cbn zeta.
  destruct (_ && _); [|done]. rewrite !out_bind, ensure_without_grants. by case_match.
Qed.

Lemma Evaluate_no_grant req m :
  (∀ k, k ∈ permissionDecisionKeys req → decisions (pruned clock m) !! k = None) →
  out (Evaluate clock req) m = out (decide_without_grants clock req) (pruned clock m).
Proof.
  intros Hk. rewrite out_Evaluate. unfold out at 1, run. by rewrite consume_first_none.
Qed.

(** What has expired counts for nothing, at the very instant of expiry
    already. If every grant under the keys of a request has expired, the request
    is decided as if no grant had ever been given; and an expired waiting
    request cannot be approved: the call fails for any session and any scope,
    and gives no grant. *)
Theorem expiry_is_final req requestID p m :
  ((∀ k o, k ∈ permissionDecisionKeys req → decisions m !! k = Some o →
      expired (clock (ticks m)) (expiresAt o) = true) →
   out (Evaluate clock req) m = out (Evaluate clock req) (set_decisions ∅ m)) ∧
  (pending m !! requestID = Some p → expired (clock (ticks m)) (ExpiresAt p) = true →
   ∀ sessionID scope,
     is_ok (out (ApprovePending clock sessionID requestID scope) m) = false ∧
     decisions (run (ApprovePending clock sessionID requestID scope) m) = decisions m).
Proof.
  split.
  - intros Hx. rewrite !Evaluate_no_grant.
    + change (pruned clock (set_decisions ∅ m)) with
        (set_decisions (filter (λ kv, expired (clock (ticks m)) (expiresAt kv.2) = false) ∅) (pruned clock m)).
      by rewrite decide_ignores_grants.
    + intros k _. apply eq_None_not_Some. intros [o Ho].
      apply pruned_decision in Ho as [Ho _]. cbn in Ho. by rewrite lookup_empty in Ho.
    + intros k Hk. apply eq_None_not_Some. intros [o Ho].
      apply pruned_decision in Ho as [Ho He]. rewrite (Hx k o Hk Ho) in He. done.
  - intros Hp Hx sessionID scope. unfold ApprovePending. cbn zeta.
    destruct (parsePermissionGrantScope _) as [g|]; [|done].
    unfold find_pending, pendingExpiredLocked, reached, nowUTCLocked, remove_pending, run, out, mbind, M_bind.
    cbn [gets id]. rewrite Hp. destruct (sameSession _ _); [|done].
    cbn -[grant_approved]. unfold expired in *.
    destruct (ExpiresAt p =? 0)%Z; cbn -[grant_approved] in *; [done|]. by rewrite Hx.
Qed.

(** ** Sessions *)

Lemma Join_cons_bar w l : l ≠ [] → Join (w :: l) "|" = w +:+ String bar (Join l "|").
Proof. destruct l; [done|]. done. Qed.

(** Every key of a request starts with its session. *)
Lemma key_session req k :
  k ∈ permissionDecisionKeys req → ∃ r, k = TrimSpace (SessionID req) +:+ String bar r.
Proof.
  unfold permissionDecisionKeys. cbn zeta.
  rewrite elem_of_cons, list_elem_of_filter, !elem_of_cons, elem_of_nil.
  assert (∃ r, permissionDecisionKey req = TrimSpace (SessionID req) +:+ String bar r) as Hexact.
  { eexists. unfold permissionDecisionKey. rewrite !fmap_app, !fmap_cons. cbn [app].
    by apply Join_cons_bar. }
  intros [->|[[Hne _] [->|[->|[->|[]]]]]]; [done|..].
  - revert Hne. unfold permissionTaskKey. cbn zeta. case_bool_decide; [done|]. intros _. by eexists.
  - revert Hne. unfold permissionSessionToolKey. cbn zeta. repeat case_match; try done; intros _;
      eexists; by apply Join_cons_bar.
  - revert Hne. unfold permissionPatternKey. cbn zeta. repeat case_match; try done; intros _;
      eexists; by apply Join_cons_bar.
Qed.

Lemma bar_prefix s a r :
  part bar s → part bar a → HasPrefix (a +:+ String bar r) (s +:+ "|") = true ↔ a = s.
Proof.
  intros Hs Ha. rewrite HasPrefix_iff. split; [|intros ->; exists r; by rewrite app_assoc_s].
  intros [r' Hr]. apply (f_equal (λ x, Cut x bar)) in Hr.
  rewrite app_assoc_s in Hr. change ("|" +:+ r') with (String bar r') in Hr.
  rewrite !Cut_part in Hr by done. by simplify_eq.
Qed.

(** Resetting a session forgets the grants of that session and no other:
    where no session name contains a bar, a grant is left exactly when the
    session of its request, trimmed, is another one. With a bar in a name the
    reset spills over: the grants of the session [s|t] are lost when [s] is
    reset. *)
Theorem reset_is_local sessionID m :
  wf_manager m → TrimSpace sessionID ≠ "" →
  (∀ k o, decisions m !! k = Some o → part bar (TrimSpace sessionID) →
     part bar (TrimSpace (SessionID (request o))) →
     decisions (run (ResetSession sessionID) m) !! k =
       if decide (TrimSpace (SessionID (request o)) = TrimSpace sessionID) then None else Some o) ∧
  (∀ k o t, decisions m !! k = Some o →
     TrimSpace (SessionID (request o)) = TrimSpace sessionID +:+ "|" +:+ t →
     decisions (run (ResetSession sessionID) m) !! k = None).
Proof.
  intros Hm Hne. unfold ResetSession. cbn zeta. rewrite bool_decide_false by done.
  rewrite run_update, run_gets, run_update. cbn [decisions update run set_pending set_pendingKey set_decisions].
  split.
  - intros k o Ho Hs Ha. destruct (wf_grant m Hm k o Ho) as [Hk _].
    apply key_session in Hk as [r ->]. case_decide as Heq.
    + apply map_lookup_filter_None. right. intros o' Ho' Hf. cbn [fst] in Hf.
      by rewrite (proj2 (bar_prefix _ _ r Hs Ha)) in Hf.
    + apply map_lookup_filter_Some. split; [done|]. cbn [fst]. apply not_true_is_false.
      by intros ?%bar_prefix.
  - intros k o t Ho Heq. destruct (wf_grant m Hm k o Ho) as [Hk _].
    apply key_session in Hk as [r ->]. apply map_lookup_filter_None. right. intros o' _ Hf. cbn [fst] in Hf.
    rewrite Heq, (proj2 (HasPrefix_iff _ _)) in Hf; [done|]. exists (t +:+ String bar r).
    by rewrite !app_assoc_s.
Qed.

(** ** Keys *)

(** What the exact key of a request tells apart. Among requests whose fields
    contain no bar, two have the same key exactly when they agree, up to
    trimming, on session, tool, action, paths and command. Bars are not
    escaped: a command line with a pipe has the key of its second part with the
    first one as a path, so that a grant for the one lets the other through. *)
Theorem decision_key_exact req req' :
  (Forall (part bar) (key_fields req) → Forall (part bar) (key_fields req') →
   permissionDecisionKey req = permissionDecisionKey req' ↔
   TrimSpace (SessionID req) = TrimSpace (SessionID req') ∧
   TrimSpace (ToolName req) = TrimSpace (ToolName req') ∧
   TrimSpace (Action req) = TrimSpace (Action req') ∧
   TrimSpace <$> Paths req = TrimSpace <$> Paths req' ∧
   TrimSpace (Command req) = TrimSpace (Command req')) ∧
  (∀ first second, Paths req = [] → Paths req' = [first] → Command req' = second →
   SessionID req = SessionID req' → ToolName req = ToolName req' → Action req = Action req' →
   TrimSpace (Command req) = TrimSpace first +:+ "|" +:+ TrimSpace second →
   SessionID req ≠ "" → TrimSpace (SessionID req) = SessionID req →
   permissionDecisionKey req = permissionDecisionKey req' ∧
   ∀ m, out (Evaluate clock req') (run (AllowOnce clock req) m)
        = Ok (mkResult PermissionAllow "" PermissionGrantOnce "")).
Proof.
  split.
  - intros Hb Hb'. split.
    + intros Hkey%permissionDecisionKey_fields; [|done..]. revert Hkey. unfold key_fields.
      rewrite !fmap_app, !fmap_cons, !fmap_nil. intros [= ??? Hp]. apply app_inj_tail in Hp. naive_solver.
    + intros (Hs&Ht&Ha&Hp&Hc). unfold permissionDecisionKey.
      rewrite !fmap_app, !fmap_cons, !fmap_nil. by rewrite Hs, Ht, Ha, Hp, Hc.
  - intros first second Hp Hp' Hc' Hs Ht Ha Hc Hne Htrim.
    assert (permissionDecisionKey req = permissionDecisionKey req') as Hkey.
    { unfold permissionDecisionKey. rewrite Hp, Hp', Hc', Hs, Ht, Ha. cbn. by rewrite Hc. }
    split; [done|]. intros m. unfold AllowOnce, setSessionDecision. cbn zeta.
    assert (set_SessionID (TrimSpace (SessionID req)) req = req) as -> by (rewrite Htrim; by destruct req).
    rewrite bool_decide_false by done.
    destruct (setSession_counted req (mkResult PermissionAllow "" PermissionGrantOnce "") PermissionGrantOnce
      (mkGrant GrantOnce 0 0) 1 m) as (_&Hd&_); [done|by vm_compute|done|].
    rewrite Hkey in Hd. by destruct (Evaluate_exact req' _ _ Hd eq_refl) as [-> _].
Qed.

(** ** Patterns *)

Lemma consume_first_only keys k o m :
  k ∈ keys → decisions m !! k = Some o → expiresAt o = 0%Z →
  (∀ k', k' ∈ keys → k' ≠ k → decisions m !! k' = None) →
  out (consume_first clock keys) m = Ok (Some (override_result o)).
Proof.
  induction keys as [|k' keys IH]; [set_solver|]. intros Hk Ho Hz Hother. cbn [consume_first].
  rewrite out_bind. unfold out at 1, run. destruct (decide (k' = k)) as [->|Hne].
  - rewrite (consume_some clock k m o) by done. by rewrite Hz.
  - rewrite (consume_none clock k' m) by (apply Hother; set_solver). cbn [fst snd].
    apply IH; [set_solver|done|done|]. intros. apply Hother; set_solver.
Qed.

Lemma shell_keys req :
  TrimSpace (ToolName req) ∈ ["bash"; "background"] →
  permissionSessionToolKey req = "" ∧
  (TrimSpace (SessionID req) ≠ "" → commandApprovalPattern (Command req) ≠ "" →
   permissionPatternKey req = Join [TrimSpace (SessionID req); TrimSpace (ToolName req); "pattern";
     TrimSpace (Action req); commandApprovalPattern (Command req)] "|" ∧ permissionPatternKey req ≠ "").
Proof.
  intros Ht. unfold permissionSessionToolKey, permissionPatternKey. cbn zeta. split.
  - destruct (bool_decide (_ = "") || _); [done|]. rewrite bool_decide_false; [done|].
    revert Ht. rewrite !elem_of_cons, elem_of_nil. by intros [->|[->|[]]] [|[|[]]].
  - intros Hs Hc. rewrite bool_decide_false, (bool_decide_false (TrimSpace (ToolName req) = "")) by
      (done || (intros Hn; revert Ht; rewrite Hn, !elem_of_cons, elem_of_nil; by intros [|[|[]]])).
    cbn [orb]. rewrite (bool_decide_true _ Ht), bool_decide_false by done. split; [done|].
    rewrite Join_cons_bar by done. by destruct (TrimSpace (SessionID req)).
Qed.

(** The reach of a shell pattern. After one command line of [bash] or
    [background] has been approved by pattern, every call of the tool with the
    same action in the same session whose command line starts with the same two
    words is allowed, without end and before any rule is looked at, unless a
    grant or denial lies under its exact key or the key of its turn: the rest
    of the line does not count. So an approved [git status] also admits
    [git status && rm -rf src]. *)
Theorem pattern_grant_reach req req' reason m :
  TrimSpace (ToolName req) ∈ ["bash"; "background"] →
  SessionID req ≠ "" → TrimSpace (SessionID req) = SessionID req →
  commandApprovalPattern (Command req) ≠ "" →
  TrimSpace (SessionID req') = SessionID req → TrimSpace (ToolName req') = TrimSpace (ToolName req) →
  TrimSpace (Action req') = TrimSpace (Action req) →
  commandApprovalPattern (Command req') = commandApprovalPattern (Command req) →
  let m' := run (AllowPattern clock req reason) m in
  (∀ k, k ∈ [permissionDecisionKey req'; permissionTaskKey req'] → k ≠ permissionPatternKey req →
     decisions m' !! k = None) →
  (∃ r, out (Evaluate clock req') m' = Ok r ∧ Decision r = PermissionAllow) ∧
  commandApprovalPattern "git status && rm -rf src" = commandApprovalPattern "git status".
Proof.
  intros Ht Hne Htrim Hpat Hs' Ht' Ha' Hp' m' Hother. split; [|vm_compute; reflexivity].
  destruct (shell_keys req Ht) as [_ Hkey]. destruct Hkey as [Hkey Hkne]; [congruence|done|].
  destruct (shell_keys req') as [Htool' Hkey']; [by rewrite Ht'|].
  destruct Hkey' as [Hkey' _]; [congruence|congruence|].
  assert (permissionPatternKey req' = permissionPatternKey req) as Hsame.
  { by rewrite Hkey, Hkey', Hs', Ht', Ha', Hp', Htrim. }
  assert (∃ o, decisions m' !! permissionPatternKey req = Some o ∧ expiresAt o = 0%Z ∧
    Decision (override_result o) = PermissionAllow) as (o&Ho&Hz&Hd).
  { unfold m', AllowPattern. cbn zeta. rewrite bool_decide_false by done.
    unfold setSessionDecision. cbn zeta.
    assert (set_SessionID (TrimSpace (SessionID req)) req = req) as -> by (rewrite Htrim; by destruct req).
    rewrite bool_decide_false by done. unfold setSessionDecisionLocked. rewrite bool_decide_false by done.
    cbn zeta. assert (parsePermissionGrantScope PermissionGrantPattern = Some (mkGrant GrantPattern 0 0)) as Hg
      by (vm_compute; reflexivity).
    assert (permissionOverrideKey req PermissionGrantPattern = permissionPatternKey req) as ->.
    { unfold permissionOverrideKey. cbn zeta. rewrite Hg. cbn. by rewrite bool_decide_false. }
    rewrite Hg. change (default (mkGrant GrantSession 0 0) (Some (mkGrant GrantPattern 0 0)))
      with (mkGrant GrantPattern 0 0).
    match goal with |- context [run (?a ≫= ?k) m] => change (run (a ≫= k) m) with (run (k 0%Z) m) end.
    cbn beta. rewrite run_update. unfold drop_pending_of. rewrite run_gets. eexists.
    split; [case_match; apply lookup_insert_eq|done]. }
  exists (override_result o). split; [|done]. rewrite out_Evaluate.
  rewrite (consume_first_only _ (permissionPatternKey req) o); [done| | |done|].
  - unfold permissionDecisionKeys. cbn zeta. rewrite Hsame.
    destruct (decide (permissionPatternKey req = permissionDecisionKey req')) as [->|Hx]; [by left|right].
    apply list_elem_of_filter. split; [done|]. right. right. by left.
  - apply pruned_decision. by rewrite Hz.
  - intros k Hk Hkp. apply eq_None_not_Some. intros [o' Ho']. apply pruned_decision in Ho' as [Ho' _].
    revert Hk. unfold permissionDecisionKeys. cbn zeta.
    rewrite elem_of_cons, list_elem_of_filter, !elem_of_cons, elem_of_nil, Htool', Hsame.
    intros [->|[[Hk0 _] [->|[->|[->|[]]]]]]; try done; rewrite Hother in Ho'; set_solver.
Qed.

End Grants.
