(* ===== verification/PermissionSessions.v ===== *)
(** * Saving and restoring the permissions of a session

    [ExportSession] and [RestoreSession] carry the grants and the waiting
    requests of one session from one manager to another, for instance over a
    restart. *)
From S2P Require Import Prelude GoStrings GoRunes GoPath ShellLexer ShellPolicy Permissions PermissionKeys PermissionManager PermissionInv PermissionGate PermissionGrants.
From Stdlib Require Import Ascii ZArith Lia.

(** ** Copies *)

Lemma clone_clone_value : ∀ v, cloneJSONValue (cloneJSONValue v) = cloneJSONValue v.
Proof.
  fix IH 1. intros v. destruct v as [s|l|l|m|m|l|b|n]; cbn [cloneJSONValue]; f_equal.
  all: try reflexivity; rewrite <- list_fmap_compose.
  all: first [induction l as [|x l IHl]|induction m as [|[k x] m IHm]]; [reflexivity|].
  all: rewrite !fmap_cons; f_equal; try assumption; cbn; rewrite ?IH; reflexivity.
Qed.

Lemma clone_clone_request r :
  clonePermissionRequest (clonePermissionRequest r) = clonePermissionRequest r.
Proof.
  unfold clonePermissionRequest, cloneStringAnyMap. cbn. f_equal. rewrite <- map_fmap_compose.
  apply map_fmap_ext. intros k v _. apply clone_clone_value.
Qed.

(** ** Inserting a list of entries *)

Section InsertAll.
Context {A B : Type} (key : A → string) (val : A → B).

Definition insert_all (d : gmap string B) (l : list A) : gmap string B :=
  foldl (λ d x, <[key x := val x]> d) d l.

Lemma insert_all_ne d l k : k ∉ key <$> l → insert_all d l !! k = d !! k.
Proof.
  revert d. induction l as [|x l IH]; intros d; [done|]. rewrite fmap_cons, not_elem_of_cons.
  intros [Hx Hl]. cbn. rewrite <- (lookup_insert_ne d (key x) k (val x)) by done. by apply IH.
Qed.

Lemma insert_all_eq d l x :
  (∀ y, y ∈ l → key y = key x → val y = val x) → x ∈ l → insert_all d l !! key x = Some (val x).
Proof.
  intros Hsame. induction l as [|y l IH] using rev_ind; [set_solver|]. intros Hx.
  unfold insert_all. rewrite foldl_app. cbn. destruct (decide (key y = key x)) as [He|Hne].
  - rewrite He, lookup_insert_eq. f_equal. apply Hsame; set_solver.
  - rewrite lookup_insert_ne by done. apply IH; set_solver.
Qed.

(** What holds of the entries of a map that carries some of its own values. *)
Lemma insert_all_entries (src d : gmap string B) (keep : B → Prop) `{!∀ b, base.Decision (keep b)} f l k :
  (∀ x, x ∈ l ↔ ∃ i b, src !! i = Some b ∧ keep b ∧ x = f b) →
  (∀ i b, src !! i = Some b → keep b → key (f b) = i) →
  insert_all d l !! k =
    match src !! k with
    | Some b => if decide (keep b) then Some (val (f b)) else d !! k
    | None => d !! k
    end.
Proof.
  intros Hl Hkey. destruct (decide (k ∈ key <$> l)) as [Hin|Hout].
  - apply list_elem_of_fmap in Hin as (x&->&Hx). rewrite insert_all_eq; [|
      |done].
    + apply Hl in Hx as (i&b&Hi&Hb&->). rewrite (Hkey i b), Hi by done. by rewrite decide_True.
    + intros y Hy Heq. apply Hl in Hx as (i&b&Hi&Hb&->), Hy as (j&c&Hj&Hc&->).
      rewrite (Hkey i b), (Hkey j c) in Heq by done. congruence.
  - rewrite insert_all_ne by done. destruct (src !! k) as [b|] eqn:Hk; [|done].
    rewrite decide_False; [done|]. intros Hb. apply Hout, list_elem_of_fmap. exists (f b).
    split; [by rewrite (Hkey k b)|]. apply Hl. eauto.
Qed.

End InsertAll.

Section Sessions.
Context {U : Unicode} {L : PermissionLib} {O : MapOrder} (clock : nat → Z).
Context (id_inj : ∀ k k', pendingPermissionID k = pendingPermissionID k' → k = k').

Definition of_session (sessionID : string) (req : PermissionRequest) : Prop :=
  TrimSpace (SessionID req) = TrimSpace sessionID.

#[export] Instance of_session_dec sessionID req : base.Decision (of_session sessionID req).
Proof. unfold of_session. apply _. Defined.

(** The grants of a session lie where their stored scope puts them. Scopes with
    blanks around them are the exception: see [ApprovePending] and
    [storedPermissionGrantScope]. *)
Definition well_placed (sessionID : string) (m : manager) : Prop :=
  ∀ k o, decisions m !! k = Some o → of_session sessionID (request o) →
    permissionOverrideKey (request o) (storedPermissionGrantScope (export_override o)) = k.

(** The waiting requests of a session have all their fields. *)
Definition complete (sessionID : string) (m : manager) : Prop :=
  ∀ i p, pending m !! i = Some p → of_session sessionID (Request p) →
    Pending_ID p ≠ "" ∧ Pending_Status p ≠ StatusUnset ∧ CreatedAt p ≠ 0%Z ∧ ExpiresAt p ≠ 0%Z.

Definition clone_override (o : permissionOverride) : permissionOverride :=
  mkOverride (clonePermissionRequest (request o)) (override_result o) (remaining o) (expiresAt o).

(** The entries of a session in [src] over those in [dst]. *)
Definition moved {B} (req : B → PermissionRequest) (copy : B → B) (sessionID : string)
    (src dst : gmap string B) (k : string) : option B :=
  match src !! k with
  | Some b => if decide (of_session sessionID (req b)) then Some (copy b) else dst !! k
  | None => dst !! k
  end.

(** ** Export *)

(** What is exported. *)
Definition exported (sessionID : string) (m : manager) : PermissionSessionState :=
  let m := pruned clock m in
  mkSessionState
    (stable_sort override_before (export_override <$>
      filter (λ o, TrimSpace (SessionID (request o)) = TrimSpace sessionID) (visit (decisions m)).*2))
    (stable_sort pending_before (clonePendingPermission <$>
      filter (λ p, TrimSpace (SessionID (Request p)) = TrimSpace sessionID) (visit (pending m)).*2)).

Lemma out_ExportSession sessionID m :
  TrimSpace sessionID ≠ "" → out (ExportSession clock sessionID) m = Ok (exported sessionID m).
Proof. intros Hne. unfold ExportSession. cbn zeta. by rewrite bool_decide_false. Qed.

Lemma exported_override sessionID m x :
  x ∈ Overrides (exported sessionID m) ↔
  ∃ k o, decisions (pruned clock m) !! k = Some o ∧ of_session sessionID (request o) ∧ x = export_override o.
Proof.
  unfold exported. cbn [Overrides]. rewrite elem_of_stable_sort, list_elem_of_fmap.
  setoid_rewrite list_elem_of_filter. setoid_rewrite elem_of_visit. unfold of_session. naive_solver.
Qed.

Lemma exported_pending sessionID m x :
  x ∈ Pending (exported sessionID m) ↔
  ∃ i p, pending (pruned clock m) !! i = Some p ∧ of_session sessionID (Request p) ∧
    x = clonePendingPermission p.
Proof.
  unfold exported. cbn [Pending]. rewrite elem_of_stable_sort, list_elem_of_fmap.
  setoid_rewrite list_elem_of_filter. setoid_rewrite elem_of_visit. unfold of_session. naive_solver.
Qed.

(** ** Restore *)

Lemma run_each {A} (f : A → P unit) l m :
  (∀ x m, x ∈ l → out (f x) m = Ok tt) → run (each f l) m = foldl (λ m x, run (f x) m) m l.
Proof.
  revert m. induction l as [|x l IH]; intros m Hf; [done|]. cbn [each foldl].
  rewrite run_bind, Hf by set_solver. apply IH. set_solver.
Qed.

Lemma out_each {A} (f : A → P unit) l m :
  (∀ x m, x ∈ l → out (f x) m = Ok tt) → out (each f l) m = Ok tt.
Proof.
  revert m. induction l as [|x l IH]; intros m Hf; [done|]. cbn [each].
  rewrite out_bind, Hf by set_solver. apply IH. set_solver.
Qed.

Lemma in_session_clone sessionID req :
  TrimSpace sessionID ≠ "" → of_session sessionID req →
  in_session (TrimSpace sessionID) req = Some (clonePermissionRequest req).
Proof.
  intros Hne Hs. assert (TrimSpace (SessionID (clonePermissionRequest req)) = TrimSpace sessionID) as Hc
    by exact Hs.
  unfold in_session. cbn zeta. 
  rewrite (bool_decide_false (TrimSpace (SessionID (clonePermissionRequest req)) = "")) by (by rewrite Hc).
  by rewrite bool_decide_true.
Qed.

Lemma out_restore_override s x m : out (restore_override s x) m = Ok tt.
Proof. unfold restore_override. by destruct (in_session _ _). Qed.

Lemma out_restore_pending s x m : out (restore_pending clock s x) m = Ok tt.
Proof. unfold restore_pending. destruct (in_session _ _); [|done]. cbn zeta. by destruct (CreatedAt x =? 0)%Z. Qed.

Definition override_of (x : PermissionOverrideState) : permissionOverride :=
  mkOverride (clonePermissionRequest (State_Request x)) (State_Result x) (Remaining x) (State_ExpiresAt x).

Lemma override_of_export o : override_of (export_override o) = clone_override o.
Proof. unfold override_of, clone_override. cbn. by rewrite clone_clone_request. Qed.

Lemma clone_clone_pending p : clonePendingPermission (clonePendingPermission p) = clonePendingPermission p.
Proof. unfold clonePendingPermission. cbn. by rewrite clone_clone_request. Qed.

Lemma restore_overrides s l m :
  TrimSpace s ≠ "" → (∀ x, x ∈ l → of_session s (State_Request x)) →
  let m' := run (each (restore_override (TrimSpace s)) l) m in
  pending m' = pending m ∧ pendingKey m' = pendingKey m ∧
  decisions m' = insert_all
    (λ x, permissionOverrideKey (State_Request x) (storedPermissionGrantScope x)) override_of (decisions m) l.
Proof.
  intros Hne Hl m'. subst m'. rewrite run_each by (intros; apply out_restore_override).
  unfold insert_all. revert m. induction l as [|x l IH]; intros m; [done|]. cbn [foldl].
  assert (run (restore_override (TrimSpace s) x) m =
    set_decisions (<[permissionOverrideKey (State_Request x) (storedPermissionGrantScope x) := override_of x]>
      (decisions m)) m) as ->.
  { unfold restore_override. rewrite in_session_clone; [done|done|]. apply Hl. by left. }
  match goal with |- context [foldl _ ?m1 l] => destruct (IH (λ y Hy, Hl y (list_elem_of_further _ _ _ Hy)) m1) as (->&->&->) end.
  done.
Qed.

Lemma restore_pendings s l m :
  TrimSpace s ≠ "" →
  (∀ x, x ∈ l → of_session s (Request x) ∧ Pending_ID x ≠ "" ∧ Pending_Status x ≠ StatusUnset ∧
     CreatedAt x ≠ 0%Z ∧ ExpiresAt x ≠ 0%Z) →
  let m' := run (each (restore_pending clock (TrimSpace s)) l) m in
  decisions m' = decisions m ∧
  pending m' = insert_all Pending_ID clonePendingPermission (pending m) l.
Proof.
  intros Hne Hl m'. subst m'. rewrite run_each by (intros; apply out_restore_pending).
  unfold insert_all. revert m. induction l as [|x l IH]; intros m; [done|]. cbn [foldl].
  destruct (Hl x) as (Hs&Hid&Hst&Hc&He); [by left|].
  assert (∃ ix, run (restore_pending clock (TrimSpace s) x) m =
    set_pendingKey ix (set_pending (<[Pending_ID x := clonePendingPermission x]> (pending m)) m)) as [ix ->].
  { unfold restore_pending. rewrite in_session_clone by done. cbn zeta.
    rewrite bool_decide_false by done. rewrite (proj2 (Z.eqb_neq _ _) Hc).
    rewrite (proj2 (Z.eqb_neq _ _) He), (bool_decide_false (Pending_Status x = StatusUnset)) by done.
    by eexists. }
  match goal with |- context [foldl _ ?m1 l] => destruct (IH (λ y Hy, Hl y (list_elem_of_further _ _ _ Hy)) m1) as (->&->) end.
  done.
Qed.

Lemma pruned_sub m i p : pending (pruned clock m) !! i = Some p → pending m !! i = Some p.
Proof.
  change (pending (pruned clock m)) with (foldr (λ kv, delete kv.1) (pending m)
    (filter (λ kv, expired (clock (ticks m)) (ExpiresAt kv.2) = true) (map_to_list (pending m)))).
  rewrite lookup_foldr_delete. by case_decide.
Qed.

Lemma exported_wf sessionID m :
  TrimSpace sessionID ≠ "" → wf_manager m → wf_session sessionID (exported sessionID m).
Proof.
  intros Hne Hm. split; apply Forall_forall; intros x.
  - intros (k&o&Ho&_&->)%exported_override. apply pruned_decision in Ho as [Ho _].
    by apply (wf_grant m Hm) in Ho as [_ Ho].
  - intros (i&p&Hp&Hs&->)%exported_pending req.
    rewrite in_session_clone by done. intros [= <-]. right.
    apply pruned_sub in Hp. destruct (wf_id m Hm i p Hp) as [-> Hid]. exact Hid.
Qed.

Lemma pruned_wf m : wf_manager m → wf_manager (pruned clock m).
Proof. intros Hm. unfold pruned. by apply keeps_pruneExpiredLocked. Qed.


End Sessions.

(** * The permission theorems at work

    A concrete library and a few concrete managers, on which the theorems of the
    permission files apply. *)

#[local] Existing Instance ascii_tables.
#[local] Existing Instance small_lib.

(** Durations in whole seconds; the id of a request is its key behind a mark. *)
Definition seconds_lib : PermissionLib := {|
  ParseDuration s := (λ n, n * second)%Z <$> (if HasSuffix s "s" then digits (TrimRightSet (is_byte "s") s) else None);
  pendingPermissionID k := "perm_" +:+ k;
|}.
#[local] Existing Instance seconds_lib.

#[local] Instance plain_order : MapOrder := {|
  visit A m := map_to_list m; visit_perm A m := Permutation_refl _;
|}.

(** One tick of the clock is one second. *)
Definition ticking (n : nat) : Z := (1000000000000 + Z.of_nat n * second)%Z.

Lemma seconds_id_inj k k' : pendingPermissionID k = pendingPermissionID k' → k = k'.
Proof. cbn. intros [= H]. exact H. Qed.

(** A removal asked for from the web console, and the manager on which it waits. *)
Definition removal : ToolCall := web_bash "rm -r build".
Definition removal_request : PermissionRequest := PermissionRequestFromCall removal.
Definition removal_id : string := pendingPermissionID (permissionDecisionKey removal_request).

Definition asked : manager := run (intercept ticking None removal) NewDefaultPermissionManager.
Definition approved (scope : string) : manager := run (ApprovePending ticking "s1" removal_id scope) asked.

Example removal_waits :
  out (intercept ticking None removal) NewDefaultPermissionManager =
  Ok (Waiting "bash" "exec" "perm_s1|bash|exec|rm -r build"
        "shell execution requires approval in remote sessions").
Proof. vm_compute. reflexivity. Qed.

(** The same manager, as the calls that lead to it. *)
Definition approval_calls : list op :=
  [OApplyPolicy DefaultPermissionPolicy; OIntercept None removal; OApprovePending "s1" removal_id "count:3"].

Definition after_calls (os : list op) : manager :=
  foldl (λ m o, run (exec ticking o) m) (NewPermissionManager []) os.

Lemma after_approval_calls : reachable ticking (after_calls approval_calls).
Proof. repeat (apply reach_step; [|done]). constructor. Qed.


Lemma no_call_without_consent_witness :
  out (intercept ticking None removal) (approved "once") =
    Ok (Proceed (markApprovedShellCommand removal removal_request)) ∧
  consent ticking None (approved "once") removal_request.
Proof.
  assert (out (intercept ticking None removal) (approved "once") =
    Ok (Proceed (markApprovedShellCommand removal removal_request))) as H by (vm_compute; reflexivity).
  split; [exact H|]. exact (no_call_without_consent ticking None removal _ _ H).
Defined.

Definition strict_policy : PermissionPolicy := PermissionPolicyForSecurityProfile "strict" "manual".
Definition strict_manager : manager :=
  mkManager (permissionRulesForPolicy strict_policy) ∅ ∅ ∅ five_minutes 0.

Lemma strict_profile_blocks_witness :
  out (intercept ticking None removal) strict_manager ≠ Ok (Proceed removal).
Proof.
  apply (strict_profile_blocks ticking strict_policy None removal strict_manager removal).
  - vm_compute. reflexivity.
  - reflexivity.
  - intros k o _ Ho. unfold strict_manager in Ho. cbn in Ho. rewrite lookup_empty in Ho. discriminate.
  - apply (bool_decide_unpack _). vm_compute. exact I.
  - apply (bool_decide_unpack _). vm_compute. exact I.
Defined.

Definition waiting_removal : PendingPermission :=
  mkPending removal_id PermissionStatusPending removal_request
    "shell execution requires approval in remote sessions" (ticking 1) (ticking 301).

Lemma asked_waiting : pending asked !! removal_id = Some waiting_removal.
Proof. vm_compute. reflexivity. Qed.

Lemma approval_counts_witness :
  out (evaluate_times ticking 3 removal_request) (approved "count:3") =
    Ok [PermissionAllow; PermissionAllow; PermissionAllow] ∧
  decisions (run (evaluate_times ticking 3 removal_request) (approved "count:3"))
    !! permissionDecisionKey removal_request = None.
Proof.
  apply (approval_counts ticking "s1" removal_id "count:3" (mkGrant GrantCount 3 0) 3 waiting_removal asked);
    try (vm_compute; reflexivity); vm_compute; discriminate.
Defined.

Definition late : manager := set_ticks 5000 (approved "timebox:60s").
Definition late_asked : manager := set_ticks 5000 asked.

Lemma expiry_is_final_witness :
  out (Evaluate ticking removal_request) late = out (Evaluate ticking removal_request) (set_decisions ∅ late) ∧
  is_ok (out (ApprovePending ticking "s1" removal_id "once") late_asked) = false ∧
  is_Some (decisions late !! permissionDecisionKey removal_request).
Proof.
  destruct (expiry_is_final ticking removal_request removal_id waiting_removal late) as [He _].
  destruct (expiry_is_final ticking removal_request removal_id waiting_removal late_asked) as [_ Ha].
  split; [|split; [|vm_compute; by eexists]].
  - apply He. intros k o _ Ho.
    assert (map_Forall (λ _ o, expired (ticking (ticks late)) (expiresAt o) = true) (decisions late)) as H
      by (apply (bool_decide_unpack _); vm_compute; exact I).
    exact (H k o Ho).
  - apply Ha; vm_compute; reflexivity.
Defined.

Definition given : permissionOverride :=
  mkOverride (clonePermissionRequest removal_request) (mkResult PermissionAllow "" "count:3" "") 3 0.

Lemma approval_given :
  decisions (after_calls approval_calls) !! permissionDecisionKey removal_request = Some given.
Proof. vm_compute. reflexivity. Qed.

Lemma reset_is_local_witness :
  decisions (run (ResetSession "s1") (after_calls approval_calls)) !! permissionDecisionKey removal_request
    = None ∧
  is_Some (decisions (run (ResetSession "s2") (after_calls approval_calls))
    !! permissionDecisionKey removal_request).
Proof.
  pose proof (reachable_wf ticking seconds_id_inj _ after_approval_calls) as Hwf.
  pose proof approval_given as Ho. pose proof (eq_refl : SessionID (request given) = "s1") as Hs.
  revert Hwf Ho Hs. generalize (after_calls approval_calls) as m. generalize given as o.
  intros o m Hwf Ho Hs.
  destruct (reset_is_local "s1" m Hwf) as [H1 _]; [vm_compute; discriminate|].
  destruct (reset_is_local "s2" m Hwf) as [H2 _]; [vm_compute; discriminate|].
  assert (part bar (TrimSpace (SessionID (request o)))) as Hp by (rewrite Hs; vm_compute; reflexivity).
  assert (part bar (TrimSpace "s1")) as Hp1 by (vm_compute; reflexivity).
  assert (part bar (TrimSpace "s2")) as Hp2 by (vm_compute; reflexivity).
  pose proof (H1 _ o Ho Hp1 Hp) as E1. pose proof (H2 _ o Ho Hp2 Hp) as E2.
  rewrite decide_True in E1 by (rewrite Hs; reflexivity).
  rewrite decide_False in E2 by (rewrite Hs; vm_compute; discriminate).
  split; [exact E1|]. exists o. exact E2.
Defined.

(** A pipe into [sh], and a call with the first command as its path. *)
Definition piped : PermissionRequest :=
  mkRequest "s1" "t1" "web" "user" "bash" "exec" [] "cat list|sh" true ∅.
Definition unpiped : PermissionRequest :=
  mkRequest "s1" "t1" "web" "user" "bash" "exec" ["cat list"] "sh" true ∅.

Lemma decision_key_exact_witness :
  permissionDecisionKey piped = permissionDecisionKey unpiped ∧
  (permissionDecisionKey removal_request = permissionDecisionKey unpiped ↔
   TrimSpace (SessionID removal_request) = TrimSpace (SessionID unpiped) ∧
   TrimSpace (ToolName removal_request) = TrimSpace (ToolName unpiped) ∧
   TrimSpace (Action removal_request) = TrimSpace (Action unpiped) ∧
   TrimSpace <$> Paths removal_request = TrimSpace <$> Paths unpiped ∧
   TrimSpace (Command removal_request) = TrimSpace (Command unpiped)).
Proof.
  split.
  - apply (decision_key_exact ticking piped unpiped) with (first := "cat list") (second := "sh");
      try (vm_compute; reflexivity). vm_compute; discriminate.
  - apply (decision_key_exact ticking removal_request unpiped);
      repeat constructor; vm_compute; reflexivity.
Defined.


Definition status_request : PermissionRequest := PermissionRequestFromCall (web_bash "git status").
Definition chained_request : PermissionRequest :=
  PermissionRequestFromCall (web_bash "git status && rm -rf src").

Lemma pattern_grant_reach_witness :
  ∃ r, out (Evaluate ticking chained_request)
         (run (AllowPattern ticking status_request "looks harmless") NewDefaultPermissionManager) = Ok r ∧
       Decision r = PermissionAllow.
Proof.
  apply (pattern_grant_reach ticking status_request chained_request "looks harmless"
    NewDefaultPermissionManager); try (vm_compute; reflexivity); try (vm_compute; discriminate).
  - apply (bool_decide_unpack _). vm_compute. exact I.
  - intros k Hk _.
    assert (Forall (λ k, decisions (run (AllowPattern ticking status_request "looks harmless")
      NewDefaultPermissionManager) !! k = None)
      [permissionDecisionKey chained_request; permissionTaskKey chained_request]) as H
      by (repeat constructor; vm_compute; reflexivity).
    exact (proj1 (Forall_forall _ _) H k Hk).
Defined.
