(* ===== verification/JSON.v ===== *)
(** * JSON values as Go holds them

    What [encoding/json] decodes into an [any], and the values of other Go types
    that the program puts next to them. Numbers are [float64]; the fields of an
    object are listed in the order in which the run visits the map. The decoder
    and the encoder are parameters. *)
From S2P Require Import Prelude GoStrings.
From Stdlib Require Import Ascii ZArith Lia SpecFloat.

(** ** Floats *)

Definition float64 := spec_float.

#[export] Instance float64_eq : EqDecision float64.
Proof. unfold float64. solve_decision. Defined.

Definition fzero : float64 := S754_zero false.
(** The double 1. *)
Definition fone : float64 := S754_finite false 4503599627370496 (-52).

Definition is_nan (f : float64) : bool := match f with S754_nan => true | _ => false end.

(** [math.Trunc(f) == f] *)
Definition integral (f : float64) : bool :=
  match f with
  | S754_nan => false
  | S754_finite _ m e => if (0 <=? e)%Z then true else (Z.pos m mod 2 ^ (- e) =? 0)%Z
  | _ => true
  end.

(** ** Values *)

Inductive json :=
| JNull
| JBool (b : bool)
| JNum (f : float64)
| JString (s : string)
| JArray (l : list json)
| JObject (fields : list (string * json))
(** A value of another Go type, which is encoded as [v]: an [int], a
    [json.Number], a [[]map[string]any]. *)
| JGo (type : string) (v : json).

(** What is read back of an encoded value. *)
Fixpoint encoded (v : json) : json :=
  match v with
  | JArray l => JArray (encoded <$> l)
  | JObject m => JObject ((λ '(k, v), (k, encoded v)) <$> m)
  | JGo _ v => encoded v
  | _ => v
  end.

Definition number_types : list string :=
  ["float32"; "int"; "int8"; "int16"; "int32"; "int64"; "uint"; "uint8"; "uint16"; "uint32"; "uint64"; "json.Number"].

Definition numericValue (v : json) : option float64 :=
  match v with
  | JNum f => Some f
  | JGo t (JNum f) => if bool_decide (t ∈ number_types) then Some f else None
  | _ => None
  end.

(** [m[k]] *)
Definition field {A} (k : string) (m : list (string * A)) : option A :=
  snd <$> find_first (λ kv, bool_decide (kv.1 = k)) m.

Class JSONLib : Type := {
  (** [json.Unmarshal] into a [map[string]any]: [None] is the nil map. *)
  Unmarshal_object : string → result string (option (list (string * json)));
  (** [json.Unmarshal] into an [any]. *)
  Unmarshal_any : string → result string json;
  Valid : string → bool;
  (** [json.Marshal]; [None] is an error. *)
  Marshal : json → option string;
}.

(** [reflect.DeepEqual] *)
Fixpoint DeepEqual (a b : json) : bool :=
  match a, b with
  | JNull, JNull => true
  | JBool x, JBool y => Bool.eqb x y
  | JNum x, JNum y => SFeqb x y
  | JString x, JString y => bool_decide (x = y)
  | JArray l, JArray k =>
      (fix all l k :=
         match l, k with
         | [], [] => true
         | x :: l, y :: k => DeepEqual x y && all l k
         | _, _ => false
         end) l k
  | JObject l, JObject k =>
      bool_decide (length l = length k) &&
      forallb (λ '(name, x), match field name k with Some y => DeepEqual x y | None => false end) l
  | JGo t x, JGo u y => bool_decide (t = u) && DeepEqual x y
  | _, _ => false
  end.

Definition jsonValuesEqual `{JSONLib} (a b : json) : bool :=
  match numericValue a, numericValue b with
  | Some x, Some y => SFeqb x y
  | _, _ =>
      DeepEqual a b ||
      match Marshal a, Marshal b with Some s, Some t => bool_decide (s = t) | _, _ => false end
  end.

Lemma field_Some {A} k (m : list (string * A)) x : field k m = Some x → (k, x) ∈ m.
Proof.
  unfold field. destruct (find_first _ m) as [[k' y]|] eqn:H; [|done]. intros [= <-].
  apply find_first_Some in H as [Hin Hk]. cbn in Hk. apply bool_decide_eq_true in Hk. by subst.
Qed.

Lemma encoded_idemp v : encoded (encoded v) = encoded v.
Proof.
  revert v. fix IH 1. intros [|b|f|s|l|m|t v]; [reflexivity..| | |]; cbn [encoded]; [f_equal|f_equal|].
  - induction l as [|x l IHl]; [done|]. cbn. by rewrite IH, IHl.
  - induction m as [|[k x] m IHm]; [done|]. cbn. by rewrite IH, IHm.
  - apply IH.
Qed.
