(* ===== verification/Cycles.v ===== *)
(** * Cycle search

    The depth-first search shared, statement by statement, by
    [findDependencyCycles] ([internal/core/packages/deps.go]) and [findCycles]
    ([internal/pluginrt/graph.go]), on the adjacency map each of them builds:
    it terminates, reports only real cycles, and reports one whenever there
    is one. *)
From S2P Require Import Prelude GoStrings.
From Stdlib Require Import Ascii ZArith Lia.

Inductive color : Type := gray | black.
#[export] Instance color_eq_dec : EqDecision color.
Proof. solve_decision. Defined.

(** The variables captured by [visit]; a node missing from [state] is white. *)
Record dfs : Type := mkDfs {
  state : gmap string color;
  path : list string;
  cycles : list (list string);
  seenCycles : list string;
}.

Definition set_state (n : string) (c : color) (s : dfs) : dfs :=
  mkDfs (<[n := c]> (state s)) (path s) (cycles s) (seenCycles s).
Definition set_path (p : list string) (s : dfs) : dfs :=
  mkDfs (state s) p (cycles s) (seenCycles s).

Definition nul : string := String "000"%char "".

(** The [case gray] branch: the path from [next] back to [next], once per key. *)
Definition emit (next : string) (s : dfs) : dfs :=
  let start := default 0 (find_index (λ p, bool_decide (p = next)) (path s)) in
  let cycle := drop start (path s) ++ [next] in
  let key := Join cycle nul in
  if bool_decide (key ∈ seenCycles s) then s
  else mkDfs (state s) (path s) (cycles s ++ [cycle]) (key :: seenCycles s).

Section Search.
Context (graph : string → list string).

(** The loop over the successors, given the recursive call. *)
Fixpoint visit_all (visit : string → dfs → option dfs) (l : list string) (s : dfs) : option dfs :=
  match l with
  | [] => Some s
  | next :: l =>
      s' ← match state s !! next with
           | Some gray => Some (emit next s)
           | Some black => Some s
           | None => visit next s
           end;
      visit_all visit l s'
  end.

(** [visit], with fuel for the depth of the recursion. *)
Fixpoint visit (fuel : nat) (node : string) (s : dfs) : option dfs :=
  match fuel with
  | 0 => None
  | S fuel =>
      s' ← visit_all (visit fuel) (graph node)
             (set_path (path s ++ [node]) (set_state node gray s));
      Some (set_state node black (set_path (removelast (path s')) s'))
  end.

(** The outer loop over the sorted names. *)
Fixpoint visit_roots (fuel : nat) (names : list string) (s : dfs) : option dfs :=
  match names with
  | [] => Some s
  | name :: names =>
      s' ← match state s !! name with None => visit fuel name s | Some _ => Some s end;
      visit_roots fuel names s'
  end.

Definition search (fuel : nat) (names : list string) : option (list (list string)) :=
  cycles <$> visit_roots fuel (SortStrings names) (mkDfs ∅ [] [] []).

(** * Lemmas *)

Definition edge (a b : string) : Prop := b ∈ graph a.

(** Consecutive elements are joined by edges. *)
Fixpoint chain (l : list string) : Prop :=
  match l with
  | a :: (b :: _) as l' => edge a b ∧ chain l'
  | _ => True
  end.

Lemma chain_app l k : chain (l ++ k) → chain l ∧ chain k.
Proof.
  induction l as [|a l IH]; [done|]. destruct l as [|b l].
  - destruct k; simpl; [done|]. by intros [_ ?].
  - intros [He Hc]. destruct (IH Hc). by split.
Qed.

Lemma chain_snoc l a b : chain (l ++ [a]) → edge a b → chain (l ++ [a] ++ [b]).
Proof.
  induction l as [|c l IH]; [by simpl|]. destruct l as [|d l]; simpl in *.
  - intros [? _] ?. done.
  - intros [? Hc] ?. split; [done|]. by apply IH.
Qed.

Lemma chain_tc a l b : l ≠ [] → chain (a :: l) → last l = Some b → tc edge a b.
Proof.
  revert a. induction l as [|c l IH]; intros a Hne Hc Hb; [done|]. destruct Hc as [He Hc].
  destruct l as [|d l]; [injection Hb as <-; by apply tc_once|].
  eapply tc_l; [exact He|]. by apply IH.
Qed.

(** A reported path: it starts and ends at the same node. *)
Definition real_cycle (c : list string) : Prop :=
  ∃ a l, c = a :: l ++ [a] ∧ chain c.

(** What the search maintains between steps. *)
Record inv (s : dfs) : Prop := {
  inv_gray : ∀ n, state s !! n = Some gray ↔ n ∈ path s;
  inv_nodup : NoDup (path s);
  inv_chain : chain (path s);
  inv_real : Forall real_cycle (cycles s);
  inv_seen : cycles s = [] → seenCycles s = [];
  inv_rank : cycles s = [] → ∃ rank : string → nat, ∀ a b,
    state s !! a = Some black → edge a b → state s !! b = Some black ∧ rank b < rank a;
}.

(** How a completed step extends a state. *)
Record extends (s s' : dfs) : Prop := {
  ext_path : path s' = path s;
  ext_gray : ∀ n, state s' !! n = Some gray ↔ state s !! n = Some gray;
  ext_black : ∀ n, state s !! n = Some black → state s' !! n = Some black;
  ext_cycles : cycles s' = [] → cycles s = [];
  ext_dom : dom (state s) ⊆ dom (state s');
}.

Lemma extends_refl s : extends s s.
Proof. by split. Qed.

Lemma extends_trans s1 s2 s3 : extends s1 s2 → extends s2 s3 → extends s1 s3.
Proof.
  intros [P1 G1 B1 C1 D1] [P2 G2 B2 C2 D2]. split.
  - congruence.
  - intros n. by rewrite G2, G1.
  - auto.
  - auto.
  - by etrans.
Qed.

Lemma drop_find_index (next : string) l :
  next ∈ l → ∃ p k, l = p ++ next :: k ∧
    drop (default 0 (find_index (λ x, bool_decide (x = next)) l)) l = next :: k.
Proof.
  induction l as [|x l IH]; [by intros ?%elem_of_nil|]. intros Hin. simpl.
  case_bool_decide as Hx; [subst; by exists [], l|].
  apply elem_of_cons in Hin as [->|Hin]; [done|].
  destruct (IH Hin) as (p&k&->&Hd). exists (x :: p), k. split; [done|].
  destruct (find_index _ (p ++ next :: k)) as [i|] eqn:Hi; simpl in *; [done|].
  apply find_index_None in Hi. apply Forall_app in Hi as [_ Hi]. apply Forall_cons in Hi as [Hi _].
  by rewrite bool_decide_true in Hi.
Qed.

(** Emitting keeps the invariant, and afterwards there is a cycle. *)
Lemma emit_spec next s p node :
  inv s → path s = p ++ [node] → edge node next → state s !! next = Some gray →
  inv (emit next s) ∧ extends s (emit next s) ∧ cycles (emit next s) ≠ [].
Proof.
  intros [Ig In Ic Ir Is Ik] Hp He Hg. unfold emit.
  case_bool_decide as Hseen.
  { split_and!; [by split|apply extends_refl|]. intros Hc. rewrite (Is Hc) in Hseen.
    by apply not_elem_of_nil in Hseen. }
  set (c := drop _ _ ++ [next]).
  assert (real_cycle c) as Hc.
  { apply Ig in Hg. destruct (drop_find_index next (path s) Hg) as (q&k&Hq&Hd).
    subst c. rewrite Hd. exists next, k. split; [done|].
    rewrite Hq in Ic. apply chain_app in Ic as [_ Ic].
    destruct (decide (k = [])) as [->|Hk].
    - simpl. split; [|done]. assert (next = node) as ->; [|done].
      rewrite Hp in Hq. apply app_inj_tail in Hq as [_ ->]. done.
    - destruct (exists_last Hk) as (k'&y&->).
      assert (y = node) as ->.
      { rewrite Hp, app_comm_cons, app_assoc in Hq. by apply app_inj_tail in Hq as [_ ->]. }
      rewrite app_comm_cons, <- app_assoc in *. by apply chain_snoc. }
  split_and!.
  - split; simpl; try done.
    + apply Forall_app_2; [done|by constructor].
    + intros Hn. by destruct (cycles s).
    + intros Hn. by destruct (cycles s).
  - split; simpl; try done. by destruct (cycles s).
  - simpl. by destruct (cycles s).
Qed.

(** Entering a white node from the end of the path. *)
Definition entry (node : string) (s : dfs) : Prop :=
  path s = [] ∨ ∃ p q, path s = p ++ [q] ∧ edge q node.

Definition enter (node : string) (s : dfs) : dfs :=
  set_path (path s ++ [node]) (set_state node gray s).
Definition leave (node : string) (s : dfs) : dfs :=
  set_state node black (set_path (removelast (path s)) s).

Lemma white_not_in_path node s : inv s → state s !! node = None → node ∉ path s.
Proof. intros Hi Hw Hin. apply (inv_gray s Hi) in Hin. congruence. Qed.

Lemma inv_enter node s : inv s → state s !! node = None → entry node s → inv (enter node s).
Proof.
  intros Hi Hw He. pose proof (white_not_in_path node s Hi Hw) as Hnin.
  destruct Hi as [Ig In Ic Ir Is Ik]. split; simpl; try done.
  - intros n. rewrite lookup_insert, elem_of_app, list_elem_of_singleton, <- Ig.
    case_decide; [subst; tauto|]. split; [by left|]. by intros [?| ->].
  - apply NoDup_app. split_and!; [done| |apply NoDup_singleton].
    by intros n Hn ->%list_elem_of_singleton.
  - destruct He as [->|(p&q&Hp&He)]; [done|]. rewrite Hp in Ic |- *. rewrite <- app_assoc.
    by apply chain_snoc.
  - intros Hc. destruct (Ik Hc) as [rank Hr]. exists rank. intros a b Ha Hab.
    rewrite lookup_insert in Ha. case_decide; [done|]. destruct (Hr a b Ha Hab) as [Hb ?].
    split; [|done]. rewrite lookup_insert_ne; [done|]. intros ->. congruence.
Qed.

(** Leaving it when all its successors are done. *)
Lemma leave_spec node s s' :
  inv s → state s !! node = None → inv s' → extends (enter node s) s' →
  (cycles s' = [] → ∀ n, edge node n → state s' !! n = Some black) →
  inv (leave node s') ∧ extends s (leave node s') ∧ state (leave node s') !! node = Some black.
Proof.
  intros Hi Hw Hi' [Ep Eg Eb Ec Ed] Hdone. pose proof (white_not_in_path node s Hi Hw) as Hnin.
  simpl in Ep. assert (removelast (path s') = path s) as Hrl by (rewrite Ep; apply removelast_last).
  assert (state s' !! node = Some gray) as Hgray.
  { apply (inv_gray s' Hi'). rewrite Ep, elem_of_app. right. by left. }
  destruct Hi' as [Ig In Ic Ir Is Ik]. split_and!; [split; simpl; rewrite ?Hrl; try done| |].
  - intros n. rewrite lookup_insert. case_decide; [subst; split; [done|]; tauto|].
    rewrite Ig, Ep, elem_of_app, list_elem_of_singleton. naive_solver.
  - apply (inv_nodup s Hi).
  - apply (inv_chain s Hi).
  - intros Hc. destruct (Ik Hc) as [rank Hr].
    exists (λ n, if decide (n = node) then S (max_list (rank <$> graph node)) else rank n).
    intros a b Ha Hab. rewrite lookup_insert in Ha. case_decide as Hna.
    + subst a. assert (b ≠ node) as Hb.
      { intros ->. specialize (Hdone Hc node Hab). congruence. }
      rewrite lookup_insert_ne by done. split; [by apply Hdone|].
      rewrite (decide_True (P := node = node)), decide_False by done. apply le_n_S, max_list_elem_of_le.
      by apply list_elem_of_fmap_2.
    + destruct (Hr a b Ha Hab) as [Hb Hlt]. assert (b ≠ node) by (intros ->; congruence).
      rewrite lookup_insert_ne by done. split; [done|]. by rewrite !decide_False by auto.
  - split; simpl; rewrite ?Hrl; try done.
    + intros n. rewrite lookup_insert. case_decide as Hn; [subst; split; congruence|].
      rewrite Eg. simpl. by rewrite lookup_insert_ne.
    + intros n Hn. rewrite lookup_insert. case_decide; [done|]. apply Eb. simpl.
      by rewrite lookup_insert_ne.
    + intros n Hn. apply elem_of_dom. rewrite lookup_insert. case_decide; [by eexists|].
      apply elem_of_dom, Ed. simpl. rewrite dom_insert_L. by apply elem_of_union_r.
  - simpl. apply lookup_insert_eq.
Qed.

Definition visit_ok (v : string → dfs → option dfs) : Prop := ∀ node s s',
  inv s → state s !! node = None → entry node s → v node s = Some s' →
  inv s' ∧ extends s s' ∧ state s' !! node = Some black.

Lemma visit_all_spec v node p l s s' :
  visit_ok v → inv s → path s = p ++ [node] → Forall (edge node) l →
  visit_all v l s = Some s' →
  inv s' ∧ extends s s' ∧ (cycles s' = [] → Forall (λ n, state s' !! n = Some black) l).
Proof.
  intros Hv Hi Hp Hl. revert s Hi Hp. induction Hl as [|next l He Hl IH]; intros s Hi Hp; simpl.
  { intros [= <-]. split_and!; [done|apply extends_refl|constructor]. }
  intros H. apply bind_Some in H as (s1&Hs1&Hs').
  assert (inv s1 ∧ extends s s1 ∧ (cycles s1 = [] → state s1 !! next = Some black)) as (Hi1&He1&Hb1).
  { destruct (state s !! next) as [[]|] eqn:Hst.
    - injection Hs1 as <-. destruct (emit_spec next s p node Hi Hp He Hst) as (?&?&?). by split_and!.
    - injection Hs1 as <-. split_and!; [done|apply extends_refl|done].
    - destruct (Hv next s s1 Hi Hst) as (?&?&?); [right; by exists p, node|done|by split_and!]. }
  destruct (IH s1 Hi1) as (Hi2&He2&Hb2); [by rewrite (ext_path _ _ He1)|done|].
  split_and!; [done|by eapply extends_trans|]. intros Hc. constructor; [|by apply Hb2].
  apply (ext_black _ _ He2), Hb1, (ext_cycles _ _ He2), Hc.
Qed.

Lemma visit_spec fuel : visit_ok (visit fuel).
Proof.
  induction fuel as [|fuel IH]; intros node s s' Hi Hw He Hv; [done|]. simpl in Hv.
  apply bind_Some in Hv as (s1&Hs1&[= <-]).
  destruct (visit_all_spec (visit fuel) node (path s) (graph node) (enter node s) s1 IH)
    as (Hi1&He1&Hb1); [by apply inv_enter|done|by apply Forall_forall|done|].
  apply leave_spec; try done. intros Hc n Hn. specialize (Hb1 Hc).
  rewrite Forall_forall in Hb1. by apply Hb1.
Qed.

Lemma visit_roots_spec fuel names s s' :
  inv s → path s = [] → visit_roots fuel names s = Some s' →
  inv s' ∧ extends s s' ∧ Forall (λ n, state s' !! n = Some black) names.
Proof.
  revert s. induction names as [|n names IH]; intros s Hi Hp; simpl.
  { intros [= <-]. split_and!; [done|apply extends_refl|constructor]. }
  intros H. apply bind_Some in H as (s1&Hs1&Hs').
  assert (inv s1 ∧ extends s s1 ∧ state s1 !! n = Some black) as (Hi1&He1&Hb1).
  { destruct (state s !! n) as [c|] eqn:Hst.
    - injection Hs1 as <-. split_and!; [done|apply extends_refl|]. destruct c; [|done].
      apply (inv_gray s Hi) in Hst. rewrite Hp in Hst. by apply not_elem_of_nil in Hst.
    - apply (visit_spec fuel n s s1); try done. by left. }
  destruct (IH s1 Hi1) as (Hi2&He2&Hb2); [by rewrite (ext_path _ _ He1)|done|].
  split_and!; [done|by eapply extends_trans|]. constructor; [|done]. by apply (ext_black _ _ He2).
Qed.

Lemma inv_start : inv (mkDfs ∅ [] [] []).
Proof.
  split; simpl; try done.
  - intros n. rewrite lookup_empty. split; [done|]. by intros ?%elem_of_nil.
  - constructor.
  - intros _. exists (λ _, 0). intros a b Ha. by rewrite lookup_empty in Ha.
Qed.

(** ** Enough fuel *)

Section Fuel.
Context (U : gset string) (closed : ∀ a b, a ∈ U → edge a b → b ∈ U).

Definition whites (s : dfs) : nat := size (U ∖ dom (state s)).

Lemma whites_mono s s' : dom (state s) ⊆ dom (state s') → whites s' ≤ whites s.
Proof. intros Hd. unfold whites. apply subseteq_size. set_solver. Qed.

Lemma whites_enter node s :
  node ∈ U → state s !! node = None → whites (enter node s) < whites s.
Proof.
  intros HU Hw. unfold whites. apply subset_size. simpl. rewrite dom_insert_L. split; [set_solver|].
  intros Hs. apply not_elem_of_dom in Hw. assert (node ∈ U ∖ dom (state s)) as Hin by set_solver.
  apply Hs in Hin. set_solver.
Qed.

(** The states only grow, whatever the fuel. *)
Lemma emit_state next s : state (emit next s) = state s.
Proof. unfold emit. by case_bool_decide. Qed.

Definition visit_total (fuel : nat) : Prop := ∀ node s,
  node ∈ U → state s !! node = None → whites s ≤ fuel →
  ∃ s', visit fuel node s = Some s' ∧ dom (state s) ⊆ dom (state s').

Lemma visit_all_total fuel l s :
  visit_total fuel → Forall (λ n, n ∈ U) l → whites s ≤ fuel →
  ∃ s', visit_all (visit fuel) l s = Some s' ∧ dom (state s) ⊆ dom (state s').
Proof.
  intros Hv Hl. revert s. induction Hl as [|n l Hn Hl IH]; intros s Hs; simpl; [by exists s|].
  assert (∃ s1, match state s !! n with
    | Some gray => Some (emit n s) | Some black => Some s | None => visit fuel n s end = Some s1 ∧
    dom (state s) ⊆ dom (state s1)) as (s1&->&Hd1).
  { destruct (state s !! n) as [[]|] eqn:Hst; [|by eexists|by apply Hv].
    eexists. split; [reflexivity|]. by rewrite emit_state. }
  simpl. destruct (IH s1) as (s'&->&Hd); [pose proof (whites_mono s s1 Hd1); lia|].
  exists s'. split; [done|]. by etrans.
Qed.

Lemma visit_fuel fuel : visit_total fuel.
Proof.
  induction fuel as [|fuel IH]; intros node s HU Hw Hs.
  - pose proof (whites_enter node s HU Hw). lia.
  - simpl. destruct (visit_all_total fuel (graph node) (enter node s) IH) as (s1&Hs1&Hd).
    + apply Forall_forall. intros n Hn. by eapply closed.
    + pose proof (whites_enter node s HU Hw). lia.
    + unfold enter in Hs1. rewrite Hs1. eexists. split; [reflexivity|]. simpl.
      rewrite dom_insert_L. simpl in Hd. rewrite dom_insert_L in Hd. set_solver.
Qed.

Lemma visit_roots_fuel fuel names s :
  size U ≤ fuel → Forall (λ n, n ∈ U) names → ∃ s', visit_roots fuel names s = Some s'.
Proof.
  intros Hfuel Hl. revert s. induction Hl as [|n names Hn Hl IH]; intros s; simpl; [by eexists|].
  destruct (state s !! n) eqn:Hst; simpl; [apply IH|].
  destruct (visit_fuel fuel n s Hn Hst) as (s1&->&_); [|apply IH].
  etrans; [|exact Hfuel]. unfold whites. apply subseteq_size. set_solver.
Qed.

End Fuel.

(** ** The search as a whole *)

(** A completed search that covers the graph reports real cycles, and none only
    when no node reaches itself. *)
Lemma roots_exact fuel order s :
  (∀ a b, edge a b → a ∈ order) → visit_roots fuel order (mkDfs ∅ [] [] []) = Some s →
  Forall real_cycle (cycles s) ∧ (cycles s = [] ↔ ∀ n, ¬ tc edge n n).
Proof.
  intros Hc Hs. destruct (visit_roots_spec fuel order (mkDfs ∅ [] [] []) s) as (Hi&_&Hb);
    [apply inv_start|done|done|].
  split; [apply (inv_real s Hi)|]. split.
  - intros Hnone n Htc. destruct (inv_rank s Hi Hnone) as [rank Hr].
    assert (∀ a b, tc edge a b → state s !! a = Some black → rank b < rank a) as Hrank.
    { induction 1 as [a b Hab|a b c Hab _ IH]; intros Ha; destruct (Hr _ _ Ha Hab); [done|].
      etrans; [by apply IH|done]. }
    specialize (Hrank n n Htc). rewrite Forall_forall in Hb.
    assert (∃ b, edge n b) as [b Hnb] by (inversion Htc; eauto).
    specialize (Hrank (Hb n (Hc n b Hnb))). lia.
  - intros Hac. pose proof (inv_real s Hi) as Hreal. destruct (cycles s) as [|c cs]; [done|].
    exfalso. apply Forall_cons in Hreal as [(a&l&->&Hch) _]. apply (Hac a).
    eapply chain_tc; [|exact Hch|apply last_snoc]. by destruct l.
Qed.

(** With as much fuel as there are nodes a search returns. *)
Lemma roots_total order s :
  NoDup order → (∀ a b, edge a b → b ∈ order) →
  ∃ s', visit_roots (length order) order s = Some s'.
Proof.
  intros Hnd Hc. apply (visit_roots_fuel (list_to_set order)).
  - intros a b _ Hab. apply elem_of_list_to_set. by eapply Hc.
  - by rewrite size_list_to_set.
  - apply Forall_forall. intros n Hn. by apply elem_of_list_to_set.
Qed.

(** The search is total and exact on any finite graph: with as much fuel as
    there are nodes it returns; every path it reports starts and ends at the
    same node and follows edges; and it reports nothing only when no node
    reaches itself. *)
Lemma search_correct names :
  NoDup names → (∀ a b, edge a b → a ∈ names ∧ b ∈ names) →
  ∃ cs, search (length names) names = Some cs ∧ Forall real_cycle cs ∧
    (cs = [] ↔ ∀ n, ¬ tc edge n n).
Proof.
  intros Hnd Hc. pose proof (SortStrings_perm names) as Hperm.
  destruct (roots_total (SortStrings names) (mkDfs ∅ [] [] [])) as [s Hs].
  { by rewrite Hperm. }
  { intros a b Hab. rewrite Hperm. exact (proj2 (Hc a b Hab)). }
  rewrite (Permutation_length Hperm) in Hs. unfold search. rewrite Hs. exists (cycles s). split; [done|].
  eapply roots_exact; [|exact Hs]. intros a b Hab. rewrite Hperm. exact (proj1 (Hc a b Hab)).
Qed.

End Search.

Definition acyclic (graph : string → list string) : Prop := ∀ n, ¬ tc (edge graph) n n.

Lemma acyclic_sub g g' : (∀ a b, edge g' a b → edge g a b) → acyclic g → acyclic g'.
Proof. intros Hsub Hac n Hn. apply (Hac n). revert Hn. by apply (tc_congruence (λ x, x)). Qed.

(** The search as both packages call it: over the keys of a map that the edges
    do not leave. *)
Lemma search_map {A} (graph : string → list string) (m : gmap string A) :
  (∀ a b, edge graph a b → is_Some (m !! a) ∧ is_Some (m !! b)) →
  let names := (map_to_list m).*1 in
  let cs := default [] (search graph (length names) names) in
  Forall (real_cycle graph) cs ∧ (cs = [] ↔ acyclic graph).
Proof.
  intros He names cs.
  assert (∀ n, n ∈ names ↔ is_Some (m !! n)) as Hn.
  { intros n. subst names. rewrite list_elem_of_fmap. split.
    - intros ([k e]&->&Hin). apply elem_of_map_to_list in Hin. by eexists.
    - intros [e Hn]. exists (n, e). by rewrite elem_of_map_to_list. }
  destruct (search_correct graph names) as (cs'&Hs&Hr&Hc).
  - apply NoDup_fst_map_to_list.
  - intros a b Hab. rewrite !Hn. by apply He.
  - subst cs. by rewrite Hs.
Qed.

Example search_two :
  let graph n := if bool_decide (n = "a") then ["b"] else if bool_decide (n = "b") then ["a"] else [] in
  search graph 2 ["b"; "a"] = Some [["a"; "b"; "a"]].
Proof. reflexivity. Qed.
