(* ===== verification/FlowModel.v ===== *)
(** * Flow definitions: the data ([internal/core/flow/model.go])

    A field is named as in the code, behind the initial of its struct where two
    structs share the name. Pointers to specs are options, raw JSON is its text. *)
From S2P Require Import Prelude GoStrings GoRunes JSON.
From Stdlib Require Import Ascii ZArith Lia.

Definition ExecutionModeRequest : string := "request".
Definition ExecutionModeSession : string := "session".

Definition KindStep : string := "step".
Definition KindLLM : string := "llm".
Definition KindDecision : string := "decision".
Definition KindHuman : string := "human".
Definition KindBranch : string := "branch".
Definition KindLoop : string := "loop".
Definition KindFunction : string := "function".
Definition KindService : string := "service".

Definition EdgeDataDependency : string := "data_dependency".
Definition EdgeHandoff : string := "handoff".
Definition EdgeCondition : string := "condition".

Definition SessionDeliveryDurable : string := "durable".
Definition SessionDeliveryLatestWins : string := "latest_wins".
Definition SessionLaneCadenceEvent : string := "event".
Definition SessionLaneCadencePeriodic : string := "periodic".
Definition SessionLaneCadenceHybrid : string := "hybrid".
Definition SessionLaneClassFast : string := "fast".
Definition SessionLaneClassStandard : string := "standard".
Definition SessionLaneClassSlow : string := "slow".
Definition SessionLaneOverloadCoalesceLatest : string := "coalesce_latest".
Definition SessionLaneOverloadDropNewest : string := "drop_newest".

Definition FunctionRuntimeJS : string := "js".
Definition FunctionRuntimeWasm : string := "wasm".

(** ** Conditions *)

Record NumCompare := mkNumCompare { Num_Op : string; Num_Value : float64 }.
Record FieldCompare := mkFieldCompare { F_Path : string; F_Op : string; F_Value : json }.

Inductive Condition := mkCondition {
  C_Status : string;
  C_Verdict : string;
  C_Node : string;
  C_Choice : string;
  C_Confidence : option NumCompare;
  C_Output : option FieldCompare;
  C_Not : option Condition;
  C_All : list Condition;
  C_Any : list Condition;
}.

(** [Condition{}] *)
Definition no_condition : Condition := mkCondition "" "" "" "" None None None [] [].
Definition when_choice (choice : string) : Condition := mkCondition "" "" "" choice None None None [] [].
Definition when_status (status : string) : Condition := mkCondition status "" "" "" None None None [] [].
Definition when_not (c : Condition) : Condition := mkCondition "" "" "" "" None None (Some c) [] [].

Definition is_None {A} (o : option A) : bool := match o with None => true | Some _ => false end.
Definition is_nil {A} (l : list A) : bool := match l with [] => true | _ => false end.

Definition ConditionEmpty (c : Condition) : bool :=
  bool_decide (C_Status c = "") && bool_decide (C_Verdict c = "") && bool_decide (C_Node c = "") &&
  bool_decide (C_Choice c = "") && is_None (C_Confidence c) && is_None (C_Output c) &&
  is_None (C_Not c) && is_nil (C_All c) && is_nil (C_Any c).

(** ** Nodes *)

Record VarDef := mkVarDef {
  V_Name : string;
  V_Type : string;
  V_Desc : string;
  V_Required : bool;
  V_Source : string;
  V_Schema : string;
}.

Record RetryPolicy := mkRetry {
  MaxAttempts : Z;
  InitialIntervalMS : Z;
  BackoffCoefficient : float64;
  MaxIntervalMS : Z;
  Jitter : float64;
  RetryOn : list string;
  NonRetryable : list string;
}.

Record Choice := mkChoice { Choice_ID : string; Choice_Label : string }.

Record DecisionSpec := mkDecision {
  Provider : string;
  DecisionType : string;
  Choices : list Choice;
  D_TimeoutMS : Z;
  OnError : string;
  DefaultChoice : string;
}.

Record HumanSpec := mkHuman {
  Queue : string;
  AssigneePolicy : string;
  Form : json;
  H_Prompt : string;
  H_TimeoutMS : Z;
  OnTimeout : string;
  ResultVar : string;
}.

Record BranchCase := mkCase { Case_Name : string; Case_To : string; Case_Condition : Condition }.
Record BranchSpec := mkBranch { B_Cases : list BranchCase; B_DefaultTo : string }.

Record LoopSpec := mkLoop {
  Body : list string;
  ExitWhen : Condition;
  L_MaxIterations : Z;
  L_IterationKey : string;
}.

Record FunctionSpec := mkFunction {
  Runtime : string;
  F_Source : string;
  Ref : string;
  Handler : string;
  InputSchema : string;
  OutputSchema : string;
}.

Record ServiceAuthSpec := mkAuth { Auth_Type : string; TokenEnv : string; HeaderName : string }.
Record ServiceSpec := mkService {
  Method : string;
  URL : string;
  Headers : gmap string string;
  S_Body : string;
  Auth : option ServiceAuthSpec;
}.

Record Node := mkNode {
  N_ID : string;
  N_Kind : string;
  N_Title : string;
  N_Prompt : string;
  N_AgentType : string;
  N_CanvasPos : option (float64 * float64);
  N_AgentRef : string;
  N_WriteScope : list string;
  N_Retry : option RetryPolicy;
  N_Decision : option DecisionSpec;
  N_Human : option HumanSpec;
  N_Branch : option BranchSpec;
  N_Loop : option LoopSpec;
  N_Function : option FunctionSpec;
  N_Service : option ServiceSpec;
  N_TimeoutSec : Z;
  N_PreScript : string;
  N_PostScript : string;
  N_Outputs : list VarDef;
}.

(** [Node{}], what a lookup of an unknown id in [byID] yields. *)
Definition no_node : Node :=
  mkNode "" "" "" "" "" None "" [] None None None None None None None 0 "" "" [].

Record Edge := mkEdge {
  E_ID : string;
  From : string;
  To : string;
  EdgeType : string;
  When : option Condition;
  E_MaxIterations : Z;
  E_IterationKey : string;
}.

(** ** Definitions *)

Record NetworkPolicy := mkNetwork {
  Policy : string;
  AllowedDomains : list string;
  BlockedDomains : list string;
  AllowPrivateHosts : bool;
  TimeoutSeconds : Z;
  MaxResponseChars : Z;
}.

Record SessionTrigger := mkTrigger {
  EventType : string;
  EntryNode : string;
  Delivery : string;
  LaneID : string;
}.

Record SessionLane := mkLane {
  Lane_ID : string;
  Cadence : string;
  IntervalMS : Z;
  DeadlineMS : Z;
  Class_ : string;
  OverloadPolicy : string;
}.

Record SessionWorkflowSpec := mkSession { Triggers : list SessionTrigger; Lanes : list SessionLane }.
Record OnCompleteSpec := mkOnComplete { OnComplete_URL : string; Secret : string }.

Record Definition_ := mkDefinition {
  FlowID : string;
  D_Name : string;
  Description : string;
  Version : string;
  D_Status : string;
  ExecutionMode : string;
  SessionWorkflow : option SessionWorkflowSpec;
  TemplateID : string;
  Inputs : list VarDef;
  D_Outputs : list VarDef;
  D_TimeoutSec : Z;
  Nodes : list Node;
  Edges : list Edge;
  Network : option NetworkPolicy;
  D_Retry : option RetryPolicy;
  OnComplete : option OnCompleteSpec;
}.

Section Model.
Context {U : Unicode}.

Definition EffectiveExecutionMode (mode : string) : string :=
  if bool_decide (ToLower (TrimSpace mode) = ExecutionModeSession)
  then ExecutionModeSession else ExecutionModeRequest.

Definition EffectiveSessionDelivery (delivery : string) : string :=
  if EqualFold (TrimSpace delivery) SessionDeliveryLatestWins
  then SessionDeliveryLatestWins else SessionDeliveryDurable.

End Model.
