(* ===== verification/FlowContracts.v ===== *)
(** * Typed values of a flow ([internal/core/flow/contracts.go])

    The JSON Schema subset: which schemas a definition may carry, and the check
    of a value against one. The check relies on the shape of the schema with
    type assertions that panic where it is wrong. *)
From S2P Require Import Prelude GoStrings GoRunes JSON FlowModel.
From Stdlib Require Import Ascii ZArith Lia.

Definition maxJSONSchemaNestingDepth : nat := 32.

(** How a check fails: with an error or by a failed type assertion. *)
Inductive failure := Failed (text : string) | Panics.

Section Contracts.
Context {U : Unicode} {J : JSONLib}.

Definition supportedJSONType (typ : string) : bool :=
  bool_decide (typ ∈ ["object"; "array"; "string"; "number"; "integer"; "boolean"; "null"; "any"]).

(** ** Schemas *)

Definition schema_keys : list string :=
  ["type"; "description"; "properties"; "required"; "items"; "enum"; "additionalProperties"].

(** [validateSchemaDefinitionAtDepth]. [levels] is what is left of the depths 0
    to [maxJSONSchemaNestingDepth]. *)
Fixpoint validateSchemaDefinitionAtDepth (levels : nat) (schema : list (string * json)) (path : string) :
    option string :=
  match levels with
  | 0 => Some (path +:+ " exceeds the maximum schema nesting depth")
  | S levels =>
      or_else
        match field "type" schema with
        | None => None
        | Some (JString typeName) =>
            if supportedJSONType (ToLower typeName) then None
            else Some (path +:+ ".type must be one of object, array, string, number, integer, boolean, null")
        | Some _ =>
            Some (path +:+ ".type must be one of object, array, string, number, integer, boolean, null")
        end
      (or_else
        match field "required" schema with
        | None => None
        | Some (JArray items) =>
            first_error_from (λ i item, match item with
              | JString _ => None
              | _ => Some (path +:+ ".required[" +:+ itoa i +:+ "] must be a string")
              end) 0 items
        | Some _ => Some (path +:+ ".required must be an array of strings")
        end
      (or_else
        match field "properties" schema with
        | None => None
        | Some (JObject props) =>
            first_error (λ '(name, child), match child with
              | JObject childSchema =>
                  validateSchemaDefinitionAtDepth levels childSchema (path +:+ ".properties." +:+ name)
              | _ => Some (path +:+ ".properties." +:+ name +:+ " must be an object")
              end) props
        | Some _ => Some (path +:+ ".properties must be an object")
        end
      (or_else
        match field "items" schema with
        | None => None
        | Some (JObject itemSchema) => validateSchemaDefinitionAtDepth levels itemSchema (path +:+ ".items")
        | Some _ => Some (path +:+ ".items must be an object")
        end
      (or_else
        match field "additionalProperties" schema with
        | None | Some (JBool _) => None
        | Some (JObject child) =>
            validateSchemaDefinitionAtDepth levels child (path +:+ ".additionalProperties")
        | Some _ => Some (path +:+ ".additionalProperties must be a boolean or schema object")
        end
      (or_else
        match field "enum" schema with
        | None | Some (JArray _) => None
        | Some _ => Some (path +:+ ".enum must be an array")
        end
      (first_error (λ '(key, _),
        if bool_decide (key ∈ schema_keys) then None
        else Some (path +:+ "." +:+ key +:+ " is not supported by the Flow schema validator")) schema))))))
  end.

Definition validateSchemaDefinition (schema : list (string * json)) (path : string) : option string :=
  validateSchemaDefinitionAtDepth (S maxJSONSchemaNestingDepth) schema path.

(** A schema, or none; [%w] of the decoder's error is its text. *)
Definition decodeSchemaDefinition (raw path : string) : result string (option (list (string * json))) :=
  let trimmed := TrimSpace raw in
  if bool_decide (trimmed = "") || bool_decide (trimmed = "null") then Ok None
  else
    match Unmarshal_object trimmed with
    | Err e => Err (path +:+ " schema is invalid JSON: " +:+ e)
    | Ok None => Err (path +:+ " schema must be an object")
    | Ok (Some decoded) =>
        match validateSchemaDefinition decoded path with
        | Some e => Err e
        | None => Ok (Some decoded)
        end
    end.

(** ** Values *)

Definition valueHasJSONType (v : json) (typ : string) : bool :=
  if bool_decide (typ = "any") then true
  else if bool_decide (typ = "null") then match v with JNull => true | _ => false end
  else if bool_decide (typ = "string") then match v with JString _ => true | _ => false end
  else if bool_decide (typ = "boolean") then match v with JBool _ => true | _ => false end
  else if bool_decide (typ = "number") then negb (is_None (numericValue v))
  else if bool_decide (typ = "integer") then
    match numericValue v with Some n => integral n | None => false end
  else if bool_decide (typ = "object") then match v with JObject _ => true | _ => false end
  else if bool_decide (typ = "array") then match v with JArray _ => true | _ => false end
  else false.

Definition jsonTypeName (v : json) : string :=
  match v with
  | JNull => "null"
  | JString _ => "string"
  | JBool _ => "boolean"
  | JObject _ => "object"
  | JArray _ => "array"
  | JNum _ => "number"
  | JGo t _ => if is_None (numericValue v) then t else "number"
  end.


(** [validateSchemaValue] *)
Fixpoint validateSchemaValue (levels : nat) (v : json) (schema : list (string * json)) (path : string) :
    option failure :=
  match levels with
  | 0 => Some (Failed (path +:+ " exceeds the maximum schema nesting depth"))
  | S levels =>
      or_else
        match field "type" schema with
        | Some (JString typ) =>
            if valueHasJSONType v (ToLower typ) then None
            else Some (Failed (path +:+ " must be " +:+ typ +:+ ", got " +:+ jsonTypeName v))
        | _ => None
        end
      (or_else
        match field "enum" schema with
        | Some (JArray enum) =>
            if existsb (jsonValuesEqual v) enum then None
            else Some (Failed (path +:+ " must match one of the declared enum values"))
        | _ => None
        end
        match v with
        | JObject current =>
            or_else
              match field "required" schema with
              | Some (JArray required) =>
                  first_error (λ item, match item with
                    | JString name =>
                        if is_None (field name current)
                        then Some (Failed (path +:+ "." +:+ name +:+ " is required")) else None
                    | _ => Some Panics
                    end) required
              | _ => None
              end
              (first_error (λ '(name, child),
                match (match field "properties" schema with Some (JObject p) => field name p | _ => None end) with
                | Some (JObject childSchema) =>
                    validateSchemaValue levels child childSchema (path +:+ "." +:+ name)
                | Some _ => Some Panics
                | None =>
                    match field "additionalProperties" schema with
                    | Some (JBool additional) =>
                        if additional then None
                        else Some (Failed (path +:+ "." +:+ name +:+ " is not allowed"))
                    | Some (JObject additional) =>
                        validateSchemaValue levels child additional (path +:+ "." +:+ name)
                    | _ => None
                    end
                end) current)
        | JArray current =>
            match field "items" schema with
            | Some (JObject itemSchema) =>
                first_error_from (λ i item,
                  validateSchemaValue levels item itemSchema (path +:+ "[" +:+ itoa i +:+ "]")) 0 current
            | _ => None
            end
        | _ => None
        end)
  end.

Definition ValidateJSONSchemaValue (v : json) (schema path : string) : option failure :=
  match decodeSchemaDefinition schema (path +:+ ".schema") with
  | Err e => Some (Failed e)
  | Ok None => None
  | Ok (Some decoded) => validateSchemaValue (S maxJSONSchemaNestingDepth) v decoded path
  end.

Definition validateVariableValue (def : VarDef) (v : json) (path : string) : option failure :=
  let typ := ToLower (TrimSpace (V_Type def)) in
  if negb (bool_decide (typ = "")) && negb (bool_decide (typ = "any")) && negb (valueHasJSONType v typ)
  then Some (Failed (path +:+ " must be " +:+ typ +:+ ", got " +:+ jsonTypeName v))
  else ValidateJSONSchemaValue v (V_Schema def) path.

(** [values] in the order in which the run visits the map. *)
Definition ValidateVariableValues (defs : list VarDef) (values : list (string * json)) (path : string)
    (rejectUnknown : bool) : option failure :=
  let declared := filter (λ name, name ≠ "") ((λ def, TrimSpace (V_Name def)) <$> defs) in
  or_else
    (if rejectUnknown then
       first_error (λ '(name, _),
         if bool_decide (name ∈ declared) then None
         else Some (Failed (path +:+ "." +:+ name +:+ " is not declared"))) values
     else None)
    (first_error (λ def,
       let name := TrimSpace (V_Name def) in
       match field name values with
       | None => if V_Required def then Some (Failed (path +:+ "." +:+ name +:+ " is required")) else None
       | Some v => validateVariableValue def v (path +:+ "." +:+ name)
       end) defs).

Definition ValidateInputValues (def : option Definition_) (values : list (string * json)) : option failure :=
  match def with
  | None => None
  | Some def =>
      if is_nil (Inputs def) then None else ValidateVariableValues (Inputs def) values "inputs" true
  end.

(** ** Output sources *)

Definition ident_start (a : ascii) : bool :=
  upper_ascii (code a) || lower_ascii (code a) || is_byte "_" a.
Definition ident_byte (a : ascii) : bool := ident_start a || is_digit a || is_byte "-" a.

Definition source_ident (s : string) : bool :=
  match s with "" => false | String a s => ident_start a && all_bytes ident_byte s end.

(** [^nodes\.(ident)\.outputs\.(ident)$]; an identifier has no dot. *)
Definition ParseOutputSource (source : string) : option (string * string) :=
  match Split (TrimSpace source) "." with
  | ["nodes"; nodeID; "outputs"; f] =>
      if source_ident nodeID && source_ident f then Some (nodeID, f) else None
  | _ => None
  end.

End Contracts.

(** * Theorems *)

Section Theorems.
Context {U : Unicode} {J : JSONLib}.

Lemma first_error_no {E A} (f : A → option E) e l :
  (∀ x, x ∈ l → f x ≠ Some e) → first_error f l ≠ Some e.
Proof.
  intros H. induction l as [|x l IH]; [done|]. simpl.
  destruct (f x) as [e'|] eqn:Hx; simpl; [|apply IH; set_solver].
  intros [= ->]. apply (H x); [by left|done].
Qed.

Lemma first_error_from_no {E A} (f : Z → A → option E) e i l :
  (∀ k x, x ∈ l → f k x ≠ Some e) → first_error_from f i l ≠ Some e.
Proof.
  revert i. induction l as [|x l IH]; intros i H; [done|]. simpl.
  destruct (f i x) as [e'|] eqn:Hx; simpl; [|apply IH; set_solver].
  intros [= ->]. apply (H i x); [by left|done].
Qed.

Lemma or_else_no {E} (e1 e2 : option E) e : e1 ≠ Some e → e2 ≠ Some e → or_else e1 e2 ≠ Some e.
Proof. by destruct e1. Qed.

Lemma schema_value_safe levels : ∀ v schema path dpath,
  validateSchemaDefinitionAtDepth levels schema dpath = None →
  validateSchemaValue levels v schema path ≠ Some Panics.
Proof.
  induction levels as [|levels IH]; intros v schema path dpath; [discriminate|].
  cbn [validateSchemaDefinitionAtDepth validateSchemaValue].
  rewrite !or_else_None. intros (_&Hreq&Hprops&Hitems&Hadd&_&_).
  apply or_else_no.
  { destruct (field "type" schema) as [[]|]; try done. by destruct (valueHasJSONType _ _). }
  apply or_else_no.
  { destruct (field "enum" schema) as [[]|]; try done. by destruct (existsb _ _). }
  destruct v as [| | | |current|current|]; try done.
  - destruct (field "items" schema) as [[| | | | |itemSchema|]|]; try done.
    apply first_error_from_no. intros k x _. by eapply IH.
  - apply or_else_no.
    + destruct (field "required" schema) as [[| | | |required| |]|]; try done.
      apply first_error_no. intros x Hx. rewrite first_error_from_None in Hreq.
      apply list_elem_of_lookup in Hx as [i Hi]. specialize (Hreq i x Hi).
      destruct x as [| | |name| | |]; try done. by destruct (is_None _).
    + apply first_error_no. intros [name child] _.
      destruct (field "properties" schema) as [[| | | | |p|]|]; try done.
      all: try (destruct (field "additionalProperties" schema) as [[| [] | | | |a|]|]; try done; by eapply IH).
      destruct (field name p) as [c|] eqn:Hc.
      * rewrite first_error_None, Forall_forall in Hprops. apply field_Some in Hc.
        specialize (Hprops _ Hc). cbn in Hprops. destruct c; try done. by eapply IH.
      * destruct (field "additionalProperties" schema) as [[| [] | | | |a|]|]; try done. by eapply IH.
Qed.

(** Checking values never panics. The check of a value asserts types that
    it finds in the schema; whatever the value and whatever the text of the
    schema, these assertions hold, since a schema is only used after its own
    check, at every depth down to the same bound. So are the checks of all
    inputs and outputs of a flow. *)
Theorem schema_check_never_panics defs values path rejectUnknown v schema :
  ValidateJSONSchemaValue v schema path ≠ Some Panics ∧
  ValidateVariableValues defs values path rejectUnknown ≠ Some Panics.
Proof.
  assert (∀ v schema path, ValidateJSONSchemaValue v schema path ≠ Some Panics) as H.
  { intros w s p. unfold ValidateJSONSchemaValue.
    destruct (decodeSchemaDefinition s _) as [[decoded|]|] eqn:Hd; [|done|done].
    revert Hd. unfold decodeSchemaDefinition. cbn zeta.
    destruct (_ || _); [done|]. destruct (Unmarshal_object _) as [[d|]|]; [|done|done].
    destruct (validateSchemaDefinition d _) eqn:Hok; [done|]. intros [= <-].
    by eapply schema_value_safe. }
  split; [apply H|]. unfold ValidateVariableValues. cbn zeta. apply or_else_no.
  - case_match; [|done]. apply first_error_no. intros [name w] _. by case_bool_decide.
  - apply first_error_no. intros def _. case_match.
    + unfold validateVariableValue. cbn zeta. case_match; [done|apply H].
    + by case_match.
Qed.

End Theorems.
