(* ===== verification/FlowGraph.v ===== *)
(** * Graph searches of the flow validator ([internal/core/flow/validate.go])

    [findCycle], which stops at the first cycle, and the breadth-first search
    that [buildSessionRegionGraph] and [sessionRouteChain] share. The first is
    the head of what the search of [Cycles] reports, the second computes what
    is reachable. *)
From S2P Require Import Prelude GoStrings Cycles.
From Stdlib Require Import Ascii ZArith Lia.

Section Search.
Context (graph : string → list string).

(** ** [findCycle] *)

(** The variables captured by [visit]; a node missing from [color_of] is white. *)
Record walk := mkWalk { color_of : gmap string color; stack : list string }.

(** A cycle, or the state after the walk. *)
Definition found := (list string + walk)%type.

(** The loop over the dependencies, given the recursive call. *)
Fixpoint walk_all (visit : string → walk → option found) (deps : list string) (w : walk) : option found :=
  match deps with
  | [] => Some (inr w)
  | dep :: deps =>
      r ← match color_of w !! dep with
          | Some gray =>
              Some match find_index (λ s, bool_decide (s = dep)) (stack w) with
                   | Some i => inl (drop i (stack w) ++ [dep])
                   | None => inr w
                   end
          | Some black => Some (inr w)
          | None => visit dep w
          end;
      match r with
      | inl cycle => Some (inl cycle)
      | inr w => walk_all visit deps w
      end
  end.

Fixpoint walk_from (fuel : nat) (id : string) (w : walk) : option found :=
  match fuel with
  | 0 => None
  | S fuel =>
      r ← walk_all (walk_from fuel) (graph id) (mkWalk (<[id := gray]> (color_of w)) (stack w ++ [id]));
      Some match r with
           | inl cycle => inl cycle
           | inr w => inr (mkWalk (<[id := black]> (color_of w)) (removelast (stack w)))
           end
  end.

Fixpoint walk_roots (fuel : nat) (ids : list string) (w : walk) : option found :=
  match ids with
  | [] => Some (inr w)
  | id :: ids =>
      r ← match color_of w !! id with None => walk_from fuel id w | Some _ => Some (inr w) end;
      match r with
      | inl cycle => Some (inl cycle)
      | inr w => walk_roots fuel ids w
      end
  end.

(** [order] is the order in which the keys of the map are visited. *)
Definition findCycle (order : list string) : option (list string) :=
  match walk_roots (length order) order (mkWalk ∅ []) with
  | Some (inl cycle) => Some cycle
  | _ => None
  end.

(** ** Breadth-first search *)

(** The loop over the successors of one node. *)
Definition push (nexts : list string) (region : gset string) (queue : list string) :
    gset string * list string :=
  foldl (λ '(region, queue) next,
    if bool_decide (next ∈ region) then (region, queue) else ({[next]} ∪ region, queue ++ [next]))
    (region, queue) nexts.

Fixpoint bfs (fuel : nat) (region : gset string) (queue : list string) : option (gset string) :=
  match queue with
  | [] => Some region
  | current :: queue =>
      match fuel with
      | 0 => None
      | S fuel => let '(region, queue) := push (graph current) region queue in bfs fuel region queue
      end
  end.

(** * Lemmas *)

(** ** [findCycle] is the head of the search of [Cycles] *)

Definition walk_of (s : dfs) : walk := mkWalk (state s) (path s).
Definition first_of (s : dfs) : found :=
  match cycles s with [] => inr (walk_of s) | c :: _ => inl c end.

Lemma visit_all_mono v l s s' :
  (∀ n s s', v n s = Some s' → cycles s `prefix_of` cycles s') →
  visit_all v l s = Some s' → cycles s `prefix_of` cycles s'.
Proof.
  intros Hv. revert s. induction l as [|n l IH]; intros s; simpl; [by intros [= <-]|].
  intros H. apply bind_Some in H as (s1&Hs1&Hs'). etrans; [|by apply IH].
  destruct (state s !! n) as [[]|]; [|by injection Hs1 as <-|by eapply Hv].
  injection Hs1 as <-. unfold emit. case_bool_decide; [done|]. by apply prefix_app_r.
Qed.

Lemma visit_mono fuel n s s' : visit graph fuel n s = Some s' → cycles s `prefix_of` cycles s'.
Proof.
  revert n s s'. induction fuel as [|fuel IH]; intros n s s'; [done|]. simpl.
  intros H. apply bind_Some in H as (s1&Hs1&[= <-]). by apply visit_all_mono in Hs1.
Qed.

Lemma visit_roots_mono fuel l s s' :
  visit_roots graph fuel l s = Some s' → cycles s `prefix_of` cycles s'.
Proof.
  revert s. induction l as [|n l IH]; intros s; simpl; [by intros [= <-]|].
  intros H. apply bind_Some in H as (s1&Hs1&Hs'). etrans; [|by apply IH].
  destruct (state s !! n); [by injection Hs1 as <-|by eapply visit_mono].
Qed.

(** Once a cycle has been found the first one stays. *)
Lemma first_of_prefix s s' c cs :
  cycles s = c :: cs → cycles s `prefix_of` cycles s' → first_of s' = inl c.
Proof. intros Hs [k Hk]. unfold first_of. by rewrite Hk, Hs. Qed.

Definition follows (v : string → dfs → option dfs) (w : string → walk → option found) : Prop :=
  ∀ n s s', inv graph s → state s !! n = None → entry graph n s → cycles s = [] →
    v n s = Some s' → w n (walk_of s) = Some (first_of s').

Lemma walk_all_follows v w node p l s s' :
  follows v w → visit_ok graph v → (∀ n s s', v n s = Some s' → cycles s `prefix_of` cycles s') →
  inv graph s → path s = p ++ [node] → Forall (edge graph node) l → cycles s = [] →
  visit_all v l s = Some s' → walk_all w l (walk_of s) = Some (first_of s').
Proof.
  intros Hw Hv Hmono Hi Hp Hl. revert s Hi Hp. induction Hl as [|next l He Hl IH]; intros s Hi Hp Hnone; simpl.
  { intros [= <-]. unfold first_of. by rewrite Hnone. }
  intros H. apply bind_Some in H as (s1&Hs1&Hs').
  assert (inv graph s1 ∧ path s1 = path s ∧
    match state s !! next with
    | Some gray => Some match find_index (λ x, bool_decide (x = next)) (path s) with
        | Some i => inl (drop i (path s) ++ [next]) | None => inr (walk_of s) end
    | Some black => Some (inr (walk_of s))
    | None => w next (walk_of s) end = Some (first_of s1)) as (Hi1&Hp1&Hf).
  { destruct (state s !! next) as [[]|] eqn:Hst.
    - injection Hs1 as <-. destruct (emit_spec graph next s p node Hi Hp He Hst) as (?&Hext&_).
      split_and!; [done|apply (ext_path _ _ Hext)|].
      apply (inv_gray graph s Hi) in Hst. unfold first_of, emit. rewrite (inv_seen graph s Hi Hnone).
      rewrite bool_decide_false by apply not_elem_of_nil. cbn [cycles]. rewrite Hnone. cbn [app].
      destruct (find_index _ (path s)) as [i|] eqn:Hf; [done|].
      apply find_index_None in Hf. rewrite Forall_forall in Hf. specialize (Hf next Hst).
      by rewrite bool_decide_true in Hf.
    - injection Hs1 as <-. split_and!; [done|done|]. unfold first_of. by rewrite Hnone.
    - assert (entry graph next s) as Hen by (right; by exists p, node).
      destruct (Hv next s s1 Hi Hst Hen Hs1) as (?&Hext&_).
      split_and!; [done|apply (ext_path _ _ Hext)|by apply Hw]. }
  cbn [walk_of color_of stack]. rewrite Hf. cbn [mbind option_bind].
  destruct (cycles s1) as [|c cs] eqn:Hc.
  - unfold first_of at 1. rewrite Hc. apply IH; [done|by rewrite Hp1|done|done].
  - rewrite (first_of_prefix s1 s1 c cs), (first_of_prefix s1 s' c cs); [done|done| |done|done].
    by eapply visit_all_mono.
Qed.

Lemma walk_follows fuel : follows (visit graph fuel) (walk_from fuel).
Proof.
  induction fuel as [|fuel IH]; intros n s s' Hi Hw He Hnone Hv; [done|]. simpl in Hv.
  apply bind_Some in Hv as (s1&Hs1&[= <-]). cbn [walk_from walk_of color_of stack].
  assert (walk_all (walk_from fuel) (graph n) (walk_of (enter n s)) = Some (first_of s1)) as Hf.
  { eapply (walk_all_follows (visit graph fuel)); [done|apply visit_spec|apply visit_mono| | | | |exact Hs1].
    - by apply inv_enter.
    - done.
    - by apply Forall_forall.
    - done. }
  unfold walk_of, enter in Hf. cbn in Hf. rewrite Hf. cbn [mbind option_bind].
  unfold first_of. cbn [cycles set_state set_path state path]. by destruct (cycles s1).
Qed.

Lemma walk_roots_follows fuel order s s' :
  inv graph s → path s = [] → cycles s = [] →
  visit_roots graph fuel order s = Some s' → walk_roots fuel order (walk_of s) = Some (first_of s').
Proof.
  revert s. induction order as [|n order IH]; intros s Hi Hp Hnone; simpl.
  { intros [= <-]. unfold first_of. by rewrite Hnone. }
  intros H. apply bind_Some in H as (s1&Hs1&Hs').
  assert (inv graph s1 ∧ path s1 = [] ∧
    match state s !! n with None => walk_from fuel n (walk_of s) | Some _ => Some (inr (walk_of s)) end
    = Some (first_of s1)) as (Hi1&Hp1&Hf).
  { destruct (state s !! n) as [c|] eqn:Hst.
    - injection Hs1 as <-. split_and!; [done|done|]. unfold first_of. by rewrite Hnone.
    - assert (entry graph n s) as Hen by by left.
      destruct (visit_spec graph fuel n s s1 Hi Hst Hen Hs1) as (?&Hext&_).
      split_and!; [done|by rewrite (ext_path _ _ Hext)|by apply walk_follows]. }
  cbn [walk_of color_of]. rewrite Hf. cbn [mbind option_bind].
  destruct (cycles s1) as [|c cs] eqn:Hc.
  - unfold first_of at 1. rewrite Hc. by apply IH.
  - rewrite (first_of_prefix s1 s1 c cs), (first_of_prefix s1 s' c cs); [done|done| |done|done].
    by eapply visit_roots_mono.
Qed.

(** The walk ends with as much fuel as there are nodes, and stops early at a
    cycle only. *)
Lemma walk_roots_exact order :
  NoDup order → (∀ a b, edge graph a b → a ∈ order ∧ b ∈ order) →
  ∃ r, walk_roots (length order) order (mkWalk ∅ []) = Some r ∧
    match r with inl c => real_cycle graph c ∧ ¬ acyclic graph | inr _ => acyclic graph end.
Proof.
  intros Hnd Hc.
  destruct (roots_total graph order (mkDfs ∅ [] [] []) Hnd) as [s Hs].
  { intros a b Hab. exact (proj2 (Hc a b Hab)). }
  destruct (roots_exact graph (length order) order s) as [Hreal Hac]; [|done|].
  { intros a b Hab. exact (proj1 (Hc a b Hab)). }
  apply walk_roots_follows in Hs as Hw; [|apply inv_start|done|done].
  exists (first_of s). split; [exact Hw|].
  unfold first_of, acyclic. destruct (cycles s) as [|c cs]; [by apply Hac|].
  split; [by apply Forall_cons in Hreal as [? _]|]. intros H. by apply Hac in H.
Qed.

(** The search is total and exact, in any order of the map. *)
Lemma findCycle_exact order :
  NoDup order → (∀ a b, edge graph a b → a ∈ order ∧ b ∈ order) →
  (findCycle order = None ↔ acyclic graph) ∧
  (∀ c, findCycle order = Some c → real_cycle graph c).
Proof.
  intros Hnd Hc. destruct (walk_roots_exact order Hnd Hc) as (r&Hr&Hx).
  unfold findCycle. rewrite Hr. destruct r as [c|w]; [|done].
  destruct Hx as [Hreal Hcyc]. split; [by split|]. by intros c' [= <-].
Qed.

(** ** The breadth-first search computes reachability *)

Lemma push_spec nexts region queue region' queue' :
  push nexts region queue = (region', queue') →
  ∃ new, queue' = queue ++ new ∧ NoDup new ∧ (∀ x, x ∈ new ↔ x ∈ nexts ∧ x ∉ region) ∧
    (∀ x, x ∈ region' ↔ x ∈ region ∨ x ∈ nexts).
Proof.
  unfold push. revert region queue. induction nexts as [|x nexts IH]; intros region queue; cbn [foldl].
  - intros [= <- <-]. exists []. rewrite app_nil_r. split_and!; [done|constructor|set_solver|set_solver].
  - case_bool_decide as Hx; intros H; apply IH in H as (new&->&Hnd&Hnew&Hreg).
    + exists new. split_and!; [done|done| |].
      * intros y. rewrite Hnew, elem_of_cons. naive_solver.
      * intros y. rewrite Hreg, elem_of_cons. naive_solver.
    + exists (x :: new). rewrite <- app_assoc. split_and!; [done| | |].
      * constructor; [|done]. rewrite Hnew, elem_of_union, elem_of_singleton. naive_solver.
      * intros y. rewrite !elem_of_cons, Hnew, elem_of_union, elem_of_singleton.
        destruct (decide (y = x)); naive_solver.
      * intros y. rewrite Hreg, elem_of_cons, elem_of_union, elem_of_singleton. naive_solver.
Qed.

Section Reach.
Context (nodes : gset string) (closed : ∀ a b, a ∈ nodes → edge graph a b → b ∈ nodes).

Lemma bfs_reach root fuel : ∀ region queue,
  NoDup queue → root ∈ region → (∀ x, x ∈ queue → x ∈ region) → region ⊆ nodes →
  (∀ x, x ∈ region → rtc (edge graph) root x) →
  (∀ x y, x ∈ region → x ∉ queue → edge graph x y → y ∈ region) →
  length queue + size (nodes ∖ region) ≤ fuel →
  ∃ region', bfs fuel region queue = Some region' ∧ ∀ x, x ∈ region' ↔ rtc (edge graph) root x.
Proof.
  induction fuel as [|fuel IH]; intros region [|current queue] Hnd Hroot Hq Hsub Hreach Hclosed Hfuel;
    cbn [bfs]; try (simpl in Hfuel; lia).
  1,2: eexists; split; [done|]; intros x; split; [apply Hreach|]; revert x;
    apply (rtc_ind_r (λ x, x ∈ region) root Hroot); intros y z _ Hyz Hy;
    apply (Hclosed y); [done|apply not_elem_of_nil|done].
  destruct (push (graph current) region queue) as [region' queue'] eqn:Hpush.
  apply push_spec in Hpush as (new&->&Hndn&Hnew&Hreg).
  apply NoDup_cons in Hnd as [Hcur Hnd].
  assert (∀ x, x ∈ graph current → x ∈ nodes) as Hsucc.
  { intros x Hx. apply (closed current); [|done]. apply Hsub, Hq. by left. }
  apply IH.
  - apply NoDup_app. split_and!; [done| |done]. intros x Hx Hx'. apply Hnew in Hx' as [_ Hx'].
    apply Hx', Hq. by right.
  - apply Hreg. by left.
  - intros x [Hx|Hx]%elem_of_app; apply Hreg; [left; apply Hq; by right|right; by apply Hnew].
  - intros x [Hx|Hx]%Hreg; [by apply Hsub|by apply Hsucc].
  - intros x [Hx|Hx]%Hreg; [by apply Hreach|]. eapply rtc_r; [apply (Hreach current), Hq; by left|done].
  - intros x y [Hx|Hx]%Hreg Hxq Hxy; apply Hreg.
    + destruct (decide (x = current)) as [->|Hne]; [by right|left].
      apply (Hclosed x); [done| |done]. set_solver.
    + destruct (decide (x ∈ region)) as [Hxr|Hxr].
      * destruct (decide (x = current)) as [->|Hne]; [by right|left].
        apply (Hclosed x); [done| |done]. set_solver.
      * destruct Hxq. apply elem_of_app. right. by apply Hnew.
  - simpl in Hfuel. rewrite length_app.
    assert (length new + size (nodes ∖ region') ≤ size (nodes ∖ region)); [|lia].
    assert (length new = size (list_to_set new : gset string)) as -> by by rewrite size_list_to_set.
    rewrite <- size_union.
    + apply subseteq_size. intros x. rewrite elem_of_union, elem_of_list_to_set, !elem_of_difference, Hnew, Hreg.
      intros [[Hx Hxr]|[Hx Hxr]]; [split; [by apply Hsucc|done]|naive_solver].
    + intros x. rewrite elem_of_list_to_set, elem_of_difference, Hnew, Hreg. naive_solver.
Qed.

End Reach.

End Search.
