(* ===== verification/FlowValidate.v ===== *)
(** * Validation of flow definitions ([internal/core/flow/validate.go])

    The checks in the order of the code; [None] is a nil error. The regions of
    session flows are in [FlowSession]. Parameters are the [%q] verb, the URL
    parser, and the order in which a run visits a map. *)
From S2P Require Import Prelude GoStrings GoRunes JSON Cycles FlowModel FlowContracts FlowGraph.
From Stdlib Require Import Ascii ZArith Lia SpecFloat.

Class FlowLib : Type := {
  quote : string → string;
  (** [Scheme], [Hostname()] and [User != nil] of [url.Parse]. *)
  ParseURL : string → option (string * string * bool);
}.

Record ValidationError := VE { VE_Path : string; VE_Msg : string }.

Definition VE_Error (e : ValidationError) : string :=
  if bool_decide (VE_Path e = "") then VE_Msg e else VE_Path e +:+ ": " +:+ VE_Msg e.

Abbreviation check := (option ValidationError).

(** A quoted word of a message. *)
Definition in_quotes (s : string) : string := String dquote (s +:+ String dquote "").

(** A failed check with its locator. *)
Definition reject (path msg : string) : check := Some (VE path msg).

Definition MaxTimeoutSeconds : Z := 30 * 24 * 60 * 60.
Definition MaxNetworkResponseChars : Z := Z.shiftl 64 20.
Definition MaxNodes : Z := 64.

(** ** Template references: two braces, blanks, a letter or underscore, then
    letters, digits, underscores and dots, blanks, two braces. *)

Definition re_space (a : ascii) : bool := bool_decide (a ∈ [" "; "009"; "010"; "012"; "013"]%char).
Definition ref_byte (a : ascii) : bool := ident_start a || is_digit a || is_byte "." a.

(** The longest prefix of bytes that satisfy [p], and the rest. *)
Fixpoint span (p : ascii → bool) (s : string) : string * string :=
  match s with
  | String a s' => if p a then (String a (span p s').1, (span p s').2) else ("", s)
  | "" => ("", "")
  end.

(** A match at the start of [s]: the reference and what follows. *)
Definition template_at (s : string) : option (string * string) :=
  if HasPrefix s "{{" then
    let body := (span re_space (sdrop 2 s)).2 in
    match body with
    | String a _ =>
        if ident_start a then
          let '(ref, rest) := span ref_byte body in
          let rest := (span re_space rest).2 in
          if HasPrefix rest "}}" then Some (ref, sdrop 2 rest) else None
        else None
    | "" => None
    end
  else None.

(** [FindAllStringSubmatch]: the references, from left to right. [skip] bytes
    belong to the last match. *)
Fixpoint references_from (skip : nat) (s : string) : list string :=
  match s with
  | "" => []
  | String _ s' =>
      match skip with
      | S skip => references_from skip s'
      | 0 =>
          match template_at s with
          | Some (ref, rest) => ref :: references_from (String.length s' - String.length rest) s'
          | None => references_from 0 s'
          end
      end
  end.
Definition references (s : string) : list string := references_from 0 s.

(** [workflowURLTemplate.ReplaceAllString(s, by)] *)
Fixpoint replace_from (by_ : string) (skip : nat) (s : string) : string :=
  match s with
  | "" => ""
  | String a s' =>
      match skip with
      | S skip => replace_from by_ skip s'
      | 0 =>
          match template_at s with
          | Some (_, rest) => by_ +:+ replace_from by_ (String.length s' - String.length rest) s'
          | None => String a (replace_from by_ 0 s')
          end
      end
  end.

Definition validEnvironmentVariableName (name : string) : bool :=
  match name with
  | "" => false
  | String a s => ident_start a && all_bytes (λ b, ident_start b || is_digit b) s
  end.

Definition header_rune (r : N) : bool :=
  lower_ascii r || upper_ascii r || ((48 <=? r) && (r <=? 57))%N ||
  bool_decide (r ∈ code <$> String.list_ascii_of_string "!#$%&'*+-.^_`|~").

Definition validHTTPHeaderName (name : string) : bool :=
  negb (bool_decide (name = "")) && forallb header_rune (runes name).

Section Validate.
Context {U : Unicode} {J : JSONLib} {O : MapOrder} {F : FlowLib}.

Definition normalizeKind (kind : string) : string :=
  let k := ToLower (TrimSpace kind) in
  if bool_decide (k ∈ [KindStep; KindLLM; KindDecision; KindHuman; KindBranch; KindLoop; KindFunction;
                       KindService])
  then k else "".

Definition normalizeEdgeType (t : string) : string :=
  let k := ToLower (TrimSpace t) in
  if bool_decide (k = "" ∨ k = EdgeDataDependency) then EdgeDataDependency
  else if bool_decide (k = EdgeHandoff ∨ k = EdgeCondition) then k
  else t.

(** [data_dependency] or [handoff] *)
Definition static_edge (e : Edge) : bool :=
  bool_decide (normalizeEdgeType (EdgeType e) ∈ [EdgeDataDependency; EdgeHandoff]).
Definition condition_edge (e : Edge) : bool :=
  bool_decide (normalizeEdgeType (EdgeType e) = EdgeCondition).

Definition index_path (p : string) (i : Z) : string := p +:+ "[" +:+ itoa i +:+ "]".

(** ** Variables *)

Definition var_types : list string := ["string"; "number"; "boolean"; "object"; "array"; "any"].

Definition validateVarDef (p : string) (i : Z) (v : VarDef) : check :=
  let t := ToLower (TrimSpace (V_Type v)) in
  or_else
    (if negb (bool_decide (t = "")) && negb (bool_decide (t ∈ var_types))
     then reject (index_path p i +:+ ".type") ("invalid variable type " +:+ quote (V_Type v)) else None)
    (if bool_decide (V_Schema v = "") then None
     else if negb (bool_decide (t ∈ [""; "object"; "array"; "any"]))
     then reject (index_path p i +:+ ".schema")
            ("nested schema only allowed for object/array/any, got " +:+ quote t)
     else
       let schemaPath := index_path p i +:+ ".schema" in
       match decodeSchemaDefinition (V_Schema v) schemaPath with
       | Err e => reject "" e
       | Ok None => reject schemaPath "variable schema must be a JSON object"
       | Ok (Some _) => None
       end).

Fixpoint validateVarDefs_from (p : string) (seen : list string) (i : Z) (defs : list VarDef) : check :=
  match defs with
  | [] => None
  | v :: defs =>
      let name := TrimSpace (V_Name v) in
      if bool_decide (name = "") then reject (index_path p i +:+ ".name") "variable name is required"
      else if bool_decide (name ∈ seen) then reject p ("duplicate variable " +:+ quote name)
      else or_else (validateVarDef p i v) (validateVarDefs_from p (name :: seen) (i + 1) defs)
  end.

Definition validateVarDefs (defs : list VarDef) (p : string) : check := validateVarDefs_from p [] 0 defs.

Definition validateIODecls (d : Definition_) : check :=
  or_else (validateVarDefs (Inputs d) "inputs") (validateVarDefs (D_Outputs d) "outputs").

Definition declares (outputs : list VarDef) (f : string) : bool :=
  existsb (λ v, bool_decide (TrimSpace (V_Name v) = f)) outputs.

Definition human_result (node : Node) (f : string) : bool :=
  match N_Human node with Some h => bool_decide (TrimSpace (ResultVar h) = f) | None => false end.

(** The type of a declared output, [None] when there is none. *)
Definition declaredNodeOutputType (node : Node) (f : string) : option string :=
  match find_first (λ v, bool_decide (TrimSpace (V_Name v) = f)) (N_Outputs node) with
  | Some output => Some (V_Type output)
  | None =>
      let kind := normalizeKind (N_Kind node) in
      if bool_decide (kind = KindDecision) then
        if bool_decide (f ∈ ["choice"; "question"; "error"; "model"]) then Some "string"
        else if bool_decide (f ∈ ["confidence"; "score"; "latency_ms"]) then Some "number"
        else if bool_decide (f = "calibrated") then Some "boolean"
        else if bool_decide (f = "raw") then Some "object" else None
      else if bool_decide (kind = KindBranch) then
        if bool_decide (f = "choice") then Some "string" else None
      else if bool_decide (kind = KindHuman) then if human_result node f then Some "any" else None
      else None
  end.

Definition nodeOutputsField (n : Node) (f : string) : bool :=
  declares (N_Outputs n) f ||
  let kind := normalizeKind (N_Kind n) in
  if bool_decide (kind = KindDecision) then
    bool_decide (f ∈ ["choice"; "confidence"; "calibrated"; "score"; "model"; "latency_ms"; "error"])
  else if bool_decide (kind = KindHuman) then human_result n f
  else false.

Definition flowVarDefExists (defs : list VarDef) (name : string) : bool := declares defs name.

Definition output_source (byID : gmap string Node) (i : Z) (output : VarDef) : check :=
  let source := TrimSpace (V_Source output) in
  let path := "outputs[" +:+ itoa i +:+ "].source" in
  if bool_decide (source = "") then
    if V_Required output then reject path "required flow outputs must declare a source" else None
  else
    match ParseOutputSource source with
    | None => reject path ("must use the form " +:+ in_quotes "nodes.<node_id>.outputs.<field>")
    | Some (nodeID, f) =>
        match byID !! nodeID with
        | None => reject path ("unknown output node " +:+ quote nodeID)
        | Some node =>
            match declaredNodeOutputType node f with
            | None => reject path ("node " +:+ quote nodeID +:+ " does not declare output " +:+ quote f)
            | Some sourceType =>
                let outputType := ToLower (TrimSpace (V_Type output)) in
                let sourceType := ToLower (TrimSpace sourceType) in
                if negb (bool_decide (outputType = "")) && negb (bool_decide (sourceType = ""))
                   && negb (bool_decide (sourceType = "any")) && negb (bool_decide (outputType = "any"))
                   && negb (bool_decide (outputType = sourceType))
                then reject path ("output type " +:+ quote outputType +:+ " does not match source type "
                                  +:+ quote sourceType)
                else None
            end
        end
    end.

Definition validateFlowOutputSources (d : Definition_) (byID : gmap string Node) : check :=
  first_error_from (output_source byID) 0 (D_Outputs d).

(** ** Variable references *)

Definition event_fields : list string :=
  ["flow_session_id"; "flow_id"; "version"; "source"; "source_sequence"; "sequence"; "type";
   "correlation_id"; "occurred_at"; "received_at"; "payload"].

Definition unknown_scope (p scope : string) : check :=
  reject p ("unknown variable scope " +:+ scope +:+ " (expected inputs or nodes)").

Definition validateVarRef (p : string) (inputs : list VarDef) (byID : gmap string Node)
    (allowSessionContext : bool) (expr : string) : check :=
  let expr := TrimSpace expr in
  match Split expr "." with
  | scope :: second :: rest =>
      if bool_decide (scope = "inputs") then
        if flowVarDefExists inputs second then None
        else reject p ("prompt references unknown input " +:+ quote second +:+ " (declare in flow inputs)")
      else if bool_decide (scope = "nodes") then
        match byID !! second with
        | None => reject p ("prompt references unknown node " +:+ quote second)
        | Some target =>
            match rest with
            | third :: f :: _ =>
                if negb (bool_decide (third = "outputs"))
                then reject p ("prompt variable " +:+ quote expr
                               +:+ " must reference a node output (nodes.<id>.outputs.<field>)")
                else if nodeOutputsField target f then None
                else reject p ("node " +:+ quote second +:+ " does not declare output " +:+ quote f)
            | _ => reject p ("prompt variable " +:+ quote expr
                             +:+ " must reference a node output (nodes.<id>.outputs.<field>)")
            end
        end
      else if bool_decide (scope = "event") then
        if negb allowSessionContext then unknown_scope p (in_quotes "event")
        else if bool_decide (second ∈ event_fields) then None
        else reject p ("unknown session event field " +:+ quote second)
      else if bool_decide (scope = "session") then
        if negb allowSessionContext then unknown_scope p (in_quotes "session")
        else if bool_decide (second ∈ ["id"; "state"; "version"]) then None
        else reject p ("unknown session field " +:+ quote second)
      else unknown_scope p (quote scope)
  | _ => reject p ("invalid variable reference " +:+ quote expr)
  end.

Definition validateVarRefs (prompt p : string) (d : Definition_) (byID : gmap string Node)
    (allowSessionContext : bool) : check :=
  if bool_decide (TrimSpace prompt = "") then None
  else first_error (validateVarRef p (Inputs d) byID allowSessionContext) (references prompt).

(** ** Header *)

Definition validateNetworkPolicy (np : NetworkPolicy) : check :=
  let p := ToLower (TrimSpace (Policy np)) in
  if negb (bool_decide (p ∈ [""; "allow_all"; "allowlist"]))
  then reject "network.policy" ("invalid network policy " +:+ quote (Policy np) +:+ " (allow_all|allowlist)")
  else if bool_decide (p = "allowlist") && is_nil (AllowedDomains np)
  then reject "network.allowed_domains" "allowlist policy requires at least one allowed domain"
  else if AllowPrivateHosts np && (negb (bool_decide (p = "allowlist")) || is_nil (AllowedDomains np))
  then reject "network.allow_private_hosts" "private hosts require an explicit domain allowlist"
  else if (TimeoutSeconds np <? 0)%Z || (MaxTimeoutSeconds <? TimeoutSeconds np)%Z
  then reject "network.timeout_seconds"
         ("must be between 0 and " +:+ itoa MaxTimeoutSeconds +:+ " seconds")
  else if (MaxResponseChars np <? 0)%Z || (MaxNetworkResponseChars <? MaxResponseChars np)%Z
  then reject "network.max_response_chars" ("must be between 0 and " +:+ itoa MaxNetworkResponseChars)
  else None.

Definition validateDefinitionHeader (d : Definition_) : check :=
  if bool_decide (TrimSpace (FlowID d) = "") then reject "flow_id" "missing flow_id"
  else if negb (bool_decide (ToLower (TrimSpace (ExecutionMode d)) ∈
                  [""; ExecutionModeRequest; ExecutionModeSession]))
  then reject "execution_mode"
         ("must be " +:+ quote ExecutionModeRequest +:+ " or " +:+ quote ExecutionModeSession)
  else if is_nil (Nodes d) then reject "nodes" "flow has no nodes"
  else or_else (validateIODecls d)
    (if (D_TimeoutSec d <? 0)%Z || (MaxTimeoutSeconds <? D_TimeoutSec d)%Z
     then reject "timeout_sec" ("must be between 0 and " +:+ itoa MaxTimeoutSeconds +:+ " seconds")
     else or_else
       match Network d with Some np => validateNetworkPolicy np | None => None end
       match OnComplete d with
       | Some c => if bool_decide (TrimSpace (OnComplete_URL c) = "")
                   then reject "on_complete.url" "on_complete requires a callback url" else None
       | None => None
       end).

Fixpoint index_nodes (byID : gmap string Node) (nodes : list Node) :
    result ValidationError (gmap string Node) :=
  match nodes with
  | [] => Ok byID
  | n :: nodes =>
      let id := TrimSpace (N_ID n) in
      if bool_decide (id = "") then Err (VE "nodes" "node with empty id")
      else match byID !! id with
           | Some _ => Err (VE "nodes" ("duplicate node id " +:+ quote id))
           | None => index_nodes (<[id := n]> byID) nodes
           end
  end.

Definition indexDefinitionNodes (d : Definition_) : result ValidationError (gmap string Node) :=
  index_nodes ∅ (Nodes d).

(** ** Conditions *)

Definition num_ops : list string := ["gt"; "gte"; "lt"; "lte"; "eq"].
Definition field_ops : list string :=
  ["eq"; "ne"; "in"; "not_in"; "contains"; "gt"; "gte"; "lt"; "lte"].

Fixpoint validateCondition (byID : gmap string Node) (c : Condition) (p : string) {struct c} : check :=
  match c with
  | mkCondition _ _ node _ confidence output not_ all_ any_ =>
      or_else
        (if negb (bool_decide (node = "")) && is_None (byID !! TrimSpace node)
         then reject p ("condition targets unknown node " +:+ quote node) else None)
      (or_else
        match confidence with
        | Some n => if bool_decide (Num_Op n ∈ num_ops) then None
                    else reject (p +:+ ".confidence") ("invalid numeric op " +:+ quote (Num_Op n))
        | None => None
        end
      (or_else
        match output with
        | Some f => if negb (bool_decide (F_Op f ∈ field_ops))
                    then reject (p +:+ ".output") ("invalid field op " +:+ quote (F_Op f))
                    else if bool_decide (TrimSpace (F_Path f) = "")
                    then reject (p +:+ ".output") "output predicate requires a path" else None
        | None => None
        end
      (or_else
        match not_ with Some c => validateCondition byID c (p +:+ ".not") | None => None end
      (or_else
        (first_error_from (λ i sub, validateCondition byID sub (p +:+ ".all[" +:+ itoa i +:+ "]")) 0 all_)
        (first_error_from (λ i sub, validateCondition byID sub (p +:+ ".any[" +:+ itoa i +:+ "]")) 0 any_)))))
  end.

(** ** Specs of the node kinds *)

Definition validateRetry (r : RetryPolicy) (p : string) : check :=
  if (MaxAttempts r <? 1)%Z
  then reject (p +:+ ".retry") ("max_attempts must be >= 1, got " +:+ itoa (MaxAttempts r))
  else if (InitialIntervalMS r <? 0)%Z || (MaxIntervalMS r <? 0)%Z
          || SFltb (Jitter r) fzero || SFltb fone (Jitter r)
  then reject (p +:+ ".retry") "interval/jitter values out of range"
  else None.

Fixpoint decision_choices (p : string) (seen : list string) (choices : list Choice) : check :=
  match choices with
  | [] => None
  | c :: choices =>
      let id := TrimSpace (Choice_ID c) in
      if bool_decide (id = "") then reject (p +:+ ".decision") "choice with empty id"
      else if bool_decide (id ∈ seen) then reject (p +:+ ".decision") ("duplicate choice id " +:+ quote id)
      else decision_choices p (id :: seen) choices
  end.

Definition validateDecision (s : DecisionSpec) (p : string) : check :=
  let dt := ToLower (TrimSpace (DecisionType s)) in
  let dt := if bool_decide (dt = "") then "choice" else dt in
  if negb (bool_decide (dt ∈ ["choice"; "boolean"; "score"]))
  then reject (p +:+ ".decision") ("invalid decision_type " +:+ quote (DecisionType s))
  else or_else
    (if bool_decide (dt = "choice") then
       if is_nil (Choices s) then reject (p +:+ ".decision") "choice decision requires at least one choice"
       else decision_choices p [] (Choices s)
     else None)
    (let oe := ToLower (TrimSpace (OnError s)) in
     if negb (bool_decide (oe ∈ [""; "fail_closed"; "fail_open"; "fail"]))
     then reject (p +:+ ".decision") ("invalid on_error " +:+ quote (OnError s))
     else if bool_decide (oe = "fail_open") && bool_decide (TrimSpace (DefaultChoice s) = "")
     then reject (p +:+ ".decision") "on_error=fail_open requires default_choice"
     else None).

Definition humanOnTimeoutFail : string := "fail".
Definition humanOnTimeoutLLM : string := "llm".
Definition humanOnTimeoutEscalate : string := "escalate".

Definition normalizeHumanOnTimeout (v : string) : string :=
  let v := ToLower (TrimSpace v) in
  if HasPrefix v humanOnTimeoutEscalate then
    let target := TrimPrefix (TrimSpace (TrimPrefix v humanOnTimeoutEscalate)) ":" in
    if negb (bool_decide (TrimSpace target = ""))
    then humanOnTimeoutEscalate +:+ ":" +:+ TrimSpace target else humanOnTimeoutEscalate
  else v.

Definition validateHuman (s : HumanSpec) (p : string) : check :=
  if bool_decide (TrimSpace (Queue s) = "") then reject (p +:+ ".human") "human spec missing queue"
  else if (H_TimeoutMS s <? 0)%Z then reject (p +:+ ".human") "human timeout_ms must not be negative"
  else
    let ot := normalizeHumanOnTimeout (OnTimeout s) in
    if bool_decide (ot ∈ [""; humanOnTimeoutFail; humanOnTimeoutLLM]) then None
    else if bool_decide (ot = humanOnTimeoutEscalate)
    then reject (p +:+ ".human") "human on_timeout escalate requires a target queue (escalate:<queue>)"
    else if HasPrefix ot (humanOnTimeoutEscalate +:+ ":") then None
    else reject (p +:+ ".human")
           ("invalid on_timeout " +:+ quote (OnTimeout s) +:+ " (want fail|llm|escalate:<queue>)").

Definition validateBranch (b : BranchSpec) (p : string) (byID : gmap string Node) : check :=
  if is_nil (B_Cases b) then reject (p +:+ ".branch") "branch requires at least one case"
  else or_else
    (first_error_from (λ i c,
       let cp := p +:+ ".branch.cases[" +:+ itoa i +:+ "]" in
       if is_None (byID !! TrimSpace (Case_To c))
       then reject cp ("branch case targets unknown node " +:+ quote (Case_To c))
       else if ConditionEmpty (Case_Condition c) then reject cp "branch case requires a condition"
       else validateCondition byID (Case_Condition c) cp) 0 (B_Cases b))
    (if is_None (byID !! TrimSpace (B_DefaultTo b))
     then reject (p +:+ ".branch") ("branch default_to unknown node " +:+ quote (B_DefaultTo b)) else None).

Definition validateLoop (l : LoopSpec) (p : string) (byID : gmap string Node) : check :=
  if is_nil (Body l) then reject (p +:+ ".loop") "loop requires a non-empty body"
  else or_else
    (first_error (λ id,
       if is_None (byID !! TrimSpace id)
       then reject (p +:+ ".loop") ("loop body references unknown node " +:+ quote id) else None) (Body l))
    (if ConditionEmpty (ExitWhen l) then reject (p +:+ ".loop") "loop requires exit_when condition"
     else or_else (validateCondition byID (ExitWhen l) (p +:+ ".loop"))
       (if (L_MaxIterations l <? 1)%Z
        then reject (p +:+ ".loop") ("loop max_iterations must be >= 1, got " +:+ itoa (L_MaxIterations l))
        else None)).

Definition function_schema (p : string) (schema : string * string) : check :=
  match decodeSchemaDefinition schema.2 (p +:+ ".function." +:+ schema.1) with
  | Err e => reject (p +:+ ".function." +:+ schema.1) e
  | Ok _ => None
  end.

Definition validateFunction (f : option FunctionSpec) (p : string) : check :=
  match f with
  | None => reject p "function node missing function spec"
  | Some f =>
      let runtime := ToLower (TrimSpace (Runtime f)) in
      or_else
        (if bool_decide (runtime = FunctionRuntimeJS) then
           if bool_decide (TrimSpace (F_Source f) = "")
           then reject (p +:+ ".function") "js function node requires source" else None
         else if bool_decide (runtime = FunctionRuntimeWasm) then
           if bool_decide (TrimSpace (Ref f) = "")
           then reject (p +:+ ".function") "wasm function node requires a node-library ref" else None
         else reject (p +:+ ".function")
                ("unknown function runtime " +:+ quote (Runtime f) +:+ " (js|wasm)"))
        (first_error (function_schema p)
           [("input_schema", InputSchema f); ("output_schema", OutputSchema f)])
  end.

(** ** Service nodes *)

Definition isServiceTransportHeader (name : string) : bool :=
  bool_decide (ToLower (TrimSpace name) ∈
    ["connection"; "content-length"; "host"; "keep-alive"; "proxy-connection"; "te"; "trailer";
     "transfer-encoding"; "upgrade"]).

Fixpoint service_headers (path : string) (seen : list string) (headers : list (string * string)) : check :=
  match headers with
  | [] => None
  | (name, v) :: headers =>
      let lowerName := ToLower name in
      if negb (validHTTPHeaderName name)
      then reject (path +:+ ".headers") ("invalid header name " +:+ quote name)
      else if bool_decide (lowerName ∈ seen)
      then reject (path +:+ ".headers") ("duplicate header name " +:+ quote name)
      else if negb (all_bytes (λ a, negb (is_byte "010" a || is_byte "013" a)) v)
      then reject (path +:+ ".headers." +:+ name) "header value must not contain newlines"
      else if bool_decide (lowerName ∈ ["authorization"; "proxy-authorization"; "x-api-key"])
      then reject (path +:+ ".headers." +:+ name) "use service.auth environment reference for credentials"
      else if isServiceTransportHeader lowerName
      then reject (path +:+ ".headers." +:+ name) "transport-managed header is not allowed"
      else service_headers path (lowerName :: seen) headers
  end.

Definition service_auth (path : string) (seenHeaders : list string) (auth : ServiceAuthSpec) : check :=
  let authType := ToLower (TrimSpace (Auth_Type auth)) in
  let headerName := ToLower (TrimSpace (HeaderName auth)) in
  if negb (validEnvironmentVariableName (TrimSpace (TokenEnv auth)))
  then reject (path +:+ ".auth.token_env") "must be a valid environment variable name"
  else if bool_decide (authType = "bearer") then
    if negb (bool_decide (TrimSpace (HeaderName auth) = ""))
    then reject (path +:+ ".auth.header_name") "is only valid for api_key authentication" else None
  else if bool_decide (authType = "api_key") then
    if negb (validHTTPHeaderName (HeaderName auth))
    then reject (path +:+ ".auth.header_name") "must be a valid HTTP header name"
    else if bool_decide (headerName ∈ ["authorization"; "proxy-authorization"])
            || isServiceTransportHeader headerName
    then reject (path +:+ ".auth.header_name") "must not override an authorization transport header"
    else if bool_decide (headerName ∈ seenHeaders)
    then reject (path +:+ ".auth.header_name") "must not duplicate a service header" else None
  else reject (path +:+ ".auth.type") "must be bearer or api_key".

Definition validateServiceSpec (spec : option ServiceSpec) (path : string) : check :=
  match spec with
  | None => reject path "service node missing service spec"
  | Some spec =>
      let rawURL := TrimSpace (URL spec) in
      if negb (bool_decide (ToUpper (TrimSpace (Method spec)) ∈ ["GET"; "POST"; "PUT"; "PATCH"; "DELETE"]))
      then reject (path +:+ ".method") "must be GET, POST, PUT, PATCH, or DELETE"
      else if bool_decide (rawURL = "") then reject (path +:+ ".url") "service URL is required"
      else if match ParseURL (replace_from "godex-value" 0 rawURL) with
              | Some (scheme, hostname, user) =>
                  negb (bool_decide (scheme ∈ ["http"; "https"])) || bool_decide (hostname = "") || user
              | None => true
              end
      then reject (path +:+ ".url") "must be an absolute http or https URL without userinfo"
      else or_else (service_headers path [] (Prelude.visit (Headers spec)))
        (if negb (bool_decide (S_Body spec = "")) && negb (Valid (S_Body spec))
         then reject (path +:+ ".body") "must be valid JSON"
         else match Auth spec with
              | None => None
              | Some auth => service_auth path (ToLower <$> (Prelude.visit (Headers spec)).*1) auth
              end)
  end.

Definition ValidateServiceSpec (spec : option ServiceSpec) : check := validateServiceSpec spec "service".

Section Refs.
Context (refs : string → string → check).

(** [visit] over a decoded body: every string in it is checked. *)
Fixpoint body_refs (v : json) (path : string) : check :=
  match v with
  | JString s => refs s path
  | JObject fields => first_error (λ '(key, child), body_refs child (path +:+ "." +:+ key)) fields
  | JArray l => first_error_from (λ i child, body_refs child (path +:+ "[" +:+ itoa i +:+ "]")) 0 l
  | _ => None
  end.
End Refs.

Definition session_mode (d : Definition_) : bool :=
  bool_decide (EffectiveExecutionMode (ExecutionMode d) = ExecutionModeSession).

Definition validateServiceVarRefs (spec : ServiceSpec) (path : string) (d : Definition_)
    (byID : gmap string Node) : check :=
  let refs := λ text p, validateVarRefs text p d byID (session_mode d) in
  or_else (refs (URL spec) (path +:+ ".url"))
  (or_else (first_error (λ '(name, v), refs v (path +:+ ".headers." +:+ name)) (Prelude.visit (Headers spec)))
    (if bool_decide (S_Body spec = "") then None
     else match Unmarshal_any (S_Body spec) with
          | Err _ => reject (path +:+ ".body") "must be valid JSON"
          | Ok body => body_refs refs body (path +:+ ".body")
          end)).

(** ** Nodes *)

Definition validateNodeKindSpec (n : Node) (kind path : string) (d : Definition_) (byID : gmap string Node) :
    check :=
  if bool_decide (kind = KindDecision) then
    match N_Decision n with
    | None => reject path "decision node missing decision spec"
    | Some s => validateDecision s path
    end
  else if bool_decide (kind = KindHuman) then
    match N_Human n with
    | None => reject path "human node missing human spec"
    | Some s => validateHuman s path
    end
  else if bool_decide (kind = KindBranch) then
    match N_Branch n with
    | None => reject path "branch node missing branch spec"
    | Some b => validateBranch b path byID
    end
  else if bool_decide (kind = KindLoop) then
    match N_Loop n with
    | None => reject path "loop node missing loop spec"
    | Some l => validateLoop l path byID
    end
  else if bool_decide (kind = KindFunction) then validateFunction (N_Function n) path
  else if bool_decide (kind = KindService) then
    or_else (validateServiceSpec (N_Service n) (path +:+ ".service"))
      match N_Service n with
      | Some spec => validateServiceVarRefs spec (path +:+ ".service") d byID
      | None => None
      end
  else None.

Definition validateStaticNode (d : Definition_) (byID : gmap string Node) (n : Node) : check :=
  let p := "nodes[" +:+ N_ID n +:+ "]" in
  let kind := normalizeKind (N_Kind n) in
  if bool_decide (kind = "") then reject p ("unknown node kind " +:+ quote (N_Kind n))
  else if (N_TimeoutSec n <? 0)%Z || (MaxTimeoutSeconds <? N_TimeoutSec n)%Z
  then reject (p +:+ ".timeout_sec") ("must be between 0 and " +:+ itoa MaxTimeoutSeconds +:+ " seconds")
  else if (0 <? N_TimeoutSec n)%Z && bool_decide (kind ∈ [KindBranch; KindLoop])
  then reject (p +:+ ".timeout_sec") "timeouts are not supported on branch and loop control nodes"
  else if negb (bool_decide (kind ∈ [KindBranch; KindLoop; KindFunction; KindService]))
          && bool_decide (TrimSpace (N_Prompt n) = "")
  then reject p "node requires prompt (branch/loop nodes carry cases/exit instead)"
  else
    or_else match N_Retry n with Some r => validateRetry r p | None => None end
    (or_else (validateVarDefs (N_Outputs n) (p +:+ ".outputs"))
    (or_else (validateVarRefs (N_Prompt n) (p +:+ ".prompt") d byID (session_mode d))
      (validateNodeKindSpec n kind p d byID))).

Definition validateStaticNodes (d : Definition_) (byID : gmap string Node) : check :=
  first_error (validateStaticNode d byID) (Nodes d).

(** ** Edges *)

(** The check of one edge, without what it adds to the graph. *)
Definition validateDependencyEdge (byID : gmap string Node) (e : Edge) : check :=
  let path := "edges[" +:+ E_ID e +:+ "]" in
  let t := normalizeEdgeType (EdgeType e) in
  if is_None (byID !! From e) then reject path ("edge from unknown node " +:+ quote (From e))
  else if is_None (byID !! To e) then reject path ("edge to unknown node " +:+ quote (To e))
  else if bool_decide (t ∈ [EdgeDataDependency; EdgeHandoff]) then
    match When e with
    | Some c => if ConditionEmpty c then None
                else reject path "data_dependency/handoff edges must not carry a when predicate"
    | None => None
    end
  else if bool_decide (t = EdgeCondition) then
    match When e with
    | Some c => if ConditionEmpty c then reject path "condition edge requires a when predicate"
                else validateCondition byID c path
    | None => reject path "condition edge requires a when predicate"
    end
  else reject path ("unknown edge type " +:+ quote (EdgeType e)).

(** [depGraph[e.To] = append(depGraph[e.To], e.From)] for a static edge. *)
Definition add_dependency (g : gmap string (list string)) (e : Edge) : gmap string (list string) :=
  if static_edge e then <[To e := default [] (g !! To e) ++ [From e]]> g else g.

Definition depGraph (d : Definition_) (byID : gmap string Node) : gmap string (list string) :=
  foldl add_dependency ((λ _, []) <$> byID) (Edges d).

Definition graph_of (g : gmap string (list string)) (id : string) : list string := default [] (g !! id).

Definition validateDependencyEdges (d : Definition_) (byID : gmap string Node) : check :=
  or_else (first_error (validateDependencyEdge byID) (Edges d))
    (let g := depGraph d byID in
     match findCycle (graph_of g) (Prelude.visit g).*1 with
     | Some cycle => reject "edges" ("dependency cycle: " +:+ Join cycle " -> ")
     | None => None
     end).

(** ** Size *)

Fixpoint expanded_nodes (expanded : Z) (nodes : list Node) : Z :=
  match nodes with
  | [] => expanded
  | n :: nodes =>
      let expanded := wrap64 (expanded + 1) in
      expanded_nodes
        match N_Loop n with
        | Some l =>
            if (0 <? L_MaxIterations l)%Z
            then wrap64 (expanded + wrap64 (L_MaxIterations l * Z.of_nat (length (Body l)))) else expanded
        | None => expanded
        end nodes
  end.

Definition validateExpandedNodeLimit (d : Definition_) : check :=
  let expanded := expanded_nodes 0 (Nodes d) in
  if (MaxNodes <? expanded)%Z
  then reject "nodes" ("worst-case expanded node count " +:+ itoa expanded +:+ " exceeds cap "
                       +:+ itoa MaxNodes)
  else None.

End Validate.
