(* ===== verification/FlowSession.v ===== *)
(** * Session flows ([internal/core/flow/validate.go])

    The region of a trigger is what its entry reaches over static edges; a
    route of a branch adds the chain of nodes its target reaches. The maps the
    checks of one region share ([branchTargetOwners], [branchChainOwners],
    [sessionRegionNodes]) are the state [claims], the sets the triggers share
    are the state [taken]. *)
From S2P Require Import Prelude GoStrings GoRunes JSON Cycles FlowModel FlowContracts FlowGraph FlowValidate.
From Stdlib Require Import Ascii ZArith Lia.

Definition branchDefaultRoute : string := "default".

Section Session.
Context {U : Unicode} {J : JSONLib} {O : MapOrder} {F : FlowLib}.

(** The keys of a set, in the order of this run. *)
Definition visit_set (s : gset string) : list string := (Prelude.visit (gset_to_gmap () s)).*1.

(** ** Lanes and triggers *)

Definition lane_char (r : N) : bool :=
  (r =? 95)%N || (r =? 45)%N || (r =? 46)%N
  || ((97 <=? r) && (r <=? 122))%N || ((65 <=? r) && (r <=? 90))%N || ((48 <=? r) && (r <=? 57))%N.

Definition day_ms : Z := 24 * 60 * 60 * 1000.
Definition outside (lo hi z : Z) : bool := (z <? lo)%Z || (hi <? z)%Z.

Definition validateSessionLane (lane : SessionLane) (path : string) : result ValidationError string :=
  let id := TrimSpace (Lane_ID lane) in
  if bool_decide (id = "") || (64 <? String.length id)%nat
  then Err (VE (path +:+ ".id") "must be between 1 and 64 characters")
  else if negb (forallb lane_char (runes id))
  then Err (VE (path +:+ ".id") "may contain only letters, numbers, _, - and .")
  else
    let cadence := ToLower (TrimSpace (Cadence lane)) in
    let cadence := if bool_decide (cadence = "") then SessionLaneCadenceEvent else cadence in
    match
      or_else
        (if bool_decide (cadence = SessionLaneCadenceEvent) then
           if negb (IntervalMS lane =? 0)%Z
           then reject (path +:+ ".interval_ms") "is only valid for periodic or hybrid cadence" else None
         else if bool_decide (cadence ∈ [SessionLaneCadencePeriodic; SessionLaneCadenceHybrid]) then
           if outside 10 day_ms (IntervalMS lane)
           then reject (path +:+ ".interval_ms") "must be between 10 and 86400000 milliseconds" else None
         else reject (path +:+ ".cadence")
                ("must be " +:+ in_quotes "event" +:+ ", " +:+ in_quotes "periodic" +:+ " or " +:+ in_quotes "hybrid"))
        (if outside 10 day_ms (DeadlineMS lane)
         then reject (path +:+ ".deadline_ms") "must be between 10 and 86400000 milliseconds"
         else if negb (bool_decide (ToLower (TrimSpace (Class_ lane)) ∈
                         [""; SessionLaneClassFast; SessionLaneClassStandard; SessionLaneClassSlow]))
         then reject (path +:+ ".class")
                ("must be " +:+ in_quotes "fast" +:+ ", " +:+ in_quotes "standard" +:+ " or " +:+ in_quotes "slow")
         else if negb (bool_decide (ToLower (TrimSpace (OverloadPolicy lane)) ∈
                         [""; SessionLaneOverloadCoalesceLatest; SessionLaneOverloadDropNewest]))
         then reject (path +:+ ".overload_policy")
                ("must be " +:+ in_quotes "coalesce_latest" +:+ " or " +:+ in_quotes "drop_newest")
         else None)
    with
    | Some e => Err e
    | None => Ok id
    end.

Definition validateSessionLaneTriggerCompatibility (lane : SessionLane) (trigger : SessionTrigger)
    (path : string) : check :=
  let latest_wins := bool_decide (EffectiveSessionDelivery (Delivery trigger) = SessionDeliveryLatestWins) in
  if bool_decide (ToLower (TrimSpace (Cadence lane)) ∈ [SessionLaneCadencePeriodic; SessionLaneCadenceHybrid])
     && negb latest_wins
  then reject (path +:+ ".delivery") "periodic and hybrid lanes require latest_wins delivery"
  else if EqualFold (TrimSpace (OverloadPolicy lane)) SessionLaneOverloadDropNewest && negb latest_wins
  then reject (path +:+ ".lane_id") "drop_newest overload requires latest_wins delivery"
  else None.

(** ** Regions *)

(** [incoming[id]] and [outgoing[id]]: the maps built from the edges. *)
Definition incoming (edges : list Edge) (id : string) : list string :=
  From <$> filter (λ e, condition_edge e = false ∧ To e = id) edges.
Definition outgoing (edges : list Edge) (id : string) : list string :=
  To <$> filter (λ e, condition_edge e = false ∧ From e = id) edges.

(** What [root] reaches; the fuel is enough ([route_chain_reach]). *)
Definition sessionRouteChain (edges : list Edge) (root : string) : gset string :=
  default ∅ (bfs (outgoing edges) (S (length edges)) {[root]} [root]).

Definition buildSessionRegionGraph (d : Definition_) (entryID path : string) :
    result ValidationError (gset string) :=
  if is_nil (incoming (Edges d) entryID) then Ok (sessionRouteChain (Edges d) entryID)
  else Err (VE (path +:+ ".entry_node") "must not have incoming data_dependency or handoff edges").

Definition inline_js (f : option FunctionSpec) : bool :=
  match f with
  | Some f => EqualFold (TrimSpace (Runtime f)) FunctionRuntimeJS && bool_decide (TrimSpace (Ref f) = "")
  | None => false
  end.
Definition no_scripts (n : Node) : bool :=
  bool_decide (TrimSpace (N_PreScript n) = "") && bool_decide (TrimSpace (N_PostScript n) = "").

(** The checks of a node that runs in a session, with the words of the three
    callers: [who] begins the messages of a node, LLM and Agent node,
    [service] and [branch] are the checks of those two kinds. *)
Definition session_node (who llm agent tail : string) (service branch : check)
    (node : Node) (nodeID path delivery : string) : check :=
  let kind := normalizeKind (N_Kind node) in
  or_else
    (if bool_decide (kind = KindFunction) then
       if inline_js (N_Function node) then None
       else reject path (who +:+ quote nodeID +:+ " must be an inline JavaScript function")
     else if bool_decide (kind = KindService) then service
     else if bool_decide (kind = KindLLM) then
       if is_nil (N_Outputs node) then reject path (llm +:+ quote nodeID +:+ " must declare outputs") else None
     else if bool_decide (kind = KindStep) then
       if negb (bool_decide (delivery = SessionDeliveryDurable))
       then reject path (agent +:+ quote nodeID +:+ " requires durable event delivery")
       else if is_nil (N_Outputs node) then reject path (agent +:+ quote nodeID +:+ " must declare outputs")
       else None
     else if bool_decide (kind = KindBranch) then branch
     else reject path (who +:+ quote nodeID +:+ " has unsupported kind " +:+ quote kind +:+ tail))
    (if no_scripts node then None
     else reject path (who +:+ quote nodeID +:+ " must not use pre_script or post_script")).

Definition rejectSessionRegionAppendTarget (d : Definition_) (byID : gmap string Node)
    (nodeID path : string) : check :=
  let branch_target := reject path ("region node " +:+ quote nodeID +:+ " cannot be a branch append target") in
  let loop_target := reject path ("region node " +:+ quote nodeID +:+ " cannot be a loop append target") in
  or_else
    (first_error (λ owner,
       let kind := normalizeKind (N_Kind owner) in
       if bool_decide (kind = KindBranch) then
         match N_Branch owner with
         | None => None
         | Some b => if bool_decide (nodeID ∈ Case_To <$> B_Cases b) then branch_target
                     else if bool_decide (B_DefaultTo b = nodeID) then branch_target else None
         end
       else if bool_decide (kind = KindLoop) then
         match N_Loop owner with
         | None => None
         | Some l => if bool_decide (nodeID ∈ Body l) then loop_target else None
         end
       else None) (Nodes d))
    (first_error (λ e,
       let from := default no_node (byID !! From e) in
       if negb (bool_decide (N_ID from = "")) && bool_decide (normalizeKind (N_Kind from) = KindLoop)
          && bool_decide (To e = nodeID)
       then loop_target else None) (Edges d)).

Definition validateSessionRegionNode (d : Definition_) (byID : gmap string Node) (region : gset string)
    (nodeID path delivery : string) : check :=
  let node := default no_node (byID !! nodeID) in
  or_else
    (session_node "region node " "region LLM node " "region Agent node "
       "; session runtime supports function, service, LLM, durable Agent, and branch nodes"
       (if is_None (N_Service node)
        then reject path ("region node " +:+ quote nodeID +:+ " must have a service configuration") else None)
       (if is_None (N_Branch node)
        then reject path ("region branch node " +:+ quote nodeID +:+ " must have a branch configuration")
        else None)
       node nodeID path delivery)
  (or_else
    (first_error (λ source,
       if bool_decide (source ∈ region) then None
       else reject path ("region node " +:+ quote nodeID +:+ " depends on node " +:+ quote source
                         +:+ " outside its trigger region")) (incoming (Edges d) nodeID))
    (rejectSessionRegionAppendTarget d byID nodeID path)).

Definition validateSessionRegionNodes (d : Definition_) (byID : gmap string Node) (region : gset string)
    (path delivery : string) : check :=
  first_error (λ nodeID, validateSessionRegionNode d byID region nodeID path delivery) (visit_set region).

(** ** Branch routes *)

Definition validateSessionBranchTarget (target : Node) (targetID path delivery : string) : check :=
  session_node "branch route target " "branch route LLM node " "branch route Agent node " "" None
    (reject path ("branch route target " +:+ quote targetID +:+ " has unsupported kind " +:+ quote KindBranch))
    target targetID path delivery.

Definition validateSessionRouteChainNode (node : Node) (nodeID path delivery : string) : check :=
  session_node "branch route chain node " "branch route chain LLM node " "branch route chain Agent node " ""
    (if is_None (N_Service node)
     then reject path ("branch route chain node " +:+ quote nodeID +:+ " must have a service configuration")
     else None)
    (reject path ("nested branch node " +:+ quote nodeID +:+ " is not supported in a branch route chain"))
    node nodeID path delivery.

Definition session_route (c : BranchCase) : string :=
  let route := TrimSpace (Case_Name c) in
  if bool_decide (route = "") then TrimSpace (Case_To c) else route.

(** The targets of the cases, then the default. *)
Fixpoint case_targets (branchID path : string) (seenRoutes : list string) (cases : list BranchCase) :
    result ValidationError (list string) :=
  match cases with
  | [] => Ok []
  | c :: cases =>
      let route := session_route c in
      if bool_decide (route = branchDefaultRoute)
      then Err (VE path ("branch node " +:+ quote branchID +:+ " case name " +:+ quote branchDefaultRoute
                         +:+ " is reserved"))
      else if bool_decide (route ∈ seenRoutes)
      then Err (VE path ("branch node " +:+ quote branchID +:+ " has duplicate route " +:+ quote route))
      else match case_targets branchID path (route :: seenRoutes) cases with
           | Ok targets => Ok (TrimSpace (Case_To c) :: targets)
           | Err e => Err e
           end
  end.

Definition sessionBranchTargetIDs (branchID : string) (branch : BranchSpec) (path : string) :
    result ValidationError (list string) :=
  match case_targets branchID path [] (B_Cases branch) with
  | Ok targets => Ok (targets ++ [TrimSpace (B_DefaultTo branch)])
  | Err e => Err e
  end.

(** The maps shared by the branches of one region. *)
Record claims := mkClaims {
  branchTargetOwners : gmap string string;
  branchChainOwners : gmap string string;
  sessionRegionNodes : gset string;
}.

Definition claim := M claims ValidationError.

Definition claimSessionBranchTarget (branchID targetID path : string) : claim unit :=
  owners ← gets branchTargetOwners;
  require match owners !! targetID with
          | Some owner =>
              if bool_decide (owner = branchID) then None
              else reject path ("branch route target " +:+ quote targetID +:+ " is shared by branch nodes "
                                +:+ quote owner +:+ " and " +:+ quote branchID)
          | None => None
          end;;
  update (λ s, mkClaims (<[targetID := branchID]> (branchTargetOwners s)) (branchChainOwners s)
                 (sessionRegionNodes s)).

Definition claimSessionBranchChain (branchID : string) (chain : gset string) (path : string) : claim unit :=
  each (λ nodeID,
    owners ← gets branchChainOwners;
    require match owners !! nodeID with
            | Some owner =>
                if bool_decide (owner = branchID) then None
                else reject path ("branch route chains share downstream node " +:+ quote nodeID)
            | None => None
            end;;
    update (λ s, mkClaims (branchTargetOwners s) (<[nodeID := branchID]> (branchChainOwners s))
                   ({[nodeID]} ∪ sessionRegionNodes s))) (visit_set chain).

(** [routeChains] holds the chain of every target of the branch. *)
Definition sessionBranchSiblingSuppliesInput (edges : list Edge) (targetID nodeID source : string)
    (targetIDs : list string) : bool :=
  existsb (λ siblingTargetID,
    negb (bool_decide (siblingTargetID = targetID))
    && bool_decide (nodeID ∈ sessionRouteChain edges siblingTargetID)
    && bool_decide (source ∈ sessionRouteChain edges siblingTargetID)) (TrimSpace <$> targetIDs).

Definition validateSessionBranchDependencies (d : Definition_) (byID : gmap string Node)
    (region : gset string) (targetIDs : list string) (path delivery : string) : check :=
  first_error (λ targetID,
    let targetID := TrimSpace targetID in
    let chain := sessionRouteChain (Edges d) targetID in
    first_error (λ nodeID,
      or_else
        (if bool_decide (nodeID = targetID) then None
         else validateSessionRouteChainNode (default no_node (byID !! nodeID)) nodeID path delivery)
        (first_error (λ source,
           if bool_decide (source ∈ region) || bool_decide (source ∈ chain)
              || sessionBranchSiblingSuppliesInput (Edges d) targetID nodeID source targetIDs
           then None
           else reject path ("branch route chain node " +:+ quote nodeID +:+ " depends on node " +:+ quote source
                             +:+ " outside its selected route")) (incoming (Edges d) nodeID)))
      (visit_set chain)) targetIDs.

Section BranchTargets.
Context (d : Definition_) (byID : gmap string Node) (branchID path delivery : string).

(** The loop over the targets; [seen] are the validated ones. *)
Fixpoint branch_targets (seen targetIDs : list string) : claim unit :=
  match targetIDs with
  | [] => mret tt
  | targetID :: targetIDs =>
      claimSessionBranchTarget branchID targetID path;;
      require (validateSessionBranchTarget (default no_node (byID !! targetID)) targetID path delivery);;
      if bool_decide (targetID ∈ seen) then branch_targets seen targetIDs
      else claimSessionBranchChain branchID (sessionRouteChain (Edges d) targetID) path;;
           branch_targets (targetID :: seen) targetIDs
  end.

End BranchTargets.

Definition validateSessionBranchNode (d : Definition_) (byID : gmap string Node) (region : gset string)
    (branchID : string) (branch : BranchSpec) (path delivery : string) : claim unit :=
  match sessionBranchTargetIDs branchID branch path with
  | Err e => throw e
  | Ok targetIDs =>
      branch_targets d byID branchID path delivery [] targetIDs;;
      require (validateSessionBranchDependencies d byID region targetIDs path delivery)
  end.

Definition validateSessionBranchRoutes (d : Definition_) (byID : gmap string Node) (region : gset string)
    (path delivery : string) : claim unit :=
  each (λ branchID,
    let branchNode := default no_node (byID !! branchID) in
    if bool_decide (normalizeKind (N_Kind branchNode) = KindBranch) then
      match N_Branch branchNode with
      | Some b => validateSessionBranchNode d byID region branchID b path delivery
      | None => mret tt
      end
    else mret tt) (visit_set region).

Definition validateSessionRegionConditionEdges (edges : list Edge) (nodes : gset string) (path : string) :
    check :=
  first_error (λ e,
    if condition_edge e && (bool_decide (From e ∈ nodes) || bool_decide (To e ∈ nodes))
    then reject path "session regions do not support condition edges" else None) edges.

Definition validateSessionRegion (d : Definition_) (byID : gmap string Node)
    (entryID path delivery : string) : check :=
  match buildSessionRegionGraph d entryID path with
  | Err e => Some e
  | Ok region =>
      or_else (validateSessionRegionNodes d byID region path delivery)
        match validateSessionBranchRoutes d byID region path delivery (mkClaims ∅ ∅ region) with
        | (_, Err e) => Some e
        | (s, Ok _) => validateSessionRegionConditionEdges (Edges d) (sessionRegionNodes s) path
        end
  end.

(** ** The session workflow *)

(** [seenEvents] and [seenLanes] *)
Record taken := mkTaken { seenEvents : gset string; seenLanes : gset string }.

Definition validateSessionTrigger (d : Definition_) (byID : gmap string Node)
    (lanesByID : gmap string SessionLane) (trigger : SessionTrigger) (path : string) :
    M taken ValidationError unit :=
  let eventType := TrimSpace (EventType trigger) in
  let entryID := TrimSpace (EntryNode trigger) in
  let laneID := TrimSpace (LaneID trigger) in
  let delivery := ToLower (TrimSpace (Delivery trigger)) in
  if bool_decide (eventType = "") || (128 <? String.length eventType)%nat
  then throw (VE (path +:+ ".event_type") "must be between 1 and 128 characters")
  else
    events ← gets seenEvents;
    require (if bool_decide (eventType ∈ events)
             then reject (path +:+ ".event_type") ("duplicate trigger for event type " +:+ quote eventType)
             else None);;
    update (λ s, mkTaken ({[eventType]} ∪ seenEvents s) (seenLanes s));;
    require (if bool_decide (entryID = "") then reject (path +:+ ".entry_node") "is required"
             else if is_None (byID !! entryID)
             then reject (path +:+ ".entry_node") ("unknown node " +:+ quote entryID)
             else if negb (bool_decide (delivery ∈ [""; SessionDeliveryDurable; SessionDeliveryLatestWins]))
             then reject (path +:+ ".delivery")
                    ("must be " +:+ in_quotes "durable" +:+ " or " +:+ in_quotes "latest_wins")
             else None);;
    (if bool_decide (laneID = "") then mret tt
     else match lanesByID !! laneID with
          | None => throw (VE (path +:+ ".lane_id") ("unknown lane " +:+ quote laneID))
          | Some lane =>
              lanes ← gets seenLanes;
              require (if bool_decide (laneID ∈ lanes)
                       then reject (path +:+ ".lane_id")
                              ("lane " +:+ quote laneID +:+ " may be assigned to only one trigger")
                       else None);;
              update (λ s, mkTaken (seenEvents s) ({[laneID]} ∪ seenLanes s));;
              require (validateSessionLaneTriggerCompatibility lane trigger path)
          end);;
    require (validateSessionRegion d byID entryID path (EffectiveSessionDelivery (Delivery trigger))).

Fixpoint session_lanes (i : Z) (lanesByID : gmap string SessionLane) (lanes : list SessionLane) :
    result ValidationError (gmap string SessionLane) :=
  match lanes with
  | [] => Ok lanesByID
  | lane :: lanes =>
      let path := index_path "session_workflow.lanes" i in
      match validateSessionLane lane path with
      | Err e => Err e
      | Ok id =>
          match lanesByID !! id with
          | Some _ => Err (VE (path +:+ ".id") ("duplicate lane id " +:+ quote id))
          | None => session_lanes (i + 1) (<[id := lane]> lanesByID) lanes
          end
      end
  end.

Section Triggers.
Context (d : Definition_) (byID : gmap string Node) (lanesByID : gmap string SessionLane).

Fixpoint session_triggers (i : Z) (triggers : list SessionTrigger) : M taken ValidationError unit :=
  match triggers with
  | [] => mret tt
  | t :: triggers =>
      validateSessionTrigger d byID lanesByID t (index_path "session_workflow.triggers" i);;
      session_triggers (i + 1) triggers
  end.

End Triggers.

Definition validateSessionWorkflow (d : Definition_) (byID : gmap string Node) : check :=
  if negb (session_mode d) then
    if is_None (SessionWorkflow d) then None
    else reject "session_workflow" "is only valid when execution_mode is session"
  else
    match SessionWorkflow d with
    | None => reject "session_workflow.triggers" "session flows require at least one event trigger"
    | Some w =>
        if is_nil (Triggers w)
        then reject "session_workflow.triggers" "session flows require at least one event trigger"
        else match session_lanes 0 ∅ (Lanes w) with
             | Err e => Some e
             | Ok lanesByID =>
                 match session_triggers d byID lanesByID 0 (Triggers w) (mkTaken ∅ ∅) with
                 | (_, Err e) => Some e
                 | (s, Ok _) =>
                     first_error (λ laneID,
                       if bool_decide (laneID ∈ seenLanes s) then None
                       else reject "session_workflow.lanes"
                              ("lane " +:+ quote laneID +:+ " is not assigned to a trigger"))
                       (Prelude.visit lanesByID).*1
                 end
             end
    end.

(** * [Validate] *)
Definition Validate (d : option Definition_) : check :=
  match d with
  | None => Some (VE "" "nil flow definition")
  | Some d =>
      or_else (validateDefinitionHeader d)
        match indexDefinitionNodes d with
        | Err e => Some e
        | Ok byID =>
            or_else (validateFlowOutputSources d byID)
            (or_else (validateStaticNodes d byID)
            (or_else (validateDependencyEdges d byID)
            (or_else (validateSessionWorkflow d byID)
              (validateExpandedNodeLimit d))))
        end
  end.

End Session.
