(* ===== verification/FlowCompile.v ===== *)
(** * Compilation of flow definitions ([internal/core/flow/compile.go])

    A validated definition becomes static nodes, whose dependencies are the
    folded static edges, and control-flow edges that carry the template of the
    node they append. Maps built from slices are maps here, keyed by the ids as
    written. The one loop whose length is data, over the iterations of a loop
    node, takes fuel. *)
From S2P Require Import Prelude GoStrings GoRunes JSON Cycles FlowModel FlowContracts FlowGraph FlowValidate FlowSession.
From Stdlib Require Import Ascii ZArith Lia.

Record CompiledBranchCase := mkCompiledCase { CC_Name : string; CC_To : string; CC_Condition : Condition }.
Record CompiledBranch := mkCompiledBranch {
  CB_Source : string;
  CB_Cases : list CompiledBranchCase;
  CB_DefaultTo : string;
}.

Record CompiledNode := mkCompiledNode {
  CN_ID : string;
  CN_Kind : string;
  CN_Title : string;
  CN_Prompt : string;
  CN_AgentType : string;
  CN_AgentRef : string;
  CN_WriteScope : list string;
  CN_TimeoutSec : Z;
  CN_DependsOn : list string;
  CN_HandoffFrom : list string;
  CN_Retry : option RetryPolicy;
  CN_Decision : option DecisionSpec;
  CN_Human : option HumanSpec;
  CN_Branch : option CompiledBranch;
  CN_Function : option FunctionSpec;
  CN_Service : option ServiceSpec;
  CN_Outputs : list VarDef;
  CN_PreScript : string;
  CN_PostScript : string;
}.

Record CompiledEdge := mkCompiledEdge {
  CE_ID : string;
  CE_From : string;
  FromPrefix : string;
  CE_When : Condition;
  Append : CompiledNode;
  CE_MaxIterations : Z;
  CE_IterationKey : string;
}.

Record Compiled := mkCompiled {
  Comp_FlowID : string;
  Comp_Version : string;
  Comp_ExecutionMode : string;
  Comp_SessionWorkflow : option SessionWorkflowSpec;
  Comp_TimeoutSec : Z;
  Comp_Inputs : list VarDef;
  Comp_Outputs : list VarDef;
  Comp_Nodes : list CompiledNode;
  Comp_Edges : list CompiledEdge;
  Digest : string;
  Comp_Network : option NetworkPolicy;
}.

(** What the digest covers: the fields of the anonymous struct, in its order. *)
Definition digested : Type :=
  string * option SessionWorkflowSpec * Z * list VarDef * list VarDef * option NetworkPolicy
  * list CompiledNode * list CompiledEdge.

(** The first half of the SHA-256 of the JSON text, in hexadecimal. *)
Class FlowDigest : Type := { digest : digested → string }.

(** The error of [Compile]: that of [Validate], or a text of its own. *)
Inductive CompileError := Invalid (e : ValidationError) | Refused (msg : string).

Section Compile.
Context {U : Unicode} {J : JSONLib} {O : MapOrder} {F : FlowLib} {H : FlowDigest}.

(** ** Small parts *)

Definition normalizeTrigger (t : SessionTrigger) : SessionTrigger :=
  mkTrigger (TrimSpace (EventType t)) (TrimSpace (EntryNode t)) (EffectiveSessionDelivery (Delivery t))
    (TrimSpace (LaneID t)).

Definition or_else_string (s fallback : string) : string := if bool_decide (s = "") then fallback else s.

Definition normalizeLane (l : SessionLane) : SessionLane :=
  mkLane (TrimSpace (Lane_ID l))
    (or_else_string (ToLower (TrimSpace (Cadence l))) SessionLaneCadenceEvent)
    (IntervalMS l) (DeadlineMS l)
    (or_else_string (ToLower (TrimSpace (Class_ l))) SessionLaneClassStandard)
    (or_else_string (ToLower (TrimSpace (OverloadPolicy l))) SessionLaneOverloadCoalesceLatest).

Definition normalizeSessionWorkflow (spec : option SessionWorkflowSpec) : option SessionWorkflowSpec :=
  (λ w, mkSession (normalizeTrigger <$> Triggers w) (normalizeLane <$> Lanes w)) <$> spec.

Definition is_kind (kind : string) (n : Node) : bool := bool_decide (normalizeKind (N_Kind n) = kind).

(** [byID[id]] of a missing id is the zero node, whose kind is empty. *)
Definition node_at (byID : gmap string Node) (id : string) : Node := default no_node (byID !! id).

(** [branchSource] *)
Fixpoint branch_source (src id : string) (edges : list Edge) : string :=
  match edges with
  | [] => src
  | e :: edges =>
      if bool_decide (normalizeEdgeType (EdgeType e) = EdgeDataDependency) && bool_decide (To e = id) then
        if negb (bool_decide (src = "")) && negb (bool_decide (src = From e)) then ""
        else branch_source (From e) id edges
      else branch_source src id edges
  end.
Definition branchSource (id : string) (edges : list Edge) : string := branch_source "" id edges.

Definition lower_node (kind : string) (n : Node) : CompiledNode :=
  mkCompiledNode (N_ID n) kind (N_Title n) (N_Prompt n) (N_AgentType n) (N_AgentRef n) (N_WriteScope n)
    (N_TimeoutSec n) [] [] (N_Retry n) (N_Decision n) (N_Human n) None (N_Function n) (N_Service n)
    (N_Outputs n) (N_PreScript n) (N_PostScript n).

Definition compileTemplate (n : Node) : CompiledNode :=
  let kind := normalizeKind (N_Kind n) in
  lower_node (if bool_decide (kind ∈ [KindBranch; KindLoop]) then "" else kind) n.

Definition branchRoute (c : BranchCase) : string := or_else_string (TrimSpace (Case_Name c)) (Case_To c).

Definition compileBranch (b : BranchSpec) : CompiledBranch :=
  mkCompiledBranch "" ((λ c, mkCompiledCase (branchRoute c) (Case_To c) (Case_Condition c)) <$> B_Cases b)
    (B_DefaultTo b).

Definition appendUnique (items : list string) (v : string) : list string :=
  let v := TrimSpace v in
  if bool_decide (v = "") then items
  else if bool_decide (v ∈ items) then items else items ++ [v].

(** The insertion sort; the sorted prefix is kept in reverse. *)
Fixpoint sift (n : CompiledNode) (sorted : list CompiledNode) : list CompiledNode :=
  match sorted with
  | m :: rest => if str_lt (CN_ID n) (CN_ID m) then m :: sift n rest else n :: sorted
  | [] => [n]
  end.
Definition sortNodes (nodes : list CompiledNode) : list CompiledNode :=
  reverse (foldl (λ sorted n, sift n sorted) [] nodes).

(** ** Static nodes *)

(** [collectCompileTargets]: the append targets, and the sources of the static
    edges into each node. *)
Definition appendTargets (d : Definition_) : list string :=
  (To <$> filter (λ e, condition_edge e = true) (Edges d)) ++
  (n ← Nodes d;
   let kind := normalizeKind (N_Kind n) in
   if bool_decide (kind = KindBranch) then
     match N_Branch n with
     | Some b => (Case_To <$> B_Cases b) ++ [B_DefaultTo b]
     | None => []
     end
   else if bool_decide (kind = KindLoop) then
     match N_Loop n with
     | Some l => Body l ++ (To <$> filter (λ e, From e = N_ID n ∧ condition_edge e = false) (Edges d))
     | None => []
     end
   else []).
Definition staticIn (edges : list Edge) (id : string) : list string :=
  From <$> filter (λ e, static_edge e = true ∧ To e = id) edges.

(** One round of [compileStaticNodes]. *)
Definition compileStaticNode (d : Definition_) (byID : gmap string Node) (n : Node) :
    result string (option CompiledNode) :=
  let kind := normalizeKind (N_Kind n) in
  if bool_decide (kind = KindLoop) then Ok None
  else if negb (bool_decide (kind = KindBranch)) && bool_decide (N_ID n ∈ appendTargets d) then
    if existsb (λ from, negb (is_kind KindLoop (node_at byID from))) (staticIn (Edges d) (N_ID n))
    then Err ("node " +:+ N_ID n +:+ ": mixed use as static target and append target is not supported in F1a")
    else Ok None
  else
    let cn := lower_node kind n in
    match N_Branch n with
    | Some b =>
        if bool_decide (kind = KindBranch) then
          let source := branchSource (N_ID n) (Edges d) in
          if bool_decide (source = "")
          then Err ("branch " +:+ N_ID n +:+ ": requires exactly one data_dependency source")
          else Ok (Some (mkCompiledNode (CN_ID cn) (CN_Kind cn) (CN_Title cn) (CN_Prompt cn) (CN_AgentType cn)
                 (CN_AgentRef cn) (CN_WriteScope cn) (CN_TimeoutSec cn) (CN_DependsOn cn) (CN_HandoffFrom cn)
                 (CN_Retry cn) (CN_Decision cn) (CN_Human cn)
                 (Some (mkCompiledBranch source (CB_Cases (compileBranch b)) (CB_DefaultTo (compileBranch b))))
                 (CN_Function cn) (CN_Service cn) (CN_Outputs cn) (CN_PreScript cn) (CN_PostScript cn)))
        else Ok (Some cn)
    | None => Ok (Some cn)
    end.

Definition index_compiled (nodes : list CompiledNode) : gmap string CompiledNode :=
  foldl (λ m cn, <[CN_ID cn := cn]> m) ∅ nodes.

Definition compileStaticNodes (d : Definition_) (byID : gmap string Node) :
    result string (list CompiledNode * gmap string CompiledNode) :=
  cns ← result_map (compileStaticNode d byID) (Nodes d);
  let nodes := omap id cns in
  Ok (nodes, index_compiled nodes).

(** ** Static edges *)

Definition set_deps (deps handoffs : list string) (cn : CompiledNode) : CompiledNode :=
  mkCompiledNode (CN_ID cn) (CN_Kind cn) (CN_Title cn) (CN_Prompt cn) (CN_AgentType cn) (CN_AgentRef cn)
    (CN_WriteScope cn) (CN_TimeoutSec cn) deps handoffs (CN_Retry cn) (CN_Decision cn) (CN_Human cn)
    (CN_Branch cn) (CN_Function cn) (CN_Service cn) (CN_Outputs cn) (CN_PreScript cn) (CN_PostScript cn).

Definition loop_end (byID : gmap string Node) (id : string) : bool :=
  negb (bool_decide (N_ID (node_at byID id) = "")) && is_kind KindLoop (node_at byID id).

Fixpoint foldStaticEdges (edges : list Edge) (byID : gmap string Node) (nodesByID : gmap string CompiledNode) :
    result string (gmap string CompiledNode) :=
  match edges with
  | [] => Ok nodesByID
  | e :: edges =>
      if negb (static_edge e) || loop_end byID (To e) || loop_end byID (From e)
      then foldStaticEdges edges byID nodesByID
      else match nodesByID !! To e with
           | None => Err ("edge " +:+ E_ID e +:+ ": static edge into append-only node " +:+ quote (To e))
           | Some cn =>
               let handoffs := if bool_decide (normalizeEdgeType (EdgeType e) = EdgeHandoff)
                               then appendUnique (CN_HandoffFrom cn) (From e) else CN_HandoffFrom cn in
               foldStaticEdges edges byID
                 (<[To e := set_deps (appendUnique (CN_DependsOn cn) (From e)) handoffs cn]> nodesByID)
           end
  end.

Definition syncCompiledNodes (nodes : list CompiledNode) (nodesByID : gmap string CompiledNode) :
    list CompiledNode :=
  (λ n, default n (nodesByID !! CN_ID n)) <$> nodes.

(** ** Control-flow edges *)

(** [Validate] has refused a condition edge whose [When] is nil. *)
Definition compileConditionEdge (byID : gmap string Node) (e : Edge) : result string CompiledEdge :=
  if is_kind KindLoop (node_at byID (From e))
  then Err ("loop " +:+ From e +:+ ": condition edges from loop nodes are not supported; connect loop exits with data_dependency or handoff edges")
  else match byID !! To e with
       | None => Err ("edge " +:+ E_ID e +:+ ": unknown target " +:+ quote (To e))
       | Some toNode =>
           Ok (mkCompiledEdge (or_else_string (E_ID e) ("edge_" +:+ From e +:+ "_to_" +:+ To e)) (From e) ""
                 (default no_condition (When e)) (compileTemplate toNode) (E_MaxIterations e) (E_IterationKey e))
       end.

Definition compileConditionEdges (d : Definition_) (byID : gmap string Node) : result string (list CompiledEdge) :=
  result_map (compileConditionEdge byID) (filter (λ e, condition_edge e = true) (Edges d)).

Fixpoint compile_cases (byID : gmap string Node) (branchID : string) (i : Z) (cases : list BranchCase) :
    result string (list CompiledEdge) :=
  match cases with
  | [] => Ok []
  | c :: cases =>
      match byID !! Case_To c with
      | None => Err ("branch " +:+ branchID +:+ ": case " +:+ itoa i +:+ " unknown target " +:+ quote (Case_To c))
      | Some target =>
          edges ← compile_cases byID branchID (i + 1) cases;
          Ok (mkCompiledEdge (branchID +:+ "_case_" +:+ itoa i) branchID "" (when_choice (branchRoute c))
                (compileTemplate target) 0 "" :: edges)
      end
  end.

Definition compileBranchNode (byID : gmap string Node) (n : Node) : result string (list CompiledEdge) :=
  match N_Branch n with
  | Some b =>
      if is_kind KindBranch n then
        edges ← compile_cases byID (N_ID n) 0 (B_Cases b);
        Ok (edges ++ match byID !! B_DefaultTo b with
                     | Some target => [mkCompiledEdge (N_ID n +:+ "_default") (N_ID n) ""
                                         (when_choice branchDefaultRoute) (compileTemplate target) 0 ""]
                     | None => []
                     end)
      else Ok []
  | None => Ok []
  end.

Definition compileBranchEdges (d : Definition_) (byID : gmap string Node) : result string (list CompiledEdge) :=
  edges ← result_map (compileBranchNode byID) (Nodes d); Ok (concat edges).

(** ** Loops *)

(** The search for a node named as an iteration of the body; the counter is an
    [int]. *)
Fixpoint iteration_collision (fuel : nat) (byID : gmap string Node) (bodyID : string) (iteration max : Z) :
    option (option string) :=
  match fuel with
  | 0 => None
  | S fuel =>
      if (max <? iteration)%Z then Some None
      else let generatedID := bodyID +:+ "_" +:+ itoa iteration in
           match byID !! generatedID with
           | Some _ => Some (Some generatedID)
           | None => iteration_collision fuel byID bodyID (wrap64 (iteration + 1)) max
           end
  end.

Definition compileLoopExit (byID : gmap string Node) (n body : Node) (exitWhen : Condition) (e : Edge) :
    result string CompiledEdge :=
  match byID !! To e with
  | None => Err ("loop " +:+ N_ID n +:+ ": exit edge references unknown node " +:+ quote (To e))
  | Some target =>
      if is_kind KindBranch target || is_kind KindLoop target
      then Err ("loop " +:+ N_ID n +:+ ": exit target " +:+ quote (N_ID target) +:+ " has unsupported kind "
                +:+ quote (N_Kind target))
      else
        let handoffs := if bool_decide (normalizeEdgeType (EdgeType e) = EdgeHandoff) then ["{source}"] else [] in
        let edgeID := if bool_decide (TrimSpace (E_ID e) = "") then N_ID n +:+ "_to_" +:+ To e else E_ID e in
        Ok (mkCompiledEdge (N_ID n +:+ "_exit_" +:+ edgeID) "" (N_ID body +:+ "_") exitWhen
              (set_deps ["{source}"] handoffs (compileTemplate target)) 1 (N_ID n +:+ "_exit_" +:+ edgeID))
  end.

Definition compileLoopExitEdges (byID : gmap string Node) (n body : Node) (edges : list Edge)
    (exitWhen : Condition) : result string (list CompiledEdge) :=
  result_map (compileLoopExit byID n body exitWhen)
    (filter (λ e, From e = N_ID n ∧ condition_edge e = false) edges).

Definition set_id (id : string) (cn : CompiledNode) : CompiledNode :=
  mkCompiledNode id (CN_Kind cn) (CN_Title cn) (CN_Prompt cn) (CN_AgentType cn) (CN_AgentRef cn)
    (CN_WriteScope cn) (CN_TimeoutSec cn) (CN_DependsOn cn) (CN_HandoffFrom cn) (CN_Retry cn) (CN_Decision cn)
    (CN_Human cn) (CN_Branch cn) (CN_Function cn) (CN_Service cn) (CN_Outputs cn) (CN_PreScript cn)
    (CN_PostScript cn).

(** [loopBodyOwners] and [loopIterationKeys] *)
Record owners := mkOwners { bodyOwners : gmap string string; keyOwners : gmap string string }.

(** The edges of a loop whose checks have passed. *)
Definition loop_edges (byID : gmap string Node) (n body : Node) (l : LoopSpec) (edges : list Edge)
    (from iterationKey : string) : result string (list CompiledEdge) :=
  let template := set_deps ["{source}"] [] (set_id (N_ID body +:+ "_{iteration}") (compileTemplate body)) in
  exits ← compileLoopExitEdges byID n body edges (ExitWhen l);
  Ok (mkCompiledEdge (N_ID n +:+ "_entry") from "" (when_status "completed") template (L_MaxIterations l)
        iterationKey
      :: mkCompiledEdge (N_ID n +:+ "_continue") "" (N_ID body +:+ "_") (when_not (ExitWhen l)) template
           (L_MaxIterations l) iterationKey
      :: exits).

(** [None]: out of fuel. *)
Definition compileLoop (fuel : nat) (byID : gmap string Node) (n : Node) (l : LoopSpec) (edges : list Edge)
    (o : owners) : option (result string (list CompiledEdge * owners)) :=
  let refuse msg := Some (Err ("loop " +:+ N_ID n +:+ ": " +:+ msg)) in
  match Body l with
  | [bodyID] =>
      match byID !! bodyID with
      | None => refuse ("body references unknown node " +:+ quote bodyID)
      | Some body =>
          let bodyKind := normalizeKind (N_Kind body) in
          if bool_decide (bodyKind ∈ [KindBranch; KindLoop])
          then refuse ("body node " +:+ quote (N_ID body) +:+ " has unsupported kind " +:+ quote bodyKind)
          else match bodyOwners o !! N_ID body with
          | Some owner =>
              refuse ("body node " +:+ quote (N_ID body) +:+ " is already used by loop " +:+ owner)
          | None =>
              collision ← iteration_collision fuel byID (N_ID body) 1 (L_MaxIterations l);
              match collision with
              | Some generatedID =>
                  refuse ("node id " +:+ quote generatedID +:+ " conflicts with a generated loop iteration id")
              | None =>
                  let from := branchSource (N_ID n) edges in
                  if bool_decide (from = "") then refuse "requires exactly one data_dependency source"
                  else
                    let iterationKey := or_else_string (TrimSpace (L_IterationKey l)) (N_ID n) in
                    match keyOwners o !! iterationKey with
                    | Some owner =>
                        refuse ("iteration_key " +:+ quote iterationKey +:+ " is already used by loop " +:+ owner)
                    | None =>
                        Some (compiled ← loop_edges byID n body l edges from iterationKey;
                              Ok (compiled, mkOwners (<[N_ID body := N_ID n]> (bodyOwners o))
                                              (<[iterationKey := N_ID n]> (keyOwners o))))
                    end
              end
          end
      end
  | _ => refuse "currently requires exactly one body node; multi-node loop bodies are not supported yet"
  end.

Fixpoint compile_loops (fuel : nat) (byID : gmap string Node) (edges : list Edge) (o : owners)
    (nodes : list Node) : option (result string (list CompiledEdge)) :=
  match nodes with
  | [] => Some (Ok [])
  | n :: nodes =>
      match N_Loop n with
      | Some l =>
          if is_kind KindLoop n then
            r ← compileLoop fuel byID n l edges o;
            match r with
            | Err e => Some (Err e)
            | Ok (compiled, o) =>
                r ← compile_loops fuel byID edges o nodes;
                Some (rest ← r; Ok (compiled ++ rest))
            end
          else compile_loops fuel byID edges o nodes
      | None => compile_loops fuel byID edges o nodes
      end
  end.

Definition compileLoopEdges (fuel : nat) (d : Definition_) (byID : gmap string Node) :
    option (result string (list CompiledEdge)) :=
  compile_loops fuel byID (Edges d) (mkOwners ∅ ∅) (Nodes d).

Fixpoint compiled_edge_ids (seen : list string) (edges : list CompiledEdge) : option string :=
  match edges with
  | [] => None
  | e :: edges =>
      if bool_decide (CE_ID e ∈ seen) then Some ("compiled edge id " +:+ quote (CE_ID e) +:+ " is duplicated")
      else compiled_edge_ids (CE_ID e :: seen) edges
  end.
Definition validateCompiledEdgeIDs (edges : list CompiledEdge) : option string := compiled_edge_ids [] edges.

(** ** [Compile] *)

Definition raw_index (d : Definition_) : gmap string Node := foldl (λ m n, <[N_ID n := n]> m) ∅ (Nodes d).

Definition computeDigest (c : Compiled) : string :=
  digest (if bool_decide (Comp_ExecutionMode c = ExecutionModeRequest) then "" else Comp_ExecutionMode c,
          Comp_SessionWorkflow c, Comp_TimeoutSec c, Comp_Inputs c, Comp_Outputs c, Comp_Network c,
          Comp_Nodes c, Comp_Edges c).

(** The record that [Compile] builds, with its digest. *)
Definition assemble (d : Definition_) (nodes : list CompiledNode) (edges : list CompiledEdge) : Compiled :=
  let c digest := mkCompiled (FlowID d) (Version d) (EffectiveExecutionMode (ExecutionMode d))
      (normalizeSessionWorkflow (SessionWorkflow d)) (D_TimeoutSec d) (Inputs d) (D_Outputs d)
      (sortNodes nodes) edges digest (Network d) in
  c (computeDigest (c "")).

Definition compile_nodes (d : Definition_) : result string (list CompiledNode) :=
  let byID := raw_index d in
  '(nodes, nodesByID) ← compileStaticNodes d byID;
  nodesByID ← foldStaticEdges (Edges d) byID nodesByID;
  Ok (syncCompiledNodes nodes nodesByID).

Definition compile_edges (fuel : nat) (d : Definition_) : option (result string (list CompiledEdge)) :=
  let byID := raw_index d in
  match (edges ← compileConditionEdges d byID;
         branchEdges ← compileBranchEdges d byID;
         Ok (edges ++ branchEdges)) with
  | Err e => Some (Err e)
  | Ok edges =>
      r ← compileLoopEdges fuel d byID;
      Some (loopEdges ← r;
            let edges := edges ++ loopEdges in
            match validateCompiledEdgeIDs edges with
            | Some e => Err e
            | None => Ok edges
            end)
  end.

Definition Compile (fuel : nat) (d : Definition_) : option (result CompileError Compiled) :=
  match Validate (Some d) with
  | Some e => Some (Err (Invalid e))
  | None =>
      match compile_nodes d with
      | Err e => Some (Err (Refused e))
      | Ok nodes =>
          r ← compile_edges fuel d;
          Some match r with
               | Err e => Err (Refused e)
               | Ok edges => Ok (assemble d nodes edges)
               end
      end
  end.

End Compile.
