(* ===== verification/FlowSpec.v ===== *)
(** * What an accepted flow definition is

    The validator accepts exactly the graphs whose edges join known nodes, have
    the predicate their type calls for and close no cycle; a session region is
    closed under what its nodes depend on. *)
From S2P Require Import Prelude GoStrings GoRunes JSON Cycles FlowModel FlowContracts FlowGraph FlowValidate FlowSession FlowCompile.
From Stdlib Require Import Ascii ZArith Lia.

Section Spec.
Context {U : Unicode} {J : JSONLib} {O : MapOrder} {F : FlowLib}.

(** ** The index of the nodes *)

Definition node_id (n : Node) : string := TrimSpace (N_ID n).

(** What [indexDefinitionNodes] has checked and built. *)
Record indexed (nodes : list Node) (byID : gmap string Node) : Prop := {
  indexed_nodup : NoDup (node_id <$> nodes);
  indexed_named : ∀ n, n ∈ nodes → node_id n ≠ "";
  indexed_lookup : ∀ id n, byID !! id = Some n ↔ n ∈ nodes ∧ node_id n = id;
}.

Lemma index_nodes_ok done nodes byID byID' :
  indexed done byID → index_nodes byID nodes = Ok byID' → indexed (done ++ nodes) byID'.
Proof.
  revert done byID. induction nodes as [|n nodes IH]; intros done byID Hi; cbn [index_nodes].
  { intros [= <-]. by rewrite app_nil_r. }
  case_bool_decide as Hblank; [done|].
  destruct (byID !! TrimSpace (N_ID n)) eqn:Hn; [done|]. intros H.
  rewrite cons_middle, (assoc_L (++)). apply (IH _ (<[TrimSpace (N_ID n):=n]> byID)); [|done].
  destruct Hi as [Hnd Hnamed Hlook]. split.
  - rewrite fmap_app. apply NoDup_app. split_and!; [done| |apply NoDup_singleton].
    intros id (m&->&Hm)%list_elem_of_fmap Hid%list_elem_of_singleton. unfold node_id in Hid.
    assert (byID !! TrimSpace (N_ID n) = Some m) by by apply Hlook. congruence.
  - intros m. rewrite elem_of_app, list_elem_of_singleton. intros [Hm| ->]; [by apply Hnamed|done].
  - intros id m. rewrite elem_of_app, list_elem_of_singleton. unfold node_id in *. split.
    + intros [[<- <-]|[Hne Hm]]%lookup_insert_Some; [auto|]. apply Hlook in Hm as []. auto.
    + intros [[Hm| ->] <-].
      * rewrite lookup_insert_ne; [by apply Hlook|]. intros He.
        assert (byID !! TrimSpace (N_ID n) = Some m) by by apply Hlook. congruence.
      * by rewrite lookup_insert_eq.
Qed.

Lemma indexed_ok d byID : indexDefinitionNodes d = Ok byID → indexed (Nodes d) byID.
Proof.
  intros H. apply (index_nodes_ok [] (Nodes d) ∅ byID); [|done]. split.
  - constructor.
  - intros n Hn%elem_of_nil. done.
  - intros id n. rewrite lookup_empty, elem_of_nil. naive_solver.
Qed.

Lemma indexed_key nodes byID id n : indexed nodes byID → byID !! id = Some n → TrimSpace id = id ∧ id ≠ "".
Proof.
  intros [_ Hnamed Hl] [Hn <-]%Hl. split; [apply TrimSpace_idemp|by apply Hnamed].
Qed.

(** ** Edges *)

Lemma is_None_false {A} (o : option A) : is_None o = false ↔ is_Some o.
Proof. destruct o; simpl; split; try done; by intros []. Qed.

(** What an edge must be, given the ids of the nodes. *)
Definition edge_ok (byID : gmap string Node) (e : Edge) : Prop :=
  is_Some (byID !! From e) ∧ is_Some (byID !! To e) ∧
  (static_edge e = true ∧ (∀ c, When e = Some c → ConditionEmpty c = true) ∨
   condition_edge e = true ∧
     ∃ c, When e = Some c ∧ ConditionEmpty c = false ∧
          validateCondition byID c ("edges[" +:+ E_ID e +:+ "]") = None).

Lemma static_not_condition e : static_edge e = true → condition_edge e = false.
Proof.
  unfold static_edge, condition_edge. rewrite bool_decide_eq_true, bool_decide_eq_false, !elem_of_cons, elem_of_nil.
  by intros [->|[->|[]]].
Qed.

Lemma validateDependencyEdge_ok byID e : validateDependencyEdge byID e = None ↔ edge_ok byID e.
Proof.
  unfold validateDependencyEdge, edge_ok.
  destruct (byID !! From e) as [f|]; cbn [is_None]; [|split; [done|intros [[] _]; done]].
  destruct (byID !! To e) as [t|]; cbn [is_None]; [|split; [done|intros (_&[]&_); done]].
  fold (static_edge e) (condition_edge e).
  destruct (static_edge e) eqn:Hs.
  - apply static_not_condition in Hs. rewrite Hs. destruct (When e) as [c|].
    + destruct (ConditionEmpty c) eqn:Hc; split; try done; try naive_solver.
      intros (_&_&[[_ Hw]|[]]); [|done]. specialize (Hw c eq_refl). congruence.
    + split; [|done]. intros _. split_and!; [done|done|]. by left.
  - destruct (condition_edge e) eqn:Hc; [|split; [done|intros (_&_&[[]|[]]); done]].
    destruct (When e) as [c|]; [|split; [done|]; intros (_&_&[[]|(_&c&?&_)]); done].
    destruct (ConditionEmpty c) eqn:Hce; split; try done.
    + intros (_&_&[[]|(_&c'&[= <-]&?&_)]); congruence.
    + intros Hv. split_and!; [done|done|right; eauto].
    + by intros (_&_&[[]|(_&c'&[= <-]&_&?)]).
Qed.

Lemma add_dependency_spec edges : ∀ g,
  (∀ e, e ∈ edges → is_Some (g !! To e)) →
  let g' := foldl add_dependency g edges in
  (∀ id, is_Some (g' !! id) ↔ is_Some (g !! id)) ∧
  (∀ id, graph_of g' id = graph_of g id ++ staticIn edges id).
Proof.
  induction edges as [|e edges IH]; intros g Hends; cbn.
  { split; [done|]. intros id. by rewrite app_nil_r. }
  assert (∀ id, is_Some (add_dependency g e !! id) ↔ is_Some (g !! id)) as Hdom.
  { intros id. unfold add_dependency. destruct (static_edge e); [|done].
    rewrite lookup_insert_is_Some. split; [intros [<-|[_ ?]]; [|done]|].
    - apply Hends. by left.
    - intros. destruct (decide (To e = id)); auto. }
  destruct (IH (add_dependency g e)) as [Hd Hg].
  { intros e' He'. apply Hdom, Hends. by right. }
  split; intros id; [by rewrite Hd|]. rewrite Hg. unfold staticIn. clear IH Hd Hg Hdom.
  unfold add_dependency, graph_of. destruct (static_edge e) eqn:Hs.
  - destruct (decide (To e = id)) as [<-|Hne].
    + rewrite lookup_insert_eq, decide_True by done. cbn. by rewrite <- (assoc_L (++)).
    + rewrite lookup_insert_ne, decide_False by naive_solver. done.
  - rewrite decide_False by naive_solver. done.
Qed.

Lemma depGraph_spec d byID :
  (∀ e, e ∈ Edges d → is_Some (byID !! To e)) →
  (∀ id, is_Some (depGraph d byID !! id) ↔ is_Some (byID !! id)) ∧
  (∀ id, graph_of (depGraph d byID) id = staticIn (Edges d) id).
Proof.
  intros Hends. unfold depGraph.
  destruct (add_dependency_spec (Edges d) ((λ _, []) <$> byID)) as [Hd Hg].
  { intros e He. rewrite lookup_fmap, fmap_is_Some. auto. }
  split; intros id.
  - by rewrite Hd, lookup_fmap, fmap_is_Some.
  - rewrite Hg. unfold graph_of at 1. rewrite lookup_fmap. by destruct (byID !! id).
Qed.

Lemma visit_keys {A} (m : gmap string A) :
  NoDup (Prelude.visit m).*1 ∧ ∀ id, id ∈ (Prelude.visit m).*1 ↔ is_Some (m !! id).
Proof.
  split.
  - rewrite visit_perm. apply NoDup_fst_map_to_list.
  - intros id. rewrite list_elem_of_fmap. split.
    + intros ([k a]&->&H). rewrite visit_perm in H. apply elem_of_map_to_list in H. by exists a.
    + intros [a Ha]. exists (id, a). split; [done|]. rewrite visit_perm. by apply elem_of_map_to_list.
Qed.

(** C29: the edges are accepted exactly when each joins two known nodes, has a
    predicate if and only if it is a condition edge (over known nodes), and
    no node depends on itself through any number of static edges. *)
Theorem edges_accepted_iff d byID :
  validateDependencyEdges d byID = None ↔
  Forall (edge_ok byID) (Edges d) ∧ acyclic (staticIn (Edges d)).
Proof.
  unfold validateDependencyEdges.
  assert (first_error (validateDependencyEdge byID) (Edges d) = None ↔ Forall (edge_ok byID) (Edges d)) as Hiff.
  { rewrite first_error_None. apply Forall_iff. intros e. apply validateDependencyEdge_ok. }
  rewrite or_else_None, Hiff. clear Hiff.
  enough (Forall (edge_ok byID) (Edges d) →
    (match findCycle (graph_of (depGraph d byID)) (Prelude.visit (depGraph d byID)).*1 with
     | Some cycle => reject "edges" ("dependency cycle: " +:+ Join cycle " -> ")
     | None => None
     end = None ↔ acyclic (staticIn (Edges d)))) as Hcyc by tauto.
  intros Hok. rewrite Forall_forall in Hok.
  destruct (depGraph_spec d byID) as [Hdom Hg].
  { intros e He. by apply Hok. }
  destruct (visit_keys (depGraph d byID)) as [Hnd Hkeys].
  destruct (findCycle_exact (graph_of (depGraph d byID)) (Prelude.visit (depGraph d byID)).*1) as [Hex _]; [done| |].
  { intros a b. unfold edge. rewrite Hg. intros (e&->&[[_ <-] He]%list_elem_of_filter)%list_elem_of_fmap.
    rewrite !Hkeys, !Hdom. by destruct (Hok e He) as (?&?&_). }
  transitivity (acyclic (graph_of (depGraph d byID))).
  - rewrite <- Hex. by destruct (findCycle _ _).
  - split; apply acyclic_sub; intros a b; unfold edge; by rewrite Hg.
Qed.

End Spec.

(** * What an accepted session flow is

    The region of a trigger can run on its own: it has what its nodes depend
    on, runs nothing a session cannot run, and the routes of its branches do not
    meet. *)

Section Spec.
Context {U : Unicode} {J : JSONLib} {O : MapOrder} {F : FlowLib}.

(** ** Reachability *)

Definition reaches (edges : list Edge) : string → string → Prop := rtc (edge (outgoing edges)).

Lemma size_of_list (l : list string) : size (list_to_set l : gset string) ≤ length l.
Proof.
  induction l as [|x l IH]; [done|]. cbn [list_to_set length].
  rewrite size_union_alt, size_singleton. apply le_n_S. etrans; [|exact IH]. apply subseteq_size. set_solver.
Qed.

Lemma sessionRouteChain_reaches edges root x : x ∈ sessionRouteChain edges root ↔ reaches edges root x.
Proof.
  unfold sessionRouteChain.
  destruct (bfs_reach (outgoing edges) ({[root]} ∪ list_to_set (To <$> edges)) ) with
    (root := root) (fuel := S (length edges)) (region := ({[root]} : gset string)) (queue := [root])
    as (region&->&Hr); [| | | | | | | |exact (Hr x)].
  - intros a b _. unfold edge, outgoing. rewrite elem_of_union, elem_of_list_to_set.
    intros (e&->&[_ He]%list_elem_of_filter)%list_elem_of_fmap. right. by apply list_elem_of_fmap_2.
  - apply NoDup_singleton.
  - by apply elem_of_singleton.
  - intros y ->%list_elem_of_singleton. by apply elem_of_singleton.
  - apply union_subseteq_l.
  - intros y ->%elem_of_singleton. apply rtc_refl.
  - intros y z ->%elem_of_singleton Hy. rewrite list_elem_of_singleton in Hy. done.
  - cbn. apply le_n_S.
    transitivity (size (list_to_set (To <$> edges) : gset string)).
    + apply subseteq_size. intros y. rewrite elem_of_difference, elem_of_union. tauto.
    + etrans; [apply size_of_list|]. by rewrite length_fmap.
Qed.

Lemma visit_set_elem s x : x ∈ visit_set s ↔ x ∈ s.
Proof.
  unfold visit_set. rewrite (proj2 (visit_keys (gset_to_gmap () s)) x), lookup_gset_to_gmap. unfold is_Some.
  destruct (decide (x ∈ s)).
  - rewrite option_guard_True by done. split; [done|by eexists].
  - rewrite option_guard_False by done. split; [by intros []|done].
Qed.

Lemma incoming_reaches edges x y : y ∈ incoming edges x → reaches edges y x.
Proof.
  intros (e&->&[[Hc <-] He]%list_elem_of_filter)%list_elem_of_fmap. apply rtc_once. unfold edge, outgoing.
  apply list_elem_of_fmap. exists e. split; [done|]. by apply list_elem_of_filter.
Qed.

(** ** Nodes that a session runs *)

Definition session_ready (branches : Prop) (delivery : string) (n : Node) : Prop :=
  no_scripts n = true ∧
  let kind := normalizeKind (N_Kind n) in
  (kind = KindFunction ∧ inline_js (N_Function n) = true ∨ kind = KindService ∨
   kind = KindLLM ∧ N_Outputs n ≠ [] ∨
   kind = KindStep ∧ delivery = SessionDeliveryDurable ∧ N_Outputs n ≠ [] ∨
   kind = KindBranch ∧ branches).

Lemma session_ready_weaken P Q delivery n : (P → Q) → session_ready P delivery n → session_ready Q delivery n.
Proof. unfold session_ready. cbn zeta. tauto. Qed.

Lemma is_nil_false {A} (l : list A) : is_nil l = false ↔ l ≠ [].
Proof. by destruct l. Qed.

Lemma session_node_ready who llm agent tail service branch n id path delivery :
  session_node who llm agent tail service branch n id path delivery = None →
  session_ready (branch = None) delivery n.
Proof.
  unfold session_node, session_ready. rewrite or_else_None. intros [Hk Hs].
  split; [by destruct (no_scripts n)|]. revert Hk. clear Hs.
  case_bool_decide as Hf; [destruct (inline_js _); naive_solver|].
  case_bool_decide as Hsv; [naive_solver|].
  case_bool_decide as Hl; [destruct (N_Outputs n); naive_solver|].
  case_bool_decide as Hst.
  { case_bool_decide as Hd; cbn [negb]; [destruct (N_Outputs n); naive_solver|done]. }
  case_bool_decide as Hb; [naive_solver|done].
Qed.

(** ** The loops over shared maps *)

(** Later claims keep earlier ones. *)
Definition grows (s s' : claims) : Prop :=
  branchChainOwners s ⊆ branchChainOwners s' ∧ sessionRegionNodes s ⊆ sessionRegionNodes s'.

#[local] Instance grows_pre : PreOrder grows.
Proof. split; [by intros s|]. intros s1 s2 s3 [] []. split; by etrans. Qed.

(** [branchID] owns all of [chain], which is among the nodes that run. *)
Definition claimed (branchID : string) (chain : gset string) (s : claims) : Prop :=
  ∀ n, n ∈ chain → branchChainOwners s !! n = Some branchID ∧ n ∈ sessionRegionNodes s.

Lemma claimed_grows b chain s s' : grows s s' → claimed b chain s → claimed b chain s'.
Proof.
  intros [Ho Hn] Hc n [Hb Hr]%Hc. split; [by eapply lookup_weaken|by apply Hn].
Qed.

Lemma claim_chain_ok b chain path s s' u :
  claimSessionBranchChain b chain path s = (s', Ok u) → grows s s' ∧ claimed b chain s'.
Proof.
  intros H. apply (each_Ok (λ before s', grows s s' ∧ claimed b (list_to_set before) s')) in H.
  - destruct H as [Hg Hc]. split; [done|]. intros n Hn. apply Hc, elem_of_list_to_set. by apply visit_set_elem.
  - split; [done|]. intros n Hn. set_solver.
  - clear s' u H. intros before n s1 s2 _ [Hg Hc].
    intros (owners&s3&[= <- <-]&([]&s4&[Ho ->]%require_Ok&[= <-])%M_bind_Ok)%M_bind_Ok.
    assert (branchChainOwners s1 !! n = None ∨ branchChainOwners s1 !! n = Some b) as Hn.
    { destruct (branchChainOwners s1 !! n) as [o|]; [right|by left].
      case_bool_decide; [by f_equal|done]. }
    assert (grows s1 (mkClaims (branchTargetOwners s1) (<[n:=b]> (branchChainOwners s1))
                        ({[n]} ∪ sessionRegionNodes s1))) as Hstep.
    { split; cbn; [|set_solver]. destruct Hn as [Hn|Hn]; [by apply insert_subseteq|by rewrite insert_id]. }
    split; [by etrans|]. intros m. rewrite list_to_set_app_L, elem_of_union. intros [Hm|Hm].
    + by apply (claimed_grows b (list_to_set before) s1).
    + assert (m = n) as -> by set_solver. cbn. rewrite lookup_insert_eq. set_solver.
Qed.

Lemma branch_targets_ok d byID b path delivery targets : ∀ seen s s' u,
  (∀ t, t ∈ seen → claimed b (sessionRouteChain (Edges d) t) s) →
  branch_targets d byID b path delivery seen targets s = (s', Ok u) →
  grows s s' ∧ ∀ t, t ∈ targets →
    session_ready False delivery (node_at byID t) ∧ claimed b (sessionRouteChain (Edges d) t) s'.
Proof.
  induction targets as [|t targets IH]; intros seen s s' u Hseen; cbn [branch_targets].
  { intros [= <- _]. split; [done|]. intros t []%elem_of_nil. }
  intros ([]&s1&Hclaim&([]&s2&[Hready ->]%require_Ok&Hrest)%M_bind_Ok)%M_bind_Ok.
  apply M_bind_Ok in Hclaim as (o&s2&[= <- <-]&([]&s3&[_ ->]%require_Ok&[= <-])%M_bind_Ok).
  set (s1 := mkClaims _ _ _) in Hrest. assert (grows s s1) as Hg1 by by split.
  apply session_node_ready in Hready as Ht.
  assert (session_ready False delivery (node_at byID t)) as Hready'.
  { by eapply session_ready_weaken; [|exact Ht]. }
  case_bool_decide as Hin.
  - destruct (IH seen s1 s' u) as [Hg Hall]; [|done|].
    { intros t' Ht'. eapply claimed_grows; [exact Hg1|by apply Hseen]. }
    split; [by etrans|]. intros t' [->|Ht']%elem_of_cons; [|by apply Hall]. split; [done|].
    eapply claimed_grows; [|by apply Hseen]. by etrans.
  - apply M_bind_Ok in Hrest as ([]&s2&[Hg2 Hc2]%claim_chain_ok&Hrest).
    destruct (IH (t :: seen) s2 s' u) as [Hg Hall]; [|done|].
    { intros t' [->|Ht']%elem_of_cons; [done|]. eapply claimed_grows; [|by apply Hseen]. by etrans. }
    split; [by transitivity s2; [transitivity s1|]|]. intros t' [->|Ht']%elem_of_cons; [|by apply Hall].
    split; [done|]. by eapply claimed_grows.
Qed.

(** ** The routes of a branch *)

Definition targets_of (b : BranchSpec) : list string :=
  (TrimSpace <$> (Case_To <$> B_Cases b)) ++ [TrimSpace (B_DefaultTo b)].

Lemma case_targets_ok b path cases : ∀ seen targets,
  case_targets b path seen cases = Ok targets →
  targets = TrimSpace <$> (Case_To <$> cases) ∧
  NoDup (session_route <$> cases) ∧
  Forall (λ r, r ≠ branchDefaultRoute ∧ r ∉ seen) (session_route <$> cases).
Proof.
  induction cases as [|c cases IH]; intros seen targets; cbn [case_targets].
  { intros [= <-]. split_and!; [done|constructor|constructor]. }
  case_bool_decide as Hd; [done|]. case_bool_decide as Hs; [done|].
  destruct (case_targets b path (session_route c :: seen) cases) as [ts|] eqn:Hts; [|done].
  intros [= <-]. apply IH in Hts as (->&Hnd&Hall). split_and!; [done| |].
  - cbn. constructor; [|done]. intros Hin. rewrite Forall_forall in Hall. destruct (Hall _ Hin) as [_ Hn].
    apply Hn. by left.
  - cbn. constructor; [done|]. eapply Forall_impl; [exact Hall|]. intros r [? Hn]. split; [done|].
    intros Hr. apply Hn. by right.
Qed.

Lemma sessionBranchTargetIDs_ok b branch path targets :
  sessionBranchTargetIDs b branch path = Ok targets →
  targets = targets_of branch ∧ NoDup (session_route <$> B_Cases branch) ∧
  branchDefaultRoute ∉ session_route <$> B_Cases branch.
Proof.
  unfold sessionBranchTargetIDs. destruct (case_targets _ _ _ _) as [ts|] eqn:Hts; [|done].
  apply case_targets_ok in Hts as (->&Hnd&Hall). intros [= <-]. split_and!; [done|done|].
  intros Hin. rewrite Forall_forall in Hall. by destruct (Hall _ Hin).
Qed.

(** A branch of a region, and a node of one of its routes. *)
Definition branch_in (byID : gmap string Node) (region : gset string) (id : string) (b : BranchSpec) : Prop :=
  id ∈ region ∧ normalizeKind (N_Kind (node_at byID id)) = KindBranch ∧ N_Branch (node_at byID id) = Some b.

Definition on_route (edges : list Edge) (b : BranchSpec) (t n : string) : Prop :=
  t ∈ targets_of b ∧ reaches edges t n.

(** What holds of a branch whose checks have passed. *)
Record branch_ready (d : Definition_) (byID : gmap string Node) (region : gset string) (delivery : string)
    (b : BranchSpec) : Prop := {
  routes_distinct : NoDup (session_route <$> B_Cases b);
  default_reserved : branchDefaultRoute ∉ session_route <$> B_Cases b;
  route_ready : ∀ t n, on_route (Edges d) b t n → session_ready False delivery (node_at byID n);
  route_closed : ∀ t n source, on_route (Edges d) b t n → source ∈ incoming (Edges d) n →
    source ∈ region ∨ ∃ t', on_route (Edges d) b t' n ∧ on_route (Edges d) b t' source;
}.

Lemma targets_trimmed b t : t ∈ targets_of b → TrimSpace t = t.
Proof.
  unfold targets_of. rewrite elem_of_app, list_elem_of_singleton.
  intros [(x&->&_)%list_elem_of_fmap| ->]; apply TrimSpace_idemp.
Qed.

Lemma branch_node_ok d byID region id b path delivery s s' u :
  validateSessionBranchNode d byID region id b path delivery s = (s', Ok u) →
  grows s s' ∧ branch_ready d byID region delivery b ∧
  ∀ t n, on_route (Edges d) b t n →
    branchChainOwners s' !! n = Some id ∧ n ∈ sessionRegionNodes s'.
Proof.
  unfold validateSessionBranchNode.
  destruct (sessionBranchTargetIDs id b path) as [ts|] eqn:Hts; [|done].
  apply sessionBranchTargetIDs_ok in Hts as (->&Hnd&Hdef).
  intros ([]&s1&Hb&[Hdeps ->]%require_Ok)%M_bind_Ok.
  apply branch_targets_ok in Hb as [Hg Hb]; [|by intros t []%elem_of_nil].
  split; [done|]. split; [split; [done|done| |]|].
  - intros t n [Ht Hn]. destruct (decide (n = t)) as [->|Hne]; [by apply Hb|].
    unfold validateSessionBranchDependencies in Hdeps. rewrite first_error_None, Forall_forall in Hdeps.
    specialize (Hdeps t Ht). rewrite first_error_None, Forall_forall, (targets_trimmed b t Ht) in Hdeps.
    specialize (Hdeps n). rewrite visit_set_elem, sessionRouteChain_reaches in Hdeps.
    apply or_else_None in Hdeps as [Hready _]; [|done]. rewrite bool_decide_eq_false_2 in Hready by done.
    by eapply session_ready_weaken; [|by eapply session_node_ready].
  - intros t n source [Ht Hn] Hsrc.
    unfold validateSessionBranchDependencies in Hdeps. rewrite first_error_None, Forall_forall in Hdeps.
    specialize (Hdeps t Ht). rewrite first_error_None, Forall_forall, (targets_trimmed b t Ht) in Hdeps.
    specialize (Hdeps n). rewrite visit_set_elem, sessionRouteChain_reaches in Hdeps.
    apply or_else_None in Hdeps as [_ Hsrcs]; [|done].
    rewrite first_error_None, Forall_forall in Hsrcs. specialize (Hsrcs source Hsrc).
    case_bool_decide as Hreg; [by left|right]. cbn [orb] in Hsrcs.
    case_bool_decide as Hch; cbn [orb] in Hsrcs.
    { exists t. rewrite sessionRouteChain_reaches in Hch. done. }
    destruct (sessionBranchSiblingSuppliesInput _ _ _ _ _) eqn:Hsib; [|done].
    unfold sessionBranchSiblingSuppliesInput in Hsib. apply existsb_exists in Hsib as (t'&Ht'&Hsib).
    rewrite !andb_true_iff, !bool_decide_eq_true, !sessionRouteChain_reaches in Hsib. destruct Hsib as [[_ Hn'] Hs'].
    apply list_elem_of_In, list_elem_of_fmap in Ht' as (t''&->&Ht'').
    rewrite (targets_trimmed b t'' Ht'') in *. by exists t''.
  - intros t n [Ht Hn]. apply (Hb t Ht). by apply sessionRouteChain_reaches.
Qed.

Lemma branch_routes_ok d byID region path delivery s' u :
  validateSessionBranchRoutes d byID region path delivery (mkClaims ∅ ∅ region) = (s', Ok u) →
  region ⊆ sessionRegionNodes s' ∧
  ∀ id b, branch_in byID region id b →
    branch_ready d byID region delivery b ∧
    ∀ t n, on_route (Edges d) b t n → branchChainOwners s' !! n = Some id ∧ n ∈ sessionRegionNodes s'.
Proof.
  intros H. apply (each_Ok (λ before s, region ⊆ sessionRegionNodes s ∧
    ∀ id b, id ∈ before → branch_in byID region id b →
      branch_ready d byID region delivery b ∧
      ∀ t n, on_route (Edges d) b t n → branchChainOwners s !! n = Some id ∧ n ∈ sessionRegionNodes s)) in H.
  - destruct H as [Hsub H]. split; [done|]. intros id b Hb. apply H; [|done].
    apply visit_set_elem. by destruct Hb.
  - split; [done|]. intros id b []%elem_of_nil.
  - clear s' u H. intros before id s1 s2 Hid [Hsub Hdone] Hf.
    assert (grows s1 s2 ∧ ∀ b, branch_in byID region id b → branch_ready d byID region delivery b ∧
      ∀ t n, on_route (Edges d) b t n → branchChainOwners s2 !! n = Some id ∧ n ∈ sessionRegionNodes s2)
      as [[Ho Hn] Hthis].
    { unfold branch_in, node_at in *. revert Hf. case_bool_decide as Hk.
      - destruct (N_Branch (default no_node (byID !! id))) as [b|] eqn:Hb.
        + intros (?&?&?)%branch_node_ok. split; [done|]. intros b' (_&_&[= <-]). done.
        + intros [= <-]. split; [done|]. by intros b' (_&_&?).
      - intros [= <-]. split; [done|]. by intros b' (_&?&_). }
    split; [by etrans|]. intros id' b Hid' Hb. apply elem_of_app in Hid' as [Hid'|Hid'].
    + destruct (Hdone id' b Hid' Hb) as [Hr Hroute]. split; [done|]. intros t n Htn.
      destruct (Hroute t n Htn). split; [by eapply lookup_weaken|by apply Hn].
    + apply list_elem_of_singleton in Hid' as ->. by apply Hthis.
Qed.

(** ** Regions *)

(** The nodes that a trigger at [entry] can run: its region and the routes. *)
Definition runs_from (d : Definition_) (byID : gmap string Node) (entry n : string) : Prop :=
  let region := sessionRouteChain (Edges d) entry in
  n ∈ region ∨ ∃ id b t, branch_in byID region id b ∧ on_route (Edges d) b t n.

Definition append_target (d : Definition_) (byID : gmap string Node) (id : string) : Prop :=
  (∃ n b, n ∈ Nodes d ∧ normalizeKind (N_Kind n) = KindBranch ∧ N_Branch n = Some b ∧
     id ∈ (Case_To <$> B_Cases b) ++ [B_DefaultTo b]) ∨
  (∃ n l, n ∈ Nodes d ∧ normalizeKind (N_Kind n) = KindLoop ∧ N_Loop n = Some l ∧ id ∈ Body l) ∨
  (∃ e n, e ∈ Edges d ∧ byID !! From e = Some n ∧ normalizeKind (N_Kind n) = KindLoop ∧ To e = id ∧ N_ID n ≠ "").

Record region_ready (d : Definition_) (byID : gmap string Node) (entry delivery : string) : Prop := {
  entry_free : incoming (Edges d) entry = [];
  region_runs : ∀ n, reaches (Edges d) entry n → session_ready True delivery (node_at byID n);
  region_closed : ∀ n source, reaches (Edges d) entry n → source ∈ incoming (Edges d) n →
    reaches (Edges d) entry source;
  region_static : ∀ n, reaches (Edges d) entry n → ¬ append_target d byID n;
  branches_ready : ∀ id b, branch_in byID (sessionRouteChain (Edges d) entry) id b →
    branch_ready d byID (sessionRouteChain (Edges d) entry) delivery b;
  routes_apart : ∀ id id' b b' t t' n,
    branch_in byID (sessionRouteChain (Edges d) entry) id b →
    branch_in byID (sessionRouteChain (Edges d) entry) id' b' →
    on_route (Edges d) b t n → on_route (Edges d) b' t' n → id = id';
  no_conditions : ∀ e n, e ∈ Edges d → runs_from d byID entry n → condition_edge e = true →
    From e ≠ n ∧ To e ≠ n;
}.

Lemma append_target_rejected d byID id path :
  rejectSessionRegionAppendTarget d byID id path = None → ¬ append_target d byID id.
Proof.
  unfold rejectSessionRegionAppendTarget. rewrite or_else_None, !first_error_None, !Forall_forall.
  intros [Hnodes Hedges] [(n&b&Hn&Hk&Hb&Hid)|[(n&l&Hn&Hk&Hl&Hid)|(e&n&He&Hf&Hk&Ht&Hne)]].
  - specialize (Hnodes n Hn). cbn zeta in Hnodes. rewrite Hk, Hb, bool_decide_eq_true_2 in Hnodes by done.
    case_bool_decide as H1; [done|]. case_bool_decide as H2; [done|].
    apply elem_of_app in Hid as [Hid|Hid%list_elem_of_singleton]; congruence.
  - specialize (Hnodes n Hn). cbn zeta in Hnodes.
    rewrite Hk, Hl, bool_decide_eq_false_2, bool_decide_eq_true_2 in Hnodes by done.
    by rewrite bool_decide_eq_true_2 in Hnodes.
  - specialize (Hedges e He). rewrite Hf in Hedges. cbn [default from_option Datatypes.id] in Hedges.
    rewrite bool_decide_eq_false_2, !bool_decide_eq_true_2 in Hedges by done. done.
Qed.

Lemma region_node_ok d byID region id path delivery :
  validateSessionRegionNode d byID region id path delivery = None →
  session_ready True delivery (node_at byID id) ∧
  (∀ source, source ∈ incoming (Edges d) id → source ∈ region) ∧ ¬ append_target d byID id.
Proof.
  unfold validateSessionRegionNode. rewrite !or_else_None. intros (Hready&Hsrc&Hrej). split_and!.
  - by eapply session_ready_weaken; [|by eapply session_node_ready].
  - intros source Hs. rewrite first_error_None, Forall_forall in Hsrc. specialize (Hsrc source Hs).
    by case_bool_decide.
  - by eapply append_target_rejected.
Qed.

Lemma validateSessionRegion_ready d byID entry path delivery :
  validateSessionRegion d byID entry path delivery = None → region_ready d byID entry delivery.
Proof.
  unfold validateSessionRegion, buildSessionRegionGraph.
  destruct (is_nil (incoming (Edges d) entry)) eqn:Hentry; [|done]. rewrite or_else_None.
  set (region := sessionRouteChain (Edges d) entry). intros [Hnodes H].
  destruct (validateSessionBranchRoutes d byID region path delivery _) as [s [[]|]] eqn:Hroutes; [|done].
  apply branch_routes_ok in Hroutes as [Hsub Hbranches].
  assert (∀ n, reaches (Edges d) entry n → session_ready True delivery (node_at byID n) ∧
    (∀ source, source ∈ incoming (Edges d) n → source ∈ region) ∧ ¬ append_target d byID n) as Hregion.
  { intros n Hn. unfold validateSessionRegionNodes in Hnodes. rewrite first_error_None, Forall_forall in Hnodes.
    eapply region_node_ok, Hnodes. apply visit_set_elem. by apply sessionRouteChain_reaches. }
  split.
  - by destruct (incoming (Edges d) entry).
  - intros n Hn. by apply Hregion.
  - intros n source Hn Hs. apply sessionRouteChain_reaches. by apply (Hregion n Hn).
  - intros n Hn. by apply (Hregion n Hn).
  - intros id b Hb. by apply (Hbranches id b Hb).
  - intros id id' b b' t t' n Hb Hb' Hn Hn'.
    destruct (proj2 (Hbranches id b Hb) t n Hn) as [Ho _].
    destruct (proj2 (Hbranches id' b' Hb') t' n Hn') as [Ho' _]. congruence.
  - intros e n He Hn Hc. unfold validateSessionRegionConditionEdges in H.
    rewrite first_error_None, Forall_forall in H. specialize (H e He). rewrite Hc in H. cbn [andb] in H.
    assert (n ∈ sessionRegionNodes s) as Hns.
    { destruct Hn as [Hn|(id&b&t&Hb&Hn)]; [by apply Hsub|]. by apply (proj2 (Hbranches id b Hb) t n Hn). }
    destruct (bool_decide (From e ∈ _)) eqn:Hf; [done|]. destruct (bool_decide (To e ∈ _)) eqn:Ht; [done|].
    apply bool_decide_eq_false in Hf, Ht. split; by intros <-.
Qed.

(** ** Triggers *)

(** A route whose target is written without blanks stays outside the region. *)
Lemma route_outside d byID entry delivery id b t n :
  indexed (Nodes d) byID → region_ready d byID entry delivery →
  branch_in byID (sessionRouteChain (Edges d) entry) id b →
  t ∈ (Case_To <$> B_Cases b) ++ [B_DefaultTo b] → reaches (Edges d) t n → ¬ reaches (Edges d) entry n.
Proof.
  intros Hi Hready (_&Hk&Hb) Ht Hn Hreg.
  apply (region_static _ _ _ _ Hready t).
  - clear Ht. induction Hn as [n|t m n Htm Hmn IH]; [done|].
    apply (region_closed _ _ _ _ Hready m); [by apply IH|].
    apply list_elem_of_fmap in Htm as (e&->&[[Hc <-] He]%list_elem_of_filter).
    apply list_elem_of_fmap. exists e. split; [done|]. by apply list_elem_of_filter.
  - left. unfold node_at in *. destruct (byID !! id) as [m|] eqn:Hm; [|done].
    exists m, b. apply (indexed_lookup _ _ Hi) in Hm as [Hm _]. done.
Qed.

Lemma trigger_ok d byID lanes t path s s' u :
  validateSessionTrigger d byID lanes t path s = (s', Ok u) →
  TrimSpace (EventType t) ∉ seenEvents s ∧ seenEvents s' = {[TrimSpace (EventType t)]} ∪ seenEvents s ∧
  is_Some (byID !! TrimSpace (EntryNode t)) ∧
  region_ready d byID (TrimSpace (EntryNode t)) (EffectiveSessionDelivery (Delivery t)).
Proof.
  unfold validateSessionTrigger. destruct (_ || (128 <? _)%nat); [done|].
  intros (events&s1&[= <- <-]&([]&s2&[Hev ->]%require_Ok&H)%M_bind_Ok)%M_bind_Ok.
  apply M_bind_Ok in H as ([]&s3&[= <-]&([]&s4&[Hentry ->]%require_Ok&H)%M_bind_Ok).
  apply M_bind_Ok in H as ([]&s5&Hlane&[Hregion ->]%require_Ok). split_and!.
  - intros Hin. cbn zeta in Hev. by rewrite bool_decide_eq_true_2 in Hev.
  - destruct (bool_decide (TrimSpace (LaneID t) = "")); [by injection Hlane as <-|].
    destruct (lanes !! TrimSpace (LaneID t)); [|done].
    by apply M_bind_Ok in Hlane as (?&?&[= <- <-]&([]&?&[_ ->]%require_Ok&([]&?&[= <-]&[_ ->]%require_Ok)%M_bind_Ok)%M_bind_Ok).
  - destruct (bool_decide (TrimSpace (EntryNode t) = "")); [done|].
    by destruct (byID !! TrimSpace (EntryNode t)).
  - by apply validateSessionRegion_ready in Hregion.
Qed.

Lemma triggers_ok d byID lanes ts : ∀ i s s' u,
  session_triggers d byID lanes i ts s = (s', Ok u) →
  NoDup ((λ t, TrimSpace (EventType t)) <$> ts) ∧
  ∀ t, t ∈ ts → TrimSpace (EventType t) ∉ seenEvents s ∧ is_Some (byID !! TrimSpace (EntryNode t)) ∧
    region_ready d byID (TrimSpace (EntryNode t)) (EffectiveSessionDelivery (Delivery t)).
Proof.
  induction ts as [|t ts IH]; intros i s s' u; cbn [session_triggers].
  { intros _. split; [constructor|by intros t []%elem_of_nil]. }
  intros ([]&s1&(Hnew&Hs1&Hrest)%trigger_ok&(Hnd&Hall)%IH)%M_bind_Ok. split.
  - cbn. constructor; [|done]. intros (t'&He&Ht')%list_elem_of_fmap. destruct (Hall t' Ht') as [Hn _].
    apply Hn. rewrite Hs1, <- He. apply elem_of_union. left. by apply elem_of_singleton.
  - intros t' [->|Ht']%elem_of_cons; [done|]. destruct (Hall t' Ht') as [Hn ?]. split; [|done].
    intros Hin. apply Hn. rewrite Hs1. by apply elem_of_union_r.
Qed.

(** What the validator has accepted a session flow for. *)
Definition session_ready_flow (d : Definition_) (byID : gmap string Node) (w : SessionWorkflowSpec) : Prop :=
  Triggers w ≠ [] ∧ NoDup ((λ t, TrimSpace (EventType t)) <$> Triggers w) ∧
  ∀ t, t ∈ Triggers w →
    is_Some (byID !! TrimSpace (EntryNode t)) ∧
    region_ready d byID (TrimSpace (EntryNode t)) (EffectiveSessionDelivery (Delivery t)).

Lemma workflow_ready d byID :
  validateSessionWorkflow d byID = None → session_mode d = true →
  ∃ w, SessionWorkflow d = Some w ∧ session_ready_flow d byID w.
Proof.
  unfold validateSessionWorkflow. intros Hv Hmode. rewrite Hmode in Hv. cbn [negb] in Hv.
  destruct (SessionWorkflow d) as [w|]; [|done]. exists w. split; [done|].
  destruct (is_nil (Triggers w)) eqn:Hnil; [done|].
  destruct (session_lanes 0 ∅ (Lanes w)) as [lanes|]; [|done].
  destruct (session_triggers d byID lanes 0 (Triggers w) (mkTaken ∅ ∅)) as [s [[]|]] eqn:Hts; [|done].
  apply triggers_ok in Hts as [Hnd Hall]. split_and!; [by apply is_nil_false|done|].
  intros t Ht. by apply (Hall t Ht).
Qed.

End Spec.
