(* ===== verification/FlowCompileSpec.v ===== *)
(** * What compilation yields

    The compiled nodes are the static ones, their dependencies are the static
    edges of the definition, and they close no cycle. Compilation returns for
    every definition whose worst-case size fits an [int]. *)
From S2P Require Import Prelude GoStrings GoRunes JSON Cycles FlowModel FlowContracts FlowGraph FlowValidate FlowSession FlowCompile FlowSpec.
From Stdlib Require Import Ascii ZArith Lia.

(** ** Maps built from slices *)

Lemma foldl_index {A} (key : A → string) l : ∀ (m : gmap string A) id a,
  NoDup (key <$> l) →
  foldl (λ m x, <[key x := x]> m) m l !! id = Some a ↔
  a ∈ l ∧ key a = id ∨ id ∉ key <$> l ∧ m !! id = Some a.
Proof.
  induction l as [|x l IH]; intros m id a; cbn [fmap list_fmap foldl].
  { intros _. rewrite !elem_of_nil. naive_solver. }
  intros [Hx Hnd]%NoDup_cons. rewrite IH by done. rewrite !elem_of_cons.
  destruct (decide (key x = id)) as [<-|Hne].
  - rewrite lookup_insert_eq. split.
    + intros [[Ha Hk]|[_ [= <-]]]; auto.
    + intros [[[-> | Ha] Hk]|[Hn _]]; [by right|by left|]. destruct Hn. by left.
  - rewrite lookup_insert_ne by done. split.
    + intros [[Ha Hk]|[Hn Hm]]; [by auto|]. right. split; [|done]. intros [->|?]; done.
    + intros [[[-> | Ha] Hk]|[Hn Hm]]; [done|by left|]. right. split; [|done]. intros ?. apply Hn. by right.
Qed.

Lemma foldl_index_empty {A} (key : A → string) l id a :
  NoDup (key <$> l) → foldl (λ (m : gmap string A) x, <[key x := x]> m) ∅ l !! id = Some a ↔ a ∈ l ∧ key a = id.
Proof. intros. rewrite foldl_index, lookup_empty by done. naive_solver. Qed.

Section Spec.
Context {U : Unicode} {J : JSONLib} {O : MapOrder} {F : FlowLib} {H : FlowDigest}.

(** ** What [Validate] has checked *)

Record accepted (d : Definition_) (byID : gmap string Node) : Prop := {
  accepted_index : indexed (Nodes d) byID;
  accepted_nodes : Forall (λ n, validateStaticNode d byID n = None) (Nodes d);
  accepted_edges : Forall (edge_ok byID) (Edges d);
  accepted_acyclic : acyclic (staticIn (Edges d));
  accepted_session : validateSessionWorkflow d byID = None;
  accepted_size : (expanded_nodes 0 (Nodes d) <= MaxNodes)%Z;
}.

Lemma Validate_accepted d : Validate (Some d) = None → ∃ byID, accepted d byID.
Proof.
  unfold Validate. rewrite or_else_None. intros [_ Hv].
  destruct (indexDefinitionNodes d) as [byID|] eqn:Hi; [|done]. exists byID.
  rewrite !or_else_None in Hv. destruct Hv as (_&Hn&He&Hs&Hl).
  apply edges_accepted_iff in He as [He Hac].
  split; [by apply indexed_ok|by apply first_error_None|done|done|done|].
  unfold validateExpandedNodeLimit in Hl. destruct (Z.ltb_spec MaxNodes (expanded_nodes 0 (Nodes d))); done.
Qed.

Lemma Compile_inv fuel d c :
  Compile fuel d = Some (Ok c) →
  ∃ byID nodes edges, accepted d byID ∧ compile_nodes d = Ok nodes ∧
    compile_edges fuel d = Some (Ok edges) ∧ c = assemble d nodes edges.
Proof.
  unfold Compile. destruct (Validate (Some d)) eqn:Hv; [done|].
  apply Validate_accepted in Hv as [byID Hacc].
  destruct (compile_nodes d) as [nodes|]; [|done].
  destruct (compile_edges fuel d) as [[edges|]|]; [|done..]. intros [= <-]. naive_solver.
Qed.

(** ** Sorting *)

Definition descending (m n : CompiledNode) : Prop := str_lt (CN_ID m) (CN_ID n) = false.

Lemma sift_perm n l : sift n l ≡ₚ n :: l.
Proof.
  induction l as [|m l IH]; [done|]. cbn. destruct (str_lt _ _); [|done]. rewrite IH. by apply perm_swap.
Qed.

Lemma sift_sorted n l : StronglySorted descending l → StronglySorted descending (sift n l).
Proof.
  unfold descending. induction l as [|m l IH]; cbn; [by repeat constructor|].
  intros Hl. apply StronglySorted_cons in Hl as Hml. destruct Hml as [Hm Hl'].
  destruct (str_lt (CN_ID n) (CN_ID m)) eqn:Hlt.
  - apply StronglySorted_cons. split; [|by apply IH]. rewrite sift_perm. constructor; [|done].
    apply not_true_iff_false. intros Hmn. pose proof (lt_trans _ _ _ Hlt Hmn) as Hnn. by rewrite lt_irrefl in Hnn.
  - apply StronglySorted_cons. split; [|done]. constructor; [done|].
    rewrite Forall_forall in *. intros r Hr. specialize (Hm r Hr). apply not_true_iff_false. intros Hnr.
    destruct (lt_split (CN_ID n) (CN_ID m) (CN_ID r) Hnr); congruence.
Qed.

Lemma sortNodes_spec l :
  sortNodes l ≡ₚ l ∧ StronglySorted (λ m n, str_lt (CN_ID n) (CN_ID m) = false) (sortNodes l).
Proof.
  unfold sortNodes. enough (∀ acc, StronglySorted descending acc →
    let acc' := foldl (λ sorted n, sift n sorted) acc l in acc' ≡ₚ l ++ acc ∧ StronglySorted descending acc')
    as Hall.
  { destruct (Hall [] ltac:(constructor)) as [Hp Hs]. rewrite app_nil_r in Hp.
    split; [by rewrite reverse_Permutation|]. clear Hp. revert Hs. unfold descending. generalize (foldl (λ sorted n, sift n sorted) [] l) as k.
    induction k as [|n k IH]; [by constructor|]. intros [Hn Hk]%StronglySorted_cons. rewrite reverse_cons.
    apply StronglySorted_app_2; [|by apply IH|by repeat constructor].
    intros m n' Hm ->%list_elem_of_singleton. rewrite Forall_forall in Hn. apply Hn. by apply elem_of_reverse. }
  induction l as [|n l IH]; intros acc Hs0; [by split|].
  destruct (IH (sift n acc)) as [Hp Hs]; [by apply sift_sorted|]. split; [|done].
  cbn. rewrite Hp, sift_perm. by rewrite Permutation_middle.
Qed.

Section Accepted.
Context (d : Definition_) (byID : gmap string Node) (Hacc : accepted d byID).

Lemma raw_ids_distinct : NoDup (N_ID <$> Nodes d).
Proof.
  destruct (accepted_index _ _ Hacc) as [Hnd _ _].
  apply (NoDup_fmap_1 TrimSpace). rewrite <- list_fmap_compose. exact Hnd.
Qed.

Lemma raw_lookup id n : raw_index d !! id = Some n ↔ n ∈ Nodes d ∧ N_ID n = id.
Proof. apply foldl_index_empty, raw_ids_distinct. Qed.

Lemma edge_from_trimmed e : e ∈ Edges d → TrimSpace (From e) = From e ∧ From e ≠ "".
Proof.
  intros He. pose proof (accepted_edges _ _ Hacc) as Hall. rewrite Forall_forall in Hall.
  destruct (Hall e He) as [[n Hn] _]. eapply indexed_key; [by destruct Hacc|exact Hn].
Qed.

Lemma loop_end_iff id : id ≠ "" →
  loop_end (raw_index d) id = true ↔ ∃ n, n ∈ Nodes d ∧ N_ID n = id ∧ normalizeKind (N_Kind n) = KindLoop.
Proof.
  intros Hne. unfold loop_end, is_kind, node_at.
  rewrite andb_true_iff, negb_true_iff, bool_decide_eq_true, bool_decide_eq_false.
  destruct (raw_index d !! id) as [n|] eqn:Hn; cbn [default from_option Datatypes.id].
  - apply raw_lookup in Hn as Hn'. destruct Hn' as [Hin <-]. split.
    + intros [_ Hk]. by exists n.
    + intros (m&Hm&Hid&Hk). assert (raw_index d !! N_ID n = Some m) as Hm' by by apply raw_lookup.
      assert (n = m) as -> by congruence. done.
  - split; [by intros [? _]|]. intros (m&Hm&Hid&Hk).
    assert (raw_index d !! id = Some m) as Hm' by by apply raw_lookup. congruence.
Qed.

(** ** Static nodes *)

Definition compiled_statically (n : Node) : Prop :=
  normalizeKind (N_Kind n) ≠ KindLoop ∧
  (normalizeKind (N_Kind n) = KindBranch ∨ N_ID n ∉ appendTargets d).

Lemma compileStaticNode_ok n o :
  compileStaticNode d (raw_index d) n = Ok o →
  match o with
  | Some cn => compiled_statically n ∧ CN_ID cn = N_ID n ∧ CN_Kind cn = normalizeKind (N_Kind n) ∧
               CN_DependsOn cn = [] ∧ CN_HandoffFrom cn = []
  | None => ¬ compiled_statically n
  end.
Proof.
  unfold compileStaticNode, compiled_statically.
  destruct (bool_decide (normalizeKind (N_Kind n) = KindLoop)) eqn:Hl.
  { apply bool_decide_eq_true in Hl. intros [= <-]. by intros [? _]. }
  apply bool_decide_eq_false in Hl.
  destruct (bool_decide (normalizeKind (N_Kind n) = KindBranch)) eqn:Hb; cbn [negb andb].
  - apply bool_decide_eq_true in Hb. destruct (N_Branch n).
    + destruct (bool_decide (branchSource _ _ = "")); [done|]. intros [= <-]. cbn. auto.
    + intros [= <-]. cbn. auto.
  - apply bool_decide_eq_false in Hb. destruct (bool_decide (N_ID n ∈ appendTargets d)) eqn:Ht.
    + apply bool_decide_eq_true in Ht. destruct (existsb _ _); [done|]. intros [= <-]. naive_solver.
    + apply bool_decide_eq_false in Ht. destruct (N_Branch n); intros [= <-]; cbn; auto.
Qed.

Lemma compiled_from_id ns cns cn :
  Forall2 (λ n o, compileStaticNode d (raw_index d) n = Ok o) ns cns → cn ∈ omap Datatypes.id cns →
  ∃ n, n ∈ ns ∧ compileStaticNode d (raw_index d) n = Ok (Some cn) ∧ CN_ID cn = N_ID n.
Proof.
  induction 1 as [|n o ns cns Hn Hcns IH]; [by intros []%elem_of_nil|].
  assert (cn ∈ omap Datatypes.id (o :: cns) ↔ o = Some cn ∨ cn ∈ omap Datatypes.id cns) as ->.
  { destruct o; cbn; rewrite ?elem_of_cons; naive_solver. }
  intros [->|Hcn].
  - apply compileStaticNode_ok in Hn as Hid. exists n. split_and!; [by left|done|by destruct Hid as (_&?&_)].
  - destruct (IH Hcn) as (m&?&?). exists m. split; [by right|done].
Qed.

Lemma compileStaticNodes_ok nodes idx :
  compileStaticNodes d (raw_index d) = Ok (nodes, idx) →
  idx = index_compiled nodes ∧ NoDup (CN_ID <$> nodes) ∧
  (∀ cn, cn ∈ nodes → ∃ n, n ∈ Nodes d ∧ compileStaticNode d (raw_index d) n = Ok (Some cn)) ∧
  (∀ n, n ∈ Nodes d → N_ID n ∈ CN_ID <$> nodes ↔ compiled_statically n).
Proof.
  unfold compileStaticNodes. intros (cns&Hcns&[= <- <-])%result_bind_Ok. apply result_map_Ok in Hcns.
  split; [done|]. cut (NoDup (CN_ID <$> omap Datatypes.id cns) ∧ ∀ n, n ∈ Nodes d →
    N_ID n ∈ CN_ID <$> omap Datatypes.id cns ↔ compiled_statically n).
  { intros [Hnd Hin]. split_and!; [done| |done]. intros cn Hcn.
    destruct (compiled_from_id _ _ cn Hcns Hcn) as (n&?&?&_). by exists n. }
  pose proof raw_ids_distinct as Hnd. revert Hcns Hnd. generalize (Nodes d) as ns.
  intros ns Hcns. induction Hcns as [|n o ns cns Hn Hcns IH]; intros Hnd.
  { split; [constructor|by intros n []%elem_of_nil]. }
  rewrite fmap_cons in Hnd. apply NoDup_cons in Hnd as [Hfresh Hnd]. destruct (IH Hnd) as [Hnd' Hin].
  assert (N_ID n ∉ CN_ID <$> omap Datatypes.id cns) as Hnew.
  { intros (cn&Hid&Hcn)%list_elem_of_fmap. destruct (compiled_from_id _ _ cn Hcns Hcn) as (m&Hm&_&He).
    apply Hfresh. rewrite Hid, He. by apply list_elem_of_fmap_2. }
  assert (∀ m, m ∈ ns → N_ID m ≠ N_ID n) as Hother.
  { intros m Hm He. apply Hfresh. rewrite <- He. by apply list_elem_of_fmap_2. }
  apply compileStaticNode_ok in Hn. destruct o as [cn|]; cbn [omap list_omap Datatypes.id].
  - destruct Hn as (Hst&Hid&_). rewrite fmap_cons, Hid. split; [by constructor|].
    intros m [->|Hm]%elem_of_cons; rewrite elem_of_cons; [split; [done|by left]|].
    rewrite <- (Hin m Hm). specialize (Hother m Hm). naive_solver.
  - split; [done|]. intros m [->|Hm]%elem_of_cons; [done|by apply Hin].
Qed.

(** ** Static edges *)

(** A static edge that compilation folds into its target. *)
Definition folds (keep : Edge → Prop) (x id : string) (e : Edge) : Prop :=
  static_edge e = true ∧ To e = id ∧ From e = x ∧ keep e ∧
  loop_end (raw_index d) (To e) = false ∧ loop_end (raw_index d) (From e) = false.
Definition folded (edges : list Edge) (keep : Edge → Prop) (x id : string) : Prop :=
  ∃ e, e ∈ edges ∧ folds keep x id e.
Definition is_handoff (e : Edge) : Prop := normalizeEdgeType (EdgeType e) = EdgeHandoff.

Lemma appendUnique_spec l v :
  TrimSpace v = v → v ≠ "" →
  (∀ x, x ∈ appendUnique l v ↔ x ∈ l ∨ x = v) ∧ (NoDup l → NoDup (appendUnique l v)).
Proof.
  intros Ht Hne. unfold appendUnique. rewrite Ht, bool_decide_eq_false_2 by done.
  case_bool_decide as Hin; [split; [naive_solver|done]|]. split.
  - intros x. by rewrite elem_of_app, list_elem_of_singleton.
  - intros Hl. apply NoDup_app. split_and!; [done| |apply NoDup_singleton].
    intros x Hx ->%list_elem_of_singleton. done.
Qed.

(** How folding [edges] has changed the node [id]. *)
Definition grown (edges : list Edge) (id : string) (cn cn' : CompiledNode) : Prop :=
  cn' = set_deps (CN_DependsOn cn') (CN_HandoffFrom cn') cn ∧
  (∀ x, x ∈ CN_DependsOn cn' ↔ x ∈ CN_DependsOn cn ∨ folded edges (λ _, True) x id) ∧
  (∀ x, x ∈ CN_HandoffFrom cn' ↔ x ∈ CN_HandoffFrom cn ∨ folded edges is_handoff x id) ∧
  (NoDup (CN_DependsOn cn) → NoDup (CN_DependsOn cn')).

Lemma folded_nil keep x id : ¬ folded [] keep x id.
Proof. by intros (e&[]%elem_of_nil&_). Qed.

Lemma folded_one e keep x id : folded [e] keep x id ↔ folds keep x id e.
Proof.
  unfold folded. split; [by intros (e'&->%list_elem_of_singleton&?)|]. exists e. split; [by left|done].
Qed.

Lemma folded_cons e edges keep x id :
  folded (e :: edges) keep x id ↔ folded [e] keep x id ∨ folded edges keep x id.
Proof.
  rewrite folded_one. unfold folded. split.
  - intros (e'&[->|He]%elem_of_cons&Hf); [by left|right; by exists e'].
  - intros [Hf|(e'&He&Hf)]; [exists e; split; [by left|done]|exists e'; split; [by right|done]].
Qed.

Lemma grown_trans e edges id cn1 cn2 cn3 :
  grown [e] id cn1 cn2 → grown edges id cn2 cn3 → grown (e :: edges) id cn1 cn3.
Proof.
  intros (H1&Hd1&Hh1&Hn1) (H2&Hd2&Hh2&Hn2). split_and!.
  - rewrite H2 at 1. rewrite H1 at 1. done.
  - intros x. rewrite Hd2, Hd1, (folded_cons e edges). tauto.
  - intros x. rewrite Hh2, Hh1, (folded_cons e edges). tauto.
  - auto.
Qed.

Lemma grown_same e id cn : (∀ keep x, ¬ folded [e] keep x id) → grown [e] id cn cn.
Proof. intros Hno. split_and!; [by destruct cn|naive_solver..]. Qed.

Lemma foldStaticEdges_ok edges : ∀ m m',
  (∀ e, e ∈ edges → TrimSpace (From e) = From e ∧ From e ≠ "") →
  foldStaticEdges edges (raw_index d) m = Ok m' →
  ∀ id, match m !! id with
        | Some cn => ∃ cn', m' !! id = Some cn' ∧ grown edges id cn cn'
        | None => m' !! id = None
        end.
Proof.
  induction edges as [|e edges IH]; intros m m' Htrim; cbn [foldStaticEdges].
  { intros [= <-] id. destruct (m !! id) as [cn|]; [|done]. exists cn. split; [done|].
    split_and!; [by destruct cn| | |done]; intros x; split; [by left|intros [?|[]%folded_nil]; done|
      by left|intros [?|[]%folded_nil]; done]. }
  assert (∀ e, e ∈ edges → TrimSpace (From e) = From e ∧ From e ≠ "") as Htrim'.
  { intros e' He'. apply Htrim. by right. }
  destruct (negb (static_edge e) || loop_end (raw_index d) (To e) || loop_end (raw_index d) (From e)) eqn:Hskip.
  - intros Hfold id. specialize (IH m m' Htrim' Hfold id). destruct (m !! id) as [cn|]; [|done].
    destruct IH as (cn'&Hcn'&Hg). exists cn'. split; [done|]. eapply grown_trans; [|exact Hg].
    apply grown_same. intros keep x (Hs&_&_&_&Ht&Hf)%folded_one.
    by rewrite Hs, Ht, Hf in Hskip.
  - apply orb_false_iff in Hskip as [[Hs%negb_false_iff Ht]%orb_false_iff Hf].
    destruct (m !! To e) as [cn|] eqn:Hcn; [|done]. intros Hfold id.
    specialize (IH _ m' Htrim' Hfold id). destruct (decide (To e = id)) as [<-|Hne].
    + rewrite lookup_insert_eq in IH. rewrite Hcn. destruct IH as (cn'&Hcn'&Hg). exists cn'. split; [done|].
      eapply grown_trans; [|exact Hg]. destruct (Htrim e) as [Htr Hnb]; [by left|].
      destruct (appendUnique_spec (CN_DependsOn cn) (From e) Htr Hnb) as [Hd Hnd].
      destruct (appendUnique_spec (CN_HandoffFrom cn) (From e) Htr Hnb) as [Hh _].
      assert (∀ keep x, folded [e] keep x (To e) ↔ x = From e ∧ keep e) as Hone.
      { intros keep x. rewrite folded_one. unfold folds. split; [by intros (_&_&<-&?&_)|by intros [-> ?]]. }
      split_and!; cbn [CN_DependsOn CN_HandoffFrom set_deps]; [done| | |done]; intros x; rewrite Hone.
      * rewrite Hd. naive_solver.
      * unfold is_handoff. case_bool_decide; rewrite ?Hh; tauto.
    + rewrite lookup_insert_ne in IH by done. destruct (m !! id) as [cn0|]; [|done].
      destruct IH as (cn'&Hcn'&Hg). exists cn'. split; [done|]. eapply grown_trans; [|exact Hg].
      apply grown_same. by intros keep x (_&?&_)%folded_one.
Qed.

(** The compiled node of [n]: lowered alone, then given what its static edges say. *)
Record compiled_node (n : Node) (cn : CompiledNode) : Prop := {
  lowered : ∃ cn0, compileStaticNode d (raw_index d) n = Ok (Some cn0) ∧
              cn = set_deps (CN_DependsOn cn) (CN_HandoffFrom cn) cn0;
  compiled_id : CN_ID cn = N_ID n;
  compiled_kind : CN_Kind cn = normalizeKind (N_Kind n);
  compiled_deps_distinct : NoDup (CN_DependsOn cn);
  compiled_deps : ∀ x, x ∈ CN_DependsOn cn ↔ folded (Edges d) (λ _, True) x (N_ID n);
  compiled_handoffs : ∀ x, x ∈ CN_HandoffFrom cn ↔ folded (Edges d) is_handoff x (N_ID n);
}.

Lemma compile_nodes_ok nodes :
  compile_nodes d = Ok nodes →
  NoDup (CN_ID <$> nodes) ∧
  (∀ n, n ∈ Nodes d → N_ID n ∈ CN_ID <$> nodes ↔ compiled_statically n) ∧
  ∀ cn, cn ∈ nodes → ∃ n, n ∈ Nodes d ∧ compiled_node n cn.
Proof.
  unfold compile_nodes. intros ([nodes0 idx]&Hst&(m'&Hfold&[= <-])%result_bind_Ok)%result_bind_Ok.
  apply compileStaticNodes_ok in Hst as (->&Hnd&Hfrom&Hin).
  pose proof (foldStaticEdges_ok _ _ _ edge_from_trimmed Hfold) as Hfolded. clear Hfold. rename Hfolded into Hfold.
  assert (∀ cn, cn ∈ nodes0 → ∃ cn', default cn (m' !! CN_ID cn) = cn' ∧ grown (Edges d) (CN_ID cn) cn cn') as Hsync.
  { intros cn Hcn. specialize (Hfold (CN_ID cn)).
    assert (index_compiled nodes0 !! CN_ID cn = Some cn) as Hl by by apply foldl_index_empty.
    rewrite Hl in Hfold. destruct Hfold as (cn'&->&Hg). by exists cn'. }
  assert (CN_ID <$> syncCompiledNodes nodes0 m' = CN_ID <$> nodes0) as Hids.
  { unfold syncCompiledNodes. rewrite <- list_fmap_compose. apply list_fmap_ext. intros i cn Hcn.
    destruct (Hsync cn) as (cn'&Hd&[Hset _]); [by eapply list_elem_of_lookup_2|].
    cbn. rewrite Hd. by rewrite Hset. }
  rewrite Hids. split_and!; [done|done|].
  intros cn' (cn&->&Hcn)%list_elem_of_fmap. destruct (Hsync cn Hcn) as (cn'&->&Hset&Hd&Hh&Hn).
  destruct (Hfrom cn Hcn) as (n&Hnin&Hlow). exists n. split; [done|].
  apply compileStaticNode_ok in Hlow as Hlow'. destruct Hlow' as (_&Hid&Hk&Hd0&Hh0).
  rewrite Hid, ?Hd0, ?Hh0 in *. split.
  - by exists cn.
  - by rewrite Hset.
  - by rewrite Hset.
  - apply Hn. constructor.
  - intros x. rewrite Hd, elem_of_nil. tauto.
  - intros x. rewrite Hh, elem_of_nil. tauto.
Qed.

End Accepted.

(** ** Nodes *)

(** C22: compilation yields, sorted by id and without duplicates, one node for
    each node of the definition that is no loop and, unless it is a branch, no
    append target; it has the kind of its source and depends on exactly the
    sources of the static edges into it that no loop node starts, each once. *)
Theorem compiled_nodes_exact fuel d c :
  Compile fuel d = Some (Ok c) →
  NoDup (CN_ID <$> Comp_Nodes c) ∧
  StronglySorted (λ m n, str_lt (CN_ID n) (CN_ID m) = false) (Comp_Nodes c) ∧
  (∀ n, n ∈ Nodes d → N_ID n ∈ CN_ID <$> Comp_Nodes c ↔
     normalizeKind (N_Kind n) ≠ KindLoop ∧
     (normalizeKind (N_Kind n) = KindBranch ∨ N_ID n ∉ appendTargets d)) ∧
  ∀ cn, cn ∈ Comp_Nodes c → ∃ n, n ∈ Nodes d ∧ compiled_node d n cn.
Proof.
  intros (byID&nodes&edges&Hacc&Hn&_&->)%Compile_inv. cbn [Comp_Nodes assemble].
  destruct (compile_nodes_ok d byID Hacc nodes Hn) as (Hnd&Hin&Hfrom).
  destruct (sortNodes_spec nodes) as [Hp Hs]. split_and!; [|done| |].
  - by rewrite Hp.
  - intros n Hnin. rewrite Hp. by apply Hin.
  - intros cn Hcn. rewrite Hp in Hcn. by apply Hfrom.
Qed.

(** No compiled node depends on itself, through any number of steps. *)
Theorem compiled_acyclic fuel d c :
  Compile fuel d = Some (Ok c) →
  ∀ a, ¬ tc (λ a b, ∃ cn, cn ∈ Comp_Nodes c ∧ CN_ID cn = a ∧ b ∈ CN_DependsOn cn) a a.
Proof.
  intros (byID&nodes&edges&Hacc&Hn&_&->)%Compile_inv a Ha. cbn [Comp_Nodes assemble] in Ha.
  apply (accepted_acyclic _ _ Hacc a). revert Ha. apply (tc_congruence (λ x, x)).
  intros x y (cn&Hcn&<-&Hy). rewrite (proj1 (sortNodes_spec nodes)) in Hcn.
  destruct (proj2 (proj2 (compile_nodes_ok d byID Hacc nodes Hn)) cn Hcn) as (n&_&Hc).
  destruct (proj1 (compiled_deps _ _ _ Hc y) Hy) as (e&He&Hs&Ht&Hf&_). rewrite (compiled_id _ _ _ Hc).
  apply list_elem_of_fmap. exists e. split; [done|]. by apply list_elem_of_filter.
Qed.

End Spec.
