(* ===== verification/FlowCompileEdges.v ===== *)
(** * Compilation: termination, edges and digest

    Compilation returns for every definition whose worst-case size fits an
    [int], and what it returns does not depend on the fuel; the edges of a
    branch are the ports of its gateway. *)
From S2P Require Import Prelude GoStrings GoRunes JSON Cycles FlowModel FlowContracts FlowGraph FlowValidate FlowSession FlowCompile FlowSpec FlowCompileSpec.
From Stdlib Require Import Ascii ZArith Lia.

Section Spec.
Context {U : Unicode} {J : JSONLib} {O : MapOrder} {F : FlowLib} {H : FlowDigest}.

(** ** The size of an expanded flow *)

Definition loop_size (n : Node) : Z :=
  match N_Loop n with
  | Some l => if (0 <? L_MaxIterations l)%Z then L_MaxIterations l * Z.of_nat (length (Body l)) else 0
  | None => 0
  end.
(** The nodes of a run that takes every iteration, counted without overflow. *)
Definition worst_case (nodes : list Node) : Z := foldr (λ n z, 1 + loop_size n + z)%Z 0%Z nodes.

Lemma loop_size_nonneg n : (0 <= loop_size n)%Z.
Proof. unfold loop_size. destruct (N_Loop n) as [l|]; [|done]. destruct (Z.ltb_spec 0 (L_MaxIterations l)); lia. Qed.

Lemma worst_case_cons n nodes : worst_case (n :: nodes) = (1 + loop_size n + worst_case nodes)%Z.
Proof. done. Qed.

Lemma worst_case_nonneg nodes : (Z.of_nat (length nodes) <= worst_case nodes)%Z.
Proof.
  induction nodes as [|n nodes IH]; [done|]. rewrite worst_case_cons. cbn [length].
  pose proof (loop_size_nonneg n). lia.
Qed.

Lemma worst_case_loop nodes n : n ∈ nodes → (loop_size n <= worst_case nodes)%Z.
Proof.
  induction 1 as [n nodes|n m nodes _ IH]; rewrite worst_case_cons.
  - pose proof (worst_case_nonneg nodes). lia.
  - pose proof (loop_size_nonneg m). lia.
Qed.

Lemma expanded_nodes_exact nodes : ∀ z,
  (0 <= z)%Z → (z + worst_case nodes <= int_max)%Z → expanded_nodes z nodes = (z + worst_case nodes)%Z.
Proof.
  induction nodes as [|n nodes IH]; intros z Hz Hmax; cbn [expanded_nodes]; [unfold worst_case in *; cbn in *; lia|].
  rewrite worst_case_cons in *. pose proof (worst_case_nonneg nodes). pose proof (loop_size_nonneg n) as Hl.
  assert (∀ x, (0 <= x <= int_max)%Z → wrap64 x = x) as Hwrap.
  { intros x Hx. apply wrap64_id. unfold is_int, int_min in *. lia. }
  rewrite (Hwrap (z + 1)%Z) by lia. unfold loop_size in *.
  destruct (N_Loop n) as [l|]; [destruct (0 <? L_MaxIterations l)%Z|].
  2, 3: rewrite IH; lia.
  rewrite (Hwrap (L_MaxIterations l * _)%Z), Hwrap by lia. rewrite IH; lia.
Qed.

(** A definition whose worst-case size fits an [int] is accepted only if
    a run of it has at most 64 nodes, all iterations of all loops included. *)
Theorem accepted_size_bound d :
  (worst_case (Nodes d) <= int_max)%Z → Validate (Some d) = None →
  (worst_case (Nodes d) <= MaxNodes)%Z.
Proof.
  intros Hmax [byID Hacc]%Validate_accepted. pose proof (accepted_size _ _ Hacc) as Hsize.
  rewrite expanded_nodes_exact in Hsize; lia.
Qed.

(** ** Termination *)

Lemma iteration_collision_returns byID body max fuel : ∀ i,
  (0 <= i)%Z → (max < int_max)%Z → (max + 1 - i < Z.of_nat fuel)%Z → 0 < fuel →
  is_Some (iteration_collision fuel byID body i max).
Proof.
  induction fuel as [|fuel IH]; intros i Hi Hmax Hfuel Hpos; [lia|]. cbn [iteration_collision].
  destruct (Z.ltb_spec max i); [by eexists|]. destruct (byID !! _); [by eexists|].
  rewrite wrap64_id by (unfold is_int, int_min; lia). apply IH; lia.
Qed.

Lemma compile_loops_returns fuel byID edges nodes : ∀ o,
  Forall (λ n, ∀ l, N_Loop n = Some l → length (Body l) = 1 →
    (L_MaxIterations l < int_max)%Z ∧ (L_MaxIterations l < Z.of_nat fuel)%Z) nodes → 0 < fuel →
  is_Some (compile_loops fuel byID edges o nodes).
Proof.
  induction nodes as [|n nodes IH]; intros o Hall Hpos; [by eexists|].
  apply Forall_cons in Hall as [Hn Hall]. cbn [compile_loops].
  destruct (N_Loop n) as [l|]; [|by apply IH]. destruct (is_kind KindLoop n); [|by apply IH].
  specialize (Hn l eq_refl). assert (is_Some (compileLoop fuel byID n l edges o)) as [r Hr].
  { unfold compileLoop. destruct (Body l) as [|body [|]]; [by eexists| |by eexists].
    destruct (byID !! body) as [b|]; [|by eexists]. destruct (bool_decide _); [by eexists|].
    destruct (bodyOwners o !! _); [by eexists|]. destruct Hn as [H1 H2]; [done|].
    destruct (iteration_collision_returns byID (N_ID b) (L_MaxIterations l) fuel 1) as [c Hc]; [lia..|].
    rewrite Hc. cbn. destruct c; [by eexists|]. destruct (bool_decide _); [by eexists|].
    destruct (keyOwners o !! _); by eexists. }
  rewrite Hr. cbn. destruct r as [[compiled o']|]; [|by eexists].
  destruct (IH o' Hall Hpos) as [r' ->]. by eexists.
Qed.

(** C27: compilation returns, with an error or a compiled flow, for every
    definition whose worst-case size fits an [int]; 65 rounds of the one
    unbounded loop are enough. *)
Theorem Compile_terminates d : (worst_case (Nodes d) <= int_max)%Z → is_Some (Compile 65 d).
Proof.
  intros Hmax. unfold Compile. destruct (Validate (Some d)) eqn:Hv; [by eexists|].
  destruct (compile_nodes d); [|by eexists].
  enough (is_Some (compile_edges 65 d)) as [r ->] by by eexists. unfold compile_edges.
  destruct (compileConditionEdges d (raw_index d) ≫= _); [|by eexists].
  enough (is_Some (compileLoopEdges 65 d (raw_index d))) as [r ->] by by eexists.
  apply Validate_accepted in Hv as [byID Hacc]. apply compile_loops_returns; [|lia].
  apply Forall_forall. intros n Hn l Hl Hlen.
  pose proof (worst_case_loop _ n Hn) as Hle. pose proof (accepted_size _ _ Hacc) as Hsize.
  rewrite expanded_nodes_exact in Hsize by lia. unfold MaxNodes in Hsize.
  unfold loop_size in Hle. rewrite Hl, Hlen in Hle. unfold int_max in *.
  destruct (Z.ltb_spec 0 (L_MaxIterations l)); lia.
Qed.

(** More fuel changes no result. *)
Lemma iteration_collision_mono fuel fuel' byID body max : ∀ i r,
  fuel ≤ fuel' → iteration_collision fuel byID body i max = Some r →
  iteration_collision fuel' byID body i max = Some r.
Proof.
  revert fuel'. induction fuel as [|fuel IH]; intros [|fuel'] i r Hle; [done|done|lia|]. cbn.
  destruct (max <? i)%Z; [done|]. destruct (byID !! _); [done|]. apply IH. lia.
Qed.

Lemma compileLoop_mono fuel fuel' byID n l edges o r :
  fuel ≤ fuel' → compileLoop fuel byID n l edges o = Some r → compileLoop fuel' byID n l edges o = Some r.
Proof.
  intros Hle. unfold compileLoop. destruct (Body l) as [|body [|]]; [done| |done].
  destruct (byID !! body) as [b|]; [|done]. destruct (bool_decide _); [done|].
  destruct (bodyOwners o !! _); [done|]. intros (c&Hc&Hr)%bind_Some.
  by rewrite (iteration_collision_mono fuel fuel' _ _ _ _ c).
Qed.

Lemma compile_loops_mono fuel fuel' byID edges nodes : ∀ o r,
  fuel ≤ fuel' → compile_loops fuel byID edges o nodes = Some r → compile_loops fuel' byID edges o nodes = Some r.
Proof.
  induction nodes as [|n nodes IH]; intros o r Hle; cbn [compile_loops]; [done|].
  destruct (N_Loop n) as [l|]; [|by apply IH]. destruct (is_kind KindLoop n); [|by apply IH].
  intros (c&Hc&Hr)%bind_Some. rewrite (compileLoop_mono fuel fuel' _ _ _ _ _ c Hle Hc). cbn.
  destruct c as [[compiled o']|]; [|done]. apply bind_Some in Hr as (r'&Hr'&[= <-]).
  by rewrite (IH o' r').
Qed.

Lemma compile_edges_mono fuel fuel' d r :
  fuel ≤ fuel' → compile_edges fuel d = Some r → compile_edges fuel' d = Some r.
Proof.
  intros Hle. unfold compile_edges. destruct (compileConditionEdges d (raw_index d) ≫= _); [|done].
  intros (r'&Hr'&[= <-])%bind_Some. unfold compileLoopEdges in *.
  by rewrite (compile_loops_mono fuel fuel' _ _ _ _ r' Hle Hr').
Qed.

Lemma Compile_mono fuel fuel' d r : fuel ≤ fuel' → Compile fuel d = Some r → Compile fuel' d = Some r.
Proof.
  intros Hle. unfold Compile. destruct (Validate (Some d)); [done|]. destruct (compile_nodes d); [|done].
  intros (r'&Hr'&[= <-])%bind_Some. by rewrite (compile_edges_mono fuel fuel' d r' Hle Hr').
Qed.

(** ** Control-flow edges *)

Lemma compiled_edge_ids_None edges : ∀ seen,
  compiled_edge_ids seen edges = None ↔ NoDup (CE_ID <$> edges) ∧ ∀ e, e ∈ edges → CE_ID e ∉ seen.
Proof.
  induction edges as [|e edges IH]; intros seen; cbn [compiled_edge_ids].
  { split; [|done]. split; [constructor|]. by intros e []%elem_of_nil. }
  rewrite fmap_cons, NoDup_cons. case_bool_decide as Hseen.
  - split; [done|]. intros [_ Hall]. exfalso. apply (Hall e); [by left|done].
  - rewrite IH. setoid_rewrite elem_of_cons. split.
    + intros [Hnd Hall]. split_and!; [|done|].
      * intros (e'&Hid&He')%list_elem_of_fmap. apply (Hall e' He'). by left.
      * intros e' [->|He'] Hin; [done|]. apply (Hall e' He'). by right.
    + intros [[Hfresh Hnd] Hall]. split; [done|]. intros e' He' [Heq|Hin].
      * apply Hfresh. rewrite <- Heq. by apply list_elem_of_fmap_2.
      * apply (Hall e'); [by right|done].
Qed.

(** The routes of a branch: the names its gateway writes, each with the node
    appended for it. *)
Definition routes (b : BranchSpec) : list (string * string) :=
  ((λ c, (branchRoute c, Case_To c)) <$> B_Cases b) ++ [(branchDefaultRoute, B_DefaultTo b)].

Definition route_of (e : CompiledEdge) : string * string := (C_Choice (CE_When e), CN_ID (Append e)).

(** An edge that fires on the choice of the node [from]. *)
Definition choice_edge (from : string) (e : CompiledEdge) : Prop :=
  CE_From e = from ∧ FromPrefix e = "" ∧ CE_When e = when_choice (C_Choice (CE_When e)).

Section Accepted.
Context (d : Definition_) (byID : gmap string Node) (Hacc : accepted d byID).

Lemma compile_cases_ok branchID cases : ∀ i es,
  compile_cases (raw_index d) branchID i cases = Ok es →
  route_of <$> es = (λ c, (branchRoute c, Case_To c)) <$> cases ∧ Forall (choice_edge branchID) es.
Proof.
  induction cases as [|c cases IH]; intros i es; cbn [compile_cases].
  { intros [= <-]. split; [done|constructor]. }
  destruct (raw_index d !! Case_To c) as [n|] eqn:Hn; [|done].
  apply (raw_lookup d byID Hacc) in Hn as [_ Hid].
  intros (es'&Hes'&[= <-])%result_bind_Ok. destruct (IH _ _ Hes') as [Hr Hall]. split.
  - cbn. rewrite Hr. unfold route_of. cbn. by rewrite Hid.
  - by constructor.
Qed.

Lemma compileBranchNode_ok n b es :
  compileBranchNode (raw_index d) n = Ok es → normalizeKind (N_Kind n) = KindBranch → N_Branch n = Some b →
  is_Some (raw_index d !! B_DefaultTo b) →
  route_of <$> es = routes b ∧ Forall (choice_edge (N_ID n)) es.
Proof.
  unfold compileBranchNode, is_kind. intros Hes Hk Hb [m Hm]. rewrite Hb, bool_decide_eq_true_2, Hm in Hes by done.
  apply result_bind_Ok in Hes as (es'&Hes'&[= <-]). apply compile_cases_ok in Hes' as [Hr Hall].
  apply (raw_lookup d byID Hacc) in Hm as [_ Hid]. split.
  - rewrite fmap_app, Hr. unfold routes, route_of. cbn. by rewrite Hid.
  - apply Forall_app. split; [done|]. by repeat constructor.
Qed.

Lemma compile_edges_ok fuel edges :
  compile_edges fuel d = Some (Ok edges) →
  NoDup (CE_ID <$> edges) ∧
  ∀ n, n ∈ Nodes d → ∃ es, compileBranchNode (raw_index d) n = Ok es ∧ es ⊆ edges.
Proof.
  unfold compile_edges. destruct (compileConditionEdges d (raw_index d)) as [conds|]; [|done]. cbn [mbind result_bind].
  destruct (compileBranchEdges d (raw_index d)) as [branches|] eqn:Hb; [|done]. cbn [mbind result_bind].
  intros (r&_&[= Hr])%bind_Some. destruct r as [loops|]; [|done]. cbn in Hr.
  destruct (validateCompiledEdgeIDs _) eqn:Hids; [done|]. injection Hr as <-. split.
  - by apply compiled_edge_ids_None in Hids as [? _].
  - intros n Hn. apply result_bind_Ok in Hb as (bs&Hbs&[= <-]). apply result_map_Ok in Hbs.
    apply list_elem_of_lookup in Hn as [i Hi]. destruct (Forall2_lookup_l _ _ _ _ _ Hbs Hi) as (es&Hes&?).
    exists es. split; [done|]. intros e He. rewrite !elem_of_app. left. right.
    apply list_elem_of_lookup_2 in Hes. apply list_elem_of_In, in_concat. exists es.
    by rewrite <- !list_elem_of_In.
Qed.

End Accepted.

(** The ports of the gateway of [n]. *)
Definition ports (cn : CompiledNode) : list string :=
  match CN_Branch cn with Some cb => CC_Name <$> CB_Cases cb | None => [] end.

(** The edges of a branch whose targets are written without blanks are the
    ports of its gateway: one for each case, in order, under the name the
    gateway writes and with the target of the case, then the default; each
    fires on nothing but the choice of this branch. No two compiled edges share
    an id. *)
Theorem branch_ports fuel d c n b :
  Compile fuel d = Some (Ok c) → n ∈ Nodes d →
  normalizeKind (N_Kind n) = KindBranch → N_Branch n = Some b →
  B_DefaultTo b ∈ N_ID <$> Nodes d →
  NoDup (CE_ID <$> Comp_Edges c) ∧
  ∃ es cn, es ⊆ Comp_Edges c ∧ Forall (choice_edge (N_ID n)) es ∧ route_of <$> es = routes b ∧
    cn ∈ Comp_Nodes c ∧ CN_ID cn = N_ID n ∧ ports cn ++ [branchDefaultRoute] = (routes b).*1.
Proof.
  intros HC Hn Hk Hb (m&Hdef&Hm)%list_elem_of_fmap.
  apply Compile_inv in HC as (byID&nodes&edges&Hacc&Hnodes&Hedges&->). cbn [Comp_Edges Comp_Nodes assemble].
  destruct (compile_edges_ok d fuel edges Hedges) as [Hids Hbranch]. split; [done|].
  destruct (Hbranch n Hn) as (es&Hes&Hsub). exists es.
  apply (compileBranchNode_ok d byID Hacc n b) in Hes as [Hr Hall]; [|done|done|].
  2: { exists m. by apply (raw_lookup d byID Hacc). }
  destruct (compile_nodes_ok d byID Hacc nodes Hnodes) as (Hnd&Hin&Hfrom).
  assert (N_ID n ∈ CN_ID <$> nodes) as (cn&Hid&Hcn)%list_elem_of_fmap.
  { apply Hin; [done|]. unfold compiled_statically. rewrite Hk. by split; [|left]. }
  exists cn. split_and!; [done|done|done| |done|].
  { by rewrite (proj1 (sortNodes_spec nodes)). }
  destruct (Hfrom cn Hcn) as (n'&Hn'&Hc). destruct (lowered _ _ _ Hc) as (cn0&Hlow&Hset).
  assert (n' = n) as ->.
  { pose proof (compiled_id _ _ _ Hc) as Hid'. rewrite <- Hid in Hid'.
    assert (raw_index d !! N_ID n = Some n) as H1 by by apply (raw_lookup d byID Hacc).
    assert (raw_index d !! N_ID n = Some n') as H2 by by apply (raw_lookup d byID Hacc). congruence. }
  unfold ports. rewrite Hset. cbn [CN_Branch set_deps]. revert Hlow. unfold compileStaticNode.
  rewrite Hk, Hb. rewrite (bool_decide_eq_false_2 (KindBranch = KindLoop)), (bool_decide_eq_true_2 (KindBranch = KindBranch)) by done.
  cbn [negb andb]. destruct (bool_decide (branchSource _ _ = "")); [done|]. intros [= <-]. cbn.
  unfold routes. rewrite fmap_app. cbn. by rewrite <- !list_fmap_compose.
Qed.

(** ** What the compiled flow and its digest depend on *)

(** The parts of a definition that a run can tell apart. *)
Definition same_flow (d d' : Definition_) : Prop :=
  EffectiveExecutionMode (ExecutionMode d) = EffectiveExecutionMode (ExecutionMode d') ∧
  SessionWorkflow d = SessionWorkflow d' ∧ D_TimeoutSec d = D_TimeoutSec d' ∧ Inputs d = Inputs d' ∧
  D_Outputs d = D_Outputs d' ∧ Network d = Network d' ∧ Nodes d = Nodes d' ∧ Edges d = Edges d'.

(** Two accepted definitions that differ only in identity and metadata (flow
    id, version, name, description, status, template, callback), in the
    spelling of the execution mode, or in the default retry policy, compile to
    the same nodes and edges under the same digest. *)
Theorem digest_scope fuel fuel' d d' c c' :
  same_flow d d' → Compile fuel d = Some (Ok c) → Compile fuel' d' = Some (Ok c') →
  Comp_Nodes c = Comp_Nodes c' ∧ Comp_Edges c = Comp_Edges c' ∧ Digest c = Digest c'.
Proof.
  intros (Hmode&Hsw&Hto&Hin&Hout&Hnet&Hn&He) Hc Hc'.
  apply (Compile_mono fuel (fuel `max` fuel')) in Hc; [|lia].
  apply (Compile_mono fuel' (fuel `max` fuel')) in Hc'; [|lia].
  apply Compile_inv in Hc as (?&nodes&edges&_&Hnodes&Hedges&->).
  apply Compile_inv in Hc' as (?&nodes'&edges'&_&Hnodes'&Hedges'&->).
  unfold compile_nodes, compileStaticNodes, compile_edges, raw_index, compileConditionEdges, compileBranchEdges,
    compileLoopEdges, compileStaticNode, appendTargets in *.
  rewrite Hn, He in *. rewrite Hnodes in Hnodes'. injection Hnodes' as <-.
  rewrite Hedges in Hedges'. injection Hedges' as <-.
  split_and!; [done|done|]. unfold assemble. cbn. unfold computeDigest. cbn. by rewrite Hmode, Hsw, Hto, Hin, Hout, Hnet.
Qed.

Definition with_retry (r : option RetryPolicy) (d : Definition_) : Definition_ :=
  mkDefinition (FlowID d) (D_Name d) (Description d) (Version d) (D_Status d) (ExecutionMode d)
    (SessionWorkflow d) (TemplateID d) (Inputs d) (D_Outputs d) (D_TimeoutSec d) (Nodes d) (Edges d) (Network d)
    r (OnComplete d).

(** The default retry policy of a definition reaches no node: compilation
    gives the same result whatever it is. *)
Theorem flow_retry_ignored fuel d r : Compile fuel (with_retry r d) = Compile fuel d.
Proof. destruct d. reflexivity. Qed.

(** ** Session flows *)

Section Session.
Context (d : Definition_) (byID : gmap string Node) (Hacc : accepted d byID).
Context (written : Forall (λ n, TrimSpace (N_ID n) = N_ID n) (Nodes d)).

Lemma node_written n : n ∈ Nodes d → byID !! N_ID n = Some n.
Proof.
  intros Hn. apply (indexed_lookup _ _ (accepted_index _ _ Hacc)). split; [done|].
  rewrite Forall_forall in written. by apply written.
Qed.

Lemma reaches_node entry n :
  is_Some (byID !! entry) → reaches (Edges d) entry n → ∃ m, m ∈ Nodes d ∧ N_ID m = n ∧ byID !! n = Some m.
Proof.
  intros Hentry Hn. assert (is_Some (byID !! n)) as [m Hm].
  { apply rtc_inv_r in Hn as [->|(x&_&Hx)]; [done|].
    apply list_elem_of_fmap in Hx as (e&->&[_ He]%list_elem_of_filter).
    pose proof (accepted_edges _ _ Hacc) as Hall. rewrite Forall_forall in Hall. by destruct (Hall e He) as (_&?&_). }
  exists m. apply (indexed_lookup _ _ (accepted_index _ _ Hacc)) in Hm as Hm'. destruct Hm' as [Hin Hid].
  split_and!; [done| |done]. rewrite Forall_forall in written. rewrite <- Hid. symmetry. by apply written.
Qed.

Lemma appendTargets_inv entry delivery m :
  region_ready d byID entry delivery → reaches (Edges d) entry (N_ID m) → N_ID m ∉ appendTargets d.
Proof.
  intros Hready Hm. unfold appendTargets. rewrite elem_of_app. intros [Hc|Hc].
  - apply list_elem_of_fmap in Hc as (e&Hid&[Hce He]%list_elem_of_filter).
    destruct (no_conditions _ _ _ _ Hready e (N_ID m) He) as [_ Hne]; [|done|by apply Hne].
    left. by apply sessionRouteChain_reaches.
  - apply (region_static _ _ _ _ Hready _ Hm). apply list_elem_of_bind in Hc as (n&Hin&Hn). unfold append_target.
    cbn zeta in Hin. destruct (bool_decide (normalizeKind (N_Kind n) = KindBranch)) eqn:Hb.
    + apply bool_decide_eq_true in Hb. destruct (N_Branch n) as [b|] eqn:Hbr; [|by apply elem_of_nil in Hin].
      left. by exists n, b.
    + destruct (bool_decide (normalizeKind (N_Kind n) = KindLoop)) eqn:Hl; [|by apply elem_of_nil in Hin].
      apply bool_decide_eq_true in Hl. destruct (N_Loop n) as [l|] eqn:Hlo; [|by apply elem_of_nil in Hin].
      right. apply elem_of_app in Hin as [Hin|Hin]; [left; by exists n, l|right].
      apply list_elem_of_fmap in Hin as (e&Hid&[[Hf Hc] He]%list_elem_of_filter).
      exists e, n. rewrite Hf. split_and!; [done|by apply node_written|done|done|].
      intros Hblank. apply (indexed_named _ _ (accepted_index _ _ Hacc) n Hn). unfold node_id. by rewrite Hblank.
Qed.

End Session.

(** C21: a compiled session flow whose ids are written without blanks has a
    region for each of its triggers, and no two triggers share an event: the
    entry waits for nothing; everything the entry reaches over static edges is
    a node a session can run and is compiled statically; and what such a node
    depends on is in the region too. The routes of the branches of a region are
    distinct, none is called default, no route meets one of another branch, and
    no condition edge touches what the trigger runs. *)
Theorem session_regions_run fuel d c :
  Compile fuel d = Some (Ok c) → session_mode d = true →
  Forall (λ n, TrimSpace (N_ID n) = N_ID n) (Nodes d) →
  ∃ byID w, indexed (Nodes d) byID ∧ SessionWorkflow d = Some w ∧ session_ready_flow d byID w ∧
    ∀ t n, t ∈ Triggers w → reaches (Edges d) (TrimSpace (EntryNode t)) n →
      ∃ cn, cn ∈ Comp_Nodes c ∧ CN_ID cn = n ∧
        ∀ x, x ∈ CN_DependsOn cn → reaches (Edges d) (TrimSpace (EntryNode t)) x.
Proof.
  intros (byID&nodes&edges&Hacc&Hnodes&_&->)%Compile_inv Hmode Hwritten.
  destruct (workflow_ready d byID (accepted_session _ _ Hacc) Hmode) as (w&Hw&Hready).
  exists byID, w. split_and!; [by destruct Hacc|done|done|]. intros t n Ht Hn. cbn [Comp_Nodes assemble].
  destruct Hready as (_&_&Hready). destruct (Hready t Ht) as [Hentry Hregion].
  destruct (reaches_node d byID Hacc Hwritten _ n Hentry Hn) as (m&Hm&<-&Hl).
  destruct (compile_nodes_ok d byID Hacc nodes Hnodes) as (Hnd&Hin&Hfrom).
  assert (N_ID m ∈ CN_ID <$> nodes) as (cn&Hid&Hcn)%list_elem_of_fmap.
  { apply Hin; [done|]. split; [|right; by eapply appendTargets_inv].
    pose proof (region_runs _ _ _ _ Hregion _ Hn) as [_ Hk]. unfold node_at in Hk. rewrite Hl in Hk. cbn in Hk.
    intros Hloop. rewrite Hloop in Hk. naive_solver. }
  exists cn. split_and!; [by rewrite (proj1 (sortNodes_spec nodes))|done|]. intros x Hx.
  destruct (Hfrom cn Hcn) as (m'&_&Hc). destruct (proj1 (compiled_deps _ _ _ Hc x) Hx) as (e&He&Hs&Hto&Hf&_).
  apply (region_closed _ _ _ _ Hregion (N_ID m)); [done|]. apply list_elem_of_fmap. exists e. split; [done|].
  apply list_elem_of_filter. split; [|done]. split; [by apply static_not_condition|].
  rewrite Hto, <- (compiled_id _ _ _ Hc). done.
Qed.

End Spec.
