(* ===== verification/FlowExamples.v ===== *)
(** * The flow theorems at work

    A concrete library and small definitions: those on which the theorems
    apply, and those where validation and compilation fall short. *)
From S2P Require Import Prelude GoStrings GoRunes ShellPolicy JSON Cycles FlowModel FlowContracts FlowGraph FlowValidate FlowSession FlowCompile FlowSpec FlowCompileSpec FlowCompileEdges.
From Stdlib Require Import Ascii ZArith Lia.

#[local] Existing Instance ascii_tables.

#[local] Instance plain_visits : MapOrder := {|
  Prelude.visit A m := map_to_list m; visit_perm A m := Permutation_refl _;
|}.

(** JSON texts without content. *)
#[local] Instance bare_json : JSONLib := {|
  Unmarshal_object s :=
    if bool_decide (s = "{}") then Ok (Some []) else if bool_decide (s = "null") then Ok None else Err "unexpected text";
  Unmarshal_any s := if bool_decide (s = "null") then Ok JNull else Err "unexpected text";
  Valid s := bool_decide (s ∈ ["{}"; "null"]);
  Marshal v := match v with JNull => Some "null" | _ => None end;
|}.

#[local] Instance plain_flow_lib : FlowLib := {|
  quote s := String dquote (s +:+ String dquote "");
  ParseURL s := if HasPrefix s "https://" then Some ("https", sdrop 8 s, false) else None;
|}.

(** The ids of what is digested stand for its hash. *)
#[local] Instance plain_digest : FlowDigest := {|
  digest '(mode, _, _, _, _, _, nodes, edges) :=
    mode +:+ "|" +:+ Join (CN_ID <$> nodes) "," +:+ "|" +:+ Join (CE_ID <$> edges) ",";
|}.

(** ** Building blocks *)

Definition base_node (id kind prompt : string) : Node :=
  mkNode id kind "" prompt "" None "" [] None None None None None None None 0 "" "" [].
Definition step (id : string) : Node := base_node id "step" "work".
Definition branch_node (id : string) (b : BranchSpec) : Node :=
  mkNode id "branch" "" "" "" None "" [] None None None (Some b) None None None 0 "" "" [].
Definition loop_node (id : string) (l : LoopSpec) : Node :=
  mkNode id "loop" "" "" "" None "" [] None None None None (Some l) None None 0 "" "" [].
Definition js_node (id : string) : Node :=
  mkNode id "function" "" "" "" None "" [] None None None None None
    (Some (mkFunction "js" "return {}" "" "" "" "")) None 0 "" "" [].

Definition data_edge (from to : string) : Edge := mkEdge (from +:+ "_" +:+ to) from to "" None 0 "".
Definition condition_edge_to (from to status : string) : Edge :=
  mkEdge (from +:+ "_" +:+ to) from to "condition" (Some (when_status status)) 0 "".

Definition request_flow (nodes : list Node) (edges : list Edge) : Definition_ :=
  mkDefinition "f" "" "" "1" "" "request" None "" [] [] 0 nodes edges None None None.
Definition session_flow (triggers : list SessionTrigger) (nodes : list Node) (edges : list Edge) : Definition_ :=
  mkDefinition "f" "" "" "1" "" "session" (Some (mkSession triggers [])) "" [] [] 0 nodes edges None None None.

Definition compiled (d : Definition_) : option Compiled :=
  match Compile 65 d with Some (Ok c) => Some c | _ => None end.
Definition node_ids (c : Compiled) : list string := CN_ID <$> Comp_Nodes c.
Definition dependencies (c : Compiled) : list (string * list string) :=
  (λ cn, (CN_ID cn, CN_DependsOn cn)) <$> Comp_Nodes c.

(** ** A branch, a loop and a session *)

Definition review_branch : BranchSpec :=
  mkBranch [mkCase "ok" "ship" (when_status "completed")] "fix".
Definition review_flow : Definition_ :=
  request_flow
    [step "write"; step "check"; branch_node "route" review_branch; step "ship"; step "fix";
     loop_node "again" (mkLoop ["polish"] (when_status "completed") 3 ""); step "polish"; step "end"]
    [data_edge "write" "check"; data_edge "check" "route"; data_edge "check" "again"; data_edge "again" "end"].

Definition reply_flow : Definition_ :=
  session_flow [mkTrigger "message" "read" "" ""] [js_node "read"; js_node "answer"; js_node "log"]
    [data_edge "read" "answer"; data_edge "answer" "log"].

Example review_compiles :
  dependencies <$> compiled review_flow =
    Some [("check", ["write"]); ("route", ["check"]); ("write", [])] ∧
  (λ c, (CE_ID <$> Comp_Edges c)) <$> compiled review_flow =
    Some ["route_case_0"; "route_default"; "again_entry"; "again_continue"; "again_exit_again_end"].
Proof. vm_compute. done. Qed.

Example reply_compiles :
  dependencies <$> compiled reply_flow = Some [("answer", ["read"]); ("log", ["answer"]); ("read", [])].
Proof. vm_compute. done. Qed.

Definition the {A} (o : option A) (fallback : A) : A := default fallback o.
Definition nothing : Compiled := mkCompiled "" "" "" None 0 [] [] [] [] "" None.
Definition review_compiled : Compiled := Eval vm_compute in the (compiled review_flow) nothing.
Definition reply_compiled : Compiled := Eval vm_compute in the (compiled reply_flow) nothing.

Lemma review_result : Compile 65 review_flow = Some (Ok review_compiled).
Proof. vm_compute. reflexivity. Qed.

Lemma reply_result : Compile 65 reply_flow = Some (Ok reply_compiled).
Proof. vm_compute. reflexivity. Qed.

(** ** Where it falls short *)

(** The iterations wrap the count of nodes past the cap, then never end. *)
Definition endless : LoopSpec := mkLoop ["b"] (when_status "completed") int_max "".
Definition runaway_flow : Definition_ :=
  request_flow [step "a"; loop_node "l" endless; step "b"] [data_edge "a" "l"].

Lemma runaway_collision fuel : ∀ i,
  is_int i → iteration_collision fuel (raw_index runaway_flow) "b" i int_max = None.
Proof.
  induction fuel as [|fuel IH]; intros i Hi; [done|]. cbn [iteration_collision].
  destruct (Z.ltb_spec int_max i) as [Hlt|_]; [unfold is_int in Hi; lia|].
  destruct (raw_index runaway_flow !! ("b" +:+ "_" +:+ itoa i)) as [n|] eqn:Hn.
  - apply foldl_index_empty in Hn as [Hin Hid].
    + cbn in Hin. rewrite !elem_of_cons, elem_of_nil in Hin. destruct Hin as [->|[->|[->|[]]]]; discriminate.
    + vm_compute. repeat constructor; rewrite ?elem_of_cons, elem_of_nil; by intros [|[]] || (intros []; done).
  - apply IH, wrap64_is_int.
Qed.

(** C28: a flow of three nodes whose loop has the greatest [int] as its bound is
    accepted, since the count of nodes wraps below zero, and its compilation
    never returns. *)
Theorem Compile_can_diverge :
  Validate (Some runaway_flow) = None ∧ (MaxNodes < worst_case (Nodes runaway_flow))%Z ∧
  ∀ fuel, Compile fuel runaway_flow = None.
Proof.
  assert (Validate (Some runaway_flow) = None) as Hv by (vm_compute; reflexivity).
  split_and!; [done|vm_compute; reflexivity|]. intros fuel. unfold Compile. rewrite Hv.
  destruct (compile_nodes runaway_flow) eqn:Hn; [|by vm_compute in Hn].
  enough (compile_edges fuel runaway_flow = None) as -> by done. unfold compile_edges, compileLoopEdges.
  destruct (compileConditionEdges runaway_flow (raw_index runaway_flow) ≫= _) eqn:Hc; [|by vm_compute in Hc].
  enough (compileLoop fuel (raw_index runaway_flow) (loop_node "l" endless) endless (Edges runaway_flow)
    (mkOwners ∅ ∅) = None) as Hl.
  { change (Nodes runaway_flow) with [step "a"; loop_node "l" endless; step "b"]. cbn [compile_loops].
    change (N_Loop (step "a")) with (@None LoopSpec). change (N_Loop (loop_node "l" endless)) with (Some endless).
    assert (is_kind KindLoop (loop_node "l" endless) = true) as -> by (vm_compute; reflexivity). by rewrite Hl. }
  unfold compileLoop. change (Body endless) with ["b"]. cbv beta iota zeta.
  assert (raw_index runaway_flow !! "b" = Some (step "b")) as -> by (vm_compute; reflexivity).
  change (N_ID (step "b")) with "b". change (L_MaxIterations endless) with int_max.
  assert (normalizeKind (N_Kind (step "b")) = "step") as -> by (vm_compute; reflexivity).
  cbn [bodyOwners]. by rewrite lookup_empty, runaway_collision.
Qed.

(** The default target, or the id of the entry, written with a blank. *)
Definition blank_default_flow : Definition_ :=
  request_flow [step "check"; branch_node "route" (mkBranch [mkCase "ok" "ship" (when_status "completed")] " fix");
                step "ship"; step "fix"] [data_edge "check" "route"].
Definition blank_entry_flow : Definition_ :=
  session_flow [mkTrigger "message" "read" "" ""] [js_node "read "] [].

(** A case called default, and a node that waits for an appended one. *)
Definition default_case_flow : Definition_ :=
  request_flow [step "check"; branch_node "route" (mkBranch [mkCase "default" "ship" (when_status "completed")] "fix");
                step "ship"; step "fix"] [data_edge "check" "route"].
Definition dangling_flow : Definition_ :=
  request_flow [step "s"; step "a"; step "b"] [condition_edge_to "s" "a" "completed"; data_edge "a" "b"].

(** Four accepted flows that compile to something else than they say. A
    default target with a blank loses its edge and its node starts at once; a
    case called default shares its route with the default target, so that
    both targets are appended; a node that waits for an appended node is
    compiled with a dependency that names no node; an entry id with a blank
    leaves the trigger without a node. *)
Theorem compilation_gaps :
  (dependencies <$> compiled blank_default_flow =
     Some [("check", []); ("fix", []); ("route", ["check"])] ∧
   (λ c, CE_ID <$> Comp_Edges c) <$> compiled blank_default_flow = Some ["route_case_0"]) ∧
  (λ c, route_of <$> Comp_Edges c) <$> compiled default_case_flow =
    Some [("default", "ship"); ("default", "fix")] ∧
  dependencies <$> compiled dangling_flow = Some [("b", ["a"]); ("s", [])] ∧
  (λ c, (node_ids c, (λ w, EntryNode <$> Triggers w) <$> Comp_SessionWorkflow c)) <$> compiled blank_entry_flow =
    Some (["read "], Some ["read"]).
Proof. vm_compute. done. Qed.

(** ** Witnesses *)

Lemma accepted_size_bound_witness :
  Validate (Some review_flow) = None ∧ (worst_case (Nodes review_flow) <= MaxNodes)%Z.
Proof.
  split; [vm_compute; reflexivity|].
  apply (accepted_size_bound review_flow); [vm_compute; discriminate|vm_compute; reflexivity].
Defined.

Lemma Compile_terminates_witness : worst_case (Nodes review_flow) = 11%Z ∧ is_Some (Compile 65 review_flow).
Proof. split; [reflexivity|]. apply (Compile_terminates review_flow). vm_compute. discriminate. Defined.

Lemma compiled_nodes_exact_witness :
  CN_ID <$> Comp_Nodes review_compiled = ["check"; "route"; "write"] ∧ NoDup (CN_ID <$> Comp_Nodes review_compiled).
Proof.
  split; [reflexivity|]. exact (proj1 (compiled_nodes_exact 65 review_flow review_compiled review_result)).
Defined.

Lemma compiled_acyclic_witness :
  ¬ tc (λ a b, ∃ cn, cn ∈ Comp_Nodes review_compiled ∧ CN_ID cn = a ∧ b ∈ CN_DependsOn cn) "check" "check".
Proof. exact (compiled_acyclic 65 review_flow review_compiled review_result "check"). Defined.

Lemma branch_ports_witness :
  routes review_branch = [("ok", "ship"); ("default", "fix")] ∧ NoDup (CE_ID <$> Comp_Edges review_compiled).
Proof.
  split; [reflexivity|].
  apply (branch_ports 65 review_flow review_compiled (branch_node "route" review_branch) review_branch review_result).
  - cbn. rewrite !elem_of_cons. tauto.
  - vm_compute. reflexivity.
  - reflexivity.
  - cbn. rewrite !elem_of_cons. tauto.
Defined.

(** The same flow as another version, in the old spelling of its mode. *)
Definition renamed_flow : Definition_ :=
  mkDefinition "g" "Review" "" "2" "published" "" None "t" [] [] 0 (Nodes review_flow) (Edges review_flow) None None
    None.
Definition renamed_compiled : Compiled := Eval vm_compute in the (compiled renamed_flow) nothing.

Lemma digest_scope_witness :
  Comp_FlowID review_compiled ≠ Comp_FlowID renamed_compiled ∧ Digest review_compiled = Digest renamed_compiled.
Proof.
  split; [discriminate|].
  apply (digest_scope 65 65 review_flow renamed_flow review_compiled renamed_compiled); [|exact review_result|].
  - repeat split.
  - vm_compute. reflexivity.
Defined.

Lemma session_regions_run_witness :
  session_mode reply_flow = true ∧
  ∃ byID w, indexed (Nodes reply_flow) byID ∧ SessionWorkflow reply_flow = Some w ∧ session_ready_flow reply_flow byID w ∧
    ∀ t n, t ∈ Triggers w → reaches (Edges reply_flow) (TrimSpace (EntryNode t)) n →
      ∃ cn, cn ∈ Comp_Nodes reply_compiled ∧ CN_ID cn = n ∧
        ∀ x, x ∈ CN_DependsOn cn → reaches (Edges reply_flow) (TrimSpace (EntryNode t)) x.
Proof.
  split; [vm_compute; reflexivity|]. apply (session_regions_run 65 reply_flow reply_compiled reply_result).
  - vm_compute. reflexivity.
  - repeat constructor.
Defined.
