(* ===== verification/WorkflowTypes.v ===== *)
(** * Durable workflows: the data ([internal/agent/workflow.go], [workflow_flow.go])

    The structs of a workflow and the normalisation of what a caller passes in.
    [workflowEdgeCondition], [workflowRetryPolicy] and the two comparisons have
    the fields of their mirrors in [FlowModel] and are those types here. The
    fields of a node that never change after its creation are one record,
    [workflowNodeFixed]. Agent identities and the event log, which nothing reads
    back, are left out. *)
From S2P Require Import Prelude GoStrings GoRunes JSON FlowModel.
From Stdlib Require Import Ascii ZArith Lia SpecFloat.

Definition workflowStatusPending : string := "pending".
Definition workflowStatusRunning : string := "running".
Definition workflowStatusCompleted : string := "completed".
Definition workflowStatusCanceled : string := "canceled".
Definition workflowStatusError : string := "error".
Definition workflowStatusWaitingHuman : string := "waiting_human".

Definition workflowVerdictPass : string := "pass".
Definition workflowVerdictFail : string := "fail".
Definition workflowVerdictBlocked : string := "blocked".
Definition workflowVerdictNeedsFix : string := "needs_fix".

Definition workflowHandoffPolicyNone : string := "none".
Definition workflowHandoffPolicySummary : string := "summary".
Definition workflowHandoffPolicySummaryArtifacts : string := "summary_artifacts".
Definition workflowHandoffPolicySelected : string := "selected".
Definition workflowDefaultHandoffMaxBytes : Z := 8000.
Definition workflowMaxHandoffMaxBytes : Z := 32000.
Definition workflowMaxNodes : Z := 64.

Definition workflowNodeKindDecision : string := "decision".
Definition workflowNodeKindBranch : string := "branch".
Definition workflowNodeKindUserInput : string := "user_input".
Definition workflowNodeKindFunction : string := "function".
Definition workflowNodeKindService : string := "service".

Definition decisionOnErrorFailClosed : string := "fail_closed".
Definition decisionOnErrorFailOpen : string := "fail_open".
Definition decisionOnErrorFail : string := "fail".

(** A time in nanoseconds; 0 is the zero time. *)
Abbreviation time := Z.

(** A decoded JSON object. *)
Abbreviation object := (list (string * json)).

(** ** Specs *)

Record workflowDecisionSpec := mkDecisionSpec {
  WD_Provider : string;
  WD_Question : string;
  WD_DecisionType : string;
  WD_Choices : list Choice;
  WD_TimeoutMS : Z;
  WD_OnError : string;
  WD_DefaultChoice : string;
}.

Record workflowBranchCase := mkBranchCase { WC_Name : string; WC_To : string; WC_Condition : Condition }.
Record workflowBranchSpec := mkBranchSpec {
  WB_Source : string;
  WB_Cases : list workflowBranchCase;
  WB_DefaultTo : string;
}.

Record workflowDecisionResult := mkDecisionResult {
  DR_Choice : string;
  DR_Confidence : float64;
  DR_Calibrated : bool;
  DR_Score : float64;
  DR_Model : string;
  DR_LatencyMS : Z;
  DR_Error : string;
  DR_Raw : object;
}.

Record workflowHumanSpec := mkHumanSpec {
  WH_Queue : string;
  WH_AssigneePolicy : string;
  WH_Form : json;
  WH_TimeoutMS : Z;
  WH_OnTimeout : string;
  WH_ResultVar : string;
}.

Record workflowFunctionSpec := mkFunctionSpec {
  WF_Runtime : string;
  WF_Source : string;
  WF_Ref : string;
  WF_Handler : string;
  WF_TimeoutSec : Z;
  WF_InputSchema : string;
  WF_OutputSchema : string;
  WF_Network : option NetworkPolicy;
}.

Record workflowServiceSpec := mkServiceSpec {
  WS_Method : string;
  WS_URL : string;
  WS_Headers : gmap string string;
  WS_Body : string;
  WS_Auth : option ServiceAuthSpec;
  WS_Network : option NetworkPolicy;
}.

(** ** Inputs *)

Record workflowNodeInput := mkNodeInput {
  I_ID : string;
  I_Kind : string;
  I_Title : string;
  I_Prompt : string;
  I_TimeoutSec : Z;
  I_DependsOn : list string;
  I_HandoffPolicy : string;
  I_HandoffFrom : list string;
  I_HandoffMaxBytes : Z;
  I_PreviewMerge : option bool;
  I_AgentType : string;
  I_AgentRef : string;
  I_WriteScope : list string;
  I_Retry : option RetryPolicy;
  I_Decision : option workflowDecisionSpec;
  I_Human : option workflowHumanSpec;
  I_Branch : option workflowBranchSpec;
  I_Function : option workflowFunctionSpec;
  I_Service : option workflowServiceSpec;
  I_PreScript : string;
  I_PostScript : string;
  I_OutputSpec : list VarDef;
}.

(** [workflowEdge] and [workflowEdgeInput] have the same fields. *)
Record workflowEdge := mkEdge_ {
  WE_ID : string;
  WE_From : string;
  WE_FromPrefix : string;
  WE_FromKind : string;
  WE_When : Condition;
  WE_Append : workflowNodeInput;
  WE_MaxIterations : Z;
  WE_IterationKey : string;
}.
Abbreviation workflowEdgeInput := workflowEdge.

(** ** State *)

Record workflowNodeFixed := mkFixed {
  W_ID : string;
  W_Kind : string;
  W_Title : string;
  W_Prompt : string;
  W_TimeoutSec : Z;
  W_DependsOn : list string;
  W_HandoffPolicy : string;
  W_HandoffFrom : list string;
  W_HandoffMaxBytes : Z;
  W_PreviewMerge : bool;
  W_AgentType : string;
  W_AgentRef : string;
  W_WriteScope : list string;
  W_Retry : option RetryPolicy;
  W_DecisionSpec : option workflowDecisionSpec;
  W_BranchSpec : option workflowBranchSpec;
  W_HumanSpec : option workflowHumanSpec;
  W_FunctionSpec : option workflowFunctionSpec;
  W_ServiceSpec : option workflowServiceSpec;
  W_PreScript : string;
  W_PostScript : string;
  W_OutputSpec : list VarDef;
  W_CreatedAt : time;
}.

Record workflowNode := mkWorkflowNode {
  fixed :> workflowNodeFixed;
  W_Status : string;
  W_JobID : string;
  W_Attempt : Z;
  W_HandoffRef : string;
  W_Verdict : string;
  W_ResultPreview : string;
  W_Error : string;
  W_Decision : option workflowDecisionResult;
  W_HumanTaskID : string;
  W_Outputs : object;
  W_NextRetryAt : time;
  W_UpdatedAt : time;
  W_StartedAt : time;
  W_FinishedAt : time;
}.

Record workflowSummary := mkSummary {
  S_ID : string;
  S_SessionID : string;
  S_Status : string;
  S_Error : string;
  RunInputs : object;
  RunOutputSpec : list VarDef;
  RunOutputs : object;
  RunOutputsResolved : bool;
  RunTimeoutAt : time;
  AutoSchedule : bool;
  AppendKeys : gmap string (list string);
  EdgeIterations : gmap string Z;
  (** The keys that are true. *)
  ProcessedEdges : gset string;
  S_CreatedAt : time;
  S_UpdatedAt : time;
}.

Record workflowState := mkState {
  Summary : workflowSummary;
  WNodes : list workflowNode;
  WEdges : list workflowEdge;
}.

(** ** Updates *)

Definition set_nodes (nodes : list workflowNode) (s : workflowState) : workflowState :=
  mkState (Summary s) nodes (WEdges s).
Definition set_edges (edges : list workflowEdge) (s : workflowState) : workflowState :=
  mkState (Summary s) (WNodes s) edges.
Definition set_summary (sum : workflowSummary) (s : workflowState) : workflowState :=
  mkState sum (WNodes s) (WEdges s).
Definition on_summary (f : workflowSummary → workflowSummary) (s : workflowState) : workflowState :=
  set_summary (f (Summary s)) s.

Definition summary_eta (s : workflowSummary) : workflowSummary :=
  mkSummary (S_ID s) (S_SessionID s) (S_Status s) (S_Error s) (RunInputs s) (RunOutputSpec s) (RunOutputs s)
    (RunOutputsResolved s) (RunTimeoutAt s) (AutoSchedule s) (AppendKeys s) (EdgeIterations s)
    (ProcessedEdges s) (S_CreatedAt s) (S_UpdatedAt s).
Definition set_S_Status (status : string) (s : workflowSummary) : workflowSummary :=
  ltac:(with_field summary_eta S_Status s status).
Definition set_S_Error (error : string) (s : workflowSummary) : workflowSummary :=
  ltac:(with_field summary_eta S_Error s error).
Definition touch (now : time) (s : workflowSummary) : workflowSummary :=
  ltac:(with_field summary_eta S_UpdatedAt s now).
Definition set_RunOutputs (values : object) (s : workflowSummary) : workflowSummary :=
  ltac:(with_field summary_eta RunOutputs s values).
Definition resolve_RunOutputs (s : workflowSummary) : workflowSummary :=
  ltac:(with_field summary_eta RunOutputsResolved s true).
Definition set_RunInputs (values : object) (s : workflowSummary) : workflowSummary :=
  ltac:(with_field summary_eta RunInputs s values).
Definition set_RunOutputSpec (defs : list VarDef) (s : workflowSummary) : workflowSummary :=
  ltac:(with_field summary_eta RunOutputSpec s defs).
Definition set_RunTimeoutAt (at_ : time) (s : workflowSummary) : workflowSummary :=
  ltac:(with_field summary_eta RunTimeoutAt s at_).
Definition enable_auto (s : workflowSummary) : workflowSummary :=
  ltac:(with_field summary_eta AutoSchedule s true).
Definition set_append_key (key : string) (ids : list string) (s : workflowSummary) : workflowSummary :=
  ltac:(with_field summary_eta AppendKeys s (<[key := ids]> (AppendKeys s))).
Definition set_iteration (key : string) (iteration : Z) (s : workflowSummary) : workflowSummary :=
  ltac:(with_field summary_eta EdgeIterations s (<[key := iteration]> (EdgeIterations s))).
Definition mark_processed (key : string) (s : workflowSummary) : workflowSummary :=
  ltac:(with_field summary_eta ProcessedEdges s ({[key]} ∪ ProcessedEdges s)).

Definition node_eta (n : workflowNode) : workflowNode :=
  mkWorkflowNode (fixed n) (W_Status n) (W_JobID n) (W_Attempt n) (W_HandoffRef n) (W_Verdict n)
    (W_ResultPreview n) (W_Error n) (W_Decision n) (W_HumanTaskID n) (W_Outputs n) (W_NextRetryAt n)
    (W_UpdatedAt n) (W_StartedAt n) (W_FinishedAt n).
Definition set_fixed (f : workflowNodeFixed) (n : workflowNode) : workflowNode :=
  ltac:(with_field node_eta fixed n f).
Definition set_W_Status (status : string) (n : workflowNode) : workflowNode :=
  ltac:(with_field node_eta W_Status n status).
Definition set_W_JobID (id : string) (n : workflowNode) : workflowNode :=
  ltac:(with_field node_eta W_JobID n id).
Definition set_W_Attempt (attempt : Z) (n : workflowNode) : workflowNode :=
  ltac:(with_field node_eta W_Attempt n attempt).
Definition set_W_HandoffRef (ref : string) (n : workflowNode) : workflowNode :=
  ltac:(with_field node_eta W_HandoffRef n ref).
Definition set_W_Verdict (verdict : string) (n : workflowNode) : workflowNode :=
  ltac:(with_field node_eta W_Verdict n verdict).
Definition set_W_ResultPreview (preview : string) (n : workflowNode) : workflowNode :=
  ltac:(with_field node_eta W_ResultPreview n preview).
Definition set_W_Error (error : string) (n : workflowNode) : workflowNode :=
  ltac:(with_field node_eta W_Error n error).
Definition set_W_Decision (res : option workflowDecisionResult) (n : workflowNode) : workflowNode :=
  ltac:(with_field node_eta W_Decision n res).
Definition set_W_HumanTaskID (id : string) (n : workflowNode) : workflowNode :=
  ltac:(with_field node_eta W_HumanTaskID n id).
Definition set_W_Outputs (outputs : object) (n : workflowNode) : workflowNode :=
  ltac:(with_field node_eta W_Outputs n outputs).
Definition set_W_NextRetryAt (at_ : time) (n : workflowNode) : workflowNode :=
  ltac:(with_field node_eta W_NextRetryAt n at_).
Definition set_W_UpdatedAt (now : time) (n : workflowNode) : workflowNode :=
  ltac:(with_field node_eta W_UpdatedAt n now).
Definition set_W_StartedAt (now : time) (n : workflowNode) : workflowNode :=
  ltac:(with_field node_eta W_StartedAt n now).
Definition set_W_FinishedAt (now : time) (n : workflowNode) : workflowNode :=
  ltac:(with_field node_eta W_FinishedAt n now).

(** A node that ends, or is taken back, with this status and error. *)
Definition end_node (status error : string) (now : time) (n : workflowNode) : workflowNode :=
  set_W_FinishedAt now (set_W_UpdatedAt now (set_W_Error error (set_W_Status status n))).

(** [m[k] = v] *)
Fixpoint set_entry (k : string) (v : json) (m : object) : object :=
  match m with
  | [] => [(k, v)]
  | (k', v') :: m => if bool_decide (k' = k) then (k, v) :: m else (k', v') :: set_entry k v m
  end.

(** ** What a file keeps: the values as they are decoded *)

Definition encoded_object (m : object) : object := (λ '(k, v), (k, encoded v)) <$> m.
Definition encoded_decision (r : workflowDecisionResult) : workflowDecisionResult :=
  mkDecisionResult (DR_Choice r) (DR_Confidence r) (DR_Calibrated r) (DR_Score r) (DR_Model r) (DR_LatencyMS r)
    (DR_Error r) (encoded_object (DR_Raw r)).
Definition encoded_node (n : workflowNode) : workflowNode :=
  set_W_Outputs (encoded_object (W_Outputs n)) (set_W_Decision (encoded_decision <$> W_Decision n) n).
Definition encoded_summary (s : workflowSummary) : workflowSummary :=
  set_RunOutputs (encoded_object (RunOutputs s)) (set_RunInputs (encoded_object (RunInputs s)) s).

(** ** Normalisation *)

(** Items trimmed, without blanks and repetitions. *)
Definition normalizeWorkflowStrings (input : list string) : list string :=
  dedup (filter (λ s, s ≠ "") (TrimSpace <$> input)).

Definition normalizeWorkflowNodeKind (kind fallback : string) : string :=
  let kind := TrimSpace kind in if bool_decide (kind = "") then TrimSpace fallback else kind.

Definition normalizeWorkflowHandoffMaxBytes (value : Z) : Z :=
  if (value <=? 0)%Z then workflowDefaultHandoffMaxBytes
  else if (workflowMaxHandoffMaxBytes <? value)%Z then workflowMaxHandoffMaxBytes else value.

Definition normalizeWorkflowPreviewMerge (value : option bool) : bool := default true value.

Definition normalizeWorkflowEdgeMaxIterations (value : Z) : Z := if (value <=? 0)%Z then 3 else value.

(** The doubles 2 and 1/5. *)
Definition ftwo : float64 := S754_finite false 4503599627370496 (-51).
Definition ffifth : float64 := S754_finite false 7205759403792794 (-55).

Definition retryKindProviderTimeout : string := "provider_timeout".
Definition retryKindProviderError : string := "provider_error".
Definition retryKindToolTransient : string := "tool_transient".
Definition retryKindDecisionError : string := "decision_model_error".

Definition normalizeWorkflowRetryPolicy (p : option RetryPolicy) : option RetryPolicy :=
  (λ p, mkRetry
    (if (MaxAttempts p <? 0)%Z then 0 else MaxAttempts p)%Z
    (if (InitialIntervalMS p <=? 0)%Z then 500 else InitialIntervalMS p)%Z
    (if SFleb (BackoffCoefficient p) fzero then ftwo else BackoffCoefficient p)
    (if (MaxIntervalMS p <=? 0)%Z then 30000 else MaxIntervalMS p)%Z
    (let jitter := if SFltb (Jitter p) fzero then fzero else if SFltb fone (Jitter p) then fone else Jitter p in
     if SFeqb jitter fzero then ffifth else jitter)
    (if is_nil (RetryOn p)
     then [retryKindProviderTimeout; retryKindProviderError; retryKindToolTransient; retryKindDecisionError]
     else RetryOn p)
    (NonRetryable p)) <$> p.

Definition workflowNodeTerminal (status : string) : bool :=
  bool_decide (status ∈ [workflowStatusCompleted; workflowStatusCanceled; workflowStatusError]).
Definition workflowTerminalStatus (status : string) : bool :=
  bool_decide (status ∈ [workflowStatusCompleted; workflowStatusError; workflowStatusCanceled]).

Section Tables.
Context {U : Unicode}.

Definition normalizeWorkflowHandoffPolicy (policy : string) (hasDeps : bool) : string :=
  let policy := ToLower (TrimSpace policy) in
  if bool_decide (policy ∈ [workflowHandoffPolicyNone; workflowHandoffPolicySummary;
                            workflowHandoffPolicySummaryArtifacts; workflowHandoffPolicySelected])
  then policy
  else if hasDeps then workflowHandoffPolicySummary else workflowHandoffPolicyNone.

(** The bytes of the cutset, the quotes included. *)
Definition verdict_trim (a : ascii) : bool :=
  bool_decide (a ∈ String.list_ascii_of_string (" .,:;'" +:+ String dquote "")).

Definition normalizeWorkflowVerdict (verdict : string) : string :=
  let verdict := ReplaceByte (TrimSet verdict_trim (ToLower (TrimSpace verdict))) "-"%char "_" in
  if bool_decide (verdict ∈ [workflowVerdictPass; "passed"; "success"; "succeeded"; "ok"])
  then workflowVerdictPass
  else if bool_decide (verdict ∈ [workflowVerdictFail; "failed"; "failure"; "error"]) then workflowVerdictFail
  else if bool_decide (verdict ∈ [workflowVerdictBlocked; "blocker"]) then workflowVerdictBlocked
  else if bool_decide (verdict ∈ [workflowVerdictNeedsFix; "needsfix"; "fix"; "needs_change"; "needs_changes"])
  then workflowVerdictNeedsFix
  else "".

Fixpoint normalizeWorkflowEdgeCondition (c : Condition) : Condition :=
  match c with
  | mkCondition status verdict node choice confidence output not_ all_ any_ =>
      mkCondition (TrimSpace status) (normalizeWorkflowVerdict verdict) (TrimSpace node) (TrimSpace choice)
        confidence output
        match not_ with Some c => Some (normalizeWorkflowEdgeCondition c) | None => None end
        (map normalizeWorkflowEdgeCondition all_) (map normalizeWorkflowEdgeCondition any_)
  end.

End Tables.
