(* ===== verification/WorkflowConditions.v ===== *)
(** * Durable workflows: predicates and specs ([internal/agent/workflow_flow.go])

    The structured predicates of edges and branch cases, the normalisation of
    decision and branch specs, and which failures are retried. [fmt.Sprint] of a
    JSON value, [math.Pow], the conversion of a float that no [Duration] holds,
    and the coding of two structs are parameters. *)
From S2P Require Import Prelude GoStrings GoRunes JSON FlowModel FlowContracts FlowValidate WorkflowTypes.
From Stdlib Require Import Ascii ZArith Lia SpecFloat.

Class WorkflowLib : Type := {
  (** [fmt.Sprint] *)
  Sprint : json → string;
  (** [math.Pow] *)
  Pow : float64 → float64 → float64;
  (** [int64(f)] where [f] is not in the range of [int64]. *)
  int64_beyond : float64 → Z;
  (** The text of a [Duration] rounded to seconds. *)
  duration_text : Z → string;
  (** [json.Unmarshal] into a struct with the one field [Verdict]. *)
  Unmarshal_verdict : string → option string;
  (** [json.Marshal] of a decision result. *)
  Marshal_decision : workflowDecisionResult → string;
}.

(** ** Comparing values *)

Definition toFloat (v : json) : option float64 :=
  match v with
  | JNum f => Some f
  | JGo t (JNum f) => if bool_decide (t ∈ ["float32"; "int"; "int64"]) then Some f else None
  | JBool b => Some (if b then fone else fzero)
  | _ => None
  end.

Definition toAnySlice (v : json) : list json := match v with JArray l => l | _ => [] end.

Definition numCompare (c : NumCompare) (got : float64) : bool :=
  if is_nan got then false
  else if bool_decide (Num_Op c = "gt") then SFltb (Num_Value c) got
  else if bool_decide (Num_Op c = "gte") then SFleb (Num_Value c) got
  else if bool_decide (Num_Op c = "lt") then SFltb got (Num_Value c)
  else if bool_decide (Num_Op c = "lte") then SFleb got (Num_Value c)
  else if bool_decide (Num_Op c = "eq") then SFeqb got (Num_Value c)
  else false.

(** Follows the parts of a dotted path; empty parts are skipped. *)
Fixpoint follow_path (current : json) (parts : list string) : option json :=
  match parts with
  | [] => Some current
  | part :: parts =>
      if bool_decide (part = "") then follow_path current parts
      else match current with
           | JObject m => current ← field part m; follow_path current parts
           | _ => None
           end
  end.

Definition workflowOutputValue (outputs : object) (path : string) : option json :=
  let parts := Split (TrimSpace path) "." in
  follow_path (JObject outputs)
    match parts with
    | first :: rest => if bool_decide (first = "outputs") then rest else parts
    | [] => []
    end.

Section Library.
Context {U : Unicode} {L : WorkflowLib}.

Definition valuesEqual (a b : json) : bool :=
  match toFloat a, toFloat b with
  | Some x, Some y => SFeqb x y
  | _, _ => bool_decide (Sprint a = Sprint b)
  end.

Definition valueContains (container item : json) : bool :=
  match container with
  | JString s => Contains s (Sprint item)
  | JArray l => existsb (λ v, valuesEqual v item) l
  | _ => false
  end.

Definition fieldCompare (c : FieldCompare) (outputs : object) : bool :=
  match workflowOutputValue outputs (F_Path c) with
  | None => false
  | Some got =>
      let ordered (test : float64 → float64 → bool) :=
        match toFloat got, toFloat (F_Value c) with Some a, Some b => test a b | _, _ => false end in
      if bool_decide (F_Op c ∈ ["eq"; "ne"]) then Bool.eqb (valuesEqual got (F_Value c)) (bool_decide (F_Op c = "eq"))
      else if bool_decide (F_Op c ∈ ["in"; "not_in"])
      then Bool.eqb (existsb (valuesEqual got) (toAnySlice (F_Value c))) (bool_decide (F_Op c = "in"))
      else if bool_decide (F_Op c = "contains") then valueContains got (F_Value c)
      else if bool_decide (F_Op c = "gt") then ordered (λ a b, SFltb b a)
      else if bool_decide (F_Op c = "gte") then ordered (λ a b, SFleb b a)
      else if bool_decide (F_Op c = "lt") then ordered SFltb
      else if bool_decide (F_Op c = "lte") then ordered SFleb
      else false
  end.

(** ** Predicates on nodes *)

Definition workflowNodeChoice (n : workflowNode) : string :=
  let of_outputs := match field "choice" (W_Outputs n) with Some (JString v) => v | _ => "" end in
  match W_Decision n with
  | Some d => if bool_decide (TrimSpace (DR_Choice d) = "") then of_outputs else DR_Choice d
  | None => of_outputs
  end.

Definition workflowNodeConfidence (n : workflowNode) : float64 :=
  match W_Decision n with
  | Some d => DR_Confidence d
  | None => match field "confidence" (W_Outputs n) with Some (JNum v) => v | _ => S754_nan end
  end.

Fixpoint workflowConditionMatchesNode (c : Condition) (n : workflowNode) : bool :=
  match c with
  | mkCondition status verdict _ choice confidence output not_ all_ any_ =>
      negb (match not_ with Some c => workflowConditionMatchesNode c n | None => false end) &&
      (bool_decide (status = "") || bool_decide (status = W_Status n)) &&
      (bool_decide (verdict = "") || bool_decide (verdict = normalizeWorkflowVerdict (W_Verdict n))) &&
      (bool_decide (choice = "") || bool_decide (workflowNodeChoice n = choice)) &&
      (match confidence with Some c => numCompare c (workflowNodeConfidence n) | None => true end) &&
      (match output with Some c => fieldCompare c (W_Outputs n) | None => true end) &&
      forallb (λ c, workflowConditionMatchesNode c n) all_ &&
      (is_nil any_ || existsb (λ c, workflowConditionMatchesNode c n) any_)
  end.

(** The node a condition is about: the one it names, if there is one, else the
    source. *)
Definition condition_target (nodes : list workflowNode) (c : Condition) (source : workflowNode) : workflowNode :=
  if bool_decide (C_Node c = "") then source
  else default source (find_first (λ n : workflowNode, bool_decide (W_ID n = C_Node c)) nodes).

Definition workflowEdgeConditionMatchesState (nodes : list workflowNode) (c : Condition)
    (source : workflowNode) : bool :=
  workflowConditionMatchesNode c (condition_target nodes c source).

(** ** Decision and branch specs *)

Context {F : FlowLib}.

Definition DecisionType_choice : string := "choice".

(** The loop over the choices, with those seen. *)
Fixpoint normalize_choices (seen : list string) (choices : list Choice) : result string (list Choice) :=
  match choices with
  | [] => Ok []
  | ch :: choices =>
      let id := TrimSpace (Choice_ID ch) in
      if bool_decide (id = "") then Err "decision node contains empty choice id"
      else if bool_decide (id ∈ seen) then Err ("decision node contains duplicate choice id " +:+ quote id)
      else rest ← normalize_choices (id :: seen) choices; Ok (mkChoice id (TrimSpace (Choice_Label ch)) :: rest)
  end.

Definition normalizeWorkflowDecisionSpec (spec : option workflowDecisionSpec) : result string workflowDecisionSpec :=
  match spec with
  | None => Err "decision node missing decision spec"
  | Some s =>
      let typ := ToLower (TrimSpace (WD_DecisionType s)) in
      let typ := if bool_decide (typ = "") then DecisionType_choice else typ in
      if negb (bool_decide (typ ∈ [DecisionType_choice; "boolean"; "score"]))
      then Err ("decision node has invalid decision_type " +:+ quote typ)
      else
        choices ← (if bool_decide (typ = DecisionType_choice) then
                     if is_nil (WD_Choices s) then Err "choice decision node requires at least one choice"
                     else normalize_choices [] (WD_Choices s)
                   else Ok (WD_Choices s));
        let mode := ToLower (TrimSpace (WD_OnError s)) in
        let mode' := if bool_decide (mode = "") then decisionOnErrorFailClosed else mode in
        if negb (bool_decide (mode' ∈ [decisionOnErrorFailClosed; decisionOnErrorFailOpen; decisionOnErrorFail]))
        then Err ("decision node has invalid on_error " +:+ quote mode)
        else
          let fallback := TrimSpace (WD_DefaultChoice s) in
          if bool_decide (mode' = decisionOnErrorFailOpen) && bool_decide (fallback = "")
          then Err "decision node on_error=fail_open requires default_choice"
          else Ok (mkDecisionSpec (TrimSpace (WD_Provider s)) (TrimSpace (WD_Question s)) typ choices
                     (WD_TimeoutMS s) mode' fallback)
  end.

(** The loop over the cases, with the routes seen. *)
Fixpoint normalize_cases (i : Z) (seen : list string) (cases : list workflowBranchCase) :
    result string (list workflowBranchCase) :=
  match cases with
  | [] => Ok []
  | c :: cases =>
      let route := TrimSpace (WC_Name c) in
      let route := if bool_decide (route = "") then TrimSpace (WC_To c) else route in
      if bool_decide (route = "") then Err ("branch case " +:+ itoa i +:+ " missing name/to")
      else if bool_decide (route ∈ seen) then Err ("branch case duplicate route " +:+ quote route)
      else if bool_decide (TrimSpace (WC_To c) = "") then Err ("branch case " +:+ itoa i +:+ " missing target")
      else if ConditionEmpty (WC_Condition c) then Err ("branch case " +:+ itoa i +:+ " missing condition")
      else
        rest ← normalize_cases (i + 1) (route :: seen) cases;
        Ok (mkBranchCase route (TrimSpace (WC_To c)) (normalizeWorkflowEdgeCondition (WC_Condition c)) :: rest)
  end.

Definition normalizeWorkflowBranchSpec (spec : option workflowBranchSpec) : result string workflowBranchSpec :=
  match spec with
  | None => Err "branch node missing branch spec"
  | Some s =>
      let source := TrimSpace (WB_Source s) in
      let default_to := TrimSpace (WB_DefaultTo s) in
      if bool_decide (source = "") then Err "branch node missing source"
      else if bool_decide (default_to = "") then Err "branch node missing default_to"
      else if is_nil (WB_Cases s) then Err "branch node requires at least one case"
      else cases ← normalize_cases 0 [] (WB_Cases s); Ok (mkBranchSpec source cases default_to)
  end.

(** ** Retries *)

Definition containsWorkflowString (items : list string) (want : string) : bool :=
  existsb (λ item, bool_decide (TrimSpace item = want)) items.

(** [float64(z)] *)
Definition float_of_int (z : Z) : float64 := binary_normalize 53 1024 z 0 false.
(** [int64(f)]: the integer part. *)
Definition int_of_float (f : float64) : Z :=
  match f with
  | S754_zero _ => 0
  | S754_finite s m e =>
      let z := (if (0 <=? e)%Z then Z.pos m * 2 ^ e else Z.pos m / 2 ^ (- e))%Z in
      let z := if s then (- z)%Z else z in
      if bool_decide (is_int z) then z else int64_beyond f
  | _ => int64_beyond f
  end.

Definition Millisecond : Z := 1000000.
Definition fmul (x y : float64) : float64 := SFmul 53 1024 x y.
Definition fadd (x y : float64) : float64 := SFadd 53 1024 x y.
Definition fhalf : float64 := S754_finite false 4503599627370496 (-53).

(** With a nil [rng], whose reading is a half. *)
Definition workflowRetryDelay (p : RetryPolicy) (retryNo : Z) : Z :=
  let initial := wrap64 (InitialIntervalMS p * Millisecond) in
  let max := float_of_int (wrap64 (MaxIntervalMS p * Millisecond)) in
  let coeff := if SFleb (BackoffCoefficient p) fzero then ftwo else BackoffCoefficient p in
  let delay := fmul (float_of_int initial) (Pow coeff (float_of_int retryNo)) in
  let delay := if SFltb max delay then max else delay in
  let delay := if SFltb fzero (Jitter p) then
      let factor := fadd fone (fmul (fadd (fmul fhalf ftwo) (SFopp fone)) (Jitter p)) in
      fmul delay (if SFltb factor fzero then fzero else factor)
    else delay in
  int_of_float (if SFltb delay fzero then fzero else delay).

(** The delay before the next attempt, if there is one. *)
Definition shouldWorkflowRetry (p : option RetryPolicy) (executedAttempts : Z) (kind : string) : option Z :=
  match p with
  | None => None
  | Some p =>
      if bool_decide (kind = "") || (MaxAttempts p <=? 1)%Z || containsWorkflowString (NonRetryable p) kind
         || (negb (is_nil (RetryOn p)) && negb (containsWorkflowString (RetryOn p) kind))
         || (MaxAttempts p <=? executedAttempts)%Z
      then None
      else Some (workflowRetryDelay p (executedAttempts - 1))
  end.

Definition mentions (text : string) (words : list string) : bool := existsb (Contains text) words.

Definition classifyWorkflowFailure (jobStatus errText : string) : string :=
  let status := TrimSpace jobStatus in
  if bool_decide (status = "timeout") then retryKindProviderTimeout
  else if bool_decide (status ∈ ["canceled"; "interrupted"]) then ""
  else
    let text := ToLower (TrimSpace errText) in
    if bool_decide (text = "") then ""
    else if mentions text ["timeout"; "deadline exceeded"; "context deadline"] then retryKindProviderTimeout
    else if mentions text ["429"; "rate limit"; "too many requests"] then retryKindProviderError
    else if mentions text ["502"; "503"; "504"; "bad gateway"; "service unavailable"; "gateway timeout";
                           "internal server error"] then retryKindProviderError
    else if mentions text ["connection reset"; "connection refused"; "connection aborted";
                           "network is unreachable"; "no such host"; "broken pipe"; "eof"; "temporar"; "try again"]
    then retryKindToolTransient
    else "".

Definition classifyDecisionFailure (error : string) : string :=
  let text := ToLower error in
  if mentions text ["timeout"; "deadline exceeded"] then retryKindProviderTimeout
  else if Contains text "no decision caller configured" then ""
  else retryKindDecisionError.

End Library.
