(* ===== verification/WorkflowGraph.v ===== *)
(** * Durable workflows: the graph ([internal/agent/workflow.go])

    How inputs become nodes and edges, and the checks that the engine runs
    whenever the graph grows. The depth-first search of [validateWorkflowDeps]
    takes fuel: one more than the number of nodes, which is enough
    ([validateWorkflowDeps_exact]). *)
From S2P Require Import Prelude GoStrings GoRunes GoPath JSON Cycles FlowModel FlowGraph FlowValidate WorkflowTypes WorkflowConditions.
From Stdlib Require Import Ascii ZArith Lia.

Section Graph.
Context {U : Unicode} {F : FlowLib}.

(** ** Nodes *)

Definition node_of_input (id kind prompt : string) (decision : option workflowDecisionSpec)
    (branch : option workflowBranchSpec) (now : time) (input : workflowNodeInput) : workflowNode :=
  let human := if bool_decide (kind = workflowNodeKindUserInput)
    then (λ h, mkHumanSpec (TrimSpace (WH_Queue h)) (TrimSpace (WH_AssigneePolicy h)) (WH_Form h)
            (WH_TimeoutMS h) (TrimSpace (WH_OnTimeout h)) (TrimSpace (WH_ResultVar h))) <$> I_Human input
    else None in
  let function := if bool_decide (kind = workflowNodeKindFunction)
    then (λ f, mkFunctionSpec (TrimSpace (WF_Runtime f)) (WF_Source f) (TrimSpace (WF_Ref f))
            (TrimSpace (WF_Handler f)) (WF_TimeoutSec f) (WF_InputSchema f) (WF_OutputSchema f) None)
         <$> I_Function input
    else None in
  let service := if bool_decide (kind = workflowNodeKindService) then I_Service input else None in
  mkWorkflowNode
    (mkFixed id kind (TrimSpace (I_Title input)) prompt (I_TimeoutSec input)
       (normalizeWorkflowStrings (I_DependsOn input))
       (normalizeWorkflowHandoffPolicy (I_HandoffPolicy input) (negb (is_nil (I_DependsOn input))))
       (normalizeWorkflowStrings (I_HandoffFrom input))
       (normalizeWorkflowHandoffMaxBytes (I_HandoffMaxBytes input))
       (normalizeWorkflowPreviewMerge (I_PreviewMerge input))
       (TrimSpace (I_AgentType input)) (TrimSpace (I_AgentRef input))
       (normalizeWorkflowStrings (I_WriteScope input)) (normalizeWorkflowRetryPolicy (I_Retry input))
       decision branch human function service (I_PreScript input) (I_PostScript input) (I_OutputSpec input) now)
    workflowStatusPending "" 0 "" "" "" "" None "" [] 0 now 0 0.

Definition promptless (kind : string) : bool :=
  bool_decide (kind ∈ [workflowNodeKindBranch; workflowNodeKindFunction; workflowNodeKindService]).

(** One round of [workflowNodesFromInputs]. *)
Definition node_from_input (seen : gset string) (now : time) (input : workflowNodeInput) :
    result string workflowNode :=
  let id := TrimSpace (I_ID input) in
  let id := if bool_decide (id = "") then "node_" +:+ itoa (Z.of_nat (size seen) + 1) else id in
  if bool_decide (id ∈ seen) then Err ("duplicate node id " +:+ quote id)
  else
    let kind := normalizeWorkflowNodeKind (I_Kind input) id in
    let wrap {A} (r : result string A) : result string A :=
      match r with Ok a => Ok a | Err e => Err ("node " +:+ id +:+ ": " +:+ e) end in
    decision ← (if bool_decide (kind = workflowNodeKindDecision)
                then wrap (spec ← normalizeWorkflowDecisionSpec (I_Decision input); Ok (Some spec)) else Ok None);
    branch ← (if bool_decide (kind = workflowNodeKindBranch)
              then wrap (spec ← normalizeWorkflowBranchSpec (I_Branch input); Ok (Some spec)) else Ok None);
    let prompt := TrimSpace (I_Prompt input) in
    let prompt := match decision with
                  | Some spec => if bool_decide (prompt = "") then WD_Question spec else prompt
                  | None => prompt
                  end in
    if bool_decide (prompt = "") && negb (promptless kind) then Err ("node " +:+ id +:+ " missing prompt")
    else Ok (node_of_input id kind prompt decision branch now input).

Fixpoint workflowNodesFromInputs (seen : gset string) (now : time) (inputs : list workflowNodeInput) :
    result string (list workflowNode) :=
  match inputs with
  | [] => Ok []
  | input :: inputs =>
      node_from_input seen now input ≫= λ n : workflowNode,
        rest ← workflowNodesFromInputs ({[W_ID n]} ∪ seen) now inputs;
        Ok (n :: rest)
  end.

Definition node_ids (nodes : list workflowNode) : list string := (λ n : workflowNode, W_ID n) <$> nodes.
Definition workflowNodeIDs := node_ids.
Definition edge_ids (edges : list workflowEdge) : list string := WE_ID <$> edges.

(** ** Edges *)

(** One round of [workflowEdgesFromInputs]. *)
Definition edge_from_input (i : Z) (seen : list string) (input : workflowEdgeInput) : result string workflowEdge :=
  let id := TrimSpace (WE_ID input) in
  let id := if bool_decide (id = "") then "edge_" +:+ itoa (i + 1) else id in
  if bool_decide (id ∈ seen) then Err ("duplicate workflow edge id " +:+ quote id)
  else
    let key := TrimSpace (WE_IterationKey input) in
    let e := mkEdge_ id (TrimSpace (WE_From input)) (TrimSpace (WE_FromPrefix input))
               (TrimSpace (WE_FromKind input)) (normalizeWorkflowEdgeCondition (WE_When input)) (WE_Append input)
               (normalizeWorkflowEdgeMaxIterations (WE_MaxIterations input))
               (if bool_decide (key = "") then id else key) in
    if bool_decide (WE_From e = "") && bool_decide (WE_FromPrefix e = "") && bool_decide (WE_FromKind e = "")
    then Err ("workflow edge " +:+ id +:+ " missing from or from_kind")
    else if ConditionEmpty (WE_When e)
    then Err ("workflow edge " +:+ id +:+ " missing when predicate (status/verdict/choice/confidence/output)")
    else if bool_decide (TrimSpace (I_Prompt (WE_Append e)) = "")
         && negb (promptless (normalizeWorkflowNodeKind (I_Kind (WE_Append e)) (I_ID (WE_Append e))))
    then Err ("workflow edge " +:+ id +:+ " append node missing prompt")
    else Ok e.

Fixpoint edges_from_inputs (i : Z) (seen : list string) (inputs : list workflowEdgeInput) :
    result string (list workflowEdge) :=
  match inputs with
  | [] => Ok []
  | input :: inputs =>
      e ← edge_from_input i seen input;
      rest ← edges_from_inputs (i + 1) (WE_ID e :: seen) inputs;
      Ok (e :: rest)
  end.
Definition workflowEdgesFromInputs (inputs : list workflowEdgeInput) : result string (list workflowEdge) :=
  edges_from_inputs 0 [] inputs.

Definition workflowEdgeMatchesSource (e : workflowEdge) (n : workflowNode) : bool :=
  (bool_decide (WE_From e = "") || bool_decide (WE_From e = W_ID n)) &&
  (if bool_decide (WE_FromPrefix e = "") then true
   else HasPrefix (W_ID n) (WE_FromPrefix e) &&
        match Atoi (TrimPrefix (W_ID n) (WE_FromPrefix e)) with
        | Some iteration => (1 <=? iteration)%Z
        | None => false
        end) &&
  (bool_decide (WE_FromKind e = "") || bool_decide (WE_FromKind e = normalizeWorkflowNodeKind (W_Kind n) (W_ID n))) &&
  negb (bool_decide (WE_From e = "") && bool_decide (WE_FromPrefix e = "") && bool_decide (WE_FromKind e = "")).

Definition workflowProcessedEdgeKey (edgeID nodeID : string) : string :=
  TrimSpace edgeID +:+ "|" +:+ TrimSpace nodeID.

(** [strings.ReplaceAll(s, old, new)] for a non-empty [old]: [skip] bytes of an
    occurrence are still to be dropped. *)
Fixpoint replace_from (old new : string) (skip : nat) (s : string) : string :=
  match s with
  | "" => ""
  | String a rest =>
      match skip with
      | S skip => replace_from old new skip rest
      | 0 => if HasPrefix s old then new +:+ replace_from old new (String.length old - 1) rest
             else String a (replace_from old new 0 rest)
      end
  end.
Definition ReplaceAll (s old new : string) : string := replace_from old new 0 s.

(** The placeholders of a template, given the node it starts from. *)
Definition expand_text (source : string) (iteration : Z) (text : string) : string :=
  ReplaceAll (ReplaceAll text "{source}" source) "{iteration}" (itoa iteration).

Definition input_eta (i : workflowNodeInput) : workflowNodeInput :=
  mkNodeInput (I_ID i) (I_Kind i) (I_Title i) (I_Prompt i) (I_TimeoutSec i) (I_DependsOn i) (I_HandoffPolicy i)
    (I_HandoffFrom i) (I_HandoffMaxBytes i) (I_PreviewMerge i) (I_AgentType i) (I_AgentRef i) (I_WriteScope i)
    (I_Retry i) (I_Decision i) (I_Human i) (I_Branch i) (I_Function i) (I_Service i) (I_PreScript i)
    (I_PostScript i) (I_OutputSpec i).
Definition set_input_id (id : string) (i : workflowNodeInput) : workflowNodeInput :=
  ltac:(with_field input_eta I_ID i id).

(** The three lists, whose arrays the template and its expansion share. *)
Definition expand_lists (f : string → string) (i : workflowNodeInput) : workflowNodeInput :=
  mkNodeInput (I_ID i) (I_Kind i) (I_Title i) (I_Prompt i) (I_TimeoutSec i) (f <$> I_DependsOn i)
    (I_HandoffPolicy i) (f <$> I_HandoffFrom i) (I_HandoffMaxBytes i) (I_PreviewMerge i) (I_AgentType i)
    (I_AgentRef i) (f <$> I_WriteScope i) (I_Retry i) (I_Decision i) (I_Human i) (I_Branch i) (I_Function i)
    (I_Service i) (I_PreScript i) (I_PostScript i) (I_OutputSpec i).

Definition expandWorkflowEdgeAppend (input : workflowNodeInput) (source : string) (iteration : Z) :
    workflowNodeInput :=
  let replace := expand_text source iteration in
  let i := expand_lists replace input in
  mkNodeInput (replace (I_ID i)) (replace (I_Kind i)) (replace (I_Title i)) (replace (I_Prompt i)) (I_TimeoutSec i)
    (I_DependsOn i) (I_HandoffPolicy i) (I_HandoffFrom i) (I_HandoffMaxBytes i) (I_PreviewMerge i)
    (replace (I_AgentType i)) (I_AgentRef i) (I_WriteScope i) (I_Retry i) (I_Decision i) (I_Human i) (I_Branch i)
    (I_Function i) (I_Service i) (I_PreScript i) (I_PostScript i) (I_OutputSpec i).

Definition set_append (input : workflowNodeInput) (e : workflowEdge) : workflowEdge :=
  mkEdge_ (WE_ID e) (WE_From e) (WE_FromPrefix e) (WE_FromKind e) (WE_When e) input (WE_MaxIterations e)
    (WE_IterationKey e).

(** What the expansion of its template leaves in an edge: the lists are written in
    place, in the arrays that the edge holds. *)
Definition expanded_edge (source : string) (iteration : Z) (e : workflowEdge) : workflowEdge :=
  set_append (expand_lists (expand_text source iteration) (WE_Append e)) e.

(** ** Checks of the whole graph *)

Definition workflowNodeByID (nodes : list workflowNode) (id : string) : option workflowNode :=
  find_first (λ n : workflowNode, bool_decide (W_ID n = TrimSpace id)) nodes.

(** [byID]: the last node of that name. *)
Definition index_nodes (nodes : list workflowNode) : gmap string workflowNode :=
  foldl (λ m (n : workflowNode), <[W_ID n := n]> m) ∅ nodes.

Definition by_id (nodes : list workflowNode) (id : string) : option workflowNode := index_nodes nodes !! id.

(** [byID[id].DependsOn] *)
Definition deps_of (nodes : list workflowNode) (id : string) : list string :=
  match by_id nodes id with Some n => W_DependsOn n | None => [] end.

Definition workflowDepsCompleted (nodes : list workflowNode) (deps : list string) : bool :=
  forallb (λ dep, match by_id nodes (TrimSpace dep) with
                  | Some n => bool_decide (W_Status n = workflowStatusCompleted)
                  | None => false
                  end) deps.

(** The first loop: every reference names another node. *)
Definition dep_check (nodes : list workflowNode) (n : workflowNode) : option string :=
  first_error (λ dep,
    let dep := TrimSpace dep in
    if bool_decide (dep = "") then None
    else if bool_decide (dep = W_ID n) then Some ("workflow node " +:+ W_ID n +:+ " depends on itself")
    else match by_id nodes dep with
         | None => Some ("workflow node " +:+ W_ID n +:+ " depends on unknown node " +:+ dep)
         | Some _ => None
         end) (W_DependsOn n ++ W_HandoffFrom n).

(** The two maps that [visit] writes. *)
Record marks := mkMarks { visiting : gset string; visited : gset string }.

Section Visit.
Context (deps : string → list string).

(** The loop over the dependencies, given the recursive call. *)
Fixpoint visit_deps (visit : string → marks → option (result string marks)) (l : list string) (m : marks) :
    option (result string marks) :=
  match l with
  | [] => Some (Ok m)
  | dep :: l =>
      r ← visit dep m;
      match r with Ok m => visit_deps visit l m | Err id => Some (Err id) end
  end.

(** [None] out of fuel; [Err id]: a cycle that includes [id]. *)
Fixpoint visit_dep (fuel : nat) (id : string) (m : marks) : option (result string marks) :=
  match fuel with
  | 0 => None
  | S fuel =>
      if bool_decide (id ∈ visited m) then Some (Ok m)
      else if bool_decide (id ∈ visiting m) then Some (Err id)
      else
        r ← visit_deps (visit_dep fuel) (deps id) (mkMarks ({[id]} ∪ visiting m) (visited m));
        Some match r with
             | Ok m => Ok (mkMarks (visiting m ∖ {[id]}) ({[id]} ∪ visited m))
             | Err id => Err id
             end
  end.

Definition visit_ids (fuel : nat) := visit_deps (visit_dep fuel).

End Visit.

Definition validateWorkflowDeps (nodes : list workflowNode) : option string :=
  or_else (first_error (dep_check nodes) nodes)
    match visit_ids (deps_of nodes) (S (length nodes)) (node_ids nodes) (mkMarks ∅ ∅) with
    | Some (Err id) => Some ("workflow dependency cycle includes " +:+ id)
    | Some (Ok _) => None
    | None => Some "unreachable"
    end.

(** The nodes an edge may start from: those that exist, and those that some edge
    appends. *)
Definition edge_sources (edges : list workflowEdge) (nodes : list workflowNode) : list string :=
  node_ids nodes ++ filter (λ id, id ≠ "") ((λ e, TrimSpace (I_ID (WE_Append e))) <$> edges).

Fixpoint check_edges (sources seen : list string) (edges : list workflowEdge) : option string :=
  match edges with
  | [] => None
  | e :: edges =>
      if bool_decide (TrimSpace (WE_ID e) = "") then Some "workflow edge missing id"
      else if bool_decide (WE_ID e ∈ seen) then Some ("duplicate workflow edge id " +:+ quote (WE_ID e))
      else if negb (bool_decide (WE_From e = "")) && negb (bool_decide (WE_From e ∈ sources))
      then Some ("workflow edge " +:+ WE_ID e +:+ " references unknown from node " +:+ WE_From e)
      else if bool_decide (WE_From e = "") && bool_decide (WE_FromPrefix e = "") && bool_decide (WE_FromKind e = "")
      then Some ("workflow edge " +:+ WE_ID e +:+ " missing from, from_prefix or from_kind")
      else check_edges sources (WE_ID e :: seen) edges
  end.
Definition validateWorkflowEdges (edges : list workflowEdge) (nodes : list workflowNode) : option string :=
  check_edges (edge_sources edges nodes) [] edges.

Definition id_byte (a : ascii) : bool :=
  lower_ascii (code a) || upper_ascii (code a) || is_digit a || is_byte "_" a || is_byte "-" a || is_byte "." a.
Definition validateWorkflowID (id : string) : option string :=
  if bool_decide (id = "") then Some "missing workflow_id"
  else if bool_decide (id = ".") || Contains id ".." then Some ("invalid workflow_id " +:+ quote id)
  else if all_bytes id_byte id then None else Some ("invalid workflow_id " +:+ quote id).

End Graph.

(** * Durable workflows: theorems about the graph

    The check of the dependencies is exact, what the inputs become is well
    formed, and the network policy of a function node does not survive. *)

(** ** The search of [validateWorkflowDeps] is the walk of [findCycle] *)

Section Visit.
Context (deps : string → list string).

(** Marks and colours agree. *)
Record agree (m : marks) (w : walk) : Prop := {
  agree_black : ∀ x, x ∈ visited m ↔ color_of w !! x = Some black;
  agree_gray : ∀ x, x ∈ visiting m ↔ color_of w !! x = Some gray;
  agree_stack : ∀ x, x ∈ visiting m ↔ x ∈ stack w;
}.

(** The same answer, from marks that agree. *)
Definition same_answer (w : walk) (r : option (result string marks)) (f : found) : Prop :=
  match f with
  | inl _ => ∃ id, r = Some (Err id)
  | inr w' => ∃ m', r = Some (Ok m') ∧ agree m' w' ∧ stack w' = stack w
  end.

Lemma visit_deps_walk visit wvisit l m w f :
  (∀ x m w, agree m w → x ∈ visited m → visit x m = Some (Ok m)) →
  (∀ x m w, agree m w → x ∈ visiting m → visit x m = Some (Err x)) →
  (∀ x m w f, agree m w → color_of w !! x = None → wvisit x w = Some f → same_answer w (visit x m) f) →
  agree m w → walk_all wvisit l w = Some f → same_answer w (visit_deps visit l m) f.
Proof.
  intros Hb Hg Hv. revert m w. induction l as [|x l IH]; intros m w Ha; simpl.
  { intros [= <-]. by exists m. }
  intros H. apply bind_Some in H as (f1&Hf1&Hf).
  destruct (color_of w !! x) as [[]|] eqn:Hx.
  - apply (agree_gray _ _ Ha) in Hx. rewrite (Hg x m w Ha Hx). cbn.
    apply (agree_stack _ _ Ha) in Hx. destruct (find_index _ _) as [i|] eqn:Hi.
    + injection Hf1 as <-. injection Hf as <-. by exists x.
    + apply find_index_None in Hi. rewrite Forall_forall in Hi. specialize (Hi x Hx).
      by rewrite bool_decide_true in Hi.
  - injection Hf1 as <-. apply (agree_black _ _ Ha) in Hx. rewrite (Hb x m w Ha Hx). by apply IH.
  - specialize (Hv x m w f1 Ha Hx Hf1). destruct f1 as [c|w1]; unfold same_answer in Hv.
    + destruct Hv as [id ->]. injection Hf as <-. by exists id.
    + destruct Hv as (m1&->&Ha1&Hs1). cbn. specialize (IH m1 w1 Ha1 Hf).
      unfold same_answer in *. by rewrite <- Hs1.
Qed.

Lemma visit_black fuel x m : x ∈ visited m → visit_dep deps (S fuel) x m = Some (Ok m).
Proof. intros Hx. simpl. by rewrite bool_decide_true. Qed.

Lemma visit_gray fuel x m w :
  agree m w → x ∈ visiting m → visit_dep deps (S fuel) x m = Some (Err x).
Proof.
  intros Ha Hx. simpl. rewrite bool_decide_false; [by rewrite bool_decide_true|].
  rewrite (agree_black _ _ Ha). apply (agree_gray _ _ Ha) in Hx. by rewrite Hx.
Qed.

Lemma agree_enter m w x :
  agree m w → color_of w !! x = None →
  agree (mkMarks ({[x]} ∪ visiting m) (visited m)) (mkWalk (<[x := gray]> (color_of w)) (stack w ++ [x])).
Proof.
  intros [Hb Hg Hs] Hx. split; cbn; intros y.
  - rewrite Hb. destruct (decide (y = x)) as [->|]; [rewrite lookup_insert_eq, Hx; naive_solver|].
    by rewrite lookup_insert_ne.
  - destruct (decide (y = x)) as [->|]; [rewrite lookup_insert_eq; set_solver|].
    rewrite lookup_insert_ne by done. rewrite <- Hg. set_solver.
  - rewrite elem_of_app, <- Hs. set_solver.
Qed.

Lemma agree_leave m w x st :
  agree m w → stack w = st ++ [x] → x ∉ st →
  agree (mkMarks (visiting m ∖ {[x]}) ({[x]} ∪ visited m)) (mkWalk (<[x := black]> (color_of w)) st).
Proof.
  intros [Hb Hg Hs] Hst Hx. split; cbn; intros y.
  - destruct (decide (y = x)) as [->|]; [rewrite lookup_insert_eq; set_solver|].
    rewrite lookup_insert_ne by done. rewrite <- Hb. set_solver.
  - destruct (decide (y = x)) as [->|]; [rewrite lookup_insert_eq; set_solver|].
    rewrite lookup_insert_ne by done. rewrite <- Hg. set_solver.
  - specialize (Hs y). rewrite Hst, elem_of_app, list_elem_of_singleton in Hs.
    rewrite elem_of_difference, elem_of_singleton. destruct (decide (y = x)) as [->|]; naive_solver.
Qed.

Lemma visit_dep_white fuel x m :
  x ∉ visited m → x ∉ visiting m →
  visit_dep deps (S fuel) x m =
    (r ← visit_deps (visit_dep deps fuel) (deps x) (mkMarks ({[x]} ∪ visiting m) (visited m));
     Some match r with
          | Ok m => Ok (mkMarks (visiting m ∖ {[x]}) ({[x]} ∪ visited m))
          | Err id => Err id
          end).
Proof. intros ??. cbn [visit_dep]. by rewrite !bool_decide_false. Qed.

Lemma visit_walk fuel x m w f :
  agree m w → color_of w !! x = None → walk_from deps fuel x w = Some f →
  same_answer w (visit_dep deps (S fuel) x m) f.
Proof.
  revert x m w f. induction fuel as [|fuel IH]; intros x m w f Ha Hx; [done|].
  intros H. cbn [walk_from] in H. apply bind_Some in H as (f1&Hf1&[= <-]).
  rewrite visit_dep_white.
  2: { rewrite (agree_black _ _ Ha). by rewrite Hx. }
  2: { rewrite (agree_gray _ _ Ha). by rewrite Hx. }
  apply (visit_deps_walk (visit_dep deps (S fuel)) _ _ (mkMarks ({[x]} ∪ visiting m) (visited m))) in Hf1.
  - destruct f1 as [c|w1]; unfold same_answer in Hf1.
    + destruct Hf1 as [id Hid]. exists id. by rewrite Hid.
    + destruct Hf1 as (m1&Hm1&Ha1&Hs1). rewrite Hm1. cbn [stack] in Hs1. eexists. split; [done|].
      rewrite Hs1, removelast_last. split; [|done]. apply agree_leave; [done|done|].
      rewrite <- (agree_stack _ _ Ha), (agree_gray _ _ Ha). by rewrite Hx.
  - intros y m' w' _. apply visit_black.
  - intros y m' w'. apply visit_gray.
  - apply IH.
  - by apply agree_enter.
Qed.

Lemma visit_ids_walk fuel ids m w f :
  agree m w → walk_roots deps fuel ids w = Some f → stack w = [] →
  same_answer w (visit_ids deps (S fuel) ids m) f.
Proof.
  revert m w. induction ids as [|x ids IH]; intros m w Ha; simpl.
  { intros [= <-] _. by exists m. }
  intros H Hst. apply bind_Some in H as (f1&Hf1&Hf).
  unfold visit_ids. cbn [visit_deps]. destruct (color_of w !! x) as [c|] eqn:Hx.
  - injection Hf1 as <-. destruct c.
    + apply (agree_gray _ _ Ha), (agree_stack _ _ Ha) in Hx. rewrite Hst in Hx. by apply elem_of_nil in Hx.
    + apply (agree_black _ _ Ha) in Hx. rewrite (visit_black _ _ _ Hx). by apply IH.
  - pose proof (visit_walk fuel x m w f1 Ha Hx Hf1) as Hv. destruct f1 as [c|w1]; unfold same_answer in Hv.
    + destruct Hv as [id ->]. injection Hf as <-. by exists id.
    + destruct Hv as (m1&->&Ha1&Hs1). cbn [mbind option_bind].
      specialize (IH m1 w1 Ha1 Hf). unfold same_answer in *. rewrite <- Hs1. apply IH. by rewrite Hs1.
Qed.

(** As much fuel as there are nodes, and one, is enough for the exact answer. *)
Lemma visit_ids_exact order :
  NoDup order → (∀ a b, edge deps a b → a ∈ order ∧ b ∈ order) →
  (∃ m, visit_ids deps (S (length order)) order (mkMarks ∅ ∅) = Some (Ok m) ∧ acyclic deps) ∨
  (∃ id, visit_ids deps (S (length order)) order (mkMarks ∅ ∅) = Some (Err id) ∧ ¬ acyclic deps).
Proof.
  intros Hnd Hc. destruct (walk_roots_exact deps order Hnd Hc) as (f&Hf&Hx).
  apply (visit_ids_walk _ _ (mkMarks ∅ ∅)) in Hf; [| |done].
  - destruct f as [c|w]; unfold same_answer in Hf; [right|left].
    + destruct Hf as [id Hid]. exists id. tauto.
    + destruct Hf as (m&Hm&_). by exists m.
  - split; cbn; intros x; rewrite ?lookup_empty; set_solver.
Qed.

End Visit.

(** ** What every stored graph satisfies *)

(** The references of a node. *)
Definition refs (n : workflowNode) : list string := W_DependsOn n ++ W_HandoffFrom n.

Definition clean (ref : string) : Prop := TrimSpace ref = ref ∧ ref ≠ "".

Record graph_ok (nodes : list workflowNode) : Prop := {
  ids_unique : NoDup (node_ids nodes);
  ids_named : "" ∉ node_ids nodes;
  refs_clean : ∀ n r, n ∈ nodes → r ∈ refs n → clean r;
  refs_known : ∀ n r, n ∈ nodes → r ∈ refs n → r ∈ node_ids nodes ∧ r ≠ W_ID n;
  deps_acyclic : acyclic (deps_of nodes);
}.

(** The part of a node that the graph consists of. *)
Definition shape (n : workflowNode) : string * list string * list string :=
  (W_ID n, W_DependsOn n, W_HandoffFrom n).

Section Ids.
Context (nodes : list workflowNode).

Lemma index_nodes_from (m : gmap string workflowNode) l id :
  foldl (λ m (n : workflowNode), <[W_ID n := n]> m) m l !! id =
  match last (filter (λ n : workflowNode, W_ID n = id) l) with Some n => Some n | None => m !! id end.
Proof.
  revert m. induction l as [|n l IH]; intros m; [done|]. cbn [foldl]. rewrite IH, filter_cons.
  destruct (decide (W_ID n = id)) as [<-|Hn].
  - destruct (last (filter _ l)) as [x|] eqn:Hl; [by rewrite last_cons, Hl|].
    rewrite last_cons, Hl. apply lookup_insert_eq.
  - destruct (last (filter _ l)); [done|]. by rewrite lookup_insert_ne.
Qed.

Lemma by_id_last id : by_id nodes id = last (filter (λ n : workflowNode, W_ID n = id) nodes).
Proof.
  unfold by_id, index_nodes. rewrite index_nodes_from, lookup_empty. by destruct (last _).
Qed.

Lemma by_id_Some id n : by_id nodes id = Some n → n ∈ nodes ∧ W_ID n = id.
Proof.
  rewrite by_id_last, last_Some. intros [l Hl].
  assert (n ∈ filter (λ n : workflowNode, W_ID n = id) nodes) as Hn by (rewrite Hl; set_solver).
  apply list_elem_of_filter in Hn. tauto.
Qed.

Lemma elem_of_node_ids id : id ∈ node_ids nodes ↔ ∃ n : workflowNode, n ∈ nodes ∧ W_ID n = id.
Proof. unfold node_ids. rewrite list_elem_of_fmap. naive_solver. Qed.

Lemma by_id_None id : by_id nodes id = None ↔ id ∉ node_ids nodes.
Proof.
  rewrite by_id_last, last_None, elem_of_node_ids. split.
  - intros Hf (n&Hn&Hid). assert (n ∈ filter (λ n : workflowNode, W_ID n = id) nodes) as H
      by by apply list_elem_of_filter. rewrite Hf in H. by apply elem_of_nil in H.
  - intros Hno. apply filter_none, Forall_forall. naive_solver.
Qed.

Lemma by_id_unique (n : workflowNode) : NoDup (node_ids nodes) → n ∈ nodes → by_id nodes (W_ID n) = Some n.
Proof.
  intros Hnd Hn. destruct (by_id nodes (W_ID n)) as [n'|] eqn:Hb.
  - apply by_id_Some in Hb as [Hn' Hid]. f_equal.
    apply list_elem_of_lookup in Hn as [i Hi]. apply list_elem_of_lookup in Hn' as [j Hj].
    assert (i = j) as <-; [|congruence].
    eapply NoDup_lookup; [exact Hnd| |]; unfold node_ids; rewrite list_lookup_fmap; [by rewrite Hi|by rewrite Hj, <- Hid].
  - apply by_id_None in Hb. exfalso. apply Hb, elem_of_node_ids. by exists n.
Qed.

Lemma deps_edge a b : edge (deps_of nodes) a b ↔ ∃ n, by_id nodes a = Some n ∧ b ∈ W_DependsOn n.
Proof.
  unfold edge, deps_of. destruct (by_id nodes a) as [n|]; [naive_solver|].
  rewrite elem_of_nil. split; [done|]. naive_solver.
Qed.

End Ids.

Lemma dep_check_exact nodes n :
  (∀ r, r ∈ refs n → clean r) →
  dep_check nodes n = None ↔ ∀ r, r ∈ refs n → r ∈ node_ids nodes ∧ r ≠ W_ID n.
Proof.
  intros Hc. unfold dep_check. rewrite first_error_None, Forall_forall. apply forall_proper. intros r.
  split; intros H Hr; specialize (H Hr); destruct (Hc r Hr) as [Ht Hne]; rewrite Ht in *.
  - rewrite bool_decide_false in H by done. case_bool_decide as Hself; [done|].
    destruct (by_id nodes r) as [m|] eqn:Hm; [|done]. split; [|done].
    apply by_id_Some in Hm. apply elem_of_node_ids. naive_solver.
  - destruct H as [Hin Hself]. rewrite !bool_decide_false by done.
    destruct (by_id nodes r) eqn:Hm; [done|]. by apply by_id_None in Hm.
Qed.

Lemma edges_between nodes :
  (∀ n r, n ∈ nodes → r ∈ refs n → r ∈ node_ids nodes ∧ r ≠ W_ID n) →
  ∀ a b, edge (deps_of nodes) a b → a ∈ node_ids nodes ∧ b ∈ node_ids nodes.
Proof.
  intros Hk a b (n&Hn&Hb)%deps_edge. apply by_id_Some in Hn as [Hn <-]. split.
  - apply elem_of_node_ids. by exists n.
  - apply (Hk n); [done|]. unfold refs. set_solver.
Qed.

(** The two checks, and what they mean. *)
Lemma validate_deps_exact nodes :
  NoDup (node_ids nodes) → (∀ n r, n ∈ nodes → r ∈ refs n → clean r) →
  validateWorkflowDeps nodes = None ↔
  (∀ n r, n ∈ nodes → r ∈ refs n → r ∈ node_ids nodes ∧ r ≠ W_ID n) ∧ acyclic (deps_of nodes).
Proof.
  intros Hnd Hc. unfold validateWorkflowDeps. rewrite or_else_None, first_error_None, Forall_forall.
  assert ((∀ n, n ∈ nodes → dep_check nodes n = None) ↔
          ∀ n r, n ∈ nodes → r ∈ refs n → r ∈ node_ids nodes ∧ r ≠ W_ID n) as Hk.
  { split; intros H n; [intros r Hn; revert r|intros Hn]; apply dep_check_exact; eauto. }
  rewrite Hk. split; intros [H1 H2]; (split; [done|]); pose proof (edges_between nodes H1) as He.
  all: destruct (visit_ids_exact (deps_of nodes) (node_ids nodes) Hnd He) as [(m&Hm&Ha)|(id&Hm&Ha)].
  all: unfold node_ids in Hm at 1; rewrite length_fmap in Hm; rewrite Hm in *; done.
Qed.

(** C25: The check of the dependencies is exact. On nodes with distinct names and
    trimmed references, [validateWorkflowDeps] accepts exactly when every
    reference names another node of the graph and no node depends on itself
    through others; the depth-first search has always fuel enough. *)
Theorem validateWorkflowDeps_exact nodes :
  NoDup (node_ids nodes) → (∀ n r, n ∈ nodes → r ∈ refs n → clean r) →
  validateWorkflowDeps nodes = None ↔
  (∀ n r, n ∈ nodes → r ∈ refs n → r ∈ node_ids nodes ∧ r ≠ W_ID n) ∧ acyclic (deps_of nodes).
Proof. apply validate_deps_exact. Qed.

(** ** Graphs of the same shape *)

(** The same name and dependencies, and no new reference. *)
Definition same_graph (n n' : workflowNode) : Prop :=
  W_ID n' = W_ID n ∧ W_DependsOn n' = W_DependsOn n ∧ W_HandoffFrom n' ⊆ W_HandoffFrom n.

#[export] Instance same_graph_preorder : PreOrder same_graph.
Proof.
  split; [done|]. intros a b c (Hi&Hd&Hh) (Hi'&Hd'&Hh'). unfold same_graph.
  rewrite Hi', Hd', Hi, Hd. split_and!; [done|done|set_solver].
Qed.

Lemma same_graph_ids nodes nodes' : Forall2 same_graph nodes nodes' → node_ids nodes' = node_ids nodes.
Proof. induction 1 as [|n n' l l' [Hi _] Hl IH]; [done|]. unfold node_ids in *. by rewrite !fmap_cons, Hi, IH. Qed.

Lemma same_graph_deps nodes nodes' id : Forall2 same_graph nodes nodes' → deps_of nodes' id = deps_of nodes id.
Proof.
  intros H. unfold deps_of. rewrite !by_id_last.
  enough (option_Forall2 same_graph (last (filter (λ n : workflowNode, W_ID n = id) nodes))
            (last (filter (λ n : workflowNode, W_ID n = id) nodes'))) as Hl
    by by destruct Hl as [n n' (_&Hd&_)|].
  induction H as [|n n' l l' Hn Hl IH]; [constructor|]. rewrite !filter_cons.
  destruct Hn as (Hi&Hd&Hh). rewrite Hi. case_decide; [|done]. rewrite !last_cons.
  destruct IH; by constructor.
Qed.

Lemma same_graph_ok nodes nodes' : Forall2 same_graph nodes nodes' → graph_ok nodes → graph_ok nodes'.
Proof.
  intros H [Hu Hn Hc Hk Ha]. pose proof (same_graph_ids _ _ H) as Hids.
  assert (∀ n r, n ∈ nodes' → r ∈ refs n → ∃ m : workflowNode, m ∈ nodes ∧ r ∈ refs m ∧ W_ID m = W_ID n) as Hback.
  { intros n r Hin Hr. apply list_elem_of_lookup in Hin as [i Hi].
    apply (Forall2_lookup_r _ _ _ _ _ H) in Hi as (m&Hm&Hid&Hd&Hh). exists m.
    split_and!; [by eapply list_elem_of_lookup_2| |done]. unfold refs in *. rewrite Hd in Hr. set_solver. }
  split; rewrite ?Hids; [done|done| | |].
  - intros n r Hin Hr. destruct (Hback n r Hin Hr) as (m&?&?&_). by eapply Hc.
  - intros n r Hin Hr. destruct (Hback n r Hin Hr) as (m&?&?&<-). by eapply Hk.
  - eapply acyclic_sub; [|exact Ha]. intros a b. unfold edge. by rewrite (same_graph_deps _ _ a H).
Qed.

(** ** What inputs become *)

Lemma normalizeWorkflowStrings_clean l r :
  r ∈ normalizeWorkflowStrings l → clean r ∧ ∃ x, x ∈ l ∧ r = TrimSpace x.
Proof.
  unfold normalizeWorkflowStrings. rewrite elem_of_dedup, list_elem_of_filter, list_elem_of_fmap.
  intros (Hne&x&->&Hx). split; [|by exists x]. split; [apply TrimSpace_idemp|done].
Qed.

Lemma normalize_clean l : (∀ r, r ∈ l → clean r) → normalizeWorkflowStrings l ⊆ l.
Proof.
  intros Hc r Hr. apply normalizeWorkflowStrings_clean in Hr as (_&x&Hx&->).
  destruct (Hc x Hx) as [Ht _]. by rewrite Ht.
Qed.

Section Inputs.
Context {U : Unicode} {F : FlowLib}.

Definition fresh_node (n : workflowNode) : Prop :=
  W_Status n = workflowStatusPending ∧ W_Attempt n = 0%Z ∧ ∀ r, r ∈ refs n → clean r.

Lemma node_from_input_Ok seen now input n :
  node_from_input seen now input = Ok n →
  W_ID n ∉ seen ∧ W_ID n ≠ "" ∧ fresh_node n ∧
  ∃ kind prompt d b, n = node_of_input (W_ID n) kind prompt d b now input.
Proof.
  unfold node_from_input. intros H.
  set (id := if bool_decide (TrimSpace (I_ID input) = "") then _ else _) in H.
  assert (id ≠ "") as Hid.
  { subst id. clear. by destruct (bool_decide (TrimSpace (I_ID input) = "")) eqn:H; bool_prop. }
  case_bool_decide as Hseen; [done|].
  apply result_bind_Ok in H as (d&_&H). apply result_bind_Ok in H as (b&_&H).
  set (prompt := match d with Some _ => _ | None => _ end) in H.
  destruct (bool_decide (prompt = "") && _); [done|]. injection H as <-.
  split_and!; [done|done| |by do 4 eexists].
  split_and!; [done|done|]. intros r. unfold refs. cbn. rewrite elem_of_app.
  intros [Hr|Hr]; by apply normalizeWorkflowStrings_clean in Hr as [? _].
Qed.

Lemma workflowNodesFromInputs_Ok seen now inputs nodes :
  workflowNodesFromInputs seen now inputs = Ok nodes →
  NoDup (node_ids nodes) ∧ (∀ id, id ∈ node_ids nodes → id ∉ seen ∧ id ≠ "") ∧
  (∀ n, n ∈ nodes → fresh_node n) ∧ length nodes = length inputs.
Proof.
  revert seen nodes. induction inputs as [|input inputs IH]; intros seen nodes; simpl.
  { intros [= <-]. split_and!; [constructor|by intros id ?%elem_of_nil|by intros n ?%elem_of_nil|done]. }
  intros H. apply result_bind_Ok in H as (n&Hn&H). apply result_bind_Ok in H as (rest&Hrest&[= <-]).
  apply node_from_input_Ok in Hn as (Hseen&Hne&Hf&_). apply IH in Hrest as (Hnd&Hids&Hfs&Hlen).
  cbn. split_and!.
  - constructor; [|done]. intros Hin. apply Hids in Hin as [Hin _]. set_solver.
  - intros id. rewrite elem_of_cons. intros [->|Hin]; [done|]. apply Hids in Hin as [Hin ?]. set_solver.
  - intros m. rewrite elem_of_cons. intros [->|Hm]; eauto.
  - by rewrite Hlen.
Qed.

(** The nodes that an accepted growth adds. *)
Lemma graph_ok_grow nodes newNodes now inputs :
  graph_ok nodes →
  workflowNodesFromInputs (list_to_set (node_ids nodes)) now inputs = Ok newNodes →
  validateWorkflowDeps (nodes ++ newNodes) = None → graph_ok (nodes ++ newNodes).
Proof.
  intros [Hu Hn Hc _ _] Hnew Hv. apply workflowNodesFromInputs_Ok in Hnew as (Hnd&Hids&Hf&_).
  assert (NoDup (node_ids (nodes ++ newNodes))) as Hnd'.
  { unfold node_ids. rewrite fmap_app. apply NoDup_app. split_and!; [done| |done].
    intros id Hin Hin'. apply Hids in Hin' as [Hin' _]. apply Hin'. by apply elem_of_list_to_set. }
  assert (∀ n r, n ∈ nodes ++ newNodes → r ∈ refs n → clean r) as Hc'.
  { intros n r [Hin|Hin]%elem_of_app; [by apply Hc|]. apply (Hf n Hin). }
  apply validate_deps_exact in Hv as [Hk Ha]; [|done|done]. split; try done.
  unfold node_ids. rewrite fmap_app, elem_of_app. intros [H|H]; [done|]. by apply Hids in H as [_ ?].
Qed.

(** The graph of no nodes, and those of new workflows. *)
Lemma empty_graph_ok : graph_ok [].
Proof.
  split; cbn; [constructor|apply not_elem_of_nil|by intros n r ?%elem_of_nil|by intros n r ?%elem_of_nil|].
  intros n H. assert (∀ a b, tc (edge (deps_of [])) a b → False) as Hno; [|by eapply Hno].
  intros a b. induction 1 as [a b (x&Hx&_)%deps_edge|]; [|done]. by apply by_id_Some in Hx as [?%elem_of_nil _].
Qed.

Lemma new_graph_ok now inputs nodes :
  workflowNodesFromInputs ∅ now inputs = Ok nodes → validateWorkflowDeps nodes = None → graph_ok nodes.
Proof. intros Hn Hv. by apply (graph_ok_grow [] nodes now inputs empty_graph_ok). Qed.

(** ** Edges *)

Record edges_ok (edges : list workflowEdge) (nodes : list workflowNode) : Prop := {
  edges_unique : NoDup (edge_ids edges);
  edges_from : ∀ e, e ∈ edges →
    (WE_From e = "" ∨ WE_From e ∈ edge_sources edges nodes) ∧
    (WE_From e ≠ "" ∨ WE_FromPrefix e ≠ "" ∨ WE_FromKind e ≠ "");
}.

Lemma check_edges_exact sources seen edges :
  check_edges sources seen edges = None ↔
  NoDup (edge_ids edges) ∧ (∀ id, id ∈ edge_ids edges → id ∉ seen) ∧
  ∀ e, e ∈ edges → TrimSpace (WE_ID e) ≠ "" ∧ (WE_From e = "" ∨ WE_From e ∈ sources) ∧
    (WE_From e ≠ "" ∨ WE_FromPrefix e ≠ "" ∨ WE_FromKind e ≠ "").
Proof.
  revert seen. induction edges as [|e edges IH]; intros seen; cbn [check_edges edge_ids fmap list_fmap].
  { split; [|done]. intros _. split_and!; [constructor|by intros id ?%elem_of_nil|by intros e ?%elem_of_nil]. }
  fold (edge_ids edges). rewrite NoDup_cons.
  case_bool_decide as H1. { split; [done|]. intros (_&_&H). specialize (H e ltac:(by left)). tauto. }
  case_bool_decide as H2. { split; [done|]. intros (_&H&_). exfalso. by apply (H (WE_ID e)); [left|]. }
  destruct (negb _ && negb _) eqn:H3.
  { split; [done|]. intros (_&_&H). specialize (H e ltac:(by left)). bool_prop. tauto. }
  destruct (bool_decide _ && _ && _) eqn:H4.
  { split; [done|]. intros (_&_&H). specialize (H e ltac:(by left)). bool_prop. tauto. }
  rewrite IH. apply andb_false_iff in H3. rewrite !negb_false_iff, !bool_decide_eq_true in H3.
  rewrite !andb_false_iff, !bool_decide_eq_false in H4. split.
  - intros (Hnd&Hs&He). split_and!; [|done| |].
    + intros Hin. apply Hs in Hin. set_solver.
    + intros id [->|Hin]%elem_of_cons; [done|]. apply Hs in Hin. set_solver.
    + intros e' [->|Hin]%elem_of_cons; [tauto|by apply He].
  - intros ([Hni Hnd]&Hs&He). split_and!; [done| |].
    + intros id Hin. rewrite not_elem_of_cons. split; [by intros ->|]. apply Hs. by right.
    + intros e' Hin. apply He. by right.
Qed.

Lemma validateWorkflowEdges_ok edges nodes : validateWorkflowEdges edges nodes = None → edges_ok edges nodes.
Proof. intros (Hnd&_&He)%check_edges_exact. split; [done|]. intros e Hin. apply He in Hin. tauto. Qed.

(** The sources do not shrink when nodes are added and templates expanded. *)
Lemma edges_ok_mono edges edges' nodes nodes' :
  (λ e, (WE_ID e, WE_From e, WE_FromPrefix e, WE_FromKind e, I_ID (WE_Append e))) <$> edges' =
  (λ e, (WE_ID e, WE_From e, WE_FromPrefix e, WE_FromKind e, I_ID (WE_Append e))) <$> edges →
  node_ids nodes ⊆ node_ids nodes' → edges_ok edges nodes → edges_ok edges' nodes'.
Proof.
  intros Hs Hn [Hu Hf].
  assert (edge_ids edges' = edge_ids edges) as Hids.
  { apply (f_equal (fmap (λ x, x.1.1.1.1))) in Hs. by rewrite <- !list_fmap_compose in Hs. }
  assert (edge_sources edges nodes ⊆ edge_sources edges' nodes') as Hsrc.
  { assert ((λ e, TrimSpace (I_ID (WE_Append e))) <$> edges' = (λ e, TrimSpace (I_ID (WE_Append e))) <$> edges) as Ha.
    { apply (f_equal (fmap (λ x, TrimSpace x.2))) in Hs. rewrite <- !list_fmap_compose in Hs. exact Hs. }
    unfold edge_sources. rewrite Ha. intros id. rewrite !elem_of_app. intros [H|H]; [left; by apply Hn|by right]. }
  split; [by rewrite Hids|]. intros e Hin. apply list_elem_of_lookup in Hin as [i Hi].
  pose proof (f_equal (lookup i) Hs) as He. rewrite !list_lookup_fmap, Hi in He.
  destruct (edges !! i) as [e0|] eqn:He0; [|done]. injection He as Hid Hfrom Hp Hk _.
  destruct (Hf e0) as [H1 H2]; [by eapply list_elem_of_lookup_2|]. rewrite Hfrom, Hp, Hk.
  split; [|done]. destruct H1 as [H1|H1]; [by left|right]. by apply Hsrc.
Qed.

End Inputs.
