(* ===== verification/WorkflowEngine.v ===== *)
(** * Durable workflows: the engine ([internal/agent/workflow.go])

    The programs of the engine, over what it can see: the services that run
    nodes, the three files of each workflow, and the state of the workflow at
    hand, which each call loads, changes and saves. A node is the index of its
    slot, as the code's pointer into [state.Nodes]. The loop of
    [advanceWorkflowReadyNodes] takes fuel ([advance_terminates]). *)
From S2P Require Import Prelude GoStrings GoRunes GoPath JSON FlowModel FlowContracts FlowValidate WorkflowTypes WorkflowConditions WorkflowGraph.
From Stdlib Require Import Ascii ZArith Lia SpecFloat.

(** Why a service call failed: with a message and a kind, or otherwise. *)
Inductive service_error := ServiceFailure (message retryKind : string) | ServiceError.

(** [decision.Result], its latency in milliseconds. *)
Record decision_result := mkResult {
  R_Choice : string;
  R_Confidence : float64;
  R_Calibrated : bool;
  R_Score : float64;
  R_Model : string;
  R_Latency : Z;
  R_Raw : object;
}.

Record subagentJob := mkJob { J_Status : string; J_Error : string; J_Result : string }.

(** What the engine calls: the clock, the runners of nodes, and the file system.
    Each call may change the world [W]. *)
Class Services (W : Type) : Type := {
  (** [time.Now().UTC()] *)
  clock : W → time * W;
  (** [runCtx.Err() != nil], given the deadline. *)
  context_done : time → W → bool * W;
  (** [runNodeScript] with its environment, for a script that is not blank. *)
  pre_script : workflowState → workflowNode → W → option string * W;
  post_script : workflowState → workflowNode → W → unit * W;
  has_decision_caller : W → bool;
  Decide : workflowState → workflowNode → workflowDecisionSpec → W → result string decision_result * W;
  runWorkflowFunction : workflowFunctionSpec → json → Z → W → result string json * W;
  callWorkflowService : workflowState → workflowServiceSpec → Z → W → result service_error object * W;
  (** [humanTasks.saveTask], for a queue. *)
  save_human_task : string → string → workflowNode → W → option string * W;
  workflowNodePrompt : workflowState → workflowNode → W → result string string * W;
  resolveAgentRef : workflowNode → W → option string * W;
  (** [startDurableSubagentWithContext]: the id of the job. *)
  start_subagent : workflowState → workflowNode → string → W → result string string * W;
  get_job : string → W → option subagentJob * W;
  cancel_job : string → W → unit * W;
  (** Writing the handoff of an attempt. *)
  write_handoff : string → workflowNode → string → W → option string * W;
  (** Writing one file, or making a directory; [os.Stat]. *)
  write_file : string → W → option string * W;
  stat_error : string → W → option string * W;
}.

(** The files of the workflows. *)
Record files := mkFiles {
  dirs : gset string;
  summaries : gmap string workflowSummary;
  node_files : gmap string (list workflowNode);
  edge_files : gmap string (list workflowEdge);
}.

Record engine (W : Type) := mkEngine { world : W; disk : files; wf : workflowState }.
Arguments mkEngine {W}. Arguments world {W}. Arguments disk {W}. Arguments wf {W}.

Section Engine.
Context {U : Unicode} {F : FlowLib} {L : WorkflowLib} {J : JSONLib} {W : Type} {V : Services W}.

Abbreviation P := (M (engine W) string).

Definition set_wf (s : workflowState) (e : engine W) : engine W := mkEngine (world e) (disk e) s.
Definition set_disk (d : files) (e : engine W) : engine W := mkEngine (world e) d (wf e).

Definition call {A} (f : W → A * W) : P A :=
  λ e, let '(a, w) := f (world e) in (mkEngine w (disk e) (wf e), Ok a).
Definition state : P workflowState := gets wf.
Definition change (f : workflowState → workflowState) : P unit := update (λ e, set_wf (f (wf e)) e).
Definition change_summary (f : workflowSummary → workflowSummary) : P unit := change (on_summary f).
Definition node (i : nat) : P (option workflowNode) := gets (λ e, WNodes (wf e) !! i).
Definition edit (i : nat) (f : workflowNode → workflowNode) : P unit :=
  change (λ s, set_nodes (alter f i (WNodes s)) s).

(** What is done with the node of a slot. *)
Definition with_node {A} (i : nat) (d : A) (k : workflowNode → P A) : P A :=
  node i ≫= λ n, match n with Some n => k n | None => mret d end.

(** ** Verdicts and handoffs *)

Definition subagentResultPreviewLimit : nat := 2000.
Definition previewSubagentResultForModel (res : string) : string :=
  let res := TrimSpace res in
  if length (runes res) <=? subagentResultPreviewLimit then res
  else encode (take subagentResultPreviewLimit (runes res)) +:+ "...".

Definition nextWorkflowAttempt (n : workflowNode) : Z := if (0 <? W_Attempt n)%Z then W_Attempt n else 1.

(** The first line of the form "verdict: v". *)
Fixpoint verdict_line (lines : list string) : string :=
  match lines with
  | [] => ""
  | line :: lines =>
      let line := TrimSpace line in
      if bool_decide (8 ≤ String.length line) && EqualFold (String.substring 0 8 line) "verdict:"
      then normalizeWorkflowVerdict (TrimSpace (sdrop 8 line))
      else verdict_line lines
  end.

Definition parseWorkflowVerdict (text : string) : string :=
  let text := TrimSpace text in
  if bool_decide (text = "") then ""
  else
    let v := match Unmarshal_verdict text with Some v => normalizeWorkflowVerdict v | None => "" end in
    if bool_decide (v = "") then verdict_line (Split text (ascii_of_N 10)) else v.

Definition workflowVerdictForTerminal (status resultText errorText : string) : string :=
  let v := parseWorkflowVerdict resultText in
  if negb (bool_decide (v = "")) then v
  else
    let v := parseWorkflowVerdict errorText in
    if negb (bool_decide (v = "")) then v
    else if bool_decide (status = workflowStatusCompleted) then workflowVerdictPass
    else if bool_decide (status = workflowStatusCanceled) then workflowVerdictBlocked
    else workflowVerdictFail.

Definition workflowHandoffsDir : string := "handoffs".
Definition handoff_file (attempt : Z) : string := itoa attempt +:+ ".json".
Definition workflowHandoffRef (nodeID : string) (attempt : Z) : string :=
  let attempt := if (attempt <=? 0)%Z then 1%Z else attempt in
  JoinPath (JoinPath workflowHandoffsDir nodeID) (handoff_file attempt).
Definition handoffPath (dir workflowID nodeID : string) (attempt : Z) : string :=
  JoinPath (JoinPath (JoinPath (JoinPath dir workflowID) workflowHandoffsDir) nodeID) (handoff_file attempt).

Definition preset_verdict (n : workflowNode) (resultText : string) : string :=
  let preset := normalizeWorkflowVerdict (W_Verdict n) in
  if bool_decide (preset = "") then workflowVerdictForTerminal (W_Status n) resultText (W_Error n) else preset.
Definition handoff_verdict (n : workflowNode) (resultText : string) : string :=
  let v := normalizeWorkflowVerdict (W_Verdict n) in
  if bool_decide (v = "") then workflowVerdictForTerminal (W_Status n) resultText (W_Error n) else v.

(** The error is a value: each caller decides what to do with it. *)
Definition finalizeWorkflowNodeHandoff (i : nat) (resultText : string) : P (option string) :=
  with_node i None (λ n,
    if negb (bool_decide (TrimSpace (W_HandoffRef n) = "")) then mret None
    else
      edit i (λ n, if (W_Attempt n <=? 0)%Z then set_W_Attempt 1 n else n);;
      edit i (λ n, set_W_Verdict (preset_verdict n resultText) n);;
      with_node i None (λ n,
        s ← state;
        err ← call (write_handoff (S_ID (Summary s)) n resultText);
        match err with
        | Some e => mret (Some e)
        | None =>
            edit i (λ n, set_W_Verdict (handoff_verdict n resultText)
                           (set_W_HandoffRef (workflowHandoffRef (W_ID n) (W_Attempt n)) n));;
            mret None
        end)).

(** The handoff of a node that failed: an error of its own replaces the node's. *)
Definition failed_handoff (i : nat) : P unit :=
  err ← finalizeWorkflowNodeHandoff i "";
  match err with Some e => edit i (set_W_Error e) | None => mret tt end.

(** A node that fails at [now], without touching its attempts. *)
Definition fail_at (i : nat) (error : string) (now : time) : P unit :=
  edit i (end_node workflowStatusError error now);; failed_handoff i.

(** [failWorkflowBranchNode], [failWorkflowDecisionNode], [failWorkflowFunctionNode] *)
Definition failWorkflowNode (i : nat) (message : string) : P unit :=
  now ← call clock;
  edit i (λ n, end_node workflowStatusError message now
                 (set_W_JobID "" (set_W_Attempt (nextWorkflowAttempt n) n)));;
  failed_handoff i.

Definition failWorkflowServiceNode (i : nat) (message : string) : P unit :=
  now ← call clock;
  edit i (λ n, end_node workflowStatusError message now (set_W_JobID "" n));;
  failed_handoff i.

Definition runPostScript (i : nat) : P unit :=
  with_node i tt (λ n,
    if bool_decide (TrimSpace (W_PostScript n) = "") then mret tt
    else s ← state; call (post_script s n)).

(** A completed node's handoff; [false] if it failed, and the node with it. *)
Definition completed_handoff (i : nat) (payload : string) : P bool :=
  edit i (set_W_ResultPreview (previewSubagentResultForModel payload));;
  err ← finalizeWorkflowNodeHandoff i payload;
  match err with
  | Some e => edit i (λ n, set_W_Error e (set_W_Status workflowStatusError n));; mret false
  | None => mret true
  end.

Definition failure_text (f : failure) : string := match f with Failed t => t | Panics => "" end.

Definition validateWorkflowOutputSpecs (specs : list VarDef) (values : object) (path : string) : option string :=
  if is_nil specs then None else failure_text <$> ValidateVariableValues specs values path false.

Definition output_check (n : workflowNode) (outputs : object) : option string :=
  validateWorkflowOutputSpecs (W_OutputSpec n) outputs ("node " +:+ W_ID n +:+ " outputs").
Definition violation (e : string) : string := "output contract violation: " +:+ e.

Definition payload_of (outputs : object) : string := default "" (Marshal (JObject outputs)).

(** ** Branch gateways *)

Definition branchDefaultRoute : string := "default".

(** The first case that holds of the source. *)
Definition branch_route (cases : list workflowBranchCase) (src : workflowNode) : string :=
  match find_first (λ c, workflowConditionMatchesNode (WC_Condition c) src) cases with
  | Some c => WC_Name c
  | None => branchDefaultRoute
  end.

Definition completeWorkflowBranch (i : nat) (route : string) : P unit :=
  now ← call clock;
  with_node i tt (λ n,
    let outputs := [("choice", JString route)] in
    match output_check n outputs with
    | Some e => failWorkflowNode i (violation e)
    | None =>
        edit i (λ n, end_node workflowStatusCompleted "" now
                       (set_W_JobID "" (set_W_Outputs outputs (set_W_Attempt (nextWorkflowAttempt n) n))));;
        _ ← completed_handoff i (payload_of outputs); mret tt
    end).

Definition executeWorkflowBranch (i : nat) : P unit :=
  with_node i tt (λ n,
    match W_BranchSpec n with
    | None => failWorkflowNode i "branch node missing spec"
    | Some spec =>
        s ← state;
        match workflowNodeByID (WNodes s) (WB_Source spec) with
        | None => failWorkflowNode i ("branch source node " +:+ quote (WB_Source spec) +:+ " not found")
        | Some src => completeWorkflowBranch i (branch_route (WB_Cases spec) src)
        end
    end).

(** ** Retries and decisions *)

Definition scheduleWorkflowNodeRetry (i : nat) (executedAttempts : Z) (delay : Z) : P unit :=
  now ← call clock;
  edit i (λ n, set_W_UpdatedAt now (set_W_NextRetryAt (now + delay)%Z (set_W_Attempt executedAttempts
    (set_W_FinishedAt 0 (set_W_HandoffRef "" (set_W_Verdict "" (set_W_Error "" (set_W_JobID ""
    (set_W_Status workflowStatusPending n))))))))).

Definition workflowNodeRetryDue (n : workflowNode) (now : time) : bool :=
  (W_NextRetryAt n =? 0)%Z || negb (now <? W_NextRetryAt n)%Z.

Definition decisionErrorChoice : string := "__decision_error__".
Definition ErrNoCaller : string := "decision: no decision caller configured; enable agent.decision.enabled (+ agent.decision.provider) to use the structured decision model".

(** [decision.Result.Outputs] *)
Definition result_outputs (r : decision_result) : object :=
  [("choice", JString (R_Choice r)); ("confidence", JNum (R_Confidence r)); ("calibrated", JBool (R_Calibrated r))]
  ++ (if SFeqb (R_Score r) fzero then [] else [("score", JNum (R_Score r))])
  ++ (if bool_decide (R_Model r = "") then [] else [("model", JString (R_Model r))])
  ++ [("latency_ms", JGo "int64" (JNum (float_of_int (R_Latency r))))].

Definition completeWorkflowDecision (i : nat) (res : decision_result) (errText : string) : P unit :=
  now ← call clock;
  let d := mkDecisionResult (R_Choice res) (R_Confidence res) (R_Calibrated res) (R_Score res) (R_Model res)
             (R_Latency res) errText (R_Raw res) in
  edit i (λ n, set_W_Decision (Some d) (set_W_Attempt (nextWorkflowAttempt n)
                 (set_W_Status workflowStatusCompleted n)));;
  let outputs := result_outputs res ++ (if bool_decide (errText = "") then [] else [("error", JString errText)]) in
  with_node i tt (λ n,
    match output_check n outputs with
    | Some e => failWorkflowNode i (violation e)
    | None =>
        edit i (λ n, set_W_FinishedAt now (set_W_UpdatedAt now (set_W_JobID "" (set_W_Error ""
                       (set_W_Outputs outputs n)))));;
        (if bool_decide (R_Choice res = decisionErrorChoice) then edit i (set_W_Verdict workflowVerdictBlocked)
         else mret tt);;
        _ ← completed_handoff i (Marshal_decision d); mret tt
    end).

(** The decision of a failed call: no confidence, nothing measured. *)
Definition synthetic (choice : string) : decision_result := mkResult choice fzero false fzero "" 0 [].

Definition handleWorkflowDecisionFailure (i : nat) (callErr : string) : P unit :=
  with_node i tt (λ n,
    let executedAttempts := if (W_Attempt n <=? 0)%Z then nextWorkflowAttempt n else W_Attempt n in
    let kind := classifyDecisionFailure callErr in
    match shouldWorkflowRetry (W_Retry n) executedAttempts kind with
    | Some delay => scheduleWorkflowNodeRetry i executedAttempts delay
    | None =>
        let mode := match W_DecisionSpec n with
                    | Some spec => if bool_decide (WD_OnError spec = "") then decisionOnErrorFailClosed else WD_OnError spec
                    | None => decisionOnErrorFailClosed
                    end in
        if bool_decide (mode = decisionOnErrorFailOpen)
        then completeWorkflowDecision i
               (synthetic (match W_DecisionSpec n with Some spec => WD_DefaultChoice spec | None => "" end)) callErr
        else if bool_decide (mode = decisionOnErrorFail) then failWorkflowNode i callErr
        else completeWorkflowDecision i (synthetic decisionErrorChoice) callErr
    end).

Definition executeWorkflowDecision (i : nat) : P unit :=
  with_node i tt (λ n,
    match W_DecisionSpec n with
    | None => failWorkflowNode i "decision node missing spec"
    | Some spec =>
        configured ← gets (λ e, has_decision_caller (world e));
        if negb configured then handleWorkflowDecisionFailure i ErrNoCaller
        else
          s ← state;
          r ← call (Decide s n spec);
          match r with
          | Err e => handleWorkflowDecisionFailure i e
          | Ok res => completeWorkflowDecision i res ""
          end
    end).

(** ** Functions and services *)

Definition workflowFunctionContext (s : workflowState) (n : workflowNode) : json :=
  JObject [("node", JObject [("id", JString (W_ID n)); ("title", JString (W_Title n))]);
           ("inputs", JObject (RunInputs (Summary s)));
           ("outputs", JObject (foldl (λ outs (m : workflowNode),
              if bool_decide (W_ID m = W_ID n) || is_nil (W_Outputs m) then outs
              else set_entry (W_ID m) (JObject (W_Outputs m)) outs) [] (WNodes s)))].

Definition completeWorkflowFunction (i : nat) (res : object) : P unit :=
  with_node i tt (λ n,
    match output_check n res with
    | Some e => failWorkflowNode i (violation e)
    | None =>
        now ← call clock;
        edit i (λ n, end_node workflowStatusCompleted "" now
                       (set_W_JobID "" (set_W_Outputs res (set_W_Attempt (nextWorkflowAttempt n) n))));;
        ok ← completed_handoff i (payload_of res);
        if (ok : bool) then runPostScript i else mret tt
    end).

Definition is_object (v : json) : option object := match v with JObject m => Some m | _ => None end.

(** The outputs of a handler: an array streams events, the last of which is
    merged; any other value that is not an object is wrapped. *)
Definition function_outputs (raw : json) : object :=
  match raw with
  | JArray items =>
      let events := omap is_object items in
      foldl (λ m '(k, v), set_entry k v m)
        [("events", JGo "[]map[string]interface {}" (JArray (JObject <$> events)));
         ("count", JGo "int" (JNum (float_of_int (Z.of_nat (length events)))))]
        (default [] (last events))
  | JObject m => m
  | _ => [("result", raw)]
  end.

Definition executeWorkflowFunction (i : nat) : P unit :=
  with_node i tt (λ n,
    match W_FunctionSpec n with
    | None => failWorkflowNode i "function node missing spec"
    | Some spec =>
        s ← state;
        let ctx := workflowFunctionContext s n in
        match ValidateJSONSchemaValue ctx (WF_InputSchema spec) "function input" with
        | Some e => failWorkflowNode i ("input contract violation: " +:+ failure_text e)
        | None =>
            r ← call (runWorkflowFunction spec ctx (W_TimeoutSec n));
            match r with
            | Err e => failWorkflowNode i e
            | Ok raw =>
                match ValidateJSONSchemaValue raw (WF_OutputSchema spec) "function output" with
                | Some e => failWorkflowNode i (violation (failure_text e))
                | None => completeWorkflowFunction i (function_outputs raw)
                end
            end
        end
    end).

Definition completeWorkflowService (i : nat) (res : object) : P unit :=
  with_node i tt (λ n,
    match output_check n res with
    | Some e => failWorkflowServiceNode i (violation e)
    | None =>
        now ← call clock;
        edit i (λ n, end_node workflowStatusCompleted "" now (set_W_JobID "" (set_W_Outputs res n)));;
        ok ← completed_handoff i (payload_of res);
        if (ok : bool) then runPostScript i else mret tt
    end).

Definition executeWorkflowService (i : nat) : P unit :=
  with_node i tt (λ n,
    match W_ServiceSpec n with
    | None => failWorkflowServiceNode i "service node missing spec"
    | Some spec =>
        s ← state;
        r ← call (callWorkflowService s spec (W_TimeoutSec n));
        match r with
        | Err (ServiceFailure message kind) =>
            match shouldWorkflowRetry (W_Retry n) (W_Attempt n) kind with
            | Some delay => scheduleWorkflowNodeRetry i (W_Attempt n) delay
            | None => failWorkflowServiceNode i message
            end
        | Err ServiceError => failWorkflowServiceNode i "service request failed"
        | Ok outputs => completeWorkflowService i outputs
        end
    end).

End Engine.
