(* ===== verification/WorkflowRun.v ===== *)
(** * Durable workflows: scheduling and operations ([internal/agent/workflow.go])

    Starting a node, the status of a run, the dynamic edges, the scheduler, and
    the operations on a stored workflow. Those that a human task calls are in
    [flow_human_ops.go]. *)
From S2P Require Import Prelude GoStrings GoRunes GoPath JSON FlowModel FlowContracts FlowValidate WorkflowTypes WorkflowConditions WorkflowEngine WorkflowGraph.
From Stdlib Require Import Ascii ZArith Lia.

(** [strings.Index] and [strings.LastIndex] *)
Fixpoint Index (s sub : string) : option nat :=
  if HasPrefix s sub then Some 0
  else match s with "" => None | String _ s => S <$> Index s sub end.
Fixpoint LastIndex (s sub : string) : option nat :=
  match s with
  | "" => if HasPrefix "" sub then Some 0 else None
  | String _ rest =>
      match LastIndex rest sub with
      | Some i => Some (S i)
      | None => if HasPrefix s sub then Some 0 else None
      end
  end.

(** The run and the flow that a workflow id names. *)
Definition runIDAndFlowIDFromWorkflowID (workflowID : string) : string * string :=
  let workflowID := TrimSpace workflowID in
  match LastIndex workflowID "_fr_" with
  | None => ("", "")
  | Some idx =>
      let rest := TrimPrefix (String.substring 0 idx workflowID) "fl_" in
      let flowID := match Index rest "_" with
                    | Some (S i) => String.substring 0 (S i) rest
                    | _ => ""
                    end in
      (sdrop (S idx) workflowID, if bool_decide (flowID = "") then rest else flowID)
  end.

(** The workflow id of a run. *)
Definition run_workflow_id (flowID version runID : string) : string :=
  "fl_" +:+ flowID +:+ "_" +:+ version +:+ "_" +:+ runID.

Definition defaultHumanQueue : string := "default".

Section Run.
Context {U : Unicode} {F : FlowLib} {L : WorkflowLib} {J : JSONLib} {W : Type} {V : Services W}.

Abbreviation P := (M (engine W) string).

(** ** Starting a node *)

Definition registerWorkflowHumanTask (i : nat) : P (option string) :=
  with_node i None (λ n,
    match W_HumanSpec n with
    | None => mret None
    | Some h =>
        if negb (bool_decide (TrimSpace (W_HumanTaskID n) = "")) then mret None
        else
          s ← state;
          let queue := TrimSpace (WH_Queue h) in
          err ← call (save_human_task (S_ID (Summary s))
                        (if bool_decide (queue = "") then defaultHumanQueue else queue) n);
          match err with
          | Some e => mret (Some e)
          | None =>
              edit i (set_W_HumanTaskID
                ((runIDAndFlowIDFromWorkflowID (S_ID (Summary s))).1 +:+ ":" +:+ W_ID n));;
              mret None
          end
    end).

(** A node that any other kind of work runs as a subagent job. *)
Definition start_job (i : nat) (now : time) : P (string * bool) :=
  with_node i ("", false) (λ n,
    s ← state;
    prompt ← call (workflowNodePrompt s n);
    match prompt with
    | Err e => fail_at i e now;; mret (W_ID n, false)
    | Ok prompt =>
        let prompt := if is_nil (W_OutputSpec n) then prompt
          else prompt +:+ String (ascii_of_N 10)
                 "Return the declared outputs as one JSON object. Do not wrap it in markdown fences." in
        unresolved ← (if bool_decide (TrimSpace (W_AgentRef n) = "") then mret None
                      else call (resolveAgentRef n));
        match unresolved with
        | Some e => fail_at i e now;; mret (W_ID n, false)
        | None =>
            job ← call (start_subagent s n prompt);
            match job with
            | Err e => fail_at i e now;; mret (W_ID n, false)
            | Ok id =>
                edit i (λ n, set_W_UpdatedAt now (set_W_JobID id (set_W_Status workflowStatusRunning n)));;
                mret (W_ID n, true)
            end
        end
    end).

Definition kind_of (n : workflowNode) : string := normalizeWorkflowNodeKind (W_Kind n) (W_ID n).

(** What the kind of the node asks for, its attempt counted and its script run. *)
Definition start_kind (i : nat) (now : time) : P (string * bool) :=
  with_node i ("", false) (λ n,
    if bool_decide (kind_of n = workflowNodeKindDecision) then executeWorkflowDecision i;; mret ("", false)
    else if bool_decide (kind_of n = workflowNodeKindBranch) then executeWorkflowBranch i;; mret ("", false)
    else if bool_decide (kind_of n = workflowNodeKindUserInput) then
      err ← registerWorkflowHumanTask i;
      match err with
      | Some e => edit i (end_node workflowStatusError e now);; mret (W_ID n, false)
      | None =>
          edit i (λ n, set_W_UpdatedAt now (set_W_Status workflowStatusWaitingHuman n));; mret (W_ID n, false)
      end
    else if bool_decide (kind_of n = workflowNodeKindFunction) then executeWorkflowFunction i;; mret (W_ID n, false)
    else if bool_decide (kind_of n = workflowNodeKindService) then executeWorkflowService i;; mret (W_ID n, false)
    else start_job i now).

(** [startWorkflowNode]: the id it reports, and whether a job was started. *)
Definition startWorkflowNode (i : nat) : P (string * bool) :=
  now ← call clock;
  with_node i ("", false) (λ n,
    if negb (bool_decide (W_Status n = workflowStatusPending)) then mret ("", false)
    else
      edit i (λ n, let n := set_W_Attempt (wrap64 (W_Attempt n + 1)) n in
                   if (W_StartedAt n =? 0)%Z then set_W_StartedAt now n else n);;
      refused ← with_node i None (λ n,
        if bool_decide (TrimSpace (W_PreScript n) = "") then mret None
        else s ← state; call (pre_script s n));
      match refused with
      | Some e => fail_at i e now;; mret (W_ID n, false)
      | None => start_kind i now
      end).

(** ** The status of a run *)

Definition with_status (status : string) (nodes : list workflowNode) : list workflowNode :=
  filter (λ n : workflowNode, W_Status n = status) nodes.
Definition count_status (status : string) (nodes : list workflowNode) : nat :=
  length (with_status status nodes).

(** The status that the nodes call for. *)
Definition run_status (nodes : list workflowNode) : string :=
  let completed := count_status workflowStatusCompleted nodes in
  let canceled := count_status workflowStatusCanceled nodes in
  if bool_decide (0 < count_status workflowStatusError nodes) then workflowStatusError
  else if bool_decide (completed = length nodes) then workflowStatusCompleted
  else if bool_decide (0 < canceled) && bool_decide (completed + canceled = length nodes)
  then workflowStatusCanceled
  else if bool_decide (0 < count_status workflowStatusRunning nodes + completed
                           + count_status workflowStatusWaitingHuman nodes)
  then workflowStatusRunning
  else workflowStatusPending.

Definition first_failed (nodes : list workflowNode) : option workflowNode :=
  head (with_status workflowStatusError nodes).

Definition refresh_summary (nodes : list workflowNode) (s : workflowSummary) : workflowSummary :=
  if negb (bool_decide (TrimSpace (S_Error s) = "")) then set_S_Status workflowStatusError s
  else match nodes with
  | [] => set_S_Status workflowStatusPending s
  | _ =>
      let s := set_S_Status (run_status nodes) s in
      match first_failed nodes with
      | Some n => set_S_Error ("node " +:+ W_ID n +:+ ": " +:+ W_Error n) s
      | None => s
      end
  end.

Definition refreshWorkflowStatus : P unit :=
  change (λ s, set_summary (refresh_summary (WNodes s) (Summary s)) s).

Definition timeout_prefix : string := "flow run timed out after ".
Definition timeout_error (s : workflowSummary) : string :=
  timeout_prefix +:+ duration_text (RunTimeoutAt s - S_CreatedAt s).
Definition time_out (now : time) (s : workflowSummary) : workflowSummary :=
  touch now (set_S_Status workflowStatusError (set_S_Error (timeout_error s) s)).

Definition live (status : string) : bool :=
  bool_decide (status ∈ [workflowStatusPending; workflowStatusRunning; workflowStatusWaitingHuman]).

(** Cancels the nodes that have not ended, from slot [i] on. *)
Fixpoint expire_nodes (now : time) (i k : nat) : P unit :=
  match k with
  | 0 => mret tt
  | S k =>
      with_node i tt (λ n,
        if live (W_Status n) then
          (if bool_decide (W_Status n = workflowStatusRunning) && negb (bool_decide (TrimSpace (W_JobID n) = ""))
           then call (cancel_job (W_JobID n)) else mret tt);;
          edit i (end_node workflowStatusCanceled "flow run deadline exceeded" now)
        else mret tt);;
      expire_nodes now (S i) k
  end.

Definition late (s : workflowState) : bool :=
  existsb (λ n : workflowNode, negb (W_FinishedAt n =? 0)%Z && (RunTimeoutAt (Summary s) <? W_FinishedAt n)%Z)
    (WNodes s).

Definition expireWorkflowRun (now : time) : P bool :=
  s ← state;
  let sum := Summary s in
  if (RunTimeoutAt sum =? 0)%Z || (now <? RunTimeoutAt sum)%Z then mret false
  else if workflowTerminalStatus (S_Status sum) then
    if HasPrefix (TrimSpace (S_Error sum)) timeout_prefix then mret false
    else if late s then change_summary (time_out now);; mret true else mret false
  else
    expire_nodes now 0 (length (WNodes s));;
    change_summary (time_out now);; mret true.

(** The outputs that the spec collects, or why the run fails. *)
Fixpoint collect_outputs (nodes : list workflowNode) (specs : list VarDef) (values : object) :
    result string object :=
  match specs with
  | [] => Ok values
  | spec :: specs =>
      if bool_decide (TrimSpace (V_Source spec) = "") then collect_outputs nodes specs values
      else match ParseOutputSource (V_Source spec) with
           | None => Err ("invalid flow output source " +:+ quote (V_Source spec))
           | Some (nodeID, f) =>
               match workflowNodeByID nodes nodeID with
               | None => Err ("flow output " +:+ quote (V_Name spec) +:+ " source node " +:+ quote nodeID
                              +:+ " was not executed")
               | Some n =>
                   match field f (W_Outputs n) with
                   | None =>
                       if V_Required spec
                       then Err ("flow output " +:+ quote (V_Name spec) +:+ " is required but source "
                                 +:+ V_Source spec +:+ " has no value")
                       else collect_outputs nodes specs values
                   | Some v => collect_outputs nodes specs (set_entry (V_Name spec) v values)
                   end
               end
           end
  end.

Definition fail_run (error : string) : P bool :=
  change_summary (λ s, set_S_Status workflowStatusError (set_S_Error error s));; mret true.

Definition finalizeWorkflowRunOutputs : P bool :=
  s ← state;
  let sum := Summary s in
  if negb (bool_decide (S_Status sum = workflowStatusCompleted)) || is_nil (RunOutputSpec sum)
     || RunOutputsResolved sum
  then mret false
  else match collect_outputs (WNodes s) (RunOutputSpec sum) [] with
  | Err e => fail_run e
  | Ok values =>
      match ValidateVariableValues (RunOutputSpec sum) values "outputs" false with
      | Some e => fail_run ("flow output contract violation: " +:+ failure_text e)
      | None => change_summary (λ s, resolve_RunOutputs (set_RunOutputs values s));; mret true
      end
  end.

(** ** Dynamic edges *)

Definition mark_error (message : string) (now : time) (n : workflowNode) : workflowNode :=
  let n := set_W_UpdatedAt now (set_W_Error (TrimSpace message) (set_W_Status workflowStatusError n)) in
  if (W_FinishedAt n =? 0)%Z then set_W_FinishedAt now n else n.

Definition markWorkflowNodeError (nodeID message : string) : P unit :=
  now ← call clock;
  change (λ s, set_nodes (update_first (λ n : workflowNode, bool_decide (W_ID n = nodeID))
                            (mark_error message now) (WNodes s)) s).

Definition over_limit (s : workflowState) (inputs : list workflowNodeInput) : bool :=
  (workflowMaxNodes <? Z.of_nat (length (WNodes s) + length inputs))%Z.
Definition limit_error : string := "workflow node limit is " +:+ itoa workflowMaxNodes.

(** The nodes that the inputs add to those of the state. *)
Definition grow (s : workflowState) (inputs : list workflowNodeInput) (now : time) :
    result string (list workflowNode) :=
  newNodes ← workflowNodesFromInputs (list_to_set (node_ids (WNodes s))) now inputs;
  match validateWorkflowDeps (WNodes s ++ newNodes) with
  | Some e => Err e
  | None => Ok newNodes
  end.

Definition appendWorkflowNodesFromEdge (inputs : list workflowNodeInput) : P (list workflowNode) :=
  s ← state;
  if over_limit s inputs then throw limit_error
  else
    now ← call clock;
    match grow s inputs now with
    | Err e => throw e
    | Ok newNodes =>
        let combined := WNodes s ++ newNodes in
        match validateWorkflowEdges (WEdges s) combined with
        | Some e => throw e
        | None => change (set_nodes combined);; mret newNodes
        end
    end.

Definition iteration_key (e : workflowEdge) : string :=
  let key := TrimSpace (WE_IterationKey e) in if bool_decide (key = "") then WE_ID e else key.
Definition max_iterations (e : workflowEdge) : Z := normalizeWorkflowEdgeMaxIterations (WE_MaxIterations e).
Definition iterations (s : workflowState) (key : string) : Z := default 0%Z (EdgeIterations (Summary s) !! key).

(** What an edge whose condition holds does: it stops at its cap, or appends the
    next iteration of its template. *)
Definition fire_edge (n : workflowNode) (j : nat) (e : workflowEdge) : P unit :=
  s ← state;
  let key := iteration_key e in
  let current := iterations s key in
  if (max_iterations e <=? current)%Z then
    markWorkflowNodeError (W_ID n)
      ("workflow edge " +:+ WE_ID e +:+ " reached iteration cap " +:+ itoa (max_iterations e));;
    now ← call clock;
    change_summary (λ s, touch now (set_S_Status workflowStatusError s))
  else
    let iteration := wrap64 (current + 1) in
    let input := expandWorkflowEdgeAppend (WE_Append e) (W_ID n) iteration in
    change (λ s, set_edges (alter (expanded_edge (W_ID n) iteration) j (WEdges s)) s);;
    let input := if bool_decide (TrimSpace (I_ID input) = "")
                 then set_input_id (W_ID n +:+ "_" +:+ itoa iteration) input else input in
    _ ← appendWorkflowNodesFromEdge [input];
    change_summary (set_iteration key iteration).

(** One round of the inner loop: has anything changed? *)
Definition process_edge (n : workflowNode) (j : nat) : P bool :=
  s ← state;
  match WEdges s !! j with
  | None => mret false
  | Some e =>
      let key := workflowProcessedEdgeKey (WE_ID e) (W_ID n) in
      if negb (workflowEdgeMatchesSource e n) || bool_decide (key ∈ ProcessedEdges (Summary s)) then mret false
      else
        change_summary (mark_processed key);;
        (if workflowEdgeConditionMatchesState (WNodes s) (WE_When e) n then fire_edge n j e else mret tt);;
        mret true
  end.

Fixpoint any_of {A} (f : A → P bool) (l : list A) : P bool :=
  match l with
  | [] => mret false
  | x :: l => a ← f x; b ← any_of f l; mret (a || b)
  end.

Definition process_node (n : workflowNode) : P bool :=
  s ← state;
  if workflowNodeTerminal (W_Status n) then any_of (process_edge n) (seq 0 (length (WEdges s))) else mret false.

(** The nodes are those at the start of the call. *)
Definition processWorkflowEdges : P bool :=
  s ← state;
  if is_nil (WEdges s) then mret false
  else
    changed ← any_of process_node (WNodes s);
    if (changed : bool) then
      now ← call clock;
      change_summary (touch now);;
      s ← state;
      (if bool_decide (S_Status (Summary s) = workflowStatusError) then mret tt else refreshWorkflowStatus);;
      mret true
    else mret false.

(** ** Jobs *)

Definition subagentStatusTerminal (status : string) : bool :=
  bool_decide (status ∈ ["completed"; "canceled"; "interrupted"; "timeout"; "error"]).

(** The outputs of a completed job, or why its contract is violated. *)
Definition job_outputs (n : workflowNode) (res : string) : result string (option object) :=
  if is_nil (W_OutputSpec n) then Ok None
  else match Unmarshal_object res with
  | Err e => Err ("expected a JSON object: " +:+ e)
  | Ok None => Err "expected a non-null JSON object"
  | Ok (Some outputs) => match output_check n outputs with Some e => Err e | None => Ok (Some outputs) end
  end.

(** The end of a job that is not retried. *)
Definition settle_job (i : nat) (now : time) (status error : string) (outputs : option object)
    (job : subagentJob) : P unit :=
  edit i (λ n, let n := end_node status error now
                 (set_W_ResultPreview (previewSubagentResultForModel (J_Result job))
                    (set_W_Attempt (nextWorkflowAttempt n) n)) in
               match outputs with Some m => set_W_Outputs m n | None => n end);;
  err ← finalizeWorkflowNodeHandoff i (J_Result job);
  (match err with
   | Some e => edit i (λ n, set_W_Status workflowStatusError (set_W_Error e n))
   | None => mret tt
   end);;
  with_node i tt (λ n, if bool_decide (W_Status n = workflowStatusCompleted) then runPostScript i else mret tt).

Definition refresh_node (now : time) (i : nat) : P bool :=
  with_node i false (λ n,
    if negb (bool_decide (W_Status n = workflowStatusRunning)) || bool_decide (TrimSpace (W_JobID n) = "")
    then mret false
    else
      job ← call (get_job (W_JobID n));
      match job with
      | None => mret false
      | Some job =>
          if negb (subagentStatusTerminal (J_Status job)) then mret false
          else if bool_decide (J_Status job = "completed") then
            (match job_outputs n (J_Result job) with
             | Ok outputs => settle_job i now workflowStatusCompleted (J_Error job) outputs job
             | Err e => settle_job i now workflowStatusError (violation e) None job
             end);; mret true
          else if bool_decide (J_Status job ∈ ["canceled"; "interrupted"]) then
            settle_job i now workflowStatusCanceled (J_Error job) None job;; mret true
          else
            match shouldWorkflowRetry (W_Retry n) (W_Attempt n)
                    (classifyWorkflowFailure (J_Status job) (J_Error job)) with
            | Some delay => scheduleWorkflowNodeRetry i (W_Attempt n) delay;; mret true
            | None => settle_job i now workflowStatusError (J_Error job) None job;; mret true
            end
      end).

Definition refreshWorkflowNodes : P bool :=
  now ← call clock;
  s ← state;
  changed ← any_of (refresh_node now) (seq 0 (length (WNodes s)));
  if (changed : bool) then change_summary (touch now);; refreshWorkflowStatus;; mret true else mret false.

End Run.
