(* ===== verification/WorkflowOps.v ===== *)
(** * Durable workflows: the stored workflow ([internal/agent/workflow.go], [flow_human_ops.go])

    Loading and saving, and the operations: each takes the lock of the workflow
    for its whole body, so that it is one step. What an operation that fails
    computed is dropped with its local variable: only what [save] wrote stays. *)
From S2P Require Import Prelude GoStrings GoRunes GoPath JSON FlowModel FlowContracts FlowValidate WorkflowTypes WorkflowConditions WorkflowEngine WorkflowRun WorkflowGraph.
From Stdlib Require Import Ascii ZArith Lia.

Section Ops.
Context {U : Unicode} {F : FlowLib} {L : WorkflowLib} {J : JSONLib} {W : Type} {V : Services W}.

Abbreviation P := (M (engine W) string).

(** ** Files *)

Definition fixed_eta (f : workflowNodeFixed) : workflowNodeFixed :=
  mkFixed (W_ID f) (W_Kind f) (W_Title f) (W_Prompt f) (W_TimeoutSec f) (W_DependsOn f) (W_HandoffPolicy f)
    (W_HandoffFrom f) (W_HandoffMaxBytes f) (W_PreviewMerge f) (W_AgentType f) (W_AgentRef f) (W_WriteScope f)
    (W_Retry f) (W_DecisionSpec f) (W_BranchSpec f) (W_HumanSpec f) (W_FunctionSpec f) (W_ServiceSpec f)
    (W_PreScript f) (W_PostScript f) (W_OutputSpec f) (W_CreatedAt f).
Definition set_W_Kind (kind : string) (f : workflowNodeFixed) : workflowNodeFixed :=
  ltac:(with_field fixed_eta W_Kind f kind).
Definition set_W_HandoffPolicy (policy : string) (f : workflowNodeFixed) : workflowNodeFixed :=
  ltac:(with_field fixed_eta W_HandoffPolicy f policy).
Definition set_W_HandoffFrom (from : list string) (f : workflowNodeFixed) : workflowNodeFixed :=
  ltac:(with_field fixed_eta W_HandoffFrom f from).
Definition set_W_HandoffMaxBytes (max : Z) (f : workflowNodeFixed) : workflowNodeFixed :=
  ltac:(with_field fixed_eta W_HandoffMaxBytes f max).
Definition set_W_PreviewMerge (merge : bool) (f : workflowNodeFixed) : workflowNodeFixed :=
  ltac:(with_field fixed_eta W_PreviewMerge f merge).
Definition set_W_HumanSpec (spec : option workflowHumanSpec) (f : workflowNodeFixed) : workflowNodeFixed :=
  ltac:(with_field fixed_eta W_HumanSpec f spec).

(** What [load] makes of a node that it has read. *)
Definition load_node (n : workflowNode) : workflowNode :=
  let f := fixed n in
  let policy := normalizeWorkflowHandoffPolicy (W_HandoffPolicy f) (negb (is_nil (W_DependsOn f))) in
  set_fixed (set_W_PreviewMerge
      (if negb (is_nil (W_DependsOn f)) && negb (bool_decide (policy = workflowHandoffPolicyNone))
       then true else W_PreviewMerge f)
    (set_W_HandoffMaxBytes (normalizeWorkflowHandoffMaxBytes (W_HandoffMaxBytes f))
    (set_W_HandoffFrom (normalizeWorkflowStrings (W_HandoffFrom f))
    (set_W_HandoffPolicy policy
    (set_W_Kind (normalizeWorkflowNodeKind (W_Kind f) (W_ID f)) f))))) n.

Definition missing_file : string := "no such file or directory".

Definition load (id : string) : P unit :=
  let id := TrimSpace id in
  match validateWorkflowID id with
  | Some e => throw e
  | None =>
      d ← gets disk;
      match summaries d !! id, node_files d !! id with
      | Some sum, Some nodes =>
          update (set_wf (mkState sum (load_node <$> nodes) (default [] (edge_files d !! id))))
      | _, _ => throw missing_file
      end
  end.

Definition write (path : string) (f : files → files) : P unit :=
  err ← call (write_file path);
  match err with Some e => throw e | None => update (λ e, set_disk (f (disk e)) e) end.

(** The files one by one, as JSON: an error leaves those before it written. *)
Definition save : P unit :=
  s ← state;
  let id := S_ID (Summary s) in
  write id (λ d, mkFiles ({[id]} ∪ dirs d) (summaries d) (node_files d) (edge_files d));;
  write (id +:+ "/summary.json")
    (λ d, mkFiles (dirs d) (<[id := encoded_summary (Summary s)]> (summaries d)) (node_files d) (edge_files d));;
  write (id +:+ "/nodes.json")
    (λ d, mkFiles (dirs d) (summaries d) (<[id := encoded_node <$> WNodes s]> (node_files d)) (edge_files d));;
  if is_nil (WEdges s) then update (λ e, set_disk (mkFiles (dirs (disk e)) (summaries (disk e)) (node_files (disk e))
                                                     (base.delete id (edge_files (disk e)))) e)
  else write (id +:+ "/edges.json")
         (λ d, mkFiles (dirs d) (summaries d) (node_files d) (<[id := WEdges s]> (edge_files d))).

(** ** [create] *)

Definition new_state (id sessionID : string) (now : time) (nodes : list workflowNode) (edges : list workflowEdge) :
    workflowState :=
  mkState (mkSummary id (TrimSpace sessionID) workflowStatusPending "" [] [] [] false 0 false ∅ ∅ ∅ now now)
    nodes edges.

(** The graph of a new workflow: there is no limit on its size. *)
Definition build (inputs : list workflowNodeInput) (edgeInputs : list workflowEdgeInput) (now : time) :
    result string (list workflowNode * list workflowEdge) :=
  nodes ← workflowNodesFromInputs ∅ now inputs;
  match validateWorkflowDeps nodes with
  | Some e => Err e
  | None =>
      edges ← workflowEdgesFromInputs edgeInputs;
      match validateWorkflowEdges edges nodes with
      | Some e => Err e
      | None => Ok (nodes, edges)
      end
  end.

Definition create (sessionID workflowID : string) (inputs : list workflowNodeInput)
    (edgeInputs : list workflowEdgeInput) : P unit :=
  if is_nil inputs then throw "missing workflow nodes"
  else
    now ← call clock;
    let id := TrimSpace workflowID in
    match (if bool_decide (id = "") then None else validateWorkflowID id) with
    | Some e => throw e
    | None =>
        let id := if bool_decide (id = "") then "wf_" +:+ itoa now else id in
        d ← gets disk;
        if bool_decide (id ∈ dirs d) then throw ("workflow already exists: " +:+ id)
        else
          err ← call (stat_error id);
          match err with
          | Some e => throw e
          | None =>
              match build inputs edgeInputs now with
              | Err e => throw e
              | Ok (nodes, edges) => update (set_wf (new_state id sessionID now nodes edges));; save
              end
          end
    end.

(** The workflow of a flow run, from [CreateFlowRunIdempotent]. *)
Definition Second : Z := 1000000000.
Definition create_run (sessionID workflowID : string) (inputs : list workflowNodeInput)
    (edgeInputs : list workflowEdgeInput) (runInputs : object) (outputs : list VarDef) (timeoutSec : Z) : P unit :=
  create sessionID workflowID inputs edgeInputs;;
  change_summary (λ s, set_RunOutputSpec outputs (set_RunInputs runInputs s));;
  (if (0 <? timeoutSec)%Z then
     now ← call clock; change_summary (set_RunTimeoutAt (now + wrap64 (timeoutSec * Second))%Z)
   else mret tt);;
  save.

(** ** Reading *)

Definition workflowStateUnlocked (id : string) : P unit :=
  load id;;
  changed ← refreshWorkflowNodes;
  edgeChanged ← processWorkflowEdges;
  now ← call clock;
  expired ← expireWorkflowRun now;
  finalized ← finalizeWorkflowRunOutputs;
  if (changed || edgeChanged || expired || finalized : bool) then save else mret tt.

(** ** The scheduler *)

Definition ready (s : workflowState) (now : time) (n : workflowNode) : bool :=
  bool_decide (W_Status n = workflowStatusPending) && workflowDepsCompleted (WNodes s) (W_DependsOn n)
  && workflowNodeRetryDue n now.

(** The pass over the slots: has anything been started, and the jobs. *)
Fixpoint start_ready (deadline now : time) (slots : list nat) (advanced : bool) (started : list string) :
    P (bool * list string) :=
  match slots with
  | [] => mret (advanced, started)
  | i :: slots =>
      s ← state;
      match WNodes s !! i with
      | None => mret (advanced, started)
      | Some n =>
          if negb (ready s now n) then start_ready deadline now slots advanced started
          else
            '(id, ok) ← startWorkflowNode i;
            let started := if (ok : bool) then started ++ [id] else started in
            stopped ← call (context_done deadline);
            if (stopped : bool) then mret (true, started) else start_ready deadline now slots true started
      end
  end.

(** [None]: out of fuel. *)
Fixpoint advance_loop (fuel : nat) (deadline now : time) (changed : bool) (started : list string) :
    P (option (bool * list string)) :=
  match fuel with
  | 0 => mret None
  | S fuel =>
      s ← state;
      if workflowTerminalStatus (S_Status (Summary s)) then mret (Some (changed, started))
      else
        stopped ← call (context_done deadline);
        if (stopped : bool) then mret (Some (changed, started))
        else
          '(advanced, started) ← start_ready deadline now (seq 0 (length (WNodes s))) false started;
          edgeChanged ← processWorkflowEdges;
          let changed := changed || advanced || edgeChanged in
          if (advanced || edgeChanged : bool) then advance_loop fuel deadline now changed started
          else mret (Some (changed, started))
  end.

(** The ids of the nodes whose jobs were started; [None] out of fuel. *)
Definition advanceWorkflowReadyNodes (fuel : nat) (id : string) (enableAutoSchedule : bool) :
    P (option (list string)) :=
  workflowStateUnlocked id;;
  s ← state;
  if workflowTerminalStatus (S_Status (Summary s)) then mret (Some [])
  else
    let deadline := RunTimeoutAt (Summary s) in
    let enable := enableAutoSchedule && negb (AutoSchedule (Summary s)) in
    (if enable then change_summary enable_auto else mret tt);;
    now ← call clock;
    r ← advance_loop fuel deadline now enable [];
    match r with
    | None => mret None
    | Some (changed, started) =>
        now ← call clock;
        expired ← expireWorkflowRun now;
        let changed := (changed || expired)%bool in
        (if changed then now ← call clock; change_summary (touch now) else mret tt);;
        refreshWorkflowStatus;;
        finalized ← finalizeWorkflowRunOutputs;
        (if (finalized : bool) then now ← call clock; change_summary (touch now) else mret tt);;
        (if (changed || finalized)%bool then save else mret tt);;
        mret (Some started)
    end.

(** The first node that is ready, as one step of debugging. *)
Fixpoint start_one (now : time) (slots : list nat) : P unit :=
  match slots with
  | [] => mret tt
  | i :: slots =>
      s ← state;
      match WNodes s !! i with
      | None => mret tt
      | Some n => if negb (ready s now n) then start_one now slots else _ ← startWorkflowNode i; mret tt
      end
  end.

(** The part of [stepWorkflow] that runs under the lock. *)
Definition stepWorkflow (id : string) : P unit :=
  workflowStateUnlocked id;;
  now ← call clock;
  s ← state;
  start_one now (seq 0 (length (WNodes s)));;
  change_summary (touch now);;
  refreshWorkflowStatus;;
  _ ← processWorkflowEdges;
  save.

(** ** Changing the graph *)

(** The ids that were appended, now or by the first call of this key. *)
Definition appendWorkflowNodes (id : string) (inputs : list workflowNodeInput) (edgeInputs : list workflowEdgeInput)
    (idempotencyKey : string) : P (list string) :=
  workflowStateUnlocked id;;
  s ← state;
  let key := TrimSpace idempotencyKey in
  let known := default [] (AppendKeys (Summary s) !! key) in
  if negb (bool_decide (key = "")) && negb (is_nil known) then mret known
  else if is_nil inputs && is_nil edgeInputs then throw "missing workflow nodes or edges"
  else if over_limit s inputs then throw limit_error
  else
    now ← call clock;
    match grow s inputs now with
    | Err e => throw e
    | Ok newNodes =>
        match workflowEdgesFromInputs edgeInputs with
        | Err e => throw e
        | Ok newEdges =>
            let combined := WNodes s ++ newNodes in
            let combinedEdges := WEdges s ++ newEdges in
            match validateWorkflowEdges combinedEdges combined with
            | Some e => throw e
            | None =>
                change (λ s, set_nodes combined (set_edges combinedEdges s));;
                change_summary (touch now);;
                (if bool_decide (key = "") then mret tt
                 else change_summary (set_append_key key (node_ids newNodes)));;
                refreshWorkflowStatus;;
                _ ← processWorkflowEdges;
                save;;
                mret (node_ids newNodes)
            end
        end
    end.

(** ** Ending nodes by hand *)

Fixpoint cancel_nodes (nodeID : string) (now : time) (i k : nat) : P unit :=
  match k with
  | 0 => mret tt
  | S k =>
      with_node i tt (λ n,
        if negb (bool_decide (TrimSpace nodeID = "")) && negb (bool_decide (W_ID n = TrimSpace nodeID)) then mret tt
        else
          (if bool_decide (W_Status n = workflowStatusRunning) && negb (bool_decide (W_JobID n = ""))
           then call (cancel_job (W_JobID n)) else mret tt);;
          edit i (λ n, set_W_UpdatedAt now
                         (if live (W_Status n) then set_W_FinishedAt now (set_W_Status workflowStatusCanceled n)
                          else n)));;
      cancel_nodes nodeID now (S i) k
  end.

Definition cancelWorkflowNode (id nodeID : string) : P unit :=
  workflowStateUnlocked id;;
  now ← call clock;
  s ← state;
  cancel_nodes nodeID now 0 (length (WNodes s));;
  change_summary (touch now);;
  refreshWorkflowStatus;;
  _ ← processWorkflowEdges;
  save.

(** Every node of that name, as the loop does: has one been found? *)
Fixpoint complete_nodes (nodeID res : string) (outputs : object) (now : time) (i k : nat) : P bool :=
  match k with
  | 0 => mret false
  | S k =>
      found ← with_node i false (λ n,
        if negb (bool_decide (W_ID n = nodeID)) then mret false
        else
          let merged := foldl (λ m '(k, v), set_entry k v m) (W_Outputs n) outputs in
          edit i (set_W_Outputs merged);;
          match output_check n merged with
          | Some e => throw (violation e)
          | None =>
              edit i (λ n, end_node workflowStatusCompleted "" now
                             (set_W_ResultPreview (previewSubagentResultForModel res)
                                (set_W_Attempt (nextWorkflowAttempt n) n)));;
              err ← finalizeWorkflowNodeHandoff i res;
              match err with
              | Some e => throw e
              | None => runPostScript i;; mret true
              end
          end);
      rest ← complete_nodes nodeID res outputs now (S i) k;
      mret (found || rest)
  end.

Definition completeWorkflowNodeWithOutputs (id nodeID res : string) (outputs : object) : P unit :=
  workflowStateUnlocked id;;
  let nodeID := TrimSpace nodeID in
  if bool_decide (nodeID = "") then throw "missing node_id"
  else
    now ← call clock;
    s ← state;
    found ← complete_nodes nodeID res outputs now 0 (length (WNodes s));
    if negb found then throw ("workflow node not found: " +:+ nodeID)
    else
      change_summary (touch now);;
      refreshWorkflowStatus;;
      _ ← processWorkflowEdges;
      save.

(** ** Human tasks *)

(** A change of the first node of that name. *)
Definition change_named (id nodeID : string) (f : time → workflowNode → workflowNode) (after : time → P unit) : P unit :=
  workflowStateUnlocked id;;
  now ← call clock;
  s ← state;
  match find_index (λ n : workflowNode, bool_decide (W_ID n = nodeID)) (WNodes s) with
  | None => throw ("workflow node not found: " +:+ nodeID)
  | Some i => edit i (f now);; after now;; save
  end.

Definition writeWorkflowNodeOutput (id nodeID key : string) (value : json) : P unit :=
  change_named id nodeID (λ now n, set_W_UpdatedAt now (set_W_Outputs (set_entry key value (W_Outputs n)) n))
    (λ _, mret tt).

(** The part of [rescheduleHumanNodeAsLLM] under the lock; the run is started
    next. *)
Definition rescheduleHumanNodeAsLLM (id nodeID : string) : P unit :=
  change_named id nodeID (λ now n,
    set_W_UpdatedAt now (set_W_Status workflowStatusPending
      (set_fixed (set_W_HumanSpec None (set_W_Kind "llm_task" (fixed n))) n))) (λ _, mret tt).

Definition failWorkflowHumanNode (id nodeID reason : string) : P unit :=
  change_named id nodeID (λ now n, end_node workflowStatusError reason now n)
    (λ now, change_summary (touch now);; refreshWorkflowStatus).

End Ops.
