(* ===== verification/TaskTypes.v ===== *)
(** * Task board: the data of the ledger ([internal/plugins/taskboard/types.go])

    The structs of the package as records, field by field, with the string
    constants the code compares them against.  Statuses and urgencies are Go
    strings and stay strings here: a document read from disk may hold any
    value.  A [time.Time] is a count of nanoseconds, the zero time being 0. *)
From S2P Require Import Prelude GoStrings.
From Stdlib Require Import ZArith Lia.

Definition time : Type := Z.

(** ** Constants *)

Definition StatusBacklog : string := "backlog".
Definition StatusTodo : string := "todo".
Definition StatusInProgress : string := "in_progress".
Definition StatusInReview : string := "in_review".
Definition StatusDone : string := "done".

Definition UrgencyUrgent : string := "urgent".
Definition UrgencyNormal : string := "normal".
Definition UrgencyLow : string := "low".

Definition ExecutionRunning : string := "running".
Definition ExecutionCompleted : string := "completed".
Definition ExecutionFailed : string := "failed".
Definition ExecutionCancelled : string := "cancelled".

(** ** Structs *)

Record Project : Type := mkProject {
  Project_ID : string;
  Project_Name : string;
  Project_WorkDirs : list string;
  Project_BuiltIn : bool;
}.

Record ChecklistItem : Type := mkChecklistItem {
  Item_Text : string;
  Item_Done : bool;
  Item_Evidence : string;
}.

Record Comment : Type := mkComment {
  Comment_Author : string;
  Comment_Text : string;
  Comment_CreatedAt : time;
}.

Record HostRef : Type := mkHostRef {
  Host_SessionID : string;
  Host_Channel : string;
  Host_Key : string;
  Host_UserID : string;
  Host_ProjectDir : string;
}.

Record Execution : Type := mkExecution {
  Ex_ID : string;
  Ex_SessionID : string;
  Ex_Status : string;
  Ex_StartedAt : time;
  Ex_EndedAt : time;
  Ex_Summary : string;
  Ex_Host : option HostRef;
  Ex_JobSessionID : string;
  Ex_Stage : string;
  Ex_ErrorType : string;
  Ex_LastError : string;
  Ex_LastTool : string;
  Ex_UpdatedAt : time;
}.

Record ExecutionObservation : Type := mkObservation {
  Obs_Stage : string;
  Obs_ErrorType : string;
  Obs_LastError : string;
  Obs_LastTool : string;
}.

Record Research : Type := mkResearch {
  Facts : list string;
  Locations : list string;
  ExcludedPaths : list string;
  OpenQuestions : list string;
}.

Record PathConflict : Type := mkPathConflict {
  Conflict_Path : string;
  Conflict_OtherPath : string;
  Conflict_OtherCard : string;
  Conflict_OtherTitle : string;
}.

Record ConflictReport : Type := mkConflictReport {
  Conflicts : list PathConflict;
}.

Record Card : Type := mkCard {
  Card_ID : string;
  Card_ProjectID : string;
  Card_Title : string;
  Card_Description : string;
  Card_Prompt : string;
  Card_Urgency : string;
  Card_Status : string;
  Card_TemplateID : string;
  Card_WorkDir : string;
  Card_TouchedPaths : list string;
  Card_ExternalRequestID : string;
  Card_Research : option Research;
  Card_ObservedPaths : list string;
  Card_MergeReport : option ConflictReport;
  Card_Holder : string;
  Card_Blocked : bool;
  Card_Checklist : list ChecklistItem;
  Card_Comments : list Comment;
  Card_Executions : list Execution;
  Card_Version : Z;
  Card_CreatedBy : string;
  Card_UpdatedBy : string;
  Card_CreatedAt : time;
  Card_UpdatedAt : time;
  Card_Deleted : bool;
}.

#[export] Instance PathConflict_eq_dec : EqDecision PathConflict.
Proof. solve_decision. Defined.
#[export] Instance Research_eq_dec : EqDecision Research.
Proof. solve_decision. Defined.

(** ** Field assignment [x.F = v] *)

Definition Card_eta (c : Card) : Card :=
  mkCard (Card_ID c) (Card_ProjectID c) (Card_Title c) (Card_Description c)
    (Card_Prompt c) (Card_Urgency c) (Card_Status c) (Card_TemplateID c)
    (Card_WorkDir c) (Card_TouchedPaths c) (Card_ExternalRequestID c)
    (Card_Research c) (Card_ObservedPaths c) (Card_MergeReport c) (Card_Holder c)
    (Card_Blocked c) (Card_Checklist c) (Card_Comments c) (Card_Executions c)
    (Card_Version c) (Card_CreatedBy c) (Card_UpdatedBy c) (Card_CreatedAt c)
    (Card_UpdatedAt c) (Card_Deleted c).

Definition set_Title (v : string) (c : Card) : Card := ltac:(with_field Card_eta Card_Title c v).
Definition set_Description (v : string) (c : Card) : Card :=
  ltac:(with_field Card_eta Card_Description c v).
Definition set_Prompt (v : string) (c : Card) : Card := ltac:(with_field Card_eta Card_Prompt c v).
Definition set_Urgency (v : string) (c : Card) : Card :=
  ltac:(with_field Card_eta Card_Urgency c v).
Definition set_Status (v : string) (c : Card) : Card := ltac:(with_field Card_eta Card_Status c v).
Definition set_TemplateID (v : string) (c : Card) : Card :=
  ltac:(with_field Card_eta Card_TemplateID c v).
Definition set_WorkDir (v : string) (c : Card) : Card :=
  ltac:(with_field Card_eta Card_WorkDir c v).
Definition set_TouchedPaths (v : list string) (c : Card) : Card :=
  ltac:(with_field Card_eta Card_TouchedPaths c v).
Definition set_Research (v : option Research) (c : Card) : Card :=
  ltac:(with_field Card_eta Card_Research c v).
Definition set_ObservedPaths (v : list string) (c : Card) : Card :=
  ltac:(with_field Card_eta Card_ObservedPaths c v).
Definition set_MergeReport (v : option ConflictReport) (c : Card) : Card :=
  ltac:(with_field Card_eta Card_MergeReport c v).
Definition set_Holder (v : string) (c : Card) : Card := ltac:(with_field Card_eta Card_Holder c v).
Definition set_Blocked (v : bool) (c : Card) : Card := ltac:(with_field Card_eta Card_Blocked c v).
Definition set_Checklist (v : list ChecklistItem) (c : Card) : Card :=
  ltac:(with_field Card_eta Card_Checklist c v).
Definition set_Comments (v : list Comment) (c : Card) : Card :=
  ltac:(with_field Card_eta Card_Comments c v).
Definition set_Executions (v : list Execution) (c : Card) : Card :=
  ltac:(with_field Card_eta Card_Executions c v).
Definition set_Version (v : Z) (c : Card) : Card := ltac:(with_field Card_eta Card_Version c v).
Definition set_UpdatedBy (v : string) (c : Card) : Card :=
  ltac:(with_field Card_eta Card_UpdatedBy c v).
Definition set_UpdatedAt (v : time) (c : Card) : Card :=
  ltac:(with_field Card_eta Card_UpdatedAt c v).
Definition set_Deleted (v : bool) (c : Card) : Card := ltac:(with_field Card_eta Card_Deleted c v).

Definition Execution_eta (x : Execution) : Execution :=
  mkExecution (Ex_ID x) (Ex_SessionID x) (Ex_Status x) (Ex_StartedAt x) (Ex_EndedAt x)
    (Ex_Summary x) (Ex_Host x) (Ex_JobSessionID x) (Ex_Stage x) (Ex_ErrorType x)
    (Ex_LastError x) (Ex_LastTool x) (Ex_UpdatedAt x).

Definition set_ExStatus (v : string) (x : Execution) : Execution :=
  ltac:(with_field Execution_eta Ex_Status x v).
Definition set_ExEndedAt (v : time) (x : Execution) : Execution :=
  ltac:(with_field Execution_eta Ex_EndedAt x v).
Definition set_ExSummary (v : string) (x : Execution) : Execution :=
  ltac:(with_field Execution_eta Ex_Summary x v).
Definition set_ExJobSessionID (v : string) (x : Execution) : Execution :=
  ltac:(with_field Execution_eta Ex_JobSessionID x v).
Definition set_ExStage (v : string) (x : Execution) : Execution :=
  ltac:(with_field Execution_eta Ex_Stage x v).
Definition set_ExErrorType (v : string) (x : Execution) : Execution :=
  ltac:(with_field Execution_eta Ex_ErrorType x v).
Definition set_ExLastError (v : string) (x : Execution) : Execution :=
  ltac:(with_field Execution_eta Ex_LastError x v).
Definition set_ExLastTool (v : string) (x : Execution) : Execution :=
  ltac:(with_field Execution_eta Ex_LastTool x v).
Definition set_ExUpdatedAt (v : time) (x : Execution) : Execution :=
  ltac:(with_field Execution_eta Ex_UpdatedAt x v).

(** ** Methods *)

(** [Project.UnmarshalJSON], after the JSON decoder filled the struct [p] and
    the legacy [root_dir] member ("" when absent). *)
Definition Project_UnmarshalJSON (p : Project) (rootDir : string) : Project :=
  if bool_decide (Project_WorkDirs p = []) && negb (bool_decide (TrimSpace rootDir = ""))
  then mkProject (Project_ID p) (Project_Name p) [TrimSpace rootDir] (Project_BuiltIn p)
  else p.

Definition Research_IsEmpty (r : Research) : bool :=
  bool_decide (Facts r = []) && bool_decide (Locations r = [])
  && bool_decide (ExcludedPaths r = []) && bool_decide (OpenQuestions r = []).

Definition is_running (x : Execution) : bool := bool_decide (Ex_Status x = ExecutionRunning).

Definition HasRunningExecution (c : Card) : bool := existsb is_running (Card_Executions c).

Definition ChecklistProgress (c : Card) : nat * nat :=
  fold_left (λ '(done, total) item,
    ((if Item_Done item then S done else done), S total)) (Card_Checklist c) (0, 0).

(** * Lemmas *)

Lemma HasRunningExecution_iff c :
  HasRunningExecution c = true ↔ ∃ x, x ∈ Card_Executions c ∧ Ex_Status x = ExecutionRunning.
Proof.
  unfold HasRunningExecution. rewrite existsb_exists. unfold is_running.
  setoid_rewrite bool_decide_eq_true. by setoid_rewrite list_elem_of_In.
Qed.

Lemma ChecklistProgress_spec c :
  ChecklistProgress c =
  (length (filter (λ i, Item_Done i = true) (Card_Checklist c)), length (Card_Checklist c)).
Proof.
  unfold ChecklistProgress.
  assert (∀ l d t, fold_left (λ '(done, total) item,
    ((if Item_Done item then S done else done), S total)) l (d, t) =
    (d + length (filter (λ i, Item_Done i = true) l), t + length l)) as ->; [|done].
  induction l as [|i l IH]; intros d t; [simpl; f_equal; lia|].
  cbn [fold_left]. rewrite IH, filter_cons. destruct (Item_Done i); simpl; f_equal; lia.
Qed.
