(* ===== verification/TaskConflicts.v ===== *)
(** * Task board: path normalisation and cross-card conflicts
    ([internal/plugins/taskboard/conflicts.go])

    Paths are strings; the package-level overlap test of the code works on
    bytes and is proved equal to a prefix test on path segments. *)
From S2P Require Import Prelude GoStrings GoRunes GoPath TaskTypes.
From Stdlib Require Import Ascii ZArith Lia.

(** ** Normalisation *)

Definition normalizePath (p : string) : string := Trim (TrimSpace p) slash.

(** The loop shared by the three list normalisers: normalise each entry, drop
    the empty ones, keep the first of equal ones. *)
Definition normalize_list (f : string → string) (l : list string) : list string :=
  dedup (filter (λ p, p ≠ "") (f <$> l)).

Definition normalizeTouchedPaths (paths : list string) : list string :=
  normalize_list normalizePath paths.

Definition normalizeWorkDir (p : string) : string :=
  let p := TrimSpace p in
  if bool_decide (p = "") then ""
  else if IsAbs p then Clean p
  else Trim p slash.

Definition normalizeWorkDirs (dirs : list string) : list string :=
  normalize_list normalizeWorkDir dirs.

Definition trimDedup (lines : list string) : list string := normalize_list TrimSpace lines.

Definition normalizeResearch (r : option Research) : option Research :=
  match r with
  | None => None
  | Some r =>
      let facts := trimDedup (Facts r) in
      let locations := trimDedup (Locations r) in
      let excluded := normalizeTouchedPaths (ExcludedPaths r) in
      let open := trimDedup (OpenQuestions r) in
      if bool_decide (facts = []) && bool_decide (locations = [])
         && bool_decide (excluded = []) && bool_decide (open = [])
      then None
      else Some (mkResearch facts locations excluded open)
  end.

(** ** Overlap *)

Definition isPathPrefix (prefix full : string) : bool :=
  if negb (HasPrefix full prefix) then false
  else if bool_decide (String.length full = String.length prefix) then true
  else bool_decide (String.get (String.length prefix) full = Some slash).

Definition pathsOverlap (a b : string) : bool :=
  let a := normalizePath a in
  let b := normalizePath b in
  if bool_decide (a = "" ∨ b = "") then false
  else if bool_decide (a = b) then true
  else isPathPrefix a b || isPathPrefix b a.

(** ** Conflicts between cards *)

Definition HasConflicts (r : ConflictReport) : bool := negb (bool_decide (Conflicts r = [])).

Definition cardImpactPaths (card : Card) : list string :=
  normalizeTouchedPaths (Card_TouchedPaths card ++ Card_ObservedPaths card).

Definition conflict_key (c : PathConflict) : string :=
  Conflict_Path c +:+ "|" +:+ Conflict_OtherCard c +:+ "|" +:+ Conflict_OtherPath c.

Definition dedupeConflicts (l : list PathConflict) : list PathConflict :=
  dedup_by conflict_key l.

(** The inner loops over the paths of the target and of one other card. *)
Definition card_conflicts (targetPaths : list string) (other : Card) : list PathConflict :=
  tp ← targetPaths;
  op ← cardImpactPaths other;
  if pathsOverlap tp op
  then [mkPathConflict tp op (Card_ID other) (Card_Title other)]
  else [].

Definition checkPathConflictsAgainst (target : Card) (active : list Card) : ConflictReport :=
  let targetPaths := cardImpactPaths target in
  if bool_decide (targetPaths = []) then mkConflictReport []
  else mkConflictReport (dedupeConflicts (
    other ← active;
    if bool_decide (Card_ID other = Card_ID target) then []
    else card_conflicts targetPaths other)).

(** * Lemmas *)

(** ** Normalised lists *)

Lemma normalize_list_NoDup f l : NoDup (normalize_list f l).
Proof. apply NoDup_dedup. Qed.

Lemma elem_of_normalize_list f l p :
  p ∈ normalize_list f l ↔ p ≠ "" ∧ ∃ q, q ∈ l ∧ p = f q.
Proof.
  unfold normalize_list. rewrite elem_of_dedup, list_elem_of_filter, list_elem_of_fmap.
  naive_solver.
Qed.

(** A list that is already normal is left as it is. *)
Lemma normalize_list_id f l :
  NoDup l → Forall (λ p, f p = p ∧ p ≠ "") l → normalize_list f l = l.
Proof.
  intros Hnd Hl. unfold normalize_list.
  assert (f <$> l = l) as ->.
  { clear Hnd. induction Hl as [|p l [Hp _] _ IH]; [done|]. rewrite fmap_cons. by f_equal. }
  rewrite filter_all.
  - by apply dedup_id.
  - eapply Forall_impl; [done|]. by intros p [].
Qed.

Lemma normalize_list_idemp f l :
  (∀ p, f (f p) = f p) → normalize_list f (normalize_list f l) = normalize_list f l.
Proof.
  intros Hf. apply normalize_list_id; [apply normalize_list_NoDup|].
  apply Forall_forall. intros p. rewrite elem_of_normalize_list.
  intros [Hp (q&_&->)]. by rewrite Hf.
Qed.

Lemma trimDedup_idemp l : trimDedup (trimDedup l) = trimDedup l.
Proof. apply normalize_list_idemp, TrimSpace_idemp. Qed.

(** ** Segments *)

Definition segments (p : string) : list string := Split p slash.

Lemma Join_cons_nonempty w ws sep : ws ≠ [] → Join (w :: ws) sep = w +:+ sep +:+ Join ws sep.
Proof. by destruct ws. Qed.

Lemma Join_app l k sep : l ≠ [] → k ≠ [] → Join (l ++ k) sep = Join l sep +:+ sep +:+ Join k sep.
Proof.
  intros Hl Hk. induction l as [|w l IH]; [done|]. destruct (decide (l = [])) as [->|Hne].
  - simpl. by destruct k.
  - rewrite <- app_comm_cons, !Join_cons_nonempty, IH, !app_assoc_s; try done.
    by destruct l.
Qed.

Lemma segments_inj p q : segments p = segments q → p = q.
Proof. unfold segments. intros H. by rewrite <- (Join_Split p slash), H, Join_Split. Qed.

Lemma isPathPrefix_app prefix full :
  isPathPrefix prefix full = true ↔
  full = prefix ∨ ∃ r, full = prefix +:+ String slash r.
Proof.
  unfold isPathPrefix. destruct (HasPrefix full prefix) eqn:Hp; simpl; split.
  - apply HasPrefix_iff in Hp as [r ->]. rewrite length_app_s.
    case_bool_decide as Hlen.
    + intros _. left. destruct r; [by rewrite app_nil_r_s|simpl in Hlen; lia].
    + rewrite bool_decide_eq_true. intros Hget. right.
      destruct r as [|a r]; [simpl in Hlen; lia|]. exists r.
      assert (String.get (String.length prefix) (prefix +:+ String a r) = Some a) as Ha.
      { clear. by induction prefix. }
      congruence.
  - intros [->|[r ->]]; [by rewrite bool_decide_true|].
    rewrite bool_decide_false by (rewrite length_app_s; simpl; lia).
    apply bool_decide_eq_true. clear. by induction prefix.
  - done.
  - rewrite <- not_true_iff_false, HasPrefix_iff in Hp. intros [->|[r ->]].
    + destruct Hp. exists "". by rewrite app_nil_r_s.
    + destruct Hp. by eexists.
Qed.

Lemma isPathPrefix_segments prefix full :
  isPathPrefix prefix full = true ↔ segments prefix `prefix_of` segments full.
Proof.
  rewrite isPathPrefix_app. split.
  - intros [->|[r ->]]; [done|]. unfold segments. rewrite Split_app. by eexists.
  - intros [k Hk]. destruct (decide (k = [])) as [->|Hne].
    + left. apply segments_inj. by rewrite Hk, app_nil_r.
    + right. exists (Join k "/"). unfold segments in Hk.
      rewrite <- (Join_Split full slash), Hk, Join_app, Join_Split; try done.
      apply Split_nonempty.
Qed.

(** ** Conflict reports *)

Lemma elem_of_card_conflicts tps other c :
  c ∈ card_conflicts tps other ↔
  Conflict_Path c ∈ tps ∧ Conflict_OtherPath c ∈ cardImpactPaths other ∧
  pathsOverlap (Conflict_Path c) (Conflict_OtherPath c) = true ∧
  Conflict_OtherCard c = Card_ID other ∧ Conflict_OtherTitle c = Card_Title other.
Proof.
  unfold card_conflicts. rewrite list_elem_of_bind. split.
  - intros (tp&Hc&Htp). apply list_elem_of_bind in Hc as (op&Hc&Hop).
    destruct (pathsOverlap tp op) eqn:?; [|by apply not_elem_of_nil in Hc].
    apply list_elem_of_singleton in Hc as ->. done.
  - destruct c as [tp op oc ot]; simpl. intros (Htp&Hop&Hov&->&->).
    exists tp. split; [|done]. apply list_elem_of_bind. exists op. rewrite Hov.
    split; [by apply list_elem_of_singleton|done].
Qed.

Lemma elem_of_conflicts_raw target active c :
  c ∈ (other ← active;
       if bool_decide (Card_ID other = Card_ID target) then []
       else card_conflicts (cardImpactPaths target) other) ↔
  ∃ other, other ∈ active ∧ Card_ID other ≠ Card_ID target ∧
    c ∈ card_conflicts (cardImpactPaths target) other.
Proof.
  rewrite list_elem_of_bind. split.
  - intros (o&Hc&Ho). case_bool_decide; [by apply not_elem_of_nil in Hc|eauto].
  - intros (o&Ho&Hne&Hc). exists o. by rewrite bool_decide_false.
Qed.

Lemma Conflicts_check target active :
  Conflicts (checkPathConflictsAgainst target active) =
  dedupeConflicts (other ← active;
    if bool_decide (Card_ID other = Card_ID target) then []
    else card_conflicts (cardImpactPaths target) other).
Proof.
  unfold checkPathConflictsAgainst. case_bool_decide as He; [|done]. rewrite He.
  induction active as [|o active IH]; [done|]. simpl in *. by case_bool_decide.
Qed.

(** Two cards collide when their impact surfaces have overlapping paths. *)
Definition cards_collide (target other : Card) : Prop :=
  ∃ tp op, tp ∈ cardImpactPaths target ∧ op ∈ cardImpactPaths other ∧ pathsOverlap tp op = true.

Lemma HasConflicts_iff target active :
  HasConflicts (checkPathConflictsAgainst target active) = true ↔
  ∃ other, other ∈ active ∧ Card_ID other ≠ Card_ID target ∧ cards_collide target other.
Proof.
  unfold HasConflicts. rewrite negb_true_iff, bool_decide_eq_false, Conflicts_check.
  set (raw := _ ≫= _). assert (dedupeConflicts raw ≠ [] ↔ ∃ c, c ∈ raw) as ->.
  { split.
    - destruct (dedupeConflicts raw) as [|c l] eqn:Hd; [done|]. intros _. exists c.
      apply (dedup_by_elem conflict_key). unfold dedupeConflicts in Hd. rewrite Hd. by left.
    - intros [c Hc] Hnil. apply (list_elem_of_fmap_2 conflict_key), dedup_by_key in Hc.
      unfold dedupeConflicts in Hnil. rewrite Hnil in Hc. by apply not_elem_of_nil in Hc. }
  subst raw. setoid_rewrite elem_of_conflicts_raw. setoid_rewrite elem_of_card_conflicts.
  split.
  - intros (c&o&?&?&Htp&Hop&?&_). exists o. split_and!; [done..|]. by eexists _, _.
  - intros (o&?&?&tp&op&?&?&?).
    by exists (mkPathConflict tp op (Card_ID o) (Card_Title o)), o.
Qed.

(** ** Properties *)

(** Two touched paths overlap exactly when both name something and, once
    trimmed of blanks and slashes, one is an ancestor of the other segment by
    segment: [internal/cron] overlaps [internal/cron/run.go] but never
    [internal/cronjob]. *)
Theorem pathsOverlap_iff a b :
  pathsOverlap a b = true ↔
  normalizePath a ≠ "" ∧ normalizePath b ≠ "" ∧
  (segments (normalizePath a) `prefix_of` segments (normalizePath b) ∨
   segments (normalizePath b) `prefix_of` segments (normalizePath a)).
Proof.
  unfold pathsOverlap. case_bool_decide as He; [split; [done|tauto]|].
  case_bool_decide as Heq.
  - rewrite Heq. split; [|done]. intros _. split_and!; [tauto..|by left].
  - simpl. rewrite orb_true_iff, !isPathPrefix_segments. tauto.
Qed.

(** A path of the target overlaps a path of another card of [active]. *)
Definition genuine_conflict (target : Card) (active : list Card) (c : PathConflict) : Prop :=
  ∃ other, other ∈ active ∧ Card_ID other ≠ Card_ID target ∧
    Conflict_Path c ∈ cardImpactPaths target ∧ Conflict_OtherPath c ∈ cardImpactPaths other ∧
    pathsOverlap (Conflict_Path c) (Conflict_OtherPath c) = true ∧
    Conflict_OtherCard c = Card_ID other ∧ Conflict_OtherTitle c = Card_Title other.

(** A conflict report is sound, complete and free of repetitions: it lists
    only overlaps of a path of the card with a path of a different card of
    the given set, and every such overlap up to its key, each key once. *)
Theorem conflict_report_exact target active :
  let reported := Conflicts (checkPathConflictsAgainst target active) in
  Forall (genuine_conflict target active) reported ∧
  (∀ c, genuine_conflict target active c → conflict_key c ∈ conflict_key <$> reported) ∧
  NoDup (conflict_key <$> reported).
Proof.
  assert (∀ c, genuine_conflict target active c ↔ c ∈ (other ← active;
    if bool_decide (Card_ID other = Card_ID target) then []
    else card_conflicts (cardImpactPaths target) other)) as Hg.
  { intros c. rewrite elem_of_conflicts_raw. by setoid_rewrite elem_of_card_conflicts. }
  cbn zeta. rewrite Conflicts_check. unfold dedupeConflicts. split_and!.
  - apply Forall_forall. intros c Hc%dedup_by_elem. by apply Hg.
  - intros c Hc%Hg. by apply dedup_by_key, list_elem_of_fmap_2.
  - apply dedup_by_NoDup.
Qed.

(** ** Working directories *)

(** The working directories of a project are normalised: no blank entry
    and no repetition is kept, an absolute entry is in canonical form (a
    slash-separated list of proper names, with no empty, [.] or [..] element,
    which cleaning again leaves alone), and a relative one neither starts nor
    ends with a slash. *)
Theorem normalizeWorkDirs_canonical dirs :
  NoDup (normalizeWorkDirs dirs) ∧
  Forall (λ d, d ≠ "" ∧
    (IsAbs d = true ∧ Clean d = d ∧ (∃ l, d = rooted l ∧ Forall clean_part l)
     ∨ ∀ d', d ≠ "/" +:+ d' ∧ d ≠ d' +:+ "/"))
    (normalizeWorkDirs dirs).
Proof.
  split; [apply normalize_list_NoDup|]. apply Forall_forall. intros d Hd.
  apply elem_of_normalize_list in Hd as (Hne&q&_&Hq). split; [done|].
  unfold normalizeWorkDir in Hq. case_bool_decide; [done|].
  destruct (IsAbs (TrimSpace q)) eqn:Habs.
  - left. destruct (Clean_parts (TrimSpace q) Habs) as (l&Hl&Hp). rewrite Hq, Hl.
    split_and!; [apply IsAbs_rooted|by apply Clean_rooted|by exists l].
  - right. intros d'. rewrite Hq. split; [apply Trim_lead|apply Trim_trail].
Qed.
