(* ===== verification/TaskLedger.v ===== *)
(** * Task board: the ledger ([internal/plugins/taskboard/ledger.go])

    [Ledger] is the receiver of every method.  A [*Card] of the code points
    into the slice [l.data.Cards]; here it is the index of that slot, so a
    closure passed to [mutateCard] writes the slot, and what it wrote stays
    written when it returns an error.  Each method runs under the mutex and
    is one atomic step; the readings of [l.now()]/[time.Now()] are the
    successive values of [clock], and the result of the n-th save is given by
    [save_error] ([None]: the write and the rename succeeded). *)
From S2P Require Import Prelude GoStrings TaskTypes TaskConflicts.
From Stdlib Require Import ZArith Lia.

(** ** Errors: the sentinels of the package, with what [fmt.Errorf] adds, and
    one constructor per anonymous error. *)
Inductive error : Type :=
| ErrCardNotFound
| ErrProjectNotFound
| ErrVersionConflict (id : string) (have want : Z)
| ErrDoneIsHumanOnly
| ErrCardHeld (id holder : string)
| ErrRunningExecution
| ErrProjectHasCards
| ErrBuiltInProject
| ErrInvalidTransition (from to : string)
| ErrPathConflict (report : ConflictReport)
| ErrCreateCardConflict (requestID : string)
| ErrLostCard (requestID cardID : string) (cause : error)
| ErrProjectRequired
| ErrProjectExists (name : string)
| ErrWorkDirRequired
| ErrTitleRequired
| ErrChecklistOpen (done total : nat)
| ErrCommentRequired
| ErrChecklistCap
| ErrItemRequired
| ErrIndexRange (index : Z) (items : nat)
| ErrJobSessionRequired
| ErrInvalidStatus (status : string)
| ErrExecutionNotFound (executionID cardID : string)
| ErrSave (cause : string)
| ErrOpen (cause : string).

(** [errors.Is(err, ErrVersionConflict)] *)
Definition is_version_conflict (e : error) : bool :=
  match e with ErrVersionConflict _ _ _ => true | _ => false end.

(** ** State *)

Record createRequestRecord : Type := mkCreateRequest {
  Req_ExternalRequestID : string;
  Req_CreatedBy : string;
  Req_CardID : string;
  Req_PayloadHash : string;
  Req_CreatedAt : time;
}.

Record ledgerData : Type := mkLedgerData {
  Projects : list Project;
  Cards : list Card;
  CreateRequests : list createRequestRecord;
}.

(** [tick] and [saves] count the clock readings and the saves so far; [disk]
    is the document at [path], [None] when there is no such file. *)
Record Ledger : Type := mkLedger {
  data : ledgerData;
  idSeq : Z;
  tick : nat;
  saves : nat;
  disk : option ledgerData;
}.

Abbreviation LM := (M Ledger error).

Definition with_data (f : ledgerData → ledgerData) (l : Ledger) : Ledger :=
  mkLedger (f (data l)) (idSeq l) (tick l) (saves l) (disk l).
Definition with_projects (f : list Project → list Project) : Ledger → Ledger :=
  with_data (λ d, mkLedgerData (f (Projects d)) (Cards d) (CreateRequests d)).
Definition with_cards (f : list Card → list Card) : Ledger → Ledger :=
  with_data (λ d, mkLedgerData (Projects d) (f (Cards d)) (CreateRequests d)).
Definition with_requests (f : list createRequestRecord → list createRequestRecord) :
    Ledger → Ledger :=
  with_data (λ d, mkLedgerData (Projects d) (Cards d) (f (CreateRequests d))).

(** [allowedTransitions] *)
Definition allowedTransitions (status : string) : list string :=
  if bool_decide (status = StatusBacklog) then [StatusTodo]
  else if bool_decide (status = StatusTodo) then [StatusInProgress]
  else if bool_decide (status = StatusInProgress) then [StatusInReview]
  else if bool_decide (status = StatusInReview) then [StatusTodo]
  else [].

Definition humanActor : string := "human".

Definition normalizeUrgency (u : string) : string :=
  let u := TrimSpace u in
  if bool_decide (u = UrgencyUrgent ∨ u = UrgencyLow) then u else UrgencyNormal.

Definition urgencyRank (u : string) : Z :=
  if bool_decide (u = UrgencyUrgent) then 0
  else if bool_decide (u = UrgencyLow) then 2 else 1.

Record CardFilter : Type := mkCardFilter {
  Filter_ProjectID : string;
  Filter_Status : string;
  Filter_Urgency : string;
  Filter_IncludeDeleted : bool;
}.

Record CreateCardInput : Type := mkCreateCardInput {
  In_ProjectID : string;
  In_Title : string;
  In_Description : string;
  In_Prompt : string;
  In_Urgency : string;
  In_TemplateID : string;
  In_Checklist : list string;
  In_CreatedBy : string;
  In_StartStatus : string;
  In_TouchedPaths : list string;
  In_WorkDir : string;
  In_Research : option Research;
  In_ExternalRequestID : string;
}.

Record createCardFingerprint : Type := mkFingerprint {
  Fp_ProjectID : string;
  Fp_Title : string;
  Fp_Description : string;
  Fp_Prompt : string;
  Fp_Urgency : string;
  Fp_TemplateID : string;
  Fp_WorkDir : string;
  Fp_StartStatus : string;
  Fp_Checklist : list string;
  Fp_TouchedPaths : list string;
  Fp_Research : option Research;
}.

(** A [*T] field of the input is [None] when the pointer is nil. *)
Record UpdateCardInput : Type := mkUpdateCardInput {
  Up_Title : option string;
  Up_Description : option string;
  Up_Prompt : option string;
  Up_Urgency : option string;
  Up_Blocked : option bool;
  Up_TemplateID : option string;
  Up_TouchedPaths : option (list string);
  Up_WorkDir : option string;
  Up_Checklist : option (list string);
  Up_Research : option Research;
}.

Definition normalizeChecklistTexts (texts : list string) : list string :=
  filter (λ t, t ≠ "") (TrimSpace <$> texts).

(** [replaceChecklistText] *)
Definition replaceChecklistText (old : list ChecklistItem) (texts : list string) :
    list ChecklistItem :=
  (λ text,
    match find_first (λ o, bool_decide (Item_Text o = text)) old with
    | Some o => mkChecklistItem text (Item_Done o) (Item_Evidence o)
    | None => mkChecklistItem text false ""
    end) <$> filter (λ t, t ≠ "") (TrimSpace <$> texts).

(** [applyObservation]: only the non-blank fields of the snapshot are written. *)
Definition applyObservation (obs : ExecutionObservation) (ex : Execution) : Execution :=
  let put (v : string) (set : string → Execution → Execution) (x : Execution) :=
    if bool_decide (TrimSpace v = "") then x else set (TrimSpace v) x in
  put (Obs_LastTool obs) set_ExLastTool
    (put (Obs_LastError obs) set_ExLastError
      (put (Obs_ErrorType obs) set_ExErrorType
        (put (Obs_Stage obs) set_ExStage ex))).

(** [closeRunningExecutions], with the reading [now] of the clock. *)
Definition close_execution (status summary : string) (now : time) (x : Execution) : Execution :=
  if is_running x
  then set_ExEndedAt now (set_ExSummary (TrimSpace summary) (set_ExStatus status x))
  else x.

Definition closeRunningExecutions (status summary : string) (now : time) (card : Card) : Card :=
  let holder := fold_left (λ h x,
    if is_running x && bool_decide (h = Ex_SessionID x) then "" else h)
    (Card_Executions card) (Card_Holder card) in
  set_Holder holder
    (set_Executions (close_execution status summary now <$> Card_Executions card) card).

(** The order of [ListCards]: by urgency, then newest created first. *)
Definition card_before (a b : Card) : bool :=
  let ra := urgencyRank (Card_Urgency a) in
  let rb := urgencyRank (Card_Urgency b) in
  if bool_decide (ra = rb) then bool_decide (Card_CreatedAt b < Card_CreatedAt a)%Z
  else bool_decide (ra < rb)%Z.

Definition filter_keeps (f : CardFilter) (c : Card) : bool :=
  let wants (want have : string) := bool_decide (want = "") || bool_decide (have = want) in
  (negb (Card_Deleted c) || Filter_IncludeDeleted f)
  && wants (Filter_ProjectID f) (Card_ProjectID c)
  && wants (Filter_Status f) (Card_Status c)
  && wants (Filter_Urgency f) (Card_Urgency c).

Definition is_active (c : Card) : bool :=
  negb (Card_Deleted c)
  && (bool_decide (Card_Status c = StatusInProgress) || bool_decide (Card_Status c = StatusInReview)).

Definition blocks_dispatch (c : Card) : bool :=
  negb (Card_Deleted c)
  && (bool_decide (Card_Status c = StatusInProgress) || HasRunningExecution c).

(** [UnixMilli]: milliseconds since 1970, of nanoseconds since the zero time. *)
Definition UnixMilli (t : time) : Z := (t / 1000000 - 62135596800000)%Z.

Section Operations.
Context (clock : nat → time) (save_error : nat → option string)
  (payload_hash : createCardFingerprint → string).

(** ** Reading and writing the receiver *)

Definition now : LM time := λ l,
  (mkLedger (data l) (idSeq l) (S (tick l)) (saves l) (disk l), Ok (clock (tick l))).

Definition saveLocked : LM unit := λ l,
  match save_error (saves l) with
  | Some e => (mkLedger (data l) (idSeq l) (tick l) (S (saves l)) (disk l), Err (ErrSave e))
  | None => (mkLedger (data l) (idSeq l) (tick l) (S (saves l)) (Some (data l)), Ok tt)
  end.

Definition or_throw {A} (e : error) (o : option A) : LM A :=
  match o with Some a => mret a | None => throw e end.

Definition load (p : nat) : LM Card :=
  cs ← gets (Cards ∘ data); or_throw ErrCardNotFound (cs !! p).
Definition modify_card (p : nat) (f : Card → Card) : LM unit := update (with_cards (alter f p)).

Definition nextID (prefix : string) : LM string :=
  update (λ l, mkLedger (data l) (wrap64 (idSeq l + 1)) (tick l) (saves l) (disk l)) ;;
  t ← now;
  seq ← gets idSeq;
  mret (prefix +:+ "-" +:+ itoa (UnixMilli t) +:+ "-" +:+ itoa seq).

(** ** Opening *)

Definition ensureDefaultProjectLocked (workspaceDir : string) : LM unit :=
  ps ← gets (Projects ∘ data);
  if existsb Project_BuiltIn ps then mret tt
  else
    let workspaceDir := if bool_decide (workspaceDir = "") then "." else workspaceDir in
    update (with_projects (λ ps, ps ++ [mkProject "p-default" "Default" [workspaceDir] true])).

(** [OpenLedger] on the document [disk l]; [read_error] is the failure of the
    read or of the parse, if any. *)
Definition OpenLedger (workspaceDir : string) (read_error : option string) : LM unit :=
  match read_error with
  | Some e => throw (ErrOpen e)
  | None =>
      update (λ l, mkLedger (default (mkLedgerData [] [] []) (disk l)) 0
        (tick l) (saves l) (disk l)) ;;
      ensureDefaultProjectLocked workspaceDir ;;
      saveLocked
  end.

(** ** Projects *)

Definition ListProjects : LM (list Project) :=
  gets (stable_sort (λ p q, str_lt (Project_ID p) (Project_ID q)) ∘ Projects ∘ data).

Definition CreateProject (name rootDir : string) (extraWorkDirs : list string) : LM Project :=
  let name := TrimSpace name in
  let rootDir := TrimSpace rootDir in
  if bool_decide (name = "" ∨ rootDir = "") then throw ErrProjectRequired else
  ps ← gets (Projects ∘ data);
  if existsb (λ p, bool_decide (Project_Name p = name)) ps then throw (ErrProjectExists name) else
  let workDirs := normalizeWorkDirs (rootDir :: extraWorkDirs) in
  if bool_decide (workDirs = []) then throw ErrWorkDirRequired else
  id ← nextID "p";
  let project := mkProject id name workDirs false in
  update (with_projects (λ ps, ps ++ [project])) ;;
  saveLocked ;;
  mret project.

Definition project_index (id : string) (ps : list Project) : option nat :=
  find_index (λ p, bool_decide (Project_ID p = id)) ps.

(** [workDirs] is [None] for a nil slice. *)
Definition UpdateProject (id name : string) (workDirs : option (list string)) : LM Project :=
  ps ← gets (Projects ∘ data);
  idx ← or_throw ErrProjectNotFound (project_index id ps);
  p ← or_throw ErrProjectNotFound (ps !! idx);
  let name := if bool_decide (TrimSpace name = "") then Project_Name p else TrimSpace name in
  if existsb (λ q, bool_decide (Project_Name q = name)) (take idx ps ++ drop (S idx) ps)
  then throw (ErrProjectExists name) else
  update (with_projects (alter (λ p,
    mkProject (Project_ID p) name (Project_WorkDirs p) (Project_BuiltIn p)) idx)) ;;
  match workDirs with
  | None => mret tt
  | Some dirs =>
      let normalized := normalizeWorkDirs dirs in
      if bool_decide (normalized = []) then throw ErrWorkDirRequired
      else update (with_projects (alter (λ p,
        mkProject (Project_ID p) (Project_Name p) normalized (Project_BuiltIn p)) idx))
  end ;;
  saveLocked ;;
  ps ← gets (Projects ∘ data);
  or_throw ErrProjectNotFound (ps !! idx).

Definition DeleteProject (id : string) : LM unit :=
  ps ← gets (Projects ∘ data);
  idx ← or_throw ErrProjectNotFound (project_index id ps);
  p ← or_throw ErrProjectNotFound (ps !! idx);
  if Project_BuiltIn p then throw ErrBuiltInProject else
  cs ← gets (Cards ∘ data);
  if existsb (λ c, bool_decide (Card_ProjectID c = id)) cs then throw ErrProjectHasCards else
  update (with_projects (λ ps, take idx ps ++ drop (S idx) ps)) ;;
  saveLocked.

(** ** Cards: queries *)

Definition activeCardsLocked : LM (list Card) :=
  gets (λ l, filter (λ c, is_active c = true) (Cards (data l))).
Definition ActiveCards : LM (list Card) := activeCardsLocked.

Definition CheckCardPathConflicts (card : Card) : LM ConflictReport :=
  active ← activeCardsLocked; mret (checkPathConflictsAgainst card active).

Definition dispatchBlockingCardsLocked : LM (list Card) :=
  gets (λ l, filter (λ c, blocks_dispatch c = true) (Cards (data l))).

Definition PrecheckDispatchConflicts (card : Card) : LM unit :=
  blocking ← dispatchBlockingCardsLocked;
  let report := checkPathConflictsAgainst card blocking in
  if HasConflicts report then throw (ErrPathConflict report) else mret tt.

Definition ListCards (f : CardFilter) : LM (list Card) :=
  gets (λ l, stable_sort card_before (filter (λ c, filter_keeps f c = true) (Cards (data l)))).

Definition GetCard (id : string) : LM Card :=
  cs ← gets (Cards ∘ data);
  or_throw ErrCardNotFound (find_first (λ c, bool_decide (Card_ID c = id)) cs).

(** A [*Card]: the index of the first slot with this id. *)
Definition findCardLocked (id : string) : LM nat :=
  cs ← gets (Cards ∘ data);
  or_throw ErrCardNotFound (find_index (λ c, bool_decide (Card_ID c = id)) cs).

Definition findCreateRequestLocked (requestID createdBy : string) :
    LM (option createRequestRecord) :=
  gets (find_first (λ r, bool_decide (Req_ExternalRequestID r = requestID)
    && bool_decide (Req_CreatedBy r = createdBy)) ∘ CreateRequests ∘ data).

(** ** Cards: creation *)

(** The project a create request falls back to: the built-in one, or the first. *)
Definition default_project (ps : list Project) : string :=
  match find_first Project_BuiltIn ps with
  | Some p => Project_ID p
  | None => match ps with [] => "" | p :: _ => Project_ID p end
  end.

Definition start_status (s : string) : string :=
  if bool_decide (s = StatusTodo) then StatusTodo else StatusBacklog.

(** The project of a new card: the one named, or the default one. *)
Definition target_project (input : CreateCardInput) (ps : list Project) : string :=
  let projectID := TrimSpace (In_ProjectID input) in
  if bool_decide (projectID = "") then default_project ps else projectID.

Definition createCardPayloadHash (input : CreateCardInput) (title : string)
    (ps : list Project) : string :=
  payload_hash (mkFingerprint (target_project input ps) title (TrimSpace (In_Description input))
    (TrimSpace (In_Prompt input)) (normalizeUrgency (In_Urgency input))
    (TrimSpace (In_TemplateID input)) (TrimSpace (In_WorkDir input))
    (start_status (In_StartStatus input)) (normalizeChecklistTexts (In_Checklist input))
    (normalizeTouchedPaths (In_TouchedPaths input)) (normalizeResearch (In_Research input))).

(** The [Card] literal of [CreateCard]. *)
Definition new_card (input : CreateCardInput) (title requestID projectID id : string) (t : time) :
    Card := {|
  Card_ID := id;
  Card_ProjectID := projectID;
  Card_Title := title;
  Card_Description := TrimSpace (In_Description input);
  Card_Prompt := TrimSpace (In_Prompt input);
  Card_Urgency := normalizeUrgency (In_Urgency input);
  Card_Status := start_status (In_StartStatus input);
  Card_TemplateID := TrimSpace (In_TemplateID input);
  Card_WorkDir := TrimSpace (In_WorkDir input);
  Card_TouchedPaths := normalizeTouchedPaths (In_TouchedPaths input);
  Card_ExternalRequestID := requestID;
  Card_Research := normalizeResearch (In_Research input);
  Card_ObservedPaths := [];
  Card_MergeReport := None;
  Card_Holder := "";
  Card_Blocked := false;
  Card_Checklist := (λ text, mkChecklistItem text false "") <$>
    normalizeChecklistTexts (In_Checklist input);
  Card_Comments := [];
  Card_Executions := [];
  Card_Version := 1;
  Card_CreatedBy := In_CreatedBy input;
  Card_UpdatedBy := In_CreatedBy input;
  Card_CreatedAt := t;
  Card_UpdatedAt := t;
  Card_Deleted := false |}.

(** What [CreateCard] does once no earlier request matched. *)
Definition createNewCard (input : CreateCardInput) (title requestID createdBy payloadHash : string) :
    LM Card :=
  ps ← gets (Projects ∘ data);
  if bool_decide (TrimSpace (In_ProjectID input) = "") && bool_decide (ps = [])
  then throw ErrProjectNotFound else
  let projectID := target_project input ps in
  if negb (existsb (λ p, bool_decide (Project_ID p = projectID)) ps)
  then throw ErrProjectNotFound else
  t ← now;
  id ← nextID "t";
  let card := new_card input title requestID projectID id t in
  update (with_cards (λ cs, cs ++ [card])) ;;
  when (negb (bool_decide (requestID = "")))
    (update (with_requests (λ rs,
      rs ++ [mkCreateRequest requestID createdBy id payloadHash t]))) ;;
  saveLocked ;;
  mret card.

Definition CreateCard (input : CreateCardInput) : LM Card :=
  let title := TrimSpace (In_Title input) in
  if bool_decide (title = "") then throw ErrTitleRequired else
  let requestID := TrimSpace (In_ExternalRequestID input) in
  let createdBy := TrimSpace (In_CreatedBy input) in
  if bool_decide (requestID = "") then createNewCard input title requestID createdBy "" else
  ps ← gets (Projects ∘ data);
  let payloadHash := createCardPayloadHash input title ps in
  prior ← findCreateRequestLocked requestID createdBy;
  match prior with
  | None => createNewCard input title requestID createdBy payloadHash
  | Some rec =>
      cs ← gets (Cards ∘ data);
      match find_index (λ c, bool_decide (Card_ID c = Req_CardID rec)) cs with
      | None => throw (ErrLostCard requestID (Req_CardID rec) ErrCardNotFound)
      | Some p =>
          if bool_decide (Req_PayloadHash rec = payloadHash) then load p
          else throw (ErrCreateCardConflict requestID)
      end
  end.

(** ** Cards: the optimistic-concurrency wrapper *)

Definition mutateCard (id : string) (ifVersion : Z) (actor : string) (mutate : nat → LM unit) :
    LM Card :=
  p ← findCardLocked id;
  card ← load p;
  if negb (bool_decide (Card_Version card = ifVersion))
  then throw (ErrVersionConflict id (Card_Version card) ifVersion) else
  mutate p ;;
  modify_card p (λ c, set_Version (wrap64 (Card_Version c + 1)) c) ;;
  modify_card p (set_UpdatedBy actor) ;;
  t ← now;
  modify_card p (set_UpdatedAt t) ;;
  saveLocked ;;
  load p.

Definition ReportObservedPaths (cardID : string) (ifVersion : Z) (actor : string)
    (paths : list string) : LM Card :=
  mutateCard cardID ifVersion actor (λ p,
    let newPaths := normalizeTouchedPaths paths in
    if bool_decide (newPaths = []) then mret tt
    else modify_card p (λ c,
      set_ObservedPaths (normalizeTouchedPaths (Card_ObservedPaths c ++ newPaths)) c)).

(** The merge precheck of gate 4: attach the report, or clear a stale one. *)
Definition attach_merge_report (p : nat) : LM ConflictReport :=
  card ← load p;
  active ← activeCardsLocked;
  let report := checkPathConflictsAgainst card active in
  modify_card p (set_MergeReport (if HasConflicts report then Some report else None)) ;;
  mret report.

(** The report the closure assigns is the one it attached: none when empty. *)
Definition MergePrecheck (cardID : string) (ifVersion : Z) (actor : string) :
    LM (Card * ConflictReport) :=
  card ← mutateCard cardID ifVersion actor (λ p, _ ← attach_merge_report p; mret tt);
  mret (card, match Card_MergeReport card with Some r => r | None => mkConflictReport [] end).

Definition opt_set {A} (f : A → Card → Card) (o : option A) (c : Card) : Card :=
  match o with Some v => f v c | None => c end.

(** The assignments of the closure of [UpdateCard], in order. *)
Definition apply_update (input : UpdateCardInput) (c : Card) : Card :=
  let c := opt_set (λ t, if bool_decide (TrimSpace t = "") then id else set_Title (TrimSpace t))
    (Up_Title input) c in
  let c := opt_set (λ v, set_Description (TrimSpace v)) (Up_Description input) c in
  let c := opt_set (λ v, set_Prompt (TrimSpace v)) (Up_Prompt input) c in
  let c := opt_set (λ v, set_Urgency (normalizeUrgency v)) (Up_Urgency input) c in
  let c := opt_set set_Blocked (Up_Blocked input) c in
  let c := opt_set (λ v, set_TemplateID (TrimSpace v)) (Up_TemplateID input) c in
  let c := opt_set (λ v, set_TouchedPaths (normalizeTouchedPaths v)) (Up_TouchedPaths input) c in
  let c := opt_set (λ v, set_WorkDir (TrimSpace v)) (Up_WorkDir input) c in
  let c := opt_set (λ v c, set_Checklist (replaceChecklistText (Card_Checklist c) v) c)
    (Up_Checklist input) c in
  opt_set (λ v, set_Research (normalizeResearch (Some v))) (Up_Research input) c.

Definition UpdateCard (id : string) (ifVersion : Z) (actor : string) (input : UpdateCardInput) :
    LM Card :=
  mutateCard id ifVersion actor (λ p, modify_card p (apply_update input)).

(** ** Cards: the kanban transitions *)

Definition MoveCard (id : string) (ifVersion : Z) (to actor : string) : LM Card :=
  mutateCard id ifVersion actor (λ p,
    card ← load p;
    let to := TrimSpace to in
    if bool_decide (to = StatusDone) then throw ErrDoneIsHumanOnly else
    if negb (bool_decide (to ∈ allowedTransitions (Card_Status card)))
    then throw (ErrInvalidTransition (Card_Status card) to) else
    if bool_decide (Card_Status card = StatusInProgress) && negb (bool_decide (Card_Holder card = ""))
       && negb (bool_decide (Card_Holder card = actor)) && negb (bool_decide (actor = humanActor))
    then throw (ErrCardHeld id (Card_Holder card)) else
    modify_card p (set_Status to) ;;
    (if bool_decide (to = StatusInProgress) then modify_card p (set_Holder actor)
     else
       modify_card p (set_Holder "") ;;
       t ← now;
       modify_card p (closeRunningExecutions ExecutionCompleted ("moved to " +:+ to) t)) ;;
    if bool_decide (to = StatusInReview)
    then _ ← attach_merge_report p; mret tt
    else mret tt).

Definition CompleteCard (id : string) (ifVersion : Z) (actor : string) (force : bool) : LM Card :=
  mutateCard id ifVersion actor (λ p,
    card ← load p;
    if negb (bool_decide (Card_Status card = StatusInReview))
    then throw (ErrInvalidTransition (Card_Status card) StatusDone) else
    let '(done, total) := ChecklistProgress card in
    if bool_decide (done < total) && negb force then throw (ErrChecklistOpen done total) else
    modify_card p (set_Status StatusDone) ;;
    modify_card p (set_Holder "") ;;
    t ← now;
    modify_card p (closeRunningExecutions ExecutionCompleted "accepted" t)).

Definition AddComment (id : string) (ifVersion : Z) (author text : string) : LM Card :=
  let text := TrimSpace text in
  if bool_decide (text = "") then throw ErrCommentRequired else
  mutateCard id ifVersion author (λ p,
    t ← now;
    modify_card p (λ c, set_Comments (Card_Comments c ++ [mkComment author text t]) c)).

(** Two critical sections: [between] is what other callers do after the move
    released the mutex and before the comment takes it. *)
Definition RejectCard (between : LM unit) (id : string) (ifVersion : Z) (actor reason : string) :
    LM Card :=
  card ← MoveCard id ifVersion StatusTodo actor;
  if bool_decide (TrimSpace reason = "") then mret card
  else
    between ;;
    AddComment id (Card_Version card) actor reason.

(** ** Checklist *)

(** The loop of [ChecklistAdd]; the result is [added]. *)
Fixpoint checklist_add_loop (p : nat) (texts : list string) (added : nat) : LM nat :=
  match texts with
  | [] => mret added
  | text :: rest =>
      let text := TrimSpace text in
      if bool_decide (text = "") then checklist_add_loop p rest added
      else
        card ← load p;
        if bool_decide (30 ≤ length (Card_Checklist card)) then throw ErrChecklistCap
        else
          modify_card p (λ c,
            set_Checklist (Card_Checklist c ++ [mkChecklistItem text false ""]) c) ;;
          checklist_add_loop p rest (S added)
  end.

Definition ChecklistAdd (id : string) (ifVersion : Z) (actor : string) (texts : list string) :
    LM Card :=
  mutateCard id ifVersion actor (λ p,
    added ← checklist_add_loop p texts 0;
    if bool_decide (added = 0) then throw ErrItemRequired else mret tt).

(** The guard [index < 0 || index >= len(card.Checklist)] and the assignment. *)
Definition checklist_set (p : nat) (index : Z) (f : ChecklistItem → ChecklistItem) : LM unit :=
  card ← load p;
  let n := length (Card_Checklist card) in
  if bool_decide (index < 0 ∨ Z.of_nat n ≤ index)%Z then throw (ErrIndexRange index n)
  else modify_card p (λ c, set_Checklist (alter f (Z.to_nat index) (Card_Checklist c)) c).

Definition ChecklistCheck (id : string) (ifVersion : Z) (actor : string) (index : Z)
    (evidence : string) : LM Card :=
  mutateCard id ifVersion actor (λ p,
    checklist_set p index (λ i, mkChecklistItem (Item_Text i) true (TrimSpace evidence))).

Definition ChecklistUncheck (id : string) (ifVersion : Z) (actor : string) (index : Z) : LM Card :=
  mutateCard id ifVersion actor (λ p,
    checklist_set p index (λ i, mkChecklistItem (Item_Text i) false "")).

Definition SoftDeleteCard (id : string) (ifVersion : Z) (actor : string) : LM Card :=
  mutateCard id ifVersion actor (λ p,
    card ← load p;
    if HasRunningExecution card then throw ErrRunningExecution else
    modify_card p (set_Deleted true) ;;
    modify_card p (set_Holder "")).

(** ** Executions *)

Definition versionForExecution (cardID : string) : LM Z :=
  gets (λ l, match find_first (λ c, bool_decide (Card_ID c = cardID)) (Cards (data l)) with
             | Some c => Card_Version c
             | None => (-1)%Z
             end).

Definition StartExecution (cardID executionID sessionID actor : string) (host : option HostRef) :
    LM Card :=
  version ← versionForExecution cardID;
  mutateCard cardID version actor (λ p,
    card ← load p;
    if HasRunningExecution card then throw ErrRunningExecution else
    started ← now;
    updated ← now;
    modify_card p (λ c, set_Executions (Card_Executions c ++
      [mkExecution executionID sessionID ExecutionRunning started 0%Z "" host "" "" "" "" ""
        updated]) c) ;;
    modify_card p (set_Holder sessionID) ;;
    modify_card p (set_Status StatusInProgress)).

Definition SetExecutionJobSession (cardID executionID jobSessionID : string) : LM Card :=
  let jobSessionID := TrimSpace jobSessionID in
  if bool_decide (jobSessionID = "") then throw ErrJobSessionRequired else
  p ← findCardLocked cardID;
  card ← load p;
  let same (x : Execution) := bool_decide (Ex_ID x = executionID) in
  match find_first same (Card_Executions card) with
  | None => throw ErrCardNotFound
  | Some x =>
      if bool_decide (Ex_JobSessionID x = jobSessionID) then mret card
      else
        modify_card p (λ c, set_Executions
          (update_first same (set_ExJobSessionID jobSessionID) (Card_Executions c)) c) ;;
        modify_card p (λ c, set_Version (wrap64 (Card_Version c + 1)) c) ;;
        modify_card p (set_UpdatedBy "taskboard") ;;
        t ← now;
        modify_card p (set_UpdatedAt t) ;;
        saveLocked ;;
        load p
  end.

(** The running execution with this id, the target of the two loops below. *)
Definition runs (executionID : string) (x : Execution) : bool :=
  bool_decide (Ex_ID x = executionID) && is_running x.

Definition FinishExecutionWithObs (cardID executionID status summary : string)
    (obs : ExecutionObservation) : LM Card :=
  p ← findCardLocked cardID;
  card ← load p;
  if negb (bool_decide (status ∈ [ExecutionCompleted; ExecutionFailed; ExecutionCancelled]))
  then throw (ErrInvalidStatus status) else
  mutateCard cardID (Card_Version card) "taskboard" (λ p,
    card ← load p;
    match find_first (runs executionID) (Card_Executions card) with
    | None => throw (ErrExecutionNotFound executionID cardID)
    | Some x =>
        ended ← now;
        updated ← now;
        modify_card p (λ c, set_Executions (update_first (runs executionID)
          (λ x, applyObservation obs (set_ExUpdatedAt updated (set_ExEndedAt ended
            (set_ExSummary (TrimSpace summary) (set_ExStatus status x)))))
          (Card_Executions c)) c) ;;
        modify_card p (λ c,
          if bool_decide (Card_Holder c = Ex_SessionID x) then set_Holder "" c else c)
    end).

Definition FinishExecution (cardID executionID status summary : string) : LM Card :=
  FinishExecutionWithObs cardID executionID status summary (mkObservation "" "" "" "").

Definition UpdateExecutionObservation (cardID executionID : string) (obs : ExecutionObservation) :
    LM Card :=
  p ← findCardLocked cardID;
  card ← load p;
  mutateCard cardID (Card_Version card) "taskboard" (λ p,
    card ← load p;
    match find_first (runs executionID) (Card_Executions card) with
    | None => throw (ErrExecutionNotFound executionID cardID)
    | Some _ =>
        t ← now;
        modify_card p (λ c, set_Executions (update_first (runs executionID)
          (λ x, set_ExUpdatedAt t (applyObservation obs x)) (Card_Executions c)) c)
    end).

End Operations.
