(* ===== verification/TaskLedgerSpec.v ===== *)
(** * Task board: specifications of the ledger operations

    The closures passed to [mutateCard] write one slot of the card slice and
    read the clock.  [slot_wp] is the predicate transformer for such
    programs; with it each operation is shown to have one of the five
    outcomes of [mutate_outcome], for a relation on the card alone that says
    what its closure refuses and what it writes. *)
From S2P Require Import Prelude GoStrings TaskTypes TaskConflicts TaskLedger.
From Stdlib Require Import ZArith Lia.

(** ** Abstract card transitions *)

(** What a closure makes of a card: the relation between the card before,
    the result, and the card after. *)
Definition card_rel : Type := Card → result error unit → Card → Prop.

Definition edits (f : Card → Card) : card_rel := λ c r c', r = Ok tt ∧ c' = f c.

(** Refused with [e], the card being left as it is, or accepted. *)
Definition guarded (guard : Card → option error) (post : Card → Card → Prop) : card_rel :=
  λ c r c', match guard c with
            | Some e => r = Err e ∧ c' = c
            | None => r = Ok tt ∧ post c c'
            end.

Definition held_by_other (c : Card) (actor : string) : Prop :=
  Card_Status c = StatusInProgress ∧ Card_Holder c ≠ "" ∧ Card_Holder c ≠ actor
  ∧ actor ≠ humanActor.
#[export] Instance held_by_other_dec c actor : Decision (held_by_other c actor).
Proof. unfold held_by_other. apply _. Defined.

Definition move_guard (id to actor : string) (c : Card) : option error :=
  if decide (to = StatusDone) then Some ErrDoneIsHumanOnly
  else if decide (to ∉ allowedTransitions (Card_Status c))
  then Some (ErrInvalidTransition (Card_Status c) to)
  else if decide (held_by_other c actor) then Some (ErrCardHeld id (Card_Holder c))
  else None.

Definition moved (to actor : string) (t : time) (c : Card) : Card :=
  if decide (to = StatusInProgress) then set_Holder actor (set_Status to c)
  else closeRunningExecutions ExecutionCompleted ("moved to " +:+ to) t
         (set_Holder "" (set_Status to c)).

Definition move_rel (id to actor : string) : card_rel :=
  guarded (move_guard id to actor) (λ c c', ∃ t mr,
    c' = if decide (to = StatusInReview) then set_MergeReport mr (moved to actor t c)
         else moved to actor t c).

Definition complete_guard (force : bool) (c : Card) : option error :=
  if decide (Card_Status c ≠ StatusInReview)
  then Some (ErrInvalidTransition (Card_Status c) StatusDone)
  else
    let '(done, total) := ChecklistProgress c in
    if decide (done < total ∧ force = false) then Some (ErrChecklistOpen done total) else None.

Definition completed (t : time) (c : Card) : Card :=
  closeRunningExecutions ExecutionCompleted "accepted" t (set_Holder "" (set_Status StatusDone c)).

Definition running_guard (c : Card) : option error :=
  if HasRunningExecution c then Some ErrRunningExecution else None.

Definition started (executionID sessionID : string) (host : option HostRef) (t1 t2 : time)
    (c : Card) : Card :=
  set_Status StatusInProgress (set_Holder sessionID (set_Executions (Card_Executions c ++
    [mkExecution executionID sessionID ExecutionRunning t1 0%Z "" host "" "" "" "" "" t2]) c)).

Definition execution_guard (cardID executionID : string) (c : Card) : option error :=
  match find_first (runs executionID) (Card_Executions c) with
  | None => Some (ErrExecutionNotFound executionID cardID)
  | Some _ => None
  end.

Definition finished (executionID status summary : string) (obs : ExecutionObservation)
    (t1 t2 : time) (x : Execution) (c : Card) : Card :=
  let c := set_Executions (update_first (runs executionID)
    (λ x, applyObservation obs (set_ExUpdatedAt t2 (set_ExEndedAt t1
      (set_ExSummary (TrimSpace summary) (set_ExStatus status x)))))
    (Card_Executions c)) c in
  if bool_decide (Card_Holder c = Ex_SessionID x) then set_Holder "" c else c.

(** The checklist loop: it may refuse after it has already appended. *)
Definition checklist_add_rel : card_rel := λ c r c',
  ∃ items, c' = set_Checklist (Card_Checklist c ++ items) c
    ∧ Forall (λ i, Item_Done i = false ∧ Item_Text i ≠ "") items
    ∧ length (Card_Checklist c') ≤ max 30 (length (Card_Checklist c))
    ∧ match r with
      | Ok _ => items ≠ []
      | Err e => e = ErrChecklistCap ∧ 30 ≤ length (Card_Checklist c') ∨ e = ErrItemRequired ∧ items = []
      end.

Definition index_guard (index : Z) (c : Card) : option error :=
  if decide (index < 0 ∨ Z.of_nat (length (Card_Checklist c)) ≤ index)%Z
  then Some (ErrIndexRange index (length (Card_Checklist c))) else None.

(** ** Slots *)

Definition put_slot (p : nat) (c : Card) (t : nat) (l : Ledger) : Ledger :=
  mkLedger (mkLedgerData (Projects (data l)) (<[p:=c]> (Cards (data l))) (CreateRequests (data l)))
    (idSeq l) t (saves l) (disk l).

Lemma Cards_put_slot p c t l : Cards (data (put_slot p c t l)) = <[p:=c]> (Cards (data l)).
Proof. done. Qed.

Lemma put_slot_id p c l : Cards (data l) !! p = Some c → put_slot p c (tick l) l = l.
Proof.
  intros Hp. unfold put_slot. rewrite list_insert_id by done. by destruct l as [[]].
Qed.

Lemma put_slot_put p c1 t1 c2 t2 l : put_slot p c2 t2 (put_slot p c1 t1 l) = put_slot p c2 t2 l.
Proof. unfold put_slot. simpl. by rewrite list_insert_insert_eq. Qed.

Section Slots.
Context (clock : nat → time).

(** From any ledger whose slot [p] holds [c], the program only writes that
    slot and reads the clock, and [Q] holds of the result and the new card. *)
Definition slot_wp {A} (p : nat) (m : LM A) (Q : result error A → Card → Prop) (c : Card) : Prop :=
  ∀ l, Cards (data l) !! p = Some c →
  ∃ c' t, run m l = put_slot p c' t l ∧ Q (out m l) c'.

Lemma slot_wp_ret {A} p (a : A) (Q : result error A → Card → Prop) c :
  Q (Ok a) c → slot_wp p (mret a) Q c.
Proof. intros HQ l Hl. exists c, (tick l). by rewrite put_slot_id. Qed.

Lemma slot_wp_throw {A} p e (Q : result error A → Card → Prop) c :
  Q (Err e) c → slot_wp p (throw e) Q c.
Proof. intros HQ l Hl. exists c, (tick l). by rewrite put_slot_id. Qed.

Lemma slot_wp_load p (Q : result error Card → Card → Prop) c : Q (Ok c) c → slot_wp p (load p) Q c.
Proof.
  intros HQ l Hl. exists c, (tick l).
  rewrite put_slot_id by done. unfold load. autorewrite with mstep. cbn. by rewrite Hl.
Qed.

Lemma slot_wp_modify p f (Q : result error unit → Card → Prop) c :
  Q (Ok tt) (f c) → slot_wp p (modify_card p f) Q c.
Proof.
  intros HQ l Hl. exists (f c), (tick l). split; [|done].
  unfold modify_card, run, update, with_cards, with_data, put_slot. simpl.
  do 2 f_equal. by apply list_alter_lookup.
Qed.

Lemma slot_wp_now p (Q : result error time → Card → Prop) c :
  (∀ t, Q (Ok t) c) → slot_wp p (now clock) Q c.
Proof.
  intros HQ l Hl. exists c, (S (tick l)). split; [|apply HQ].
  unfold run, now, put_slot. simpl. rewrite list_insert_id by done. by destruct l as [[]].
Qed.

Lemma slot_wp_bind {A B} p (m : LM A) (k : A → LM B) (Q : result error B → Card → Prop) c :
  slot_wp p m (λ r c', match r with Ok a => slot_wp p (k a) Q c' | Err e => Q (Err e) c' end) c →
  slot_wp p (m ≫= k) Q c.
Proof.
  intros Hm l Hl. destruct (Hm l Hl) as (c1&t1&Hr&HQ). rewrite run_bind, out_bind.
  destruct (out m l) as [a|e]; [|by eauto]. rewrite Hr.
  assert (Cards (data (put_slot p c1 t1 l)) !! p = Some c1) as Hl1.
  { rewrite Cards_put_slot. apply list_lookup_insert_eq. by eapply lookup_lt_Some. }
  destruct (HQ _ Hl1) as (c2&t2&Hr2&HQ2). rewrite Hr2, put_slot_put. eauto.
Qed.

Lemma slot_wp_attach p (Q : result error ConflictReport → Card → Prop) c :
  (∀ report mr, Q (Ok report) (set_MergeReport mr c)) → slot_wp p (attach_merge_report p) Q c.
Proof.
  intros HQ. unfold attach_merge_report. apply slot_wp_bind, slot_wp_load.
  apply slot_wp_bind. intros l Hl. exists c, (tick l). rewrite put_slot_id by done.
  split; [done|]. cbn. apply slot_wp_bind, slot_wp_modify, slot_wp_ret. apply HQ.
Qed.

Lemma slot_wp_mono {A} p (m : LM A) (Q Q' : result error A → Card → Prop) c :
  (∀ r c', Q r c' → Q' r c') → slot_wp p m Q c → slot_wp p m Q' c.
Proof. intros HQ Hm l Hl. destruct (Hm l Hl) as (c'&t&?&?). eauto. Qed.

End Slots.

(** Symbolic execution of a closure. *)
Ltac slot_step :=
  lazymatch goal with
  | |- slot_wp _ (_ ≫= _) _ _ => apply slot_wp_bind
  | |- slot_wp _ (mret _) _ _ => apply slot_wp_ret
  | |- slot_wp _ (throw _) _ _ => apply slot_wp_throw
  | |- slot_wp _ (load _) _ _ => apply slot_wp_load
  | |- slot_wp _ (modify_card _ _) _ _ => apply slot_wp_modify
  | |- slot_wp _ (now _) _ _ => apply slot_wp_now; intros ?
  | |- slot_wp _ (attach_merge_report _) _ _ => apply slot_wp_attach; intros ? ?
  end; cbn beta iota zeta.
Ltac slot_steps := cbn beta iota zeta; repeat slot_step.

(** ** Outcomes of a mutation *)

Definition card_index (id : string) (l : Ledger) : option nat :=
  find_index (λ c, bool_decide (Card_ID c = id)) (Cards (data l)).

(** What [mutateCard] adds to the card once the closure accepted. *)
Definition stamp (actor : string) (t : time) (c : Card) : Card :=
  set_UpdatedAt t (set_UpdatedBy actor (set_Version (wrap64 (Card_Version c + 1)) c)).

Definition saved (ok : bool) (l : Ledger) : Ledger :=
  mkLedger (data l) (idSeq l) (tick l) (S (saves l)) (if ok then Some (data l) else disk l).

Section Outcomes.
Context (clock : nat → time) (save_error : nat → option string).

Inductive mutate_outcome (id : string) (v : Z) (actor : string) (R : card_rel) (l : Ledger) :
    Ledger → result error Card → Prop :=
| mutate_missing :
    card_index id l = None →
    mutate_outcome id v actor R l l (Err ErrCardNotFound)
| mutate_stale p c :
    card_index id l = Some p → Cards (data l) !! p = Some c → Card_Version c ≠ v →
    mutate_outcome id v actor R l l (Err (ErrVersionConflict id (Card_Version c) v))
| mutate_refused p c c' t e :
    card_index id l = Some p → Cards (data l) !! p = Some c → Card_Version c = v →
    R c (Err e) c' →
    mutate_outcome id v actor R l (put_slot p c' t l) (Err e)
| mutate_unsaved p c c' t u e :
    card_index id l = Some p → Cards (data l) !! p = Some c → Card_Version c = v →
    R c (Ok tt) c' → save_error (saves l) = Some e →
    mutate_outcome id v actor R l (saved false (put_slot p (stamp actor u c') t l)) (Err (ErrSave e))
| mutate_saved p c c' t u :
    card_index id l = Some p → Cards (data l) !! p = Some c → Card_Version c = v →
    R c (Ok tt) c' → save_error (saves l) = None →
    mutate_outcome id v actor R l (saved true (put_slot p (stamp actor u c') t l))
      (Ok (stamp actor u c')).

Lemma mutate_outcome_mono id v actor (R R' : card_rel) l l' r :
  (∀ c r c', R c r c' → R' c r c') →
  mutate_outcome id v actor R l l' r → mutate_outcome id v actor R' l l' r.
Proof.
  intros HR []; [by constructor|by eapply mutate_stale|eapply mutate_refused
    |eapply mutate_unsaved|eapply mutate_saved]; eauto.
Qed.

(** The program that follows the closure in [mutateCard]. *)
Lemma stamp_save_run p actor c l :
  Cards (data l) !! p = Some c →
  (modify_card p (λ c, set_Version (wrap64 (Card_Version c + 1)) c) ;;
   modify_card p (set_UpdatedBy actor) ;;
   t ← now clock;
   modify_card p (set_UpdatedAt t) ;;
   saveLocked save_error ;;
   load p) l =
  let c' := stamp actor (clock (tick l)) c in
  match save_error (saves l) with
  | Some e => (saved false (put_slot p c' (S (tick l)) l), Err (ErrSave e))
  | None => (saved true (put_slot p c' (S (tick l)) l), Ok c')
  end.
Proof.
  intros Hp. assert (p < length (Cards (data l))) as Hlt by (by eapply lookup_lt_Some).
  unfold modify_card, update, with_cards, with_data, now, saveLocked, mbind, M_bind. cbn.
  rewrite (list_alter_lookup _ _ _ _ Hp).
  erewrite (list_alter_lookup (set_UpdatedBy actor)) by (by apply list_lookup_insert_eq).
  rewrite list_insert_insert_eq.
  erewrite (list_alter_lookup (set_UpdatedAt _)) by (by apply list_lookup_insert_eq).
  rewrite list_insert_insert_eq. unfold saved, put_slot. cbn.
  destruct (save_error (saves l)); [done|].
  unfold load, gets, or_throw, mbind, M_bind. cbn. by rewrite list_lookup_insert_eq.
Qed.

Lemma run_find id l : run (findCardLocked id) l = l.
Proof.
  unfold findCardLocked. rewrite run_bind. cbn. unfold or_throw. by destruct (find_index _ _).
Qed.

Lemma out_find id l :
  out (findCardLocked id) l =
  match card_index id l with Some p => Ok p | None => Err ErrCardNotFound end.
Proof.
  unfold findCardLocked, card_index. rewrite out_bind. cbn. unfold or_throw.
  by destruct (find_index _ _).
Qed.

Lemma card_index_Some id l p :
  card_index id l = Some p → ∃ c, Cards (data l) !! p = Some c ∧ Card_ID c = id.
Proof.
  unfold card_index. rewrite find_index_Some. intros [(c&Hc&Hid) _].
  apply bool_decide_eq_true in Hid. eauto.
Qed.

Lemma run_load p l : run (load p) l = l.
Proof.
  unfold load. rewrite run_bind. cbn. unfold or_throw. by destruct (Cards (data l) !! p).
Qed.

Lemma out_load p l c : Cards (data l) !! p = Some c → out (load p) l = Ok c.
Proof. intros Hp. unfold load. rewrite out_bind. cbn. by rewrite Hp. Qed.

Lemma mutateCard_outcome id v actor mutate (R : card_rel) l :
  (∀ p c, slot_wp p (mutate p) (R c) c) →
  mutate_outcome id v actor R l (run (mutateCard clock save_error id v actor mutate) l)
    (out (mutateCard clock save_error id v actor mutate) l).
Proof.
  intros HR. unfold mutateCard. rewrite run_bind, out_bind, run_find, out_find.
  destruct (card_index id l) as [p|] eqn:Hidx; [|by constructor].
  destruct (card_index_Some _ _ _ Hidx) as (c&Hp&_).
  rewrite run_bind, out_bind, run_load, (out_load p l c Hp).
  case_bool_decide as Hv; simpl; [|by eapply mutate_stale].
  rewrite run_bind, out_bind.
  destruct (HR p c l Hp) as (c'&t&Hrun&HRc).
  destruct (out (mutate p) l) as [[]|e]; rewrite Hrun; [|by eapply mutate_refused].
  assert (Cards (data (put_slot p c' t l)) !! p = Some c') as Hp'.
  { rewrite Cards_put_slot. apply list_lookup_insert_eq. by eapply lookup_lt_Some. }
  pose proof (stamp_save_run p actor c' _ Hp') as Hs. cbn zeta in Hs.
  unfold run, out. rewrite Hs. cbn [saves put_slot]. rewrite put_slot_put.
  destruct (save_error (saves l)) eqn:He; simpl; [by eapply mutate_unsaved|by eapply mutate_saved].
Qed.

(** ** The operations *)


Lemma UpdateCard_outcome id v actor input l :
  mutate_outcome id v actor (edits (apply_update input)) l
    (run (UpdateCard clock save_error id v actor input) l)
    (out (UpdateCard clock save_error id v actor input) l).
Proof. apply mutateCard_outcome. intros p c. by slot_steps. Qed.

Lemma MoveCard_outcome id v to actor l :
  mutate_outcome id v actor (move_rel id (TrimSpace to) actor) l
    (run (MoveCard clock save_error id v to actor) l)
    (out (MoveCard clock save_error id v to actor) l).
Proof.
  apply mutateCard_outcome. intros p c. slot_steps.
  unfold move_rel, guarded, move_guard, held_by_other.
  set (to' := TrimSpace to). clearbody to'.
  case_bool_decide as Hdone; [rewrite decide_True by done; by slot_steps|].
  rewrite (decide_False (P := to' = StatusDone)) by done.
  case_bool_decide as Hin; simpl; [|rewrite decide_True by done; by slot_steps].
  rewrite (decide_False (P := to' ∉ _)) by tauto.
  destruct (bool_decide (Card_Status c = _) && _ && _ && _) eqn:Hheld.
  - rewrite decide_True; [by slot_steps|]. bool_prop. tauto.
  - rewrite decide_False; [|intros (?&?&?&?); revert Hheld; by rewrite !bool_decide_true, !bool_decide_false by done].
    clear Hheld. slot_steps. case_bool_decide as Hip.
    + slot_steps. rewrite bool_decide_false by (by rewrite Hip). slot_steps.
      split; [done|]. exists 0%Z, None. unfold moved. rewrite Hip. done.
    + slot_steps. case_bool_decide as Hrev; slot_steps; split; try done; eexists _, _;
        unfold moved; [rewrite (decide_True (P := to' = StatusInReview)) by done
                      |rewrite (decide_False (P := to' = StatusInReview)) by done];
        by rewrite decide_False.
      Unshelve. exact None.
Qed.

Lemma CompleteCard_outcome id v actor force l :
  mutate_outcome id v actor (guarded (complete_guard force) (λ c c', ∃ t, c' = completed t c)) l
    (run (CompleteCard clock save_error id v actor force) l)
    (out (CompleteCard clock save_error id v actor force) l).
Proof.
  apply mutateCard_outcome. intros p c. slot_steps. unfold guarded, complete_guard.
  case_bool_decide as Hst; simpl; [|rewrite decide_True by done; by slot_steps].
  rewrite decide_False by tauto. destruct (ChecklistProgress c) as [done total].
  destruct (bool_decide (done < total) && negb force) eqn:Hg.
  - rewrite decide_True by (by bool_prop). by slot_steps.
  - rewrite decide_False.
    + slot_steps. eauto.
    + intros [? ->]. by rewrite bool_decide_true in Hg.
Qed.

Lemma AddComment_outcome id v author text l :
  TrimSpace text ≠ "" →
  mutate_outcome id v author (λ c r c', ∃ t,
      edits (λ c, set_Comments (Card_Comments c ++ [mkComment author (TrimSpace text) t]) c) c r c') l
    (run (AddComment clock save_error id v author text) l)
    (out (AddComment clock save_error id v author text) l).
Proof.
  intros Ht. unfold AddComment. rewrite bool_decide_false by done.
  apply mutateCard_outcome. intros p c. slot_steps. by eexists.
Qed.

Lemma SoftDeleteCard_outcome id v actor l :
  mutate_outcome id v actor
    (guarded running_guard (λ c c', c' = set_Holder "" (set_Deleted true c))) l
    (run (SoftDeleteCard clock save_error id v actor) l)
    (out (SoftDeleteCard clock save_error id v actor) l).
Proof.
  apply mutateCard_outcome. intros p c. slot_steps. unfold guarded, running_guard.
  destruct (HasRunningExecution c); by slot_steps.
Qed.

Lemma checklist_add_loop_wp p texts added c :
  slot_wp p (checklist_add_loop p texts added) (λ r c', ∃ items,
    c' = set_Checklist (Card_Checklist c ++ items) c
    ∧ Forall (λ i, Item_Done i = false ∧ Item_Text i ≠ "") items
    ∧ length (Card_Checklist c') ≤ max 30 (length (Card_Checklist c))
    ∧ match r with
      | Ok n => n = added + length items
      | Err e => e = ErrChecklistCap ∧ 30 ≤ length (Card_Checklist c')
      end) c.
Proof.
  revert added c. induction texts as [|text texts IH]; intros added c; simpl.
  - slot_steps. exists []. rewrite app_nil_r. split_and!; [by destruct c|constructor| |]; simpl; lia.
  - case_bool_decide as Hblank; [apply IH|]. slot_steps.
    case_bool_decide as Hcap; slot_steps.
    + exists []. rewrite app_nil_r. split_and!; [by destruct c|constructor|simpl; lia|done|done].
    + eapply slot_wp_mono, IH. intros r c' (items&->&Hall&Hlen&Hr). simpl in *.
      exists (mkChecklistItem (TrimSpace text) false "" :: items).
      rewrite <- app_assoc in *. simpl in *. split_and!; [done|by constructor| |].
      * revert Hlen. rewrite !length_app. simpl. lia.
      * destruct r; [simpl; lia|done].
Qed.

Lemma ChecklistAdd_outcome id v actor texts l :
  mutate_outcome id v actor checklist_add_rel l
    (run (ChecklistAdd clock save_error id v actor texts) l)
    (out (ChecklistAdd clock save_error id v actor texts) l).
Proof.
  apply mutateCard_outcome. intros p c. apply slot_wp_bind.
  eapply slot_wp_mono, checklist_add_loop_wp.
  intros r c' (items&->&Hall&Hlen&Hr). destruct r as [n|e].
  - case_bool_decide as Hn; slot_steps; exists items; split_and!; try done.
    + right. split; [done|]. destruct items; [done|simpl in Hr; lia].
    + intros ->. simpl in Hr. lia.
  - exists items. split_and!; try done. by left.
Qed.

Lemma checklist_set_wp p index f c :
  slot_wp p (checklist_set p index f)
    (guarded (index_guard index)
      (λ c c', c' = set_Checklist (alter f (Z.to_nat index) (Card_Checklist c)) c) c) c.
Proof.
  unfold checklist_set, guarded, index_guard. slot_steps.
  case_bool_decide; [rewrite decide_True by done|rewrite decide_False by done]; by slot_steps.
Qed.

Lemma ChecklistCheck_outcome id v actor index evidence l :
  mutate_outcome id v actor (guarded (index_guard index) (λ c c',
      c' = set_Checklist (alter (λ i, mkChecklistItem (Item_Text i) true (TrimSpace evidence))
             (Z.to_nat index) (Card_Checklist c)) c)) l
    (run (ChecklistCheck clock save_error id v actor index evidence) l)
    (out (ChecklistCheck clock save_error id v actor index evidence) l).
Proof. apply mutateCard_outcome. intros p c. apply checklist_set_wp. Qed.

Lemma ChecklistUncheck_outcome id v actor index l :
  mutate_outcome id v actor (guarded (index_guard index) (λ c c',
      c' = set_Checklist (alter (λ i, mkChecklistItem (Item_Text i) false "")
             (Z.to_nat index) (Card_Checklist c)) c)) l
    (run (ChecklistUncheck clock save_error id v actor index) l)
    (out (ChecklistUncheck clock save_error id v actor index) l).
Proof. apply mutateCard_outcome. intros p c. apply checklist_set_wp. Qed.

Lemma ReportObservedPaths_outcome id v actor paths l :
  mutate_outcome id v actor (edits (λ c,
      if decide (normalizeTouchedPaths paths = []) then c
      else set_ObservedPaths (normalizeTouchedPaths
             (Card_ObservedPaths c ++ normalizeTouchedPaths paths)) c)) l
    (run (ReportObservedPaths clock save_error id v actor paths) l)
    (out (ReportObservedPaths clock save_error id v actor paths) l).
Proof.
  apply mutateCard_outcome. intros p c. unfold edits. simpl.
  case_bool_decide; [rewrite decide_True by done|rewrite decide_False by done]; by slot_steps.
Qed.

Lemma StartExecution_outcome id exid sid actor host l :
  mutate_outcome id (default (-1)%Z (Card_Version <$>
      find_first (λ c, bool_decide (Card_ID c = id)) (Cards (data l)))) actor
    (guarded running_guard (λ c c', ∃ t1 t2, c' = started exid sid host t1 t2 c)) l
    (run (StartExecution clock save_error id exid sid actor host) l)
    (out (StartExecution clock save_error id exid sid actor host) l).
Proof.
  unfold StartExecution. rewrite run_bind, out_bind. cbn [versionForExecution run out gets fst snd].
  replace (match find_first _ _ with Some c => Card_Version c | None => _ end)
    with (default (-1)%Z (Card_Version <$>
      find_first (λ c, bool_decide (Card_ID c = id)) (Cards (data l))))
    by (by destruct (find_first _ _)).
  apply mutateCard_outcome. intros p c. slot_steps. unfold guarded, running_guard.
  destruct (HasRunningExecution c); slot_steps; eauto.
Qed.

(** The version an executor operation reads under the mutex before it mutates. *)
Definition current_version (id : string) (l : Ledger) : Z :=
  default (-1)%Z (Card_Version <$>
    find_first (λ c, bool_decide (Card_ID c = id)) (Cards (data l))).

Lemma current_version_lookup id l p c :
  card_index id l = Some p → Cards (data l) !! p = Some c → current_version id l = Card_Version c.
Proof.
  unfold card_index, current_version. intros Hidx Hp.
  rewrite find_first_index, Hidx. simpl. by rewrite Hp.
Qed.

(** Such an operation first looks the card up and checks its arguments; it
    then mutates the card at the version it has just read. *)
Definition at_current_version (id : string) (actor : string) (ok : Prop) (R : card_rel)
    (early : error → Prop) (m : LM Card) : Prop :=
  ∀ l, (run m l = l ∧ ∃ e, early e ∧ out m l = Err e)
       ∨ (card_index id l ≠ None ∧ ok
          ∧ mutate_outcome id (current_version id l) actor R l (run m l) (out m l)).

Definition finish_rel (id exid status summary : string) (obs : ExecutionObservation) : card_rel :=
  guarded (execution_guard id exid) (λ c c', ∃ x t1 t2,
    find_first (runs exid) (Card_Executions c) = Some x ∧
    c' = finished exid status summary obs t1 t2 x c).

Lemma FinishExecutionWithObs_outcome id exid status summary obs :
  at_current_version id "taskboard"
    (status ∈ [ExecutionCompleted; ExecutionFailed; ExecutionCancelled])
    (finish_rel id exid status summary obs)
    (λ e, e = ErrCardNotFound ∨ e = ErrInvalidStatus status
          ∧ status ∉ [ExecutionCompleted; ExecutionFailed; ExecutionCancelled])
    (FinishExecutionWithObs clock save_error id exid status summary obs).
Proof.
  intros l. unfold FinishExecutionWithObs.
  rewrite run_bind, out_bind, run_find, out_find.
  destruct (card_index id l) as [p|] eqn:Hidx; [|left; eauto].
  destruct (card_index_Some _ _ _ Hidx) as (c&Hp&_).
  rewrite run_bind, out_bind, run_load, (out_load p l c Hp).
  case_bool_decide as Hst; simpl; [|left; split; [done|]; eauto].
  right. split_and!; [done..|]. rewrite (current_version_lookup _ _ _ _ Hidx Hp).
  apply mutateCard_outcome. clear. intros p c. slot_steps.
  unfold finish_rel, guarded, execution_guard.
  destruct (find_first (runs exid) (Card_Executions c)) as [x|] eqn:Hx; slot_steps; [|done].
  split; [done|]. eexists x, _, _. split; [done|]. reflexivity.
Qed.

Definition observe_rel (id exid : string) (obs : ExecutionObservation) : card_rel :=
  guarded (execution_guard id exid) (λ c c', ∃ t,
    c' = set_Executions (update_first (runs exid)
           (λ x, set_ExUpdatedAt t (applyObservation obs x)) (Card_Executions c)) c).

Lemma UpdateExecutionObservation_outcome id exid obs :
  at_current_version id "taskboard" True (observe_rel id exid obs) (λ e, e = ErrCardNotFound)
    (UpdateExecutionObservation clock save_error id exid obs).
Proof.
  intros l. unfold UpdateExecutionObservation.
  rewrite run_bind, out_bind, run_find, out_find.
  destruct (card_index id l) as [p|] eqn:Hidx; [|left; eauto].
  destruct (card_index_Some _ _ _ Hidx) as (c&Hp&_).
  rewrite run_bind, out_bind, run_load, (out_load p l c Hp).
  right. split_and!; [done..|]. rewrite (current_version_lookup _ _ _ _ Hidx Hp).
  apply mutateCard_outcome. clear. intros p c. slot_steps.
  unfold observe_rel, guarded, execution_guard.
  destruct (find_first (runs exid) (Card_Executions c)) as [x|] eqn:Hx; slot_steps; eauto.
Qed.

Definition has_id (exid : string) (x : Execution) : bool := bool_decide (Ex_ID x = exid).

Definition job_session_rel (exid job : string) : card_rel :=
  edits (λ c, set_Executions
    (update_first (has_id exid) (set_ExJobSessionID job) (Card_Executions c)) c).

(** [SetExecutionJobSession] is idempotent: a repeated id changes nothing. *)
Lemma SetExecutionJobSession_outcome id exid job l :
  let m := SetExecutionJobSession clock save_error id exid job in
  (run m l = l ∧
   (out m l = Err ErrJobSessionRequired ∨ out m l = Err ErrCardNotFound ∨
    ∃ p c x, card_index id l = Some p ∧ Cards (data l) !! p = Some c ∧ out m l = Ok c ∧
      find_first (has_id exid) (Card_Executions c) = Some x ∧
      Ex_JobSessionID x = TrimSpace job))
  ∨ mutate_outcome id (current_version id l) "taskboard" (job_session_rel exid (TrimSpace job)) l
      (run m l) (out m l).
Proof.
  intros m. subst m. unfold SetExecutionJobSession.
  case_bool_decide as Hjob; [left; eauto|].
  rewrite run_bind, out_bind, run_find, out_find.
  destruct (card_index id l) as [p|] eqn:Hidx; [|left; eauto].
  destruct (card_index_Some _ _ _ Hidx) as (c&Hp&_).
  rewrite run_bind, out_bind, run_load, (out_load p l c Hp). fold (has_id exid).
  destruct (find_first (has_id exid) (Card_Executions c)) as [x|] eqn:Hx; [|left; eauto].
  case_bool_decide as Hsame; [left; split; [done|]; right; right; by exists p, c, x|].
  right. rewrite (current_version_lookup _ _ _ _ Hidx Hp).
  rewrite run_bind, out_bind. set (f := λ c0, set_Executions _ c0).
  assert (run (modify_card p f) l = put_slot p (f c) (tick l) l) as Hrun.
  { unfold modify_card, run, update, with_cards, with_data, put_slot. simpl.
    by rewrite (list_alter_lookup _ _ _ _ Hp). }
  change (out (modify_card p f) l) with (@Ok error unit tt). rewrite Hrun.
  assert (Cards (data (put_slot p (f c) (tick l) l)) !! p = Some (f c)) as Hp'.
  { rewrite Cards_put_slot. apply list_lookup_insert_eq. by eapply lookup_lt_Some. }
  pose proof (stamp_save_run p "taskboard" (f c) _ Hp') as Hs. cbn zeta in Hs.
  unfold run, out. rewrite Hs. cbn [saves put_slot]. rewrite put_slot_put.
  destruct (save_error (saves l)) eqn:He; simpl; [by eapply mutate_unsaved|by eapply mutate_saved].
Qed.

Lemma MergePrecheck_outcome id v actor l :
  let m := MergePrecheck clock save_error id v actor in
  ∃ r, mutate_outcome id v actor (λ c r c', ∃ mr, edits (set_MergeReport mr) c r c') l (run m l) r
    ∧ out m l = match r with
                | Ok c => Ok (c, match Card_MergeReport c with Some r => r | None => mkConflictReport [] end)
                | Err e => Err e
                end.
Proof.
  intros m. subst m. unfold MergePrecheck. rewrite run_bind, out_bind.
  set (m := mutateCard _ _ _ _ _ _).
  assert (mutate_outcome id v actor (λ c r c', ∃ mr, edits (set_MergeReport mr) c r c') l
    (run m l) (out m l)) as Hm.
  { apply mutateCard_outcome. intros p c. slot_steps. by eexists. }
  exists (out m l). split; [|by destruct (out m l)]. revert Hm. by destruct (out m l).
Qed.

End Outcomes.
