(* ===== verification/TaskLedgerInv.v ===== *)
(** * Task board: invariants of the ledger

    The well-formedness of a card and of the ledger document, and that every
    operation preserves it on every path: success, refusal, failed save. *)
From S2P Require Import Prelude GoStrings TaskTypes TaskConflicts TaskLedger TaskLedgerSpec.
From Stdlib Require Import ZArith Lia.

(** ** Well-formedness *)

Definition statuses : list string :=
  [StatusBacklog; StatusTodo; StatusInProgress; StatusInReview; StatusDone].

(** A card has a column; a holder or a running execution means it is in
    progress; at most one of its executions runs. *)
Record wf_card (c : Card) : Prop := {
  wf_status : Card_Status c ∈ statuses;
  wf_holder : Card_Holder c ≠ "" → Card_Status c = StatusInProgress;
  wf_running : HasRunningExecution c = true → Card_Status c = StatusInProgress;
  wf_single : length (filter (λ x, is_running x = true) (Card_Executions c)) ≤ 1;
}.

Definition request_key (r : createRequestRecord) : string * string :=
  (Req_ExternalRequestID r, Req_CreatedBy r).

(** Cards refer to existing projects, idempotency records to existing cards,
    and an idempotency key is recorded once. *)
Record wf_data (d : ledgerData) : Prop := {
  wf_cards : Forall wf_card (Cards d);
  wf_projects : Forall (λ c, Card_ProjectID c ∈ Project_ID <$> Projects d) (Cards d);
  wf_requests : Forall (λ r, Req_CardID r ∈ Card_ID <$> Cards d) (CreateRequests d);
  wf_keys : NoDup (request_key <$> CreateRequests d);
}.

(** The document in memory and the one on disk, which the next [OpenLedger]
    will read. *)
Definition wf_ledger (l : Ledger) : Prop :=
  wf_data (data l) ∧ ∀ d, disk l = Some d → wf_data d.

(** The fields no mutation of a card touches. *)
Record keeps (c c' : Card) : Prop := {
  keeps_id : Card_ID c' = Card_ID c;
  keeps_project : Card_ProjectID c' = Card_ProjectID c;
  keeps_version : Card_Version c' = Card_Version c;
  keeps_request : Card_ExternalRequestID c' = Card_ExternalRequestID c;
  keeps_created_by : Card_CreatedBy c' = Card_CreatedBy c;
  keeps_created_at : Card_CreatedAt c' = Card_CreatedAt c;
}.

(** A card transition that keeps the identity and the well-formedness of the
    card, also when it refuses after a partial write. *)
Record sound_rel (R : card_rel) : Prop := {
  sound_keeps : ∀ c r c', R c r c' → keeps c c';
  sound_wf : ∀ c r c', R c r c' → wf_card c → wf_card c';
}.

(** ** Executions *)

Lemma close_execution_stopped status summary t x :
  status ≠ ExecutionRunning → is_running (close_execution status summary t x) = false.
Proof.
  intros Hs. unfold close_execution. destruct (is_running x) eqn:Hx; [|done].
  unfold is_running. simpl. by apply bool_decide_eq_false.
Qed.

Lemma close_no_running status summary t c :
  status ≠ ExecutionRunning →
  Forall (λ x, is_running x = false) (Card_Executions (closeRunningExecutions status summary t c)).
Proof.
  intros Hs. simpl. apply Forall_fmap, Forall_forall. intros x _. by apply close_execution_stopped.
Qed.

Lemma close_holder_empty status summary t c :
  Card_Holder c = "" → Card_Holder (closeRunningExecutions status summary t c) = "".
Proof.
  simpl. intros ->. induction (Card_Executions c) as [|x l IH]; simpl; [done|]. by case_match.
Qed.

Lemma HasRunning_Forall c :
  HasRunningExecution c = false ↔ Forall (λ x, is_running x = false) (Card_Executions c).
Proof.
  unfold HasRunningExecution. induction (Card_Executions c) as [|x l IH]; simpl; [done|].
  by rewrite orb_false_iff, Forall_cons, IH.
Qed.

Lemma count_stopped l :
  Forall (λ x, is_running x = false) l → length (filter (λ x, is_running x = true) l) = 0.
Proof.
  intros Hl. rewrite filter_none; [done|]. eapply Forall_impl; [done|]. by intros x ->.
Qed.

(** A card none of whose executions runs and that has no holder is well
    formed in any column. *)
Lemma wf_idle c :
  Card_Status c ∈ statuses → Card_Holder c = "" →
  Forall (λ x, is_running x = false) (Card_Executions c) → wf_card c.
Proof.
  intros Hs Hh Hx. split; [done|by rewrite Hh| |by rewrite count_stopped; [lia|]].
  by rewrite (proj2 (HasRunning_Forall c) Hx).
Qed.

Lemma wf_executions c c' :
  Card_Status c' = Card_Status c → Card_Holder c' = Card_Holder c →
  Card_Executions c' = Card_Executions c → wf_card c → wf_card c'.
Proof.
  intros Hs Hh Hx [H1 H2 H3 H4].
  split; unfold HasRunningExecution in *; rewrite ?Hs, ?Hh, ?Hx; done.
Qed.

Lemma in_statuses s : bool_decide (s ∈ statuses) = true → s ∈ statuses.
Proof. apply bool_decide_eq_true. Qed.

Lemma allowed_statuses from to : to ∈ allowedTransitions from → to ∈ statuses.
Proof.
  unfold allowedTransitions, statuses. repeat case_bool_decide; set_solver.
Qed.

(** ** The transitions are sound *)

(** An edit of the text fields: neither the identity, the column, the holder
    nor the executions change. *)
Definition same_run (c c' : Card) : Prop :=
  keeps c c' ∧ Card_Status c' = Card_Status c ∧ Card_Holder c' = Card_Holder c
  ∧ Card_Executions c' = Card_Executions c.

Lemma same_run_refl c : same_run c c.
Proof. done. Qed.

Lemma same_run_opt_set {A} (f : A → Card → Card) o c c' :
  (∀ v c, same_run c (f v c)) → same_run c c' → same_run c (opt_set f o c').
Proof.
  intros Hf Hc. destruct o as [v|]; [|done]. simpl.
  destruct (Hf v c') as ([]&?&?&?), Hc as ([]&?&?&?).
  split; [split|split_and!]; congruence.
Qed.

Lemma sound_edits f : (∀ c, same_run c (f c)) → sound_rel (edits f).
Proof.
  intros Hf. split; intros c r c' [_ ->]; destruct (Hf c) as (?&?&?&?); [done|].
  by apply wf_executions.
Qed.

Lemma sound_guarded guard post :
  (∀ c c', guard c = None → post c c' → keeps c c') →
  (∀ c c', guard c = None → post c c' → wf_card c → wf_card c') →
  sound_rel (guarded guard post).
Proof.
  intros Hk Hw. split; intros c r c' H; unfold guarded in H;
    destruct (guard c) eqn:?; destruct H as [? H]; subst; eauto; by split.
Qed.

Lemma sound_exists {T} (R : T → card_rel) :
  (∀ t, sound_rel (R t)) → sound_rel (λ c r c', ∃ t, R t c r c').
Proof. intros HR. split; intros c r c' [t H]; destruct (HR t); eauto. Qed.

Lemma same_run_update input c : same_run c (apply_update input c).
Proof.
  unfold apply_update. cbn zeta.
  repeat (apply same_run_opt_set; [intros v c'; try done|]); [|apply same_run_refl].
  by case_bool_decide.
Qed.

Lemma sound_update input : sound_rel (edits (apply_update input)).
Proof. apply sound_edits, same_run_update. Qed.

Lemma keeps_close status summary t c c' :
  keeps c c' → keeps c (closeRunningExecutions status summary t c').
Proof. by intros []. Qed.

Lemma keeps_moved to actor t c : keeps c (moved to actor t c).
Proof. unfold moved. case_decide; [done|]. by apply keeps_close. Qed.

Lemma wf_merge_report mr c : wf_card c → wf_card (set_MergeReport mr c).
Proof. by apply wf_executions. Qed.

(** Closing the runs of a card leaves it idle. *)
Lemma wf_closed to summary t c :
  to ∈ statuses →
  wf_card (closeRunningExecutions ExecutionCompleted summary t (set_Holder "" (set_Status to c))).
Proof.
  intros Hto. apply wf_idle; [done|by apply close_holder_empty|by apply close_no_running].
Qed.

Lemma move_guard_None id to actor c :
  move_guard id to actor c = None →
  to ≠ StatusDone ∧ to ∈ allowedTransitions (Card_Status c) ∧ ¬ held_by_other c actor.
Proof.
  unfold move_guard. by repeat case_decide.
Qed.

(** A card claimed through [MoveCard] comes from [todo], where nothing runs. *)
Lemma claimed_idle c :
  wf_card c → StatusInProgress ∈ allowedTransitions (Card_Status c) → HasRunningExecution c = false.
Proof.
  intros Hwf Hin. destruct (HasRunningExecution c) eqn:Hr; [|done].
  apply (wf_running c Hwf) in Hr. rewrite Hr in Hin. by apply list_elem_of_singleton in Hin.
Qed.

Lemma wf_moved id to actor t c :
  move_guard id to actor c = None → wf_card c → wf_card (moved to actor t c).
Proof.
  intros (_&Hin&_)%move_guard_None Hwf. unfold moved. case_decide as Hto.
  - subst. pose proof (claimed_idle c Hwf Hin) as Hidle.
    split; simpl; [by apply in_statuses|done..|apply (wf_single c Hwf)].
  - apply wf_closed. by eapply allowed_statuses.
Qed.

Lemma sound_move id to actor : sound_rel (move_rel id to actor).
Proof.
  apply sound_guarded; intros c c' Hg (t&mr&->).
  - pose proof (keeps_moved to actor t c) as Hk. case_decide; [by destruct Hk|done].
  - intros Hwf. pose proof (wf_moved _ _ _ t _ Hg Hwf) as Hm.
    case_decide; [by apply wf_merge_report|done].
Qed.

Lemma sound_complete force :
  sound_rel (guarded (complete_guard force) (λ c c', ∃ t, c' = completed t c)).
Proof.
  apply sound_guarded; intros c c' Hg (t&->).
  - by apply keeps_close.
  - intros _. apply wf_closed. by apply in_statuses.
Qed.

Lemma sound_comment author text :
  sound_rel (λ c r c', ∃ t, edits (λ c,
    set_Comments (Card_Comments c ++ [mkComment author text t]) c) c r c').
Proof. apply sound_exists. intros t. by apply sound_edits. Qed.

Lemma sound_delete :
  sound_rel (guarded running_guard (λ c c', c' = set_Holder "" (set_Deleted true c))).
Proof.
  apply sound_guarded; intros c c' Hg ->; [done|].
  intros [Hs Hh Hr H1]. by split.
Qed.

Lemma sound_checklist_add : sound_rel checklist_add_rel.
Proof.
  split; intros c r c' (items&->&_); [done|]. by apply wf_executions.
Qed.

Lemma sound_checklist_set index f :
  sound_rel (guarded (index_guard index) (λ c c',
    c' = set_Checklist (alter f (Z.to_nat index) (Card_Checklist c)) c)).
Proof. apply sound_guarded; intros c c' _ ->; [done|]. by apply wf_executions. Qed.

Lemma sound_observed paths :
  sound_rel (edits (λ c, if decide (normalizeTouchedPaths paths = []) then c
    else set_ObservedPaths (normalizeTouchedPaths
           (Card_ObservedPaths c ++ normalizeTouchedPaths paths)) c)).
Proof. apply sound_edits. intros c. by case_decide. Qed.

Lemma sound_merge : sound_rel (λ c r c', ∃ mr, edits (set_MergeReport mr) c r c').
Proof. apply sound_exists. intros mr. by apply sound_edits. Qed.

Lemma running_guard_None c : running_guard c = None ↔ HasRunningExecution c = false.
Proof. unfold running_guard. by destruct (HasRunningExecution c). Qed.

Lemma sound_start exid sid host :
  sound_rel (guarded running_guard (λ c c', ∃ t1 t2, c' = started exid sid host t1 t2 c)).
Proof.
  apply sound_guarded; intros c c' Hg (t1&t2&->); [done|]. intros Hwf.
  apply running_guard_None, HasRunning_Forall in Hg.
  split; simpl; [by apply in_statuses|done|done|].
  by rewrite filter_app, length_app, count_stopped.
Qed.

(** ** Updating one execution *)

Lemma applyObservation_keeps obs x :
  Ex_ID (applyObservation obs x) = Ex_ID x
  ∧ Ex_SessionID (applyObservation obs x) = Ex_SessionID x
  ∧ Ex_Status (applyObservation obs x) = Ex_Status x
  ∧ Ex_JobSessionID (applyObservation obs x) = Ex_JobSessionID x.
Proof. unfold applyObservation. cbn zeta. by repeat case_bool_decide. Qed.

(** Updates that do not start an execution do not add running ones. *)
Lemma running_update_first p f l :
  (∀ x, is_running (f x) = true → is_running x = true) →
  length (filter (λ x, is_running x = true) (update_first p f l)) ≤
  length (filter (λ x, is_running x = true) l).
Proof.
  intros Hf. induction l as [|x l IH]; simpl; [done|]. destruct (p x).
  - rewrite !filter_cons. specialize (Hf x). repeat case_decide; simpl; try lia. tauto.
  - rewrite !filter_cons. case_decide; simpl; lia.
Qed.

Lemma HasRunning_count c :
  HasRunningExecution c = true ↔ 0 < length (filter (λ x, is_running x = true) (Card_Executions c)).
Proof.
  unfold HasRunningExecution. induction (Card_Executions c) as [|x l IH]; simpl; [easy|].
  rewrite orb_true_iff, IH, filter_cons. case_decide; simpl; [|tauto]. intuition lia.
Qed.

Lemma wf_update_executions p f c c' :
  (∀ x, is_running (f x) = true → is_running x = true) →
  Card_Status c' = Card_Status c → (Card_Holder c' = Card_Holder c ∨ Card_Holder c' = "") →
  Card_Executions c' = update_first p f (Card_Executions c) →
  wf_card c → wf_card c'.
Proof.
  intros Hf Hs Hh Hx [H1 H2 H3 H4].
  pose proof (running_update_first p f (Card_Executions c) Hf) as Hle.
  split; rewrite ?HasRunning_count, ?Hs, ?Hx in *; [done| | |lia].
  - destruct Hh as [->| ->]; [done|by intros []].
  - intros Hr. apply H3. lia.
Qed.

Lemma sound_finish id exid status summary obs :
  status ≠ ExecutionRunning → sound_rel (finish_rel id exid status summary obs).
Proof.
  intros Hst. apply sound_guarded; intros c c' _ (x&t1&t2&_&->); unfold finished; cbn zeta.
  - by case_bool_decide.
  - apply (wf_update_executions (runs exid) (λ x, applyObservation obs (set_ExUpdatedAt t2
      (set_ExEndedAt t1 (set_ExSummary (TrimSpace summary) (set_ExStatus status x)))))).
    + intros y. unfold is_running. destruct (applyObservation_keeps obs (set_ExUpdatedAt t2
        (set_ExEndedAt t1 (set_ExSummary (TrimSpace summary) (set_ExStatus status y))))) as (_&_&->&_).
      simpl. by rewrite bool_decide_false.
    + by case_bool_decide.
    + case_bool_decide; auto.
    + by case_bool_decide.
Qed.

Lemma sound_observe id exid obs : sound_rel (observe_rel id exid obs).
Proof.
  apply sound_guarded; intros c c' _ (t&->); [done|].
  apply (wf_update_executions (runs exid) (λ x, set_ExUpdatedAt t (applyObservation obs x))); auto.
  intros x. unfold is_running. simpl.
  by destruct (applyObservation_keeps obs x) as (_&_&->&_).
Qed.

Lemma sound_job_session exid job : sound_rel (job_session_rel exid job).
Proof.
  split; intros c r c' [_ ->]; [done|].
  apply (wf_update_executions (has_id exid) (set_ExJobSessionID job)); auto.
Qed.

(** ** A mutation keeps the documents well formed *)

Definition request_ok (d : ledgerData) : Prop :=
  Forall (λ r, Req_CardID r ∈ Card_ID <$> Cards d) (CreateRequests d)
  ∧ NoDup (request_key <$> CreateRequests d).

Lemma wf_stamp actor t c : wf_card c → wf_card (stamp actor t c).
Proof. by apply wf_executions. Qed.

(** Replacing a card by one with the same identity and project. *)
Lemma wf_put_slot p c c' t l :
  Cards (data l) !! p = Some c → Card_ID c' = Card_ID c → Card_ProjectID c' = Card_ProjectID c →
  (wf_card c → wf_card c') → wf_data (data l) → wf_data (data (put_slot p c' t l)).
Proof.
  intros Hp Hid Hproj Hwf [H1 H2 H3 H4].
  pose proof (list_elem_of_lookup_2 _ _ _ Hp) as Hin.
  split; simpl.
  - apply Forall_insert; [done|]. apply Hwf. rewrite Forall_forall in H1. auto.
  - apply Forall_insert; [done|]. rewrite Hproj. rewrite Forall_forall in H2. auto.
  - by rewrite (fmap_insert_same Card_ID _ _ _ _ Hp Hid).
  - done.
Qed.

Lemma wf_saved ok l : wf_data (data l) → (∀ d, disk l = Some d → wf_data d) → wf_ledger (saved ok l).
Proof. intros Hd Hk. split; [done|]. simpl. destruct ok; [by intros d [= <-]|done]. Qed.

Lemma wf_mutate save_error id v actor R l l' r :
  sound_rel R → mutate_outcome save_error id v actor R l l' r → wf_ledger l → wf_ledger l'.
Proof.
  intros HR Hm [Hd Hk].
  assert (∀ p c c' t u r, Cards (data l) !! p = Some c → R c r c' →
    wf_data (data (put_slot p c' t l)) ∧ wf_data (data (put_slot p (stamp actor u c') t l))) as Hput.
  { intros p c c' t u r' Hp HRc. destruct (sound_keeps R HR _ _ _ HRc) as [Hid Hproj _ _ _ _].
    pose proof (sound_wf R HR _ _ _ HRc).
    split; eapply wf_put_slot; eauto using wf_stamp. }
  destruct Hm as [|p c ????|p c c' t e ? Hp ? HRc|p c c' t u e ? Hp ? HRc ?|p c c' t u ? Hp ? HRc ?];
    [done..| | |].
  - split; [by apply (Hput p c c' t 0%Z (Err e))|done].
  - apply wf_saved; [by apply (Hput p c c' t u (Ok tt))|done].
  - apply wf_saved; [by apply (Hput p c c' t u (Ok tt))|done].
Qed.

(** ** Creation *)

(** The id [nextID] produces next, the clock having been read once before. *)
Definition fresh_id (clock : nat → time) (prefix : string) (l : Ledger) : string :=
  prefix +:+ "-" +:+ itoa (UnixMilli (clock (S (tick l)))) +:+ "-" +:+ itoa (wrap64 (idSeq l + 1)).

Definition with_new_card (card : Card) (createdBy payload : string) (l : Ledger) : Ledger :=
  mkLedger (mkLedgerData (Projects (data l)) (Cards (data l) ++ [card])
    (if bool_decide (Card_ExternalRequestID card = "") then CreateRequests (data l)
     else CreateRequests (data l) ++
       [mkCreateRequest (Card_ExternalRequestID card) createdBy (Card_ID card) payload
          (Card_CreatedAt card)]))
    (wrap64 (idSeq l + 1)) (S (S (tick l))) (saves l) (disk l).

Definition has_project (pid : string) (ps : list Project) : bool :=
  existsb (λ p, bool_decide (Project_ID p = pid)) ps.

Lemma has_project_iff pid ps : has_project pid ps = true ↔ pid ∈ Project_ID <$> ps.
Proof.
  unfold has_project. rewrite existsb_exists, list_elem_of_fmap.
  setoid_rewrite bool_decide_eq_true. setoid_rewrite list_elem_of_In. naive_solver.
Qed.

Lemma createNewCard_eq clock save_error input title rid by_ payload l :
  createNewCard clock save_error input title rid by_ payload l =
  let pid := target_project input (Projects (data l)) in
  if has_project pid (Projects (data l)) then
    let card := new_card input title rid pid (fresh_id clock "t" l) (clock (tick l)) in
    let l' := with_new_card card by_ payload l in
    match save_error (saves l) with
    | None => (saved true l', Ok card)
    | Some e => (saved false l', Err (ErrSave e))
    end
  else (l, Err ErrProjectNotFound).
Proof.
  unfold createNewCard. cbn zeta.
  set (pid := target_project input (Projects (data l))).
  destruct (bool_decide (TrimSpace (In_ProjectID input) = "")
            && bool_decide (Projects (data l) = [])) eqn:Hnone.
  - bool_prop. unfold mbind, M_bind, gets. cbn.
    rewrite !bool_decide_true by done. simpl. by replace (Projects (data l)) with (@nil Project).
  - unfold mbind, M_bind, gets. cbn. rewrite Hnone. fold pid.
    fold (has_project pid (Projects (data l))).
    destruct (has_project pid (Projects (data l))); [|done]. cbn.
    unfold when, saveLocked, with_new_card, saved, fresh_id, update. cbn.
    destruct (bool_decide (rid = "")); simpl; by destruct (save_error (saves l)).
Qed.

Lemma start_status_in s : start_status s ∈ statuses.
Proof. unfold start_status. case_bool_decide; by apply in_statuses. Qed.

Lemma wf_new_card input title rid pid id t : wf_card (new_card input title rid pid id t).
Proof. apply wf_idle; [apply start_status_in|done|constructor]. Qed.

Lemma wf_with_new_card card by_ payload l :
  wf_card card → Card_ProjectID card ∈ Project_ID <$> Projects (data l) →
  (Card_ExternalRequestID card ≠ "" →
   (Card_ExternalRequestID card, by_) ∉ request_key <$> CreateRequests (data l)) →
  wf_data (data l) → wf_data (data (with_new_card card by_ payload l)).
Proof.
  intros Hc Hp Hfresh [H1 H2 H3 H4].
  assert (Forall (λ r, Req_CardID r ∈ Card_ID <$> (Cards (data l) ++ [card]))
    (CreateRequests (data l))) as H3'.
  { eapply Forall_impl; [exact H3|]. intros r Hr. rewrite fmap_app. apply elem_of_app. by left. }
  split; simpl; [by apply Forall_app_2; [|constructor]..| |].
  - case_bool_decide; [done|]. apply Forall_app_2; [done|]. constructor; [|constructor].
    simpl. rewrite fmap_app. apply elem_of_app. right. by left.
  - case_bool_decide; [done|]. rewrite fmap_app. apply NoDup_app. split_and!; [done| |].
    + intros k Hk ->%list_elem_of_singleton. by apply Hfresh in Hk.
    + apply NoDup_singleton.
Qed.

Lemma wf_createNewCard clock save_error input title rid by_ payload l :
  (rid ≠ "" → (rid, by_) ∉ request_key <$> CreateRequests (data l)) →
  wf_ledger l → wf_ledger (run (createNewCard clock save_error input title rid by_ payload) l).
Proof.
  intros Hfresh [Hd Hk]. unfold run. rewrite createNewCard_eq. cbn zeta.
  destruct (has_project _ _) eqn:Hp; [|done]. apply has_project_iff in Hp.
  destruct (save_error (saves l)); apply wf_saved; try done;
    by apply wf_with_new_card; [apply wf_new_card|..].
Qed.

Lemma find_request_out rid by_ l :
  find_first (λ r, bool_decide (Req_ExternalRequestID r = rid)
    && bool_decide (Req_CreatedBy r = by_)) (CreateRequests (data l)) = None →
  (rid, by_) ∉ request_key <$> CreateRequests (data l).
Proof.
  rewrite find_first_None, Forall_forall. intros Hall Hin.
  apply list_elem_of_fmap in Hin as (r&Hkey&Hr). injection Hkey as -> ->.
  specialize (Hall r Hr). by rewrite !bool_decide_true in Hall.
Qed.

Lemma wf_CreateCard clock save_error payload_hash input :
  preserves wf_ledger (CreateCard clock save_error payload_hash input).
Proof.
  intros l Hl. unfold CreateCard. case_bool_decide; [done|]. case_bool_decide as Hrid.
  { apply wf_createNewCard; [|done]. by rewrite Hrid. }
  rewrite run_bind. cbn [out gets snd run fst]. rewrite run_bind. cbn [out gets snd run fst findCreateRequestLocked compose].
  destruct (find_first _ _) as [rec|] eqn:Hf.
  - rewrite run_bind. cbn [out gets snd run fst compose]. case_match; [|done].
    case_bool_decide; [by rewrite run_load|done].
  - apply wf_createNewCard; [|done]. intros _. by apply find_request_out.
Qed.

(** ** Projects *)

(** A program that rewrites the projects only. *)
Definition projects_to (ps : list Project) (l : Ledger) : Ledger := with_projects (λ _, ps) l.

Lemma wf_projects_change ps l :
  (∀ c, c ∈ Cards (data l) → Card_ProjectID c ∈ Project_ID <$> Projects (data l) →
        Card_ProjectID c ∈ Project_ID <$> ps) →
  wf_ledger l → wf_ledger (projects_to ps l).
Proof.
  intros Hps [[H1 H2 H3 H4] Hk]. split; [|done]. split; try done.
  simpl. rewrite Forall_forall in H2 |- *. auto.
Qed.

Lemma wf_saveLocked save_error : preserves wf_ledger (saveLocked save_error).
Proof.
  intros l [Hd Hk]. unfold run, saveLocked. destruct (save_error (saves l)); [done|].
  split; [done|]. simpl. by intros d [= <-].
Qed.

Lemma wf_nextID clock prefix : preserves wf_ledger (nextID clock prefix).
Proof. by intros l. Qed.

Lemma wf_add_project p : preserves (E:=error) wf_ledger (update (with_projects (λ ps, ps ++ [p]))).
Proof.
  intros l Hl. change (wf_ledger (projects_to (Projects (data l) ++ [p]) l)).
  apply wf_projects_change; [|done]. intros c _ Hin. rewrite fmap_app. apply elem_of_app. by left.
Qed.

(** Renaming a project or changing its directories. *)
Lemma wf_alter_project f idx :
  (∀ p, Project_ID (f p) = Project_ID p) →
  preserves (E:=error) wf_ledger (update (with_projects (alter f idx))).
Proof.
  intros Hf l Hl. change (wf_ledger (projects_to (alter f idx (Projects (data l))) l)).
  apply wf_projects_change; [|done]. intros c _ Hin.
  replace (Project_ID <$> alter f idx (Projects (data l))) with (Project_ID <$> Projects (data l));
    [done|].
  symmetry. rewrite (list_fmap_alter Project_ID f id) by auto using Forall_true.
  by apply list_alter_id.
Qed.

#[export] Hint Resolve wf_saveLocked wf_nextID wf_add_project wf_CreateCard : preserve.
#[export] Hint Extern 1 (preserves wf_ledger (update (with_projects (alter _ _)))) =>
  apply wf_alter_project; done : preserve.
Ltac preserve_step :=
  first
    [ done
    | apply preserves_ret | apply preserves_throw | apply preserves_gets
    | solve [auto with preserve nocore]
    | apply preserves_bind; [|intros ?]
    | apply preserves_when
    | match goal with
      | |- preserves _ (if ?b then _ else _) => destruct b
      | |- preserves _ (match ?o with _ => _ end) => destruct o
      | |- preserves _ (or_throw _ ?o) => destruct o; simpl
      end ].
Ltac preserve := repeat preserve_step.

Lemma wf_CreateProject clock save_error name rootDir extra :
  preserves wf_ledger (CreateProject clock save_error name rootDir extra).
Proof. unfold CreateProject. cbn zeta. preserve. Qed.

Lemma wf_UpdateProject save_error id name workDirs :
  preserves wf_ledger (UpdateProject save_error id name workDirs).
Proof. unfold UpdateProject. cbn zeta. preserve. Qed.

Lemma wf_OpenLedger save_error workspaceDir read_error :
  preserves wf_ledger (OpenLedger save_error workspaceDir read_error).
Proof.
  unfold OpenLedger, ensureDefaultProjectLocked. cbn zeta. preserve.
  intros l [Hd Hk]. split; simpl; [|done].
  destruct (disk l) eqn:Hdisk; simpl; [by apply Hk|]. split; simpl; constructor.
Qed.

(** A project is only removed when no card, deleted ones included, refers to it. *)
Lemma wf_DeleteProject save_error id : preserves wf_ledger (DeleteProject save_error id).
Proof.
  intros l Hl. unfold DeleteProject. rewrite run_bind. cbn [out gets snd run fst compose].
  unfold or_throw. destruct (project_index id _) as [idx|] eqn:Hidx; [|done].
  apply find_index_Some in Hidx as [(p&Hp&Hid%bool_decide_eq_true) _].
  rewrite run_bind. cbn [out mret M_ret snd run fst]. rewrite Hp. rewrite run_bind.
  cbn [out mret M_ret snd run fst]. destruct (Project_BuiltIn p); [done|].
  rewrite run_bind. cbn [out gets snd run fst compose].
  destruct (existsb _ _) eqn:Hused; [done|].
  rewrite run_bind. cbn [out update snd run fst]. apply wf_saveLocked.
  set (ps := take idx (Projects (data l)) ++ drop (S idx) (Projects (data l))).
  change (wf_ledger (projects_to ps l)). apply wf_projects_change; [|done].
  intros c Hc Hin. apply list_elem_of_fmap in Hin as (q&Hq&Hqin). rewrite Hq.
  apply list_elem_of_fmap_2. subst ps.
  rewrite <- (take_drop_middle _ _ _ Hp) in Hqin.
  rewrite elem_of_app, elem_of_cons in Hqin. rewrite elem_of_app.
  destruct Hqin as [?|[->|?]]; auto. exfalso.
  enough (existsb (λ c, bool_decide (Card_ProjectID c = id)) (Cards (data l)) = true) by congruence.
  apply existsb_exists. exists c. split; [by apply list_elem_of_In|].
  apply bool_decide_eq_true. congruence.
Qed.

(** ** Every call on the ledger *)

(** The calls that take the mutex once. *)
Inductive op : Type :=
| OpOpen (workspaceDir : string) (read_error : option string)
| OpCreateProject (name rootDir : string) (extra : list string)
| OpUpdateProject (id name : string) (workDirs : option (list string))
| OpDeleteProject (id : string)
| OpCreateCard (input : CreateCardInput)
| OpUpdateCard (id : string) (v : Z) (actor : string) (input : UpdateCardInput)
| OpMoveCard (id : string) (v : Z) (to actor : string)
| OpCompleteCard (id : string) (v : Z) (actor : string) (force : bool)
| OpAddComment (id : string) (v : Z) (author text : string)
| OpChecklistAdd (id : string) (v : Z) (actor : string) (texts : list string)
| OpChecklistCheck (id : string) (v : Z) (actor : string) (index : Z) (evidence : string)
| OpChecklistUncheck (id : string) (v : Z) (actor : string) (index : Z)
| OpSoftDeleteCard (id : string) (v : Z) (actor : string)
| OpReportObservedPaths (id : string) (v : Z) (actor : string) (paths : list string)
| OpMergePrecheck (id : string) (v : Z) (actor : string)
| OpStartExecution (id exid sid actor : string) (host : option HostRef)
| OpSetExecutionJobSession (id exid job : string)
| OpFinishExecution (id exid status summary : string) (obs : ExecutionObservation)
| OpUpdateObservation (id exid : string) (obs : ExecutionObservation).

(** A call of the API; [CallReject] has two critical sections, with the calls
    of other goroutines in between. *)
Inductive call : Type :=
| Call (o : op)
| CallReject (between : list op) (id : string) (v : Z) (actor reason : string).

Definition forget {A} (m : LM A) : LM unit := _ ← m; mret tt.

(** Runs a call for its effect, its error being handed to its caller only. *)
Definition absorb {A} (m : LM A) : LM unit := λ l, (run m l, Ok tt).

Section Exec.
Context (clock : nat → time) (save_error : nat → option string)
  (payload_hash : createCardFingerprint → string).

Definition exec (o : op) : LM unit :=
  match o with
  | OpOpen w e => OpenLedger save_error w e
  | OpCreateProject name root extra => forget (CreateProject clock save_error name root extra)
  | OpUpdateProject id name dirs => forget (UpdateProject save_error id name dirs)
  | OpDeleteProject id => DeleteProject save_error id
  | OpCreateCard input => forget (CreateCard clock save_error payload_hash input)
  | OpUpdateCard id v a input => forget (UpdateCard clock save_error id v a input)
  | OpMoveCard id v to a => forget (MoveCard clock save_error id v to a)
  | OpCompleteCard id v a force => forget (CompleteCard clock save_error id v a force)
  | OpAddComment id v a text => forget (AddComment clock save_error id v a text)
  | OpChecklistAdd id v a texts => forget (ChecklistAdd clock save_error id v a texts)
  | OpChecklistCheck id v a i ev => forget (ChecklistCheck clock save_error id v a i ev)
  | OpChecklistUncheck id v a i => forget (ChecklistUncheck clock save_error id v a i)
  | OpSoftDeleteCard id v a => forget (SoftDeleteCard clock save_error id v a)
  | OpReportObservedPaths id v a ps => forget (ReportObservedPaths clock save_error id v a ps)
  | OpMergePrecheck id v a => forget (MergePrecheck clock save_error id v a)
  | OpStartExecution id x s a h => forget (StartExecution clock save_error id x s a h)
  | OpSetExecutionJobSession id x j => forget (SetExecutionJobSession clock save_error id x j)
  | OpFinishExecution id x st su obs =>
      forget (FinishExecutionWithObs clock save_error id x st su obs)
  | OpUpdateObservation id x obs => forget (UpdateExecutionObservation clock save_error id x obs)
  end.

Fixpoint exec_all (os : list op) : LM unit :=
  match os with [] => mret tt | o :: os => absorb (exec o) ;; exec_all os end.

Definition exec_call (c : call) : LM unit :=
  match c with
  | Call o => exec o
  | CallReject between id v actor reason =>
      forget (RejectCard clock save_error (exec_all between) id v actor reason)
  end.

(** The ledger after a sequence of calls, whatever each of them returned. *)
Definition after (cs : list call) (l : Ledger) : Ledger :=
  fold_left (λ l c, run (exec_call c) l) cs l.

Lemma run_forget {A} (m : LM A) l : run (forget m) l = run m l.
Proof. unfold forget. rewrite run_bind. by destruct (out m l). Qed.

(** A sound mutation preserves the invariant. *)
Lemma preserves_mutation {A} id v actor R (m : LM A) :
  sound_rel R → (∀ l, ∃ r, mutate_outcome save_error id v actor R l (run m l) r) →
  preserves wf_ledger m.
Proof. intros HR Hm l Hl. destruct (Hm l) as [r ?]. by eapply wf_mutate. Qed.

Lemma wf_MoveCard id v to actor : preserves wf_ledger (MoveCard clock save_error id v to actor).
Proof. eapply preserves_mutation; [apply sound_move|]. eauto using MoveCard_outcome. Qed.

Lemma wf_AddComment id v author text :
  preserves wf_ledger (AddComment clock save_error id v author text).
Proof.
  destruct (decide (TrimSpace text = "")) as [Ht|Ht].
  - intros l Hl. unfold AddComment. by rewrite bool_decide_true.
  - eapply preserves_mutation; [apply (sound_comment author (TrimSpace text))|].
    eauto using AddComment_outcome.
Qed.

Lemma wf_at_current {id actor ok R early m} :
  (ok → sound_rel R) → at_current_version save_error id actor ok R early m → preserves wf_ledger m.
Proof.
  intros HR Hm l Hl. destruct (Hm l) as [(->&_)|(_&Hok&Ho)]; [done|].
  eapply wf_mutate; eauto.
Qed.

Lemma wf_exec o : preserves wf_ledger (exec o).
Proof.
  intros l Hl. destruct o; simpl; rewrite ?run_forget.
  - by apply wf_OpenLedger.
  - by apply wf_CreateProject.
  - by apply wf_UpdateProject.
  - by apply wf_DeleteProject.
  - by apply wf_CreateCard.
  - eapply wf_mutate; [apply sound_update|apply UpdateCard_outcome|done].
  - by apply wf_MoveCard.
  - eapply wf_mutate; [apply sound_complete|apply CompleteCard_outcome|done].
  - by apply wf_AddComment.
  - eapply wf_mutate; [apply sound_checklist_add|apply ChecklistAdd_outcome|done].
  - eapply wf_mutate; [apply sound_checklist_set|apply ChecklistCheck_outcome|done].
  - eapply wf_mutate; [apply sound_checklist_set|apply ChecklistUncheck_outcome|done].
  - eapply wf_mutate; [apply sound_delete|apply SoftDeleteCard_outcome|done].
  - eapply wf_mutate; [apply sound_observed|apply ReportObservedPaths_outcome|done].
  - destruct (MergePrecheck_outcome clock save_error id v actor l) as (r&Ho&_).
    eapply wf_mutate; [apply sound_merge|apply Ho|done].
  - eapply wf_mutate; [apply sound_start|apply StartExecution_outcome|done].
  - destruct (SetExecutionJobSession_outcome clock save_error id exid job l) as [(->&_)|Ho];
      [done|]. eapply wf_mutate; [apply sound_job_session|apply Ho|done].
  - eapply wf_at_current, Hl; [|apply FinishExecutionWithObs_outcome].
    intros Hst. apply sound_finish. intros ->. revert Hst.
    by rewrite !elem_of_cons, elem_of_nil; intros [|[|[|]]].
  - eapply wf_at_current, Hl; [|apply UpdateExecutionObservation_outcome].
    intros _. apply sound_observe.
Qed.

Lemma wf_exec_all os : preserves wf_ledger (exec_all os).
Proof.
  induction os as [|o os IH]; simpl; [apply preserves_ret|].
  apply preserves_bind; [|done]. intros l Hl. by apply wf_exec.
Qed.

Lemma wf_exec_call c : preserves wf_ledger (exec_call c).
Proof.
  destruct c as [o|between id v actor reason]; [apply wf_exec|].
  intros l Hl. simpl. rewrite run_forget. revert l Hl. change (preserves wf_ledger
    (RejectCard clock save_error (exec_all between) id v actor reason)).
  unfold RejectCard. apply preserves_bind; [apply wf_MoveCard|]. intros card.
  case_bool_decide; [apply preserves_ret|].
  apply preserves_bind; [apply wf_exec_all|]. intros _. apply wf_AddComment.
Qed.

Lemma wf_after cs l : wf_ledger l → wf_ledger (after cs l).
Proof. revert l. induction cs as [|c cs IH]; intros l Hl; [done|]. by apply IH, wf_exec_call. Qed.

End Exec.

(** A ledger before the first [OpenLedger], with no file on disk. *)
Definition fresh_ledger : Ledger := mkLedger (mkLedgerData [] [] []) 0 0 0 None.

Lemma wf_fresh : wf_ledger fresh_ledger.
Proof. split; [split; simpl; constructor|done]. Qed.
