(* ===== verification/TaskBoard.v ===== *)
(** * Task board: the properties of the ledger

    The theorems about the whole API of the ledger: invariant, human gate,
    optimistic concurrency, durability, atomicity of refusals, idempotent
    creation, kanban moves, dispatch gate and listing. *)
From S2P Require Import Prelude GoStrings TaskTypes TaskConflicts TaskLedger TaskLedgerSpec TaskLedgerInv.
From Stdlib Require Import ZArith Lia.

(** ** Classification of the calls *)

(** The card and the version a caller names in a guarded write. *)
Definition target (o : op) : option (string * Z) :=
  match o with
  | OpUpdateCard id v _ _ | OpMoveCard id v _ _ | OpCompleteCard id v _ _
  | OpAddComment id v _ _ | OpChecklistAdd id v _ _ | OpChecklistCheck id v _ _ _
  | OpChecklistUncheck id v _ _ | OpSoftDeleteCard id v _ | OpReportObservedPaths id v _ _
  | OpMergePrecheck id v _ => Some (id, v)
  | _ => None
  end.

(** The transition of the card behind a call, where the call mutates one. *)
Definition transition (o : op) : card_rel :=
  match o with
  | OpUpdateCard _ _ _ input => edits (apply_update input)
  | OpMoveCard id _ to a => move_rel id (TrimSpace to) a
  | OpCompleteCard _ _ _ force => guarded (complete_guard force) (λ c c', ∃ t, c' = completed t c)
  | OpAddComment _ _ a text => λ c r c', ∃ t, edits (λ c,
      set_Comments (Card_Comments c ++ [mkComment a (TrimSpace text) t]) c) c r c'
  | OpChecklistAdd _ _ _ _ => checklist_add_rel
  | OpChecklistCheck _ _ _ i ev => guarded (index_guard i) (λ c c',
      c' = set_Checklist (alter (λ x, mkChecklistItem (Item_Text x) true (TrimSpace ev))
             (Z.to_nat i) (Card_Checklist c)) c)
  | OpChecklistUncheck _ _ _ i => guarded (index_guard i) (λ c c',
      c' = set_Checklist (alter (λ x, mkChecklistItem (Item_Text x) false "")
             (Z.to_nat i) (Card_Checklist c)) c)
  | OpSoftDeleteCard _ _ _ =>
      guarded running_guard (λ c c', c' = set_Holder "" (set_Deleted true c))
  | OpReportObservedPaths _ _ _ paths => edits (λ c,
      if decide (normalizeTouchedPaths paths = []) then c
      else set_ObservedPaths (normalizeTouchedPaths
             (Card_ObservedPaths c ++ normalizeTouchedPaths paths)) c)
  | OpMergePrecheck _ _ _ => λ c r c', ∃ mr, edits (set_MergeReport mr) c r c'
  | OpStartExecution _ exid sid _ host =>
      guarded running_guard (λ c c', ∃ t1 t2, c' = started exid sid host t1 t2 c)
  | OpSetExecutionJobSession _ exid job => job_session_rel exid (TrimSpace job)
  | OpFinishExecution id exid status summary obs => λ c r c',
      status ≠ ExecutionRunning ∧ finish_rel id exid status summary obs c r c'
  | OpUpdateObservation id exid obs => observe_rel id exid obs
  | _ => λ _ _ _, False
  end.

Lemma transition_sound o : sound_rel (transition o).
Proof.
  destruct o; simpl; try (by split; intros ??? []);
    [apply sound_update|apply sound_move|apply sound_complete|apply sound_comment
    |apply sound_checklist_add|apply sound_checklist_set|apply sound_checklist_set
    |apply sound_delete|apply sound_observed|apply sound_merge|apply sound_start
    |apply sound_job_session| |apply sound_observe].
  split; intros c r c' [Hst Hr]; destruct (sound_finish id exid status summary obs Hst); eauto.
Qed.

Section Classify.
Context (clock : nat → time) (save_error : nat → option string)
  (payload_hash : createCardFingerprint → string).
#[local] Abbreviation exec := (exec clock save_error payload_hash).

(** What a call did to the cards, when it got past its own arguments. *)
Definition mutated (o : op) (l : Ledger) : Prop :=
  ∃ id v actor r, mutate_outcome save_error id v actor (transition o) l (run (exec o) l) r
    ∧ out (exec o) l = match r with Ok _ => Ok tt | Err e => Err e end
    ∧ match target o with Some t => t = (id, v) | None => v = current_version id l end.

Lemma out_forget {A} (m : LM A) l :
  out (forget m) l = match out m l with Ok _ => Ok tt | Err e => Err e end.
Proof. unfold forget. rewrite out_bind. by destruct (out m l). Qed.

Lemma mutated_intro {A} o (m : LM A) id v actor l r :
  exec o = forget m → mutate_outcome save_error id v actor (transition o) l (run m l) r →
  match out m l with Ok _ => @Ok error unit tt | Err e => Err e end
    = match r with Ok _ => Ok tt | Err e => Err e end →
  match target o with Some t => t = (id, v) | None => v = current_version id l end →
  mutated o l.
Proof.
  intros He Hm Hr Ht. exists id, v, actor, r.
  rewrite He, run_forget, out_forget. by split_and!.
Qed.

Ltac by_outcome tac :=
  right; eapply mutated_intro; [reflexivity|tac|reflexivity|done].

(** Of a call that concerns an existing card: rejected or answered without a
    change, or a mutation by its transition. *)
Lemma exec_card o l :
  match o with
  | OpOpen _ _ | OpCreateProject _ _ _ | OpUpdateProject _ _ _ | OpDeleteProject _
  | OpCreateCard _ => True
  | _ => run (exec o) l = l ∧ (target o ≠ None → out (exec o) l = Err ErrCommentRequired) ∨ mutated o l
  end.
Proof.
  destruct o; try done.
  - by_outcome ltac:(apply UpdateCard_outcome).
  - by_outcome ltac:(apply MoveCard_outcome).
  - by_outcome ltac:(apply CompleteCard_outcome).
  - destruct (decide (TrimSpace text = "")) as [Ht|Ht].
    + left. simpl. rewrite run_forget, out_forget. unfold AddComment.
      by rewrite bool_decide_true.
    + right. eapply mutated_intro; [reflexivity|by apply AddComment_outcome|reflexivity|done].
  - by_outcome ltac:(apply ChecklistAdd_outcome).
  - by_outcome ltac:(apply ChecklistCheck_outcome).
  - by_outcome ltac:(apply ChecklistUncheck_outcome).
  - by_outcome ltac:(apply SoftDeleteCard_outcome).
  - by_outcome ltac:(apply ReportObservedPaths_outcome).
  - right. destruct (MergePrecheck_outcome clock save_error id v actor l) as (r&Hm&Hr).
    eapply mutated_intro; [reflexivity|apply Hm| |done]. rewrite Hr. by destruct r.
  - by_outcome ltac:(apply StartExecution_outcome).
  - destruct (SetExecutionJobSession_outcome clock save_error id exid job l) as [[Hr _]|Hm].
    + left. simpl. by rewrite run_forget, Hr.
    + right. by eapply mutated_intro; [reflexivity|apply Hm|reflexivity|].
  - destruct (FinishExecutionWithObs_outcome clock save_error id exid status summary obs l)
      as [[Hr _]|(_&Hst&Hm)].
    + left. simpl. by rewrite run_forget, Hr.
    + right. eapply mutated_intro; [reflexivity| |reflexivity|done].
      assert (status ≠ ExecutionRunning) as Hne.
      { intros ->. revert Hst. by rewrite !elem_of_cons, elem_of_nil; intros [|[|[|]]]. }
      eapply mutate_outcome_mono, Hm. by intros c r c'.
  - destruct (UpdateExecutionObservation_outcome clock save_error id exid obs l)
      as [[Hr _]|(_&_&Hm)].
    + left. simpl. by rewrite run_forget, Hr.
    + right. by eapply mutated_intro; [reflexivity|apply Hm|reflexivity|].
Qed.

(** The calls with an explicit version. *)
Lemma exec_guarded o id v l :
  target o = Some (id, v) →
  run (exec o) l = l ∧ out (exec o) l = Err ErrCommentRequired ∨
  ∃ actor r, mutate_outcome save_error id v actor (transition o) l (run (exec o) l) r
    ∧ out (exec o) l = match r with Ok _ => Ok tt | Err e => Err e end.
Proof.
  intros Ht. pose proof (exec_card o l) as Hex. destruct o; try done;
    (destruct Hex as [[Hl He]|(i&w&a&r&Hm&Ho&Htg)];
      [left; split; [done|]; apply He; by rewrite Ht
      |right; rewrite Ht in Htg; injection Htg as <- <-; by exists a, r]).
Qed.

End Classify.

(** ** What the calls do to the card slice *)

(** The project calls leave the cards alone. *)
Lemma cards_CreateProject clock save_error name root extra cs :
  preserves (λ l, Cards (data l) = cs) (CreateProject clock save_error name root extra).
Proof.
  unfold CreateProject, saveLocked. cbn zeta. preserve; intros l Hl; try done.
  unfold run. by destruct (save_error (saves l)).
Qed.

Lemma cards_UpdateProject save_error id name dirs cs :
  preserves (λ l, Cards (data l) = cs) (UpdateProject save_error id name dirs).
Proof.
  unfold UpdateProject, saveLocked. cbn zeta. preserve; intros l Hl; try done.
  unfold run. by destruct (save_error (saves l)).
Qed.

Lemma cards_DeleteProject save_error id cs :
  preserves (λ l, Cards (data l) = cs) (DeleteProject save_error id).
Proof.
  unfold DeleteProject, saveLocked. cbn zeta. preserve; intros l Hl; try done.
  unfold run. by destruct (save_error (saves l)).
Qed.

(** [CreateCard] answers from an earlier request, refuses, or appends one card. *)
Inductive create_outcome clock save_error (input : CreateCardInput) (payload : string)
    (l : Ledger) : Ledger * result error Card → Prop :=
| create_refused e : create_outcome clock save_error input payload l (l, Err e)
| create_replayed r p c :
    TrimSpace (In_ExternalRequestID input) ≠ "" → TrimSpace (In_Title input) ≠ "" →
    find_first (λ r, bool_decide (Req_ExternalRequestID r = TrimSpace (In_ExternalRequestID input))
      && bool_decide (Req_CreatedBy r = TrimSpace (In_CreatedBy input))) (CreateRequests (data l))
    = Some r →
    Req_PayloadHash r = payload →
    card_index (Req_CardID r) l = Some p → Cards (data l) !! p = Some c →
    create_outcome clock save_error input payload l (l, Ok c)
| create_new title payload' :
    title = TrimSpace (In_Title input) → title ≠ "" →
    (TrimSpace (In_ExternalRequestID input) ≠ "" → payload' = payload ∧
      (TrimSpace (In_ExternalRequestID input), TrimSpace (In_CreatedBy input))
      ∉ request_key <$> CreateRequests (data l)) →
    let pid := target_project input (Projects (data l)) in
    has_project pid (Projects (data l)) = true →
    let card := new_card input title (TrimSpace (In_ExternalRequestID input)) pid
                  (fresh_id clock "t" l) (clock (tick l)) in
    let l' := with_new_card card (TrimSpace (In_CreatedBy input)) payload' l in
    create_outcome clock save_error input payload l
      (match save_error (saves l) with
       | None => (saved true l', Ok card)
       | Some e => (saved false l', Err (ErrSave e))
       end).

Lemma createNewCard_outcome clock save_error input title payload payload' l :
  title = TrimSpace (In_Title input) → title ≠ "" →
  (TrimSpace (In_ExternalRequestID input) ≠ "" → payload' = payload ∧
    (TrimSpace (In_ExternalRequestID input), TrimSpace (In_CreatedBy input))
    ∉ request_key <$> CreateRequests (data l)) →
  create_outcome clock save_error input payload l
    (createNewCard clock save_error input title (TrimSpace (In_ExternalRequestID input))
      (TrimSpace (In_CreatedBy input)) payload' l).
Proof.
  intros Ht Ht' Hr. rewrite createNewCard_eq. cbn zeta.
  destruct (has_project _ _) eqn:Hp; [by eapply create_new|constructor].
Qed.

Lemma CreateCard_outcome clock save_error payload_hash input l :
  create_outcome clock save_error input
    (createCardPayloadHash payload_hash input (TrimSpace (In_Title input)) (Projects (data l))) l
    (CreateCard clock save_error payload_hash input l).
Proof.
  unfold CreateCard. case_bool_decide as Ht; [constructor|].
  case_bool_decide as Hrid.
  { by apply createNewCard_outcome. }
  unfold mbind, M_bind. cbn. destruct (find_first _ _) as [r|] eqn:Hf.
  - fold (card_index (Req_CardID r) l). destruct (card_index (Req_CardID r) l) as [p|] eqn:Hp;
      [|constructor]. case_bool_decide as Hh; [|constructor].
    destruct (card_index_Some _ _ _ Hp) as (c&Hc&_).
    assert (load p l = (l, Ok c)) as ->.
    { rewrite (surjective_pairing (load p l)). f_equal; [apply run_load|by apply out_load]. }
    eapply create_replayed; eauto.
  - apply createNewCard_outcome; [done..|]. intros _. split; [done|]. by apply find_request_out.
Qed.

(** ** Invariant *)

(** C1: whatever calls are made on a ledger, in any order, with any clock and
    any failures of the saves and reads, reopening included, the document in
    memory and the document on disk stay well formed: every card is in one of
    the five columns, a held or running card is in progress, at most one
    execution of a card runs, every card belongs to an existing project, and
    an idempotency key names one existing card. *)
Theorem ledger_invariant clock save_error payload_hash calls :
  wf_ledger (after clock save_error payload_hash calls fresh_ledger).
Proof. apply wf_after, wf_fresh. Qed.

(** ** Human gate *)

Definition open_items (c : Card) : Prop := ¬ Forall (λ i, Item_Done i = true) (Card_Checklist c).

Lemma complete_guard_None force c :
  complete_guard force c = None ↔
  Card_Status c = StatusInReview ∧ (force = true ∨ ¬ open_items c).
Proof.
  unfold complete_guard, open_items. rewrite ChecklistProgress_spec.
  assert (length (filter (λ i, Item_Done i = true) (Card_Checklist c)) < length (Card_Checklist c)
    ↔ ¬ Forall (λ i, Item_Done i = true) (Card_Checklist c)) as Hlt.
  { induction (Card_Checklist c) as [|i l IH]; simpl; [split; [lia|intros []; constructor]|].
    rewrite filter_cons, Forall_cons. pose proof (length_filter (λ i, Item_Done i = true) l).
    case_decide; simpl; [|intuition lia]. rewrite <- Nat.succ_lt_mono, IH. tauto. }
  repeat case_decide; destruct force; intuition (try done; try congruence).
Qed.

(** No transition but completion leads to [done]. *)
Lemma transition_done o c r c' :
  transition o c r c' → Card_Status c' = StatusDone → Card_Status c = StatusDone ∨
  ∃ id v actor force, o = OpCompleteCard id v actor force ∧ complete_guard force c = None.
Proof.
  intros Ht Hd. destruct o; simpl in Ht; try done; unfold edits, guarded in Ht.
  - left. destruct Ht as [_ ->]. destruct (same_run_update input c) as (_&<-&_). done.
  - left. unfold move_rel, guarded in Ht. destruct (move_guard _ _ _ c) eqn:Hg.
    + by destruct Ht as [_ ->].
    + apply move_guard_None in Hg as (Hnd&_). destruct Ht as (_&t&mr&->).
      revert Hd. unfold moved. by repeat case_decide.
  - destruct (complete_guard force c) eqn:Hg; [left; by destruct Ht as [_ ->]|right; by eauto 8].
  - left. by destruct Ht as (t&_&->).
  - left. by destruct Ht as (items&->&_).
  - left. by destruct (index_guard _ c); destruct Ht as [_ ->].
  - left. by destruct (index_guard _ c); destruct Ht as [_ ->].
  - left. by destruct (running_guard c); destruct Ht as [_ ->].
  - left. destruct Ht as [_ ->]. by case_decide.
  - left. by destruct Ht as (mr&_&->).
  - left. destruct (running_guard c); [by destruct Ht as [_ ->]|].
    by destruct Ht as (_&t1&t2&->).
  - left. by destruct Ht as [_ ->].
  - left. destruct Ht as [_ Ht]. unfold finish_rel, guarded in Ht.
    destruct (execution_guard _ _ c); [by destruct Ht as [_ ->]|].
    destruct Ht as (_&x&t1&t2&_&->). revert Hd. unfold finished. cbn zeta. by case_bool_decide.
  - left. unfold observe_rel, guarded in Ht.
    destruct (execution_guard _ _ c); [by destruct Ht as [_ ->]|].
    by destruct Ht as (_&t&->).
Qed.

(** How a mutation changes one slot of the cards. *)
Lemma mutate_slot save_error id v actor R l l' r q c' :
  sound_rel R → mutate_outcome save_error id v actor R l l' r → Cards (data l') !! q = Some c' →
  ∃ c, Cards (data l) !! q = Some c ∧
    (c' = c ∨ Card_ID c = id ∧ Card_Version c = v ∧
      ∃ r c1, R c r c1 ∧ Card_ID c' = Card_ID c1 ∧ Card_Status c' = Card_Status c1).
Proof.
  intros HR Hm Hq.
  assert (∀ p c r c1 c2, card_index id l = Some p → Cards (data l) !! p = Some c →
    Card_Version c = v → R c r c1 → Card_ID c2 = Card_ID c1 → Card_Status c2 = Card_Status c1 →
    <[p:=c2]> (Cards (data l)) !! q = Some c' → ∃ c, Cards (data l) !! q = Some c ∧
    (c' = c ∨ Card_ID c = id ∧ Card_Version c = v ∧
      ∃ r c1, R c r c1 ∧ Card_ID c' = Card_ID c1 ∧ Card_Status c' = Card_Status c1)) as Hput.
  { intros p c r1 c1 c2 Hi Hp Hv HRc Hid Hst [(->&<-&_)|(Hne&Hq')]%list_lookup_insert_Some.
    - exists c. split; [done|]. right. destruct (card_index_Some _ _ _ Hi) as (?&Hp'&Hcid).
      simplify_eq. eauto 10.
    - exists c'. auto. }
  destruct Hm as [|p c ????|p c c1 t e Hi Hp Hv HRc|p c c1 t u e Hi Hp Hv HRc _|p c c1 t u Hi Hp Hv HRc _];
    [eauto|eauto| | |].
  - exact (Hput p c _ c1 c1 Hi Hp Hv HRc eq_refl eq_refl Hq).
  - exact (Hput p c _ c1 (stamp actor u c1) Hi Hp Hv HRc eq_refl eq_refl Hq).
  - exact (Hput p c _ c1 (stamp actor u c1) Hi Hp Hv HRc eq_refl eq_refl Hq).
Qed.

(** C2: a card reaches the [done] column only through [CompleteCard], from
    [in_review], at the version the caller read, and with every checklist
    item ticked unless forced; no other call, agent-facing or not, puts a card
    in [done]. *)
Theorem done_gate clock save_error payload_hash o l q c' :
  (∀ w e, o ≠ OpOpen w e) →
  Cards (data (run (exec clock save_error payload_hash o) l)) !! q = Some c' →
  Card_Status c' = StatusDone →
  ∃ c, Cards (data l) !! q = Some c ∧ Card_ID c = Card_ID c' ∧
    (Card_Status c = StatusDone ∨
     Card_Status c = StatusInReview ∧
     ∃ actor force, o = OpCompleteCard (Card_ID c) (Card_Version c) actor force ∧
       (force = true ∨ ¬ open_items c)).
Proof.
  intros Hopen Hq Hd. pose proof (exec_card clock save_error payload_hash o l) as Hex.
  assert (run (exec clock save_error payload_hash o) l = l ∨ mutated clock save_error payload_hash o l ∨
    Cards (data (run (exec clock save_error payload_hash o) l)) = Cards (data l) ∨
    ∃ input, o = OpCreateCard input) as Ho.
  { destruct o; try (destruct Hex as [[? _]|?]; by auto); [by edestruct Hopen| | | |by eauto];
      right; right; left; simpl; rewrite ?run_forget;
      [by apply cards_CreateProject|by apply cards_UpdateProject|by apply cards_DeleteProject]. }
  destruct Ho as [Hl|[(id&v&actor&r&Hm&_&Htgt)|[Hl|[input ->]]]].
  - rewrite Hl in Hq. eauto.
  - destruct (mutate_slot _ _ _ _ _ _ _ _ _ _ (transition_sound o) Hm Hq)
      as (c&Hc&[->|(Hid&Hv&r1&c1&Ht&Hi1&Hs1)]); [by eauto|].
    exists c. split; [done|]. split.
    { rewrite Hi1. by rewrite (keeps_id _ _ (sound_keeps _ (transition_sound o) _ _ _ Ht)). }
    rewrite Hs1 in Hd. destruct (transition_done _ _ _ _ Ht Hd) as [?|(i&w&a&f&->&Hg)]; [by left|].
    right. apply complete_guard_None in Hg as [Hst Hf]. split; [done|].
    simpl in Htgt. injection Htgt as -> ->. subst id v. eauto.
  - rewrite Hl in Hq. eauto.
  - simpl in Hq. rewrite run_forget in Hq. revert Hq. unfold run.
    destruct (CreateCard_outcome clock save_error payload_hash input l)
      as [e|r p c|title payload' Ht ? Hf pid Hp card l']; [by eauto..|].
    intros Hq. assert ((Cards (data l) ++ [card]) !! q = Some c') as Hq'
      by (by destruct (save_error (saves l))).
    apply lookup_app_Some in Hq' as [?|[_ Hq']]; [by eauto|].
    apply list_lookup_singleton_Some in Hq' as [_ <-]. simpl in Hd.
    unfold start_status in Hd. by case_bool_decide.
Qed.

Lemma done_gate_witness :
  let card := new_card (mkCreateCardInput "p" "a" "" "" "" "" [] "u" "todo" [] "" None "")
                "a" "" "p" "t-1" 0%Z in
  let l := mkLedger (mkLedgerData [mkProject "p" "P" ["/"] true] [set_Status "in_review" card] [])
             0 0 0 None in
  let o := OpCompleteCard "t-1" 1 "human" false in
  let ex := exec (λ _, 0%Z) (λ _, None) (λ _, "") in
  (Card_Status <$> Cards (data (run (ex o) l)) !! 0) = Some StatusDone ∧
  ∃ c, Cards (data l) !! 0 = Some c ∧ Card_Status c ≠ StatusDone ∧ Card_Status c = StatusInReview.
Proof.
  intros card l o ex. split; [vm_compute; reflexivity|].
  destruct (Cards (data (run (ex o) l)) !! 0) as [c'|] eqn:Hq; [|vm_compute in Hq; discriminate].
  assert (Card_Status c' = StatusDone) as Hd.
  { enough (Card_Status <$> Some c' = Some StatusDone) as H by (injection H; done).
    rewrite <- Hq. vm_compute. reflexivity. }
  destruct (done_gate (λ _, 0%Z) (λ _, None) (λ _, "") o l 0 c') as (c&Hc&_&[H|[H _]]);
    [intros; discriminate|exact Hq|exact Hd| |].
  - injection Hc as <-. discriminate H.
  - exists c. split; [exact Hc|]. split; [rewrite H; discriminate|exact H].
Defined.

(** ** Optimistic concurrency *)

Lemma card_index_put id p c c' t l :
  Cards (data l) !! p = Some c → Card_ID c' = Card_ID c →
  card_index id (put_slot p c' t l) = card_index id l.
Proof.
  intros Hp Hid. unfold card_index. simpl.
  pose proof (find_index_fmap (λ i, bool_decide (i = id)) Card_ID) as Hf. cbn in Hf.
  rewrite <- !Hf.
  by rewrite (fmap_insert_same Card_ID _ _ _ _ Hp Hid).
Qed.

(** A successful guarded write left the next version in the card's slot. *)
Lemma mutate_saved_slot save_error id v actor R l l' c' :
  sound_rel R → mutate_outcome save_error id v actor R l l' (Ok c') →
  ∃ p, card_index id l' = Some p ∧ Cards (data l') !! p = Some c' ∧ Card_ID c' = id ∧
       Card_Version c' = wrap64 (v + 1) ∧ disk l' = Some (data l').
Proof.
  intros HR Hm. inversion Hm as [| | | |p c c1 t u Hi Hp Hv HRc Hs]; subst.
  destruct (sound_keeps R HR _ _ _ HRc) as [Hid _ Hver _ _ _].
  destruct (card_index_Some _ _ _ Hi) as (?&Hp'&Hcid). simplify_eq.
  exists p. split_and!.
  - change (card_index (Card_ID c) (put_slot p (stamp actor u c1) t l) = Some p).
    by rewrite (card_index_put _ _ _ _ _ _ Hp).
  - simpl. apply list_lookup_insert_eq. by eapply lookup_lt_Some.
  - done.
  - unfold stamp. simpl. by rewrite Hver.
  - done.
Qed.

(** Of two writers that read the same version of a card, at most one
    succeeds: after a successful guarded write at version [v], every guarded
    write of any kind at [v] is rejected and changes nothing, and the card
    carries the next version. *)
Theorem single_winner clock save_error payload_hash o1 o2 id v l :
  let exec := exec clock save_error payload_hash in
  is_int v → target o1 = Some (id, v) → target o2 = Some (id, v) →
  out (exec o1) l = Ok tt →
  let l1 := run (exec o1) l in
  current_version id l1 = wrap64 (v + 1) ∧ run (exec o2) l1 = l1 ∧ ∃ e, out (exec o2) l1 = Err e.
Proof.
  intros ex Hv Ht1 Ht2 Hok l1.
  subst ex. destruct (exec_guarded clock save_error payload_hash o1 id v l Ht1)
    as [[_ He]|(actor&r&Hm&Hr)]; [congruence|].
  rewrite Hok in Hr. destruct r as [c|]; [|done].
  destruct (mutate_saved_slot _ _ _ _ _ _ _ _ (transition_sound o1) Hm) as (p&Hi&Hp&_&Hcv&_).
  fold l1 in Hi, Hp. rewrite (current_version_lookup _ _ _ _ Hi Hp), Hcv. split; [done|].
  destruct (exec_guarded clock save_error payload_hash o2 id v l1 Ht2)
    as [[? ?]|(a2&r2&Hm2&Hr2)]; [by eauto|]. rewrite Hr2.
  pose proof (wrap64_succ_ne v Hv) as Hne.
  inversion Hm2 as [|p' c' Hi' Hp' Hv'|p' c' ? ? ? Hi' Hp' Hv'|p' c' ? ? ? ? Hi' Hp' Hv'
    |p' c' ? ? ? Hi' Hp' Hv']; subst; simplify_eq; try (by exfalso; apply Hne; congruence); eauto.
Qed.

Lemma single_winner_witness :
  let card := new_card (mkCreateCardInput "p" "a" "" "" "" "" [] "u" "todo" [] "" None "")
                "a" "" "p" "t-1" 0%Z in
  let l := mkLedger (mkLedgerData [mkProject "p" "P" ["/"] true] [card] []) 0 0 0 None in
  let ex := exec (λ _, 0%Z) (λ _, None) (λ _, "") in
  let o1 := OpMoveCard "t-1" 1 "in_progress" "s1" in
  let o2 := OpMoveCard "t-1" 1 "in_progress" "s2" in
  out (ex o1) l = Ok tt ∧ ∃ e, out (ex o2) (run (ex o1) l) = Err e.
Proof.
  intros card l ex o1 o2. split; [vm_compute; reflexivity|].
  apply (single_winner (λ _, 0%Z) (λ _, None) (λ _, "") o1 o2 "t-1" 1 l);
    [unfold is_int, int_min, int_max; lia|vm_compute; reflexivity..].
Defined.

(** ** Durability and atomicity *)

Definition in_sync (l : Ledger) : Prop := disk l = Some (data l).

Lemma sync_save save_error : establishes in_sync (saveLocked save_error).
Proof. intros l. unfold run, out, saveLocked. by destruct (save_error (saves l)). Qed.

Ltac establish :=
  repeat first
    [ done
    | apply establishes_throw | apply sync_save
    | apply establishes_bind_read; [apply sync_save|done]
    | match goal with
      | |- establishes _ (_ ≫= _) => apply establishes_bind; intros ?
      | |- establishes _ (if ?b then _ else _) => destruct b
      | |- establishes _ (match ?o with _ => _ end) => destruct o
      end ].

Lemma sync_OpenLedger save_error w e : establishes in_sync (OpenLedger save_error w e).
Proof. unfold OpenLedger. establish. Qed.

Lemma sync_CreateProject clock save_error name root extra :
  establishes in_sync (CreateProject clock save_error name root extra).
Proof. unfold CreateProject. cbn zeta. establish. Qed.

Lemma sync_UpdateProject save_error id name dirs :
  establishes in_sync (UpdateProject save_error id name dirs).
Proof.
  unfold UpdateProject. cbn zeta. do 3 (apply establishes_bind; intros ?).
  case_match; [done|]. do 2 (apply establishes_bind; intros ?).
  apply establishes_bind_read; [apply sync_save|].
  intros [] l. rewrite run_bind. simpl. unfold or_throw. by destruct (_ !! _).
Qed.

Lemma sync_DeleteProject save_error id : establishes in_sync (DeleteProject save_error id).
Proof. unfold DeleteProject. establish. Qed.

Lemma sync_CreateCard clock save_error payload_hash input l :
  in_sync l → is_ok (out (CreateCard clock save_error payload_hash input) l) = true →
  in_sync (run (CreateCard clock save_error payload_hash input) l).
Proof.
  unfold run, out. intros Hl.
  destruct (CreateCard_outcome clock save_error payload_hash input l); [done..|].
  by destruct (save_error (saves l)).
Qed.

Lemma establishes_forget {A} (P : Ledger → Prop) (m : LM A) :
  establishes P m → establishes P (forget m).
Proof. intros Hm. by apply establishes_bind_read. Qed.

(** When a call succeeds, what it did is on disk: memory and file agree
    after every successful call on a ledger on which they agreed before. *)
Theorem success_is_durable clock save_error payload_hash o l :
  in_sync l → out (exec clock save_error payload_hash o) l = Ok tt →
  in_sync (run (exec clock save_error payload_hash o) l).
Proof.
  intros Hl Hok. pose proof (exec_card clock save_error payload_hash o l) as Hex.
  assert (run (exec clock save_error payload_hash o) l = l ∨
    mutated clock save_error payload_hash o l ∨
    in_sync (run (exec clock save_error payload_hash o) l)) as [->|[(id&v&a&r&Hm&Hr&_)|?]]; try done.
  - assert (is_ok (out (exec clock save_error payload_hash o) l) = true) as Hk by (by rewrite Hok).
    destruct o; try (destruct Hex as [[? _]|?]; by auto); right; right.
    + by apply sync_OpenLedger.
    + by apply (establishes_forget in_sync), Hk; apply sync_CreateProject.
    + by apply (establishes_forget in_sync), Hk; apply sync_UpdateProject.
    + by apply sync_DeleteProject.
    + simpl in *. rewrite run_forget, out_forget in *. apply sync_CreateCard; [done|].
      by destruct (out _ l).
  - rewrite Hok in Hr. destruct r as [c|]; [|done].
    by destruct (mutate_saved_slot _ _ _ _ _ _ _ _ (transition_sound o) Hm) as (?&?&?&?&?&?).
Qed.

Lemma success_is_durable_witness :
  let ex := exec (λ _, 0%Z) (λ _, None) (λ _, "") in
  let l := run (ex (OpOpen "/w" None)) fresh_ledger in
  let o := OpCreateProject "P" "/p" [] in
  in_sync l ∧ out (ex o) l = Ok tt ∧ in_sync (run (ex o) l).
Proof.
  intros ex l o. split; [reflexivity|]. split; [vm_compute; reflexivity|].
  apply (success_is_durable (λ _, 0%Z) (λ _, None) (λ _, "") o l); [reflexivity|].
  vm_compute; reflexivity.
Defined.

(** Programs that leave the documents alone, that fail only in the save, and
    that leave the documents alone when they fail otherwise. *)
Definition same_doc (l l' : Ledger) : Prop := data l' = data l ∧ disk l' = disk l.
Definition quiet {A} (m : LM A) : Prop := ∀ l, same_doc l (run m l).
Definition save_fails_only {A} (m : LM A) : Prop :=
  ∀ l e, out m l = Err e → ∃ s, e = ErrSave s.
Definition clean {A} (m : LM A) : Prop :=
  ∀ l e, out m l = Err e → (∀ s, e ≠ ErrSave s) → same_doc l (run m l).

Lemma clean_quiet {A} (m : LM A) : quiet m → clean m.
Proof. intros Hm l e _ _. apply Hm. Qed.

Lemma clean_bind {A B} (m : LM A) (k : A → LM B) : quiet m → (∀ a, clean (k a)) → clean (m ≫= k).
Proof.
  intros Hm Hk l e. rewrite run_bind, out_bind. destruct (Hm l) as [H1 H2].
  destruct (out m l) as [a|]; [|done]. intros Ho He.
  destruct (Hk a _ _ Ho He). split; congruence.
Qed.

Lemma clean_save {A} (m : LM A) : save_fails_only m → clean m.
Proof. intros Hm l e Ho He. destruct (Hm l e Ho) as [s ->]. by edestruct He. Qed.

Lemma save_fails_bind {A B} (m : LM A) (k : A → LM B) :
  save_fails_only m → (∀ a, save_fails_only (k a)) → save_fails_only (m ≫= k).
Proof.
  intros Hm Hk l e. rewrite out_bind. destruct (out m l) as [a|] eqn:Ho; [apply Hk|].
  intros [= <-]. by eapply Hm.
Qed.

Lemma save_fails_save save_error : save_fails_only (saveLocked save_error).
Proof.
  intros l e. unfold out, saveLocked. destruct (save_error (saves l)); [|done].
  intros [= <-]. eauto.
Qed.

Lemma quiet_or_throw {A} e (o : option A) : quiet (or_throw e o).
Proof. by destruct o. Qed.

Lemma clean_CreateProject clock save_error name root extra :
  clean (CreateProject clock save_error name root extra).
Proof.
  unfold CreateProject. cbn zeta. case_bool_decide; [by apply clean_quiet|].
  apply clean_bind; [done|]. intros ps. case_match; [by apply clean_quiet|].
  case_bool_decide; [by apply clean_quiet|]. apply clean_bind; [done|]. intros id.
  apply clean_save. repeat (apply save_fails_bind; [|intros ?]); try done. apply save_fails_save.
Qed.

Lemma clean_DeleteProject save_error id : clean (DeleteProject save_error id).
Proof.
  unfold DeleteProject. apply clean_bind; [done|]. intros ps.
  apply clean_bind; [apply quiet_or_throw|]. intros idx.
  apply clean_bind; [apply quiet_or_throw|]. intros p. destruct (Project_BuiltIn p); [done|].
  apply clean_bind; [done|]. intros cs. case_match; [done|].
  apply clean_save. apply save_fails_bind; [done|]. intros _. apply save_fails_save.
Qed.

Lemma clean_forget {A} (m : LM A) : clean m → clean (forget m).
Proof.
  intros Hm l e. rewrite run_forget, out_forget. destruct (out m l) eqn:Ho; [done|].
  intros [= <-]. by apply Hm.
Qed.

(** The calls that may refuse after a partial write in memory. *)
Definition partial_on_refusal (o : op) : bool :=
  match o with OpChecklistAdd _ _ _ _ | OpUpdateProject _ _ _ | OpOpen _ _ => true | _ => false end.

Lemma transition_refused o c e c' :
  partial_on_refusal o = false → transition o c (Err e) c' → c' = c.
Proof.
  intros Ho Ht. destruct o; try done; simpl in Ht; unfold edits, guarded in Ht;
    repeat match goal with
    | H : _ ∧ _ |- _ => destruct H
    | H : ∃ _, _ |- _ => destruct H
    | H : ?R _ (Err e) _ |- _ =>
        progress unfold move_rel, finish_rel, observe_rel, job_session_rel, edits, guarded in H
    | H : match ?g with _ => _ end |- _ => destruct g
    end; simplify_eq; done.
Qed.

(** A call that fails for any reason but a failed save leaves the
    document as it was, in memory and on disk; the exceptions are exactly
    [ChecklistAdd] and [UpdateProject] (and [OpenLedger], which replaces the
    document). *)
Theorem refusal_is_atomic clock save_error payload_hash o l e :
  partial_on_refusal o = false → (∀ m, e ≠ ErrSave m) →
  out (exec clock save_error payload_hash o) l = Err e →
  data (run (exec clock save_error payload_hash o) l) = data l ∧
  disk (run (exec clock save_error payload_hash o) l) = disk l.
Proof.
  intros Ho He Hout. pose proof (exec_card clock save_error payload_hash o l) as Hex.
  assert (data (run (exec clock save_error payload_hash o) l) = data l ∧
    disk (run (exec clock save_error payload_hash o) l) = disk l ∨
    mutated clock save_error payload_hash o l) as [?|(id&v&a&r&Hm&Hr&_)]; [|done|].
  - destruct o; try done; try (destruct Hex as [[-> _]|?]; by auto); left;
      [by eapply (clean_forget _ (clean_CreateProject _ _ _ _ _))
      |by eapply clean_DeleteProject|].
    simpl in *; rewrite run_forget, out_forget in *. revert Hout. unfold run, out.
    destruct (CreateCard_outcome clock save_error payload_hash input l); [done..|].
    destruct (save_error (saves l)); simpl; [|done]. intros [= <-]. by edestruct He.
  - rewrite Hout in Hr. destruct r as [|e']; [done|]. injection Hr as <-.
    revert Hm. generalize (run (exec clock save_error payload_hash o) l). intros l' Hm.
    inversion Hm as [| |p c c' t e0 Hi Hp Hv HRc| |]; subst; [done|done| |by edestruct He].
    apply transition_refused in HRc as ->; [|done].
    split; [|done]. unfold put_slot. simpl. rewrite list_insert_id by done. by destruct (data l).
Qed.

Lemma refusal_is_atomic_witness :
  let ex := exec (λ _, 0%Z) (λ _, None) (λ _, "") in
  let l := run (ex (OpOpen "/w" None)) fresh_ledger in
  let o := OpCreateProject "Default" "/p" [] in
  out (ex o) l = Err (ErrProjectExists "Default") ∧ data (run (ex o) l) = data l.
Proof.
  intros ex l o. split; [vm_compute; reflexivity|].
  apply (refusal_is_atomic (λ _, 0%Z) (λ _, None) (λ _, "") o l (ErrProjectExists "Default"));
    [reflexivity|done|vm_compute; reflexivity].
Defined.

(** A guarded write at a version the card does not have. *)
Lemma stale_write clock save_error payload_hash o id v l p c :
  target o = Some (id, v) → card_index id l = Some p → Cards (data l) !! p = Some c →
  Card_Version c ≠ v →
  run (exec clock save_error payload_hash o) l = l ∧
  (out (exec clock save_error payload_hash o) l = Err ErrCommentRequired ∨
   out (exec clock save_error payload_hash o) l = Err (ErrVersionConflict id (Card_Version c) v)).
Proof.
  intros Ht Hi Hp Hv.
  destruct (exec_guarded clock save_error payload_hash o id v l Ht) as [[? ?]|(a&r&Hm&->)]; [by auto|].
  revert Hm. generalize (run (exec clock save_error payload_hash o) l). intros l' Hm.
  inversion Hm; subst; simplify_eq; by auto.
Qed.

(** No guard reports a failed save. *)
Definition not_save (g : Card → option error) : Prop := ∀ c m, g c ≠ Some (ErrSave m).

Lemma guarded_not_save g post c m c' : not_save g → ¬ guarded g post c (Err (ErrSave m)) c'.
Proof.
  unfold guarded. intros Hg. destruct (g c) as [e|] eqn:He; [|by intros []].
  intros [[= <-] _]. by apply Hg in He.
Qed.

Lemma guards_not_save :
  (∀ id to a, not_save (move_guard id to a)) ∧ (∀ force, not_save (complete_guard force))
  ∧ not_save running_guard ∧ (∀ i, not_save (index_guard i))
  ∧ ∀ id x, not_save (execution_guard id x).
Proof.
  unfold not_save, move_guard, complete_guard, running_guard, index_guard, execution_guard.
  split_and!; intros; repeat (case_decide || case_match); naive_solver.
Qed.

Lemma transition_error o c e c' m : transition o c (Err e) c' → e ≠ ErrSave m.
Proof.
  destruct guards_not_save as (?&?&?&?&?).
  intros Ht ->. destruct o; try done; simpl in Ht;
    try (by eapply guarded_not_save in Ht); try (by destruct Ht);
    try (by destruct Ht as (?&?&?)).
  - destruct Ht as (?&_&_&_&[[? _]|[? _]]); done.
  - destruct Ht as [_ Ht]. by eapply guarded_not_save in Ht.
Qed.

(** A write whose save failed left the next version in the card's slot. *)
Lemma mutate_unsaved_slot save_error id v actor R l l' m :
  sound_rel R → (∀ c e c' m, R c (Err e) c' → e ≠ ErrSave m) →
  mutate_outcome save_error id v actor R l l' (Err (ErrSave m)) →
  ∃ p c', card_index id l' = Some p ∧ Cards (data l') !! p = Some c' ∧
       Card_Version c' = wrap64 (v + 1) ∧ disk l' = disk l.
Proof.
  intros HR Hns Hm.
  inversion Hm as [| |p c c' t e Hi Hp Hv' HRc|p c c' t u e Hi Hp Hv' HRc Hs|]; subst.
  { by destruct (Hns _ _ _ m HRc). }
  destruct (sound_keeps R HR _ _ _ HRc) as [Hid _ Hver _ _ _].
  exists p, (stamp actor u c'). split_and!.
  - change (card_index id (put_slot p (stamp actor u c') t l) = Some p).
    by rewrite (card_index_put _ _ _ _ _ _ Hp).
  - simpl. apply list_lookup_insert_eq. by eapply lookup_lt_Some.
  - unfold stamp. simpl. by rewrite Hver.
  - done.
Qed.

(** A guarded write whose save fails still takes effect in memory: the file
    is unchanged, the card already carries the next version, and repeating
    the call with the version it was given is rejected and changes nothing. *)
Theorem failed_save_stays_in_memory clock save_error payload_hash o id v l m :
  let exec := exec clock save_error payload_hash in
  is_int v → target o = Some (id, v) → out (exec o) l = Err (ErrSave m) →
  let l1 := run (exec o) l in
  disk l1 = disk l ∧ current_version id l1 = wrap64 (v + 1) ∧
  run (exec o) l1 = l1 ∧ is_ok (out (exec o) l1) = false.
Proof.
  intros ex Hv Ht Ho l1. subst ex.
  destruct (exec_guarded clock save_error payload_hash o id v l Ht)
    as [[_ He]|(actor&r&Hm&Hr)]; [congruence|]. rewrite Ho in Hr.
  fold l1 in Hm. destruct r as [|e]; [done|]. injection Hr as <-.
  destruct (mutate_unsaved_slot _ _ _ _ _ _ _ _ (transition_sound o) (transition_error o) Hm)
    as (p&c&Hi&Hp&Hcv&Hdisk).
  rewrite (current_version_lookup _ _ _ _ Hi Hp).
  destruct (stale_write clock save_error payload_hash o id v l1 p _ Ht Hi Hp)
    as [Hr2 Ho2]; [rewrite Hcv; by apply wrap64_succ_ne|].
  split_and!; [done..|]. by destruct Ho2 as [->| ->].
Qed.

Lemma failed_save_stays_in_memory_witness :
  let card := new_card (mkCreateCardInput "p" "a" "" "" "" "" [] "u" "todo" [] "" None "")
                "a" "" "p" "t-1" 0%Z in
  let l := mkLedger (mkLedgerData [mkProject "p" "P" ["/"] true] [card] []) 0 0 0 None in
  let ex := exec (λ _, 0%Z) (λ _, Some "disk full") (λ _, "") in
  let o := OpMoveCard "t-1" 1 "in_progress" "s1" in
  out (ex o) l = Err (ErrSave "disk full") ∧ current_version "t-1" (run (ex o) l) = 2%Z.
Proof.
  intros card l ex o. split; [vm_compute; reflexivity|].
  apply (failed_save_stays_in_memory (λ _, 0%Z) (λ _, Some "disk full") (λ _, "") o "t-1" 1 l
    "disk full"); [unfold is_int, int_min, int_max; lia|vm_compute; reflexivity..].
Defined.
