(* ===== verification/TaskBoardMoves.v ===== *)
(** * Task board: idempotent creation, moves, gates and listing

    The functional behaviour of the single operations: what a repeated create
    request answers, what a move writes, when dispatch is blocked, what a
    merge report says, in which order cards are listed, and where a refusal
    leaves a partial write. *)
From S2P Require Import Prelude GoStrings TaskTypes TaskConflicts TaskLedger TaskLedgerSpec TaskLedgerInv TaskBoard.
From Stdlib Require Import ZArith Lia.

(** ** Idempotent creation *)

Definition is_request (rid by_ : string) (r : createRequestRecord) : bool :=
  bool_decide (Req_ExternalRequestID r = rid) && bool_decide (Req_CreatedBy r = by_).

(** A request whose key is on record. *)
Lemma CreateCard_recorded clock save_error payload_hash input l r p c :
  TrimSpace (In_Title input) ≠ "" → TrimSpace (In_ExternalRequestID input) ≠ "" →
  find_first (is_request (TrimSpace (In_ExternalRequestID input)) (TrimSpace (In_CreatedBy input)))
    (CreateRequests (data l)) = Some r →
  card_index (Req_CardID r) l = Some p → Cards (data l) !! p = Some c →
  CreateCard clock save_error payload_hash input l =
  (l, if bool_decide (Req_PayloadHash r = createCardPayloadHash payload_hash input
           (TrimSpace (In_Title input)) (Projects (data l)))
      then Ok c else Err (ErrCreateCardConflict (TrimSpace (In_ExternalRequestID input)))).
Proof.
  intros Ht Hrid Hf Hi Hp. unfold CreateCard. cbn zeta.
  rewrite (bool_decide_false (TrimSpace (In_Title input) = "")) by done.
  rewrite (bool_decide_false (TrimSpace (In_ExternalRequestID input) = "")) by done.
  unfold mbind, M_bind. cbn. fold (is_request (TrimSpace (In_ExternalRequestID input))
    (TrimSpace (In_CreatedBy input))). rewrite Hf. fold (card_index (Req_CardID r) l). rewrite Hi.
  case_bool_decide; [|done]. rewrite (surjective_pairing (load p l)).
  f_equal; [apply run_load|by apply out_load].
Qed.

Lemma find_first_app {A} (P : A → bool) l x :
  Forall (λ y, P y = false) l → P x = true → find_first P (l ++ [x]) = Some x.
Proof. induction 1 as [|y l Hy Hl IH]; simpl; intros Hx; [by rewrite Hx|]. rewrite Hy. auto. Qed.

Lemma card_index_app_new c l :
  Card_ID c ∉ Card_ID <$> Cards (data l) →
  find_index (λ c', bool_decide (Card_ID c' = Card_ID c)) (Cards (data l) ++ [c])
  = Some (length (Cards (data l))).
Proof.
  intros Hnin. induction (Cards (data l)) as [|x cs IH]; simpl.
  { by rewrite bool_decide_true. }
  cbn in Hnin. rewrite not_elem_of_cons in Hnin. destruct Hnin as [Hx Hcs].
  rewrite bool_decide_false by done. by rewrite (IH Hcs).
Qed.

(** A create request is idempotent: once a request id of a caller has
    created a card, every later request with the same id and caller creates
    nothing and writes nothing; it is answered with that card when its
    normalised payload hashes to the same value and refused otherwise. *)
Theorem create_is_idempotent clock save_error payload_hash input1 input2 l l1 card :
  let rid := TrimSpace (In_ExternalRequestID input1) in
  rid ≠ "" → TrimSpace (In_ExternalRequestID input2) = rid →
  TrimSpace (In_CreatedBy input2) = TrimSpace (In_CreatedBy input1) →
  TrimSpace (In_Title input2) ≠ "" →
  fresh_id clock "t" l ∉ Card_ID <$> Cards (data l) →
  CreateCard clock save_error payload_hash input1 l = (l1, Ok card) →
  let hash i := createCardPayloadHash payload_hash i (TrimSpace (In_Title i)) (Projects (data l1)) in
  CreateCard clock save_error payload_hash input2 l1 =
    (l1, if bool_decide (hash input1 = hash input2) then Ok card
         else Err (ErrCreateCardConflict rid)).
Proof.
  intros rid Hrid Hrid2 Hby Ht2 Hfresh Hc hash. subst rid hash. cbv beta.
  pose proof (CreateCard_outcome clock save_error payload_hash input1 l) as Ho.
  rewrite Hc in Ho.
  inversion Ho as [|r p c _ _ Hf Hh Hi Hp|title payload' Htitle Htne Hfr pid Hpid card' l' Heq].
  - subst. rewrite (CreateCard_recorded _ _ _ input2 _ r p card); try done; rewrite ?Hrid2, ?Hby; try done.
    by rewrite Hh.
  - destruct (save_error (saves l)) eqn:Hs; [done|]. injection Heq as <- <-.
    destruct (Hfr Hrid) as [-> Hkey]. subst l'.
    set (r := mkCreateRequest (TrimSpace (In_ExternalRequestID input1))
      (TrimSpace (In_CreatedBy input1)) (Card_ID card') (createCardPayloadHash payload_hash input1
        (TrimSpace (In_Title input1)) (Projects (data l))) (Card_CreatedAt card')).
    rewrite (CreateCard_recorded _ _ _ input2 _ r (length (Cards (data l))) card');
      rewrite ?Hrid2, ?Hby; try done.
    + subst card'. unfold with_new_card. cbn [saved data CreateRequests Card_ExternalRequestID new_card].
      rewrite bool_decide_false by done. apply find_first_app.
      * apply Forall_forall. intros x Hx. unfold is_request. apply not_true_iff_false.
        intros Hx2. bool_prop. apply Hkey. apply list_elem_of_fmap. exists x. split; [|done].
        unfold request_key. by f_equal.
      * unfold is_request. simpl. by rewrite !bool_decide_true.
    + by apply card_index_app_new.
    + simpl. by apply list_lookup_middle.
Qed.

Lemma create_is_idempotent_witness :
  let input := mkCreateCardInput "" "a" "" "" "" "" [] "u" "todo" [] "" None "r1" in
  let l := run (OpenLedger (λ _, None) "/w" None) fresh_ledger in
  let m := CreateCard (λ _, 0%Z) (λ _, None) (λ _, "h") input in
  let card := new_card input "a" "r1" "p-default" (fresh_id (λ _, 0%Z) "t" l) 0%Z in
  out m l = Ok card ∧ m (run m l) = (run m l, Ok card).
Proof.
  intros input l m card. assert (m l = (run m l, Ok card)) as Hm by (vm_compute; reflexivity).
  split; [vm_compute; reflexivity|].
  apply (create_is_idempotent (λ _, 0%Z) (λ _, None) (λ _, "h") input input l (run m l) card);
    [by vm_compute|reflexivity|reflexivity|by vm_compute|apply not_elem_of_nil|exact Hm].
Defined.

(** ** Exact runs of the closures *)

Lemma load_run p l c : Cards (data l) !! p = Some c → load p l = (l, Ok c).
Proof.
  intros Hp. rewrite (surjective_pairing (load p l)). f_equal; [apply run_load|by apply out_load].
Qed.

Lemma find_run id l p : card_index id l = Some p → findCardLocked id l = (l, Ok p).
Proof.
  intros Hi. rewrite (surjective_pairing (findCardLocked id l)).
  f_equal; [apply run_find|]. pose proof (out_find id l) as Ho. by rewrite Hi in Ho.
Qed.

Lemma modify_run p f l c :
  Cards (data l) !! p = Some c → modify_card p f l = (put_slot p (f c) (tick l) l, Ok tt).
Proof.
  intros Hp. unfold modify_card, update, with_cards, with_data, put_slot.
  by rewrite (list_alter_lookup _ _ _ _ Hp).
Qed.

Lemma now_run clock l : now clock l = (mkLedger (data l) (idSeq l) (S (tick l)) (saves l) (disk l),
  Ok (clock (tick l))).
Proof. done. Qed.

Lemma tick_put_slot p c t u l :
  mkLedger (data (put_slot p c t l)) (idSeq (put_slot p c t l)) u (saves (put_slot p c t l))
    (disk (put_slot p c t l)) = put_slot p c u l.
Proof. done. Qed.

Lemma lookup_put_slot p c c' t l :
  Cards (data l) !! p = Some c → Cards (data (put_slot p c' t l)) !! p = Some c'.
Proof. intros Hp. apply list_lookup_insert_eq. by eapply lookup_lt_Some. Qed.

(** The report [attach_merge_report] puts on the card [c] of slot [p]: the
    conflicts with the active cards of the board, or none at all. *)
Definition merge_report (p : nat) (c : Card) (l : Ledger) : option ConflictReport :=
  let report := checkPathConflictsAgainst c
    (filter (λ c, is_active c = true) (<[p:=c]> (Cards (data l)))) in
  if HasConflicts report then Some report else None.

Lemma attach_run p c t l :
  Cards (data l) !! p ≠ None →
  (_ ← attach_merge_report p; mret tt) (put_slot p c t l) =
  (put_slot p (set_MergeReport (merge_report p c l) c) t l, @Ok error unit tt).
Proof.
  intros Hp. destruct (Cards (data l) !! p) as [c0|] eqn:Hp0; [|done].
  pose proof (lookup_put_slot p c0 c t l Hp0) as Hc.
  erewrite (bind_ok (attach_merge_report p)); [reflexivity|]. unfold attach_merge_report.
  rewrite (bind_ok _ _ _ _ _ (load_run _ _ _ Hc)).
  erewrite (bind_ok activeCardsLocked) by reflexivity. cbn zeta.
  rewrite (bind_ok _ _ _ _ _ (modify_run _ _ _ _ Hc)). by rewrite put_slot_put.
Qed.

(** [mutateCard] when the closure is accepted, and when it refuses. *)
Lemma mutateCard_run clock save_error id v actor mutate l p c c' t :
  card_index id l = Some p → Cards (data l) !! p = Some c → Card_Version c = v →
  mutate p l = (put_slot p c' t l, Ok tt) →
  mutateCard clock save_error id v actor mutate l =
  match save_error (saves l) with
  | Some e => (saved false (put_slot p (stamp actor (clock t) c') (S t) l), Err (ErrSave e))
  | None => (saved true (put_slot p (stamp actor (clock t) c') (S t) l),
             Ok (stamp actor (clock t) c'))
  end.
Proof.
  intros Hi Hp Hv Hm. unfold mutateCard.
  rewrite (bind_ok _ _ _ _ _ (find_run _ _ _ Hi)).
  rewrite (bind_ok _ _ _ _ _ (load_run _ _ _ Hp)). rewrite bool_decide_true by done. simpl.
  rewrite (bind_ok _ _ _ _ _ Hm).
  rewrite (stamp_save_run clock save_error p actor c' (put_slot p c' t l)) by (by eapply lookup_put_slot).
  cbn zeta. cbn [tick saves put_slot]. rewrite put_slot_put. by destruct (save_error (saves l)).
Qed.

Lemma mutateCard_refused clock save_error id v actor mutate l p c e :
  card_index id l = Some p → Cards (data l) !! p = Some c → Card_Version c = v →
  mutate p l = (l, Err e) →
  mutateCard clock save_error id v actor mutate l = (l, Err e).
Proof.
  intros Hi Hp Hv Hm. unfold mutateCard.
  rewrite (bind_ok _ _ _ _ _ (find_run _ _ _ Hi)).
  rewrite (bind_ok _ _ _ _ _ (load_run _ _ _ Hp)). rewrite bool_decide_true by done. simpl.
  by apply bind_err.
Qed.

(** ** Moves *)

(** What a legal move makes of the card, the clock being read at [t]. *)
Definition move_result (p : nat) (to actor : string) (t : time) (l : Ledger) (c : Card) : Card :=
  let m := moved to actor t c in
  if decide (to = StatusInReview) then set_MergeReport (merge_report p m l) m else m.

(** A move at the current version is refused, with nothing changed,
    exactly when it leads to [done], is not an edge of the board, or takes an
    in-progress card from a holder who is neither the caller nor overruled by
    the human; otherwise it writes exactly the target column, the holder (the
    claimer, or none), the closed executions, the merge report of a card that
    enters review, the next version, the actor and the time, and saves. *)
Theorem MoveCard_spec clock save_error id v to actor l p c :
  card_index id l = Some p → Cards (data l) !! p = Some c → Card_Version c = v →
  MoveCard clock save_error id v to actor l =
  match move_guard id (TrimSpace to) actor c with
  | Some e => (l, Err e)
  | None =>
      let t := if decide (TrimSpace to = StatusInProgress) then tick l else S (tick l) in
      let c' := stamp actor (clock t) (move_result p (TrimSpace to) actor (clock (tick l)) l c) in
      let l' := put_slot p c' (S t) l in
      match save_error (saves l) with
      | Some e => (saved false l', Err (ErrSave e))
      | None => (saved true l', Ok c')
      end
  end.
Proof.
  intros Hi Hp Hv. unfold MoveCard. cbn zeta. set (to' := TrimSpace to). clearbody to'.
  destruct (move_guard id to' actor c) as [e|] eqn:Hg.
  - eapply mutateCard_refused; [done..|]. rewrite (bind_ok _ _ _ _ _ (load_run _ _ _ Hp)).
    unfold move_guard in Hg.
    destruct (decide (to' = StatusDone)) as [Hd|Hd]; [injection Hg as <-; by rewrite bool_decide_true|].
    rewrite (bool_decide_false (to' = StatusDone)) by done.
    destruct (decide (to' ∉ allowedTransitions (Card_Status c))) as [Hin|Hin].
    { injection Hg as <-. by rewrite bool_decide_false. }
    rewrite bool_decide_true by (by apply dec_stable). simpl.
    destruct (decide (held_by_other c actor)) as [(?&?&?&?)|]; [|done]. injection Hg as <-.
    rewrite (bool_decide_true (Card_Status c = StatusInProgress)) by done.
    by rewrite (bool_decide_false (Card_Holder c = "")), (bool_decide_false (Card_Holder c = actor)),
      (bool_decide_false (actor = humanActor)).
  - apply move_guard_None in Hg as (Hd&Hin&Hheld).
    apply mutateCard_run with (c := c); [done..|].
    rewrite (bind_ok _ _ _ _ _ (load_run _ _ _ Hp)).
    rewrite (bool_decide_false (to' = StatusDone)) by done. rewrite bool_decide_true by done. simpl.
    assert (bool_decide (Card_Status c = StatusInProgress) && negb (bool_decide (Card_Holder c = ""))
      && negb (bool_decide (Card_Holder c = actor)) && negb (bool_decide (actor = humanActor)) = false)
      as ->.
    { apply not_true_iff_false. intros Hh. bool_prop. apply Hheld. by split_and!. }
    rewrite (bind_ok _ _ _ _ _ (modify_run _ _ _ _ Hp)). unfold move_result, moved.
    destruct (decide (to' = StatusInProgress)) as [Hip|Hip].
    + rewrite (bool_decide_true (to' = StatusInProgress)) by done.
      rewrite (bool_decide_false (to' = StatusInReview)), (decide_False (P := to' = StatusInReview))
        by (by rewrite Hip).
      rewrite (bind_ok _ _ _ _ _ (modify_run _ _ _ _ (lookup_put_slot _ _ _ _ _ Hp))).
      by rewrite put_slot_put.
    + rewrite (bool_decide_false (to' = StatusInProgress)) by done.
      set (m := closeRunningExecutions _ _ _ _).
      rewrite (bind_ok _ _ _ (put_slot p m (S (tick l)) l) tt).
      2: { rewrite (bind_ok _ _ _ _ _ (modify_run _ _ _ _ (lookup_put_slot _ _ _ _ _ Hp))).
        rewrite put_slot_put. erewrite (bind_ok (now clock)) by reflexivity. rewrite tick_put_slot.
        rewrite (modify_run _ _ _ _ (lookup_put_slot _ _ _ _ _ Hp)). by rewrite put_slot_put. }
      destruct (decide (to' = StatusInReview)) as [Hrev|Hrev];
        [rewrite (bool_decide_true (to' = StatusInReview)) by done
        |by rewrite (bool_decide_false (to' = StatusInReview))].
      apply attach_run. by rewrite Hp.
Qed.

Lemma MoveCard_spec_witness :
  let card := new_card (mkCreateCardInput "p" "a" "" "" "" "" [] "u" "todo" [] "" None "")
                "a" "" "p" "t-1" 0%Z in
  let l := mkLedger (mkLedgerData [mkProject "p" "P" ["/"] true] [card] []) 0 0 0 None in
  is_ok (out (MoveCard (λ _, 0%Z) (λ _, None) "t-1" 1 " in_progress" "s1") l) = true.
Proof.
  intros card l. unfold out.
  rewrite (MoveCard_spec (λ _, 0%Z) (λ _, None) "t-1" 1 " in_progress" "s1" l 0 card);
    [vm_compute; reflexivity..].
Defined.

(** ** The dispatch gate *)

(** Dispatching a card is refused exactly when its declared and observed
    paths overlap those of another live card that is in progress or has a
    running execution; a card that only awaits review never blocks, and the
    check changes nothing. *)
Theorem dispatch_gate card l :
  run (PrecheckDispatchConflicts card) l = l ∧
  (out (PrecheckDispatchConflicts card) l = Ok tt ↔
   ∀ other, other ∈ Cards (data l) → Card_Deleted other = false →
     Card_Status other = StatusInProgress ∨ HasRunningExecution other = true →
     Card_ID other ≠ Card_ID card → ¬ cards_collide card other).
Proof.
  unfold PrecheckDispatchConflicts, dispatchBlockingCardsLocked. rewrite run_bind, out_bind. cbn.
  set (blocking := filter _ _).
  assert (∀ c, c ∈ blocking ↔ c ∈ Cards (data l) ∧ Card_Deleted c = false ∧
    (Card_Status c = StatusInProgress ∨ HasRunningExecution c = true)) as Hb.
  { intros c. unfold blocking, blocks_dispatch. rewrite list_elem_of_filter, andb_true_iff, negb_true_iff,
      orb_true_iff, bool_decide_eq_true. tauto. }
  destruct (HasConflicts (checkPathConflictsAgainst card blocking)) eqn:Hc; simpl; (split; [done|]).
  - split; [done|]. intros Hall. exfalso.
    apply HasConflicts_iff in Hc as (o&(?&?&?)%Hb&Hid&Hcol). by apply (Hall o).
  - split; [|done]. intros _ o Ho Hd Hs Hid Hcol. apply not_true_iff_false in Hc. apply Hc.
    apply HasConflicts_iff. exists o. by rewrite Hb.
Qed.

(** ** Listing *)

#[export] Instance card_before_strict : StrictWeak card_before.
Proof.
  split; unfold card_before.
  - intros x. rewrite bool_decide_true by done. apply bool_decide_eq_false. lia.
  - intros x y z. repeat case_bool_decide; try done; intros; repeat bool_prop; try lia.
    all: repeat match goal with H : bool_decide _ = true |- _ => apply bool_decide_eq_true in H end; lia.
  - intros x y z. repeat case_bool_decide; intros; try done; try lia; auto.
Qed.

Definition same_rank (c d : Card) : Prop :=
  urgencyRank (Card_Urgency c) = urgencyRank (Card_Urgency d)
  ∧ Card_CreatedAt c = Card_CreatedAt d.
#[export] Instance same_rank_dec c d : Decision (same_rank c d).
Proof. unfold same_rank. apply _. Defined.

(** A listing holds exactly the cards the filter keeps, the more urgent
    first and the newer first within an urgency, cards created at the same
    instant in the order of the ledger; reading changes nothing. *)
Theorem ListCards_ordered f l :
  run (ListCards f) l = l ∧
  ∃ cs, out (ListCards f) l = Ok cs ∧
    cs ≡ₚ filter (λ c, filter_keeps f c = true) (Cards (data l)) ∧
    StronglySorted (λ a b,
      urgencyRank (Card_Urgency a) < urgencyRank (Card_Urgency b) ∨
      urgencyRank (Card_Urgency a) = urgencyRank (Card_Urgency b) ∧
      Card_CreatedAt b <= Card_CreatedAt a)%Z cs ∧
    ∀ c, filter (same_rank c) cs =
         filter (same_rank c) (filter (λ c, filter_keeps f c = true) (Cards (data l))).
Proof.
  split; [done|]. eexists. split; [reflexivity|]. split_and!.
  - apply stable_sort_perm.
  - eapply StronglySorted_impl; [|apply (stable_sort_sorted card_before)].
    intros a b. unfold not_after, card_before. case_bool_decide; intros ?%bool_decide_eq_false; lia.
  - intros c. apply stable_sort_filter. intros a b [Ha1 Ha2] [Hb1 Hb2]. unfold card_before.
    rewrite bool_decide_true by congruence. apply bool_decide_eq_false. lia.
Qed.

(** ** Partial writes on refusal *)

Definition nonblank (t : string) : Prop := TrimSpace t ≠ "".
Definition added_item (t : string) : ChecklistItem := mkChecklistItem (TrimSpace t) false "".

(** The loop of [ChecklistAdd] when the cap cuts it short. *)
Lemma checklist_add_capped p texts added c :
  Forall nonblank texts → length (Card_Checklist c) ≤ 30 < length (Card_Checklist c) + length texts →
  slot_wp p (checklist_add_loop p texts added) (λ r c',
    r = Err ErrChecklistCap ∧
    c' = set_Checklist (Card_Checklist c ++ (added_item <$>
           take (30 - length (Card_Checklist c)) texts)) c) c.
Proof.
  intros Hnb. revert added c. induction Hnb as [|t texts Ht Hnb IH]; intros added c Hlen; [simpl in *; lia|].
  simpl. rewrite bool_decide_false by done. slot_steps. case_bool_decide as Hcap; slot_steps.
  - split; [done|]. replace (30 - length (Card_Checklist c)) with 0 by lia.
    rewrite app_nil_r. by destruct c.
  - eapply slot_wp_mono, IH.
    + intros r c' [-> ->]. split; [done|]. simpl.
      replace (30 - length (Card_Checklist c)) with
        (S (30 - length (Card_Checklist c ++ [mkChecklistItem (TrimSpace t) false ""])))
        by (rewrite length_app; simpl; lia).
      simpl. by rewrite <- app_assoc.
    + simpl in *. rewrite length_app. simpl. lia.
Qed.

(** [ChecklistAdd] is not atomic: when the texts exceed the cap of thirty
    items the call fails, yet the items that fitted stay on the card in
    memory, with the version unchanged and nothing saved, so that a retry
    with the same version adds the same items again or fails for good. *)
Theorem ChecklistAdd_keeps_partial clock save_error id v actor texts l p c :
  card_index id l = Some p → Cards (data l) !! p = Some c → Card_Version c = v →
  Forall nonblank texts →
  length (Card_Checklist c) ≤ 30 < length (Card_Checklist c) + length texts →
  let m := ChecklistAdd clock save_error id v actor texts in
  out m l = Err ErrChecklistCap ∧ disk (run m l) = disk l ∧
  Cards (data (run m l)) !! p = Some (set_Checklist (Card_Checklist c ++ (added_item <$>
    take (30 - length (Card_Checklist c)) texts)) c).
Proof.
  intros Hi Hp Hv Hnb Hlen m. subst m. unfold ChecklistAdd.
  set (mutate := λ p0 : nat, _).
  destruct (checklist_add_capped p texts 0 c Hnb Hlen l Hp) as (c'&t&Hr&Ho&->).
  assert (mutate p l = (put_slot p (set_Checklist (Card_Checklist c ++ (added_item <$>
    take (30 - length (Card_Checklist c)) texts)) c) t l, Err ErrChecklistCap)) as Hm.
  { subst mutate. apply bind_err. rewrite (surjective_pairing (checklist_add_loop p texts 0 l)).
    unfold run, out in *. by rewrite Hr, Ho. }
  assert (mutateCard clock save_error id v actor mutate l = (put_slot p (set_Checklist
    (Card_Checklist c ++ (added_item <$> take (30 - length (Card_Checklist c)) texts)) c) t l,
    Err ErrChecklistCap)) as Hmc.
  { unfold mutateCard. rewrite (bind_ok _ _ _ _ _ (find_run _ _ _ Hi)).
    rewrite (bind_ok _ _ _ _ _ (load_run _ _ _ Hp)). rewrite bool_decide_true by done. simpl.
    by apply bind_err. }
  unfold run, out. rewrite Hmc. split_and!; [done..|]. by eapply lookup_put_slot.
Qed.

Lemma ChecklistAdd_keeps_partial_witness :
  let card := new_card (mkCreateCardInput "p" "a" "" "" "" "" [] "u" "todo" [] "" None "")
                "a" "" "p" "t-1" 0%Z in
  let l := mkLedger (mkLedgerData [mkProject "p" "P" ["/"] true] [card] []) 0 0 0 None in
  let texts := repeat "x" 31 in
  out (ChecklistAdd (λ _, 0%Z) (λ _, None) "t-1" 1 "u" texts) l = Err ErrChecklistCap.
Proof.
  intros card l texts.
  apply (ChecklistAdd_keeps_partial (λ _, 0%Z) (λ _, None) "t-1" 1 "u" texts l 0 card);
    [vm_compute; reflexivity..| |simpl; lia].
  apply Forall_forall. intros t Ht. apply list_elem_of_In, repeat_spec in Ht as ->. by vm_compute.
Defined.

(** [UpdateProject] is not atomic: given a new name and a list of blank
    working directories it fails, yet the project carries the new name in
    memory, and the next save of any other call writes it. *)
Theorem UpdateProject_keeps_partial save_error id name dirs l idx p :
  project_index id (Projects (data l)) = Some idx → Projects (data l) !! idx = Some p →
  TrimSpace name ≠ "" → Forall (λ q, Project_Name q ≠ TrimSpace name) (Projects (data l)) →
  normalizeWorkDirs dirs = [] →
  let m := UpdateProject save_error id name (Some dirs) in
  out m l = Err ErrWorkDirRequired ∧ disk (run m l) = disk l ∧
  Projects (data (run m l)) !! idx =
    Some (mkProject (Project_ID p) (TrimSpace name) (Project_WorkDirs p) (Project_BuiltIn p)).
Proof.
  intros Hi Hp Hname Huniq Hdirs m.
  assert (m l = (projects_to (alter (λ p, mkProject (Project_ID p) (TrimSpace name)
    (Project_WorkDirs p) (Project_BuiltIn p)) idx (Projects (data l))) l, Err ErrWorkDirRequired)) as Hm.
  { subst m. unfold UpdateProject.
    erewrite (bind_ok (gets _)) by reflexivity. cbn [compose]. rewrite Hi.
    erewrite (bind_ok (or_throw _ _)) by reflexivity. cbn [compose]. rewrite Hp.
    erewrite (bind_ok (or_throw _ _)) by reflexivity. cbn zeta.
    rewrite (bool_decide_false (TrimSpace name = "")) by done.
    destruct (existsb _ _) eqn:Hex.
    { exfalso. apply existsb_exists in Hex as (q&Hq%list_elem_of_In&Hn%bool_decide_eq_true).
      rewrite Forall_forall in Huniq. apply (Huniq q); [|done].
      rewrite <- (take_drop_middle _ _ _ Hp). rewrite elem_of_app, elem_of_cons.
      apply elem_of_app in Hq as []; auto. }
    erewrite (bind_ok (update _)) by reflexivity. rewrite (bool_decide_true (normalizeWorkDirs _ = _)) by done.
    reflexivity. }
  unfold run, out. rewrite Hm. split_and!; [done..|].
  simpl. by rewrite list_lookup_alter_eq, Hp.
Qed.

Lemma UpdateProject_keeps_partial_witness :
  let l := mkLedger (mkLedgerData [mkProject "p" "P" ["/"] true] [] []) 0 0 0 None in
  out (UpdateProject (λ _, None) "p" "Q" (Some [" "])) l = Err ErrWorkDirRequired.
Proof.
  intros l. apply (UpdateProject_keeps_partial (λ _, None) "p" "Q" [" "] l 0
    (mkProject "p" "P" ["/"] true)); [vm_compute; reflexivity..|by vm_compute| |vm_compute; reflexivity].
  constructor; [by vm_compute|constructor].
Defined.

(** ** Executions *)

Lemma count_update_first q f l x :
  find_first q l = Some x → is_running x = true → is_running (f x) = false →
  S (length (filter (λ y, is_running y = true) (update_first q f l))) =
  length (filter (λ y, is_running y = true) l).
Proof.
  intros Hf Hx Hfx. induction l as [|y l IH]; simpl in *; [done|]. destruct (q y).
  - injection Hf as ->. rewrite !filter_cons, Hx, Hfx. by rewrite decide_False, decide_True by done.
  - rewrite !filter_cons. specialize (IH Hf). case_decide; simpl; congruence.
Qed.

(** The run of [FinishExecutionWithObs] on a running execution. *)
Lemma FinishExecution_run clock save_error id exid status summary obs l p c x :
  card_index id l = Some p → Cards (data l) !! p = Some c →
  find_first (runs exid) (Card_Executions c) = Some x →
  status ∈ [ExecutionCompleted; ExecutionFailed; ExecutionCancelled] →
  save_error (saves l) = None →
  let t := tick l in
  let c1 := finished exid status summary obs (clock t) (clock (S t)) x c in
  FinishExecutionWithObs clock save_error id exid status summary obs l =
    (saved true (put_slot p (stamp "taskboard" (clock (S (S t))) c1) (S (S (S t))) l),
     Ok (stamp "taskboard" (clock (S (S t))) c1)).
Proof.
  intros Hi Hp Hx Hst Hs t c1.
  unfold FinishExecutionWithObs. rewrite (bind_ok _ _ _ _ _ (find_run _ _ _ Hi)).
  rewrite (bind_ok _ _ _ _ _ (load_run _ _ _ Hp)). rewrite bool_decide_true by done.
  change (negb true) with false. cbv iota.
  erewrite mutateCard_run with (c' := c1) (t := S (S t)); [by rewrite Hs|done..|].
  rewrite (bind_ok _ _ _ _ _ (load_run _ _ _ Hp)). rewrite Hx.
  erewrite (bind_ok (now clock)) by reflexivity. erewrite (bind_ok (now clock)) by reflexivity.
  match goal with |- (_ ≫= _) ?s = _ => set (l2 := s) end.
  assert (Cards (data l2) !! p = Some c) as Hp2 by exact Hp.
  rewrite (bind_ok _ _ _ _ _ (modify_run _ _ _ _ Hp2)).
  rewrite (modify_run _ _ _ _ (lookup_put_slot _ _ _ _ _ Hp2)). by rewrite put_slot_put.
Qed.

(** C40: an execution is exclusive and its end releases the card: on a well-formed
    card with a running execution, a second start is refused and changes
    nothing; finishing it with a terminal status (the save succeeding) leaves
    no execution running, keeps the column, and frees the card when the
    execution's session held it. *)
Theorem execution_exclusive_and_released clock save_error id exid status summary obs l p c x :
  card_index id l = Some p → Cards (data l) !! p = Some c → wf_card c →
  find_first (runs exid) (Card_Executions c) = Some x →
  status ∈ [ExecutionCompleted; ExecutionFailed; ExecutionCancelled] →
  save_error (saves l) = None →
  (∀ exid' sid actor host,
     StartExecution clock save_error id exid' sid actor host l = (l, Err ErrRunningExecution)) ∧
  ∃ c', out (FinishExecutionWithObs clock save_error id exid status summary obs) l = Ok c' ∧
    HasRunningExecution c' = false ∧ Card_Status c' = Card_Status c ∧
    Card_Holder c' = (if bool_decide (Card_Holder c = Ex_SessionID x) then "" else Card_Holder c).
Proof.
  intros Hi Hp Hwf Hx Hst Hs.
  destruct (find_first_Some _ _ _ Hx) as [Hin Hrun]. unfold runs in Hrun. bool_prop.
  assert (HasRunningExecution c = true) as Hr.
  { apply existsb_exists. exists x. split; [by apply list_elem_of_In|done]. }
  split.
  - intros exid' sid actor host. unfold StartExecution.
    erewrite (bind_ok (versionForExecution id)) by reflexivity.
    eapply mutateCard_refused; [done..| |].
    + pose proof (current_version_lookup id l p c Hi Hp) as Hv. unfold current_version in Hv.
      rewrite <- Hv. unfold default. cbn.
      by destruct (find_first (λ c, bool_decide (Card_ID c = id)) (Cards (data l))).
    + rewrite (bind_ok _ _ _ _ _ (load_run _ _ _ Hp)). by rewrite Hr.
  - set (t := tick l).
    set (c1 := finished exid status summary obs (clock t) (clock (S t)) x c).
    pose proof (FinishExecution_run clock _ _ _ _ summary obs _ _ _ _ Hi Hp Hx Hst Hs) as Hf.
    cbv zeta in Hf. fold t c1 in Hf.
    eexists. unfold out. rewrite Hf. split; [reflexivity|].
    assert (is_running (applyObservation obs (set_ExUpdatedAt (clock (S t)) (set_ExEndedAt (clock t)
      (set_ExSummary (TrimSpace summary) (set_ExStatus status x))))) = false) as Hstop.
    { unfold is_running. destruct (applyObservation_keeps obs (set_ExUpdatedAt (clock (S t))
        (set_ExEndedAt (clock t) (set_ExSummary (TrimSpace summary) (set_ExStatus status x)))))
        as (_&_&->&_). simpl. apply bool_decide_eq_false. intros ->. revert Hst.
      by rewrite !elem_of_cons, elem_of_nil; intros [|[|[|]]]. }
    pose proof (wf_single c Hwf) as H1.
    rewrite <- (count_update_first (runs exid) (λ y, applyObservation obs (set_ExUpdatedAt
      (clock (S t)) (set_ExEndedAt (clock t) (set_ExSummary (TrimSpace summary)
      (set_ExStatus status y))))) _ x Hx H0 Hstop) in H1.
    split_and!; subst c1; unfold finished; cbn zeta.
    + apply not_true_iff_false. rewrite HasRunning_count. simpl. case_bool_decide; simpl; lia.
    + simpl. by case_bool_decide.
    + simpl. by case_bool_decide.
Qed.

Lemma execution_exclusive_and_released_witness :
  let x := mkExecution "e" "s" ExecutionRunning 0%Z 0%Z "" None "" "" "" "" "" 0%Z in
  let card := set_Executions [x] (set_Holder "s" (set_Status StatusInProgress
    (new_card (mkCreateCardInput "p" "a" "" "" "" "" [] "u" "todo" [] "" None "")
      "a" "" "p" "t-1" 0%Z))) in
  let l := mkLedger (mkLedgerData [mkProject "p" "P" ["/"] true] [card] []) 0 0 0 None in
  wf_card card ∧ ∃ c', out (FinishExecution (λ _, 0%Z) (λ _, None) "t-1" "e" "failed" "") l = Ok c'
    ∧ Card_Holder c' = "".
Proof.
  intros x card l.
  assert (wf_card card) as Hwf.
  { split; [by apply in_statuses|done|done|vm_compute; lia]. }
  split; [done|].
  destruct (execution_exclusive_and_released (λ _, 0%Z) (λ _, None) "t-1" "e" "failed" ""
    (mkObservation "" "" "" "") l 0 card x) as (_&c'&Ho&_&_&Hh);
    [vm_compute; reflexivity..|exact Hwf|vm_compute; reflexivity
    |right; left|vm_compute; reflexivity|].
  exists c'. split; [exact Ho|exact Hh].
Defined.
