(* ===== verification/TaskStatus.v ===== *)
(** * Task board: the status snapshot ([internal/plugins/taskboard/status.go])

    The counters behind the [status] action and the watchdog conditions, and
    that they are the cardinalities they claim to be. *)
From S2P Require Import Prelude GoStrings TaskTypes TaskConflicts TaskLedger TaskLedgerSpec TaskLedgerInv.
From Stdlib Require Import ZArith Lia.

(** [map[string]int] is a finite map; [m[k]++] reads 0 for a missing key. *)
Record StatusCounts : Type := mkStatusCounts {
  SC_Total : Z;
  SC_Cards : gmap string Z;
  SC_Executions : gmap string Z;
  SC_Error : Z;
  SC_Stalled : Z;
  SC_UpdatedAt : time;
}.

Definition incr (k : string) (m : gmap string Z) : gmap string Z :=
  <[k := (default 0 (m !! k) + 1)%Z]> m.

(** An execution in a failing state. *)
Definition failing (x : Execution) : bool :=
  bool_decide (Ex_Status x = ExecutionFailed)
  || (bool_decide (Ex_Status x = ExecutionRunning) && negb (bool_decide (Ex_ErrorType x = ""))).

Definition count_execution (sc : StatusCounts) (x : Execution) : StatusCounts :=
  mkStatusCounts (SC_Total sc) (SC_Cards sc) (incr (Ex_Status x) (SC_Executions sc))
    (if failing x then SC_Error sc + 1 else SC_Error sc)%Z (SC_Stalled sc) (SC_UpdatedAt sc).

Definition count_card (sc : StatusCounts) (c : Card) : StatusCounts :=
  fold_left count_execution (Card_Executions c)
    (mkStatusCounts (SC_Total sc + 1) (incr (Card_Status c) (SC_Cards sc)) (SC_Executions sc)
       (SC_Error sc) (SC_Stalled sc) (SC_UpdatedAt sc)).

(** [StatusCounts]; [now] is the reading of [time.Now()]. *)
Definition Ledger_StatusCounts (projectID : string) (now : time) : LM StatusCounts :=
  cards ← ListCards (mkCardFilter projectID "" "" false);
  mret (fold_left count_card cards (mkStatusCounts 0 ∅ ∅ 0 0 now)).

Definition count_key (status : string) : string := status +:+ "_count".

(** [CountMap]: later assignments win, so the executions come before the cards
    and the cards before the fixed keys in the union. *)
Definition CountMap (sc : StatusCounts) : gmap string Z :=
  kmap count_key (SC_Executions sc) ∪ kmap count_key (SC_Cards sc)
  ∪ {["total_count" := SC_Total sc; "error_count" := SC_Error sc;
      "stalled_count" := SC_Stalled sc]}.

(** * Lemmas *)

#[export] Instance count_key_inj : Inj (=) (=) count_key.
Proof.
  intros s t H. apply (f_equal String.rev) in H. unfold count_key in H. rewrite !rev_app_s in H.
  apply rev_inj_s. revert H. generalize (String.rev s) (String.rev t). clear. intros a b H.
  by repeat (injection H as H).
Qed.

Definition count_in {A} (P : A → bool) (l : list A) : Z :=
  Z.of_nat (length (filter (λ x, P x = true) l)).

Lemma count_in_cons {A} (P : A → bool) x l :
  count_in P (x :: l) = ((if P x then 1 else 0) + count_in P l)%Z.
Proof. unfold count_in. rewrite filter_cons. destruct (P x); simpl; lia. Qed.

Lemma count_in_app {A} (P : A → bool) l k :
  count_in P (l ++ k) = (count_in P l + count_in P k)%Z.
Proof. unfold count_in. rewrite filter_app, length_app. lia. Qed.

Lemma count_in_perm {A} (P : A → bool) l k : l ≡ₚ k → count_in P l = count_in P k.
Proof. intros H. unfold count_in. by rewrite H. Qed.

Definition count_at (m : gmap string Z) (k : string) : Z := default 0%Z (m !! k).

Lemma count_at_incr m k k' :
  count_at (incr k m) k' = ((if decide (k = k') then 1 else 0) + count_at m k')%Z.
Proof.
  unfold count_at, incr. case_decide as Hk.
  - subst. rewrite lookup_insert_eq. simpl. lia.
  - by rewrite lookup_insert_ne.
Qed.

Definition ex_has (s : string) (x : Execution) : bool := bool_decide (Ex_Status x = s).
Definition card_has (s : string) (c : Card) : bool := bool_decide (Card_Status c = s).

Lemma count_executions_spec l sc s :
  let sc' := fold_left count_execution l sc in
  SC_Total sc' = SC_Total sc ∧ SC_Cards sc' = SC_Cards sc ∧
  count_at (SC_Executions sc') s = (count_in (ex_has s) l + count_at (SC_Executions sc) s)%Z ∧
  SC_Error sc' = (count_in failing l + SC_Error sc)%Z.
Proof.
  cbn zeta. revert sc. induction l as [|x l IH]; intros sc; simpl; [done|].
  destruct (IH (count_execution sc x)) as (->&->&->&->). simpl. rewrite count_at_incr, !count_in_cons.
  split_and!; [done..| |destruct (failing x); lia].
  unfold ex_has at 2. destruct (decide (Ex_Status x = s)); [rewrite bool_decide_true by done|rewrite bool_decide_false by done]; lia.
Qed.

Lemma count_cards_spec l sc s :
  let sc' := fold_left count_card l sc in
  SC_Total sc' = (Z.of_nat (length l) + SC_Total sc)%Z ∧
  count_at (SC_Cards sc') s = (count_in (card_has s) l + count_at (SC_Cards sc) s)%Z ∧
  count_at (SC_Executions sc') s =
    (count_in (ex_has s) (l ≫= Card_Executions) + count_at (SC_Executions sc) s)%Z ∧
  SC_Error sc' = (count_in failing (l ≫= Card_Executions) + SC_Error sc)%Z.
Proof.
  cbn zeta. revert sc. induction l as [|c l IH]; intros sc; [done|]. cbn [fold_left].
  destruct (IH (count_card sc c)) as (->&->&->&->). unfold count_card.
  destruct (count_executions_spec (Card_Executions c) (mkStatusCounts (SC_Total sc + 1)
    (incr (Card_Status c) (SC_Cards sc)) (SC_Executions sc) (SC_Error sc) (SC_Stalled sc)
    (SC_UpdatedAt sc)) s) as (->&->&->&->). cbn [SC_Total SC_Cards SC_Executions SC_Error].
  rewrite count_at_incr, count_in_cons. cbn [mbind list_bind]. rewrite !count_in_app.
  split_and!; [simpl length; lia| |lia..].
  unfold card_has at 2. destruct (decide (Card_Status c = s)); [rewrite bool_decide_true by done|rewrite bool_decide_false by done]; lia.
Qed.

(** The live cards of a project, all projects for the empty id. *)
Definition live_cards (pid : string) (l : Ledger) : list Card :=
  filter (λ c, filter_keeps (mkCardFilter pid "" "" false) c = true) (Cards (data l)).

(** The status snapshot counts what it says: the live cards of the project
    in total and by column, their executions by status, and those that failed
    or run with a recorded error; taking it changes nothing. *)
Theorem StatusCounts_exact projectID t l :
  run (Ledger_StatusCounts projectID t) l = l ∧
  ∃ sc, out (Ledger_StatusCounts projectID t) l = Ok sc ∧
    let cards := live_cards projectID l in
    let executions := cards ≫= Card_Executions in
    SC_Total sc = Z.of_nat (length cards) ∧
    (∀ s, count_at (SC_Cards sc) s = count_in (card_has s) cards) ∧
    (∀ s, count_at (SC_Executions sc) s = count_in (ex_has s) executions) ∧
    SC_Error sc = count_in failing executions.
Proof.
  split; [done|]. eexists. split; [reflexivity|]. cbn zeta. cbn.
  pose proof (stable_sort_perm card_before (live_cards projectID l)) as Hp.
  set (cs := stable_sort card_before _) in *.
  assert (cs ≫= Card_Executions ≡ₚ live_cards projectID l ≫= Card_Executions) as Hx
    by (by apply bind_Permutation).
  split_and!.
  - destruct (count_cards_spec cs (mkStatusCounts 0 ∅ ∅ 0 0 t) "") as (->&_). rewrite Hp. simpl. lia.
  - intros s. destruct (count_cards_spec cs (mkStatusCounts 0 ∅ ∅ 0 0 t) s) as (_&->&_).
    rewrite (count_in_perm _ _ _ Hp). unfold count_at. simpl. rewrite lookup_empty. simpl. lia.
  - intros s. destruct (count_cards_spec cs (mkStatusCounts 0 ∅ ∅ 0 0 t) s) as (_&_&->&_).
    rewrite (count_in_perm _ _ _ Hx). unfold count_at. simpl. rewrite lookup_empty. simpl. lia.
  - destruct (count_cards_spec cs (mkStatusCounts 0 ∅ ∅ 0 0 t) "") as (_&_&_&->).
    rewrite (count_in_perm _ _ _ Hx). simpl. lia.
Qed.

Definition execution_statuses : list string :=
  [ExecutionRunning; ExecutionCompleted; ExecutionFailed; ExecutionCancelled].
Definition fixed_counters : list string := ["total"; "error"; "stalled"].

Definition fixed_counts (sc : StatusCounts) : gmap string Z :=
  {["total" := SC_Total sc; "error" := SC_Error sc; "stalled" := SC_Stalled sc]}.

Lemma CountMap_kmap sc :
  CountMap sc = kmap count_key (SC_Executions sc ∪ SC_Cards sc ∪ fixed_counts sc).
Proof.
  unfold CountMap, fixed_counts. rewrite !kmap_union by apply _. by f_equal.
Qed.

Lemma CountMap_lookup sc s :
  CountMap sc !! count_key s = (SC_Executions sc ∪ SC_Cards sc ∪ fixed_counts sc) !! s.
Proof. rewrite CountMap_kmap. by rewrite lookup_kmap by apply _. Qed.

(** The metrics of the watchdog conditions never shadow each other: when
    cards and executions only carry the statuses of the board, the metric of
    every column, of every execution status and of the three totals is the
    counter of that name, and no other metric exists. *)
Theorem CountMap_faithful sc :
  dom (SC_Cards sc) ⊆ (list_to_set statuses : gset string) →
  dom (SC_Executions sc) ⊆ (list_to_set execution_statuses : gset string) →
  (∀ s, s ∈ statuses → CountMap sc !! count_key s = SC_Cards sc !! s) ∧
  (∀ s, s ∈ execution_statuses → CountMap sc !! count_key s = SC_Executions sc !! s) ∧
  (∀ s, s ∈ fixed_counters → CountMap sc !! count_key s = fixed_counts sc !! s) ∧
  ∀ k, is_Some (CountMap sc !! k) →
    ∃ s, k = count_key s ∧ s ∈ statuses ++ execution_statuses ++ fixed_counters.
Proof.
  intros Hc Hx.
  assert (∀ s, s ∉ statuses → SC_Cards sc !! s = None) as Hc'.
  { intros s Hs. apply not_elem_of_dom. intros Hin. by apply Hc, elem_of_list_to_set in Hin. }
  assert (∀ s, s ∉ execution_statuses → SC_Executions sc !! s = None) as Hx'.
  { intros s Hs. apply not_elem_of_dom. intros Hin. by apply Hx, elem_of_list_to_set in Hin. }
  assert (∀ s, s ∉ fixed_counters → fixed_counts sc !! s = None) as Hf'.
  { intros s Hs. unfold fixed_counters in Hs. rewrite !not_elem_of_cons in Hs.
    destruct Hs as (?&?&?&_). unfold fixed_counts. by rewrite !lookup_insert_ne, lookup_singleton_ne. }
  assert (∀ (s : string) (l k : list string), bool_decide (Forall (λ x, x ∉ k) l) = true → s ∈ l → s ∉ k) as Hdisj.
  { intros s l k Hl%bool_decide_eq_true Hs. rewrite Forall_forall in Hl. auto. }
  split_and!.
  - intros s Hs. rewrite CountMap_lookup, !lookup_union, Hx', Hf'
      by (by eapply Hdisj; [|exact Hs]).
    by destruct (SC_Cards sc !! s).
  - intros s Hs. rewrite CountMap_lookup, !lookup_union, Hc', Hf'
      by (by eapply Hdisj; [|exact Hs]).
    by destruct (SC_Executions sc !! s).
  - intros s Hs. rewrite CountMap_lookup, !lookup_union, Hc', Hx'
      by (by eapply Hdisj; [|exact Hs]).
    by destruct (fixed_counts sc !! s).
  - intros k [n Hk]. rewrite CountMap_kmap in Hk.
    apply lookup_kmap_Some in Hk as (s&->&Hs); [|apply _]. exists s. split; [done|].
    rewrite !elem_of_app. rewrite !lookup_union in Hs.
    destruct (decide (s ∈ statuses)); [by left|]. destruct (decide (s ∈ execution_statuses)); [tauto|].
    destruct (decide (s ∈ fixed_counters)); [tauto|].
    by rewrite Hc', Hx', Hf' in Hs.
Qed.

Lemma CountMap_faithful_witness :
  let sc := mkStatusCounts 2 {["done" := 2%Z]} {["running" := 1%Z]} 0 0 0%Z in
  CountMap sc !! "done_count" = Some 2%Z ∧ CountMap sc !! "total_count" = Some 2%Z.
Proof.
  intros sc. destruct (CountMap_faithful sc) as (H1&_&H3&_);
    [by apply (bool_decide_unpack _); vm_compute|by apply (bool_decide_unpack _); vm_compute|].
  split; [exact (H1 "done" ltac:(by apply (bool_decide_unpack _); vm_compute))|
    exact (H3 "total" ltac:(by apply (bool_decide_unpack _); vm_compute))].
Defined.
