(* ===== verification/Tasks.v ===== *)
(** * Agent tasks ([internal/domain/task/task.go])

    The task manager over a repository it only knows through an interface:
    the map of tasks, every method, the invariant they keep, and that the
    manager is a write-through cache of any repository that stores rows. *)
From S2P Require Import Prelude GoStrings.
From Stdlib Require Import ZArith Lia.

Module Tasks.

Definition StatusPending : string := "pending".
Definition StatusInProgress : string := "in_progress".
Definition StatusCompleted : string := "completed".

(** [cloneTask] copies a task, its slice included: tasks are values here. *)
Record FileTask : Type := mkTask {
  ID : Z;
  Subject : string;
  Description : string;
  Status : string;
  CreatedAt : Z;
  UpdatedAt : Z;
  BlockedBy : list Z;
}.

Definition set_Status (s : string) (t : FileTask) : FileTask :=
  mkTask (ID t) (Subject t) (Description t) s (CreatedAt t) (UpdatedAt t) (BlockedBy t).
Definition set_UpdatedAt (u : Z) (t : FileTask) : FileTask :=
  mkTask (ID t) (Subject t) (Description t) (Status t) (CreatedAt t) u (BlockedBy t).
Definition set_BlockedBy (b : list Z) (t : FileTask) : FileTask :=
  mkTask (ID t) (Subject t) (Description t) (Status t) (CreatedAt t) (UpdatedAt t) b.

Inductive error : Type :=
| ErrNotFound (id : Z)
| ErrInvalidStatus (s : string)
| ErrNotAvailable (s : string)
| ErrBlocked
| ErrSelfBlocked (id : Z)
| ErrInvalidBlocker (id : Z)
| ErrBlockerNotFound (id : Z)
| ErrRepository (e : string).

(** [Status.Valid] *)
Definition Valid (s : string) : bool :=
  bool_decide (s = StatusPending ∨ s = StatusInProgress ∨ s = StatusCompleted).

Definition ParseStatus (raw : string) : result error string :=
  if bool_decide (raw = "") then Ok ""
  else if negb (Valid raw) then Err (ErrInvalidStatus raw)
  else Ok raw.

(** ** The repository interface *)

(** The operations of [Repository] on a backend of type [R]. *)
Class Repository (R : Type) : Type := {
  LoadAll : R → result string (list FileTask);
  Save : FileTask → R → R * option string;
  DeleteRow : Z → R → R * option string;
}.

(** What a manager relies on: the backend holds one row per id; a successful
    call stores or removes the row, a failed one changes nothing, and loading
    returns the rows. *)
Class RepositoryLaws (R : Type) `{Repository R} (rows : R → gmap Z FileTask) : Prop := {
  save_ok : ∀ t r r', Save t r = (r', None) → rows r' = <[ID t := t]> (rows r);
  save_failed : ∀ t r r' e, Save t r = (r', Some e) → rows r' = rows r;
  delete_ok : ∀ id r r', DeleteRow id r = (r', None) → rows r' = delete id (rows r);
  delete_failed : ∀ id r r' e, DeleteRow id r = (r', Some e) → rows r' = rows r;
  load_ok : ∀ r ts, LoadAll r = Ok ts →
    ∀ id t, rows r !! id = Some t ↔ t ∈ ts ∧ ID t = id;
}.

Section Manager.
Context {R : Type} `{Repository R} (clock : nat → Z).

(** [repository] is [None] for an in-memory manager; [tick] counts the
    readings of [time.Now()]. *)
Record Manager : Type := mkManager {
  tasks : gmap Z FileTask;
  repository : option R;
  tick : nat;
}.

Abbreviation TM := (M Manager error).

Definition now : TM Z := λ m, (mkManager (tasks m) (repository m) (S (tick m)), Ok (clock (tick m))).
Definition put (id : Z) (t : FileTask) : TM unit :=
  update (λ m, mkManager (<[id := t]> (tasks m)) (repository m) (tick m)).

(** [loadAll]: a read failure leaves the manager empty. *)
Definition loadAll : TM unit := λ m,
  match repository m with
  | None => (m, Ok tt)
  | Some r =>
      match LoadAll r with
      | Err _ => (m, Ok tt)
      | Ok ts => (mkManager (fold_left (λ acc t, <[ID t := t]> acc) ts (tasks m))
                    (repository m) (tick m), Ok tt)
      end
  end.

Definition NewManager (r : option R) : Manager := run loadAll (mkManager ∅ r 0).

(** A write to the repository, when there is one. *)
Definition with_repository (f : R → R * option string) : TM unit := λ m,
  match repository m with
  | None => (m, Ok tt)
  | Some r =>
      match f r with
      | (r', None) => (mkManager (tasks m) (Some r') (tick m), Ok tt)
      | (r', Some e) => (mkManager (tasks m) (Some r') (tick m), Err (ErrRepository e))
      end
  end.

Definition save (t : FileTask) : TM unit := with_repository (Save t).

(** The loop of [Create]: the first unused id from [id] on. *)
Fixpoint next_id (fuel : nat) (id : Z) (ts : gmap Z FileTask) : Z :=
  match fuel with
  | 0 => id
  | S fuel => match ts !! id with
              | None => id
              | Some _ => next_id fuel (id + 1) ts
              end
  end.

Definition Create (subject description : string) : TM FileTask :=
  ts ← gets tasks;
  let id := next_id (S (size ts)) 1 ts in
  created ← now;
  updated ← now;
  let t := mkTask id subject description StatusPending created updated [] in
  save t ;;
  put id t ;;
  mret t.

Definition get_task (id : Z) : TM FileTask :=
  ts ← gets tasks;
  match ts !! id with Some t => mret t | None => throw (ErrNotFound id) end.

Definition Get (id : Z) : TM FileTask := get_task id.

(** The [switch] over the combined blockers: the first offending one. *)
Fixpoint check_blockers (taskID : Z) (ts : gmap Z FileTask) (l : list Z) : option error :=
  match l with
  | [] => None
  | b :: l =>
      if bool_decide (b = taskID) then Some (ErrSelfBlocked taskID)
      else if bool_decide (b <= 0)%Z then Some (ErrInvalidBlocker b)
      else match ts !! b with
           | None => Some (ErrBlockerNotFound b)
           | Some _ => check_blockers taskID ts l
           end
  end.

Definition int_lt (a b : Z) : bool := bool_decide (a < b)%Z.

Definition normalizeBlockedBy (taskID : Z) (current add remove : list Z)
    (ts : gmap Z FileTask) : result error (list Z) :=
  let combined := dedup (filter (λ b, b ∉ remove) (current ++ add)) in
  match check_blockers taskID ts combined with
  | Some e => Err e
  | None => Ok (stable_sort int_lt combined)
  end.

Definition Update (id : Z) (status : string) (add remove : list Z) : TM unit :=
  t ← get_task id;
  (if negb (bool_decide (status = "")) && negb (Valid status)
   then throw (ErrInvalidStatus status) else mret tt) ;;
  let updated := if bool_decide (status = "") then t else set_Status status t in
  u ← now;
  ts ← gets tasks;
  match normalizeBlockedBy id (BlockedBy updated) add remove ts with
  | Err e => throw e
  | Ok blockedBy =>
      let updated := set_BlockedBy blockedBy (set_UpdatedAt u updated) in
      save updated ;;
      put id updated
  end.

Definition List : TM (list FileTask) :=
  gets (λ m, stable_sort (λ a b, int_lt (ID a) (ID b)) (snd <$> map_to_list (tasks m))).

Definition ClaimPending (id : Z) : TM FileTask :=
  t ← get_task id;
  if negb (bool_decide (Status t = StatusPending)) then throw (ErrNotAvailable (Status t)) else
  if bool_decide (0 < length (BlockedBy t)) then throw ErrBlocked else
  u ← now;
  let updated := set_UpdatedAt u (set_Status StatusInProgress t) in
  save updated ;;
  put id updated ;;
  mret updated.

(** [removeBlockedByID]: the remaining blockers, and whether one went. *)
Definition removeBlockedByID (blockedBy : list Z) (target : Z) : list Z * bool :=
  (filter (λ b, b ≠ target) blockedBy, bool_decide (target ∈ blockedBy)).

(** The loop of [Delete] over the map, in the order the runtime picks: the
    tasks rebuilt so far are [acc]. *)
Fixpoint delete_loop (id : Z) (l : list (Z * FileTask)) (acc : gmap Z FileTask) :
    TM (gmap Z FileTask) :=
  match l with
  | [] => mret acc
  | (taskID, t) :: l =>
      if bool_decide (taskID = id) then delete_loop id l acc
      else
        let '(filtered, changed) := removeBlockedByID (BlockedBy t) id in
        if changed then
          u ← now;
          let updated := set_UpdatedAt u (set_BlockedBy filtered t) in
          save updated ;;
          delete_loop id l (<[taskID := updated]> acc)
        else delete_loop id l (<[taskID := t]> acc)
  end.

(** [order] is the order in which [range] visits the map. *)
Definition Delete (order : gmap Z FileTask → list (Z * FileTask)) (id : Z) : TM unit :=
  _ ← get_task id;
  ts ← gets tasks;
  updatedTasks ← delete_loop id (order ts) ∅;
  with_repository (DeleteRow id) ;;
  update (λ m, mkManager updatedTasks (repository m) (tick m)).

End Manager.
Arguments Manager : clear implicits.

(** * Lemmas *)

Section Lemmas.
Context {R : Type} `{Repository R} (clock : nat → Z).
#[local] Abbreviation Manager := (Manager R).

(** ** Invariant *)

(** A task refers to other existing tasks, each at most once. *)
Record wf_task (ts : gmap Z FileTask) (id : Z) (t : FileTask) : Prop := {
  wf_id : ID t = id;
  wf_pos : (0 < id)%Z;
  wf_status : Valid (Status t) = true;
  wf_blockers : Forall (λ b, b ≠ id ∧ (0 < b)%Z ∧ is_Some (ts !! b)) (BlockedBy t);
  wf_nodup : NoDup (BlockedBy t);
}.

Definition wf_tasks (ts : gmap Z FileTask) : Prop := map_Forall (wf_task ts) ts.
Definition wf (m : Manager) : Prop := wf_tasks (tasks m).

Lemma wf_task_mono ts ts' id t :
  (∀ k, is_Some (ts !! k) → is_Some (ts' !! k)) → wf_task ts id t → wf_task ts' id t.
Proof.
  intros Hs [H1 H2 H3 H4 H5]. split; try done. eapply Forall_impl; [done|]. naive_solver.
Qed.

Lemma wf_insert ts id t :
  wf_tasks ts → wf_task (<[id := t]> ts) id t → wf_tasks (<[id := t]> ts).
Proof.
  intros Hts Ht. apply map_Forall_insert_2; [done|]. eapply map_Forall_impl; [done|].
  intros k u Hu. eapply wf_task_mono; [|done]. intros j Hj.
  destruct (decide (id = j)) as [->|]; [by rewrite lookup_insert_eq|by rewrite lookup_insert_ne].
Qed.

Lemma tasks_with_repository (f : R → R * option string) m :
  tasks (run (with_repository f) m) = tasks m.
Proof.
  unfold run, with_repository. destruct (repository m) as [r|]; [|done]. by destruct (f r) as [? []].
Qed.

(** The tail shared by the writing methods: save, then publish. *)
Definition publish (id : Z) (t : FileTask) : M Manager error unit := save t ;; put id t.

Lemma publish_tasks id t m :
  tasks (run (publish id t) m) = tasks m ∨ tasks (run (publish id t) m) = <[id := t]> (tasks m).
Proof.
  unfold publish. rewrite run_bind. pose proof (tasks_with_repository (Save t) m) as Hw.
  fold (save t) in Hw. destruct (out (save t) m); [right|by left]. by rewrite <- Hw.
Qed.

(** ** The next id *)

Lemma next_id_spec fuel id ts :
  (id <= next_id fuel id ts)%Z ∧
  (∀ k, (id <= k < next_id fuel id ts)%Z → is_Some (ts !! k)) ∧
  (ts !! next_id fuel id ts = None ∨ next_id fuel id ts = (id + Z.of_nat fuel)%Z).
Proof.
  revert id. induction fuel as [|fuel IH]; intros id; simpl; [split_and!; [lia|intros; lia|right; lia]|].
  destruct (ts !! id) eqn:Hid; [|split_and!; [lia|intros; lia|by left]].
  destruct (IH (id + 1)%Z) as (Hle&Hall&Hend). split_and!; [lia| |destruct Hend; [by left|right; lia]].
  intros k Hk. destruct (decide (k = id)) as [->|]; [by eexists|]. apply Hall. lia.
Qed.

(** One more than the number of tasks is enough fuel: by counting, some id up
    to there is unused. *)
Lemma next_id_unused ts : ts !! next_id (S (size ts)) 1 ts = None.
Proof.
  destruct (next_id_spec (S (size ts)) 1 ts) as (_&Hall&[|Hend]); [done|]. exfalso.
  set (used := list_to_set (Z.of_nat <$> seq 1 (S (size ts))) : gset Z).
  assert (used ⊆ dom ts) as Hsub.
  { intros k Hk. apply elem_of_list_to_set, list_elem_of_fmap in Hk as (n&->&Hn%elem_of_seq).
    apply elem_of_dom, Hall. rewrite Hend. lia. }
  apply subseteq_size in Hsub. rewrite size_dom in Hsub.
  unfold used in Hsub. rewrite size_list_to_set in Hsub.
  - rewrite length_fmap, length_seq in Hsub. lia.
  - apply NoDup_fmap_2; [apply _|apply NoDup_seq].
Qed.

(** ** Blockers *)

Lemma check_blockers_None taskID ts l :
  check_blockers taskID ts l = None ↔
  Forall (λ b, b ≠ taskID ∧ (0 < b)%Z ∧ is_Some (ts !! b)) l.
Proof.
  induction l as [|b l IH]; simpl; [done|]. rewrite Forall_cons, <- IH.
  case_bool_decide as H1; [naive_solver|]. case_bool_decide as H2; [intuition (done || lia)|].
  destruct (ts !! b) eqn:Hb; [intuition (eauto || lia)|]. split; [done|]. intros [(_&_&[? ?]) _]. done.
Qed.

Lemma normalize_ok taskID current add remove ts l :
  normalizeBlockedBy taskID current add remove ts = Ok l →
  Forall (λ b, b ≠ taskID ∧ (0 < b)%Z ∧ is_Some (ts !! b)) l ∧ NoDup l ∧
  ∀ b, b ∈ l ↔ (b ∈ current ∨ b ∈ add) ∧ b ∉ remove.
Proof.
  unfold normalizeBlockedBy. destruct (check_blockers _ _ _) eqn:Hc; [done|]. intros [= <-].
  apply check_blockers_None in Hc. split_and!.
  - by rewrite (stable_sort_perm int_lt).
  - rewrite (stable_sort_perm int_lt). apply NoDup_dedup.
  - intros b. rewrite elem_of_stable_sort, elem_of_dedup, list_elem_of_filter, elem_of_app. tauto.
Qed.

(** ** Writing methods *)

Lemma run_then_ret {A} (n : M Manager error A) {B} (b : B) m :
  run (n ;; mret b) m = run n m.
Proof. rewrite run_bind. by destruct (out n m). Qed.

Lemma out_get_task id (m : Manager) :
  out (get_task id) m = match tasks m !! id with Some t => Ok t | None => Err (ErrNotFound id) end.
Proof. unfold get_task. rewrite out_bind. cbn. by destruct (tasks m !! id). Qed.

Lemma run_get_task id (m : Manager) : run (get_task id) m = m.
Proof. unfold get_task. rewrite run_bind. cbn. by destruct (tasks m !! id). Qed.

Definition ticks (n : nat) (m : Manager) : Manager := mkManager (tasks m) (repository m) (n + tick m).

(** A write of one method: nothing, or [publish] of one task. *)
Inductive one_write (m : Manager) : Manager → bool → Prop :=
| write_same : one_write m m false
| write_none n : one_write m (ticks n m) false
| write_done n id t :
    (wf m → wf_task (<[id := t]> (tasks m)) id t) →
    one_write m (run (publish id t) (ticks n m)) (is_ok (out (publish id t) (ticks n m))).

Lemma is_ok_map {A B} (n : M Manager error A) (b : B) m :
  is_ok (out (n ;; mret b) m) = is_ok (out n m).
Proof. rewrite out_bind. by destruct (out n m). Qed.

Definition new_task (id : Z) subject description created updated : FileTask :=
  mkTask id subject description StatusPending created updated [].

Lemma Create_eq subject description (m : Manager) :
  let id := next_id (S (size (tasks m))) 1 (tasks m) in
  let t := new_task id subject description (clock (tick m)) (clock (S (tick m))) in
  Create clock subject description m = (publish id t ;; mret t) (ticks 2 m).
Proof.
  cbn zeta. unfold Create, publish. erewrite (bind_ok (gets tasks)) by reflexivity.
  erewrite (bind_ok (now clock)) by reflexivity. erewrite (bind_ok (now clock)) by reflexivity.
  unfold mbind, M_bind, ticks. cbn. by destruct (save _ _) as [? []].
Qed.

Lemma Create_write subject description m :
  one_write m (run (Create clock subject description) m) (is_ok (out (Create clock subject description) m)).
Proof.
  pose proof (Create_eq subject description m) as He. cbn zeta in He.
  set (id := next_id _ _ _) in He. set (t := new_task _ _ _ _ _) in He.
  change (one_write m (Create clock subject description m).1
    (is_ok (Create clock subject description m).2)). rewrite He.
  change (one_write m (run (publish id t ;; mret t) (ticks 2 m))
    (is_ok (out (publish id t ;; mret t) (ticks 2 m)))).
  rewrite run_then_ret, is_ok_map. apply write_done. intros _.
  destruct (next_id_spec (S (size (tasks m))) 1 (tasks m)) as (Hpos&_).
  split; simpl; [done|subst id; lia|by apply bool_decide_eq_true; left|constructor..].
Qed.

Lemma wf_same_blockers ts id t t' :
  ts !! id = Some t → ID t' = ID t → BlockedBy t' = BlockedBy t → Valid (Status t') = true →
  wf_tasks ts → wf_task (<[id := t']> ts) id t'.
Proof.
  intros Ht Hid Hb Hs Hts. destruct (Hts id t Ht) as [H1 H2 H3 H4 H5].
  split; rewrite ?Hid, ?Hb; try done. eapply Forall_impl; [done|].
  intros b (?&?&?). split_and!; try done. destruct (decide (b = id)) as [->|];
    [by rewrite lookup_insert_eq|by rewrite lookup_insert_ne].
Qed.

Definition claimed (u : Z) (t : FileTask) : FileTask :=
  set_UpdatedAt u (set_Status StatusInProgress t).

Lemma ClaimPending_eq id (m : Manager) :
  ClaimPending clock id m =
  match tasks m !! id with
  | None => (m, Err (ErrNotFound id))
  | Some t =>
      if negb (bool_decide (Status t = StatusPending)) then (m, Err (ErrNotAvailable (Status t)))
      else if bool_decide (0 < length (BlockedBy t)) then (m, Err ErrBlocked)
      else (publish id (claimed (clock (tick m)) t) ;; mret (claimed (clock (tick m)) t)) (ticks 1 m)
  end.
Proof.
  unfold ClaimPending, get_task, publish, mbind, M_bind, ticks. cbn.
  destruct (tasks m !! id) as [t|]; [|done]. cbn. case_bool_decide; [|done]. cbn.
  case_bool_decide; [done|]. cbn. by destruct (save _ _) as [? []].
Qed.

Lemma ClaimPending_write id m :
  one_write m (run (ClaimPending clock id) m) (is_ok (out (ClaimPending clock id) m)).
Proof.
  unfold run, out. rewrite ClaimPending_eq. destruct (tasks m !! id) as [t|] eqn:Ht; [|by apply write_same].
  case_bool_decide; simpl; [|by apply write_same]. case_bool_decide; simpl; [by apply write_same|].
  set (t' := claimed _ _). change (one_write m (run (publish id t' ;; mret t') (ticks 1 m))
    (is_ok (out (publish id t' ;; mret t') (ticks 1 m)))).
  rewrite run_then_ret, is_ok_map. apply write_done.
  intros Hwf. by eapply wf_same_blockers.
Qed.

Lemma Update_write id status add remove m :
  one_write m (run (Update clock id status add remove) m)
    (is_ok (out (Update clock id status add remove) m)).
Proof.
  unfold Update. rewrite run_bind, out_bind, run_get_task, out_get_task.
  destruct (tasks m !! id) as [t|] eqn:Ht; [|by apply write_same].
  rewrite run_bind, out_bind.
  destruct (negb (bool_decide (status = "")) && negb (Valid status)) eqn:Hst;
    [by apply write_same|]. cbn [out run mret M_ret snd fst].
  rewrite run_bind, out_bind. cbn [out now snd run fst].
  rewrite run_bind, out_bind. cbn [out gets snd run fst tasks].
  set (t1 := if bool_decide (status = "") then t else set_Status status t).
  assert (ID t1 = ID t ∧ (wf_tasks (tasks m) → Valid (Status t1) = true)) as [Hid Hv].
  { subst t1. destruct (bool_decide (status = "")) eqn:Hne; simpl; (split; [done|]).
    - intros Hwf. apply (wf_status _ _ _ (Hwf id t Ht)).
    - intros _. simpl in Hst. by apply negb_false_iff in Hst. }
  destruct (normalizeBlockedBy id (BlockedBy t1) add remove (tasks m)) as [l|e] eqn:Hn;
    [|by apply (write_none m 1)].
  apply (write_done m 1). intros Hwf. apply normalize_ok in Hn as (Hall&Hnd&_).
  split; simpl; [rewrite Hid; apply (wf_id _ _ _ (Hwf id t Ht))|apply (wf_pos _ _ _ (Hwf id t Ht))
    |by apply Hv| |done].
  eapply Forall_impl; [done|]. intros b (?&?&?). split_and!; try done.
  by rewrite lookup_insert_ne.
Qed.

Lemma wf_one_write m m' ok : one_write m m' ok → wf m → wf m'.
Proof.
  intros [|n|n id t Ht] Hwf; [done..|]. unfold wf.
  destruct (publish_tasks id t (ticks n m)) as [->| ->]; [done|]. apply wf_insert; auto.
Qed.

(** ** Deletion *)

(** What [Delete] makes of another task. *)
Definition strip (id : Z) (t t' : FileTask) : Prop :=
  (id ∉ BlockedBy t ∧ t' = t) ∨
  (id ∈ BlockedBy t ∧ ∃ u, t' = set_UpdatedAt u (set_BlockedBy (filter (λ b, b ≠ id) (BlockedBy t)) t)).

Lemma strip_total id t : id ∉ BlockedBy t → strip id t t.
Proof. by left. Qed.

(** The loop keeps the manager's tasks and returns the stripped ones. *)
Lemma delete_loop_spec id l acc m :
  NoDup l.*1 →
  tasks (run (delete_loop clock id l acc) m) = tasks m ∧
  ∀ acc', out (delete_loop clock id l acc) m = Ok acc' →
    (∀ k, k = id ∨ k ∉ l.*1 → acc' !! k = acc !! k) ∧
    (∀ k t, (k, t) ∈ l → k ≠ id → ∃ t', strip id t t' ∧ acc' !! k = Some t').
Proof.
  revert acc m. induction l as [|[k t] l IH]; intros acc m Hnd; simpl.
  { split; [done|]. intros acc' [= <-]. split; [done|]. by intros ?? ?%elem_of_nil. }
  cbn in Hnd. apply NoDup_cons in Hnd as [Hk Hnd].
  case_bool_decide as Hid.
  - subst k. destruct (IH acc m Hnd) as [Ht Ho]. split; [done|]. intros acc' Hacc.
    destruct (Ho acc' Hacc) as [H1 H2]. split.
    + intros j Hj. apply H1. cbn in Hj. rewrite not_elem_of_cons in Hj. tauto.
    + intros j u [[= -> ->]|Hj]%elem_of_cons Hne; [done|]. by apply H2.
  - assert (∀ t', strip id t t' → ∀ m acc', out (delete_loop clock id l (<[k := t']> acc)) m = Ok acc' →
      (∀ j, j = id ∨ j ∉ k :: l.*1 → acc' !! j = acc !! j) ∧
      (∀ j u, (j, u) ∈ (k, t) :: l → j ≠ id → ∃ t', strip id u t' ∧ acc' !! j = Some t')) as Hins.
    { intros t' Hs m0 acc' Hacc. destruct (IH (<[k := t']> acc) m0 Hnd) as [_ Ho].
      destruct (Ho acc' Hacc) as [H1 H2]. split.
      - intros j Hj. rewrite not_elem_of_cons in Hj. rewrite H1 by tauto.
        apply lookup_insert_ne. naive_solver.
      - intros j u [[= -> ->]|Hj]%elem_of_cons Hne; [|by apply H2].
        exists t'. split; [done|]. rewrite H1 by tauto. apply lookup_insert_eq. }
    cbn. case_bool_decide as Hin.
    + rewrite run_bind, out_bind. cbn [out now snd run fst].
      rewrite run_bind, out_bind.
      set (t' := set_UpdatedAt _ _). set (m1 := mkManager _ _ _).
      pose proof (tasks_with_repository (Save t') m1) as Hw. fold (save t') in Hw.
      destruct (out (save t') m1); [|done].
      destruct (IH (<[k := t']> acc) (run (save t') m1) Hnd) as [-> _]. split; [done|].
      apply Hins. right. split; [done|]. by eexists.
    + destruct (IH (<[k := t]> acc) m Hnd) as [-> _]. split; [done|]. apply Hins. by left.
Qed.


(** An order in which [range] may visit a map. *)
Definition visits (order : gmap Z FileTask → list (Z * FileTask)) : Prop :=
  ∀ ts, order ts ≡ₚ map_to_list ts.

(** The tasks after a successful deletion: the others, stripped. *)
Definition deleted (id : Z) (ts ts' : gmap Z FileTask) : Prop :=
  ts' !! id = None ∧
  (∀ k, k ≠ id → ts !! k = None → ts' !! k = None) ∧
  ∀ k t, k ≠ id → ts !! k = Some t → ∃ t', strip id t t' ∧ ts' !! k = Some t'.

Lemma visits_NoDup order ts : visits order → NoDup (order ts).*1.
Proof. intros Ho. rewrite (Ho ts). apply NoDup_fst_map_to_list. Qed.

Lemma delete_loop_deleted order id m acc' :
  visits order → out (delete_loop clock id (order (tasks m)) ∅) m = Ok acc' →
  deleted id (tasks m) acc'.
Proof.
  intros Ho Hacc. pose proof (visits_NoDup order (tasks m) Ho) as Hnd.
  destruct (delete_loop_spec id (order (tasks m)) ∅ m Hnd) as [_ Hs].
  destruct (Hs acc' Hacc) as [H1 H2]. split_and!.
  - rewrite H1 by auto. apply lookup_empty.
  - intros k Hk Hts. rewrite H1; [apply lookup_empty|]. right. rewrite (Ho (tasks m)).
    intros ((k'&t)&->&Hin)%list_elem_of_fmap. apply elem_of_map_to_list in Hin. simpl in Hts. congruence.
  - intros k t Hk Hts. apply H2; [|done]. rewrite (Ho (tasks m)). by apply elem_of_map_to_list.
Qed.

(** [Delete] either keeps the tasks and fails, or deletes. *)
Lemma Delete_tasks order id m :
  visits order →
  (is_ok (out (Delete clock order id) m) = false ∧ tasks (run (Delete clock order id) m) = tasks m) ∨
  (out (Delete clock order id) m = Ok tt ∧ is_Some (tasks m !! id) ∧
   deleted id (tasks m) (tasks (run (Delete clock order id) m))).
Proof.
  intros Ho. unfold Delete. rewrite run_bind, out_bind, run_get_task, out_get_task.
  destruct (tasks m !! id) as [t|] eqn:Ht; [|by left].
  rewrite run_bind, out_bind. cbn [out gets snd run fst]. rewrite run_bind, out_bind.
  destruct (delete_loop_spec id (order (tasks m)) ∅ m (visits_NoDup _ _ Ho)) as [Hk _].
  pose proof (λ acc', delete_loop_deleted order id m acc' Ho) as Hd.
  destruct (out (delete_loop clock id (order (tasks m)) ∅) m) as [acc'|e]; [|by left].
  set (m1 := run (delete_loop clock id (order (tasks m)) ∅) m) in *.
  rewrite run_bind, out_bind. pose proof (tasks_with_repository (DeleteRow id) m1) as Hw.
  destruct (out (with_repository (DeleteRow id)) m1); [|left; by rewrite Hw, Hk].
  right. split_and!; [done|by eexists|]. by apply Hd.
Qed.

Lemma strip_keeps id t t' :
  strip id t t' → ID t' = ID t ∧ Status t' = Status t ∧
    BlockedBy t' = filter (λ b, b ≠ id) (BlockedBy t).
Proof.
  intros [[Hnin ->]|[_ [u ->]]]; [|done]. split_and!; [done..|]. symmetry. apply filter_all.
  apply Forall_forall. by intros b Hb ->.
Qed.

Lemma wf_deleted id ts ts' : deleted id ts ts' → wf_tasks ts → wf_tasks ts'.
Proof.
  intros (Hid&Hn&Hs) Hts k t' Hk. destruct (decide (k = id)) as [->|Hne]; [congruence|].
  destruct (ts !! k) as [t|] eqn:Ht; [|by rewrite Hn in Hk].
  destruct (Hs k t Hne Ht) as (t2&Hstrip&Hk2). simplify_eq.
  destruct (strip_keeps _ _ _ Hstrip) as (Hi&Hst&Hb). destruct (Hts k t Ht) as [H1 H2 H3 H4 H5].
  split; rewrite ?Hi, ?Hst, ?Hb; try done; [|by apply NoDup_filter].
  apply Forall_forall. intros b [Hbid Hb2]%list_elem_of_filter. rewrite Forall_forall in H4.
  destruct (H4 b Hb2) as (?&?&[u Hu]). split_and!; [done..|].
  destruct (Hs b u Hbid Hu) as (?&_&?). by eexists.
Qed.

(** ** Every call *)

Inductive op : Type :=
| OpCreate (subject description : string)
| OpUpdate (id : Z) (status : string) (add remove : list Z)
| OpClaim (id : Z)
| OpDelete (order : gmap Z FileTask → list (Z * FileTask)) (id : Z).

Definition forget {A} (n : M Manager error A) : M Manager error unit := _ ← n; mret tt.

Definition exec (o : op) : M Manager error unit :=
  match o with
  | OpCreate s d => forget (Create clock s d)
  | OpUpdate id st add rm => Update clock id st add rm
  | OpClaim id => forget (ClaimPending clock id)
  | OpDelete order id => Delete clock order id
  end.

(** The runtime visits every entry of a map once. *)
Definition op_ok (o : op) : Prop :=
  match o with OpDelete order _ => visits order | _ => True end.

Lemma exec_write o m :
  match o with OpDelete _ _ => True
  | _ => one_write m (run (exec o) m) (is_ok (out (exec o) m)) end.
Proof.
  destruct o; simpl; try done; unfold forget; rewrite ?run_then_ret, ?is_ok_map;
    [apply Create_write|apply Update_write|apply ClaimPending_write].
Qed.

Lemma wf_task_exec o : op_ok o → preserves wf (exec o).
Proof.
  intros Hok m Hwf. pose proof (exec_write o m) as Hw.
  destruct o; try (by eapply wf_one_write). simpl.
  destruct (Delete_tasks order id m Hok) as [[_ Ht]|(_&_&Hd)]; unfold wf; [by rewrite Ht|].
  by eapply wf_deleted.
Qed.

(** C39: the task graph stays closed under every sequence of calls, with any
    repository and any failures: every task is stored under its own positive
    id, has one of the three statuses, and is blocked only by other existing
    tasks, each listed once; deleting a task removes it from the blockers of
    the others. *)
Theorem tasks_invariant ops m :
  Forall op_ok ops → wf m → wf (fold_left (λ m o, run (exec o) m) ops m).
Proof.
  intros Hops. revert m. induction Hops as [|o ops Ho Hops IH]; intros m Hwf; [done|].
  by apply IH, wf_task_exec.
Qed.

(** A new task gets the least unused positive id: the search always ends
    on an id that no task has, and all smaller positive ids are taken. *)
Theorem Create_least_id subject description m t :
  out (Create clock subject description) m = Ok t →
  (0 < ID t)%Z ∧ tasks m !! ID t = None ∧ ∀ k, (0 < k < ID t)%Z → is_Some (tasks m !! k).
Proof.
  pose proof (Create_eq subject description m) as He. cbn zeta in He. unfold out. rewrite He.
  set (id := next_id _ _ _). set (t' := new_task _ _ _ _ _).
  change (out (publish id t' ;; mret t') (ticks 2 m) = Ok t → (0 < ID t)%Z ∧
    tasks m !! ID t = None ∧ ∀ k, (0 < k < ID t)%Z → is_Some (tasks m !! k)).
  rewrite out_bind. destruct (out _ (ticks 2 m)); [|done]. intros [= <-]. simpl.
  destruct (next_id_spec (S (size (tasks m))) 1 (tasks m)) as (Hle&Hall&_).
  split_and!; [lia|apply next_id_unused|]. intros k Hk. apply Hall. lia.
Qed.

(** Claiming hands out a task at most once: it succeeds only on a pending
    task without blockers, and right after it every further claim of the task
    is refused. *)
Theorem claim_is_exclusive id m t :
  out (ClaimPending clock id) m = Ok t →
  (∃ t0, tasks m !! id = Some t0 ∧ Status t0 = StatusPending ∧ BlockedBy t0 = []) ∧
  Status t = StatusInProgress ∧
  out (ClaimPending clock id) (run (ClaimPending clock id) m) = Err (ErrNotAvailable StatusInProgress).
Proof.
  unfold out at 1. rewrite ClaimPending_eq. destruct (tasks m !! id) as [t0|] eqn:Ht; [|done].
  case_bool_decide as Hs; simpl; [|done]. case_bool_decide as Hb; simpl; [done|].
  set (t' := claimed _ _).
  change ((publish id t' ;; mret t') (ticks 1 m)).2 with (out (publish id t' ;; mret t') (ticks 1 m)).
  intros Hok. assert (t = t') as ->.
  { revert Hok. rewrite out_bind. by destruct (out _ _); [intros [= <-]|]. }
  split; [|split; [done|]].
  { exists t0. split_and!; [done..|]. destruct (BlockedBy t0); [done|simpl in Hb; lia]. }
  assert (tasks (run (ClaimPending clock id) m) = <[id := t']> (tasks m)) as Hm.
  { unfold run. rewrite ClaimPending_eq, Ht, bool_decide_true, bool_decide_false by done. simpl.
    fold t'. change ((publish id t' ;; mret t') (ticks 1 m)).1 with (run (publish id t' ;; mret t') (ticks 1 m)).
    rewrite run_then_ret. rewrite out_bind in Hok. unfold publish in *. rewrite run_bind.
    rewrite out_bind in Hok. pose proof (tasks_with_repository (Save t') (ticks 1 m)) as Hw.
    fold (save t') in Hw. destruct (out (save t') (ticks 1 m)); [|done].
    change (<[id := t']> (tasks (run (save t') (ticks 1 m))) = <[id := t']> (tasks m)).
    by rewrite Hw. }
  unfold out. rewrite ClaimPending_eq, Hm, lookup_insert_eq. done.
Qed.

End Lemmas.

(** ** Persistence *)

Section Persistence.
Context {R : Type} `{Repository R} (rows : R → gmap Z FileTask) `{!RepositoryLaws R rows}.
Context (clock : nat → Z).
#[local] Abbreviation Manager := (Manager R).

(** The repository, if any, holds exactly the tasks of the manager. *)
Definition synced (m : Manager) : Prop := ∀ r, repository m = Some r → rows r = tasks m.

Lemma synced_publish id t m : ID t = id → synced m → synced (run (publish id t) m).
Proof.
  intros Hid Hm r. unfold publish, save, with_repository, run, mbind, M_bind.
  destruct (repository m) as [r0|] eqn:Hr; simpl.
  - specialize (Hm r0 Hr). destruct (Save t r0) as [r1 [e|]] eqn:Hs; simpl; intros [= <-].
    + by rewrite (save_failed (rows := rows) _ _ _ _ Hs).
    + by rewrite (save_ok (rows := rows) _ _ _ Hs), Hid, Hm.
  - rewrite Hr. done.
Qed.

Lemma synced_one_write m m' ok : one_write m m' ok → wf m → synced m → synced m'.
Proof.
  intros [|n|n id t Ht] Hwf Hm; [done..|]. apply synced_publish; [|done].
  apply (wf_id _ _ _ (Ht Hwf)).
Qed.

Lemma with_repository_run (f : R → R * option string) (m : Manager) r :
  repository m = Some r →
  run (with_repository f) m = mkManager (tasks m) (Some (f r).1) (tick m) ∧
  out (with_repository f) m = match (f r).2 with Some e => Err (ErrRepository e) | None => Ok tt end.
Proof.
  intros Hr. unfold run, out, with_repository. rewrite Hr. by destruct (f r) as [? []].
Qed.

(** The rows a deletion may leave: as they were, or stripped already. *)
Definition partly_stripped (id : Z) (rs rs' : gmap Z FileTask) : Prop :=
  ∀ k, rs' !! k = rs !! k ∨ ∃ t t', rs !! k = Some t ∧ strip id t t' ∧ rs' !! k = Some t'.

(** The rows after the loop, where [l] lists rows under their own ids. *)
Lemma delete_loop_rows id l acc m r :
  NoDup l.*1 → repository m = Some r →
  (∀ k t, (k, t) ∈ l → rows r !! k = Some t ∧ ID t = k) →
  ∃ r', repository (run (delete_loop clock id l acc) m) = Some r' ∧
    partly_stripped id (rows r) (rows r') ∧
    (∀ k, k ∉ l.*1 → rows r' !! k = rows r !! k) ∧ rows r' !! id = rows r !! id ∧
    ∀ acc', out (delete_loop clock id l acc) m = Ok acc' →
      ∀ k, k ∈ l.*1 → k ≠ id → rows r' !! k = acc' !! k.
Proof.
  revert acc m r. induction l as [|[k t] l IH]; intros acc m r Hnd Hr Hl.
  { exists r. split_and!; [done|by left|done..|]. by intros ? _ k ?%elem_of_nil. }
  cbn in Hnd. apply NoDup_cons in Hnd as [Hk Hnd].
  assert (∀ k' t', (k', t') ∈ l → rows r !! k' = Some t' ∧ ID t' = k') as Hl'.
  { intros k' t' Hin. apply Hl. by right. }
  assert (∀ acc m t', (acc !! k = Some t' ∨ k = id) → repository m = Some r →
    rows r !! k = Some t' ∨ k = id →
    ∃ r', repository (run (delete_loop clock id l acc) m) = Some r' ∧
    partly_stripped id (rows r) (rows r') ∧
    (∀ k', k' ∉ k :: l.*1 → rows r' !! k' = rows r !! k') ∧ rows r' !! id = rows r !! id ∧
    ∀ acc', out (delete_loop clock id l acc) m = Ok acc' →
      ∀ k', k' ∈ k :: l.*1 → k' ≠ id → rows r' !! k' = acc' !! k') as Hskip.
  { intros acc0 m0 t' Hacc0 Hr0 Hrow. destruct (IH acc0 m0 r Hnd Hr0 Hl') as (r'&?&?&Hout&?&Hin).
    exists r'. split_and!; [done..| |done|].
    - intros k' Hk'. apply Hout. rewrite not_elem_of_cons in Hk'. tauto.
    - intros acc' Hacc' k' [->|Hk']%elem_of_cons Hne; [|by apply Hin].
      destruct (delete_loop_spec clock id l acc0 m0 Hnd) as [_ Hs].
      destruct (Hs acc' Hacc') as [Hkeep _]. rewrite Hout, Hkeep by auto.
      destruct Hacc0 as [->|]; [|done]. by destruct Hrow. }
  simpl delete_loop. case_bool_decide as Hid; [by eapply (Hskip _ _ t); auto|].
  case_bool_decide as Hin; simpl.
  2: { eapply (Hskip _ _ t); [left; apply lookup_insert_eq|done|]. left. apply Hl. by left. }
  rewrite run_bind. setoid_rewrite out_bind. cbn [out now snd run fst].
  rewrite run_bind. setoid_rewrite out_bind.
  set (t' := set_UpdatedAt _ _). set (m1 := mkManager _ _ _).
  destruct (Hl k t) as [Hrow Hidt]; [by left|].
  assert (strip id t t') as Hstrip by (right; split; [done|by eexists]).
  destruct (with_repository_run (Save t') m1 r Hr) as [Hrun Hout]. fold (save t') in Hrun, Hout.
  rewrite Hrun. setoid_rewrite Hout.
  destruct (Save t' r) as [r2 [e|]] eqn:Hs; simpl.
  { exists r2. rewrite (save_failed (rows := rows) _ _ _ _ Hs). split_and!; [done|by left|done..]. }
  pose proof (save_ok (rows := rows) _ _ _ Hs) as Hrows. replace (ID t') with k in Hrows.
  assert (rows r2 !! k = Some t') as Hk2 by (rewrite Hrows; apply lookup_insert_eq).
  assert (∀ j, j ≠ k → rows r2 !! j = rows r !! j) as Hoth.
  { intros j Hj. rewrite Hrows. by apply lookup_insert_ne. }
  clear Hout. destruct (IH (<[k := t']> acc) (mkManager (tasks m1) (Some r2) (tick m1)) r2 Hnd eq_refl)
    as (r'&Hr'&Hps&Hout&Hid2&Hin2).
  { intros k' u Hu. rewrite Hoth; [by apply Hl'|]. intros ->. apply Hk.
    apply list_elem_of_fmap. by exists (k, u). }
  exists r'. split_and!; [done| | | |].
  - intros j. destruct (decide (j = k)) as [->|Hj].
    + right. exists t, t'. split_and!; [done..|]. by rewrite Hout.
    + rewrite <- (Hoth j Hj). apply Hps.
  - intros j Hj. cbn in Hj. rewrite not_elem_of_cons in Hj. rewrite Hout, Hoth; tauto.
  - rewrite Hid2. by apply Hoth.
  - intros acc' Hacc' j Hj Hne. cbn in Hj. apply elem_of_cons in Hj as [->|Hj]; [|by apply Hin2].
    destruct (delete_loop_spec clock id l (<[k := t']> acc)
      (mkManager (tasks m1) (Some r2) (tick m1)) Hnd) as [_ Hspec].
    destruct (Hspec acc' Hacc') as [Hkeep _]. rewrite Hout, Hkeep by auto.
    by rewrite Hk2, lookup_insert_eq.
Qed.

(** [loadAll] rebuilds the rows. *)
Lemma load_rows ts (acc : gmap Z FileTask) id t :
  fold_left (λ acc t, <[ID t := t]> acc) ts acc !! id = Some t →
  (t ∈ ts ∧ ID t = id) ∨ acc !! id = Some t.
Proof.
  revert acc. induction ts as [|u ts IH]; intros acc; simpl; [by right|].
  intros [[Hin Hid]|Hacc]%IH; [left; split; [by right|done]|].
  apply lookup_insert_Some in Hacc as [[<- ->]|[_ ?]]; [left; split; [by left|done]|by right].
Qed.

Lemma load_rows_dom ts (acc : gmap Z FileTask) t :
  t ∈ ts → is_Some (fold_left (λ acc t, <[ID t := t]> acc) ts acc !! ID t).
Proof.
  revert acc. induction ts as [|u ts IH]; intros acc; simpl; [by intros ?%elem_of_nil|].
  intros [->|Hin]%elem_of_cons; [|by apply IH].
  assert (is_Some (<[ID u := u]> acc !! ID u)) as Hs by (rewrite lookup_insert_eq; eauto).
  revert Hs. generalize (<[ID u := u]> acc). clear. induction ts as [|v ts IH]; intros acc Hs; simpl; [done|].
  apply IH. destruct (decide (ID v = ID u)) as [->|]; [by rewrite lookup_insert_eq|by rewrite lookup_insert_ne].
Qed.

Lemma NewManager_tasks r ts : LoadAll r = Ok ts → tasks (NewManager (Some r)) = rows r.
Proof.
  intros Hl. unfold NewManager, run, loadAll. simpl. rewrite Hl. simpl.
  apply map_eq. intros id. apply option_eq. intros t. rewrite (load_ok r ts Hl). split.
  - intros [?|Hacc]%load_rows; [done|]. by rewrite lookup_empty in Hacc.
  - intros [Hin Hid]. destruct (load_rows_dom ts ∅ t Hin) as [u Hu]. rewrite Hid in Hu. rewrite Hu.
    apply load_rows in Hu as [Hu|Hu]; [|by rewrite lookup_empty in Hu].
    apply (load_ok r ts Hl) in Hu. assert (t ∈ ts ∧ ID t = id) as Ht by done.
    apply (load_ok r ts Hl) in Ht. congruence.
Qed.

(** An in-memory manager stays one. *)
Lemma delete_loop_in_memory id l acc (m : Manager) :
  repository m = None → repository (run (delete_loop clock id l acc) m) = None.
Proof.
  revert acc m. induction l as [|[k t] l IH]; intros acc m0 H0; [done|]. simpl.
  case_bool_decide; [by apply IH|]. case_bool_decide; simpl; [|by apply IH].
  rewrite run_bind. cbn [out now snd run fst].
  rewrite run_bind. unfold save, with_repository. cbn. rewrite H0. by apply IH.
Qed.

Lemma Delete_in_memory order id (m : Manager) :
  repository m = None → repository (run (Delete clock order id) m) = None.
Proof.
  intros Hr. unfold Delete. rewrite run_bind, run_get_task. destruct (out (get_task id) m); [|done].
  rewrite run_bind. cbn [out gets snd run fst]. rewrite run_bind.
  pose proof (delete_loop_in_memory id (order (tasks m)) ∅ m Hr) as Hl.
  destruct (out (delete_loop _ _ _ _) m); [|done].
  rewrite run_bind. unfold with_repository. set (m1 := run (delete_loop _ _ _ _) m) in *.
  unfold out, run at 2. by rewrite Hl.
Qed.

Lemma synced_Delete order id m :
  visits order → wf m → synced m →
  (is_ok (out (Delete clock order id) m) = true → synced (run (Delete clock order id) m)) ∧
  ∀ r, repository m = Some r → ∃ r', repository (run (Delete clock order id) m) = Some r' ∧
    (is_ok (out (Delete clock order id) m) = false → partly_stripped id (rows r) (rows r')).
Proof.
  intros Ho Hwf Hm. destruct (repository m) as [r|] eqn:Hr.
  - specialize (Hm r Hr). unfold Delete. rewrite run_bind, out_bind, run_get_task, out_get_task.
    destruct (tasks m !! id) as [t|] eqn:Ht.
    2: { split; [done|]. intros ? [= <-]. exists r. split; [done|]. by left. }
    rewrite run_bind, out_bind. cbn [out gets snd run fst]. rewrite run_bind, out_bind.
    destruct (delete_loop_rows id (order (tasks m)) ∅ m r (visits_NoDup _ _ Ho) Hr)
      as (r1&Hr1&Hps&Hout&Hrid&Hin).
    { intros k u Hu. rewrite (Ho (tasks m)), elem_of_map_to_list in Hu. rewrite Hm. split; [done|].
      apply (wf_id _ _ _ (Hwf k u Hu)). }
    pose proof (λ acc', delete_loop_deleted clock order id m acc' Ho) as Hd.
    destruct (out (delete_loop clock id (order (tasks m)) ∅) m) as [acc'|e]; [|split; [done|]].
    2: { intros ? [= <-]. by exists r1. }
    destruct (with_repository_run (DeleteRow id) _ r1 Hr1) as [Hrun Ho2].
    rewrite run_bind, out_bind, Hrun, Ho2.
    destruct (DeleteRow id r1) as [r2 [e|]] eqn:Hdel; simpl.
    { split; [done|]. intros ? [= <-]. exists r2. split; [done|]. intros _.
      by rewrite (delete_failed (rows := rows) _ _ _ _ Hdel). }
    split; [|intros ? [= <-]; by exists r2]. intros _ r3 [= <-]. simpl.
    rewrite (delete_ok (rows := rows) _ _ _ Hdel). apply map_eq. intros k.
    destruct (Hd acc' eq_refl) as (Hdid&Hdn&_). destruct (decide (k = id)) as [->|Hk].
    { by rewrite lookup_delete_eq. }
    rewrite lookup_delete_ne by done. destruct (tasks m !! k) as [u|] eqn:Hu.
    + apply (Hin acc'); [done| |done]. apply list_elem_of_fmap. exists (k, u). split; [done|].
      by rewrite (Ho (tasks m)), elem_of_map_to_list.
    + rewrite (Hdn k Hk Hu), Hout, Hm; [done|]. intros ((k'&u)&->&Hku)%list_elem_of_fmap.
      rewrite (Ho (tasks m)), elem_of_map_to_list in Hku. simpl in Hu. congruence.
  - split; [|done]. intros _ r Hrr. by rewrite Delete_in_memory in Hrr.
Qed.

(** The manager is a write-through cache of any repository that stores
    rows: after every call the repository holds exactly the tasks in memory,
    so that a new manager on it has the same tasks; the one exception is a
    deletion that failed half-way, which keeps the tasks in memory but may
    already have stored some of them without the deleted blocker. *)
Theorem write_through o m :
  op_ok o → wf m → synced m →
  let m' := run (exec clock o) m in
  (synced m' ∧ ∀ r ts, repository m' = Some r → LoadAll r = Ok ts →
     tasks (NewManager (Some r)) = tasks m') ∨
  ∃ order id r r', o = OpDelete order id ∧ is_ok (out (exec clock o) m) = false ∧
    tasks m' = tasks m ∧ repository m = Some r ∧ repository m' = Some r' ∧
    partly_stripped id (rows r) (rows r').
Proof.
  intros Ho Hwf Hm m'.
  assert (synced m' → ∀ r ts, repository m' = Some r → LoadAll r = Ok ts →
    tasks (NewManager (Some r)) = tasks m') as Hload.
  { intros Hs r ts Hr Hl. rewrite (NewManager_tasks r ts Hl). by apply Hs. }
  enough (synced m' ∨ ∃ order id r r', o = OpDelete order id ∧ is_ok (out (exec clock o) m) = false ∧
    tasks m' = tasks m ∧ repository m = Some r ∧ repository m' = Some r' ∧
    partly_stripped id (rows r) (rows r')) as [Hs|Hs].
  { left. split; [exact Hs|by apply Hload]. }
  { by right. }
  pose proof (exec_write clock o m) as Hw.
  destruct o as [| | |order id]; try (left; by eapply synced_one_write). clear Hw.
  destruct (synced_Delete order id m Ho Hwf Hm) as [Hok Hfail].
  destruct (Delete_tasks clock order id m Ho) as [[Hf Ht]|[Hd _]].
  - destruct (repository m) as [r|] eqn:Hr.
    + right. destruct (Hfail r eq_refl) as (r'&Hr'&Hp). exists order, id, r, r'. by split_and!; [..|apply Hp].
    + left. intros r Hrr. subst m'. simpl in Hrr. by rewrite Delete_in_memory in Hrr.
  - left. apply Hok. by rewrite Hd.
Qed.

End Persistence.

(** A repository in memory that never fails. *)
#[export] Instance map_repository : Repository (gmap Z FileTask) := {
  LoadAll r := Ok (snd <$> filter (λ p, ID p.2 = p.1) (map_to_list r));
  Save t r := (<[ID t := t]> r, None);
  DeleteRow id r := (delete id r, None);
}.

Definition map_rows (r : gmap Z FileTask) : gmap Z FileTask := filter (λ p, ID p.2 = p.1) r.

#[export] Instance map_repository_laws : RepositoryLaws (gmap Z FileTask) map_rows.
Proof.
  split; simpl; try done; unfold map_rows.
  - intros t r r' [= <-]. by rewrite map_filter_insert_True.
  - intros id r r' [= <-]. apply map_filter_delete.
  - intros r ts [= <-] id t. rewrite map_lookup_filter_Some, list_elem_of_fmap. simpl. split.
    + intros [Hr Hid]. split; [|done]. exists (id, t). split; [done|].
      by rewrite list_elem_of_filter, elem_of_map_to_list.
    + intros [((k&u)&->&[Hk Hr]%list_elem_of_filter) Hid]. rewrite elem_of_map_to_list in Hr.
      simpl in *. by subst.
Qed.

Lemma wf_empty : wf_tasks ∅.
Proof. apply map_Forall_empty. Qed.

Lemma write_through_witness :
  let o := OpCreate "a" "b" in
  let m := mkManager (R := gmap Z FileTask) ∅ (Some ∅) 0 in
  (synced map_rows (run (exec (λ _, 0%Z) o) m) ∧
   ∀ r ts, repository (run (exec (λ _, 0%Z) o) m) = Some r → LoadAll r = Ok ts →
     tasks (NewManager (Some r)) = tasks (run (exec (λ _, 0%Z) o) m)) ∧
  size (tasks (run (exec (λ _, 0%Z) o) m)) = 1.
Proof.
  intros o m. split; [|vm_compute; reflexivity].
  destruct (write_through map_rows (λ _, 0%Z) o m I) as [Hs|(?&?&?&?&Ho&_)];
    [exact wf_empty|by intros r [= <-]|exact Hs|discriminate Ho].
Defined.

Lemma tasks_invariant_witness :
  let ops := [OpCreate "a" ""; OpCreate "b" ""; OpUpdate 2 "" [1%Z] []; OpDelete map_to_list 1] in
  let m := mkManager (R := gmap Z FileTask) ∅ None 0 in
  wf (fold_left (λ m o, run (exec (λ _, 0%Z) o) m) ops m) ∧
  size (tasks (fold_left (λ m o, run (exec (λ _, 0%Z) o) m) ops m)) = 1.
Proof.
  intros ops m. split; [|vm_compute; reflexivity].
  apply (tasks_invariant (λ _, 0%Z) ops m); [repeat constructor; by intros ts|].
  exact wf_empty.
Defined.

Lemma Create_least_id_witness :
  let m := mkManager (R := gmap Z FileTask) ∅ None 0 in
  (0 < ID (new_task 1 "a" "b" 0 0))%Z.
Proof.
  intros m. apply (Create_least_id (λ _, 0%Z) "a" "b" m). vm_compute. reflexivity.
Defined.

Lemma claim_is_exclusive_witness :
  let t := new_task 1 "a" "" 0 0 in
  let m := mkManager (R := gmap Z FileTask) {[1%Z := t]} None 0 in
  Status (claimed 0 t) = StatusInProgress.
Proof.
  intros t m. apply (claim_is_exclusive (λ _, 0%Z) 1 m (claimed 0 t)). vm_compute. reflexivity.
Defined.

End Tasks.
