(* ===== verification/Todos.v ===== *)
(** * Todo list ([internal/domain/todo/todo.go])

    The todo manager over its repository interface: unique ids, the list kept
    in step with the repository, replacement and rendering. *)
From S2P Require Import Prelude GoStrings.
From Stdlib Require Import Ascii ZArith Lia.

Module Todos.

Definition StatusPending : string := "pending".
Definition StatusInProgress : string := "in_progress".
Definition StatusCompleted : string := "completed".
Definition StatusDeleted : string := "deleted".

(** [cloneItems] copies the slice: lists of items are values here. *)
Record Item : Type := mkItem {
  ID : Z;
  Content : string;
  Status : string;
  ActiveForm : string;
  CreatedAt : Z;
  UpdatedAt : Z;
}.

Definition set_status (s : string) (u : Z) (i : Item) : Item :=
  mkItem (ID i) (Content i) s (ActiveForm i) (CreatedAt i) u.

Inductive error : Type :=
| ErrNotFound (id : Z)
| ErrRepository (e : string)
| ErrReset (e : string).

(** The repository interface, and what a manager relies on: it holds one
    snapshot, replaced as a whole by a successful [Save]. *)
Class Repository (R : Type) : Type := {
  Load : R → result string (list Item);
  Save : list Item → R → R * option string;
}.

Class RepositoryLaws (R : Type) `{Repository R} (snapshot : R → list Item) : Prop := {
  save_ok : ∀ l r r', Save l r = (r', None) → snapshot r' = l;
  save_failed : ∀ l r r' e, Save l r = (r', Some e) → snapshot r' = snapshot r;
  load_ok : ∀ r l, Load r = Ok l → l = snapshot r;
}.

Section Manager.
Context {R : Type} `{Repository R} (clock : nat → Z).

Record Manager : Type := mkManager {
  items : list Item;
  nextID : Z;
  repository : option R;
  tick : nat;
}.

Abbreviation TM := (M Manager error).

Definition now : TM Z := λ m,
  (mkManager (items m) (nextID m) (repository m) (S (tick m)), Ok (clock (tick m))).
Definition set_items (l : list Item) (next : Z) : TM unit :=
  update (λ m, mkManager l next (repository m) (tick m)).

(** [load]: the next id is one past the largest id read. *)
Definition load : TM unit := λ m,
  match repository m with
  | None => (m, Ok tt)
  | Some r =>
      match Load r with
      | Err _ => (m, Ok tt)
      | Ok l => (mkManager l (fold_left (λ n i, if bool_decide (n <= ID i)%Z then wrap64 (ID i + 1) else n)
                                l (nextID m)) (repository m) (tick m), Ok tt)
      end
  end.

Definition NewManager (r : option R) : Manager := run load (mkManager [] 1 r 0).

Definition persist (wrap : string → error) (l : list Item) : TM unit := λ m,
  match repository m with
  | None => (m, Ok tt)
  | Some r =>
      match Save l r with
      | (r', None) => (mkManager (items m) (nextID m) (Some r') (tick m), Ok tt)
      | (r', Some e) => (mkManager (items m) (nextID m) (Some r') (tick m), Err (wrap e))
      end
  end.

Definition Add (content activeText : string) : TM Item :=
  id ← gets nextID;
  created ← now;
  updated ← now;
  let item := mkItem id content StatusPending activeText created updated in
  l ← gets items;
  persist ErrRepository (l ++ [item]) ;;
  set_items (l ++ [item]) (wrap64 (id + 1)) ;;
  mret item.

Definition has_id (id : Z) (i : Item) : bool := bool_decide (ID i = id).

(** The search loop shared by [Update] and [Delete]. *)
Definition set_item_status (id : Z) (status : string) : TM Item :=
  l ← gets items;
  next ← gets nextID;
  match find_first (has_id id) l with
  | None => throw (ErrNotFound id)
  | Some i =>
      u ← now;
      let updated := update_first (has_id id) (set_status status u) l in
      persist ErrRepository updated ;;
      set_items updated next ;;
      mret (set_status status u i)
  end.

Definition Update (id : Z) (status : string) : TM Item := set_item_status id status.
Definition Delete (id : Z) : TM unit := _ ← set_item_status id StatusDeleted; mret tt.

Definition or_now (t now : Z) : Z := if bool_decide (t = 0%Z) then now else t.

(** The loop of [Replace]: positions become ids. *)
Definition renumber (now : Z) (l : list Item) : list Item :=
  imap (λ i item, mkItem (Z.of_nat i + 1) (Content item) (Status item) (ActiveForm item)
    (or_now (CreatedAt item) now) (or_now (UpdatedAt item) now)) l.

Definition Replace (l : list Item) : TM (list Item) :=
  t ← now;
  let replaced := renumber t l in
  persist ErrRepository replaced ;;
  set_items replaced (Z.of_nat (length replaced) + 1) ;;
  mret replaced.

Definition Reset : TM unit :=
  persist ErrReset [] ;;
  set_items [] 1.

Definition List : TM (list Item) := gets items.

Definition Get (id : Z) : TM Item :=
  l ← gets items;
  match find_first (has_id id) l with Some i => mret i | None => throw (ErrNotFound id) end.

End Manager.
Arguments Manager : clear implicits.

Definition newline : string := String "010"%char "".

(** The line of one item, and whether it counts as done. *)
Definition render_line (i : Item) : string :=
  let status :=
    if bool_decide (Status i = StatusCompleted) then "[x]"
    else if bool_decide (Status i = StatusInProgress) then "[>]"
    else if bool_decide (Status i = StatusPending) then "[ ]"
    else "[?]" in
  let suffix := if bool_decide (Status i = StatusInProgress) then " <- " +:+ ActiveForm i else "" in
  status +:+ " " +:+ Content i +:+ suffix.

Definition completed_count (l : list Item) : nat :=
  fold_left (λ n i, if bool_decide (Status i = StatusCompleted) then S n else n) l 0.

Definition renderItems (l : list Item) : string :=
  if bool_decide (l = []) then "No todos."
  else Join ((render_line <$> l) ++
    [newline +:+ "(" +:+ itoa (Z.of_nat (completed_count l)) +:+ "/" +:+ itoa (Z.of_nat (length l))
     +:+ " completed)"]) newline.

Definition Render {R} `{Repository R} : M (Manager R) error string :=
  gets (λ m, renderItems (items m)).

(** * Lemmas *)

Section Lemmas.
Context {R : Type} `{Repository R} (snapshot : R → list Item) `{!RepositoryLaws R snapshot}.
Context (clock : nat → Z).
#[local] Abbreviation Manager := (Manager R).

(** The next id [load] computes from the items. *)
Definition next_after (l : list Item) (n : Z) : Z :=
  fold_left (λ n i, if bool_decide (n <= ID i)%Z then wrap64 (ID i + 1) else n) l n.

(** Ids are positive, distinct and below the next id, which is the one a fresh
    manager would compute, and the repository holds the list. *)
Record wf (m : Manager) : Prop := {
  wf_ids : NoDup (ID <$> items m);
  wf_range : Forall (λ i, 0 < ID i < nextID m)%Z (items m);
  wf_next : nextID m = next_after (items m) 1;
  wf_pos : (0 < nextID m)%Z;
  wf_synced : ∀ r, repository m = Some r → snapshot r = items m;
}.

(** The tail of every writing method: persist the new list, then publish it. *)
Lemma publish_spec {A} wrap l next (a : A) (m : Manager) :
  let p : M Manager error A := persist wrap l ;; set_items l next ;; mret a in
  wf m → NoDup (ID <$> l) → Forall (λ i, 0 < ID i < next)%Z l → next = next_after l 1 →
  (0 < next)%Z →
  (out p m = Ok a ∧ items (run p m) = l ∧ nextID (run p m) = next ∨
   (∃ e, out p m = Err (wrap e)) ∧ items (run p m) = items m ∧ nextID (run p m) = nextID m) ∧
  wf (run p m).
Proof.
  cbn zeta. intros [H1 H2 H3 H4 H5] Hnd Hall Hn Hpos. unfold run, out, persist, mbind, M_bind.
  destruct (repository m) as [r|] eqn:Hr; simpl.
  - destruct (Save l r) as [r' [e|]] eqn:Hs; simpl; split; try (split; simpl; try done).
    + right. split_and!; eauto.
    + intros ? [= <-]. rewrite (save_failed (snapshot := snapshot) _ _ _ _ Hs). auto.
    + by left.
    + intros ? [= <-]. by apply (save_ok (snapshot := snapshot) _ _ _ Hs).
  - split; [by left|]. split; simpl; try done. by rewrite Hr.
Qed.

Lemma wf_tick m t : wf m → wf (mkManager (items m) (nextID m) (repository m) t).
Proof. intros []. by split. Qed.

Lemma next_after_ids l k n : ID <$> l = ID <$> k → next_after l n = next_after k n.
Proof.
  revert k n. induction l as [|i l IH]; intros [|j k] n Hl; try done.
  injection Hl as Hi Hl. simpl. rewrite Hi. by apply IH.
Qed.

Lemma range_ids l k n :
  ID <$> l = ID <$> k → Forall (λ i, 0 < ID i < n)%Z l → Forall (λ i, 0 < ID i < n)%Z k.
Proof.
  intros Hl H1. apply (Forall_fmap ID (λ z, 0 < z < n)%Z) in H1. rewrite Hl in H1.
  by apply Forall_fmap in H1.
Qed.

Lemma update_first_ids q f l : (∀ i, ID (f i) = ID i) → ID <$> update_first q f l = ID <$> l.
Proof.
  intros Hf. induction l as [|i l IH]; [done|]. simpl. destruct (q i); cbn; [by rewrite Hf|f_equal; exact IH].
Qed.

(** Renumbered items carry the ids 1, 2, ... *)
Lemma renumber_ids t l : ID <$> renumber t l = (λ n, Z.of_nat n + 1)%Z <$> seq 0 (length l).
Proof.
  apply list_eq. intros i. unfold renumber. rewrite !list_lookup_fmap, list_lookup_imap.
  destruct (l !! i) as [x|] eqn:Hi; simpl.
  - rewrite lookup_seq_lt; [done|]. by eapply lookup_lt_Some.
  - rewrite lookup_seq_ge; [done|]. by apply lookup_ge_None.
Qed.

Lemma next_after_seq n start :
  (Z.of_nat (start + n) < int_max)%Z →
  fold_left (λ z i, if bool_decide (z <= i)%Z then wrap64 (i + 1) else z)
    ((λ n, Z.of_nat n + 1)%Z <$> seq start n) (Z.of_nat start + 1)%Z = (Z.of_nat (start + n) + 1)%Z.
Proof.
  revert start. induction n as [|n IH]; intros start Hn; simpl; [f_equal; lia|].
  rewrite bool_decide_true by lia. rewrite wrap64_id by (unfold is_int, int_min, int_max in *; lia).
  replace (Z.of_nat start + 1 + 1)%Z with (Z.of_nat (S start) + 1)%Z by lia.
  rewrite IH by lia. f_equal. lia.
Qed.

Lemma next_after_fmap l n :
  next_after l n = fold_left (λ z i, if bool_decide (z <= i)%Z then wrap64 (i + 1) else z) (ID <$> l) n.
Proof. revert n. induction l as [|i l IH]; intros n; simpl; [done|]. apply IH. Qed.

Lemma renumber_wf t l :
  (Z.of_nat (length l) < int_max)%Z →
  NoDup (ID <$> renumber t l) ∧
  Forall (λ i, 0 < ID i < Z.of_nat (length (renumber t l)) + 1)%Z (renumber t l) ∧
  (Z.of_nat (length (renumber t l)) + 1)%Z = next_after (renumber t l) 1.
Proof.
  intros Hl. assert (length (renumber t l) = length l) as Hlen by apply length_imap.
  rewrite next_after_fmap, renumber_ids, Hlen. split_and!.
  - apply NoDup_fmap_2; [intros ???; lia|apply NoDup_seq].
  - apply (Forall_fmap ID (λ z, 0 < z < Z.of_nat (length l) + 1)%Z). rewrite renumber_ids.
    apply Forall_fmap, Forall_forall. intros n Hn%elem_of_seq. simpl. lia.
  - symmetry. apply (next_after_seq (length l) 0). by simpl.
Qed.

(** ** Every call *)

Inductive op : Type :=
| OpAdd (content activeText : string)
| OpUpdate (id : Z) (status : string)
| OpDelete (id : Z)
| OpReplace (l : list Item)
| OpReset.

Definition exec (o : op) : M Manager error unit :=
  match o with
  | OpAdd c a => _ ← Add clock c a; mret tt
  | OpUpdate id s => _ ← Update clock id s; mret tt
  | OpDelete id => Delete clock id
  | OpReplace l => _ ← Replace clock l; mret tt
  | OpReset => Reset
  end.

(** The ids stay within the machine integers. *)
Definition fits (o : op) (m : Manager) : Prop :=
  match o with
  | OpAdd _ _ => (nextID m < int_max)%Z
  | OpReplace l => (Z.of_nat (length l) < int_max)%Z
  | _ => True
  end.

(** What one call may do to the list. *)
Definition step_post {A} (n : M Manager error A) (m : Manager) : Prop :=
  wf (run n m) ∧ (is_ok (out n m) = false → items (run n m) = items m ∧ nextID (run n m) = nextID m).

Lemma step_publish {A} wrap l next (a : A) (m : Manager) :
  wf m → NoDup (ID <$> l) → Forall (λ i, 0 < ID i < next)%Z l → next = next_after l 1 → (0 < next)%Z →
  step_post (persist wrap l ;; set_items l next ;; mret a) m.
Proof.
  intros H1 H2 H3 H4 H5. destruct (publish_spec wrap l next a m H1 H2 H3 H4 H5) as [[(Ho&_)|(_&?&?)] Hwf];
    (split; [done|]); [|done]. intros Hno. cbn zeta in Ho. by rewrite Ho in Hno.
Qed.

Lemma step_Add c a m : wf m → (nextID m < int_max)%Z → step_post (Add clock c a) m.
Proof.
  intros Hwf Hfit. set (item := mkItem (nextID m) c StatusPending a (clock (tick m)) (clock (S (tick m)))).
  pose proof Hwf as [H1 H2 H3 H4 H5].
  assert (wrap64 (nextID m + 1) = (nextID m + 1)%Z) as Hw
    by (apply wrap64_id; unfold is_int, int_min, int_max in *; lia).
  change (step_post (persist ErrRepository (items m ++ [item]) ;;
    set_items (items m ++ [item]) (wrap64 (nextID m + 1)) ;; mret item)
    (mkManager (items m) (nextID m) (repository m) (S (S (tick m))))).
  apply step_publish; [by apply wf_tick|rewrite fmap_app|rewrite Hw| |lia].
  - apply NoDup_app. split_and!; [done| |apply NoDup_singleton].
    intros z Hz ->%list_elem_of_singleton. simpl in Hz.
    apply list_elem_of_fmap in Hz as (i&Hi&Hin). rewrite Forall_forall in H2.
    specialize (H2 i Hin). lia.
  - apply Forall_app_2; [|constructor; [simpl; lia|constructor]].
    eapply Forall_impl; [done|]. simpl. intros i ?. lia.
  - unfold next_after. rewrite fold_left_app. fold (next_after (items m) 1). rewrite <- H3. simpl.
    by rewrite bool_decide_true by lia.
Qed.

Lemma step_status id s m : wf m → step_post (set_item_status clock id s) m.
Proof.
  intros Hwf. destruct (find_first (has_id id) (items m)) as [i|] eqn:Hf.
  - set (u := clock (tick m)). set (l := update_first (has_id id) (set_status s u) (items m)).
    assert (step_post (persist ErrRepository l ;; set_items l (nextID m) ;; mret (set_status s u i))
      (mkManager (items m) (nextID m) (repository m) (S (tick m)))) as Hp.
    { pose proof Hwf as [H1 H2 H3 H4 H5].
      assert (ID <$> l = ID <$> items m) as Hl by (by apply update_first_ids).
      apply step_publish; [by apply wf_tick|by rewrite Hl|by eapply range_ids| |done].
      rewrite (next_after_ids l (items m)); done. }
    revert Hp. unfold step_post, set_item_status, run, out, mbind, M_bind, gets. cbn. by rewrite Hf.
  - unfold step_post, set_item_status, run, out, mbind, M_bind, gets. cbn. by rewrite Hf.
Qed.

Lemma step_Replace l m : wf m → (Z.of_nat (length l) < int_max)%Z → step_post (Replace clock l) m.
Proof.
  intros Hwf Hl. set (k := renumber (clock (tick m)) l).
  change (step_post (persist ErrRepository k ;; set_items k (Z.of_nat (length k) + 1) ;; mret k)
    (mkManager (items m) (nextID m) (repository m) (S (tick m)))).
  destruct (renumber_wf (clock (tick m)) l Hl) as (H1&H2&H3).
  apply step_publish; [by apply wf_tick|done..|lia].
Qed.

Lemma step_Reset m : wf m → step_post Reset m.
Proof.
  intros Hwf. assert (step_post (persist ErrReset [] ;; set_items [] 1 ;; mret tt) m) as Hp.
  { apply step_publish; [done|constructor..|done|lia]. }
  revert Hp. unfold step_post, Reset, run, out, mbind, M_bind. by destruct (persist ErrReset [] m) as [? []].
Qed.

Lemma step_forget {A} (n : M Manager error A) m : step_post n m → step_post (_ ← n; mret tt) m.
Proof. unfold step_post. rewrite run_bind, out_bind. by destruct (out n m). Qed.

(** After every call on the todo list the ids are positive and pairwise
    distinct, the next id is fresh and the repository holds exactly the list;
    a call that fails changes nothing; and a new manager on the same
    repository starts with the same items and the same next id. *)
Theorem todos_invariant o m :
  wf m → fits o m →
  let m' := run (exec o) m in
  wf m' ∧
  (is_ok (out (exec o) m) = false → items m' = items m ∧ nextID m' = nextID m) ∧
  ∀ r l, repository m' = Some r → Load r = Ok l →
    items (NewManager (Some r)) = items m' ∧ nextID (NewManager (Some r)) = nextID m'.
Proof.
  intros Hwf Hfit m'.
  assert (step_post (exec o) m) as [Hwf' Hno].
  { destruct o; simpl in *; [by apply step_forget, step_Add|by apply step_forget, step_status
      |by apply step_forget, step_status|by apply step_forget, step_Replace|by apply step_Reset]. }
  split_and!; [done..|]. intros r l Hr Hl. fold m' in Hwf'. destruct Hwf' as [_ _ H3 _ H5].
  specialize (H5 r Hr). apply (load_ok (snapshot := snapshot)) in Hl as Hl2. rewrite H5 in Hl2. subst l.
  unfold NewManager, run, load. simpl. rewrite Hl. simpl. by rewrite H3.
Qed.

(** Updating or deleting a todo changes the status and the time of the item
    with that id and nothing else: no other item, no id, no position. *)
Theorem status_change_is_local id s m i :
  wf m → out (Update clock id s) m = Ok i →
  items (run (Update clock id s) m) =
  (λ j, if bool_decide (ID j = id) then set_status s (clock (tick m)) j else j) <$> items m.
Proof.
  intros Hwf. unfold Update. destruct (find_first (has_id id) (items m)) as [j|] eqn:Hf.
  - set (u := clock (tick m)). set (l := update_first (has_id id) (set_status s u) (items m)).
    assert (l = (λ j, if bool_decide (ID j = id) then set_status s u j else j) <$> items m) as Hl.
    { subst l. pose proof (wf_ids m Hwf) as Hnd. clear Hf. induction (items m) as [|k l IH]; [done|].
      cbn in Hnd |- *. apply NoDup_cons in Hnd as [Hk Hnd]. unfold has_id at 1.
      case_bool_decide as Hid; [|by rewrite IH]. f_equal. symmetry. rewrite <- (list_fmap_id l) at 2.
      apply list_fmap_ext. intros n x Hx. rewrite bool_decide_false; [done|]. intros Hx2. apply Hk.
      rewrite Hid, <- Hx2. apply list_elem_of_fmap_2. by eapply list_elem_of_lookup_2. }
    rewrite <- Hl. unfold set_item_status, run, out, mbind, M_bind, gets. cbn. rewrite Hf. cbn. fold u l.
    unfold persist. cbn. destruct (repository m) as [r|]; [|done]. by destruct (Save l r) as [? []].
  - unfold set_item_status, out, mbind, M_bind, gets. cbn. by rewrite Hf.
Qed.

End Lemmas.

(** A repository in memory that never fails. *)
#[export] Instance list_repository : Repository (list Item) := {
  Load r := Ok r;
  Save l r := (l, None);
}.

#[export] Instance list_repository_laws : RepositoryLaws (list Item) (λ l, l).
Proof. by split; simpl; [intros ??? [= <-]|intros ???? [=]|intros ?? [= <-]]. Qed.

Lemma wf_new : wf (λ l, l) (mkManager (R := list Item) [] 1 (Some []) 0).
Proof. split; simpl; [constructor..|done|lia|by intros r [= <-]]. Qed.

Lemma todos_invariant_witness :
  let m := mkManager (R := list Item) [] 1 (Some []) 0 in
  let m' := run (exec (λ _, 0%Z) (OpAdd "a" "doing a")) m in
  nextID m' = 2%Z ∧
  ∀ r l, repository m' = Some r → Load r = Ok l → items (NewManager (Some r)) = items m'.
Proof.
  intros m m'. split; [vm_compute; reflexivity|]. intros r l Hr Hl.
  assert (fits (OpAdd "a" "doing a") m) as Hfit by (vm_compute; reflexivity).
  exact (proj1 (proj2 (proj2 (todos_invariant (λ l, l) (λ _, 0%Z) (OpAdd "a" "doing a") m
    wf_new Hfit)) r l Hr Hl)).
Defined.

Lemma status_change_is_local_witness :
  let m := mkManager (R := list Item) [mkItem 1 "a" "pending" "" 0 0; mkItem 2 "b" "pending" "" 0 0] 3
             (Some [mkItem 1 "a" "pending" "" 0 0; mkItem 2 "b" "pending" "" 0 0]) 0 in
  items (run (Update (λ _, 7%Z) 2 "completed") m) =
  (λ j, if bool_decide (ID j = 2%Z) then set_status "completed" 7 j else j) <$> items m.
Proof.
  intros m. apply (status_change_is_local (λ l, l) (λ _, 7%Z) 2 "completed" m
    (set_status "completed" 7 (mkItem 2 "b" "pending" "" 0 0))).
  - split; simpl; [apply (bool_decide_unpack _); vm_compute; done
      |repeat constructor; simpl; lia|vm_compute; reflexivity|lia|by intros r [= <-]].
  - vm_compute. reflexivity.
Defined.

End Todos.
