(* ===== verification/SessionGraph.v ===== *)
(** * Session graph ([internal/sessiongraph/graph.go])

    The tree of a session's checkpoints and merges with its branch heads: the
    operations, that the graph stays closed and acyclic, and that history is
    append-only. *)
From S2P Require Import Prelude GoStrings.
From Stdlib Require Import ZArith Lia.

Module SessionGraph.

Definition MainBranchID : string := "branch:main".

Record BranchHead : Type := mkHead {
  Head_BranchID : string;
  Head_Head : string;
}.

Record CheckpointRecord : Type := mkCheckpoint {
  CheckpointID : string;
  Checkpoint_Summary : string;
}.

Record MergeRecord : Type := mkMerge {
  MergeID : string;
  SourceBranch : string;
  SourceHead : string;
  Merge_Summary : string;
}.

Record GraphNode : Type := mkNode {
  Node_ID : string;
  Node_BranchID : string;
  Parent : string;
  Checkpoint : option CheckpointRecord;
  Merge : option MergeRecord;
}.

(** A nil map reads as the empty map, so [ensureMaps] is the identity. *)
Record SessionGraph : Type := mkGraph {
  Branches : gmap string BranchHead;
  NodeSet : gmap string GraphNode;
}.

Inductive error : Type :=
| ErrEmptyID
| ErrDuplicateID (node : string)
| ErrBranchExists (branch : string)
| ErrBranchNotFound (branch : string)
| ErrNodeNotFound (node : string).

Abbreviation GM := (M SessionGraph error).

Definition set_head (b : string) (h : BranchHead) : GM unit :=
  update (λ g, mkGraph (<[b := h]> (Branches g)) (NodeSet g)).
Definition set_node (n : string) (node : GraphNode) : GM unit :=
  update (λ g, mkGraph (Branches g) (<[n := node]> (NodeSet g))).

Definition lookup_branch (b : string) : GM BranchHead :=
  bs ← gets Branches;
  match bs !! b with Some h => mret h | None => throw (ErrBranchNotFound b) end.
Definition fresh_node (n : string) : GM unit :=
  ns ← gets NodeSet;
  match ns !! n with Some _ => throw (ErrDuplicateID n) | None => mret tt end.

Definition EnsureMainBranch : GM BranchHead :=
  bs ← gets Branches;
  match bs !! MainBranchID with
  | Some h => mret h
  | None =>
      let head := mkHead MainBranchID "" in
      set_head MainBranchID head ;; mret head
  end.

Definition AppendNode (branchID nodeID : string) (checkpoint : CheckpointRecord) : GM GraphNode :=
  if bool_decide (branchID = "" ∨ nodeID = "") then throw ErrEmptyID else
  head ← lookup_branch branchID;
  fresh_node nodeID ;;
  let node := mkNode nodeID branchID (Head_Head head) (Some checkpoint) None in
  set_node nodeID node ;;
  set_head branchID (mkHead branchID nodeID) ;;
  mret node.

Definition CloneBranch (from to : string) : GM BranchHead :=
  if bool_decide (from = "" ∨ to = "") then throw ErrEmptyID else
  source ← lookup_branch from;
  bs ← gets Branches;
  match bs !! to with
  | Some _ => throw (ErrBranchExists to)
  | None =>
      let head := mkHead to (Head_Head source) in
      set_head to head ;; mret head
  end.

Definition RollbackBranch (branchID nodeID : string) : GM BranchHead :=
  if bool_decide (branchID = "") then throw ErrEmptyID else
  _ ← lookup_branch branchID;
  ns ← gets NodeSet;
  (if negb (bool_decide (nodeID = "")) && bool_decide (ns !! nodeID = None)
   then throw (ErrNodeNotFound nodeID) else mret tt) ;;
  let head := mkHead branchID nodeID in
  set_head branchID head ;;
  mret head.

Definition MergeBranch (target source nodeID : string) (record : MergeRecord) : GM GraphNode :=
  if bool_decide (target = "" ∨ source = "" ∨ nodeID = "") then throw ErrEmptyID else
  targetHead ← lookup_branch target;
  sourceHead ← lookup_branch source;
  fresh_node nodeID ;;
  let record := mkMerge (MergeID record) source (Head_Head sourceHead) (Merge_Summary record) in
  let node := mkNode nodeID target (Head_Head targetHead) None (Some record) in
  set_node nodeID node ;;
  set_head target (mkHead target nodeID) ;;
  mret node.

Definition Head (branchID : string) (g : SessionGraph) : option BranchHead := Branches g !! branchID.

Definition Nodes (g : SessionGraph) : list GraphNode :=
  omap (λ id, NodeSet g !! id) (SortStrings (fst <$> map_to_list (NodeSet g))).

(** [Clone]: nodes and heads are values, so a copy of the maps is the graph. *)
Definition Clone (g : SessionGraph) : SessionGraph := mkGraph (Branches g) (NodeSet g).

(** * Lemmas *)

#[export] Instance GraphNode_eq_dec : EqDecision GraphNode.
Proof. intros [] []. unfold Decision. repeat decide equality. Defined.

(** The nodes a node was made from: its parent, and the head it merged. *)
Definition from_node (node : GraphNode) (n : string) : Prop :=
  n ≠ "" ∧ (n = Parent node ∨ ∃ r, Merge node = Some r ∧ n = SourceHead r).

Definition edge (g : SessionGraph) (child n : string) : Prop :=
  ∃ node, NodeSet g !! child = Some node ∧ from_node node n.

Definition node_ok (ns : gmap string GraphNode) (n : string) : Prop := n = "" ∨ is_Some (ns !! n).

(** Heads and ancestors exist, entries are stored under their own ids, and the
    edges of the graph descend in some rank. *)
Record wf (g : SessionGraph) : Prop := {
  wf_empty : NodeSet g !! "" = None;
  wf_heads : ∀ b h, Branches g !! b = Some h → Head_BranchID h = b ∧ node_ok (NodeSet g) (Head_Head h);
  wf_ids : ∀ n node, NodeSet g !! n = Some node → Node_ID node = n;
  wf_closed : ∀ n m, edge g n m → is_Some (NodeSet g !! m);
  wf_rank : ∃ rank : string → nat, ∀ n m, edge g n m → rank m < rank n;
}.

(** A program that only extends the nodes keeps the graph well formed. *)
Definition append_only (g g' : SessionGraph) : Prop := NodeSet g ⊆ NodeSet g'.

Lemma node_ok_mono ns ns' n : ns ⊆ ns' → node_ok ns n → node_ok ns' n.
Proof. intros Hs [->|[x Hx]]; [by left|right]. exists x. by eapply lookup_weaken. Qed.

Lemma wf_set_head b n g :
  wf g → node_ok (NodeSet g) n → wf (mkGraph (<[b := mkHead b n]> (Branches g)) (NodeSet g)).
Proof.
  intros [H1 H2 H3 H4 H5] Hn. split; simpl; try done.
  intros b' h. rewrite lookup_insert_Some. intros [[<- <-]|[_ Hb]]; [done|by apply H2].
Qed.

(** Adding a node made from existing nodes. *)
Lemma wf_add_node n node g :
  wf g → n ≠ "" → NodeSet g !! n = None → Node_ID node = n →
  (∀ m, from_node node m → is_Some (NodeSet g !! m)) →
  wf (mkGraph (Branches g) (<[n := node]> (NodeSet g))).
Proof.
  intros [H1 H2 H3 H4 [rank H5]] Hn Hnew Hid Hfrom.
  assert (∀ c m, edge (mkGraph (Branches g) (<[n := node]> (NodeSet g))) c m →
    c ≠ n ∧ edge g c m ∨ c = n ∧ from_node node m) as Hedge.
  { intros c m (x&Hx&Hf). simpl in Hx. apply lookup_insert_Some in Hx as [[<- <-]|[Hne Hx]]; [by right|].
    left. split; [done|]. by exists x. }
  assert (∀ m, is_Some (NodeSet g !! m) → m ≠ n) as Hold.
  { intros m [x Hx] ->. congruence. }
  split; simpl.
  - by rewrite lookup_insert_ne.
  - intros b h Hb. destruct (H2 b h Hb) as [? Hh]. split; [done|].
    eapply node_ok_mono; [|done]. by apply insert_subseteq.
  - intros m x. rewrite lookup_insert_Some. intros [[<- <-]|[_ Hx]]; [done|by apply H3].
  - intros c m Hc. assert (is_Some (NodeSet g !! m)) as [x Hx].
    { destruct (Hedge c m Hc) as [[_ ?]|[_ ?]]; [by eapply H4|by apply Hfrom]. }
    exists x. rewrite lookup_insert_ne; [done|]. intros ->. congruence.
  - set (top := S (max_list (rank <$> (fst <$> map_to_list (NodeSet g))))).
    exists (λ m, if decide (m = n) then top else rank m). intros c m Hc.
    destruct (Hedge c m Hc) as [[Hne He]|[-> Hf]].
    + pose proof (Hold m (H4 _ _ He)). rewrite !decide_False by done. by apply H5.
    + pose proof (Hfrom m Hf) as Hm. rewrite (decide_True (P := n = n)) by done.
      rewrite decide_False by auto. subst top. apply le_n_S, max_list_elem_of_le.
      apply list_elem_of_fmap_2. destruct Hm as [x Hx].
      apply list_elem_of_fmap. exists (m, x). by rewrite elem_of_map_to_list.
Qed.

(** ** Every operation *)

Inductive op : Type :=
| OpEnsureMain
| OpAppend (branchID nodeID : string) (checkpoint : CheckpointRecord)
| OpClone (from to : string)
| OpRollback (branchID nodeID : string)
| OpMerge (target source nodeID : string) (record : MergeRecord).

Definition forget {A} (m : GM A) : GM unit := _ ← m; mret tt.

Definition exec (o : op) : GM unit :=
  match o with
  | OpEnsureMain => forget EnsureMainBranch
  | OpAppend b n c => forget (AppendNode b n c)
  | OpClone f t => forget (CloneBranch f t)
  | OpRollback b n => forget (RollbackBranch b n)
  | OpMerge t s n r => forget (MergeBranch t s n r)
  end.

(** What an operation does to the graph when it succeeds; it changes nothing
    when it fails. *)
Definition effect (o : op) (g g' : SessionGraph) : Prop :=
  match o with
  | OpEnsureMain => g' = g ∧ is_Some (Branches g !! MainBranchID) ∨
      Branches g !! MainBranchID = None ∧
      g' = mkGraph (<[MainBranchID := mkHead MainBranchID ""]> (Branches g)) (NodeSet g)
  | OpAppend b n c => b ≠ "" ∧ n ≠ "" ∧ NodeSet g !! n = None ∧ ∃ h, Branches g !! b = Some h ∧
      g' = mkGraph (<[b := mkHead b n]> (Branches g))
             (<[n := mkNode n b (Head_Head h) (Some c) None]> (NodeSet g))
  | OpClone f t => Branches g !! t = None ∧ ∃ h, Branches g !! f = Some h ∧
      g' = mkGraph (<[t := mkHead t (Head_Head h)]> (Branches g)) (NodeSet g)
  | OpRollback b n => is_Some (Branches g !! b) ∧ node_ok (NodeSet g) n ∧
      g' = mkGraph (<[b := mkHead b n]> (Branches g)) (NodeSet g)
  | OpMerge t s n r => n ≠ "" ∧ NodeSet g !! n = None ∧ ∃ ht hs,
      Branches g !! t = Some ht ∧ Branches g !! s = Some hs ∧
      g' = mkGraph (<[t := mkHead t n]> (Branches g))
             (<[n := mkNode n t (Head_Head ht) None
                  (Some (mkMerge (MergeID r) s (Head_Head hs) (Merge_Summary r)))]> (NodeSet g))
  end.

Lemma exec_effect o g :
  (run (exec o) g = g ∧ is_ok (out (exec o) g) = false) ∨
  (out (exec o) g = Ok tt ∧ effect o g (run (exec o) g)).
Proof.
  unfold run, out. destruct o; simpl; unfold forget, EnsureMainBranch, AppendNode, CloneBranch,
    RollbackBranch, MergeBranch, lookup_branch, fresh_node, mbind, M_bind; cbn.
  - destruct (Branches g !! MainBranchID) eqn:Hm; cbn; right; (split; [done|]); [left|right]; eauto.
  - case_bool_decide; [by left|]. cbn. destruct (Branches g !! branchID) as [h|] eqn:Hb; cbn; [|by left].
    destruct (NodeSet g !! nodeID) eqn:Hn; cbn; [by left|]. right. split; [done|].
    split_and!; [tauto|tauto|done|]. by exists h.
  - case_bool_decide; [by left|]. cbn. destruct (Branches g !! from) as [h|] eqn:Hf; cbn; [|by left].
    destruct (Branches g !! to) eqn:Ht; cbn; [by left|]. right. split; [done|]. split; [done|]. by exists h.
  - case_bool_decide; [by left|]. cbn. destruct (Branches g !! branchID) as [h|] eqn:Hb; cbn; [|by left].
    destruct (negb (bool_decide (nodeID = "")) && bool_decide (NodeSet g !! nodeID = None)) eqn:Hc; cbn;
      [by left|]. right. split; [done|]. split_and!; [by eexists| |done].
    apply andb_false_iff in Hc as [Hc|Hc]; [left; by apply negb_false_iff, bool_decide_eq_true in Hc|].
    apply bool_decide_eq_false in Hc. right. by destruct (NodeSet g !! nodeID).
  - case_bool_decide; [by left|]. cbn. destruct (Branches g !! target) as [ht|] eqn:Ht; cbn; [|by left].
    destruct (Branches g !! source) as [hs|] eqn:Hs; cbn; [|by left].
    destruct (NodeSet g !! nodeID) eqn:Hn; cbn; [by left|]. right. split; [done|].
    split_and!; [tauto|done|]. by exists ht, hs.
Qed.

Lemma effect_sound o g g' : effect o g g' → wf g → wf g' ∧ append_only g g'.
Proof.
  intros He Hwf. unfold append_only. destruct o; simpl in He.
  - destruct He as [[-> _]|[_ ->]]; [done|]. split; [|done]. apply wf_set_head; [done|by left].
  - destruct He as (Hb&Hn&Hnew&h&Hh&->). split; [|by apply insert_subseteq].
    destruct (wf_heads g Hwf _ _ Hh) as [_ Hok].
    set (x := mkNode _ _ _ _ _).
    assert (wf (mkGraph (Branches g) (<[nodeID := x]> (NodeSet g)))) as Hw1.
    { apply wf_add_node; try done. intros m [Hm [->|(r&[=]&_)]]. by destruct Hok. }
    refine (wf_set_head branchID nodeID _ Hw1 _). right. simpl. rewrite lookup_insert_eq. by eexists.
  - destruct He as (_&h&Hh&->). split; [|done]. apply wf_set_head; [done|].
    by apply (wf_heads g Hwf _ _ Hh).
  - destruct He as (_&Hn&->). split; [|done]. by apply wf_set_head.
  - destruct He as (Hn&Hnew&ht&hs&Ht&Hs&->). split; [|by apply insert_subseteq].
    destruct (wf_heads g Hwf _ _ Ht) as [_ Hokt]. destruct (wf_heads g Hwf _ _ Hs) as [_ Hoks].
    set (x := mkNode _ _ _ _ _).
    assert (wf (mkGraph (Branches g) (<[nodeID := x]> (NodeSet g)))) as Hw1.
    { apply wf_add_node; try done. intros m [Hm [->|(r&[= <-]&->)]]; [by destruct Hokt|by destruct Hoks]. }
    refine (wf_set_head target nodeID _ Hw1 _). right. simpl. rewrite lookup_insert_eq. by eexists.
Qed.

Definition after (ops : list op) (g : SessionGraph) : SessionGraph :=
  fold_left (λ g o, run (exec o) g) ops g.

Lemma after_sound ops g : wf g → wf (after ops g) ∧ append_only g (after ops g).
Proof.
  unfold append_only. revert g. induction ops as [|o ops IH]; intros g Hwf; [done|]. simpl.
  assert (wf (run (exec o) g) ∧ NodeSet g ⊆ NodeSet (run (exec o) g)) as [Hw Ha].
  { destruct (exec_effect o g) as [[-> _]|[_ He]]; [done|]. by eapply effect_sound. }
  destruct (IH _ Hw) as [? Ha2]. split; [done|]. by etrans.
Qed.

Definition empty_graph : SessionGraph := mkGraph ∅ ∅.

Lemma wf_empty_graph : wf empty_graph.
Proof.
  split; simpl; try done.
  - by intros n m (?&?&_).
  - exists (λ _, 0). by intros n m (?&?&_).
Qed.

Lemma edge_tc_rank g (rank : string → nat) n m :
  (∀ n m, edge g n m → rank m < rank n) → tc (edge g) n m → rank m < rank n.
Proof. intros Hr. induction 1 as [n m He|n k m He _ IH]; [by apply Hr|]. specialize (Hr _ _ He). lia. Qed.

(** C38: whatever branches are created, extended, cloned, rolled back and merged,
    every head and every ancestor of a node exists, entries are stored under
    their own ids, and no node is its own ancestor through parents and merged
    heads. *)
Theorem graph_closed_acyclic ops :
  let g := after ops empty_graph in
  (∀ b h, Head b g = Some h → Head_BranchID h = b ∧ node_ok (NodeSet g) (Head_Head h)) ∧
  (∀ n node, NodeSet g !! n = Some node → Node_ID node = n) ∧
  (∀ n m, edge g n m → is_Some (NodeSet g !! m)) ∧
  ∀ n, ¬ tc (edge g) n n.
Proof.
  cbn zeta. destruct (after_sound ops empty_graph wf_empty_graph) as [[H1 H2 H3 H4 [rank H5]] _].
  split_and!; [done..|]. intros n Hn. apply (edge_tc_rank _ rank _ _ H5) in Hn. lia.
Qed.

(** History is append-only and failures are harmless: an operation that
    fails leaves the graph as it was, and no operation, rollback included,
    changes or removes a node. *)
Theorem history_append_only o g :
  NodeSet g ⊆ NodeSet (run (exec o) g) ∧
  (is_ok (out (exec o) g) = false → run (exec o) g = g).
Proof.
  destruct (exec_effect o g) as [[-> Hf]|[Hok He]]; [done|]. split; [|by rewrite Hok].
  revert He. generalize (run (exec o) g). intros g' He. clear Hok. destruct o; simpl in He.
  - by destruct He as [[-> _]|[_ ->]].
  - destruct He as (_&_&Hnew&h&_&->). by apply insert_subseteq.
  - by destruct He as (_&h&_&->).
  - by destruct He as (_&_&->).
  - destruct He as (_&Hnew&ht&hs&_&_&->). by apply insert_subseteq.
Qed.

(** A branch cloned from another starts at its head and the two are
    independent from then on: extending one moves its own head to the new
    node, whose parent is the shared head, and leaves the other where it was. *)
Theorem clone_then_extend from to n c g g1 g2 :
  from ≠ to → out (exec (OpClone from to)) g = Ok tt → run (exec (OpClone from to)) g = g1 →
  out (exec (OpAppend to n c)) g1 = Ok tt → run (exec (OpAppend to n c)) g1 = g2 →
  ∃ h, Head from g = Some h ∧ Head to g1 = Some (mkHead to (Head_Head h)) ∧
    Head from g2 = Some h ∧ Head to g2 = Some (mkHead to n) ∧
    NodeSet g2 !! n = Some (mkNode n to (Head_Head h) (Some c) None).
Proof.
  intros Hne Ho1 <- Ho2 <-.
  destruct (exec_effect (OpClone from to) g) as [[_ Hf]|[_ (_&h&Hh&Hg1)]]; [by rewrite Ho1 in Hf|].
  destruct (exec_effect (OpAppend to n c) (run (exec (OpClone from to)) g))
    as [[_ Hf]|[_ (_&_&_&h1&Hh1&Hg2)]]; [by rewrite Ho2 in Hf|].
  rewrite Hg2. rewrite Hg1 in Hh1 |- *. simpl in *.
  rewrite lookup_insert_eq in Hh1. injection Hh1 as <-. simpl.
  exists h. unfold Head. simpl. split_and!; [done| | | |].
  - apply lookup_insert_eq.
  - by rewrite !lookup_insert_ne by done.
  - apply lookup_insert_eq.
  - apply lookup_insert_eq.
Qed.

Lemma clone_then_extend_witness :
  let g := run (exec OpEnsureMain) empty_graph in
  let g1 := run (exec (OpClone MainBranchID "b")) g in
  let g2 := run (exec (OpAppend "b" "n1" (mkCheckpoint "c1" ""))) g1 in
  ∃ h, Head MainBranchID g2 = Some h ∧ Head "b" g2 = Some (mkHead "b" "n1").
Proof.
  intros g g1 g2. destruct (clone_then_extend MainBranchID "b" "n1" (mkCheckpoint "c1" "") g g1 g2)
    as (h&_&_&H1&H2&_); [done|vm_compute; reflexivity..|]. by exists h.
Defined.

(** The listing of nodes. *)
Lemma Nodes_perm g : Nodes g ≡ₚ snd <$> map_to_list (NodeSet g).
Proof.
  unfold Nodes. rewrite SortStrings_perm.
  assert (∀ l, Forall (λ p, NodeSet g !! p.1 = Some p.2) l →
    omap (λ id, NodeSet g !! id) (l.*1) = l.*2) as ->; [|done|].
  { induction 1 as [|[k x] l Hx _ IH]; [done|]. cbn in *. rewrite Hx. by f_equal. }
  apply Forall_forall. intros [k x] Hx. by apply elem_of_map_to_list in Hx.
Qed.

End SessionGraph.
