(* ===== verification/Requires.v ===== *)
(** * Package requirements ([internal/core/packages/requires.go])

    Requirement strings, versions and version constraints: parsing, matching,
    and what each operator accepts. *)
From S2P Require Import Prelude GoStrings.
From Stdlib Require Import Ascii ZArith Lia.

(** ** Versions *)

Record version : Type := mkVersion {
  major : Z;
  minor : Z;
  patch : Z;
  version_raw : string;
}.

(** The errors of the parsers; the field is the text quoted in the message. *)
Inductive parse_error : Type :=
| ErrInvalidMajor (value : string)
| ErrInvalidVersion (value : string).

Inductive requirement_error : Type :=
| ErrEmptyRequirement
| ErrCapabilityName (raw : string)
| ErrCapabilityMajor (raw : string) (cause : parse_error)
| ErrPackageName (raw : string)
| ErrPackageSpace (raw : string)
| ErrPackageConstraint (raw : string) (cause : parse_error).

Definition parseMajorVersion (value : string) : result parse_error Z :=
  let value := TrimSpace value in
  match Atoi value with
  | Some n => if bool_decide (n < 0)%Z then Err (ErrInvalidMajor value) else Ok n
  | None => Err (ErrInvalidMajor value)
  end.

Definition suffix_byte (a : ascii) : bool := is_byte "-" a || is_byte "+" a.

(** One of the three parts: a missing or blank part counts as zero. *)
Definition parse_part (parts : list string) (i : nat) : option Z :=
  match parts !! i with
  | None => Some 0%Z
  | Some p => if bool_decide (TrimSpace p = "") then Some 0%Z else Atoi (TrimSpace p)
  end.

Definition parseVersion (value : string) : result parse_error version :=
  let value := TrimSpace value in
  let parts := Split (before_any value suffix_byte) "." in
  match parse_part parts 0, parse_part parts 1, parse_part parts 2 with
  | Some a, Some b, Some c => Ok (mkVersion a b c value)
  | _, _, _ => Err (ErrInvalidVersion value)
  end.

Definition atLeast (v o : version) : bool :=
  bool_decide (major o < major v)%Z
  || (bool_decide (major v = major o)
      && (bool_decide (minor o < minor v)%Z
          || (bool_decide (minor v = minor o) && bool_decide (patch o <= patch v)%Z))).

Definition above (v o : version) : bool :=
  bool_decide (major o < major v)%Z
  || (bool_decide (major v = major o)
      && (bool_decide (minor o < minor v)%Z
          || (bool_decide (minor v = minor o) && bool_decide (patch o < patch v)%Z))).

Definition below (v o : version) : bool := negb (atLeast v o).
Definition atMost (v o : version) : bool := negb (above v o).
Definition equal (v o : version) : bool :=
  bool_decide (major v = major o) && bool_decide (minor v = minor o)
  && bool_decide (patch v = patch o).

(** ** Constraints *)

Inductive operator : Type := exact | prefix | gte | gt | lte | lt | caret | tilde | any.

Record versionConstraint : Type := mkConstraint {
  constraint_raw : string;
  op : operator;
  value : version;
  majorOnly : bool;
}.

Definition no_version : version := mkVersion 0 0 0 "".

(** The cases of the [switch]: an operator prefix and the version after it. *)
Definition with_operator (value prefix : string) (o : operator) :
    result parse_error versionConstraint :=
  match parseVersion (TrimPrefix value prefix) with
  | Ok v => Ok (mkConstraint value o v false)
  | Err e => Err e
  end.

Definition parseVersionConstraint (value : string) : result parse_error versionConstraint :=
  let value := TrimSpace value in
  if bool_decide (value = "" ∨ value = "*") then Ok (mkConstraint value any no_version false) else
  let value := TrimPrefix value "v" in
  if HasPrefix value ">=" then with_operator value ">=" gte
  else if HasPrefix value "<=" then with_operator value "<=" lte
  else if HasPrefix value ">" then with_operator value ">" gt
  else if HasPrefix value "<" then with_operator value "<" lt
  else if HasPrefix value "^" then with_operator value "^" caret
  else if HasPrefix value "~" then with_operator value "~" tilde
  else if ContainsAny value (is_byte "x") || ContainsAny value (is_byte "X") then
    let core := TrimSuffix (ReplaceByte (ReplaceByte value "x" "") "X" "") "." in
    if bool_decide (TrimSpace core = "") then Ok (mkConstraint value any no_version false)
    else match parseVersion core with
         | Ok v => Ok (mkConstraint value prefix v (negb (ContainsAny core (is_byte "."))))
         | Err e => Err e
         end
  else match parseVersion value with
       | Err e => Err e
       | Ok v =>
           match length (Split value ".") with
           | 1 => Ok (mkConstraint value prefix v true)
           | 2 => Ok (mkConstraint value prefix v false)
           | _ => Ok (mkConstraint value exact v false)
           end
       end.

Definition matches (c : versionConstraint) (v : version) : bool :=
  match op c with
  | any => true
  | exact => equal v (value c)
  | prefix =>
      if majorOnly c then bool_decide (major v = major (value c))
      else bool_decide (major v = major (value c)) && bool_decide (minor v = minor (value c))
  | gte => atLeast v (value c)
  | gt => above v (value c)
  | lte => atMost v (value c)
  | lt => below v (value c)
  | caret => atLeast v (value c) && below v (mkVersion (wrap64 (major (value c) + 1)) 0 0 "")
  | tilde => atLeast v (value c)
             && below v (mkVersion (major (value c)) (wrap64 (minor (value c) + 1)) 0 "")
  end.

(** ** Requirements *)

Inductive kind : Type := package | capability.

Record Requirement : Type := mkRequirement {
  Raw : string;
  Kind : kind;
  Req_Name : string;
  Constraint : string;
}.

Definition blank_byte (a : ascii) : bool := is_byte " " a || is_byte "009"%char a.

Definition ParseRequirement (raw : string) : result requirement_error Requirement :=
  let raw := TrimSpace raw in
  if bool_decide (raw = "") then Err ErrEmptyRequirement else
  let '(name, rest, _) := Cut raw "@" in
  let name := TrimSpace name in
  let rest := TrimSpace rest in
  if ContainsAny raw (is_byte ":") then
    if bool_decide (name = "") then Err (ErrCapabilityName raw) else
    if bool_decide (rest = "") then Ok (mkRequirement raw capability name rest)
    else match parseMajorVersion rest with
         | Err e => Err (ErrCapabilityMajor raw e)
         | Ok _ => Ok (mkRequirement raw capability name rest)
         end
  else
    if bool_decide (name = "") then Err (ErrPackageName raw) else
    if ContainsAny name blank_byte then Err (ErrPackageSpace raw) else
    if bool_decide (rest = "") then Ok (mkRequirement raw package name rest)
    else match parseVersionConstraint rest with
         | Err e => Err (ErrPackageConstraint raw e)
         | Ok _ => Ok (mkRequirement raw package name rest)
         end.

Definition satisfiedByVersion (r : Requirement) (installed : string) : bool :=
  match Kind r with
  | capability => false
  | package =>
      if bool_decide (TrimSpace (Constraint r) = "") then true
      else match parseVersionConstraint (Constraint r), parseVersion installed with
           | Ok c, Ok v => matches c v
           | _, _ => false
           end
  end.

Definition satisfiedByCapability (r : Requirement) (provided : string) : bool :=
  match Kind r with
  | package => false
  | capability =>
      let '(name, maj, _) := Cut (TrimSpace provided) "@" in
      if negb (bool_decide (name = Req_Name r)) then false
      else if bool_decide (TrimSpace (Constraint r) = "") then true
      else if bool_decide (TrimSpace maj = "") then false
      else match parseMajorVersion (Constraint r), parseMajorVersion maj with
           | Ok required, Ok got => bool_decide (got = required)
           | _, _ => false
           end
  end.

(** * Lemmas *)

(** Lexicographic order on the three numbers. *)
Definition version_le (o v : version) : Prop :=
  (major o < major v ∨ major o = major v ∧
    (minor o < minor v ∨ minor o = minor v ∧ patch o <= patch v))%Z.
Definition version_lt (o v : version) : Prop :=
  (major o < major v ∨ major o = major v ∧
    (minor o < minor v ∨ minor o = minor v ∧ patch o < patch v))%Z.

Lemma atLeast_iff v o : atLeast v o = true ↔ version_le o v.
Proof.
  unfold atLeast, version_le. rewrite !orb_true_iff, !andb_true_iff, !orb_true_iff, !andb_true_iff,
    !bool_decide_eq_true. lia.
Qed.

Lemma above_iff v o : above v o = true ↔ version_lt o v.
Proof.
  unfold above, version_lt. rewrite !orb_true_iff, !andb_true_iff, !orb_true_iff, !andb_true_iff,
    !bool_decide_eq_true. lia.
Qed.

Lemma below_iff v o : below v o = true ↔ version_lt v o.
Proof.
  unfold below. rewrite negb_true_iff, <- not_true_iff_false, atLeast_iff.
  unfold version_le, version_lt. lia.
Qed.

Lemma atMost_iff v o : atMost v o = true ↔ version_le v o.
Proof.
  unfold atMost. rewrite negb_true_iff, <- not_true_iff_false, above_iff.
  unfold version_le, version_lt. lia.
Qed.

Lemma equal_iff v o :
  equal v o = true ↔ major v = major o ∧ minor v = minor o ∧ patch v = patch o.
Proof. unfold equal. rewrite !andb_true_iff, !bool_decide_eq_true. tauto. Qed.

(** The versions a constraint accepts, as an interval of the order. *)
Definition accepts (o : operator) (pin_minor : bool) (c v : version) : Prop :=
  match o with
  | any => True
  | exact => version_le c v ∧ version_le v c
  | prefix => major v = major c ∧ (pin_minor = true → minor v = minor c)
  | gte => version_le c v
  | gt => version_lt c v
  | lte => version_le v c
  | lt => version_lt v c
  | caret => version_le c v ∧ major v = major c
  | tilde => version_le c v ∧ major v = major c ∧ minor v = minor c
  end.

(** A version constraint accepts exactly the interval its operator means:
    the comparisons follow the lexicographic order of major, minor and patch,
    a caret stays within the major version, a tilde within the minor one, a
    prefix pins what it names, for all versions short of the largest machine
    integer. *)
Theorem constraint_meaning c v :
  (int_min <= major (value c) < int_max)%Z → (int_min <= minor (value c) < int_max)%Z →
  (caret = op c ∨ tilde = op c → 0 <= minor v ∧ 0 <= patch v)%Z →
  matches c v = true ↔ accepts (op c) (negb (majorOnly c)) (value c) v.
Proof.
  intros Hmaj Hmin Hpos. unfold matches. destruct (op c) eqn:Ho; simpl.
  - rewrite equal_iff. unfold version_le. lia.
  - destruct (majorOnly c); simpl; rewrite ?andb_true_iff, !bool_decide_eq_true; naive_solver.
  - apply atLeast_iff.
  - apply above_iff.
  - apply atMost_iff.
  - apply below_iff.
  - rewrite andb_true_iff, atLeast_iff, below_iff. destruct Hpos as [? ?]; [by left|].
    unfold version_le, version_lt. simpl. rewrite wrap64_id by (unfold is_int, int_min, int_max in *; lia).
    lia.
  - rewrite andb_true_iff, atLeast_iff, below_iff. destruct Hpos as [? ?]; [by right|].
    unfold version_le, version_lt. simpl. rewrite wrap64_id by (unfold is_int, int_min, int_max in *; lia).
    lia.
  - done.
Qed.

Lemma constraint_meaning_witness :
  let c := mkConstraint "^1.2.0" caret (mkVersion 1 2 0 "1.2.0") false in
  matches c (mkVersion 1 9 0 "1.9.0") = true ∧ matches c (mkVersion 2 0 0 "2.0.0") = false.
Proof.
  intros c. split.
  - apply (constraint_meaning c (mkVersion 1 9 0 "1.9.0")); simpl; unfold int_min, int_max; try lia.
    split; [|done]. unfold version_le. simpl. lia.
  - apply not_true_iff_false. intros H.
    apply (constraint_meaning c (mkVersion 2 0 0 "2.0.0")) in H; simpl in *; unfold int_min, int_max in *;
      try lia. 
Defined.

(** ** Printing and parsing *)

Definition format_version (a b c : Z) : string :=
  itoa a +:+ "." +:+ itoa b +:+ "." +:+ itoa c.

(** A pre-release or build suffix. *)
Definition suffix_ok (s : string) : Prop :=
  all_bytes plain s = true ∧ (s = "" ∨ ∃ a t, s = String a t ∧ suffix_byte a = true).

Lemma itoa_all (p : ascii → bool) z :
  (0 <= z)%Z → (∀ a, is_digit a = true → p a = true) → all_bytes p (itoa z) = true.
Proof. intros Hz Hp. eapply all_bytes_impl; [exact Hp|]. by apply itoa_digits. Qed.

Lemma digit_not_byte (c a : ascii) : is_digit c = false → is_digit a = true → negb (is_byte c a) = true.
Proof. unfold is_byte. intros Hc Ha. apply negb_true_iff, bool_decide_eq_false. congruence. Qed.

Lemma digit_not_suffix a : is_digit a = true → negb (suffix_byte a) = true.
Proof.
  intros Ha. unfold suffix_byte. rewrite negb_orb, andb_true_iff.
  split; by apply digit_not_byte.
Qed.

Lemma format_no_suffix a b c :
  (0 <= a)%Z → (0 <= b)%Z → (0 <= c)%Z →
  all_bytes (λ x, negb (suffix_byte x)) (format_version a b c) = true.
Proof.
  intros Ha Hb Hc. unfold format_version. rewrite !all_bytes_app, !andb_true_iff.
  split_and!; try done; apply itoa_all; auto using digit_not_suffix.
Qed.

Lemma format_plain a b c :
  (0 <= a)%Z → (0 <= b)%Z → (0 <= c)%Z → all_bytes plain (format_version a b c) = true.
Proof.
  intros Ha Hb Hc. unfold format_version. rewrite !all_bytes_app, !andb_true_iff.
  split_and!; try done; apply itoa_all; auto using digit_plain.
Qed.

Lemma itoa_part z : (0 <= z)%Z → part "." (itoa z).
Proof. intros Hz. apply part_all, itoa_all; [done|]. intros a. by apply digit_not_byte. Qed.

Lemma format_split a b c :
  (0 <= a)%Z → (0 <= b)%Z → (0 <= c)%Z →
  Split (format_version a b c) "." = [itoa a; itoa b; itoa c].
Proof.
  intros Ha Hb Hc.
  change (format_version a b c) with (Join [itoa a; itoa b; itoa c] (String "." "")).
  apply Split_Join; [done|]. repeat constructor; by apply itoa_part.
Qed.

Lemma parse_itoa parts i z :
  parts !! i = Some (itoa z) → (0 <= z <= int_max)%Z → parse_part parts i = Some z.
Proof.
  intros Hi Hz. unfold parse_part. rewrite Hi.
  rewrite TrimSpace_plain by (apply itoa_all; [lia|apply digit_plain]).
  rewrite bool_decide_false by (apply itoa_digits; lia).
  apply Atoi_itoa. unfold is_int, int_min, int_max in *. lia.
Qed.

Lemma parse_format a b c suffix :
  (0 <= a <= int_max)%Z → (0 <= b <= int_max)%Z → (0 <= c <= int_max)%Z → suffix_ok suffix →
  parseVersion (format_version a b c +:+ suffix) =
  Ok (mkVersion a b c (format_version a b c +:+ suffix)).
Proof.
  intros Ha Hb Hc [Hpl Hs]. unfold parseVersion. rewrite TrimSpace_plain.
  2: { rewrite all_bytes_app, Hpl, andb_true_r. apply format_plain; lia. }
  rewrite before_any_app by (apply format_no_suffix; lia).
  assert (before_any suffix suffix_byte = "") as ->.
  { destruct Hs as [->|(x&t&->&Hx)]; [done|]. simpl. by rewrite Hx. }
  rewrite app_nil_r_s, format_split by lia.
  rewrite (parse_itoa [itoa a; itoa b; itoa c] 0 a), (parse_itoa [itoa a; itoa b; itoa c] 1 b),
    (parse_itoa [itoa a; itoa b; itoa c] 2 c) by done. done.
Qed.

(** Printing a version and parsing it back gives the three numbers,
    whatever pre-release or build suffix follows them, and a package
    requirement for at least a printed version is met by a printed installed
    version exactly when its numbers are not below. *)
Theorem version_roundtrip a b c suffix a' b' c' suffix' :
  (0 <= a <= int_max)%Z → (0 <= b <= int_max)%Z → (0 <= c <= int_max)%Z →
  (0 <= a' <= int_max)%Z → (0 <= b' <= int_max)%Z → (0 <= c' <= int_max)%Z →
  suffix_ok suffix → suffix_ok suffix' →
  parseVersion (format_version a b c +:+ suffix) =
    Ok (mkVersion a b c (format_version a b c +:+ suffix)) ∧
  (satisfiedByVersion (mkRequirement "" package "lib" (">=" +:+ format_version a b c))
     (format_version a' b' c' +:+ suffix') = true ↔
   version_le (mkVersion a b c "") (mkVersion a' b' c' "")).
Proof.
  intros Ha Hb Hc Ha' Hb' Hc' Hs Hs'. split; [by apply parse_format|].
  unfold satisfiedByVersion. cbn [Kind Constraint].
  assert (all_bytes plain (">=" +:+ format_version a b c) = true) as Hpl.
  { rewrite all_bytes_app. apply format_plain; lia. }
  rewrite TrimSpace_plain by done. rewrite bool_decide_false by done.
  unfold parseVersionConstraint. rewrite TrimSpace_plain by done.
  rewrite bool_decide_false by (by intros []).
  assert (TrimPrefix (">=" +:+ format_version a b c) "v" = ">=" +:+ format_version a b c) as -> by done.
  assert (HasPrefix (">=" +:+ format_version a b c) ">=" = true) as ->.
  { apply HasPrefix_iff. by eexists. }
  unfold with_operator. rewrite TrimPrefix_app.
  pose proof (parse_format a b c "" Ha Hb Hc) as Hp. rewrite app_nil_r_s in Hp.
  rewrite Hp by (split; [done|by left]). rewrite parse_format by done.
  unfold matches. cbn [op value]. rewrite atLeast_iff. done.
Qed.

Lemma version_roundtrip_witness :
  parseVersion "1.2.10-rc1" = Ok (mkVersion 1 2 10 "1.2.10-rc1").
Proof.
  apply (version_roundtrip 1 2 10 "-rc1" 1 2 10 ""); try (unfold int_max; lia); try (split; [done|by left]).
  split; [reflexivity|]. right. exists "-"%char, "rc1". done.
Defined.

(** Where version strings are not read the way they are meant: [1.x.x] pins
    the minor version 0 although it names only the major one; an exact
    version whose suffix contains an [x] becomes a prefix that accepts every
    patch level; and a version written with a leading [v] is accepted as a
    constraint but never met by the same string as an installed version. *)
Theorem wildcard_and_v_defects :
  satisfiedByVersion (mkRequirement "lib@1.x.x" package "lib" "1.x.x") "1.0.7" = true ∧
  satisfiedByVersion (mkRequirement "lib@1.x.x" package "lib" "1.x.x") "1.4.0" = false ∧
  satisfiedByVersion (mkRequirement "lib@1.x" package "lib" "1.x") "1.4.0" = true ∧
  satisfiedByVersion (mkRequirement "lib@1.2.3-fix" package "lib" "1.2.3-fix") "1.2.9" = true ∧
  satisfiedByVersion (mkRequirement "lib@1.2.3-rc" package "lib" "1.2.3-rc") "1.2.9" = false ∧
  is_ok (parseVersionConstraint "v1.2.3") = true ∧
  parseVersion "v1.2.3" = Err (ErrInvalidVersion "v1.2.3") ∧
  satisfiedByVersion (mkRequirement "lib@v1.2.3" package "lib" "v1.2.3") "v1.2.3" = false.
Proof. split_and!; vm_compute; reflexivity. Qed.
