(* ===== verification/PkgDeps.v ===== *)
(** * Package dependencies ([internal/core/packages/deps.go])

    Validation of a candidate package and of a whole registry: missing
    requirements, version conflicts, cycles, and the dependents of a package.
    The error texts follow the source; [quote] is the [%q] verb. *)
From S2P Require Import Prelude GoStrings Cycles Requires.
From Stdlib Require Import Ascii ZArith Lia.

(** The fields of [Entry] ([packages.go]) that the validation reads. *)
Record Entry : Type := mkEntry {
  Name : string;
  Version : string;
  Provides : list string;
  Requires : list string;
}.

Record DependencyReport : Type := mkReport {
  Missing : list string;
  Conflicts : list string;
  Cycles : list (list string);
}.

Definition Report_Empty (r : DependencyReport) : bool :=
  bool_decide (Missing r = []) && bool_decide (Conflicts r = []) && bool_decide (Cycles r = []).

Definition Report_Error (r : DependencyReport) : string :=
  Join (((λ m, "missing dependency: " +:+ m) <$> Missing r)
    ++ ((λ c, "dependency conflict: " +:+ c) <$> Conflicts r)
    ++ ((λ c, "dependency cycle: " +:+ Join c " -> ") <$> Cycles r)) "; ".

(** [knownCapability] ([quality.go]) *)
Definition knownCapability (capability : string) : bool :=
  let capability := TrimSpace capability in
  if bool_decide (capability = "") then true
  else bool_decide (default "" (head (Split capability ":"))
         ∈ ["tool"; "file"; "shell"; "network"; "memory"; "package"; "role"]).

Definition by_name (installed : list Entry) : gmap string Entry :=
  fold_left (λ m e, <[Name e := e]> m) installed ∅.

(** The working set: the candidate replaces the entry of the same name. *)
Definition working_set (candidate : Entry) (installed : list Entry) : gmap string Entry :=
  if bool_decide (TrimSpace (Name candidate) = "") then by_name installed
  else <[Name candidate := candidate]> (by_name installed).

(** What the other packages of the working set provide; the order does not
    matter to the uses. *)
Definition provided (candidate : Entry) (byName : gmap string Entry) : list string :=
  (map_to_list byName).*2 ≫= λ e,
    if bool_decide (Name e = Name candidate) then [] else TrimSpace <$> Provides e.

(** The package requirements of an entry that resolve in the set. *)
Definition package_deps (byName : gmap string Entry) (e : Entry) : list string :=
  omap (λ raw,
    match ParseRequirement raw with
    | Err _ => None
    | Ok req =>
        match Kind req with
        | package => if bool_decide (is_Some (byName !! Req_Name req)) then Some (Req_Name req) else None
        | capability => None
        end
    end) (Requires e).

Definition dependency_graph (byName : gmap string Entry) (name : string) : list string :=
  match byName !! name with Some e => package_deps byName e | None => [] end.

(** [findDependencyCycles]; the fuel is the number of packages. *)
Definition findDependencyCycles (byName : gmap string Entry) : list (list string) :=
  let names := (map_to_list byName).*1 in
  default [] (search (dependency_graph byName) (length names) names).

Section Messages.
Context (quote : string → string).

Definition parse_error_text (e : parse_error) : string :=
  match e with
  | ErrInvalidMajor v => "invalid major version " +:+ quote v
  | ErrInvalidVersion v => "invalid version " +:+ quote v
  end.

Definition requirement_error_text (e : requirement_error) : string :=
  match e with
  | ErrEmptyRequirement => "empty package requirement"
  | ErrCapabilityName raw => "invalid capability requirement " +:+ quote raw +:+ ": missing name"
  | ErrCapabilityMajor raw c =>
      "invalid capability requirement " +:+ quote raw +:+ ": " +:+ parse_error_text c
  | ErrPackageName raw => "invalid package requirement " +:+ quote raw +:+ ": missing name"
  | ErrPackageSpace raw => "invalid package requirement " +:+ quote raw
      +:+ ": package name must not contain whitespace"
  | ErrPackageConstraint raw c =>
      "invalid package requirement " +:+ quote raw +:+ ": " +:+ parse_error_text c
  end.

(** What the loop over the requirements appends for one of them: to the missing
    ones ([inl]), to the conflicts ([inr]), or nothing. *)
Definition check_requirement (candidate : Entry) (byName : gmap string Entry) (raw : string) :
    option (string + string) :=
  match ParseRequirement raw with
  | Err e => Some (inl (raw +:+ " (bad requirement: " +:+ requirement_error_text e +:+ ")"))
  | Ok req =>
      match Kind req with
      | package =>
          match byName !! Req_Name req with
          | None => Some (inl (raw +:+ " required by " +:+ Name candidate))
          | Some e =>
              if satisfiedByVersion req (Version e) then None
              else Some (inr (raw +:+ " required by " +:+ Name candidate +:+ ", installed "
                     +:+ Name e +:+ "@" +:+ Version e))
          end
      | capability =>
          if knownCapability (Req_Name req)
             || existsb (satisfiedByCapability req) (provided candidate byName)
          then None
          else Some (inl (raw +:+ " required by " +:+ Name candidate))
      end
  end.

Definition ValidateCandidateDependencies (candidate : Entry) (installed : list Entry) :
    DependencyReport :=
  let byName := working_set candidate installed in
  let issues := omap (check_requirement candidate byName) (Requires candidate) in
  mkReport (lefts issues) (rights issues) (findDependencyCycles byName).

Definition ValidateDependencyGraph (installed : list Entry) : DependencyReport :=
  let reports := (λ e, ValidateCandidateDependencies e installed) <$> installed in
  mkReport (SortStrings (dedup (reports ≫= Missing))) (SortStrings (dedup (reports ≫= Conflicts)))
    (findDependencyCycles (by_name installed)).

End Messages.

(** Does a package requirement of [e] name [name]? *)
Definition requires_package (name : string) (e : Entry) : bool :=
  existsb (λ raw, match ParseRequirement raw with
    | Ok req => match Kind req with package => bool_decide (Req_Name req = name) | _ => false end
    | Err _ => false
    end) (Requires e).

Definition Dependents (name : string) (installed : list Entry) (exclude : string) : list string :=
  SortStrings (Name <$> filter (λ e, Name e ≠ exclude ∧ Name e ≠ name
    ∧ requires_package name e = true) installed).

(** * Lemmas *)

(** What it means for a requirement to be met in a working set. *)
Definition requirement_met (candidate : Entry) (byName : gmap string Entry) (raw : string) : Prop :=
  ∃ req, ParseRequirement raw = Ok req ∧
    match Kind req with
    | package => ∃ e, byName !! Req_Name req = Some e ∧ satisfiedByVersion req (Version e) = true
    | capability => knownCapability (Req_Name req) = true ∨
        ∃ n e p, byName !! n = Some e ∧ Name e ≠ Name candidate ∧ p ∈ Provides e ∧
          satisfiedByCapability req (TrimSpace p) = true
    end.

Lemma elem_of_provided candidate byName p :
  p ∈ provided candidate byName ↔
  ∃ n e q, byName !! n = Some e ∧ Name e ≠ Name candidate ∧ q ∈ Provides e ∧ p = TrimSpace q.
Proof.
  unfold provided. rewrite list_elem_of_bind. split.
  - intros (e&Hp&((n&e')&->&Hin)%list_elem_of_fmap). apply elem_of_map_to_list in Hin. simpl in Hp.
    case_bool_decide; [by apply not_elem_of_nil in Hp|].
    apply list_elem_of_fmap in Hp as (q&->&Hq). by exists n, e', q.
  - intros (n&e&q&Hn&Hne&Hq&->). exists e. rewrite bool_decide_false by done. split.
    + by apply list_elem_of_fmap_2.
    + apply list_elem_of_fmap. exists (n, e). by rewrite elem_of_map_to_list.
Qed.

Lemma check_requirement_None quote candidate byName raw :
  check_requirement quote candidate byName raw = None ↔ requirement_met candidate byName raw.
Proof.
  unfold check_requirement, requirement_met.
  destruct (ParseRequirement raw) as [req|e]; [|split; [done|by intros (?&?&_)]].
  assert (existsb (satisfiedByCapability req) (provided candidate byName) = true ↔
    ∃ n e p, byName !! n = Some e ∧ Name e ≠ Name candidate ∧ p ∈ Provides e ∧
      satisfiedByCapability req (TrimSpace p) = true) as Hex.
  { rewrite existsb_exists. setoid_rewrite <- list_elem_of_In. setoid_rewrite elem_of_provided. split.
    - intros (x&(n&e&q&?&?&?&->)&?). by exists n, e, q.
    - intros (n&e&q&?&?&?&?). exists (TrimSpace q). split; [|done]. by exists n, e, q. }
  transitivity (match Kind req with
    | package => ∃ e, byName !! Req_Name req = Some e ∧ satisfiedByVersion req (Version e) = true
    | capability => knownCapability (Req_Name req) = true ∨
        existsb (satisfiedByCapability req) (provided candidate byName) = true
    end).
  - destruct (Kind req).
    + destruct (byName !! Req_Name req) as [e|]; [|split; [done|by intros (?&?&_)]].
      destruct (satisfiedByVersion req (Version e)) eqn:Hs.
      * split; [|done]. intros _. by exists e.
      * split; [done|]. intros (e'&[= <-]&?). congruence.
    + rewrite <- orb_true_iff. by destruct (_ || _).
  - split.
    + intros Hr. exists req. split; [done|]. destruct (Kind req); [done|]. by rewrite <- Hex.
    + intros (r&[= <-]&Hr). destruct (Kind req); [done|]. by rewrite Hex.
Qed.

(** The package edges of a working set stay within it. *)
Lemma dependency_edge byName a b :
  edge (dependency_graph byName) a b → is_Some (byName !! a) ∧ is_Some (byName !! b).
Proof.
  unfold edge, dependency_graph. destruct (byName !! a) as [e|]; [|by intros ?%not_elem_of_nil].
  intros Hb. split; [by eexists|]. unfold package_deps in Hb.
  apply list_elem_of_omap in Hb as (raw&_&Hraw).
  destruct (ParseRequirement raw) as [req|]; [|done]. destruct (Kind req); [|done].
  case_bool_decide; [|done]. by injection Hraw as <-.
Qed.

Lemma cycles_exact byName :
  Forall (real_cycle (dependency_graph byName)) (findDependencyCycles byName) ∧
  (findDependencyCycles byName = [] ↔ acyclic (dependency_graph byName)).
Proof. apply search_map, dependency_edge. Qed.

Lemma empty_iff r :
  Report_Empty r = true ↔ Missing r = [] ∧ Conflicts r = [] ∧ Cycles r = [].
Proof. unfold Report_Empty. rewrite !andb_true_iff, !bool_decide_eq_true. tauto. Qed.

Lemma candidate_issues quote candidate installed :
  let r := ValidateCandidateDependencies quote candidate installed in
  Missing r = [] ∧ Conflicts r = [] ↔
  Forall (requirement_met candidate (working_set candidate installed)) (Requires candidate).
Proof.
  cbn. rewrite lefts_rights_nil, omap_nil. apply Forall_iff. intros raw.
  apply check_requirement_None.
Qed.

(** A candidate package is accepted exactly when every requirement it
    declares is well formed and met (a package by an installed one whose
    version the constraint accepts, a capability by the platform or by
    another package) and the packages that would result do not depend on each
    other in a cycle; every cycle reported is a real one. *)
Theorem candidate_report_exact quote candidate installed :
  let r := ValidateCandidateDependencies quote candidate installed in
  let W := working_set candidate installed in
  (Report_Empty r = true ↔
   Forall (requirement_met candidate W) (Requires candidate) ∧ acyclic (dependency_graph W)) ∧
  Forall (real_cycle (dependency_graph W)) (Cycles r).
Proof.
  intros r W. destruct (cycles_exact W) as [Hreal Hcyc]. split; [|exact Hreal].
  pose proof (candidate_issues quote candidate installed) as Hi. cbv zeta in Hi. fold r W in Hi.
  rewrite empty_iff, <- Hi, <- Hcyc. change (Cycles r) with (findDependencyCycles W). tauto.
Qed.

Lemma SortStrings_nil l : SortStrings l = [] ↔ l = [].
Proof.
  split; [|by intros ->]. intros H. pose proof (SortStrings_perm l) as Hp. rewrite H in Hp.
  by apply Permutation_nil in Hp.
Qed.

Lemma dedup_nil (l : list string) : dedup l = [] ↔ l = [].
Proof. split; [|by intros ->]. by destruct l as [|x l]. Qed.

Lemma bind_nil {A B} (f : A → list B) l : l ≫= f = [] ↔ Forall (λ x, f x = []) l.
Proof.
  induction l as [|x l IH]; [done|]. cbn. rewrite app_nil, Forall_cons. fold (l ≫= f). by rewrite IH.
Qed.

(** A registry is accepted exactly when every requirement of every package
    in it is met and the packages do not depend on each other in a cycle, so
    that installing, upgrading or removing a package under this check never
    breaks an installed one; the lists reported are sorted. *)
Theorem registry_report_exact quote installed :
  let r := ValidateDependencyGraph quote installed in
  (Report_Empty r = true ↔
   Forall (λ e, Forall (requirement_met e (working_set e installed)) (Requires e)) installed ∧
   acyclic (dependency_graph (by_name installed))) ∧
  StronglySorted String.le (Missing r) ∧ StronglySorted String.le (Conflicts r).
Proof.
  intros r. split; [|split; apply SortStrings_sorted].
  destruct (cycles_exact (by_name installed)) as [_ Hcyc].
  rewrite empty_iff, <- Hcyc. change (Cycles r) with (findDependencyCycles (by_name installed)).
  subst r. cbn [ValidateDependencyGraph Missing Conflicts].
  rewrite !SortStrings_nil, !dedup_nil, !bind_nil, !Forall_fmap.
  assert (Forall (λ e, Forall (requirement_met e (working_set e installed)) (Requires e)) installed ↔
    Forall (λ e, Missing (ValidateCandidateDependencies quote e installed) = []) installed ∧
    Forall (λ e, Conflicts (ValidateCandidateDependencies quote e installed) = []) installed) as ->.
  { rewrite <- Forall_and. apply Forall_iff. intros e. symmetry. apply candidate_issues. }
  unfold compose. tauto.
Qed.

(** The dependents of a package are exactly the other packages that require
    it by name, in sorted order. *)
Theorem Dependents_exact name installed excluded :
  StronglySorted String.le (Dependents name installed excluded) ∧
  ∀ d, d ∈ Dependents name installed excluded ↔
    ∃ e, e ∈ installed ∧ Name e = d ∧ d ≠ excluded ∧ d ≠ name ∧
      ∃ raw req, raw ∈ Requires e ∧ ParseRequirement raw = Ok req ∧ Kind req = package ∧
        Req_Name req = name.
Proof.
  split; [apply SortStrings_sorted|]. intros d. unfold Dependents.
  rewrite SortStrings_perm, list_elem_of_fmap.
  assert (∀ e, requires_package name e = true ↔ ∃ raw req, raw ∈ Requires e ∧
    ParseRequirement raw = Ok req ∧ Kind req = package ∧ Req_Name req = name) as Hr.
  { intros e. unfold requires_package. rewrite existsb_exists. setoid_rewrite <- list_elem_of_In. split.
    - intros (raw&Hraw&Hp). destruct (ParseRequirement raw) as [req|] eqn:Hpr; [|done].
      destruct (Kind req) eqn:Hk; [|done]. apply bool_decide_eq_true in Hp. by exists raw, req.
    - intros (raw&req&Hraw&Hp&Hk&Hn). exists raw. split; [done|]. rewrite Hp, Hk.
      by apply bool_decide_eq_true. }
  split.
  - intros (e&->&[(?&?&?%Hr) Hin]%list_elem_of_filter). by exists e.
  - intros (e&Hin&<-&?&?&?%Hr). exists e. split; [done|]. by apply list_elem_of_filter.
Qed.
