(* ===== verification/Scope.v ===== *)
(** * Scopes ([internal/core/scope/scope.go])

    Scope ids, and the storage keys that separate the memory and sandbox
    directories of different scopes.  [sha256_hex] is the hexadecimal SHA-256
    digest of a string. *)
From S2P Require Import Prelude GoStrings.
From Stdlib Require Import Ascii ZArith Lia.

Module Scope.

Definition KindSession : string := "session".
Definition KindPersonal : string := "personal".
Definition KindOrg : string := "org".
Definition knownKinds : list string := [KindSession; KindPersonal; KindOrg].

Definition colon : ascii := ":"%char.

Definition New (kind ref : string) : string :=
  if bool_decide (kind ∉ knownKinds) then "" else
  let ref := TrimSpace ref in
  if bool_decide (ref = "") then "" else
  kind +:+ ":" +:+ ReplaceByte ref colon "-".

Definition Session (id : string) : string := New KindSession id.
Definition Personal (user : string) : string := New KindPersonal user.
Definition Org (name : string) : string := New KindOrg name.

(** [None] when the second result of the code is [false]. *)
Definition Parse (id : string) : option (string * string) :=
  match Cut id colon with
  | (kind, ref, true) => if bool_decide (kind ∈ knownKinds) then Some (kind, ref) else None
  | (_, _, false) => None
  end.

Definition IsShared (s : string) : bool :=
  match Parse s with Some (kind, _) => negb (bool_decide (kind = KindSession)) | None => false end.

(** [isSafeScrubRune], on the runes below 128; larger runes are not safe. *)
Definition safe_byte (a : ascii) : bool :=
  ((97 <=? code a) && (code a <=? 122) || (65 <=? code a) && (code a <=? 90)
   || (48 <=? code a) && (code a <=? 57) || (code a =? 45) || (code a =? 95))%N.

Definition unsafe_set (a : ascii) : bool :=
  is_byte "/" a || is_byte "\" a || is_byte " " a || is_byte "." a.

Definition safeRef (ref : string) : bool :=
  if bool_decide (ref = "") then false
  else if ContainsAny ref unsafe_set then false
  else all_bytes safe_byte ref.

(** The encodings of the runes of two, three and four bytes. *)
Definition continues (a : ascii) : bool := ((128 <=? code a) && (code a <=? 191))%N.
Definition rune2 (a b : ascii) : bool :=
  ((194 <=? code a) && (code a <=? 223))%N && continues b.
Definition rune3 (a b c : ascii) : bool :=
  (((code a =? 224) && (160 <=? code b) && (code b <=? 191)
    || ((225 <=? code a) && (code a <=? 236) || (238 <=? code a) && (code a <=? 239)) && continues b
    || (code a =? 237) && (128 <=? code b) && (code b <=? 159))%N) && continues c.
Definition rune4 (a b c d : ascii) : bool :=
  (((code a =? 240) && (144 <=? code b) && (code b <=? 191)
    || (241 <=? code a) && (code a <=? 243) && continues b
    || (code a =? 244) && (128 <=? code b) && (code b <=? 143))%N) && continues c && continues d.

(** [scrub]: one ["__"] per unsafe rune, an invalid byte being one rune. *)
Fixpoint scrub (raw : string) : string :=
  match raw with
  | "" => ""
  | String a s1 =>
      if safe_byte a then String a (scrub s1)
      else "__" +:+
        match s1 with
        | "" => ""
        | String b s2 =>
            if rune2 a b then scrub s2 else
            match s2 with
            | "" => scrub s1
            | String c s3 =>
                if rune3 a b c then scrub s3 else
                match s3 with
                | "" => scrub s1
                | String d s4 => if rune4 a b c d then scrub s4 else scrub s1
                end
            end
        end
  end.

Fixpoint take_bytes (n : nat) (s : string) : string :=
  match n, s with S n, String a s => String a (take_bytes n s) | _, _ => "" end.

Section Key.
Context (sha256_hex : string → string).

Definition hash12 (raw : string) : string := take_bytes 12 (sha256_hex raw).

Definition StorageKey (id : string) : string :=
  let legacy := scrub id in
  match Parse id with
  | None => legacy
  | Some (_, ref) => if safeRef ref then legacy else legacy +:+ "--" +:+ hash12 id
  end.

End Key.

(** * Lemmas *)

Definition hex_byte (a : ascii) : bool :=
  ((48 <=? code a) && (code a <=? 57) || (97 <=? code a) && (code a <=? 102))%N.

Lemma hex_safe a : hex_byte a = true → safe_byte a = true.
Proof. unfold hex_byte, safe_byte. rewrite !orb_true_iff, !andb_true_iff, !N.leb_le, !N.eqb_eq. lia. Qed.

Lemma take_bytes_all p n s : all_bytes p s = true → all_bytes p (take_bytes n s) = true.
Proof.
  revert s. induction n as [|n IH]; intros [|a s]; simpl; try done.
  rewrite !andb_true_iff. intros [-> Hs]. auto.
Qed.

(** What is left of a string after an unsafe first rune. *)
Lemma scrub_step a s1 :
  safe_byte a = false → ∃ s', scrub (String a s1) = "__" +:+ scrub s' ∧ String.length s' ≤ String.length s1.
Proof.
  intros Ha. simpl. rewrite Ha. destruct s1 as [|b s2]; [exists ""; split; [done|simpl; lia]|].
  destruct (rune2 a b); [exists s2; split; [done|simpl; lia]|].
  destruct s2 as [|c s3]; [exists (String b ""); split; [done|simpl; lia]|].
  destruct (rune3 a b c); [exists s3; split; [done|simpl; lia]|].
  destruct s3 as [|d s4]; [exists (String b (String c "")); split; [done|simpl; lia]|].
  destruct (rune4 a b c d); [exists s4; split; [done|simpl; lia]|].
  exists (String b (String c (String d s4))). split; [done|simpl; lia].
Qed.

Lemma scrub_safe s : all_bytes safe_byte (scrub s) = true.
Proof.
  induction s as [s IH] using (induction_ltof1 _ String.length); unfold ltof in IH.
  destruct s as [|a s1]; [done|]. destruct (safe_byte a) eqn:Ha.
  - simpl. rewrite Ha. simpl. rewrite Ha. apply IH. simpl. lia.
  - destruct (scrub_step a s1 Ha) as (s'&->&Hl). rewrite all_bytes_app. apply IH. simpl. lia.
Qed.

Lemma scrub_id s : all_bytes safe_byte s = true → scrub s = s.
Proof.
  induction s as [|a s IH]; [done|]. cbn [all_bytes]. rewrite andb_true_iff. intros [Ha Hs].
  simpl. rewrite Ha. by rewrite IH.
Qed.

Lemma scrub_app_safe s t : all_bytes safe_byte s = true → scrub (s +:+ t) = s +:+ scrub t.
Proof.
  induction s as [|a s IH]; [done|]. cbn [all_bytes]. rewrite andb_true_iff, !app_cons_s. intros [Ha Hs].
  simpl. rewrite Ha. by rewrite IH.
Qed.

Lemma scrub_colon t : scrub (String colon t) = "__" +:+ scrub t.
Proof.
  simpl. do 2 f_equal. destruct t as [|b [|c [|d t]]]; try done.
Qed.

Lemma kind_safe kind : kind ∈ knownKinds → all_bytes safe_byte kind = true ∧ part colon kind.
Proof.
  unfold knownKinds. rewrite !elem_of_cons, elem_of_nil. by intros [->|[->|[->|[]]]].
Qed.

Lemma Parse_make kind ref : kind ∈ knownKinds → Parse (kind +:+ ":" +:+ ref) = Some (kind, ref).
Proof.
  intros Hk. unfold Parse. change (":" +:+ ref) with (String colon ref).
  rewrite Cut_part by (by apply kind_safe). by rewrite bool_decide_true.
Qed.

Lemma Parse_Some id kind ref :
  Parse id = Some (kind, ref) ↔ kind ∈ knownKinds ∧ id = kind +:+ ":" +:+ ref.
Proof.
  split; [|intros [? ->]; by apply Parse_make].
  unfold Parse. destruct (Cut id colon) as [[b r] f] eqn:Hc. destruct f; [|done].
  case_bool_decide; [|done]. intros [= <- <-]. split; [done|].
  by destruct (Cut_spec id colon b r true Hc) as [_ [[_ ->]|[? _]]].
Qed.

Lemma scrub_scope kind ref :
  kind ∈ knownKinds → scrub (kind +:+ ":" +:+ ref) = kind +:+ "__" +:+ scrub ref.
Proof.
  intros Hk. change (":" +:+ ref) with (String colon ref).
  rewrite scrub_app_safe by (by apply kind_safe). by rewrite scrub_colon.
Qed.

Lemma safeRef_iff ref : safeRef ref = true ↔ ref ≠ "" ∧ all_bytes safe_byte ref = true.
Proof.
  unfold safeRef. case_bool_decide as Hr; [naive_solver|].
  assert (all_bytes safe_byte ref = true → ContainsAny ref unsafe_set = false) as Hc.
  { intros Hs. apply ContainsAny_none. eapply all_bytes_impl; [|exact Hs]. intros a Ha.
    unfold unsafe_set, is_byte. rewrite negb_true_iff, !orb_false_iff, !bool_decide_eq_false.
    split_and!; intros ->; by vm_compute in Ha. }
  destruct (ContainsAny ref unsafe_set); [|tauto]. split; [done|]. intros [_ Hs].
  by specialize (Hc Hs).
Qed.
(** Building and parsing scope ids are inverse: a known kind and a reference
    that is not blank give an id that parses back to the kind and the
    reference with its colons replaced; every other input gives the empty id,
    which does not parse. *)
Theorem New_Parse kind ref :
  (kind ∈ knownKinds → TrimSpace ref ≠ "" →
   Parse (New kind ref) = Some (kind, ReplaceByte (TrimSpace ref) colon "-")) ∧
  (kind ∉ knownKinds ∨ TrimSpace ref = "" → New kind ref = "" ∧ Parse (New kind ref) = None).
Proof.
  unfold New. split.
  - intros Hk Hr. rewrite bool_decide_false by tauto. rewrite bool_decide_false by done.
    by apply Parse_make.
  - intros Hn. case_bool_decide as Hk; [done|]. destruct Hn as [Hn|Hn]; [tauto|].
    by rewrite bool_decide_true.
Qed.

(** A storage key is a single safe path element: it consists of letters,
    digits, hyphens and underscores only, whatever bytes the scope id holds,
    so that it never contains a slash, a dot or a blank. *)
Theorem StorageKey_safe sha256_hex id :
  (∀ s, all_bytes hex_byte (sha256_hex s) = true) →
  all_bytes safe_byte (StorageKey sha256_hex id) = true.
Proof.
  intros Hhex. unfold StorageKey. destruct (Parse id) as [[kind ref]|]; [|apply scrub_safe].
  destruct (safeRef ref); [apply scrub_safe|].
  rewrite !all_bytes_app, scrub_safe. simpl. eapply all_bytes_impl; [exact hex_safe|].
  by apply take_bytes_all.
Qed.

Lemma StorageKey_safe_witness :
  all_bytes safe_byte (StorageKey (λ _, "0123456789abcdef") "org:../etc") = true.
Proof. apply (StorageKey_safe (λ _, "0123456789abcdef") "org:../etc"). reflexivity. Defined.

(** Kinds do not run into references. *)
Lemma kind_split k1 r1 k2 r2 :
  k1 ∈ knownKinds → k2 ∈ knownKinds → k1 +:+ "__" +:+ r1 = k2 +:+ "__" +:+ r2 → k1 = k2 ∧ r1 = r2.
Proof.
  unfold knownKinds. rewrite !elem_of_cons, !elem_of_nil.
  intros [->|[->|[->|[]]]] [->|[->|[->|[]]]] H; repeat (injection H as H); subst; try done.
Qed.

(** Scopes with safe references have pairwise different storage keys. *)
Theorem StorageKey_injective sha256_hex k1 r1 k2 r2 :
  k1 ∈ knownKinds → k2 ∈ knownKinds → safeRef r1 = true → safeRef r2 = true →
  StorageKey sha256_hex (k1 +:+ ":" +:+ r1) = StorageKey sha256_hex (k2 +:+ ":" +:+ r2) →
  k1 = k2 ∧ r1 = r2.
Proof.
  intros Hk1 Hk2 H1 H2. unfold StorageKey. rewrite !Parse_make, H1, H2, !scrub_scope by done.
  apply safeRef_iff in H1 as [_ H1]. apply safeRef_iff in H2 as [_ H2]. rewrite !scrub_id by done.
  by apply kind_split.
Qed.

Lemma StorageKey_injective_witness :
  ¬ StorageKey (λ _, "") ("org" +:+ ":" +:+ "a") = StorageKey (λ _, "") ("org" +:+ ":" +:+ "b").
Proof.
  intros H. assert ("org" ∈ knownKinds) as Hk by (right; right; left).
  destruct (StorageKey_injective (λ _, "") "org" "a" "org" "b" Hk Hk eq_refl eq_refl H) as [_ Hab].
  discriminate Hab.
Defined.

(** Storage keys are not collision free: every scope whose reference has an
    unsafe character shares its key with a different scope of the same kind,
    the one whose reference is the scrubbed reference followed by the suffix,
    which anybody who can choose a reference can choose. *)
Theorem StorageKey_collision sha256_hex kind ref :
  kind ∈ knownKinds → safeRef ref = false → (∀ s, all_bytes hex_byte (sha256_hex s) = true) →
  let id := kind +:+ ":" +:+ ref in
  let ref' := scrub ref +:+ "--" +:+ hash12 sha256_hex id in
  let id' := kind +:+ ":" +:+ ref' in
  StorageKey sha256_hex id' = StorageKey sha256_hex id ∧ Parse id' = Some (kind, ref') ∧ id' ≠ id.
Proof.
  intros Hk Hu Hhex id ref' id'.
  assert (safeRef ref' = true) as Hs.
  { apply safeRef_iff. split.
    - intros Hn. apply (f_equal String.length) in Hn. subst ref'.
      rewrite !length_app_s in Hn. simpl in Hn. lia.
    - subst ref'. rewrite !all_bytes_app, scrub_safe. simpl. eapply all_bytes_impl; [exact hex_safe|].
      by apply take_bytes_all. }
  split_and!.
  - unfold StorageKey. subst id' id. rewrite !Parse_make, Hs, Hu by done.
    rewrite !scrub_scope by done. apply safeRef_iff in Hs as [_ Hs]. rewrite (scrub_id ref') by done.
    subst ref'. by rewrite !app_assoc_s.
  - by apply Parse_make.
  - intros Heq. assert (Parse id' = Parse id) as Hp by congruence. subst id id'.
    rewrite !Parse_make in Hp by done. injection Hp as Hp. congruence.
Qed.

Lemma StorageKey_collision_witness :
  StorageKey (λ _, "0123456789abcdef") "personal:a__b--0123456789ab"
  = StorageKey (λ _, "0123456789abcdef") "personal:a/b".
Proof.
  apply (StorageKey_collision (λ _, "0123456789abcdef") "personal" "a/b");
    [right; left|vm_compute; reflexivity|reflexivity].
Defined.

End Scope.
