(* ===== verification/PluginManifest.v ===== *)
(** * Plugin manifests ([internal/pluginrt/manifest.go])

    The manifest of a plugin, its validation, and the capability references
    [namespace:name[@major]] by which plugins require each other. *)
From S2P Require Import Prelude GoStrings Scope.
From Stdlib Require Import Ascii ZArith Lia.

(** ** Lifecycle phases *)

Inductive State : Type :=
| StatePending | StateLoading | StateActive | StateUnloading | StateDisposed | StateFailed.
#[export] Instance State_eq_dec : EqDecision State.
Proof. solve_decision. Defined.

Definition State_String (s : State) : string :=
  match s with
  | StatePending => "pending"
  | StateLoading => "loading"
  | StateActive => "active"
  | StateUnloading => "unloading"
  | StateDisposed => "disposed"
  | StateFailed => "failed"
  end.

Record Manifest : Type := mkManifest {
  ID : string;
  Version : string;
  Scope : string;
  Requires : list string;
  Provides : list string;
}.

(** ** Capability references *)

Record capability : Type := mkCapability {
  Name : string;
  Major : Z;
  Any : bool;
}.

Inductive capability_error : Type :=
| ErrEmptyCapability
| ErrMissingName (raw : string)
| ErrShape (raw : string)
| ErrMajor (raw value : string).
#[export] Instance capability_error_eq_dec : EqDecision capability_error.
Proof. solve_decision. Defined.

(** The loop of [parseMajor]: no rune above 127 is a digit, so it can go byte by
    byte; the accumulator is a machine integer. *)
Fixpoint major_loop (n : Z) (s : string) : option Z :=
  match s with
  | "" => Some n
  | String r s =>
      match digit_val r with
      | None => None
      | Some d => major_loop (wrap64 (n * 10 + d)) s
      end
  end.

Definition parseMajor (value : string) : option Z := major_loop 0 (TrimSpace value).

Definition parseCapability (raw : string) : result capability_error capability :=
  let raw := TrimSpace raw in
  if bool_decide (raw = "") then Err ErrEmptyCapability else
  let '(name, majorRaw, _) := Cut raw "@" in
  let name := TrimSpace name in
  if bool_decide (name = "") then Err (ErrMissingName raw) else
  match Split name ":" with
  | [namespace; local] =>
      if bool_decide (TrimSpace namespace = "") || bool_decide (TrimSpace local = "")
      then Err (ErrShape raw)
      else if bool_decide (TrimSpace majorRaw = "") then Ok (mkCapability name 0 true)
      else match parseMajor majorRaw with
           | None => Err (ErrMajor raw majorRaw)
           | Some n => Ok (mkCapability name n false)
           end
  | _ => Err (ErrShape raw)
  end.

Definition satisfies (req prov : capability) : bool :=
  if bool_decide (Name req ≠ Name prov) then false
  else if Any req then true
  else bool_decide (Major prov = Major req).

Definition matches (requirement provided : string) : bool :=
  match parseCapability requirement, parseCapability provided with
  | Ok req, Ok prov => satisfies req prov
  | _, _ => false
  end.

(** ** Validation *)

Inductive manifest_error : Type :=
| ErrMissingID
| ErrMissingScope
| ErrInvalidScope
| ErrCapability (e : capability_error).
#[export] Instance manifest_error_eq_dec : EqDecision manifest_error.
Proof. solve_decision. Defined.

(** The first capability of a list that does not parse. *)
Fixpoint first_bad (l : list string) : option capability_error :=
  match l with
  | [] => None
  | raw :: l => match parseCapability raw with Err e => Some e | Ok _ => first_bad l end
  end.

(** [Manifest.Validate]; [None] is the nil error. *)
Definition Validate (m : Manifest) : option manifest_error :=
  if bool_decide (TrimSpace (ID m) = "") then Some ErrMissingID else
  if bool_decide (Scope m = "") then Some ErrMissingScope else
  match Scope.Parse (Scope m) with
  | None => Some ErrInvalidScope
  | Some _ =>
      match first_bad (Requires m) with
      | Some e => Some (ErrCapability e)
      | None => ErrCapability <$> first_bad (Provides m)
      end
  end.

(** * Lemmas *)

Definition well_formed (raw : string) : Prop := is_ok (parseCapability raw) = true.

Lemma first_bad_None l : first_bad l = None ↔ Forall well_formed l.
Proof.
  induction l as [|raw l IH]; [done|]. rewrite Forall_cons, <- IH. unfold well_formed. simpl.
  destruct (parseCapability raw); simpl; naive_solver.
Qed.

Lemma Validate_None m :
  Validate m = None ↔
  TrimSpace (ID m) ≠ "" ∧ is_Some (Scope.Parse (Scope m)) ∧
  Forall well_formed (Requires m) ∧ Forall well_formed (Provides m).
Proof.
  unfold Validate. case_bool_decide as Hid; [naive_solver|].
  case_bool_decide as Hs.
  { rewrite Hs. split; [done|]. by intros (_&[? ?]&_). }
  destruct (Scope.Parse (Scope m)) as [p|]; [|split; [done|by intros (_&[? ?]&_)]].
  rewrite <- !first_bad_None. destruct (first_bad (Requires m)).
  - split; [done|]. naive_solver.
  - rewrite fmap_None. split; [|naive_solver]. intros ->. by split_and!.
Qed.

(** The number that a string of digits denotes, without a bound on its size. *)
Lemma major_loop_value s n k :
  digits_acc k s = Some n → major_loop (wrap64 k) s = Some (wrap64 n).
Proof.
  revert k. induction s as [|a s IH]; intros k; simpl; [by intros [= ->]|].
  destruct (digit_val a) as [d|]; simpl; [|done]. intros H.
  rewrite <- (IH (k * 10 + d)%Z H). f_equal. unfold wrap64.
  rewrite <- (Z.mod_add (k * 10 + d + 2 ^ 63) (- 10 * ((k + 2 ^ 63) / 2 ^ 64)) (2 ^ 64)) by lia.
  pose proof (Z.div_mod (k + 2 ^ 63) (2 ^ 64)). do 2 f_equal. lia.
Qed.

Lemma major_loop_None s n k : digits_acc k s = None → major_loop n s = None.
Proof.
  revert n k. induction s as [|a s IH]; intros n k; simpl; [done|].
  destruct (digit_val a) as [d|]; simpl; [|done]. by apply IH.
Qed.

Lemma parseMajor_digits value n :
  digits (TrimSpace value) = Some n → parseMajor value = Some (wrap64 n).
Proof.
  unfold digits, parseMajor. destruct (TrimSpace value); [done|].
  intros H. by apply (major_loop_value _ _ 0%Z) in H.
Qed.

Lemma parseMajor_range value n : parseMajor value = Some n → is_int n.
Proof.
  unfold parseMajor. assert (∀ s k, is_int k → major_loop k s = Some n → is_int n) as H.
  { induction s as [|a s IH]; intros k Hk; simpl; [by intros [= <-]|].
    destruct (digit_val a); [|done]. apply IH, wrap64_is_int. }
  apply H. by split.
Qed.

(** What a well-formed reference looks like. *)
Lemma parseCapability_Ok raw c :
  parseCapability raw = Ok c →
  (∃ namespace local, Split (Name c) ":" = [namespace; local] ∧
    TrimSpace namespace ≠ "" ∧ TrimSpace local ≠ "") ∧
  is_int (Major c) ∧ (Any c = true → Major c = 0%Z).
Proof.
  unfold parseCapability. case_bool_decide; [done|].
  destruct (Cut (TrimSpace raw) "@") as [[name majorRaw] found].
  case_bool_decide; [done|].
  destruct (Split (TrimSpace name) ":") as [|a [|b []]] eqn:Hs; try done.
  destruct (bool_decide (TrimSpace a = "") || _) eqn:Hblank; [done|].
  apply orb_false_iff in Hblank as [Ha Hb].
  apply bool_decide_eq_false in Ha. apply bool_decide_eq_false in Hb.
  case_bool_decide.
  - intros [= <-]. split_and!; [by exists a, b|done|done].
  - destruct (parseMajor majorRaw) as [n|] eqn:Hn; [|done]. intros [= <-].
    split_and!; [by exists a, b|by eapply parseMajor_range|done].
Qed.

Lemma satisfies_iff req prov :
  satisfies req prov = true ↔ Name prov = Name req ∧ (Any req = true ∨ Major prov = Major req).
Proof.
  unfold satisfies. case_bool_decide as Hn; [naive_solver|].
  destruct (decide (Name req = Name prov)) as [He|]; [|naive_solver].
  destruct (Any req); [naive_solver|]. rewrite bool_decide_eq_true. naive_solver.
Qed.

Lemma matches_iff requirement provided :
  matches requirement provided = true ↔
  ∃ req prov, parseCapability requirement = Ok req ∧ parseCapability provided = Ok prov ∧
    Name prov = Name req ∧ (Any req = true ∨ Major prov = Major req).
Proof.
  unfold matches. destruct (parseCapability requirement) as [req|]; [|naive_solver].
  destruct (parseCapability provided) as [prov|]; [|naive_solver].
  rewrite satisfies_iff. naive_solver.
Qed.

(** Names that are printed without blanks, and hold neither separator. *)
Definition name_byte (a : ascii) : bool := plain a && negb (is_byte ":" a) && negb (is_byte "@" a).
Definition name_part (s : string) : Prop := s ≠ "" ∧ all_bytes name_byte s = true.

Lemma name_part_facts s :
  name_part s → TrimSpace s = s ∧ all_bytes plain s = true ∧ part ":" s ∧ part "@" s.
Proof.
  intros [_ Hs]. assert (all_bytes plain s = true) as Hp.
  { eapply all_bytes_impl; [|exact Hs]. unfold name_byte. intros a. by destruct (plain a). }
  split_and!; [by apply TrimSpace_plain|done|..]; apply part_all;
    (eapply all_bytes_impl; [|exact Hs]); unfold name_byte; intros a;
    rewrite !andb_true_iff; tauto.
Qed.

Lemma part_app c s t : part c s → part c t → part c (s +:+ t).
Proof.
  intros Hs Ht. induction s as [|a s IH]; [done|]. rewrite app_cons_s.
  apply part_cons in Hs as [Ha Hs]. apply part_cons. auto.
Qed.

Lemma full_name_facts namespace local :
  name_part namespace → name_part local →
  let name := namespace +:+ ":" +:+ local in
  Split name ":" = [namespace; local] ∧ all_bytes plain name = true ∧ part "@" name ∧ name ≠ "".
Proof.
  intros Hn Hl name. destruct (name_part_facts _ Hn) as (_&Hnp&Hnc&Hna).
  destruct (name_part_facts _ Hl) as (_&Hlp&Hlc&Hla). subst name. split_and!.
  - change (":" +:+ local) with (String ":" local). rewrite Split_app. by rewrite Hnc, Hlc.
  - by rewrite !all_bytes_app, Hnp, Hlp.
  - apply part_app; [done|]. by apply part_app.
  - by destruct namespace.
Qed.

Lemma digits_nonempty s n : digits s = Some n → s ≠ "" ∧ all_bytes is_digit s = true.
Proof. destruct s as [|a s]; [done|]. intros H. split; [done|]. by apply (digits_acc_all 0 _ n). Qed.

Lemma parse_versioned namespace local text n :
  name_part namespace → name_part local → digits text = Some n →
  parseCapability (namespace +:+ ":" +:+ local +:+ "@" +:+ text) =
    Ok (mkCapability (namespace +:+ ":" +:+ local) (wrap64 n) false).
Proof.
  intros Hn Hl Ht. destruct (full_name_facts _ _ Hn Hl) as (Hs&Hp&Ha&Hne).
  destruct (digits_nonempty _ _ Ht) as [Htne Htd].
  assert (all_bytes plain text = true) as Htp by (eapply all_bytes_impl; [apply digit_plain|done]).
  destruct (name_part_facts _ Hn) as (Htn&_). destruct (name_part_facts _ Hl) as (Htl&_).
  rewrite <- !app_assoc_s in *. set (name := (namespace +:+ ":") +:+ local) in *.
  unfold parseCapability.
  rewrite TrimSpace_plain by (by rewrite !all_bytes_app, Hp, Htp).
  rewrite bool_decide_false by (by destruct name). rewrite app_assoc_s.
  change ("@" +:+ text) with (String "@" text). rewrite Cut_part by done.
  rewrite (TrimSpace_plain name), bool_decide_false, Hs, Htn, Htl by done.
  rewrite !(bool_decide_false (_ = "")) by (by first [apply Hn|apply Hl]). simpl.
  rewrite TrimSpace_plain, bool_decide_false by done.
  rewrite (parseMajor_digits text n); [done|]. by rewrite TrimSpace_plain.
Qed.

Lemma parse_unversioned namespace local :
  name_part namespace → name_part local →
  parseCapability (namespace +:+ ":" +:+ local) =
    Ok (mkCapability (namespace +:+ ":" +:+ local) 0 true).
Proof.
  intros Hn Hl. destruct (full_name_facts _ _ Hn Hl) as (Hs&Hp&Ha&Hne).
  destruct (name_part_facts _ Hn) as (Htn&_). destruct (name_part_facts _ Hl) as (Htl&_).
  set (name := namespace +:+ ":" +:+ local) in *. unfold parseCapability.
  rewrite TrimSpace_plain, bool_decide_false, Cut_absent by done.
  rewrite TrimSpace_plain, bool_decide_false, Hs, Htn, Htl by done.
  by rewrite !(bool_decide_false (_ = "")) by (by first [apply Hn|apply Hl]).
Qed.

(** ** Properties *)

(** What a capability reference means. [namespace:name] is read as a
    reference to any version and [namespace:name@digits] as one to the version
    the digits denote, reduced to a machine integer; one reference satisfies
    another exactly when the names agree and the requirement leaves the
    version open or has the same number. Two versions that differ by a
    multiple of [2^64] are therefore taken for the same one. *)
Theorem capability_reference namespace local text n :
  name_part namespace → name_part local → digits text = Some n →
  let name := namespace +:+ ":" +:+ local in
  parseCapability name = Ok (mkCapability name 0 true) ∧
  parseCapability (name +:+ "@" +:+ text) = Ok (mkCapability name (wrap64 n) false) ∧
  (∀ prov, matches name prov = true ↔ ∃ p, parseCapability prov = Ok p ∧ Name p = name) ∧
  (∀ prov, matches (name +:+ "@" +:+ text) prov = true ↔
    ∃ p, parseCapability prov = Ok p ∧ Name p = name ∧ Major p = wrap64 n).
Proof.
  intros Hn Hl Ht name. pose proof (parse_unversioned _ _ Hn Hl) as Hu. fold name in Hu.
  pose proof (parse_versioned _ _ _ _ Hn Hl Ht) as Hv. rewrite <- !app_assoc_s in Hv.
  rewrite (app_assoc_s namespace), (app_assoc_s name) in Hv. fold name in Hv.
  split_and!; [done|done|..]; intros prov; rewrite matches_iff; [rewrite Hu|rewrite Hv]; naive_solver.
Qed.

Lemma capability_reference_witness :
  parseCapability "godex:log@18446744073709551617" = Ok (mkCapability "godex:log" 1 false) ∧
  matches "godex:log@18446744073709551617" "godex:log@1" = true.
Proof.
  destruct (capability_reference "godex" "log" "18446744073709551617" 18446744073709551617)
    as (_&Hp&_&Hm); [by split|by split|reflexivity|].
  split; [exact Hp|]. apply Hm. eexists. split; [reflexivity|]. by split.
Defined.
