(* ===== verification/PluginGraph.v ===== *)
(** * Plugin dependency validation ([internal/pluginrt/graph.go])

    The check of a candidate plugin against the installed ones: missing
    capabilities, version conflicts and dependency cycles.  [order i] is the
    order in which the [i]th loop over the set of provided capabilities visits
    it (Go leaves the order of a map open), [platform] the predicate of the
    platform's own capabilities, and [quote] the [%q] verb. *)
From S2P Require Import Prelude GoStrings Cycles Scope PluginManifest.
From Stdlib Require Import Ascii ZArith Lia.

Record Report : Type := mkReport {
  Missing : list string;
  Conflicts : list string;
  Cycles : list (list string);
}.

Definition Empty (r : Report) : bool :=
  bool_decide (length (Missing r) = 0) && bool_decide (length (Conflicts r) = 0)
  && bool_decide (length (Cycles r) = 0).

Definition Error (r : Report) : string :=
  Join (((λ item, "missing capability: " +:+ item) <$> Missing r)
    ++ ((λ item, "capability conflict: " +:+ item) <$> Conflicts r)
    ++ ((λ cycle, "dependency cycle: " +:+ Join cycle " -> ") <$> Cycles r)) "; ".

(** ** The working set *)

Definition by_id (installed : list Manifest) : gmap string Manifest :=
  fold_left (λ m item, <[ID item := item]> m) installed ∅.

Definition byID (candidate : Manifest) (installed : list Manifest) : gmap string Manifest :=
  if bool_decide (TrimSpace (ID candidate) = "") then by_id installed
  else <[ID candidate := candidate]> (by_id installed).

(** The capabilities of the plugins other than the candidate, a set. *)
Definition provided (candidate : Manifest) (byID : gmap string Manifest) : gset string :=
  list_to_set (map_to_list byID ≫= λ '(id, item),
    if bool_decide (id = ID candidate) then [] else TrimSpace <$> Provides item).

Definition pluginProviding (byID : gmap string Manifest) (capability : string) : string :=
  let ids := map_to_list byID ≫= λ '(id, item),
    omap (λ raw, if bool_decide (TrimSpace raw = capability) then Some id else None)
      (Provides item) in
  default "?" (head (SortStrings ids)).

(** ** Cycles *)

(** The parsed names of a list of references; the others are skipped. *)
Definition names (l : list string) : list string :=
  omap (λ raw, match parseCapability raw with Ok c => Some (Name c) | Err _ => None end) l.

(** [providerIDs[name]], once per occurrence. *)
Definition providerIDs (byID : gmap string Manifest) (name : string) : list string :=
  map_to_list byID ≫= λ '(id, item),
    omap (λ n, if bool_decide (n = name) then Some id else None) (names (Provides item)).

(** [deps[id]]: sorted, so that the order of the two loops over the map does not
    show; a provider is listed once per requirement. *)
Definition deps (byID : gmap string Manifest) (id : string) : list string :=
  match byID !! id with
  | None => []
  | Some item => SortStrings (names (Requires item) ≫= λ name, dedup (providerIDs byID name))
  end.

(** [findCycles]; the fuel is the number of plugins. *)
Definition findCycles (byID : gmap string Manifest) : list (list string) :=
  let ids := (map_to_list byID).*1 in
  default [] (search (deps byID) (length ids) ids).

(** ** Validation *)

Section Messages.
Context (quote : string → string) (platform : option (string → bool)).
Context (order : nat → list string → list string).

Definition capability_error_text (e : capability_error) : string :=
  match e with
  | ErrEmptyCapability => "empty capability"
  | ErrMissingName raw => "invalid capability " +:+ quote raw +:+ ": missing name"
  | ErrShape raw => "invalid capability " +:+ quote raw +:+ ": expected namespace:name"
  | ErrMajor raw value => "invalid capability " +:+ quote raw
      +:+ ": invalid major version " +:+ quote value
  end.

(** The loop over the provided capabilities: whether one satisfies the
    requirement, and the text of the last conflict seen before that. *)
Fixpoint scan (byID : gmap string Manifest) (id raw : string) (req : capability)
    (conflict : string) (l : list string) : bool * string :=
  match l with
  | [] => (false, conflict)
  | providedRaw :: l =>
      if matches raw providedRaw then (true, conflict) else
      let conflict :=
        match parseCapability providedRaw with
        | Ok prov =>
            if bool_decide (Name prov = Name req) && negb (Any req)
               && negb (bool_decide (Major prov = Major req))
            then raw +:+ " required by " +:+ id +:+ ", but " +:+ pluginProviding byID providedRaw
              +:+ " provides " +:+ Name prov +:+ "@" +:+ itoa (Major prov)
            else conflict
        | Err _ => conflict
        end in
      scan byID id raw req conflict l
  end.

(** One round of the loop over the requirements: what it appends to the missing
    ones ([inl]) or to the conflicts ([inr]). *)
Definition check_requirement (candidate : Manifest) (byID : gmap string Manifest)
    (i : nat) (raw : string) : option (string + string) :=
  match parseCapability raw with
  | Err e => Some (inl (raw +:+ " required by " +:+ ID candidate +:+ " (bad capability: "
               +:+ capability_error_text e +:+ ")"))
  | Ok req =>
      if match platform with Some p => p (Name req) | None => false end then None else
      match scan byID (ID candidate) raw req "" (order i (elements (provided candidate byID))) with
      | (true, _) => None
      | (false, conflict) =>
          if bool_decide (conflict = "")
          then Some (inl (raw +:+ " required by " +:+ ID candidate))
          else Some (inr conflict)
      end
  end.

(** [Graph.Validate] *)
Definition Graph_Validate (candidate : Manifest) (installed : list Manifest) : Report :=
  let byID := byID candidate installed in
  let issues := omap id (imap (check_requirement candidate byID) (Requires candidate)) in
  mkReport (lefts issues) (rights issues) (findCycles byID).

End Messages.

(** * Lemmas *)

(** Plugin [b] provides a capability of this name. *)
Definition provides_name (byID : gmap string Manifest) (name b : string) : Prop :=
  ∃ item, byID !! b = Some item ∧ name ∈ names (Provides item).

Lemma elem_of_names raws name :
  name ∈ names raws ↔ ∃ raw c, raw ∈ raws ∧ parseCapability raw = Ok c ∧ Name c = name.
Proof.
  unfold names. rewrite list_elem_of_omap. split.
  - intros (raw&Hin&Hc). destruct (parseCapability raw) as [c|] eqn:Hp; [|done].
    injection Hc as <-. by exists raw, c.
  - intros (raw&c&Hin&Hp&<-). exists raw. by rewrite Hp.
Qed.

Lemma elem_of_providerIDs byID name b : b ∈ providerIDs byID name ↔ provides_name byID name b.
Proof.
  unfold providerIDs, provides_name. rewrite list_elem_of_bind. split.
  - intros ([k item]&Hb&Hin). apply elem_of_map_to_list in Hin.
    apply list_elem_of_omap in Hb as (n&Hn&Hb). case_bool_decide; [|done]. injection Hb as <-.
    subst. by exists item.
  - intros (item&Hb&Hn). exists (b, item). split; [|by apply elem_of_map_to_list].
    apply list_elem_of_omap. exists name. by rewrite bool_decide_true.
Qed.

Lemma edge_iff byID a b :
  edge (deps byID) a b ↔
  ∃ item name, byID !! a = Some item ∧ name ∈ names (Requires item) ∧ provides_name byID name b.
Proof.
  unfold edge, deps. destruct (byID !! a) as [item|].
  - rewrite SortStrings_perm, list_elem_of_bind. setoid_rewrite elem_of_dedup.
    setoid_rewrite elem_of_providerIDs. naive_solver.
  - rewrite elem_of_nil. naive_solver.
Qed.

Lemma findCycles_exact byID :
  Forall (real_cycle (deps byID)) (findCycles byID) ∧
  (findCycles byID = [] ↔ acyclic (deps byID)).
Proof.
  apply search_map. intros a b (item&name&Ha&_&(item'&Hb&_))%edge_iff. split; by eexists.
Qed.

Lemma elem_of_provided_by candidate byID p :
  p ∈ provided candidate byID ↔
  ∃ id item raw, byID !! id = Some item ∧ id ≠ ID candidate ∧ raw ∈ Provides item ∧ p = TrimSpace raw.
Proof.
  unfold provided. rewrite elem_of_list_to_set, list_elem_of_bind. split.
  - intros ([id item]&Hp&Hin). apply elem_of_map_to_list in Hin.
    case_bool_decide; [by apply not_elem_of_nil in Hp|].
    apply list_elem_of_fmap in Hp as (raw&->&Hraw). by exists id, item, raw.
  - intros (id&item&raw&Hid&Hne&Hraw&->). exists (id, item).
    rewrite bool_decide_false by done. split; [by apply list_elem_of_fmap_2|].
    by apply elem_of_map_to_list.
Qed.

(** What the loop over the provided capabilities decides. *)
Lemma scan_true byID id raw req conflict l :
  (scan byID id raw req conflict l).1 = true ↔ Exists (λ p, matches raw p = true) l.
Proof.
  revert conflict. induction l as [|p l IH]; intros conflict; simpl; [by rewrite Exists_nil|].
  rewrite Exists_cons. destruct (matches raw p); [simpl; tauto|]. rewrite IH. naive_solver.
Qed.

(** The capability has the name, in a version the requirement excludes. *)
Definition clashes (req : capability) (p : string) : bool :=
  match parseCapability p with
  | Ok prov => bool_decide (Name prov = Name req) && negb (Any req)
               && negb (bool_decide (Major prov = Major req))
  | Err _ => false
  end.

Lemma scan_conflict byID id raw req conflict l :
  (scan byID id raw req conflict l).1 = false →
  ((scan byID id raw req conflict l).2 = "" ↔ conflict = "" ∧ Forall (λ p, clashes req p = false) l).
Proof.
  revert conflict. induction l as [|p l IH]; intros conflict; simpl.
  { split; [by split|by intros [? _]]. }
  destruct (matches raw p); [done|]. intros Hs. rewrite (IH _ Hs), Forall_cons. unfold clashes at 2.
  destruct (parseCapability p) as [prov|]; [|naive_solver].
  destruct (_ && _); [|naive_solver].
  split; [|naive_solver]. intros [Hc _]. exfalso. apply (f_equal String.length) in Hc.
  rewrite !length_app_s in Hc. simpl in Hc. lia.
Qed.

(** The capability a requirement names, when it is met. *)
Definition requirement_met (platform : option (string → bool)) (candidate : Manifest)
    (byID : gmap string Manifest) (raw : string) : Prop :=
  ∃ req, parseCapability raw = Ok req ∧
    ((∃ p, platform = Some p ∧ p (Name req) = true) ∨
     ∃ p, p ∈ provided candidate byID ∧ matches raw p = true).

(** The requirement is refused because of the version. *)
Definition version_clash (candidate : Manifest) (byID : gmap string Manifest) (raw : string) : Prop :=
  ∃ req p, parseCapability raw = Ok req ∧ p ∈ provided candidate byID ∧ clashes req p = true.

Section Check.
Context (quote : string → string) (platform : option (string → bool)).
Context (order : nat → list string → list string) (order_perm : ∀ i l, order i l ≡ₚ l).

Let check := check_requirement quote platform order.

Lemma check_outcome candidate byID i raw :
  match check candidate byID i raw with
  | None => requirement_met platform candidate byID raw
  | Some (inl _) => ¬ requirement_met platform candidate byID raw ∧ ¬ version_clash candidate byID raw
  | Some (inr _) => ¬ requirement_met platform candidate byID raw ∧ version_clash candidate byID raw
  end.
Proof.
  unfold check, check_requirement, requirement_met, version_clash.
  destruct (parseCapability raw) as [req|e] eqn:Hp; [|naive_solver].
  destruct (match platform with Some p => p (Name req) | None => false end) eqn:Hplat.
  { exists req. split; [done|]. left. destruct platform as [p|]; [by exists p|done]. }
  set (l := order i _).
  assert (∀ p, p ∈ l ↔ p ∈ provided candidate byID) as Hl.
  { intros p. subst l. by rewrite order_perm, elem_of_elements. }
  pose proof (scan_true byID (ID candidate) raw req "" l) as Ht. rewrite Exists_exists in Ht.
  pose proof (scan_conflict byID (ID candidate) raw req "" l) as Hc. rewrite Forall_forall in Hc.
  destruct (scan _ _ _ _ _ l) as [ok conflict]. simpl in Ht, Hc. destruct ok.
  - exists req. split; [done|]. right. destruct Ht as [Ht _].
    destruct (Ht eq_refl) as (p&Hin&Hm). exists p. by rewrite <- Hl.
  - assert (¬ ∃ req0, Ok (E:=capability_error) req = Ok req0 ∧
      ((∃ p, platform = Some p ∧ p (Name req0) = true) ∨
       ∃ p, p ∈ provided candidate byID ∧ matches raw p = true)) as Hno.
    { intros (?&[= <-]&[(p&->&Hpt)|(p&Hin&Hm)]); [congruence|].
      destruct Ht as [_ Ht]. discriminate Ht. exists p. by rewrite Hl. }
    case_bool_decide as Hconf.
    + split; [done|]. apply Hc in Hconf as [_ Hf]; [|done].
      intros (?&p&[= <-]&Hin&Hcl). rewrite (Hf p) in Hcl; [done|]. by apply Hl.
    + split; [done|].
      destruct (decide (Forall (λ p, clashes req p = false) l)) as [Hf|Hf].
      { destruct Hconf. apply Hc; [done|]. split; [done|]. by apply Forall_forall. }
      apply not_Forall_Exists, Exists_exists in Hf as (p&Hin&Hcl); [|apply _].
      exists req, p. rewrite <- Hl. split_and!; [done..|]. by apply not_false_iff_true.
Qed.

Lemma issue_iff candidate byID x :
  x ∈ omap id (imap (check candidate byID) (Requires candidate)) ↔
  ∃ i raw, Requires candidate !! i = Some raw ∧ check candidate byID i raw = Some x.
Proof.
  rewrite list_elem_of_omap. setoid_rewrite list_elem_of_lookup.
  setoid_rewrite list_lookup_imap. split.
  - intros (y&[i Hi]&Hy). apply fmap_Some in Hi as (raw&Hi&->). by exists i, raw.
  - intros (i&raw&Hi&Hc). exists (Some x). split; [|done]. exists i. rewrite Hi. simpl. by rewrite Hc.
Qed.

(** A statement about the requirements, from one about the outcome of each. *)
Lemma over_requirements candidate byID (P : string + string → Prop) (Q : string → Prop) :
  (∀ i raw, (∀ x, check candidate byID i raw = Some x → P x) ↔ Q raw) →
  Forall P (omap id (imap (check candidate byID) (Requires candidate))) ↔
  Forall Q (Requires candidate).
Proof.
  intros H. rewrite !Forall_forall. setoid_rewrite issue_iff. setoid_rewrite list_elem_of_lookup. split.
  - intros HP raw [i Hi]. apply (H i). intros x Hx. apply HP. by exists i, raw.
  - intros HQ x (i&raw&Hi&Hx). eapply (H i raw); [|done]. apply HQ. by exists i.
Qed.

Lemma report_lists candidate installed :
  let w := byID candidate installed in
  let r := Graph_Validate quote platform order candidate installed in
  (Missing r = [] ↔ Forall (λ raw, requirement_met platform candidate w raw
     ∨ version_clash candidate w raw) (Requires candidate)) ∧
  (Conflicts r = [] ↔ Forall (λ raw, requirement_met platform candidate w raw
     ∨ ¬ version_clash candidate w raw) (Requires candidate)).
Proof.
  intros w r. subst r. cbn [Graph_Validate Missing Conflicts]. unfold lefts, rights.
  rewrite !omap_nil. fold w. split; apply over_requirements; intros i raw;
    pose proof (check_outcome candidate w i raw) as Hc.
  - destruct (check candidate w i raw) as [[s|s]|].
    + split; [by intros Hx; specialize (Hx _ eq_refl)|]. tauto.
    + split; [tauto|]. by intros _ x [= <-].
    + split; [tauto|done].
  - destruct (check candidate w i raw) as [[s|s]|].
    + split; [tauto|]. by intros _ x [= <-].
    + split; [by intros Hx; specialize (Hx _ eq_refl)|]. tauto.
    + split; [tauto|done].
Qed.

End Check.

Lemma Empty_iff r : Empty r = true ↔ (Missing r = [] ∧ Conflicts r = []) ∧ Cycles r = [].
Proof.
  unfold Empty. rewrite !andb_true_iff, !bool_decide_eq_true, !length_zero_iff_nil. done.
Qed.

(** A plugin that requires what it provides itself is on a cycle of its own. *)
Lemma self_requirement candidate installed name :
  TrimSpace (ID candidate) ≠ "" → name ∈ names (Requires candidate) →
  name ∈ names (Provides candidate) → ¬ acyclic (deps (byID candidate installed)).
Proof.
  intros Hid Hr Hp Hac. apply (Hac (ID candidate)), tc_once, edge_iff.
  assert (byID candidate installed !! ID candidate = Some candidate) as Hb.
  { unfold byID. rewrite bool_decide_false by done. apply lookup_insert_eq. }
  exists candidate, name. split_and!; [done..|]. by exists candidate.
Qed.

(** A candidate plugin is admitted exactly when each of its requirements is
    well formed and provided, in a version that satisfies it, by the platform
    or by another plugin, and the requirement graph of the plugins has no
    cycle. A requirement is reported as a conflict exactly when it is not met
    and another plugin offers the capability in a different version, and as
    missing when it is not met otherwise; every reported cycle is one. None of
    this depends on the order in which Go visits its maps. A plugin that
    requires a capability it provides itself is never admitted. *)
Theorem Validate_exact quote platform order candidate installed :
  (∀ i l, order i l ≡ₚ l) →
  let w := byID candidate installed in
  let r := Graph_Validate quote platform order candidate installed in
  let met := requirement_met platform candidate w in
  (Empty r = true ↔ Forall met (Requires candidate) ∧ acyclic (deps w)) ∧
  (Missing r = [] ↔ Forall (λ raw, met raw ∨ version_clash candidate w raw) (Requires candidate)) ∧
  (Conflicts r = [] ↔ Forall (λ raw, met raw ∨ ¬ version_clash candidate w raw) (Requires candidate)) ∧
  Forall (real_cycle (deps w)) (Cycles r) ∧
  (TrimSpace (ID candidate) ≠ "" → ∀ name, name ∈ names (Requires candidate) →
   name ∈ names (Provides candidate) → Empty r = false).
Proof.
  intros Hord w r met. destruct (report_lists quote platform order Hord candidate installed) as [Hm Hc].
  destruct (findCycles_exact w) as [Hreal Hcyc].
  assert (Empty r = true ↔ Forall met (Requires candidate) ∧ acyclic (deps w)) as He.
  { rewrite Empty_iff. subst r. rewrite Hm, Hc, <- Forall_and. fold w.
    rewrite <- Hcyc. apply Logic.and_iff_compat_r, Forall_iff. intros raw. fold met. tauto. }
  split_and!; try done. intros Hid name Hr Hp. apply not_true_iff_false. rewrite He.
  intros [_ Hac]. by eapply self_requirement.
Qed.

Lemma Validate_exact_witness :
  let log := mkManifest "log" "1" "org:x" [] ["godex:log@1"] in
  let app v := mkManifest "app" "1" "org:x" ["godex:log@" +:+ v] [] in
  Empty (Graph_Validate id None (λ _ l, l) (app "1") [log]) = true ∧
  Missing (Graph_Validate id None (λ _ l, l) (app "2") [log]) = [] ∧
  Empty (Graph_Validate id None (λ _ l, l)
    (mkManifest "self" "1" "org:x" ["a:b"] ["a:b@1"]) []) = false.
Proof.
  split_and!.
  - reflexivity.
  - refine (proj2 (proj1 (proj2 (Validate_exact id None (λ _ l, l) _ _ (λ _ _, reflexivity _)))) _).
    apply Forall_cons; split; [|constructor]. right. exists (mkCapability "godex:log" 2 false), "godex:log@1".
    split_and!; [reflexivity| |reflexivity].
    apply elem_of_provided_by. exists "log", (mkManifest "log" "1" "org:x" [] ["godex:log@1"]), "godex:log@1".
    split_and!; [reflexivity|discriminate|left|reflexivity].
  - refine (proj2 (proj2 (proj2 (proj2 (Validate_exact id None (λ _ l, l) _ _ (λ _ _, reflexivity _)))))
      _ "a:b" _ _); [discriminate|vm_compute; left|vm_compute; left].
Defined.
