(* ===== verification/PluginRegistry.v ===== *)
(** * The capability registry ([internal/pluginrt/registry.go])

    Which plugin provides which capability in which scope.  The registry is a
    map of maps of lists; the specification is a set of facts
    [(scope, capability, plugin)]. *)
From S2P Require Import Prelude GoStrings Scope PluginManifest.
From Stdlib Require Import Ascii ZArith Lia.

(** [byScope]: scope, then capability, then the provider ids. *)
Notation Registry := (gmap string (gmap string (list string))).

Definition NewRegistry : Registry := ∅.

Definition Record_ (scopeID capability pluginID : string) (r : Registry) : Registry :=
  let capabilities := default ∅ (r !! scopeID) in
  let existing := default [] (capabilities !! capability) in
  if bool_decide (pluginID ∈ existing) then <[scopeID := capabilities]> r
  else <[scopeID := <[capability := existing ++ [pluginID]]> capabilities]> r.

(** What is left of a provider list; an empty one is removed. *)
Definition keep (pluginID : string) (providers : list string) : option (list string) :=
  match filter (λ existing, existing ≠ pluginID) providers with
  | [] => None
  | kept => Some kept
  end.

Definition Revoke (scopeID capability pluginID : string) (r : Registry) : Registry :=
  match r !! scopeID with
  | None => r
  | Some capabilities =>
      <[scopeID := match keep pluginID (default [] (capabilities !! capability)) with
                   | None => delete capability capabilities
                   | Some kept => <[capability := kept]> capabilities
                   end]> r
  end.

Definition RevokeAll (scopeID pluginID : string) (r : Registry) : Registry :=
  match r !! scopeID with
  | None => r
  | Some capabilities => <[scopeID := omap (keep pluginID) capabilities]> r
  end.

Definition recorded (scopeID capability : string) (r : Registry) : list string :=
  default [] (r !! scopeID ≫= λ capabilities, capabilities !! capability).

Definition Providers (scopeID capability : string) (r : Registry) : list string :=
  SortStrings (recorded scopeID capability r).

Definition Provided (scopeID capability : string) (r : Registry) : bool :=
  bool_decide (0 < length (Providers scopeID capability r)).

Definition Capabilities (scopeID : string) (r : Registry) : list string :=
  SortStrings (map_to_list (default ∅ (r !! scopeID))).*1.

(** [order] is the order in which the loop visits the map. *)
Definition MatchCapability (order : list string → list string) (scopeID requirement : string)
    (r : Registry) : string :=
  match parseCapability requirement with
  | Err _ => ""
  | Ok req =>
      default "" (find_first (λ capability, matches requirement capability
          || bool_decide (TrimSpace capability = Name req))
        (order (map_to_list (default ∅ (r !! scopeID))).*1))
  end.

(** * The specification *)

Notation facts := (gset (string * string * string)).

Definition spec_record (s c p : string) (f : facts) : facts := {[ (s, c, p) ]} ∪ f.
Definition spec_revoke (s c p : string) (f : facts) : facts := f ∖ {[ (s, c, p) ]}.
Definition spec_revoke_all (s p : string) (f : facts) : facts :=
  filter (λ x, ¬ (x.1.1 = s ∧ x.2 = p)) f.

(** A registry stands for a set of facts. *)
Definition represents (r : Registry) (f : facts) : Prop :=
  ∀ s c p, p ∈ recorded s c r ↔ (s, c, p) ∈ f.

(** Every capability listed has a provider, and no provider twice. *)
Definition wf (r : Registry) : Prop :=
  ∀ s caps c ps, r !! s = Some caps → caps !! c = Some ps → ps ≠ [] ∧ NoDup ps.

(** The operations that change the registry. *)
Inductive op : Type :=
| OpRecord (scopeID capability pluginID : string)
| OpRevoke (scopeID capability pluginID : string)
| OpRevokeAll (scopeID pluginID : string).

Definition apply_op (o : op) : Registry → Registry :=
  match o with
  | OpRecord s c p => Record_ s c p
  | OpRevoke s c p => Revoke s c p
  | OpRevokeAll s p => RevokeAll s p
  end.

Definition spec_op (o : op) : facts → facts :=
  match o with
  | OpRecord s c p => spec_record s c p
  | OpRevoke s c p => spec_revoke s c p
  | OpRevokeAll s p => spec_revoke_all s p
  end.

(** * Lemmas *)

Lemma keep_elem pluginID ps p : p ∈ default [] (keep pluginID ps) ↔ p ∈ ps ∧ p ≠ pluginID.
Proof.
  unfold keep. transitivity (p ∈ filter (λ existing, existing ≠ pluginID) ps).
  - by destruct (filter _ ps).
  - rewrite list_elem_of_filter. tauto.
Qed.

Lemma keep_wf pluginID ps kept : keep pluginID ps = Some kept → NoDup ps → kept ≠ [] ∧ NoDup kept.
Proof.
  unfold keep. intros Hk Hnd. apply (NoDup_filter (λ existing, existing ≠ pluginID)) in Hnd.
  destruct (filter _ ps); [done|]. injection Hk as <-. done.
Qed.

Lemma recorded_insert s s' c caps (r : Registry) :
  recorded s c (<[s' := caps]> r) =
    if decide (s = s') then default [] (caps !! c) else recorded s c r.
Proof.
  unfold recorded. case_decide as H; [subst; by rewrite lookup_insert_eq|].
  by rewrite lookup_insert_ne.
Qed.

Lemma recorded_default s c (r : Registry) :
  recorded s c r = default [] (default ∅ (r !! s) !! c).
Proof. unfold recorded. by destruct (r !! s). Qed.

Lemma Record_recorded s c p s' c' p' r :
  p' ∈ recorded s' c' (Record_ s c p r) ↔ (s' = s ∧ c' = c ∧ p' = p) ∨ p' ∈ recorded s' c' r.
Proof.
  unfold Record_. rewrite <- recorded_default. case_bool_decide as Hin;
    rewrite recorded_insert; case_decide as Hs; subst; try naive_solver.
  - rewrite <- recorded_default. naive_solver.
  - destruct (decide (c' = c)) as [->|Hc].
    + rewrite lookup_insert_eq. simpl. rewrite elem_of_app, list_elem_of_singleton. naive_solver.
    + rewrite lookup_insert_ne by done. rewrite <- recorded_default. naive_solver.
Qed.

Lemma Revoke_recorded s c p s' c' p' r :
  p' ∈ recorded s' c' (Revoke s c p r) ↔ p' ∈ recorded s' c' r ∧ ¬ (s' = s ∧ c' = c ∧ p' = p).
Proof.
  unfold Revoke. destruct (r !! s) as [caps|] eqn:Hr.
  - rewrite recorded_insert. case_decide as Hs; [subst|naive_solver].
    pose proof (keep_elem p (default [] (caps !! c)) p') as Hk.
    assert (recorded s c' r = default [] (caps !! c')) as -> by (unfold recorded; by rewrite Hr).
    destruct (decide (c' = c)) as [->|Hc].
    + transitivity (p' ∈ default [] (keep p (default [] (caps !! c)))); [|rewrite Hk; naive_solver].
      destruct (keep _ _); [by rewrite lookup_insert_eq|by rewrite lookup_delete_eq].
    + transitivity (p' ∈ default [] (caps !! c')); [|naive_solver].
      destruct (keep _ _); [by rewrite lookup_insert_ne|by rewrite lookup_delete_ne].
  - split; [|naive_solver]. intros H. split; [done|]. intros (->&_&_). unfold recorded in H.
    rewrite Hr in H. simpl in H. by apply not_elem_of_nil in H.
Qed.

Lemma RevokeAll_recorded s p s' c' p' r :
  p' ∈ recorded s' c' (RevokeAll s p r) ↔ p' ∈ recorded s' c' r ∧ ¬ (s' = s ∧ p' = p).
Proof.
  unfold RevokeAll. destruct (r !! s) as [caps|] eqn:Hr.
  - rewrite recorded_insert. case_decide as Hs; [subst|naive_solver].
    assert (recorded s c' r = default [] (caps !! c')) as -> by (unfold recorded; by rewrite Hr).
    rewrite lookup_omap. destruct (caps !! c') as [ps|]; simpl.
    + rewrite keep_elem. naive_solver.
    + rewrite elem_of_nil. naive_solver.
  - split; [|naive_solver]. intros H. split; [done|]. intros (->&_). unfold recorded in H.
    rewrite Hr in H. simpl in H. by apply not_elem_of_nil in H.
Qed.

Lemma wf_insert_scope r s caps :
  wf r → (∀ c ps, caps !! c = Some ps → ps ≠ [] ∧ NoDup ps) → wf (<[s := caps]> r).
Proof.
  intros Hwf Hc s' caps' c ps. rewrite lookup_insert. case_decide; [|apply Hwf].
  intros [= <-]. apply Hc.
Qed.

Lemma wf_recorded r s c : wf r → NoDup (recorded s c r).
Proof.
  intros Hwf. unfold recorded. destruct (r !! s) as [caps|] eqn:Hs; [|constructor]. simpl.
  destruct (caps !! c) as [ps|] eqn:Hc; [|constructor]. by apply (Hwf s caps c ps).
Qed.

Lemma apply_op_wf o r : wf r → wf (apply_op o r).
Proof.
  intros Hwf. destruct o as [s c p|s c p|s p]; simpl.
  - unfold Record_. pose proof (wf_recorded r s c Hwf) as Hnd. rewrite recorded_default in Hnd.
    assert (∀ c ps, default ∅ (r !! s) !! c = Some ps → ps ≠ [] ∧ NoDup ps) as Hold.
    { intros c' ps. destruct (r !! s) as [caps|] eqn:Hs; [by apply (Hwf s caps)|].
      simpl. by rewrite lookup_empty. }
    case_bool_decide as Hin; apply wf_insert_scope; try done. intros c' ps.
    rewrite lookup_insert. case_decide; [|by apply Hold]. intros [= <-]. split.
    + by destruct (default [] _).
    + apply NoDup_app. split_and!; [done| |apply NoDup_singleton].
      by intros x Hx ->%list_elem_of_singleton.
  - unfold Revoke. destruct (r !! s) as [caps|] eqn:Hs; [|done]. apply wf_insert_scope; [done|].
    intros c' ps. destruct (keep _ _) as [kept|] eqn:Hk.
    + rewrite lookup_insert. case_decide; [|by apply (Hwf s caps)]. intros [= <-].
      apply (keep_wf _ _ _ Hk). pose proof (wf_recorded r s c Hwf) as Hnd.
      unfold recorded in Hnd. by rewrite Hs in Hnd.
    + rewrite lookup_delete. case_decide; [done|]. by apply (Hwf s caps).
  - unfold RevokeAll. destruct (r !! s) as [caps|] eqn:Hs; [|done]. apply wf_insert_scope; [done|].
    intros c' ps. rewrite lookup_omap. intros (ps'&Hc&Hk)%bind_Some.
    apply (keep_wf _ _ _ Hk). by apply (Hwf s caps c' ps').
Qed.

Lemma apply_op_represents o r f : represents r f → represents (apply_op o r) (spec_op o f).
Proof.
  intros Hrep s c p. specialize (Hrep s c p). destruct o as [s0 c0 p0|s0 c0 p0|s0 p0]; simpl.
  - rewrite Record_recorded, Hrep. unfold spec_record. rewrite elem_of_union, elem_of_singleton.
    naive_solver.
  - rewrite Revoke_recorded, Hrep. unfold spec_revoke. rewrite elem_of_difference, elem_of_singleton.
    naive_solver.
  - rewrite RevokeAll_recorded, Hrep. unfold spec_revoke_all. rewrite elem_of_filter. simpl. tauto.
Qed.

Lemma NewRegistry_ok : wf NewRegistry ∧ represents NewRegistry ∅.
Proof.
  split.
  - intros s caps c ps. unfold NewRegistry. by rewrite lookup_empty.
  - intros s c p. unfold recorded, NewRegistry. rewrite lookup_empty. simpl.
    rewrite elem_of_nil, elem_of_empty. done.
Qed.

Lemma ops_ok ops r f :
  wf r → represents r f →
  let r' := fold_left (λ r o, apply_op o r) ops r in
  wf r' ∧ represents r' (fold_left (λ f o, spec_op o f) ops f).
Proof.
  revert r f. induction ops as [|o ops IH]; intros r f Hwf Hrep; [done|].
  apply IH; [by apply apply_op_wf|by apply apply_op_represents].
Qed.

Lemma elem_of_Capabilities s c r : wf r → c ∈ Capabilities s r ↔ recorded s c r ≠ [].
Proof.
  intros Hwf. unfold Capabilities, recorded. rewrite SortStrings_perm, list_elem_of_fmap.
  destruct (r !! s) as [caps|] eqn:Hs; simpl.
  - split.
    + intros ([k ps]&->&Hin%elem_of_map_to_list). simpl. rewrite Hin. by apply (Hwf s caps k ps).
    + intros Hne. destruct (caps !! c) as [ps|] eqn:Hc; [|done]. exists (c, ps).
      by rewrite elem_of_map_to_list.
  - rewrite map_to_list_empty. split; [|done]. by intros (?&_&?%not_elem_of_nil).
Qed.

Lemma Records_recorded s cs p s' c' p' r :
  p' ∈ recorded s' c' (fold_left (λ r c, Record_ s c p r) cs r) ↔
  (s' = s ∧ p' = p ∧ c' ∈ cs) ∨ p' ∈ recorded s' c' r.
Proof.
  revert r. induction cs as [|c cs IH]; intros r; simpl.
  - rewrite elem_of_nil. tauto.
  - rewrite IH, Record_recorded, elem_of_cons. tauto.
Qed.

Lemma Records_wf s cs p r : wf r → wf (fold_left (λ r c, Record_ s c p r) cs r).
Proof.
  revert r. induction cs as [|c cs IH]; intros r Hr; simpl; [done|].
  apply IH. by apply (apply_op_wf (OpRecord s c p)).
Qed.

(** The registry implements a set of facts [(scope, capability, plugin)]:
    after any sequence of records, revocations and revocations of a whole
    plugin, the plugins listed for a capability in a scope are exactly those of
    the set, sorted and without repetition; a capability is listed in a scope
    exactly when it has a provider there; and revoking a plugin in one scope
    leaves every other scope and plugin as it was. *)
Theorem registry_refines ops :
  let r := fold_left (λ r o, apply_op o r) ops NewRegistry in
  let f := fold_left (λ f o, spec_op o f) ops ∅ in
  (∀ s c, StronglySorted String.le (Providers s c r) ∧ NoDup (Providers s c r) ∧
     ∀ p, p ∈ Providers s c r ↔ (s, c, p) ∈ f) ∧
  (∀ s c, Provided s c r = true ↔ ∃ p, (s, c, p) ∈ f) ∧
  (∀ s, StronglySorted String.le (Capabilities s r) ∧
     ∀ c, c ∈ Capabilities s r ↔ ∃ p, (s, c, p) ∈ f).
Proof.
  intros r f. destruct NewRegistry_ok as [Hwf0 Hrep0].
  destruct (ops_ok ops NewRegistry ∅ Hwf0 Hrep0) as [Hwf Hrep]. fold r in Hwf, Hrep. fold f in Hrep.
  assert (∀ s c, recorded s c r ≠ [] ↔ ∃ p, (s, c, p) ∈ f) as Hne.
  { intros s c. pose proof (λ p, Hrep s c p) as Hsc. destruct (recorded s c r) as [|p ps].
    - split; [done|]. intros [p Hp%Hsc]. by apply not_elem_of_nil in Hp.
    - split; [|done]. intros _. exists p. apply Hsc. by left. }
  split_and!.
  - intros s c. unfold Providers. split_and!; [apply SortStrings_sorted| |].
    + rewrite SortStrings_perm. by apply wf_recorded.
    + intros p. by rewrite SortStrings_perm.
  - intros s c. rewrite <- Hne. unfold Provided, Providers.
    rewrite bool_decide_eq_true. rewrite (Permutation_length (SortStrings_perm (recorded s c r))).
    destruct (recorded s c r); simpl; [split; [lia|done]|]. split; [done|lia].
  - intros s. split; [apply SortStrings_sorted|]. intros c. by rewrite elem_of_Capabilities.
Qed.

(** Looking a requirement up returns the empty string exactly when nothing
    recorded in the scope will do, and otherwise a recorded capability that
    does: one that matches the requirement, or one recorded under the bare
    name of the requirement, whatever version is required. *)
Theorem MatchCapability_spec order scopeID requirement r req :
  (∀ l, order l ≡ₚ l) → wf r → parseCapability requirement = Ok req →
  let fits c := matches requirement c = true ∨ TrimSpace c = Name req in
  let found := MatchCapability order scopeID requirement r in
  (∀ c, recorded scopeID c r ≠ [] → fits c → fits found ∧ recorded scopeID found r ≠ []) ∧
  ((∀ c, recorded scopeID c r ≠ [] → ¬ fits c) → found = "").
Proof.
  intros Hord Hwf Hp fits found. subst found. unfold MatchCapability. rewrite Hp.
  set (l := order (map_to_list (default ∅ (r !! scopeID))).*1).
  assert (∀ c, c ∈ l ↔ recorded scopeID c r ≠ []) as Hl.
  { intros c. rewrite <- elem_of_Capabilities by done. unfold Capabilities.
    rewrite SortStrings_perm. subst l. by rewrite Hord. }
  assert (∀ c, matches requirement c || bool_decide (TrimSpace c = Name req) = true ↔ fits c) as Hf.
  { intros c. by rewrite orb_true_iff, bool_decide_eq_true. }
  destruct (find_first _ l) as [c0|] eqn:Hff; simpl.
  - apply find_first_Some in Hff as [Hin Hfit]. apply Hf in Hfit. apply Hl in Hin. split; [done|].
    intros Hno. by destruct (Hno c0).
  - apply find_first_None in Hff. rewrite Forall_forall in Hff. split; [|done].
    intros c Hc Hfit. apply Hl in Hc. apply Hf in Hfit. specialize (Hff c Hc). congruence.
Qed.

Lemma MatchCapability_spec_witness :
  let r := Record_ "org:x" "a:b" "p" NewRegistry in
  matches "a:b@2" "a:b" = false ∧
  (matches "a:b@2" (MatchCapability id "org:x" "a:b@2" r) = true
   ∨ TrimSpace (MatchCapability id "org:x" "a:b@2" r) = "a:b").
Proof.
  intros r. split; [reflexivity|].
  refine (proj1 (proj1 (MatchCapability_spec id "org:x" "a:b@2" r (mkCapability "a:b" 2 false)
    (λ _, reflexivity _) _ _) "a:b" _ _)).
  - apply (apply_op_wf (OpRecord "org:x" "a:b" "p")), NewRegistry_ok.
  - reflexivity.
  - vm_compute. discriminate.
  - right. reflexivity.
Defined.
