(* ===== verification/PluginHost.v ===== *)
(** * Plugin instances and their host ([internal/pluginrt/instance.go],
      [effects.go], [routes.go], [schedule.go], [services.go])

    The kernel state, what a plugin can do through its host, the ledger of
    reversible effects, and starting and stopping an instance.  The code of a
    plugin, the cron library and the root [http.ServeMux] are interfaces. *)
From S2P Require Import Prelude GoStrings Scope PluginManifest PluginGraph PluginRegistry.
From Stdlib Require Import Ascii ZArith Lia.

(** ** Interfaces *)

(** Plugin code: the part [X] of the world it works on, its effects with their
    disposers, its callbacks and the muxes it fills.  [None] is a nil disposer
    or a nil error. *)
Class PluginCode : Type := {
  X : Type;
  Eff : Type;
  Disp : Type;
  Fn : Type;
  Mux : Type;
  Config : Type;
  run_effect : Eff → X → X * result string (option Disp);
  run_disposer : Disp → X → X * option string;
}.

(** [robfig/cron]: the table of scheduled jobs, and what its documentation says
    of [AddFunc] and [Remove]. *)
Class CronLib {P : PluginCode} : Type := {
  Cron : Type;
  cron_new : Cron;
  ParseStandard : string → option string;
  AddFunc : string → Fn → Cron → Cron * result string nat;
  Remove : nat → Cron → Cron;
  entries : Cron → gmap nat Fn;
}.

Class CronLaws `{CronLib} : Prop := {
  cron_new_entries : entries cron_new = ∅;
  AddFunc_ok : ∀ expr fn c c' i, AddFunc expr fn c = (c', Ok i) →
    entries c !! i = None ∧ entries c' = <[i := fn]> (entries c);
  AddFunc_err : ∀ expr fn c c' e, AddFunc expr fn c = (c', Err e) → entries c' = entries c;
  Remove_entries : ∀ i c, entries (Remove i c) = delete i (entries c);
}.

(** The root [http.ServeMux]: [Handle] panics ([None]) on a pattern that is
    already registered. *)
Class RootMux : Type := {
  Root : Type;
  Handle : string → Root → option Root;
  patterns : Root → gset string;
}.

Class RootMuxLaws `{RootMux} : Prop := {
  Handle_patterns : ∀ p r r', Handle p r = Some r' → patterns r' = {[ p ]} ∪ patterns r;
  Handle_twice : ∀ p r, p ∈ patterns r → Handle p r = None;
}.

(** ** Data *)

Record ScheduleSpec : Type := mkSpec { CronExpr : string; Every : Z }.

Inductive error : Type :=
| ErrRoutePrefix (pluginID prefix : string)
| ErrRouteCallback (pluginID : string)
| ErrRouteOwned (pluginID prefix owner : string)
| ErrScheduleName (pluginID : string)
| ErrScheduleChoice (pluginID name : string)
| ErrScheduleCron (pluginID name : string) (cause : string)
| ErrScheduleCallback (pluginID name : string)
| ErrScheduleAdd (pluginID name : string) (cause : string)
| ErrPlugin (cause : string)
| ErrLedgerReverted
| ErrStart (pluginID : string) (cause : error)
| ErrInvalidManifest (cause : manifest_error)
| ErrDependencies (pluginID text : string)
| ErrStale (pluginID : string).

(** How a call ends when it does not return a value. *)
Inductive failure : Type := Error (e : error) | Panic.

Section Host.
Context {P : PluginCode} {C : CronLib} {R : RootMux}.

Record Services : Type := mkServices {
  WorkspaceDir : string;
  StateDir : string;
  TempDir : string;
  Config_ : Config;
}.

(** What [NativePlugin.Start] does, step by step: it works on its own part of
    the world and calls its host, which answers with an error or nil. *)
Inductive script : Type :=
| Done (err : option string)
| Outside (f : X → X) (k : X → script)
| RegisterEffect (effect : option Eff) (k : script)
| Provide (capabilityName : string) (k : script)
| RegisterRoutes (prefix : string) (register : option Mux) (k : option error → script)
| UseServices (k : Services → script)
| RegisterSchedule (name : string) (spec : ScheduleSpec) (fn : option Fn)
    (k : option error → script).

(** A plugin that implements [PromptSections] as well has [Some] function. *)
Record NativePlugin : Type := mkPlugin {
  plugin_Manifest : Manifest;
  plugin_Start : script;
  plugin_Stop : X → X;
  plugin_PromptSections : option (X → list (string * string * string));
}.

(** The closures that the ledger records: a plugin's own, and those that
    [RegisterRoutes] and [RegisterSchedule] add. *)
Inductive Effect : Type :=
| PluginEffect (e : Eff)
| RoutesEffect (pluginID prefix : string)
| ScheduleEffect (pluginID : string).

Inductive Disposer : Type :=
| PluginDisposer (d : Disp)
| RoutesDisposer (pluginID prefix : string)
| ScheduleDisposer (pluginID : string).

Record Ledger : Type := mkLedger {
  effects : list Effect;
  active : list Disposer;
  reverted : bool;
}.
Definition NewLedger : Ledger := mkLedger [] [] false.

(** [manager] tells whether the pointer to the kernel is set. *)
Record Instance : Type := mkInstance {
  manifest : Manifest;
  plugin : NativePlugin;
  state : State;
  generation : Z;
  ledger : Ledger;
  started : bool;
  manager : bool;
}.

Record pluginRoute : Type := mkRoute { pluginID : string; mux : Mux }.

Record Transaction : Type := mkTx {
  candidate : NativePlugin;
  tx_manifest : Manifest;
  prior : option nat;
  done : bool;
}.

(** The kernel: the [Manager], the instances that were ever allocated and the
    prepared transactions, both by address, and the world of the plugins. *)
Record kernel : Type := mkKernel {
  world : X;
  registry : Registry;
  instances : gmap string nat;
  nextGen : Z;
  services : Services;
  routes : gmap string pluginRoute;
  routeRoot : option Root;
  schedCron : option Cron;
  schedEntries : gmap string (gmap string nat);
  heap : list Instance;
  transactions : list Transaction;
}.

Definition eta_kernel (k : kernel) : kernel :=
  mkKernel (world k) (registry k) (instances k) (nextGen k) (services k) (routes k) (routeRoot k)
    (schedCron k) (schedEntries k) (heap k) (transactions k).
Definition set_world (v : X) (k : kernel) : kernel := ltac:(with_field eta_kernel world k v).
Definition set_registry v (k : kernel) : kernel := ltac:(with_field eta_kernel registry k v).
Definition set_instances v (k : kernel) : kernel := ltac:(with_field eta_kernel instances k v).
Definition set_nextGen v (k : kernel) : kernel := ltac:(with_field eta_kernel nextGen k v).
Definition set_routes v (k : kernel) : kernel := ltac:(with_field eta_kernel routes k v).
Definition set_routeRoot v (k : kernel) : kernel := ltac:(with_field eta_kernel routeRoot k v).
Definition set_schedCron v (k : kernel) : kernel := ltac:(with_field eta_kernel schedCron k v).
Definition set_schedEntries v (k : kernel) : kernel := ltac:(with_field eta_kernel schedEntries k v).
Definition set_heap v (k : kernel) : kernel := ltac:(with_field eta_kernel heap k v).
Definition set_transactions v (k : kernel) : kernel := ltac:(with_field eta_kernel transactions k v).

Definition eta_instance (i : Instance) : Instance :=
  mkInstance (manifest i) (plugin i) (state i) (generation i) (ledger i) (started i) (manager i).
Definition set_state v (i : Instance) : Instance := ltac:(with_field eta_instance state i v).
Definition set_ledger v (i : Instance) : Instance := ltac:(with_field eta_instance ledger i v).
Definition set_started v (i : Instance) : Instance := ltac:(with_field eta_instance started i v).

#[local] Notation K := (M kernel failure).

(** ** Routes *)

Definition slash : ascii := "/"%char.

(** [strings.TrimRight(s, "/")] *)
Definition TrimRight (s : string) : string := String.rev (drop_byte slash (String.rev s)).

Definition mountRouteLocked (prefix : string) (root : Root) : option Root :=
  root ← Handle prefix root; Handle (prefix +:+ "/") root.

(** [registerPluginRoutes] on a manager pointer that is nil unless [mgr]. *)
Definition registerPluginRoutes (mgr : bool) (id prefix : string) (register : option Mux) : K unit :=
  let prefix := TrimRight (TrimSpace prefix) in
  if negb (HasPrefix prefix "/") || bool_decide (prefix = "/")
  then throw (Error (ErrRoutePrefix id prefix)) else
  match register with
  | None => throw (Error (ErrRouteCallback id))
  | Some sub =>
      if negb mgr then throw Panic else
      rs ← gets routes;
      match rs !! prefix with
      | Some existing =>
          if bool_decide (pluginID existing ≠ id)
          then throw (Error (ErrRouteOwned id prefix (pluginID existing)))
          else mret tt
      | None => mret tt
      end ;;
      update (set_routes (<[prefix := mkRoute id sub]> rs)) ;;
      root ← gets routeRoot;
      match root with
      | None => mret tt
      | Some root =>
          match mountRouteLocked prefix root with
          | None => throw Panic
          | Some root => update (set_routeRoot (Some root))
          end
      end
  end.

Definition removePluginRoutes (id prefix : string) (k : kernel) : kernel :=
  match routes k !! prefix with
  | Some route => if bool_decide (pluginID route ≠ id) then k
                  else set_routes (delete prefix (routes k)) k
  | None => k
  end.

(** [dispatcher.ServeHTTP]: the mux that serves a request below the prefix,
    [None] for a 404. *)
Definition ServeHTTP (prefix : string) (k : kernel) : option Mux := mux <$> routes k !! prefix.

Definition RoutePrefixes (k : kernel) : list string := SortStrings (map_to_list (routes k)).*1.

(** ** Schedules *)

Definition Milliseconds (d : Z) : Z := Z.quot d 1000000.

Definition validate (id name : string) (s : ScheduleSpec) : option error :=
  let hasCron := negb (bool_decide (TrimSpace (CronExpr s) = "")) in
  let hasEvery := bool_decide (0 < Every s)%Z in
  if Bool.eqb hasCron hasEvery then Some (ErrScheduleChoice id name)
  else if hasCron then ErrScheduleCron id name <$> ParseStandard (TrimSpace (CronExpr s))
  else None.

Definition expression (s : ScheduleSpec) : string :=
  if bool_decide (TrimSpace (CronExpr s) = "")
  then "@every " +:+ itoa (Milliseconds (Every s)) +:+ "ms"
  else TrimSpace (CronExpr s).

Definition scheduleCron : K Cron :=
  c ← gets schedCron;
  match c with
  | Some c => mret c
  | None => update (set_schedCron (Some cron_new)) ;; mret cron_new
  end.

Definition registerSchedule (mgr : bool) (id name : string) (spec : ScheduleSpec)
    (fn : option Fn) : K unit :=
  let name := TrimSpace name in
  if bool_decide (name = "") then throw (Error (ErrScheduleName id)) else
  match validate id name spec with
  | Some e => throw (Error e)
  | None =>
      match fn with
      | None => throw (Error (ErrScheduleCallback id name))
      | Some fn =>
          if negb mgr then throw Panic else
          c ← scheduleCron;
          let '(c, r) := AddFunc (expression spec) fn c in
          update (set_schedCron (Some c)) ;;
          match r with
          | Err e => throw (Error (ErrScheduleAdd id name e))
          | Ok entryID =>
              update (λ k, set_schedEntries (<[id := <[name := entryID]>
                (default ∅ (schedEntries k !! id))]> (schedEntries k)) k)
          end
      end
  end.

Definition removeSchedules (id : string) (k : kernel) : kernel :=
  let es := default ∅ (schedEntries k !! id) in
  let k := set_schedEntries (delete id (schedEntries k)) k in
  match schedCron k with
  | None => k
  | Some c => set_schedCron (Some (fold_right Remove c (map_to_list es).*2)) k
  end.

(** ** The effect ledger *)

Definition run_Effect (e : Effect) (k : kernel) : kernel * result string (option Disposer) :=
  match e with
  | PluginEffect e =>
      let '(w, r) := run_effect e (world k) in
      (set_world w k, match r with Ok d => Ok (PluginDisposer <$> d) | Err e => Err e end)
  | RoutesEffect id prefix => (k, Ok (Some (RoutesDisposer id prefix)))
  | ScheduleEffect id => (k, Ok (Some (ScheduleDisposer id)))
  end.

Definition run_Disposer (d : Disposer) (k : kernel) : kernel * option string :=
  match d with
  | PluginDisposer d => let '(w, e) := run_disposer d (world k) in (set_world w k, e)
  | RoutesDisposer id prefix => (removePluginRoutes id prefix k, None)
  | ScheduleDisposer id => (removeSchedules id k, None)
  end.

(** The loop of [revertLocked], on the reversed list of active disposers. *)
Fixpoint revert_loop (ds : list Disposer) (firstErr : option string) (k : kernel) :
    kernel * option string :=
  match ds with
  | [] => (k, firstErr)
  | d :: ds =>
      let '(k, err) := run_Disposer d k in
      revert_loop ds (match firstErr with Some e => Some e | None => err end) k
  end.

Definition revertLocked (l : Ledger) (k : kernel) : kernel * Ledger * option string :=
  let '(k, e) := revert_loop (reverse (active l)) None k in
  (k, mkLedger (effects l) [] true, e).

Definition Revert (l : Ledger) (k : kernel) : kernel * Ledger * option string :=
  if reverted l then (k, l, None) else revertLocked l k.

Definition Add (e : Effect) (l : Ledger) : Ledger :=
  mkLedger (effects l ++ [e]) (active l) (reverted l).

(** The loop of [Ledger.Run] over the effects that are left. *)
Fixpoint run_loop (es : list Effect) (l : Ledger) (k : kernel) : kernel * Ledger * option string :=
  match es with
  | [] => (k, l, None)
  | e :: es =>
      match run_Effect e k with
      | (k, Err err) => let '(k, l, _) := revertLocked l k in (k, l, Some err)
      | (k, Ok None) => run_loop es l k
      | (k, Ok (Some d)) => run_loop es (mkLedger (effects l) (active l ++ [d]) (reverted l)) k
      end
  end.

Definition Run (l : Ledger) (k : kernel) : kernel * Ledger * option error :=
  if reverted l then (k, l, Some ErrLedgerReverted)
  else let '(k, l, e) := run_loop (effects l) l k in (k, l, ErrPlugin <$> e).

(** ** Instances *)

Definition modify_instance (ptr : nat) (f : Instance → Instance) (k : kernel) : kernel :=
  set_heap (alter f ptr (heap k)) k.

(** [ledger.Add] through the instance. *)
Definition add_effect (ptr : nat) (e : Effect) : K unit :=
  update (modify_instance ptr (λ i, set_ledger (Add e (ledger i)) i)).

(** A host call that answers with an error; a panic goes through. *)
Definition answer {A} (m : K unit) (k : option error → K A) : K A := λ s,
  match m s with
  | (s, Ok _) => k None s
  | (s, Err (Error e)) => k (Some e) s
  | (s, Err Panic) => (s, Err Panic)
  end.

(** [plugin.Start(ctx, host)] for the instance at [ptr], whose id and manager
    pointer the host closes over. *)
Fixpoint run_script (mgr : bool) (id : string) (ptr : nat) (p : script) : K unit :=
  match p with
  | Done None => mret tt
  | Done (Some e) => throw (Error (ErrPlugin e))
  | Outside f k =>
      x ← gets world; update (set_world (f x)) ;; run_script mgr id ptr (k x)
  | RegisterEffect None k => run_script mgr id ptr k
  | RegisterEffect (Some e) k =>
      add_effect ptr (PluginEffect e) ;; run_script mgr id ptr k
  | Provide _ k => run_script mgr id ptr k
  | RegisterRoutes prefix register k =>
      answer (registerPluginRoutes mgr id prefix register ;;
              add_effect ptr (RoutesEffect id prefix))
        (λ e, run_script mgr id ptr (k e))
  | UseServices k =>
      if negb mgr then throw Panic else s ← gets services; run_script mgr id ptr (k s)
  | RegisterSchedule name spec fn k =>
      answer (registerSchedule mgr id name spec fn ;; add_effect ptr (ScheduleEffect id))
        (λ e, run_script mgr id ptr (k e))
  end.

Definition set_state_at (ptr : nat) (s : State) : K unit := update (modify_instance ptr (set_state s)).

(** [ledger.Run] on the ledger of the instance. *)
Definition run_ledger (ptr : nat) (i : Instance) : K unit := λ k,
  let '(k, l, e) := Run (ledger i) k in
  (modify_instance ptr (set_ledger l) k,
   match e with None => Ok tt | Some e => Err (Error e) end).

(** An error sets the state to failed and is returned. *)
Definition or_failed (ptr : nat) (m : K unit) : K unit := λ s,
  match m s with
  | (s, Err (Error e)) => (set_state_at ptr StateFailed ;; throw (Error e)) s
  | r => r
  end.

(** [Instance.Start] *)
Definition Start (ptr : nat) : K unit :=
  k ← gets id;
  match heap k !! ptr with
  | None => throw Panic
  | Some i =>
      if started i then mret tt else
      set_state_at ptr StateLoading ;;
      or_failed ptr (run_script (manager i) (ID (manifest i)) ptr (plugin_Start (plugin i))) ;;
      or_failed ptr (k ← gets id;
        match heap k !! ptr with None => throw Panic | Some i => run_ledger ptr i end) ;;
      update (modify_instance ptr (λ i, set_state StateActive (set_started true i)))
  end.

(** [ledger.Revert] on the ledger of the instance, and what [Stop] stores then. *)
Definition revert_ledger (ptr : nat) (i : Instance) : K (option string) := λ k,
  let '(k, l, e) := Revert (ledger i) k in
  (modify_instance ptr (λ i, set_state StateDisposed (set_started false (set_ledger l i))) k, Ok e).

(** [Instance.Stop]; the result is the first error of a disposer. *)
Definition Stop (ptr : nat) : K (option string) :=
  k ← gets id;
  match heap k !! ptr with
  | None => throw Panic
  | Some i =>
      if negb (started i) then mret None else
      set_state_at ptr StateUnloading ;;
      update (λ k, set_world (plugin_Stop (plugin i) (world k)) k) ;;
      revert_ledger ptr i
  end.

End Host.

Notation K := (M kernel failure).
