(* ===== verification/PluginManager.v ===== *)
(** * The plugin kernel ([internal/pluginrt/manager.go])

    Activation, deactivation and transactional reload of plugins, and the
    invariant that ties the table of instances, the instances themselves and
    the capability registry together. *)
From S2P Require Import Prelude GoStrings Scope PluginManifest PluginGraph PluginRegistry PluginHost.
From Stdlib Require Import Ascii ZArith Lia.

Section Manager.
Context {P : PluginCode} {C : CronLib} {R : RootMux}.

(** ** Operations *)

Definition NewManager (w : X) (s : Services) : kernel :=
  mkKernel w NewRegistry ∅ 0 s ∅ None None ∅ [] [].

(** [List]: the instances in the order of their ids, by address. *)
Definition List_ (k : kernel) : list nat :=
  omap (λ id, instances k !! id) (SortStrings (map_to_list (instances k)).*1).

Definition Get (id : string) (k : kernel) : option nat := instances k !! id.

Definition installed (k : kernel) : list Manifest :=
  omap (λ ptr, manifest <$> heap k !! ptr) (map_to_list (instances k)).*2.

(** [m.nextGen++] and the new [Instance]; [mgr] tells whether the field
    [manager] is set. *)
Definition allocate (p : NativePlugin) (m : Manifest) (mgr : bool) : K nat :=
  update (λ k, set_nextGen ((nextGen k + 1) mod 2 ^ 64)%Z k) ;;
  k ← gets id;
  let i := mkInstance m p StatePending (nextGen k) NewLedger false mgr in
  update (λ k, set_heap (heap k ++ [i]) k) ;;
  mret (length (heap k)).

Definition start_new (id : string) (ptr : nat) : K unit := λ k,
  match Start ptr k with
  | (k, Err (Error e)) => (k, Err (Error (ErrStart id e)))
  | r => r
  end.

(** The commit phase: stop the prior instance, revoke its records under its own
    scope, and install the new one. *)
Definition replace_prior (id : string) (prior : option nat) : K unit :=
  match prior with
  | None => mret tt
  | Some old =>
      Stop old ;;
      k ← gets heap;
      match k !! old with
      | None => throw Panic
      | Some i => update (λ k, set_registry (RevokeAll (Scope (manifest i)) id (registry k)) k)
      end
  end.

Definition install (ptr : nat) (m : Manifest) : K unit :=
  update (λ k, set_instances (<[ID m := ptr]> (instances k)) k) ;;
  update (λ k, set_registry
    (fold_left (λ r provided, Record_ (Scope m) provided (ID m) r) (Provides m) (registry k)) k).

(** What [Activate] and [Commit] have in common, from [nextGen++] on: allocate,
    start, and commit over the prior instance that [get_prior] yields. *)
Definition launch (p : NativePlugin) (m : Manifest) (mgr : bool) (get_prior : K (option nat)) : K nat :=
  ptr ← allocate p m mgr;
  start_new (ID m) ptr ;;
  prior ← get_prior;
  (replace_prior (ID m) prior ;; install ptr m) ;;
  mret ptr.

Definition Deactivate (id : string) : K unit :=
  found ← gets (Get id);
  match found with
  | None => mret tt
  | Some ptr =>
      e ← Stop ptr;
      match e with
      | Some e => throw (Error (ErrPlugin e))
      | None =>
          h ← gets heap;
          match h !! ptr with
          | None => throw Panic
          | Some i =>
              update (λ k, set_registry (RevokeAll (Scope (manifest i)) id (registry k)) k) ;;
              update (λ k, set_instances (delete id (instances k)) k)
          end
      end
  end.

Definition set_done (tx : nat) (k : kernel) : kernel :=
  set_transactions (alter (λ t, mkTx (candidate t) (tx_manifest t) (prior t) true) tx
    (transactions k)) k.

(** [Commit]: the instance that is installed afterwards, if any.  The new
    instance is built without its [manager] field. *)
Definition Commit (tx : nat) : K (option nat) :=
  ts ← gets transactions;
  match ts !! tx with
  | None => throw Panic
  | Some t =>
      if done t then gets (Get (ID (tx_manifest t))) else
      current ← gets (Get (ID (tx_manifest t)));
      if bool_decide (current ≠ prior t)
      then update (set_done tx) ;; throw (Error (ErrStale (ID (tx_manifest t))))
      else
        update (set_done tx) ;;
        ptr ← launch (candidate t) (tx_manifest t) false (mret (prior t));
        mret (Some ptr)
  end.

Definition Rollback (tx : nat) : K unit := update (set_done tx).

(** [MountRoutes]: [visit] is the order in which the loop visits the map. *)
Fixpoint mount_all (prefixes : list string) : K unit :=
  match prefixes with
  | [] => mret tt
  | prefix :: prefixes =>
      root ← gets routeRoot;
      match root ≫= mountRouteLocked prefix with
      | None => throw Panic
      | Some root => update (set_routeRoot (Some root)) ;; mount_all prefixes
      end
  end.

Definition MountRoutes (visit : list string → list string) (root : Root) : K unit :=
  update (set_routeRoot (Some root)) ;;
  rs ← gets routes;
  mount_all (visit (map_to_list rs).*1).

Record PromptSection : Type := mkSection { PluginID : string; Key : string; Kind : string; Text : string }.

Definition PromptSections (k : kernel) : list PromptSection :=
  SortStrings (map_to_list (instances k)).*1 ≫= λ id,
    match instances k !! id ≫= λ ptr, heap k !! ptr with
    | Some i =>
        match plugin_PromptSections (plugin i) with
        | None => []
        | Some f => (λ '(key, kind, text), mkSection id key kind text) <$> f (world k)
        end
    | None => []
    end.

(** * What a running plugin can change *)

(** The kernel [k'] differs from [k] only in what plugin code reaches through
    its host, and in the progress of the instance at [ptr]. *)
Record frame (ptr : nat) (k k' : kernel) : Prop := {
  fr_registry : registry k' = registry k;
  fr_instances : instances k' = instances k;
  fr_nextGen : nextGen k' = nextGen k;
  fr_transactions : transactions k' = transactions k;
  fr_heap : ∀ q, q ≠ ptr → heap k' !! q = heap k !! q;
  fr_manifest : manifest <$> heap k' !! ptr = manifest <$> heap k !! ptr;
}.

Lemma frame_refl ptr k : frame ptr k k.
Proof. by split. Qed.

Lemma frame_trans ptr k1 k2 k3 : frame ptr k1 k2 → frame ptr k2 k3 → frame ptr k1 k3.
Proof.
  intros [R1 I1 N1 T1 H1 M1] [R2 I2 N2 T2 H2 M2]. split; try congruence.
  intros q Hq. by rewrite H2, H1.
Qed.

Definition frames {A} (ptr : nat) (m : K A) : Prop := ∀ k, frame ptr k (run m k).

Lemma frames_ret {A} ptr (a : A) : frames ptr (mret a).
Proof. intros k. apply frame_refl. Qed.
Lemma frames_throw {A} ptr f : frames (A:=A) ptr (throw f).
Proof. intros k. apply frame_refl. Qed.
Lemma frames_gets {A} ptr (f : kernel → A) : frames ptr (gets f).
Proof. intros k. apply frame_refl. Qed.
Lemma frames_update ptr f : (∀ k, frame ptr k (f k)) → frames ptr (update f).
Proof. intros Hf k. apply Hf. Qed.
Lemma frames_bind {A B} ptr (m : K A) (g : A → K B) :
  frames ptr m → (∀ a, frames ptr (g a)) → frames ptr (m ≫= g).
Proof.
  intros Hm Hg k. rewrite run_bind. destruct (out m k); [|apply Hm].
  eapply frame_trans; [apply Hm|apply Hg].
Qed.

Lemma frame_set_routes ptr v k : frame ptr k (set_routes v k). Proof. by split. Qed.
Lemma frame_set_routeRoot ptr v k : frame ptr k (set_routeRoot v k). Proof. by split. Qed.
Lemma frame_set_schedCron ptr v k : frame ptr k (set_schedCron v k). Proof. by split. Qed.
Lemma frame_set_schedEntries ptr v k : frame ptr k (set_schedEntries v k). Proof. by split. Qed.
Lemma frame_set_world ptr v k : frame ptr k (set_world v k). Proof. by split. Qed.
Lemma frame_modify ptr f k :
  (∀ i, manifest (f i) = manifest i) → frame ptr k (modify_instance ptr f k).
Proof.
  intros Hf. split; try done; simpl.
  - intros q Hq. by rewrite list_lookup_alter_ne.
  - rewrite list_lookup_alter_eq. destruct (heap k !! ptr) as [i|]; [|done]. cbn. by rewrite Hf.
Qed.

Create HintDb frame discriminated.
#[local] Hint Resolve frame_refl frames_ret frames_throw frames_gets frames_update frames_bind
  frame_set_routes frame_set_routeRoot frame_set_schedCron frame_set_schedEntries
  frame_set_world frame_modify : frame.
#[local] Hint Extern 1 (manifest _ = manifest _) => reflexivity : frame.

Ltac frames := repeat (first [ case_match | case_bool_decide ]); auto with frame.

Lemma frames_answer {A} ptr (m : K unit) (g : option error → K A) :
  frames ptr m → (∀ e, frames ptr (g e)) → frames ptr (answer m g).
Proof.
  intros Hm Hg k. specialize (Hm k). unfold run, answer in *.
  destruct (m k) as [k1 [u|[e|]]]; simpl in *; [| |done]; by (eapply frame_trans; [exact Hm|apply Hg]).
Qed.

Lemma frames_or_failed ptr m : frames ptr m → frames ptr (or_failed ptr m).
Proof.
  intros Hm k. specialize (Hm k). unfold run, or_failed in *.
  destruct (m k) as [k1 [u|[e|]]]; simpl in *; try done.
  eapply frame_trans; [exact Hm|]. unfold throw. simpl. by apply frame_modify.
Qed.

Lemma frames_add_effect ptr e : frames ptr (add_effect ptr e).
Proof. unfold add_effect. auto with frame. Qed.

Lemma frames_set_state_at ptr s : frames ptr (set_state_at ptr s).
Proof. unfold set_state_at. auto with frame. Qed.
#[local] Hint Resolve frames_answer frames_or_failed frames_add_effect frames_set_state_at : frame.

Lemma frames_registerPluginRoutes ptr mgr id prefix register :
  frames ptr (registerPluginRoutes mgr id prefix register).
Proof.
  unfold registerPluginRoutes. destruct (_ || _); [auto with frame|].
  destruct register as [sub|]; [|auto with frame]. destruct (negb mgr); [auto with frame|].
  apply frames_bind; [auto with frame|]. intros rs. apply frames_bind; [frames|].
  intros _. apply frames_bind; [auto with frame|]. intros _.
  apply frames_bind; [auto with frame|]. intros root. frames.
Qed.

Lemma frames_registerSchedule ptr mgr id name spec fn :
  frames ptr (registerSchedule mgr id name spec fn).
Proof.
  unfold registerSchedule. case_bool_decide; [auto with frame|].
  destruct (validate _ _ spec); [auto with frame|]. destruct fn as [fn|]; [|auto with frame].
  destruct (negb mgr); [auto with frame|]. apply frames_bind.
  - unfold scheduleCron. apply frames_bind; [auto with frame|]. intros c. frames.
  - intros c. destruct (AddFunc _ fn c) as [c' r]. apply frames_bind; [auto with frame|].
    intros _. destruct r; auto with frame.
Qed.
#[local] Hint Resolve frames_registerPluginRoutes frames_registerSchedule : frame.

Lemma frames_script ptr mgr id p : frames ptr (run_script mgr id ptr p).
Proof.
  induction p as [[e|]|f k IH|[e|] k IH|c k IH|prefix register k IH|k IH|name spec fn k IH];
    cbn [run_script]; auto 6 with frame.
  destruct (negb mgr); auto with frame.
Qed.

Lemma frame_removePluginRoutes ptr id prefix k : frame ptr k (removePluginRoutes id prefix k).
Proof. unfold removePluginRoutes. frames. Qed.

Lemma frame_removeSchedules ptr id k : frame ptr k (removeSchedules id k).
Proof.
  unfold removeSchedules. cbn. destruct (schedCron k); [|auto with frame].
  eapply frame_trans; [apply frame_set_schedEntries|apply frame_set_schedCron].
Qed.

Lemma frame_Disposer ptr d k : frame ptr k (run_Disposer d k).1.
Proof.
  destruct d as [d|id prefix|id]; simpl.
  - destruct (run_disposer d (world k)). apply frame_set_world.
  - apply frame_removePluginRoutes.
  - apply frame_removeSchedules.
Qed.

Lemma frame_revert_loop ptr ds e k : frame ptr k (revert_loop ds e k).1.
Proof.
  revert e k. induction ds as [|d ds IH]; intros e k; simpl; [apply frame_refl|].
  pose proof (frame_Disposer ptr d k) as Hd. destruct (run_Disposer d k) as [k1 err].
  eapply frame_trans; [exact Hd|apply IH].
Qed.

Lemma frame_revertLocked ptr l k : frame ptr k (revertLocked l k).1.1.
Proof.
  unfold revertLocked. pose proof (frame_revert_loop ptr (reverse (active l)) None k) as H.
  by destruct (revert_loop _ _ _).
Qed.

Lemma frame_run_Effect ptr e k : frame ptr k (run_Effect e k).1.
Proof.
  destruct e as [e|id prefix|id]; simpl; [|apply frame_refl..].
  destruct (run_effect e (world k)). apply frame_set_world.
Qed.

Lemma frame_run_loop ptr es l k : frame ptr k (run_loop es l k).1.1.
Proof.
  revert l k. induction es as [|e es IH]; intros l k; simpl; [apply frame_refl|].
  pose proof (frame_run_Effect ptr e k) as He. destruct (run_Effect e k) as [k1 [[d|]|err]]; simpl in He.
  - eapply frame_trans; [exact He|apply IH].
  - eapply frame_trans; [exact He|apply IH].
  - pose proof (frame_revertLocked ptr l k1) as Hr. destruct (revertLocked l k1) as [[k2 l2] e2].
    by eapply frame_trans.
Qed.

Lemma frames_run_ledger ptr i : frames ptr (run_ledger ptr i).
Proof.
  intros k. unfold run, run_ledger, Run. destruct (reverted (ledger i)); simpl; [auto with frame|].
  pose proof (frame_run_loop ptr (effects (ledger i)) (ledger i) k) as H.
  destruct (run_loop _ _ _) as [[k1 l1] e1]. simpl in *. eapply frame_trans; [exact H|auto with frame].
Qed.

Lemma frames_revert_ledger ptr i : frames ptr (revert_ledger ptr i).
Proof.
  intros k. unfold run, revert_ledger, Revert. destruct (reverted (ledger i)); simpl; [auto with frame|].
  pose proof (frame_revertLocked ptr (ledger i) k) as H.
  destruct (revertLocked _ _) as [[k1 l1] e1]. simpl in *. eapply frame_trans; [exact H|auto with frame].
Qed.
#[local] Hint Resolve frames_script frames_run_ledger frames_revert_ledger : frame.

Lemma frames_Start ptr : frames ptr (Start ptr).
Proof.
  unfold Start. apply frames_bind; [auto with frame|]. intros k.
  destruct (heap k !! ptr) as [i|]; [|auto with frame]. destruct (started i); [auto with frame|].
  repeat (apply frames_bind; [|intros _]); auto with frame.
  apply frames_or_failed, frames_bind; [auto with frame|]. intros k'. frames.
Qed.

Lemma frames_Stop ptr : frames ptr (Stop ptr).
Proof.
  unfold Stop. apply frames_bind; [auto with frame|]. intros k.
  destruct (heap k !! ptr) as [i|]; [|auto with frame]. destruct (negb (started i)); [auto with frame|].
  repeat (apply frames_bind; [|intros _]); auto with frame.
Qed.

(** * Phases of an instance *)

Definition running (i : Instance) : Prop := started i = true ∧ state i = StateActive.
Definition stopped (i : Instance) : Prop := started i = false ∧ state i = StateDisposed.
Definition settled (i : Instance) : Prop := running i ∨ stopped i.

Lemma frame_lookup ptr k k' i :
  frame ptr k k' → heap k !! ptr = Some i →
  ∃ i', heap k' !! ptr = Some i' ∧ manifest i' = manifest i.
Proof.
  intros Hf Hi. pose proof (fr_manifest _ _ _ Hf) as Hm. rewrite Hi in Hm.
  apply fmap_Some in Hm as (i'&Hi'&Hm). by exists i'.
Qed.

Lemma modify_lookup ptr f k i :
  heap k !! ptr = Some i → heap (modify_instance ptr f k) !! ptr = Some (f i).
Proof. intros Hi. simpl. rewrite list_lookup_alter_eq. by rewrite Hi. Qed.

(** An instance that was started is active; one that failed is not installed. *)
Lemma Start_active ptr k i :
  heap k !! ptr = Some i → started i = false → is_ok (out (Start ptr) k) = true →
  ∃ i', heap (run (Start ptr) k) !! ptr = Some i' ∧ manifest i' = manifest i ∧
    started i' = true ∧ state i' = StateActive.
Proof.
  intros Hi Hs Hok. destruct (frame_lookup _ _ _ _ (frames_Start ptr k) Hi) as (i2&Hi2&Hm2).
  exists i2. split; [done|]. split; [done|]. revert Hok Hi2. unfold Start.
  rewrite run_bind, out_bind. cbn [gets out run fst snd]. unfold id. rewrite Hi, Hs.
  set (m1 := set_state_at _ _). rewrite run_bind, out_bind. destruct (out m1 k) as [[]|]; [|done].
  set (m2 := or_failed ptr (run_script _ _ _ _)). rewrite run_bind, out_bind. destruct (out m2 _) as [[]|]; [|done].
  set (m3 := or_failed ptr (gets _ ≫= _)). rewrite run_bind, out_bind. destruct (out m3 _) as [[]|]; [|done].
  generalize (run m3 (run m2 (run m1 k))). intros k3 _. cbn [run update fst].
  destruct (heap k3 !! ptr) as [i3|] eqn:Hi3.
  - rewrite (modify_lookup _ _ _ _ Hi3). by intros [= <-].
  - simpl. rewrite list_lookup_alter_eq, Hi3. done.
Qed.

(** [Stop] always returns, and leaves the instance stopped. *)
Lemma Stop_settles ptr k i :
  heap k !! ptr = Some i →
  ∃ e, out (Stop ptr) k = Ok e ∧
    ∃ i', heap (run (Stop ptr) k) !! ptr = Some i' ∧ manifest i' = manifest i ∧
      if started i then started i' = false ∧ state i' = StateDisposed
      else i' = i ∧ e = None ∧ run (Stop ptr) k = k.
Proof.
  intros Hi. destruct (frame_lookup _ _ _ _ (frames_Stop ptr k) Hi) as (i2&Hi2&Hm2).
  revert Hi2. unfold Stop. rewrite run_bind, out_bind. cbn [gets out run fst snd]. unfold id. rewrite Hi.
  destruct (started i) eqn:Hs; simpl.
  - unfold revert_ledger, set_state_at, update, mbind, M_bind, run, out.
    cbn -[Revert modify_instance]. destruct (Revert (ledger i) _) as [[k1 l1] e1]. cbn.
    rewrite list_lookup_alter_eq. intros Hi2. exists e1. split; [done|]. exists i2.
    destruct (heap k1 !! ptr) as [i1|]; [|done]. simpl in Hi2. injection Hi2 as <-. done.
  - intros Hi2. exists None. split; [done|]. exists i2. split; [done|]. split; [done|].
    change (heap k !! ptr = Some i2) in Hi2. rewrite Hi in Hi2. by injection Hi2 as ->.
Qed.

(** * The invariant *)

Record kernel_ok (k : kernel) : Prop := {
  ok_instance : ∀ id ptr, instances k !! id = Some ptr →
    ∃ i, heap k !! ptr = Some i ∧ ID (manifest i) = id ∧ settled i;
  ok_wf : wf (registry k);
  ok_registry : ∀ s c p, p ∈ recorded s c (registry k) ↔
    ∃ ptr i, instances k !! p = Some ptr ∧ heap k !! ptr = Some i ∧
      Scope (manifest i) = s ∧ c ∈ Provides (manifest i);
}.

(** Two kernels with the same tables and the same installed instances. *)
Lemma ok_same k k' :
  kernel_ok k → registry k' = registry k → instances k' = instances k →
  (∀ id ptr i, instances k !! id = Some ptr → heap k !! ptr = Some i → heap k' !! ptr = Some i) →
  kernel_ok k'.
Proof.
  intros [Hi Hw Hr] Er Ei Hh. split; rewrite ?Er, ?Ei; [|done|].
  - intros id ptr Hid. destruct (Hi id ptr Hid) as (i&?&?&?). exists i. split; [|done]. by eapply Hh.
  - intros s c p. rewrite Hr. split; intros (ptr&i&Hp&Hptr&?); exists ptr, i.
    + split; [done|]. split; [by eapply Hh|done].
    + split; [done|]. destruct (Hi p ptr Hp) as (i'&Hi'&_).
      rewrite (Hh p ptr i' Hp Hi') in Hptr. injection Hptr as <-. done.
Qed.

Lemma ok_frame ptr k k' :
  kernel_ok k → frame ptr k k' → (∀ id, instances k !! id ≠ Some ptr) → kernel_ok k'.
Proof.
  intros Hk Hf Hn. apply (ok_same k); [done|apply Hf|apply Hf|].
  intros id q i Hq Hi. rewrite (fr_heap _ _ _ Hf); [done|]. intros ->. by destruct (Hn id).
Qed.

Lemma ok_fresh k : kernel_ok k → ∀ id ptr, instances k !! id = Some ptr → ptr < length (heap k).
Proof. intros Hk id ptr Hid. destruct (ok_instance k Hk id ptr Hid) as (i&Hi&_). by apply lookup_lt_Some in Hi. Qed.

(** What [allocate] leaves. *)
Lemma allocate_spec p m mgr k :
  out (allocate p m mgr) k = Ok (length (heap k)) ∧
  ∃ g, heap (run (allocate p m mgr) k) = heap k ++ [mkInstance m p StatePending g NewLedger false mgr] ∧
    registry (run (allocate p m mgr) k) = registry k ∧
    instances (run (allocate p m mgr) k) = instances k ∧
    transactions (run (allocate p m mgr) k) = transactions k.
Proof. split; [done|]. by eexists. Qed.

Lemma start_new_run id ptr k : run (start_new id ptr) k = run (Start ptr) k.
Proof. unfold run, start_new. by destruct (Start ptr k) as [k1 [|[]]]. Qed.

Lemma start_new_ok id ptr k : is_ok (out (start_new id ptr) k) = is_ok (out (Start ptr) k).
Proof. unfold out, start_new. by destruct (Start ptr k) as [k1 [|[]]]. Qed.

(** Stopping the prior instance and revoking its records. *)
Lemma replace_prior_spec ptr id k :
  kernel_ok k → (∀ id, instances k !! id ≠ Some ptr) →
  let prior := instances k !! id in
  let k' := run (replace_prior id prior) k in
  out (replace_prior id prior) k = Ok tt ∧ instances k' = instances k ∧
  transactions k' = transactions k ∧ heap k' !! ptr = heap k !! ptr ∧ wf (registry k') ∧
  (∀ q, prior ≠ Some q → heap k' !! q = heap k !! q) ∧
  (∀ s c p, p ∈ recorded s c (registry k') ↔ p ∈ recorded s c (registry k) ∧ p ≠ id) ∧
  (∀ old j, prior = Some old → heap k' !! old = Some j → stopped j).
Proof.
  intros Hk Hn prior k'. subst k'.
  assert (prior = instances k !! id) as Hprior by done. clearbody prior.
  assert (∀ s c, id ∈ recorded s c (registry k) → ∃ old i, prior = Some old ∧ heap k !! old = Some i ∧
    Scope (manifest i) = s) as Hid.
  { intros s c (old&i&?&?&?&?)%(ok_registry k Hk). exists old, i. by rewrite Hprior. }
  destruct prior as [old|]; simpl.
  - destruct (ok_instance k Hk id old) as (i&Hi&_&Hst); [done|].
    destruct (Stop_settles old k i Hi) as (e&He&i'&Hi'&Hm&Hend).
    pose proof (frames_Stop old k) as Hf.
    rewrite !run_bind, !out_bind, He. cbn [gets run out fst snd mbind M_bind]. rewrite Hi'.
    cbn [update run out fst snd instances transactions heap registry set_registry].
    rewrite (fr_instances _ _ _ Hf), (fr_transactions _ _ _ Hf), (fr_registry _ _ _ Hf).
    split_and!; try done.
    + apply (fr_heap _ _ _ Hf). intros ->. by destruct (Hn id).
    + apply (apply_op_wf (OpRevokeAll _ _)), Hk.
    + intros q Hq. apply (fr_heap _ _ _ Hf). congruence.
    + intros s c p. rewrite RevokeAll_recorded. split; [|naive_solver].
      intros [Hin Hne]. split; [done|]. intros ->. destruct (Hid s c Hin) as (o&i0&[= <-]&Hi0&<-).
      rewrite Hi in Hi0. injection Hi0 as <-. by rewrite Hm in Hne; destruct Hne.
    + intros o j [= <-]. rewrite Hi'. intros [= <-]. destruct Hst as [[Hs _]|[Hs Hd]]; rewrite Hs in Hend.
      * done.
      * destruct Hend as (->&_&_). done.
  - split_and!; try done; [apply Hk|]. intros s c p. split; [|by intros [? _]].
    intros Hin. split; [done|]. intros ->. by destruct (Hid s c Hin) as (o&i0&?&_).
Qed.

Lemma install_run ptr m k :
  run (install ptr m) k =
    set_registry (fold_left (λ r provided, Record_ (Scope m) provided (ID m) r) (Provides m) (registry k))
      (set_instances (<[ID m := ptr]> (instances k)) k).
Proof. done. Qed.

(** The commit phase restores the invariant, with the new instance installed. *)
Lemma commit_ok ptr m i k :
  kernel_ok k → (∀ id, instances k !! id ≠ Some ptr) →
  heap k !! ptr = Some i → manifest i = m → settled i →
  let prior := instances k !! ID m in
  let c := replace_prior (ID m) prior ;; install ptr m in
  out c k = Ok tt ∧ kernel_ok (run c k) ∧ instances (run c k) = <[ID m := ptr]> (instances k) ∧
  heap (run c k) !! ptr = Some i ∧ transactions (run c k) = transactions k ∧
  (∀ old j, prior = Some old → heap (run c k) !! old = Some j → stopped j).
Proof.
  intros Hk Hn Hi Hm Hs prior c. subst c.
  destruct (replace_prior_spec ptr (ID m) k Hk Hn) as (Ho&Hins&Htx&Hh&Hw&Hoth&Hreg&Hold).
  fold prior in Ho, Hins, Htx, Hh, Hw, Hoth, Hreg, Hold. rewrite run_bind, out_bind, Ho.
  set (k1 := run (replace_prior (ID m) prior) k) in *.
  rewrite install_run. split; [done|]. cbn [instances heap transactions set_registry set_instances].
  rewrite Hins, Hh, Htx. split_and!; try done. split; simpl.
  - intros id q. rewrite lookup_insert. case_decide as He.
    + intros [= <-]. exists i. rewrite Hh. subst. by split_and!.
    + intros Hq. destruct (ok_instance k Hk id q Hq) as (j&Hj&Hid&Hst). exists j. split; [|done].
      rewrite Hoth; [done|]. subst prior. intros Hp.
      destruct (ok_instance k Hk _ _ Hp) as (j'&Hj'&Hid'&_). rewrite Hj in Hj'. injection Hj' as <-.
      congruence.
  - by apply Records_wf.
  - intros s c p. rewrite Records_recorded, Hreg, (ok_registry k Hk).
    destruct (decide (p = ID m)) as [->|Hp].
    + split.
      * intros [(->&_&Hc)|[_ ?]]; [|done]. exists ptr, i. rewrite lookup_insert_eq, Hh. by subst.
      * intros (q&j&Hq&Hj&<-&Hc). rewrite lookup_insert_eq in Hq. injection Hq as <-.
        rewrite Hh, Hi in Hj. injection Hj as <-. left. by subst.
    + rewrite lookup_insert_ne by done. split.
      * intros [(_&?&_)|[(q&j&Hq&Hj&Hsc) _]]; [done|]. exists q, j. split; [done|]. split; [|done].
        rewrite Hoth; [done|]. subst prior. intros Hpr.
        destruct (ok_instance k Hk _ _ Hpr) as (j1&Hj1&Hid1&_).
        destruct (ok_instance k Hk _ _ Hq) as (j2&Hj2&Hid2&_). congruence.
      * intros (q&j&Hq&Hj&Hsc). right. split; [|done]. exists q, j. split; [done|]. split; [|done].
        rewrite Hoth in Hj; [done|]. subst prior. intros Hpr.
        destruct (ok_instance k Hk _ _ Hpr) as (j1&Hj1&Hid1&_).
        destruct (ok_instance k Hk _ _ Hq) as (j2&Hj2&Hid2&_). congruence.
Qed.

(** From the allocation to the end of the start hook the tables do not move. *)
Lemma start_phase p m mgr k :
  kernel_ok k →
  let k1 := run (allocate p m mgr) k in
  let ptr := length (heap k) in
  let k2 := run (start_new (ID m) ptr) k1 in
  kernel_ok k2 ∧ (∀ id, instances k2 !! id ≠ Some ptr) ∧ instances k2 = instances k ∧
  registry k2 = registry k ∧ transactions k2 = transactions k ∧
  (∀ id q, instances k !! id = Some q → heap k2 !! q = heap k !! q) ∧
  (is_ok (out (start_new (ID m) ptr) k1) = true →
   ∃ i, heap k2 !! ptr = Some i ∧ manifest i = m ∧ running i).
Proof.
  intros Hk k1 ptr k2. destruct (allocate_spec p m mgr k) as (_&g&Hh&Hr&Hi&Ht).
  fold k1 in Hh, Hr, Hi, Ht. subst k2. rewrite start_new_run, start_new_ok.
  assert (∀ id q, instances k !! id = Some q → q < ptr) as Hlt by (by apply ok_fresh).
  assert (kernel_ok k1) as Hk1.
  { apply (ok_same k); try done. intros id q i _ Hq. rewrite Hh. by apply lookup_app_l_Some. }
  assert (∀ id, instances k1 !! id ≠ Some ptr) as Hn.
  { intros id Hid. rewrite Hi in Hid. apply Hlt in Hid. lia. }
  pose proof (frames_Start ptr k1) as Hf. split_and!.
  - by eapply ok_frame.
  - intros id. rewrite (fr_instances _ _ _ Hf). apply Hn.
  - by rewrite (fr_instances _ _ _ Hf).
  - by rewrite (fr_registry _ _ _ Hf).
  - by rewrite (fr_transactions _ _ _ Hf).
  - intros id q Hq. rewrite (fr_heap _ _ _ Hf).
    + rewrite Hh. apply lookup_app_l. by eapply Hlt.
    + intros ->. apply Hlt in Hq. lia.
  - intros Hok.
    assert (heap k1 !! ptr = Some (mkInstance m p StatePending g NewLedger false mgr)) as Hp.
    { rewrite Hh. subst ptr. by rewrite lookup_app_r, Nat.sub_diag. }
    destruct (Start_active ptr k1 _ Hp eq_refl Hok) as (i&Hi2&Hm&Hrun). by exists i.
Qed.

(** What a launch leaves, when it fails and when it succeeds. *)
Record launched (p : NativePlugin) (m : Manifest) (k k' : kernel) (r : result failure nat) : Prop := {
  la_ok : kernel_ok k';
  la_tx : transactions k' = transactions k;
  la_err : ∀ f, r = Err f →
    instances k' = instances k ∧ registry k' = registry k ∧
    ∀ id q, instances k !! id = Some q → heap k' !! q = heap k !! q;
  la_done : ∀ ptr, r = Ok ptr →
    instances k' = <[ID m := ptr]> (instances k) ∧
    (∃ i, heap k' !! ptr = Some i ∧ manifest i = m ∧ running i) ∧
    (∀ old j, instances k !! ID m = Some old → heap k' !! old = Some j → stopped j);
}.

Lemma launch_spec p m mgr get_prior k :
  kernel_ok k →
  (∀ k', instances k' = instances k → out get_prior k' = Ok (instances k' !! ID m) ∧ run get_prior k' = k') →
  launched p m k (run (launch p m mgr get_prior) k) (out (launch p m mgr get_prior) k).
Proof.
  intros Hk Hget. destruct (start_phase p m mgr k Hk) as (Hk2&Hn&Hi&Hr&Ht&Hh&Hrun).
  unfold launch. rewrite run_bind, out_bind. destruct (allocate_spec p m mgr k) as (->&_).
  set (k1 := run (allocate p m mgr) k) in *. set (ptr := length (heap k)) in *.
  rewrite run_bind, out_bind. set (k2 := run (start_new (ID m) ptr) k1) in *.
  destruct (out (start_new (ID m) ptr) k1) as [u|f]; simpl in Hrun.
  - destruct (Hrun eq_refl) as (i&Hptr&Hm&Hri).
    destruct (Hget k2 Hi) as [Ho1 Hr1]. rewrite run_bind, out_bind, Ho1, Hr1.
    destruct (commit_ok ptr m i k2 Hk2 Hn Hptr Hm (or_introl Hri)) as (Ho&Hk3&Hi3&Hh3&Ht3&Hold).
    set (c := replace_prior (ID m) (instances k2 !! ID m) ;; install ptr m) in *.
    rewrite run_bind, out_bind, Ho. split; [done|cbn; congruence|done|].
    intros ? [= <-]. rewrite <- Hi. split_and!; [done|by exists i|exact Hold].
  - split; [done|done| |done]. intros f' _. by split_and!.
Qed.

Lemma NewManager_ok w s : kernel_ok (NewManager w s).
Proof.
  split; simpl.
  - intros id ptr. by rewrite lookup_empty.
  - apply NewRegistry_ok.
  - intros s' c p. unfold recorded, NewRegistry. rewrite lookup_empty. simpl. rewrite elem_of_nil.
    split; [done|]. intros (?&?&Hp&_). by rewrite lookup_empty in Hp.
Qed.

Lemma Deactivate_ok id : preserves kernel_ok (Deactivate id).
Proof.
  intros k Hk. unfold Deactivate. rewrite run_bind. cbn [gets run out fst snd]. unfold Get.
  destruct (instances k !! id) as [ptr|] eqn:Hid; [|done].
  destruct (ok_instance k Hk id ptr Hid) as (i&Hi&Hidm&Hst).
  destruct (Stop_settles ptr k i Hi) as (e&He&i'&Hi'&Hm&Hend).
  pose proof (frames_Stop ptr k) as Hf. rewrite run_bind, He.
  set (k1 := run (Stop ptr) k) in *.
  assert (kernel_ok k1 ∧ stopped i') as [Hk1 Hst'].
  { assert (stopped i') as Hst'.
    { destruct Hst as [[Hs _]|[Hs Hd]]; rewrite Hs in Hend; [done|]. by destruct Hend as (->&_&_). }
    split; [|done]. split; rewrite ?(fr_registry _ _ _ Hf), ?(fr_instances _ _ _ Hf).
    - intros id' q Hq. destruct (decide (q = ptr)) as [->|Hne].
      + destruct (ok_instance k Hk id' ptr Hq) as (j&Hj&Hidj&_). rewrite Hi in Hj. injection Hj as <-.
        exists i'. rewrite Hm. split_and!; [done|done|by right].
      + destruct (ok_instance k Hk id' q Hq) as (j&Hj&?). exists j.
        by rewrite (fr_heap _ _ _ Hf).
    - apply Hk.
    - intros s c p. rewrite (ok_registry k Hk). split; intros (q&j&Hq&Hj&Hs&Hc).
      + destruct (decide (q = ptr)) as [->|Hne].
        * rewrite Hi in Hj. injection Hj as <-. exists ptr, i'. by rewrite Hm.
        * exists q, j. by rewrite (fr_heap _ _ _ Hf).
      + destruct (decide (q = ptr)) as [->|Hne].
        * rewrite Hi' in Hj. injection Hj as <-. rewrite Hm in Hs, Hc. by exists ptr, i.
        * exists q, j. by rewrite (fr_heap _ _ _ Hf) in Hj. }
  destruct e as [e|]; [done|]. rewrite run_bind. cbn [gets run out fst snd]. rewrite Hi'.
  change (kernel_ok (set_instances (delete id (instances k1))
    (set_registry (RevokeAll (Scope (manifest i')) id (registry k1)) k1))).
  destruct Hk1 as [Oi Ow Or]. rewrite (fr_instances _ _ _ Hf) in Oi.
  split; cbn [instances registry heap set_registry set_instances];
    rewrite ?(fr_instances _ _ _ Hf).
  - intros id' q Hq. apply lookup_delete_Some in Hq as [_ Hq]. by apply Oi.
  - by apply (apply_op_wf (OpRevokeAll _ _)).
  - intros s c p. rewrite RevokeAll_recorded, Or, (fr_instances _ _ _ Hf). split.
    + intros [(q&j&Hq&Hj&Hs&Hc) Hno]. exists q, j. rewrite lookup_delete_Some. split_and!; try done.
      intros <-. apply Hno. split; [|done]. congruence.
    + intros (q&j&[Hne Hq]%lookup_delete_Some&Hj&Hs&Hc). split; [by exists q, j|]. by intros [_ ->].
Qed.

Lemma ok_transactions v k : kernel_ok k → kernel_ok (set_transactions v k).
Proof. intros Hk. by apply (ok_same k). Qed.

(** A commit that is not refused is a launch over the prior instance. *)
Lemma Commit_launch tx t k :
  transactions k !! tx = Some t → done t = false → instances k !! ID (tx_manifest t) = prior t →
  let c := launch (candidate t) (tx_manifest t) false (mret (prior t)) in
  run (Commit tx) k = run c (set_done tx k) ∧
  out (Commit tx) k = match out c (set_done tx k) with Ok ptr => Ok (Some ptr) | Err f => Err f end.
Proof.
  intros Ht Hd Hp c. unfold Commit. rewrite run_bind, out_bind. cbn [gets run out fst snd].
  rewrite Ht, Hd, run_bind, out_bind. cbn [gets run out fst snd]. unfold Get. rewrite Hp.
  rewrite (bool_decide_false (prior t ≠ prior t)) by (by intros []).
  rewrite run_bind, out_bind. cbn [update run out fst snd]. fold c. rewrite run_bind, out_bind.
  by destruct (out c (set_done tx k)).
Qed.

Lemma Commit_refused tx k :
  (∀ t, transactions k !! tx = Some t → done t = false → instances k !! ID (tx_manifest t) ≠ prior t) →
  run (Commit tx) k = k ∨ run (Commit tx) k = set_done tx k.
Proof.
  intros Hr. unfold Commit. rewrite run_bind. cbn [gets run out fst snd].
  destruct (transactions k !! tx) as [t|]; [|by left]. destruct (done t) eqn:Hd; [by left|].
  rewrite run_bind. cbn [gets run out fst snd]. unfold Get.
  rewrite bool_decide_true by (by apply Hr). by right.
Qed.

Lemma Commit_spec tx t k :
  kernel_ok k → transactions k !! tx = Some t → done t = false →
  instances k !! ID (tx_manifest t) = prior t →
  let c := launch (candidate t) (tx_manifest t) false (mret (prior t)) in
  launched (candidate t) (tx_manifest t) (set_done tx k) (run c (set_done tx k)) (out c (set_done tx k)).
Proof.
  intros Hk Ht Hd Hp. apply launch_spec; [by apply ok_transactions|].
  intros k' Hk'. rewrite Hk'. simpl. by rewrite Hp.
Qed.

Lemma Commit_ok tx : preserves kernel_ok (Commit tx).
Proof.
  intros k Hk. destruct (transactions k !! tx) as [t|] eqn:Ht.
  - destruct (done t) eqn:Hd.
    + destruct (Commit_refused tx k) as [-> | ->]; [|done|by apply ok_transactions].
      intros t'. rewrite Ht. intros [= <-]. by rewrite Hd.
    + destruct (decide (instances k !! ID (tx_manifest t) = prior t)) as [Hp|Hp].
      * destruct (Commit_launch tx t k Ht Hd Hp) as [-> _].
        apply (la_ok _ _ _ _ _ (Commit_spec tx t k Hk Ht Hd Hp)).
      * destruct (Commit_refused tx k) as [-> | ->]; [|done|by apply ok_transactions].
        intros t'. rewrite Ht. by intros [= <-].
  - destruct (Commit_refused tx k) as [-> | ->]; [|done|by apply ok_transactions].
    intros t'. by rewrite Ht.
Qed.

Lemma mount_frames ptr prefixes : frames ptr (mount_all prefixes).
Proof.
  induction prefixes as [|prefix prefixes IH]; simpl; [auto with frame|].
  apply frames_bind; [auto with frame|]. intros root.
  destruct (root ≫= _); auto with frame.
Qed.

Lemma MountRoutes_ok visit root : preserves kernel_ok (MountRoutes visit root).
Proof.
  intros k Hk. assert (∀ ptr, frames ptr (MountRoutes visit root)) as Hf.
  { intros ptr. unfold MountRoutes. apply frames_bind; [auto with frame|]. intros _.
    apply frames_bind; [auto with frame|]. intros rs. apply mount_frames. }
  apply (ok_same k); [done|apply (Hf 0)|apply (Hf 0)|].
  intros _ q i _ Hi. by rewrite (fr_heap _ _ _ (Hf (S q) k)) by lia.
Qed.

(** ** What stopping an instance takes away *)

(** No route at [prefix] belongs to the plugin. *)
Definition no_route (id prefix : string) (k : kernel) : Prop :=
  ∀ r, routes k !! prefix = Some r → pluginID r ≠ id.
Definition no_schedule (id : string) (k : kernel) : Prop := schedEntries k !! id = None.

Lemma Disposer_routes d k : routes (run_Disposer d k).1 ⊆ routes k.
Proof.
  destruct d as [d|id prefix|id]; simpl.
  - by destruct (run_disposer d (world k)).
  - unfold removePluginRoutes. destruct (routes k !! prefix); [|done].
    case_bool_decide; [done|]. simpl. apply delete_subseteq.
  - unfold removeSchedules. cbn. by destruct (schedCron k).
Qed.

Lemma Disposer_schedules d k : schedEntries (run_Disposer d k).1 ⊆ schedEntries k.
Proof.
  destruct d as [d|id prefix|id]; simpl.
  - by destruct (run_disposer d (world k)).
  - unfold removePluginRoutes. destruct (routes k !! prefix); [|done]. by case_bool_decide.
  - unfold removeSchedules. cbn. destruct (schedCron k); simpl; apply delete_subseteq.
Qed.

Lemma RoutesDisposer_no_route id prefix k : no_route id prefix (run_Disposer (RoutesDisposer id prefix) k).1.
Proof.
  unfold no_route. simpl. unfold removePluginRoutes. intros r.
  destruct (routes k !! prefix) as [r0|] eqn:Hr; [|congruence].
  case_bool_decide; simpl; [congruence|]. by rewrite lookup_delete_eq.
Qed.

Lemma ScheduleDisposer_no_schedule id k : no_schedule id (run_Disposer (ScheduleDisposer id) k).1.
Proof.
  unfold no_schedule. simpl. unfold removeSchedules. cbn.
  destruct (schedCron k); simpl; by rewrite lookup_delete_eq.
Qed.

Lemma revert_loop_sub ds e k :
  routes (revert_loop ds e k).1 ⊆ routes k ∧ schedEntries (revert_loop ds e k).1 ⊆ schedEntries k.
Proof.
  revert e k. induction ds as [|d ds IH]; intros e k; simpl; [done|].
  pose proof (Disposer_routes d k) as Hr. pose proof (Disposer_schedules d k) as Hs.
  destruct (run_Disposer d k) as [k1 err]. destruct (IH (match e with Some e => Some e | None => err end) k1).
  split; by etrans.
Qed.

Lemma revert_loop_removes ds e k :
  (∀ id prefix, RoutesDisposer id prefix ∈ ds → no_route id prefix (revert_loop ds e k).1) ∧
  (∀ id, ScheduleDisposer id ∈ ds → no_schedule id (revert_loop ds e k).1).
Proof.
  revert e k. induction ds as [|d ds IH]; intros e k; simpl.
  { split; intros *; by intros ?%not_elem_of_nil. }
  destruct (run_Disposer d k) as [k1 err] eqn:Hd. set (e1 := match e with Some e => Some e | None => err end).
  destruct (IH e1 k1) as [IHr IHs]. destruct (revert_loop_sub ds e1 k1) as [Hsr Hss].
  assert (k1 = (run_Disposer d k).1) as Hk1 by (by rewrite Hd). split.
  - intros id prefix [<-|Hin]%elem_of_cons; [|by apply IHr]. intros r Hr.
    eapply lookup_weaken in Hr; [|exact Hsr]. subst k1. by apply (RoutesDisposer_no_route id prefix k).
  - intros id [<-|Hin]%elem_of_cons; [|by apply IHs]. unfold no_schedule.
    pose proof (ScheduleDisposer_no_schedule id k) as Hn. rewrite <- Hk1 in Hn.
    destruct (schedEntries (revert_loop ds e1 k1).1 !! id) eqn:Hl; [|done].
    eapply lookup_weaken in Hl; [|exact Hss]. unfold no_schedule in Hn. congruence.
Qed.

Lemma revert_ledger_removes ptr i k :
  reverted (ledger i) = false →
  (∀ id prefix, RoutesDisposer id prefix ∈ active (ledger i) →
     no_route id prefix (run (revert_ledger ptr i) k)) ∧
  (∀ id, ScheduleDisposer id ∈ active (ledger i) → no_schedule id (run (revert_ledger ptr i) k)).
Proof.
  intros Hr. unfold run, revert_ledger, Revert, revertLocked. rewrite Hr.
  destruct (revert_loop_removes (reverse (active (ledger i))) None k) as [H1 H2].
  destruct (revert_loop _ None k) as [k2 e]. cbn [fst snd] in *. split.
  - intros id prefix Hin. apply H1. by apply elem_of_reverse.
  - intros id Hin. apply H2. by apply elem_of_reverse.
Qed.

Lemma Stop_removes ptr k i :
  heap k !! ptr = Some i → started i = true → reverted (ledger i) = false →
  (∀ id prefix, RoutesDisposer id prefix ∈ active (ledger i) → no_route id prefix (run (Stop ptr) k)) ∧
  (∀ id, ScheduleDisposer id ∈ active (ledger i) → no_schedule id (run (Stop ptr) k)).
Proof.
  intros Hi Hs Hr. unfold Stop. rewrite run_bind. cbn [gets out run fst snd]. unfold id.
  rewrite Hi, Hs. by apply revert_ledger_removes.
Qed.

(** A launch over a running instance ends by stopping it. *)
Lemma launch_stops p m mgr get_prior k old i ptr :
  kernel_ok k →
  (∀ k', instances k' = instances k → out get_prior k' = Ok (instances k' !! ID m) ∧ run get_prior k' = k') →
  instances k !! ID m = Some old → heap k !! old = Some i → out (launch p m mgr get_prior) k = Ok ptr →
  ∃ k2, heap k2 !! old = Some i ∧
    routes (run (launch p m mgr get_prior) k) = routes (run (Stop old) k2) ∧
    schedEntries (run (launch p m mgr get_prior) k) = schedEntries (run (Stop old) k2).
Proof.
  intros Hk Hget Hold Hi. destruct (start_phase p m mgr k Hk) as (Hk2&_&Hin&_&_&Hh&_).
  unfold launch. rewrite run_bind, out_bind. destruct (allocate_spec p m mgr k) as (->&_).
  set (k1 := run (allocate p m mgr) k) in *. rewrite run_bind, out_bind.
  set (k2 := run (start_new (ID m) _) k1) in *. destruct (out (start_new (ID m) _) k1) as [u|f]; [|done].
  destruct (Hget k2 Hin) as [Ho1 Hr1]. rewrite run_bind, out_bind, Ho1, Hr1, Hin, Hold.
  assert (heap k2 !! old = Some i) as Hi2 by (by rewrite (Hh _ _ Hold)).
  destruct (Stop_settles old k2 i Hi2) as (e&He&i'&Hi'&_). intros _. exists k2. split; [done|].
  unfold replace_prior. rewrite !run_bind, !out_bind, He. cbn [gets run out fst snd]. rewrite Hi'. done.
Qed.

End Manager.

(** * Activation and preparation

    The calls that validate a candidate first; [platform], [order] and [quote]
    are those of [PluginGraph]. *)
Section Activation.
Context {P : PluginCode} {C : CronLib} {R : RootMux}.
Context (quote : string → string) (platform : option (string → bool)).
Context (order : nat → list string → list string).

Definition check_dependencies (m : Manifest) : K unit :=
  k ← gets id;
  let report := Graph_Validate quote platform order m (installed k) in
  if PluginGraph.Empty report then mret tt
  else throw (Error (ErrDependencies (ID m) (PluginGraph.Error report))).

Definition Activate (p : NativePlugin) : K nat :=
  let m := plugin_Manifest p in
  match Validate m with
  | Some e => throw (Error (ErrInvalidManifest e))
  | None => check_dependencies m ;; launch p m true (gets (Get (ID m)))
  end.

(** [Prepare]: the address of the transaction. *)
Definition Prepare (p : NativePlugin) : K nat :=
  let m := plugin_Manifest p in
  match Validate m with
  | Some e => throw (Error (ErrInvalidManifest e))
  | None =>
      check_dependencies m ;;
      k ← gets id;
      update (set_transactions (transactions k ++ [mkTx p m (Get (ID m) k) false])) ;;
      mret (length (transactions k))
  end.

(** The calls that change the kernel. *)
Inductive op : Type :=
| OpActivate (p : NativePlugin)
| OpDeactivate (id : string)
| OpPrepare (p : NativePlugin)
| OpCommit (tx : nat)
| OpRollback (tx : nat)
| OpMountRoutes (visit : list string → list string) (root : Root).

Definition step (o : op) (k : kernel) : kernel :=
  match o with
  | OpActivate p => run (Activate p) k
  | OpDeactivate id => run (Deactivate id) k
  | OpPrepare p => run (Prepare p) k
  | OpCommit tx => run (Commit tx) k
  | OpRollback tx => run (Rollback tx) k
  | OpMountRoutes visit root => run (MountRoutes visit root) k
  end.

Definition execute (ops : list op) (k : kernel) : kernel := fold_left (λ k o, step o k) ops k.

(** ** Lemmas *)

Lemma run_check m k : run (check_dependencies m) k = k.
Proof. unfold check_dependencies. rewrite run_bind. simpl. by case_match. Qed.

Lemma out_check m k :
  out (check_dependencies m) k =
    if PluginGraph.Empty (Graph_Validate quote platform order m (installed k)) then Ok tt
    else Err (Error (ErrDependencies (ID m)
      (PluginGraph.Error (Graph_Validate quote platform order m (installed k))))).
Proof. unfold check_dependencies. rewrite out_bind. simpl. by case_match. Qed.

Lemma check_then {A} m (c : K A) k :
  (check_dependencies m ;; c) k =
    let report := Graph_Validate quote platform order m (installed k) in
    if PluginGraph.Empty report then c k
    else (k, Err (Error (ErrDependencies (ID m) (PluginGraph.Error report)))).
Proof. unfold check_dependencies, mbind, M_bind, gets, id. cbv beta iota zeta. by destruct (PluginGraph.Empty _). Qed.

Lemma Activate_launch p k :
  let m := plugin_Manifest p in
  let report := Graph_Validate quote platform order m (installed k) in
  Activate p k =
    match Validate m with
    | Some e => (k, Err (Error (ErrInvalidManifest e)))
    | None =>
        if PluginGraph.Empty report then launch p m true (gets (Get (ID m))) k
        else (k, Err (Error (ErrDependencies (ID m) (PluginGraph.Error report))))
    end.
Proof. intros m report. unfold Activate. fold m. destruct (Validate m); [done|]. apply check_then. Qed.

Lemma Activate_ok p : preserves kernel_ok (Activate p).
Proof.
  intros k Hk. unfold run. rewrite Activate_launch. case_match; [done|]. case_match; [|done].
  apply (la_ok _ _ _ _ _ (launch_spec p (plugin_Manifest p) true (gets (Get _)) k Hk (λ _ _, conj eq_refl eq_refl))).
Qed.

Lemma Prepare_run p k :
  run (Prepare p) k = k ∨ ∃ t, run (Prepare p) k = set_transactions (transactions k ++ [t]) k.
Proof.
  unfold Prepare. destruct (Validate _); [by left|]. rewrite run_bind, run_check.
  destruct (out (check_dependencies _) k); [|by left]. right. by eexists.
Qed.

Lemma step_ok o k : kernel_ok k → kernel_ok (step o k).
Proof.
  intros Hk. destruct o as [p|id|p|tx|tx|visit root]; simpl.
  - by apply Activate_ok.
  - by apply Deactivate_ok.
  - destruct (Prepare_run p k) as [->|[t ->]]; [done|by apply ok_transactions].
  - by apply Commit_ok.
  - by apply ok_transactions.
  - by apply MountRoutes_ok.
Qed.

(** A successful activation is a successful launch. *)
Lemma Activate_success p k ptr :
  kernel_ok k → out (Activate p) k = Ok ptr →
  let c := launch p (plugin_Manifest p) true (gets (Get (ID (plugin_Manifest p)))) in
  run (Activate p) k = run c k ∧ out c k = Ok ptr ∧
  ∃ j, heap (run (Activate p) k) !! ptr = Some j ∧ running j.
Proof.
  intros Hk Ho c. assert (Activate p k = c k) as Hc.
  { revert Ho. unfold out. rewrite Activate_launch. destruct (Validate _); [done|].
    by destruct (PluginGraph.Empty _). }
  assert (out c k = Ok ptr) as Hoc by (unfold out in *; congruence).
  assert (run (Activate p) k = run c k) as Hrc by (unfold run; congruence).
  split_and!; [done|done|]. rewrite Hrc.
  destruct (launch_spec p (plugin_Manifest p) true (gets (Get _)) k Hk (λ _ _, conj eq_refl eq_refl))
    as [_ _ _ Hdone]. destruct (Hdone ptr Hoc) as (_&(j&Hj&_&Hr)&_). by exists j.
Qed.

(** * Properties *)

(** C33: whatever plugins are activated, deactivated, prepared, committed and
    rolled back, in any order and with any outcome, failing and panicking start
    hooks included, every installed id names an instance with that id that is
    either running or stopped, never half started, and the capability registry
    holds exactly the capabilities that the manifests of the installed
    instances declare, each in the scope of its manifest. *)
Theorem kernel_invariant ops w s :
  let k := execute ops (NewManager w s) in
  (∀ id ptr, instances k !! id = Some ptr →
     ∃ i, heap k !! ptr = Some i ∧ ID (manifest i) = id ∧ settled i) ∧
  (∀ scopeID capability id, id ∈ Providers scopeID capability (registry k) ↔
     ∃ ptr i, instances k !! id = Some ptr ∧ heap k !! ptr = Some i ∧
       Scope (manifest i) = scopeID ∧ capability ∈ PluginManifest.Provides (manifest i)) ∧
  (∀ scopeID capability, NoDup (Providers scopeID capability (registry k))).
Proof.
  intros k. assert (kernel_ok k) as Hk.
  { subst k. unfold execute. generalize (NewManager_ok w s). generalize (NewManager w s).
    induction ops as [|o ops IH]; intros k0 Hk0; simpl; [done|]. by apply IH, step_ok. }
  split_and!.
  - apply (ok_instance k Hk).
  - intros sc c id. unfold Providers. rewrite SortStrings_perm. apply (ok_registry k Hk).
  - intros sc c. unfold Providers. rewrite SortStrings_perm. apply wf_recorded, Hk.
Qed.

(** C34: activation is transactional. A call that fails, whether the manifest, the
    dependencies or the start hook is at fault or the hook panics, leaves the
    installed instances, each of them as it was, and the registry; a call that
    succeeds has checked the manifest and the dependencies, installs one new
    running instance under the plugin's id and leaves the instance it replaces
    stopped. *)
Theorem activation_transactional p k :
  kernel_ok k →
  let m := plugin_Manifest p in
  let k' := run (Activate p) k in
  match out (Activate p) k with
  | Err _ =>
      instances k' = instances k ∧ registry k' = registry k ∧
      ∀ id q, instances k !! id = Some q → heap k' !! q = heap k !! q
  | Ok ptr =>
      Validate m = None ∧
      PluginGraph.Empty (Graph_Validate quote platform order m (installed k)) = true ∧
      instances k' = <[ID m := ptr]> (instances k) ∧
      (∃ i, heap k' !! ptr = Some i ∧ manifest i = m ∧ running i) ∧
      ∀ old j, instances k !! ID m = Some old → heap k' !! old = Some j → stopped j
  end.
Proof.
  intros Hk m k'. subst k'. unfold run, out. rewrite Activate_launch. fold m.
  destruct (Validate m) as [e|] eqn:Hv; [by split_and!|].
  destruct (PluginGraph.Empty _) eqn:He; [|by split_and!].
  destruct (launch_spec p m true (gets (Get (ID m))) k Hk (λ _ _, conj eq_refl eq_refl))
    as [_ _ Herr Hdone]. unfold run, out in *.
  destruct ((launch p m true _ k).2) as [ptr|f] eqn:Ho.
  - destruct (Hdone ptr eq_refl) as (?&?&?). by split_and!.
  - exact (Herr f eq_refl).
Qed.

(** A prepared transaction is applied at most once, and only over the instance
    it was prepared against: after a commit or a rollback, and when another
    instance has been installed under the id meanwhile, committing changes
    neither the instances nor the registry; a commit that starts the
    candidate behaves like an activation, and one whose candidate fails to
    start leaves both as they were. *)
Theorem commit_transactional tx t k :
  kernel_ok k → transactions k !! tx = Some t →
  let id := ID (tx_manifest t) in
  let k' := run (Commit tx) k in
  let untouched := instances k' = instances k ∧ registry k' = registry k ∧
    ∀ id q, instances k !! id = Some q → heap k' !! q = heap k !! q in
  (∃ t', transactions k' !! tx = Some t' ∧ done t' = true) ∧
  (done t = true → k' = k ∧ out (Commit tx) k = Ok (Get id k)) ∧
  (done t = false → instances k !! id ≠ prior t →
     untouched ∧ out (Commit tx) k = Err (Error (ErrStale id))) ∧
  (done t = false → instances k !! id = prior t →
     match out (Commit tx) k with
     | Err _ => untouched
     | Ok None => False
     | Ok (Some ptr) =>
         instances k' = <[id := ptr]> (instances k) ∧
         (∃ i, heap k' !! ptr = Some i ∧ manifest i = tx_manifest t ∧ running i) ∧
         ∀ old j, prior t = Some old → heap k' !! old = Some j → stopped j
     end).
Proof.
  intros Hk Ht id k' untouched. subst k'.
  assert (transactions (set_done tx k) !! tx =
    Some (mkTx (candidate t) (tx_manifest t) (prior t) true)) as Hdone.
  { simpl. by rewrite list_lookup_alter_eq, Ht. }
  destruct (done t) eqn:Hd.
  { assert (Commit tx k = (k, Ok (Get id k))) as Hc.
    { unfold Commit, mbind, M_bind, gets. cbv beta iota zeta. by rewrite Ht, Hd. }
    subst untouched. unfold run, out. rewrite Hc. split_and!; try done. by exists t. }
  destruct (decide (instances k !! id = prior t)) as [Hp|Hp].
  - destruct (Commit_spec tx t k Hk Ht Hd Hp) as [_ Htx Herr Hok].
    destruct (Commit_launch tx t k Ht Hd Hp) as [Hrun Hout]. subst untouched. rewrite Hrun, Hout.
    split_and!; [|done|done|]; [rewrite Htx; by eexists|]. intros _ _.
    destruct (out (launch _ _ _ _) _) as [ptr|f]; [|by apply (Herr f)].
    destruct (Hok ptr eq_refl) as (Hi&Hnew&Hold). split_and!; [done|done|].
    intros old j Hpr. apply Hold. by rewrite <- Hpr.
  - assert (Commit tx k = (set_done tx k, Err (Error (ErrStale id)))) as Hc.
    { unfold Commit, mbind, M_bind, gets. cbv beta iota zeta. rewrite Ht, Hd. fold id. unfold Get.
      by rewrite bool_decide_true. }
    subst untouched. unfold run, out. rewrite Hc. split_and!; try done. by eexists.
Qed.

(** What stopping an instance takes away, and when that is too much. A stopped
    instance leaves no route and no schedule that it registered. But the
    routes and schedules are keyed by the plugin's id, and a reload starts the
    new instance before it stops the old one: after a successful reload the
    running new instance has none of the routes that the old one had mounted,
    and no schedules if the old one had any, whatever it registered itself. *)
Theorem reload_unmounts p k old i ptr :
  kernel_ok k →
  let id := ID (plugin_Manifest p) in
  instances k !! id = Some old → heap k !! old = Some i → running i → reverted (ledger i) = false →
  out (Activate p) k = Ok ptr →
  (∀ prefix, RoutesDisposer id prefix ∈ active (ledger i) →
     no_route id prefix (run (Stop old) k) ∧ no_route id prefix (run (Activate p) k)) ∧
  (ScheduleDisposer id ∈ active (ledger i) →
     no_schedule id (run (Stop old) k) ∧ no_schedule id (run (Activate p) k)) ∧
  ∃ j, heap (run (Activate p) k) !! ptr = Some j ∧ running j.
Proof.
  intros Hk id Hold Hi [Hs Ha] Hr Ho. subst id. set (name := ID (plugin_Manifest p)) in *.
  pose proof (Activate_success p k ptr Hk Ho) as (Hrun&Hout&Hj). fold name in Hrun, Hout.
  destruct (launch_stops p (plugin_Manifest p) true (gets (Get name)) k old i ptr Hk
    (λ _ _, conj eq_refl eq_refl) Hold Hi Hout) as (k2&Hi2&Hro&Hsc).
  destruct (Stop_removes old k i Hi Hs Hr) as [H1 H2].
  destruct (Stop_removes old k2 i Hi2 Hs Hr) as [H3 H4].
  split_and!; [| |exact Hj].
  - intros prefix Hin. split; [by apply H1|]. unfold no_route. rewrite Hrun, Hro. by apply H3.
  - intros Hin. split; [by apply H2|]. unfold no_schedule. rewrite Hrun, Hsc. by apply H4.
Qed.

End Activation.
