(* ===== verification/PluginEffects.v ===== *)
(** * Reversing what a plugin did

    The effect ledger undoes its effects in reverse order; removing routes and
    schedules undoes their registration, with the exceptions that are stated
    here; and a concrete plugin world for the witnesses of the kernel. *)
From S2P Require Import Prelude GoStrings Scope PluginManifest PluginGraph PluginRegistry PluginHost PluginManager.
From Stdlib Require Import Ascii ZArith Lia.

Section Effects.
Context {P : PluginCode} {C : CronLib} {R : RootMux}.

(** ** The ledger *)

(** Disposing right after an effect restores the world; an effect that fails or
    has no disposer has changed nothing. *)
Definition reversible : Prop := ∀ e x x' r, run_effect e x = (x', r) →
  match r with
  | Ok (Some d) => run_disposer d x' = (x, None)
  | Ok None | Err _ => x' = x
  end.

(** Running the active disposers in reverse order leads back to [k0]. *)
Definition undoes (k0 : kernel) (l : Ledger) (k : kernel) : Prop :=
  revert_loop (reverse (active l)) None k = (k0, None) ∧ reverted l = false.

Lemma set_world_same k x : set_world (world k) (set_world x k) = k.
Proof. by destruct k. Qed.

Lemma run_Effect_undo e k k1 r :
  reversible → run_Effect (PluginEffect e) k = (k1, r) →
  match r with
  | Ok (Some d) => run_Disposer d k1 = (k, None)
  | Ok None | Err _ => k1 = k
  end.
Proof.
  intros Hrev. simpl. destruct (run_effect e (world k)) as [w r'] eqn:He.
  specialize (Hrev e (world k) w r' He). intros [= <- <-].
  destruct r' as [[d|]|err]; simpl.
  - simpl in Hrev. rewrite Hrev. by rewrite set_world_same.
  - subst w. by destruct k.
  - subst w. by destruct k.
Qed.

Lemma revertLocked_undoes k0 l k :
  undoes k0 l k → revertLocked l k = (k0, mkLedger (effects l) [] true, None).
Proof. intros [Hu _]. unfold revertLocked. by rewrite Hu. Qed.

Lemma run_loop_undo es l k k0 :
  reversible → undoes k0 l k →
  match run_loop (PluginEffect <$> es) l k with
  | (k1, l1, None) => undoes k0 l1 k1
  | (k1, l1, Some _) => k1 = k0 ∧ l1 = mkLedger (effects l1) [] true
  end.
Proof.
  intros Hrev. revert l k. induction es as [|e es IH]; intros l k Hu; [done|].
  rewrite fmap_cons. cbn [run_loop].
  destruct (run_Effect (PluginEffect e) k) as [k1 r] eqn:He.
  pose proof (run_Effect_undo e k k1 r Hrev He) as Hr. destruct r as [[d|]|err].
  - apply IH. destruct Hu as [Hu Hf]. split; [|done]. cbn [active].
    rewrite reverse_app. cbn [reverse rev_append app revert_loop]. by rewrite Hr.
  - apply IH. by subst k1.
  - subst k1. by rewrite (revertLocked_undoes k0 l k Hu).
Qed.

(** Loading a plugin's effects and unloading them is a clean undo. If
    disposing right after an effect undoes it and failing effects change
    nothing, then a ledger that ran all its effects is reverted, in reverse
    order and whatever the effects share, to exactly the kernel it started
    from; a run that fails half way has already gone back to it; and a ledger
    is used once: reverting it again does nothing and running it again is
    refused. *)
Theorem ledger_undo es k :
  reversible →
  let l := mkLedger (PluginEffect <$> es) [] false in
  match Run l k with
  | (k1, l1, None) =>
      ∃ l2, Revert l1 k1 = (k, l2, None) ∧ active l2 = [] ∧
        (∀ k', Revert l2 k' = (k', l2, None)) ∧ ∀ k', Run l2 k' = (k', l2, Some ErrLedgerReverted)
  | (k1, l1, Some _) =>
      k1 = k ∧ active l1 = [] ∧
      (∀ k', Revert l1 k' = (k', l1, None)) ∧ ∀ k', Run l1 k' = (k', l1, Some ErrLedgerReverted)
  end.
Proof.
  intros Hrev l. unfold Run. cbn [reverted l].
  pose proof (run_loop_undo es l k k Hrev (conj eq_refl eq_refl)) as Hu.
  change (effects l) with (PluginEffect <$> es).
  destruct (run_loop _ l k) as [[k1 l1] [err|]]; cbn [fmap option_fmap option_map].
  - destruct Hu as [-> ->]. by split_and!.
  - exists (mkLedger (effects l1) [] true). unfold Revert at 1. rewrite (proj2 Hu).
    rewrite (revertLocked_undoes k l1 k1 Hu). by split_and!.
Qed.

(** ** Routes *)

Lemma registerPluginRoutes_ok id prefix sub k :
  let key := TrimRight (TrimSpace prefix) in
  out (registerPluginRoutes true id prefix (Some sub)) k = Ok tt →
  (negb (HasPrefix key "/") || bool_decide (key = "/") = false) ∧
  (∀ r, routes k !! key = Some r → pluginID r = id) ∧
  let k1 := run (registerPluginRoutes true id prefix (Some sub)) k in
  routes k1 = <[key := mkRoute id sub]> (routes k) ∧
  match routeRoot k with
  | None => routeRoot k1 = None
  | Some root => ∃ root', mountRouteLocked key root = Some root' ∧ routeRoot k1 = Some root'
  end.
Proof.
  intros key. unfold registerPluginRoutes. fold key. destruct (negb _ || _); [done|].
  cbn [negb]. rewrite run_bind, out_bind. cbn [gets run out fst snd].
  set (check := match routes k !! key with Some e => _ | None => _ end).
  assert (run check k = k ∧ (out check k = Ok tt → ∀ r, routes k !! key = Some r → pluginID r = id))
    as [Hrun Hown].
  { subst check. destruct (routes k !! key) as [e|]; [|done]. case_bool_decide as He; [done|].
    split; [done|]. by intros _ r [= <-]. }
  rewrite run_bind, out_bind. destruct (out check k) as [[]|] eqn:Hc; [|done]. rewrite Hrun.
  rewrite run_bind, out_bind. cbn [update run out fst snd]. rewrite run_bind, out_bind.
  cbn [gets run out fst snd]. change (routeRoot (set_routes _ k)) with (routeRoot k).
  intros Ho. split; [done|]. split; [by apply Hown|]. revert Ho.
  destruct (routeRoot k) as [root|] eqn:Hroot; [|done].
  destruct (mountRouteLocked key root) as [root'|]; [|done]. intros _. split; [done|]. by exists root'.
Qed.

Lemma mounted_patterns `{!RootMuxLaws} prefix root root' :
  mountRouteLocked prefix root = Some root' → prefix ∈ patterns root'.
Proof.
  unfold mountRouteLocked. intros (r1&H1&H2)%bind_Some.
  rewrite (Handle_patterns _ _ _ H2), (Handle_patterns _ _ _ H1). set_solver.
Qed.

Lemma mount_panics `{!RootMuxLaws} prefix root :
  prefix ∈ patterns root → mountRouteLocked prefix root = None.
Proof. intros Hin. unfold mountRouteLocked. by rewrite Handle_twice. Qed.

(** Registering below a mounted prefix once more. *)
Lemma register_again `{!RootMuxLaws} id prefix sub k root :
  let key := TrimRight (TrimSpace prefix) in
  negb (HasPrefix key "/") || bool_decide (key = "/") = false →
  (∀ r, routes k !! key = Some r → pluginID r = id) →
  routeRoot k = Some root → key ∈ patterns root →
  out (registerPluginRoutes true id prefix (Some sub)) k = Err Panic.
Proof.
  intros key Hkey Hown Hroot Hin. unfold registerPluginRoutes. fold key. rewrite Hkey. cbn [negb].
  rewrite out_bind. cbn [gets run out fst snd].
  set (check := match routes k !! key with Some e => _ | None => _ end).
  assert (check k = (k, Ok tt)) as Hc.
  { subst check. destruct (routes k !! key) as [e|] eqn:Hr; [|done].
    rewrite bool_decide_false; [done|]. intros Hne. by apply Hne, Hown. }
  rewrite out_bind. unfold run at 1, out at 1. rewrite Hc. cbn [fst snd].
  rewrite out_bind. cbn [update run out fst snd]. rewrite out_bind. cbn [gets run out fst snd].
  change (routeRoot (set_routes _ k)) with (routeRoot k). rewrite Hroot.
  by rewrite (mount_panics key root Hin).
Qed.

Lemma remove_routeRoot id prefix k : routeRoot (removePluginRoutes id prefix k) = routeRoot k.
Proof. unfold removePluginRoutes. destruct (routes k !! prefix); [|done]. by case_bool_decide. Qed.

Lemma remove_sub id prefix k : routes (removePluginRoutes id prefix k) ⊆ routes k.
Proof. apply (Disposer_routes (RoutesDisposer id prefix)). Qed.

Lemma remove_owned id prefix k sub :
  routes k !! prefix = Some (mkRoute id sub) →
  removePluginRoutes id prefix k = set_routes (delete prefix (routes k)) k.
Proof.
  intros Hr. unfold removePluginRoutes. rewrite Hr. cbn [pluginID].
  case_bool_decide as Hne; [by destruct Hne|done].
Qed.

(** Registering a route prefix serves it, and removing it with the prefix it
    was registered under takes exactly that route away, but with two defects:
    a prefix that was given with a trailing slash or blanks is registered
    without them and then not found when it is removed, so the route stays;
    and once the routes are mounted on the root mux, a prefix can never be
    registered again, removed or not: the second registration, such as that
    of a plugin that is activated again, panics. *)
Theorem route_removal `{!RootMuxLaws} id prefix sub k :
  let key := TrimRight (TrimSpace prefix) in
  let k1 := run (registerPluginRoutes true id prefix (Some sub)) k in
  out (registerPluginRoutes true id prefix (Some sub)) k = Ok tt →
  ServeHTTP key k1 = Some sub ∧
  (prefix = key → ServeHTTP key (removePluginRoutes id prefix k1) = None ∧
     ∀ other, other ≠ key → ServeHTTP other (removePluginRoutes id prefix k1) = ServeHTTP other k) ∧
  (prefix ≠ key → routes k !! prefix = None → removePluginRoutes id prefix k1 = k1) ∧
  (is_Some (routeRoot k) → ∀ sub',
     out (registerPluginRoutes true id prefix (Some sub')) k1 = Err Panic ∧
     out (registerPluginRoutes true id prefix (Some sub')) (removePluginRoutes id prefix k1) = Err Panic).
Proof.
  intros key k1 Ho. destruct (registerPluginRoutes_ok id prefix sub k Ho) as (Hkey&Hown&Hro&Hroot).
  fold key in Hkey, Hown, Hro, Hroot. fold k1 in Hro, Hroot. split_and!.
  - unfold ServeHTTP. by rewrite Hro, lookup_insert_eq.
  - intros Hp. rewrite (remove_owned id prefix k1 sub), <- Hp
      by (by rewrite Hro, <- Hp, lookup_insert_eq).
    unfold ServeHTTP. cbn [routes set_routes]. rewrite Hro, <- Hp. split.
    + by rewrite lookup_delete_eq.
    + intros other Hne. by rewrite lookup_delete_ne, lookup_insert_ne.
  - intros Hp Hn. unfold removePluginRoutes. by rewrite Hro, lookup_insert_ne, Hn.
  - intros [root Hr] sub'. rewrite Hr in Hroot. destruct Hroot as (root'&Hm&Hroot).
    apply mounted_patterns in Hm. split.
    + apply (register_again _ _ _ _ root'); try done. fold key. rewrite Hro, lookup_insert_eq.
      by intros r [= <-].
    + apply (register_again _ _ _ _ root'); try done; [|by rewrite remove_routeRoot]. fold key.
      intros r Hrr. eapply lookup_weaken in Hrr; [|apply (remove_sub id prefix k1)].
      rewrite Hro, lookup_insert_eq in Hrr. by injection Hrr as <-.
Qed.

(** ** Schedules *)

Definition jobs (k : kernel) : gmap nat Fn :=
  match schedCron k with Some c => entries c | None => ∅ end.

Lemma registerSchedule_ok `{!CronLaws} id name spec fn k :
  out (registerSchedule true id name spec (Some fn)) k = Ok tt →
  let k1 := run (registerSchedule true id name spec (Some fn)) k in
  ∃ i, jobs k !! i = None ∧ jobs k1 = <[i := fn]> (jobs k) ∧ is_Some (schedCron k1) ∧
    schedEntries k1 = <[id := <[TrimSpace name := i]> (default ∅ (schedEntries k !! id))]> (schedEntries k).
Proof.
  unfold registerSchedule. case_bool_decide; [done|]. destruct (validate _ _ spec); [done|]. cbn [negb].
  set (c := match schedCron k with Some c => c | None => cron_new end).
  assert (entries c = jobs k) as Hc.
  { subst c. unfold jobs. destruct (schedCron k); [done|]. apply cron_new_entries. }
  assert (out scheduleCron k = Ok c ∧ schedEntries (run scheduleCron k) = schedEntries k) as [Ho Hs].
  { subst c. unfold scheduleCron. rewrite out_bind, run_bind. cbn [gets run out fst snd].
    by destruct (schedCron k). }
  rewrite out_bind, run_bind, Ho. destruct (AddFunc (expression spec) fn c) as [c' [i|e]] eqn:Ha.
  - intros _. destruct (AddFunc_ok _ _ _ _ _ Ha) as [Hi Hc']. exists i. rewrite Hc in Hi, Hc'.
    split_and!; [done|done|by eexists|]. rewrite <- Hs. done.
  - rewrite out_bind. done.
Qed.

Lemma removed_entries `{!CronLaws} ids c :
  entries (fold_right Remove c ids) = fold_right delete (entries c) ids.
Proof. induction ids as [|i ids IH]; simpl; [done|]. by rewrite Remove_entries, IH. Qed.

Lemma removeSchedules_jobs `{!CronLaws} id name i k :
  schedEntries k !! id = Some {[ name := i ]} → is_Some (schedCron k) →
  jobs (removeSchedules id k) = delete i (jobs k).
Proof.
  intros Hid [c Hc]. unfold removeSchedules, jobs. rewrite Hid. cbn. rewrite Hc. cbn.
  rewrite removed_entries, map_to_list_singleton. done.
Qed.

(** Removing a plugin's schedules undoes a registration, but not a second one
    under the same name, which is what a reload is: afterwards the scheduler
    is back to the jobs it had before the second registration, so that the
    job of the replaced instance keeps running, with no record of it left by
    which it could be removed. *)
Theorem schedule_removal `{!CronLaws} id name spec1 spec2 fn1 fn2 k :
  let k1 := run (registerSchedule true id name spec1 (Some fn1)) k in
  let k2 := run (registerSchedule true id name spec2 (Some fn2)) k1 in
  schedEntries k !! id = None →
  out (registerSchedule true id name spec1 (Some fn1)) k = Ok tt →
  out (registerSchedule true id name spec2 (Some fn2)) k1 = Ok tt →
  jobs (removeSchedules id k1) = jobs k ∧
  jobs (removeSchedules id k2) = jobs k1 ∧
  (∃ i, jobs k !! i = None ∧ jobs (removeSchedules id k2) !! i = Some fn1) ∧
  schedEntries (removeSchedules id k2) !! id = None.
Proof.
  intros k1 k2 Hn H1 H2.
  destruct (registerSchedule_ok _ _ _ _ _ H1) as (i&Hi&Hj1&Hc1&Hs1). fold k1 in Hj1, Hc1, Hs1.
  destruct (registerSchedule_ok _ _ _ _ _ H2) as (j&Hj&Hj2&Hc2&Hs2). fold k2 in Hj2, Hc2, Hs2.
  rewrite Hn in Hs1. cbn [default] in Hs1.
  assert (jobs (removeSchedules id k2) = jobs k1) as Hr.
  { rewrite (removeSchedules_jobs id (TrimSpace name) j); [| |done]; last first.
    { rewrite Hs2, Hs1, !lookup_insert_eq. cbn [default Datatypes.id]. by rewrite insert_insert_eq. }
    rewrite Hj2. by apply delete_insert_id. }
  split_and!.
  - rewrite (removeSchedules_jobs id (TrimSpace name) i); [|by rewrite Hs1, lookup_insert_eq|done].
    rewrite Hj1. by apply delete_insert_id.
  - done.
  - exists i. rewrite Hr, Hj1. split; [done|]. apply lookup_insert_eq.
  - apply (ScheduleDisposer_no_schedule id k2).
Qed.

End Effects.

(** ** A concrete world

    Plugin effects push their number on a list and disposers pop it; the cron
    library is a table with a counter; the root mux a set of patterns. *)
Module Concrete.

#[export] Instance code : PluginCode := {|
  X := list nat; Eff := nat; Disp := nat; Fn := nat; Mux := nat; Config := unit;
  run_effect e x := (e :: x, Ok (Some e));
  run_disposer d x := (tail x, None);
|}.

#[export] Instance cron : CronLib := {|
  Cron := nat * gmap nat nat;
  cron_new := (0, ∅);
  ParseStandard expr := if bool_decide (expr = "* * * * *") then None else Some "bad expression";
  AddFunc expr fn c := if decide (c.2 !! c.1 = None) then ((S c.1, <[c.1 := fn]> c.2), Ok c.1)
                       else (c, Err "full");
  Remove i c := (c.1, delete i c.2);
  entries c := c.2;
|}.

#[export] Instance cron_laws : CronLaws.
Proof.
  split; simpl.
  - done.
  - intros expr fn c c' i. case_decide; [|done]. by intros [= <- <-].
  - intros expr fn c c' e. case_decide; [done|]. by intros [= <- <-].
  - done.
Qed.

#[export] Instance root : RootMux := {|
  Root := gset string;
  Handle p r := if decide (p ∈ r) then None else Some ({[ p ]} ∪ r);
  patterns r := r;
|}.

#[export] Instance root_laws : RootMuxLaws.
Proof.
  split; simpl.
  - intros p r r'. case_decide; [done|]. by intros [= <-].
  - intros p r Hp. by rewrite decide_True.
Qed.

Lemma code_reversible : reversible.
Proof. intros e x x' r. simpl. by intros [= <- <-]. Qed.

Definition manifest_of (id : string) (provides : list string) : Manifest :=
  mkManifest id "1" "org:x" [] provides.
Definition start : kernel := NewManager [] (mkServices "" "" "" tt).

(** A plugin with an effect, a route and a schedule. *)
Definition demo (route job : nat) : NativePlugin :=
  mkPlugin (manifest_of "demo" ["x:y@1"])
    (RegisterEffect (Some 7) (RegisterRoutes "/demo" (Some route) (λ _,
      RegisterSchedule "tick" (mkSpec "* * * * *" 0) (Some job) (λ _, Done None))))
    id None.
(** A plugin whose start hook fails after it registered a route. *)
Definition broken : NativePlugin :=
  mkPlugin (manifest_of "broken" ["x:z"])
    (RegisterRoutes "/broken" (Some 5) (λ _, Done (Some "no"))) id None.

Notation Activate p := (Activate id None (λ _ l, l) p).
Definition loaded : kernel := run (Activate (demo 1 10)) start.

Lemma loaded_ok : kernel_ok loaded.
Proof. apply (Activate_ok id None (λ _ l, l)), NewManager_ok. Qed.

End Concrete.
Import Concrete.

Lemma activation_transactional_witness :
  instances (run (Activate (demo 1 10)) start) = {[ "demo" := 0 ]} ∧
  instances (run (Activate broken) loaded) = instances loaded ∧
  routes (run (Activate broken) loaded) !! "/broken" = Some (mkRoute "broken" 5).
Proof.
  assert (out (Activate (demo 1 10)) start = Ok 0) as Ho1 by (vm_compute; reflexivity).
  assert (out (Activate broken) loaded = Err (Error (ErrStart "broken" (ErrPlugin "no")))) as Ho2
    by (vm_compute; reflexivity).
  pose proof (activation_transactional id None (λ _ l, l) (demo 1 10) start (NewManager_ok _ _)) as H1.
  pose proof (activation_transactional id None (λ _ l, l) broken loaded loaded_ok) as H2.
  cbv zeta in H1, H2. rewrite Ho1 in H1. rewrite Ho2 in H2. split_and!.
  - exact (proj1 (proj2 (proj2 H1))).
  - exact (proj1 H2).
  - vm_compute. reflexivity.
Defined.

Definition update_demo : NativePlugin := mkPlugin (manifest_of "demo" []) (Done None) id None.
Definition prepared : kernel := run (Prepare id None (λ _ l, l) update_demo) loaded.

Lemma prepared_ok : kernel_ok prepared.
Proof. apply (step_ok id None (λ _ l, l) (OpPrepare update_demo)), loaded_ok. Qed.

Lemma commit_transactional_witness :
  instances (run (Commit 0) prepared) = <[ "demo" := 1 ]> (instances prepared) ∧
  run (Commit 0) (run (Rollback 0) prepared) = run (Rollback 0) prepared.
Proof.
  assert (transactions prepared !! 0 = Some (mkTx update_demo (manifest_of "demo" []) (Some 0) false))
    as Ht by (vm_compute; reflexivity).
  assert (out (Commit 0) prepared = Ok (Some 1)) as Ho by (vm_compute; reflexivity).
  assert (instances prepared !! "demo" = Some 0) as Hi by (vm_compute; reflexivity).
  split.
  - destruct (commit_transactional 0 _ prepared prepared_ok Ht) as (_&_&_&H).
    specialize (H eq_refl Hi). rewrite Ho in H. exact (proj1 H).
  - assert (transactions (run (Rollback 0) prepared) !! 0 =
      Some (mkTx update_demo (manifest_of "demo" []) (Some 0) true)) as Ht' by (vm_compute; reflexivity).
    destruct (commit_transactional 0 _ (run (Rollback 0) prepared)
      (ok_transactions _ _ prepared_ok) Ht') as (_&H&_).
    exact (proj1 (H eq_refl)).
Defined.

Lemma reload_unmounts_witness :
  ServeHTTP "/demo" loaded = Some 1 ∧
  out (Activate (demo 2 20)) loaded = Ok 1 ∧
  no_route "demo" "/demo" (run (Activate (demo 2 20)) loaded) ∧
  no_schedule "demo" (run (Activate (demo 2 20)) loaded).
Proof.
  assert (out (Activate (demo 2 20)) loaded = Ok 1) as Ho by (vm_compute; reflexivity).
  assert ((λ i, (started i, state i, reverted (ledger i), active (ledger i))) <$> heap loaded !! 0 =
    Some (true, StateActive, false,
      [PluginDisposer 7; RoutesDisposer "demo" "/demo"; ScheduleDisposer "demo"])) as Hf
    by (vm_compute; reflexivity).
  apply fmap_Some in Hf as (i&Hi&Hf). injection Hf as Hs Hst Hr Ha. symmetry in Hs, Hst, Hr, Ha.
  assert (instances loaded !! "demo" = Some 0) as Hins by (vm_compute; reflexivity).
  destruct (reload_unmounts id None (λ _ l, l) (demo 2 20) loaded 0 i 1 loaded_ok Hins Hi
    (conj Hs Hst) Hr Ho) as (H1&H2&_).
  split_and!.
  - vm_compute. reflexivity.
  - exact Ho.
  - apply H1. rewrite Ha. right. left.
  - apply H2. rewrite Ha. right. right. left.
Defined.

Lemma ledger_undo_witness :
  let l := mkLedger (PluginEffect <$> [1; 2; 3]) [] false in
  let l1 := mkLedger (PluginEffect <$> [1; 2; 3]) (PluginDisposer <$> [1; 2; 3]) false in
  Run l start = (set_world [3; 2; 1] start, l1, None) ∧
  ∃ l2, Revert l1 (set_world [3; 2; 1] start) = (start, l2, None).
Proof.
  intros l l1. assert (Run l start = (set_world [3; 2; 1] start, l1, None)) as Hr by reflexivity.
  pose proof (ledger_undo [1; 2; 3] start code_reversible) as H. cbv zeta in H. fold l in H.
  rewrite Hr in H. split; [exact Hr|]. destruct H as (l2&H&_). exists l2. exact H.
Defined.

Lemma route_removal_witness :
  let k := set_routeRoot (Some ∅) start in
  let k1 := run (registerPluginRoutes true "p" "/a/" (Some 3)) k in
  removePluginRoutes "p" "/a/" k1 = k1 ∧ ServeHTTP "/a" k1 = Some 3 ∧
  out (registerPluginRoutes true "p" "/a/" (Some 4)) k1 = Err Panic.
Proof.
  intros k k1. destruct (route_removal (P := code) "p" "/a/" 3 k) as (H1&_&H2&H3); [vm_compute; reflexivity|].
  split_and!.
  - apply H2; [vm_compute; discriminate|reflexivity].
  - exact H1.
  - apply (H3 (ex_intro _ ∅ eq_refl) 4).
Defined.

Lemma schedule_removal_witness :
  let s := mkSpec "* * * * *" 0 in
  let k1 := run (registerSchedule true "p" "tick" s (Some 1)) start in
  let k2 := run (registerSchedule true "p" "tick" s (Some 2)) k1 in
  jobs (removeSchedules "p" k1) = ∅ ∧ jobs (removeSchedules "p" k2) = jobs k1 ∧
  jobs k1 !! 0 = Some 1.
Proof.
  intros s k1 k2. destruct (schedule_removal (P := code) "p" "tick" s s 1 2 start) as (H1&H2&_);
    [reflexivity|vm_compute; reflexivity|vm_compute; reflexivity|].
  split_and!; [exact H1|exact H2|vm_compute; reflexivity].
Defined.
