(* ===== verification/WorkflowFrame.v ===== *)
(** * Durable workflows: what the programs of the engine leave alone

    Running a node changes the slot of that node and nothing else, and never its
    name, its references or its specs ([touches]). The programs around the
    nodes keep the graph and the counters of the edges ([evolves]). *)
From S2P Require Import Prelude GoStrings GoRunes JSON Cycles FlowModel FlowContracts FlowGraph FlowValidate WorkflowTypes WorkflowConditions WorkflowEngine WorkflowRun WorkflowOps WorkflowGraph.
From Stdlib Require Import Ascii ZArith Lia.

Section Frame.
Context {U : Unicode} {F : FlowLib} {L : WorkflowLib} {J : JSONLib} {W : Type} {V : Services W}.

Abbreviation P := (M (engine W) string).

(** A call of the world answers, and changes the world only. *)
Lemma run_call {A B} (f : W → A * W) (k : A → P B) e :
  run (call f ≫= k) e = run (k (f (world e)).1) (mkEngine (f (world e)).2 (disk e) (wf e)).
Proof. unfold run, call, mbind, M_bind. by destruct (f (world e)). Qed.

Lemma out_call {A B} (f : W → A * W) (k : A → P B) e :
  out (call f ≫= k) e = out (k (f (world e)).1) (mkEngine (f (world e)).2 (disk e) (wf e)).
Proof. unfold out, call, mbind, M_bind. by destruct (f (world e)). Qed.

(** ** One slot *)

Definition touches (i : nat) (e e' : engine W) : Prop :=
  disk e' = disk e ∧ Summary (wf e') = Summary (wf e) ∧ WEdges (wf e') = WEdges (wf e) ∧
  ∃ f, (∀ n, fixed (f n) = fixed n) ∧ WNodes (wf e') = alter f i (WNodes (wf e)).

#[export] Instance touches_preorder i : PreOrder (touches i).
Proof.
  split.
  - intros e. split_and!; [done..|]. exists (λ n, n). split; [done|]. by rewrite list_alter_id.
  - intros e1 e2 e3 (Hd&Hs&He&f&Hf&Hn) (Hd'&Hs'&He'&f'&Hf'&Hn').
    split_and!; [by etrans|by etrans|by etrans|]. exists (f' ∘ f). split; [intros n; cbn; by rewrite Hf', Hf|].
    by rewrite Hn', Hn, list_alter_alter_eq.
Qed.

Lemma touches_call {A} i (f : W → A * W) : respects (touches i) (call f : P A).
Proof.
  intros e. unfold call, run. destruct (f (world e)) as [a w]. cbn.
  split_and!; [done..|]. exists (λ n, n). split; [done|]. by rewrite list_alter_id.
Qed.

Lemma touches_edit i f : (∀ n, fixed (f n) = fixed n) → respects (touches i) (edit i f : P unit).
Proof. intros Hf e. split_and!; [done..|]. by exists f. Qed.

Lemma respects_with_node (R : engine W → engine W → Prop) `{!PreOrder R} {A} i (d : A) k :
  (∀ n, respects R (k n)) → respects R (with_node i d k : P A).
Proof.
  intros Hk. unfold with_node, node. apply respects_bind; [done|apply respects_gets; apply _|].
  intros [n|]; [done|apply respects_ret; apply _].
Qed.

End Frame.

#[export] Hint Resolve touches_call respects_with_node : respect.
#[export] Hint Extern 2 (respects (touches _) (edit _ _)) =>
  apply touches_edit; intros ?; repeat case_match; reflexivity : respect.
#[export] Hint Extern 1 (respects _ state) => apply respects_gets : respect.
#[export] Hint Extern 1 (PreOrder _) => apply _ : respect.

(** Follows the program. *)
Ltac respect :=
  repeat first
    [ progress intros
    | solve [auto with respect]
    | lazymatch goal with
      | |- respects _ (_ ≫= _) => apply respects_bind; [apply _| |]
      | |- respects _ (with_node _ _ _) => apply respects_with_node; [apply _|]
      end
    | progress cbv beta zeta
    | case_match ].

Section Nodes.
Context {U : Unicode} {F : FlowLib} {L : WorkflowLib} {J : JSONLib} {W : Type} {V : Services W}.

Abbreviation P := (M (engine W) string).
Abbreviation slot i m := (respects (touches (W:=W) i) (m : P _)).

Lemma touches_finalize i t : slot i (finalizeWorkflowNodeHandoff i t).
Proof. unfold finalizeWorkflowNodeHandoff. respect. Qed.
#[local] Hint Resolve touches_finalize : respect.

Lemma touches_failed_handoff i : slot i (failed_handoff i).
Proof. unfold failed_handoff. respect. Qed.
#[local] Hint Resolve touches_failed_handoff : respect.

Lemma touches_fail_at i e now : slot i (fail_at i e now).
Proof. unfold fail_at. respect. Qed.
Lemma touches_failNode i m : slot i (failWorkflowNode i m).
Proof. unfold failWorkflowNode. respect. Qed.
Lemma touches_failService i m : slot i (failWorkflowServiceNode i m).
Proof. unfold failWorkflowServiceNode. respect. Qed.
Lemma touches_post i : slot i (runPostScript i).
Proof. unfold runPostScript. respect. Qed.
Lemma touches_completed i p : slot i (completed_handoff i p).
Proof. unfold completed_handoff. respect. Qed.
Lemma touches_retry i a d : slot i (scheduleWorkflowNodeRetry i a d).
Proof. unfold scheduleWorkflowNodeRetry. respect. Qed.
#[local] Hint Resolve touches_fail_at touches_failNode touches_failService touches_post touches_completed
  touches_retry : respect.

Lemma touches_branch i : slot i (executeWorkflowBranch i).
Proof. unfold executeWorkflowBranch, completeWorkflowBranch. respect. Qed.

Lemma touches_completeDecision i r t : slot i (completeWorkflowDecision i r t).
Proof. unfold completeWorkflowDecision. respect. Qed.
#[local] Hint Resolve touches_completeDecision : respect.

Lemma touches_decisionFailure i e : slot i (handleWorkflowDecisionFailure i e).
Proof. unfold handleWorkflowDecisionFailure. respect. Qed.
#[local] Hint Resolve touches_decisionFailure : respect.

Lemma touches_decision i : slot i (executeWorkflowDecision i).
Proof. unfold executeWorkflowDecision. respect. Qed.

Lemma touches_function i : slot i (executeWorkflowFunction i).
Proof. unfold executeWorkflowFunction, completeWorkflowFunction. respect. Qed.

Lemma touches_service i : slot i (executeWorkflowService i).
Proof. unfold executeWorkflowService, completeWorkflowService. respect. Qed.
#[local] Hint Resolve touches_branch touches_decision touches_function touches_service : respect.

Lemma touches_human i : slot i (registerWorkflowHumanTask i).
Proof. unfold registerWorkflowHumanTask. respect. Qed.
Lemma touches_job i now : slot i (start_job i now).
Proof. unfold start_job. respect. Qed.
#[local] Hint Resolve touches_human touches_job : respect.

Lemma touches_kind i now : slot i (start_kind i now).
Proof. unfold start_kind. respect. Qed.
#[local] Hint Resolve touches_kind : respect.

(** Starting a node touches its slot only. *)
Lemma touches_start i : slot i (startWorkflowNode i).
Proof. unfold startWorkflowNode. respect. Qed.

Lemma touches_settle i now st err o j : slot i (settle_job i now st err o j).
Proof. unfold settle_job. respect. Qed.
#[local] Hint Resolve touches_settle : respect.

Lemma touches_refresh i now : slot i (refresh_node now i).
Proof. unfold refresh_node. respect. Qed.

End Nodes.

(** ** The programs around the nodes *)

(** What only growing the graph changes. *)
Definition ledger_of (s : workflowSummary) : string * gmap string (list string) * gmap string Z * gset string :=
  (S_ID s, AppendKeys s, EdgeIterations s, ProcessedEdges s).

Definition same_fixed (n n' : workflowNode) : Prop := fixed n' = fixed n.

Section Evolves.
Context {U : Unicode} {F : FlowLib} {L : WorkflowLib} {J : JSONLib} {W : Type} {V : Services W}.

Abbreviation P := (M (engine W) string).

#[export] Instance same_fixed_preorder : PreOrder same_fixed.
Proof. split; [done|]. intros a b c. unfold same_fixed. congruence. Qed.

Definition evolves (e e' : engine W) : Prop :=
  disk e' = disk e ∧ WEdges (wf e') = WEdges (wf e) ∧
  ledger_of (Summary (wf e')) = ledger_of (Summary (wf e)) ∧
  Forall2 same_fixed (WNodes (wf e)) (WNodes (wf e')).

#[export] Instance evolves_preorder : PreOrder evolves.
Proof.
  split.
  - intros e. by split_and!.
  - intros e1 e2 e3 (?&?&?&Hn) (?&?&?&Hn'). split_and!; [by etrans..|].
    etrans; [exact Hn|exact Hn'].
Qed.

Lemma touches_evolves i e e' : touches i e e' → evolves e e'.
Proof.
  intros (Hd&Hs&He&f&Hf&Hn). split_and!; [done|done|by rewrite Hs|]. rewrite Hn.
  apply Forall2_same_length_lookup_2; [by rewrite length_alter|]. intros j x y Hx.
  destruct (decide (i = j)) as [<-|]; [rewrite list_lookup_alter_eq|rewrite list_lookup_alter_ne by done];
    rewrite Hx; cbn; intros [= <-]; [apply Hf|done].
Qed.

Lemma slot_evolves {A} i (m : P A) : respects (touches i) m → respects evolves m.
Proof. apply respects_sub, touches_evolves. Qed.

Lemma evolves_call {A} (f : W → A * W) : respects evolves (call f : P A).
Proof. apply (slot_evolves 0), touches_call. Qed.

Lemma evolves_edit i f : (∀ n, fixed (f n) = fixed n) → respects evolves (edit i f : P unit).
Proof. intros Hf. by apply (slot_evolves i), touches_edit. Qed.

Lemma evolves_summary f : (∀ s, ledger_of (f s) = ledger_of s) → respects evolves (change_summary f : P unit).
Proof. intros Hf e. split_and!; [done|done|apply Hf|done]. Qed.

Lemma respects_any_of (R : engine W → engine W → Prop) `{!PreOrder R} {A} (f : A → P bool) l :
  (∀ x, respects R (f x)) → respects R (any_of f l).
Proof.
  intros Hf. induction l as [|x l IH]; cbn; [apply respects_ret; apply _|].
  apply respects_bind; [apply _|done|]. intros a. apply respects_bind; [apply _|done|]. intros b.
  apply respects_ret; apply _.
Qed.

End Evolves.

#[export] Hint Resolve touches_start touches_refresh touches_finalize touches_post : slots.
#[export] Hint Resolve evolves_call respects_any_of : respect.
#[export] Hint Extern 2 (respects evolves (edit _ _)) =>
  apply evolves_edit; intros ?; repeat case_match; reflexivity : respect.
#[export] Hint Extern 2 (respects evolves (change_summary _)) =>
  apply evolves_summary; intros ?; repeat case_match; reflexivity : respect.
#[export] Hint Extern 3 (respects evolves _) => eapply slot_evolves; solve [auto with slots] : respect.

Section Around.
Context {U : Unicode} {F : FlowLib} {L : WorkflowLib} {J : JSONLib} {W : Type} {V : Services W}.

Abbreviation P := (M (engine W) string).
Abbreviation calm m := (respects (evolves (W:=W)) (m : P _)).

Lemma refresh_summary_ledger nodes s : ledger_of (refresh_summary nodes s) = ledger_of s.
Proof. unfold refresh_summary. by repeat case_match. Qed.

Lemma evolves_status : calm refreshWorkflowStatus.
Proof. intros e. split_and!; [done|done|apply refresh_summary_ledger|done]. Qed.

Lemma evolves_expire_nodes now i k : calm (expire_nodes now i k).
Proof. revert i. induction k as [|k IH]; intros i; cbn [expire_nodes]; respect. Qed.
#[local] Hint Resolve evolves_status evolves_expire_nodes : respect.

Lemma evolves_expire now : calm (expireWorkflowRun now).
Proof. unfold expireWorkflowRun. respect. Qed.

Lemma evolves_finalize_run : calm finalizeWorkflowRunOutputs.
Proof. unfold finalizeWorkflowRunOutputs, fail_run. respect. Qed.

Lemma evolves_refresh_nodes : calm refreshWorkflowNodes.
Proof. unfold refreshWorkflowNodes. respect. Qed.

Lemma evolves_start_ready deadline now slots a st : calm (start_ready deadline now slots a st).
Proof. revert a st. induction slots as [|i slots IH]; intros a st; cbn [start_ready]; respect. Qed.

Lemma evolves_start_one now slots : calm (start_one now slots).
Proof. induction slots as [|i slots IH]; cbn [start_one]; respect. Qed.

Lemma evolves_cancel_nodes id now i k : calm (cancel_nodes id now i k).
Proof. revert i. induction k as [|k IH]; intros i; cbn [cancel_nodes]; respect. Qed.

Lemma evolves_complete_nodes id res o now i k : calm (complete_nodes id res o now i k).
Proof. revert i. induction k as [|k IH]; intros i; cbn [complete_nodes]; respect. Qed.

Lemma evolves_mark id msg : calm (markWorkflowNodeError id msg).
Proof.
  unfold markWorkflowNodeError. apply respects_bind; [apply _|auto with respect|]. intros now e.
  split_and!; [done..|]. cbn. induction (WNodes (wf e)) as [|n l IH]; cbn; [done|].
  case_bool_decide; constructor; [|done|done|done]. unfold same_fixed, mark_error. by case_match.
Qed.

End Around.

#[export] Hint Resolve evolves_status evolves_expire evolves_finalize_run evolves_refresh_nodes
  evolves_start_ready evolves_start_one evolves_cancel_nodes evolves_complete_nodes evolves_mark : respect.

(** * Durable workflows: how the graph grows

    The dynamic edges add nodes and nothing else ([grows]); the graph stays well
    formed through every operation, whichever file writes fail on the way. *)

Section Growth.
Context {U : Unicode} {F : FlowLib} {L : WorkflowLib} {J : JSONLib} {W : Type} {V : Services W}.

Abbreviation P := (M (engine W) string).

(** What the expansion of its template leaves of an edge. *)
Definition edge_head (e : workflowEdge) : string * string * string * string * string :=
  (WE_ID e, WE_From e, WE_FromPrefix e, WE_FromKind e, I_ID (WE_Append e)).

(** Each new node is paid for by a new key, and the limit holds of what grows. *)
Record grows (e e' : engine W) : Prop := {
  grows_disk : disk e' = disk e;
  grows_name : S_ID (Summary (wf e')) = S_ID (Summary (wf e));
  grows_keys : AppendKeys (Summary (wf e')) = AppendKeys (Summary (wf e));
  grows_edges : edge_head <$> WEdges (wf e') = edge_head <$> WEdges (wf e);
  grows_nodes : ∃ old new, WNodes (wf e') = old ++ new ∧ Forall2 same_fixed (WNodes (wf e)) old ∧
    size (ProcessedEdges (Summary (wf e))) + length new ≤ size (ProcessedEdges (Summary (wf e'))) ∧
    (new = [] ∨ (Z.of_nat (length (WNodes (wf e'))) <= workflowMaxNodes)%Z);
  grows_processed : ProcessedEdges (Summary (wf e)) ⊆ ProcessedEdges (Summary (wf e'));
  grows_graph : graph_ok (WNodes (wf e)) → graph_ok (WNodes (wf e'));
}.

Lemma same_fixed_graph nodes nodes' : Forall2 same_fixed nodes nodes' → Forall2 same_graph nodes nodes'.
Proof.
  intros H. eapply Forall2_impl; [exact H|]. intros n n' Hn. unfold same_fixed in Hn.
  unfold same_graph. rewrite Hn. split_and!; done.
Qed.

Lemma evolves_grows e e' : evolves e e' → grows e e'.
Proof.
  intros (Hd&He&Hl&Hn). injection Hl as Hid Hk _ Hp. split; try done; [by rewrite He| | |].
  - exists (WNodes (wf e')), []. rewrite app_nil_r, Hp. split_and!; [done|done|cbn; lia|by left].
  - by rewrite Hp.
  - apply same_graph_ok. by apply same_fixed_graph.
Qed.

Lemma node_ids_app l k : node_ids (l ++ k) = node_ids l ++ node_ids k.
Proof. apply fmap_app. Qed.

Lemma grows_ids e e' : grows e e' → node_ids (WNodes (wf e)) `prefix_of` node_ids (WNodes (wf e')).
Proof.
  intros [_ _ _ _ (old&new&->&Hold&_) _ _]. exists (node_ids new).
  rewrite node_ids_app. by rewrite (same_graph_ids _ _ (same_fixed_graph _ _ Hold)).
Qed.

Lemma grows_edges_ok e e' : grows e e' → edges_ok (WEdges (wf e)) (WNodes (wf e)) → edges_ok (WEdges (wf e')) (WNodes (wf e')).
Proof.
  intros Hg. apply edges_ok_mono; [apply Hg|]. intros id Hid. destruct (grows_ids _ _ Hg) as [k ->]. set_solver.
Qed.

#[export] Instance grows_preorder : PreOrder grows.
Proof.
  split; [intros e; apply evolves_grows; reflexivity|].
  intros e1 e2 e3 [Hd Hi Hk He (old&new&Hn&Hf&Hc&Hl) Hp Hg] [Hd' Hi' Hk' He' (old'&new'&Hn'&Hf'&Hc'&Hl') Hp' Hg'].
  split; [by etrans..| | |auto]; [|by etrans].
  rewrite Hn in Hf'. apply Forall2_app_inv_l in Hf' as (a&b&Ha&Hb&->).
  exists a, (b ++ new'). rewrite Hn', <- app_assoc. split_and!; [done|by etrans| |].
  - rewrite length_app. apply Forall2_length in Hb. lia.
  - apply Forall2_length in Hb. destruct Hl' as [->|Hl'].
    + destruct Hl as [->|Hl]; [left; by destruct b|right].
      apply Forall2_length in Ha, Hf. rewrite Hn, length_app in Hl. rewrite !length_app. cbn. lia.
    + right. by rewrite Hn', <- app_assoc in Hl'.
Qed.

Lemma calm_grows {A} (m : P A) : respects evolves m → respects grows m.
Proof. apply respects_sub, evolves_grows. Qed.

(** ** Firing an edge *)

Lemma evolves_touch now : respects evolves (change_summary (touch now) : P unit).
Proof. auto with respect. Qed.

(** The template is expanded and its node appended under a key just marked. *)
Definition paid (p : nat) (e e' : engine W) : Prop :=
  size (ProcessedEdges (Summary (wf e'))) = size (ProcessedEdges (Summary (wf e))) ∧
  ∃ old new, WNodes (wf e') = old ++ new ∧ Forall2 same_fixed (WNodes (wf e)) old ∧ length new ≤ p.

Lemma grow_Ok s inputs now newNodes :
  grow s inputs now = Ok newNodes →
  length newNodes = length inputs ∧ (graph_ok (WNodes s) → graph_ok (WNodes s ++ newNodes)) ∧
  (∀ n, n ∈ newNodes → fresh_node n).
Proof.
  unfold grow. intros H. apply result_bind_Ok in H as (nn&Hnn&H).
  destruct (validateWorkflowDeps _) eqn:Hv; [done|]. injection H as <-.
  pose proof Hnn as (_&_&Hfresh&Hlen)%workflowNodesFromInputs_Ok.
  split_and!; [done| |done]. intros Hok. by eapply graph_ok_grow.
Qed.

(** What firing an edge does: its counter, its template, at most one node. *)
Record fires (j : nat) (e e' : engine W) : Prop := {
  fires_disk : disk e' = disk e;
  fires_name : S_ID (Summary (wf e')) = S_ID (Summary (wf e));
  fires_keys : AppendKeys (Summary (wf e')) = AppendKeys (Summary (wf e));
  fires_processed : ProcessedEdges (Summary (wf e')) = ProcessedEdges (Summary (wf e));
  fires_edges : edge_head <$> WEdges (wf e') = edge_head <$> WEdges (wf e);
  fires_nodes : ∃ old new, WNodes (wf e') = old ++ new ∧ Forall2 same_fixed (WNodes (wf e)) old ∧
    length new ≤ 1 ∧ (new = [] ∨ (Z.of_nat (length (WNodes (wf e'))) <= workflowMaxNodes)%Z);
  fires_graph : graph_ok (WNodes (wf e)) → graph_ok (WNodes (wf e'));
}.

Lemma evolves_fires j e e' : evolves e e' → fires j e e'.
Proof.
  intros He. pose proof (evolves_grows _ _ He) as [].
  destruct He as (Hd&Hed&Hl&Hn). injection Hl as Hid Hk _ Hp. split; try done.
  exists (WNodes (wf e')), []. rewrite app_nil_r. split_and!; [done|done|cbn; lia|by left].
Qed.

Lemma fires_evolves j e e1 e' : fires j e e1 → evolves e1 e' → fires j e e'.
Proof.
  intros [Hd Hi Hk Hp He (old&new&Hn&Hf&Hc&Hl) Hg] Hev.
  pose proof (evolves_grows _ _ Hev) as [_ _ _ _ _ _ Hg'].
  destruct Hev as (Hd'&He'&Hl'&Hn'). injection Hl' as Hi' Hk' _ Hp'.
  split; [congruence..|by rewrite He'| |auto].
  rewrite Hn in Hn'. apply Forall2_app_inv_l in Hn' as (a&b&Ha&Hb&Hab).
  exists a, b. apply Forall2_length in Hb as Hlb. split_and!; [done|by etrans|lia|].
  destruct Hl as [->|Hl]; [left; by destruct b|right].
  apply Forall2_length in Ha. rewrite Hn, length_app in Hl. rewrite Hab, length_app. lia.
Qed.

Lemma appendFromEdge_fires j inputs e :
  length inputs = 1 → fires j e (run (appendWorkflowNodesFromEdge inputs : P _) e).
Proof.
  intros Hlen. unfold appendWorkflowNodesFromEdge, state. rewrite run_gets.
  destruct (over_limit (wf e) inputs) eqn:Ho; [apply evolves_fires; reflexivity|].
  rewrite run_bind. destruct (out (call clock) e) as [now|err] eqn:Hnow; [|by apply evolves_fires, evolves_call].
  pose proof (evolves_call (W:=W) clock e) as Hcall.
  assert (wf (run (call clock : P _) e) = wf e) as Hwf.
  { unfold run, call. by destruct (clock (world e)). }
  set (e1 := run (call clock) e) in *.
  destruct (grow (wf e) inputs now) as [newNodes|err] eqn:Hg; [|by apply evolves_fires].
  destruct (validateWorkflowEdges _ _); [by apply evolves_fires|].
  apply grow_Ok in Hg as (Hl&Hgok&_). unfold over_limit in Ho. apply Z.ltb_ge in Ho.
  replace (run _ e1) with (set_wf (set_nodes (WNodes (wf e) ++ newNodes) (wf e1)) e1) by done.
  split; cbn; rewrite ?Hwf; try done; [apply Hcall|].
  exists (WNodes (wf e)), newNodes. rewrite length_app. split_and!; [done|reflexivity|lia|].
  right. lia.
Qed.

Lemma cap_reached_evolves id msg :
  respects evolves (markWorkflowNodeError id msg;;
    now ← call clock; change_summary (λ s, touch now (set_S_Status workflowStatusError s)) : P unit).
Proof. respect. Qed.

Lemma fire_edge_fires n j ed e : fires j e (run (fire_edge n j ed : P unit) e).
Proof.
  unfold fire_edge, state. rewrite run_gets. case_match.
  - apply evolves_fires, cap_reached_evolves.
  - set (input := if bool_decide _ then _ else _). set (iteration := wrap64 _).
    unfold change. rewrite run_update. set (e1 := set_wf _ e).
    assert (edge_head <$> WEdges (wf e1) = edge_head <$> WEdges (wf e)) as He1.
    { cbn. apply list_eq. intros k. rewrite !list_lookup_fmap.
      destruct (decide (j = k)) as [<-|]; [rewrite list_lookup_alter_eq|by rewrite list_lookup_alter_ne].
      by destruct (WEdges (wf e) !! j). }
    pose proof (appendFromEdge_fires j [input] e1 eq_refl) as [Hd Hi Hk Hp He Hn Hg].
    rewrite run_bind. destruct (out _ e1) as [nn|err].
    all: split; try done; cbn; by etrans.
Qed.

(** ** Processing the edges *)

Lemma process_edge_grows n j : respects grows (process_edge n j : P bool).
Proof.
  apply respects_read. intros e. destruct (WEdges (wf e) !! j) as [ed|]; [|reflexivity].
  cbv zeta. set (key := workflowProcessedEdgeKey _ _).
  destruct (negb (workflowEdgeMatchesSource ed n) || bool_decide (key ∈ ProcessedEdges (Summary (wf e)))) eqn:Hskip; [reflexivity|]. apply orb_false_iff in Hskip as [_ Hnew].
  apply bool_decide_eq_false in Hnew. unfold change_summary, change. rewrite run_update.
  set (e1 := set_wf _ e).
  assert (size (ProcessedEdges (Summary (wf e1))) = S (size (ProcessedEdges (Summary (wf e))))) as Hsize.
  { cbn. rewrite size_union by set_solver. rewrite size_singleton. lia. }
  assert (∀ e', fires j e1 e' → grows e e') as Hgo.
  { intros e' [Hd Hi Hk Hp He (old&new&Hn&Hf&Hc&Hl) Hg]. split; try done.
    - exists old, new. rewrite Hp. split_and!; [done|done|lia|done].
    - rewrite Hp. cbn. set_solver. }
  case_match; rewrite run_bind.
  - pose proof (fire_edge_fires n j ed e1) as Hf. destruct (out _ e1); by apply Hgo.
  - apply Hgo, evolves_fires. reflexivity.
Qed.

Lemma process_grows : respects grows (processWorkflowEdges : P bool).
Proof.
  unfold processWorkflowEdges. apply respects_bind; [apply _|apply respects_gets; apply _|]. intros s.
  case_match; [apply respects_ret; apply _|].
  apply respects_bind; [apply _| |].
  - apply respects_any_of; [apply _|]. intros n. unfold process_node.
    apply respects_bind; [apply _|apply respects_gets; apply _|]. intros s'.
    case_match; [|apply respects_ret; apply _]. apply respects_any_of; [apply _|]. apply process_edge_grows.
  - intros changed. apply calm_grows. respect.
Qed.

End Growth.

#[export] Hint Resolve process_grows : respect.
#[export] Hint Extern 4 (respects grows _) => apply calm_grows; solve [auto with respect] : respect.
