(* ===== verification/WorkflowInv.v ===== *)
(** * Durable workflows: the invariant of the stored graphs

    Every operation keeps what is on disk well formed, also when one of the
    writes of [save] fails and leaves the files of different calls. *)
From S2P Require Import Prelude GoStrings GoRunes JSON Cycles FlowModel FlowContracts FlowGraph FlowValidate WorkflowTypes WorkflowConditions WorkflowEngine WorkflowRun WorkflowOps WorkflowGraph WorkflowFrame.
From Stdlib Require Import Ascii ZArith Lia.

Section Inv.
Context {U : Unicode} {F : FlowLib} {L : WorkflowLib} {J : JSONLib} {W : Type} {V : Services W}.

Abbreviation P := (M (engine W) string).

(** Each graph is well formed, and its edges fit its nodes. *)
Record disk_ok (d : files) : Prop := {
  disk_nodes : ∀ id nodes, node_files d !! id = Some nodes → id ∈ dirs d ∧ graph_ok nodes;
  disk_summaries : ∀ id sum, summaries d !! id = Some sum → S_ID sum = id;
  disk_edges : ∀ id edges, edge_files d !! id = Some edges →
    ∃ nodes, node_files d !! id = Some nodes ∧ edges_ok edges nodes;
}.

(** The state at hand is well formed and no smaller than the stored one. *)
Record good (e : engine W) : Prop := {
  good_disk : disk_ok (disk e);
  good_graph : graph_ok (WNodes (wf e));
  good_edges : edges_ok (WEdges (wf e)) (WNodes (wf e));
  good_ids : ∀ nodes, node_files (disk e) !! S_ID (Summary (wf e)) = Some nodes →
    node_ids nodes ⊆ node_ids (WNodes (wf e));
}.

Lemma grows_good e e' : grows e e' → good e → good e'.
Proof.
  intros Hg [Hd Hgr He Hi]. split.
  - by rewrite (grows_disk _ _ Hg).
  - by apply (grows_graph _ _ Hg).
  - by eapply grows_edges_ok.
  - rewrite (grows_disk _ _ Hg), (grows_name _ _ Hg). intros nodes Hn. specialize (Hi nodes Hn).
    destruct (grows_ids _ _ Hg) as [k ->]. set_solver.
Qed.

Lemma grows_preserves {A} (m : P A) : respects grows m → preserves good m.
Proof. apply respects_preserves, grows_good. Qed.

(** ** Saving *)

Lemma write_cases path f e :
  ∃ w r d, run (write path f : P unit) e = mkEngine w d (wf e) ∧ out (write path f : P unit) e = r ∧
    ((d = disk e ∧ ∃ err, r = Err err) ∨ (d = f (disk e) ∧ r = Ok tt)).
Proof.
  unfold write. rewrite run_bind, out_bind. unfold run, out, call. cbn.
  destruct (write_file path (world e)) as [[err|] w]; cbn; do 3 eexists; (split_and!; [done..|]); [left|right];
    split; eauto.
Qed.

Lemma edges_ok_ids edges nodes nodes' :
  node_ids nodes ⊆ node_ids nodes' → edges_ok edges nodes → edges_ok edges nodes'.
Proof. intros H. by apply edges_ok_mono. Qed.

Lemma disk_ok_dir d id :
  disk_ok d → disk_ok (mkFiles ({[id]} ∪ dirs d) (summaries d) (node_files d) (edge_files d)).
Proof.
  intros [Hn Hs He]. split; cbn; [|done|done]. intros id' nodes H. apply Hn in H as [??]. split; [set_solver|done].
Qed.

Lemma disk_ok_summary d sum :
  disk_ok d → disk_ok (mkFiles (dirs d) (<[S_ID sum := sum]> (summaries d)) (node_files d) (edge_files d)).
Proof.
  intros [Hn Hs He]. split; cbn; [done| |done]. intros id s. rewrite lookup_insert_Some.
  intros [[<- <-]|[_ ?]]; [done|by apply Hs].
Qed.

Lemma disk_ok_nodes d id nodes :
  disk_ok d → id ∈ dirs d → graph_ok nodes →
  (∀ nodes', node_files d !! id = Some nodes' → node_ids nodes' ⊆ node_ids nodes) →
  disk_ok (mkFiles (dirs d) (summaries d) (<[id := nodes]> (node_files d)) (edge_files d)).
Proof.
  intros [Hn Hs He] Hid Hg Hsub. split; cbn; [|done|].
  - intros id' nodes'. rewrite lookup_insert_Some. intros [[<- <-]|[_ ?]]; [done|by apply Hn].
  - intros id' edges Hed. destruct (He id' edges Hed) as (nodes'&Hn'&Hok).
    destruct (decide (id = id')) as [<-|].
    + exists nodes. rewrite lookup_insert_eq. split; [done|]. eapply edges_ok_ids; [|exact Hok]. by apply Hsub.
    + exists nodes'. by rewrite lookup_insert_ne.
Qed.

Lemma disk_ok_edges d id edges nodes :
  disk_ok d → node_files d !! id = Some nodes → edges_ok edges nodes →
  disk_ok (mkFiles (dirs d) (summaries d) (node_files d) (<[id := edges]> (edge_files d))).
Proof.
  intros [Hn Hs He] Hid Hok. split; cbn; [done|done|]. intros id' edges'. rewrite lookup_insert_Some.
  intros [[<- <-]|[_ ?]]; [by exists nodes|by apply He].
Qed.

Lemma disk_ok_no_edges d id :
  disk_ok d → disk_ok (mkFiles (dirs d) (summaries d) (node_files d) (base.delete id (edge_files d))).
Proof. intros [Hn Hs He]. split; cbn; [done|done|]. intros id' edges [_ H]%lookup_delete_Some. by apply He. Qed.

(** A write that fails leaves the state good, the next starts from its effect. *)
Ltac write_step :=
  match goal with |- context [run (write ?p ?f) ?e] =>
    let Ho := fresh in let Hr := fresh in
    destruct (write_cases p f e) as (?&?&?&->&Ho&[(->&?&Hr)|[-> Hr]]); rewrite ?Ho, ?Hr; clear Ho Hr;
    cbn [disk wf dirs summaries node_files edge_files] end.

Lemma encoded_graph nodes : Forall2 same_graph nodes (encoded_node <$> nodes).
Proof. apply Forall2_fmap_r, Forall_Forall2_diag, Forall_forall. intros n _. by split_and!. Qed.

Lemma save_good : preserves good (save : P unit).
Proof.
  apply preserves_read. intros e [Hd Hg He Hi]. set (s := wf e) in *. set (id := S_ID (Summary s)) in *.
  cbv zeta. rewrite run_bind. write_step; [by split|]. apply (disk_ok_dir _ id) in Hd.
  rewrite run_bind. write_step; [by split|]. apply (disk_ok_summary _ (encoded_summary (Summary s))) in Hd.
  rewrite run_bind. write_step; [by split|].
  pose proof (encoded_graph (WNodes s)) as Henc. set (nodes := encoded_node <$> WNodes s) in *.
  assert (node_ids nodes = node_ids (WNodes s)) as Hids by by apply same_graph_ids.
  apply (disk_ok_nodes _ id nodes) in Hd; [|cbn; set_solver|by eapply same_graph_ok|by rewrite Hids].
  assert (∀ nodes', <[id := nodes]> (node_files (disk e)) !! id = Some nodes' → node_ids nodes' ⊆ node_ids (WNodes s)) as Hi'.
  { intros nodes'. rewrite lookup_insert_eq. intros [= <-]. by rewrite Hids. }
  destruct (is_nil (WEdges s)).
  - split; [|done|done|done]. by apply (disk_ok_no_edges _ id) in Hd.
  - write_step; (split; [|done|done|done]); [done|].
    apply (disk_ok_edges _ id (WEdges s) nodes) in Hd; [done|cbn; by rewrite lookup_insert_eq|].
    apply (edges_ok_ids _ (WNodes s)); [by rewrite Hids|done].
Qed.

(** ** Loading *)

(** From a well-formed disk to a well-formed state at hand. *)
Definition readies {A} (m : P A) : Prop :=
  ∀ e, disk_ok (disk e) → disk_ok (disk (run m e)) ∧ (is_ok (out m e) = true → good (run m e)).

Lemma readies_bind {A B} (m : P A) (k : A → P B) : readies m → (∀ a, preserves good (k a)) → readies (m ≫= k).
Proof.
  intros Hm Hk e Hd. destruct (Hm e Hd) as [Hd1 Hg]. rewrite run_bind, out_bind.
  destruct (out m e); [|done]. specialize (Hk a _ (Hg eq_refl)). split; [apply Hk|done].
Qed.

Lemma load_node_graph (n : workflowNode) : (∀ r, r ∈ refs n → clean r) → same_graph n (load_node n).
Proof.
  intros Hc. split_and!; [done|done|]. cbn. apply normalize_clean. intros r Hr. apply Hc. unfold refs. set_solver.
Qed.

Lemma load_nodes_graph nodes :
  (∀ n r, n ∈ nodes → r ∈ refs n → clean r) → Forall2 same_graph nodes (load_node <$> nodes).
Proof.
  intros Hc. apply Forall2_fmap_r. apply Forall_Forall2_diag, Forall_forall. intros n Hn.
  apply load_node_graph. intros r. by apply Hc.
Qed.

Lemma load_readies id : readies (load id).
Proof.
  intros e Hd. unfold load. destruct (validateWorkflowID _); [by split|].
  rewrite run_gets, out_gets. destruct (summaries (disk e) !! TrimSpace id) as [sum|] eqn:Hs; [|by split].
  destruct (node_files (disk e) !! TrimSpace id) as [nodes|] eqn:Hn; [|by split].
  split; [done|]. intros _. destruct Hd as [Hdn Hds Hde]. apply Hds in Hs as Hid.
  pose proof (proj2 (Hdn _ _ Hn)) as Hg.
  assert (Forall2 same_graph nodes (load_node <$> nodes)) as Hsame by apply load_nodes_graph, (refs_clean _ Hg).
  unfold run, update. split; cbn [fst disk wf set_wf WNodes WEdges Summary].
  - done.
  - by eapply same_graph_ok.
  - destruct (edge_files (disk e) !! TrimSpace id) as [edges|] eqn:He; cbn [default].
    + destruct (Hde _ _ He) as (nodes'&Hn'&Hok). rewrite Hn in Hn'. injection Hn' as <-.
      apply (edges_ok_ids _ nodes); [|exact Hok]. by rewrite (same_graph_ids _ _ Hsame).
    + split; [constructor|]. by intros ed ?%elem_of_nil.
  - rewrite Hid, Hn. intros nodes' [= <-]. by rewrite (same_graph_ids _ _ Hsame).
Qed.

Lemma state_readies id : readies (workflowStateUnlocked id).
Proof.
  unfold workflowStateUnlocked. apply readies_bind; [apply load_readies|]. intros _.
  repeat (apply preserves_bind; [apply grows_preserves; solve [auto with respect]|intros ?]).
  case_match; [apply save_good|apply preserves_ret].
Qed.

(** ** The operations *)

Lemma good_edit i f : (∀ n, same_graph n (f n)) → preserves good (edit i f : P unit).
Proof.
  intros Hf e [Hd Hg He Hi]. set (nodes := alter f i (WNodes (wf e))).
  assert (Forall2 same_graph (WNodes (wf e)) nodes) as Hs.
  { apply Forall2_same_length_lookup_2; [by unfold nodes; rewrite length_alter|]. intros j x y Hx. unfold nodes.
    destruct (decide (i = j)) as [<-|]; [rewrite list_lookup_alter_eq|rewrite list_lookup_alter_ne by done];
      rewrite Hx; cbn; intros [= <-]; [apply Hf|reflexivity]. }
  unfold run, edit, change, update. split; cbn [fst disk wf set_wf set_nodes WNodes WEdges Summary]; fold nodes.
  - done.
  - by eapply same_graph_ok.
  - apply (edges_ok_ids _ (WNodes (wf e))); [|done]. by rewrite (same_graph_ids _ _ Hs).
  - by rewrite (same_graph_ids _ _ Hs).
Qed.

Lemma good_calm {A} (m : P A) : respects grows m → preserves good m.
Proof. apply grows_preserves. Qed.

Lemma create_readies sid id inputs edges : readies (create sid id inputs edges).
Proof.
  intros e Hd. unfold create. destruct (is_nil inputs); [by split|].
  rewrite run_call, out_call. destruct (clock (world e)) as [now w]. cbn [fst snd]. cbv zeta.
  destruct (if bool_decide (TrimSpace id = "") then None else _) as [err|]; [by split|].
  rewrite run_gets, out_gets. cbn [disk].
  generalize (if bool_decide (TrimSpace id = "") then "wf_" +:+ itoa now else TrimSpace id). intros id'.
  case_bool_decide as Hdir; [by split|].
  rewrite run_call, out_call. cbn [world disk wf].
  destruct (stat_error id' w) as [[err|] w2]; cbn [fst snd]; [by split|].
  destruct (build inputs edges now) as [[nodes es]|err] eqn:Hb; [|by split].
  rewrite run_update, out_update. set (e1 := set_wf _ _).
  assert (good e1) as Hg.
  { unfold build in Hb. apply result_bind_Ok in Hb as (ns&Hns&Hb).
    destruct (validateWorkflowDeps ns) eqn:Hv; [done|]. apply result_bind_Ok in Hb as (es'&_&Hb).
    destruct (validateWorkflowEdges es' ns) eqn:Hve; [done|]. injection Hb as <- <-.
    split; unfold e1; cbn [disk wf set_wf new_state WNodes WEdges Summary S_ID].
    - done.
    - by eapply new_graph_ok.
    - by apply validateWorkflowEdges_ok.
    - intros nodes Hn. by apply (disk_nodes _ Hd) in Hn as [? _]. }
  split; [by apply good_disk, save_good|]. intros _. by apply save_good.
Qed.

Lemma create_run_readies sid id inputs edges ri outs t : readies (create_run sid id inputs edges ri outs t).
Proof.
  unfold create_run. apply readies_bind; [apply create_readies|]. intros _.
  apply preserves_bind; [|intros _; apply preserves_bind; [|intros _; apply save_good]];
    apply good_calm, calm_grows; respect.
Qed.

(** What follows the refresh of the state keeps it good. *)
Ltac keeps := repeat first
  [ progress intros
  | apply save_good
  | apply preserves_ret
  | apply preserves_throw
  | solve [apply good_calm; auto with respect]
  | lazymatch goal with
    | |- preserves _ (_ ≫= _) => apply preserves_bind
    | |- preserves _ (gets _) => apply preserves_gets
    | |- preserves _ state => apply preserves_gets
    end
  | progress cbv beta zeta
  | case_match ].

Lemma grows_advance_loop fuel dl now c st : respects grows (advance_loop fuel dl now c st : P _).
Proof.
  revert c st. induction fuel as [|fuel IH]; intros c st; cbn [advance_loop]; [apply respects_ret; apply _|].
  respect.
Qed.
#[local] Hint Resolve grows_advance_loop : respect.

Lemma advance_readies fuel id b : readies (advanceWorkflowReadyNodes fuel id b).
Proof. unfold advanceWorkflowReadyNodes. apply readies_bind; [apply state_readies|]. intros _. keeps. Qed.

Lemma step_readies id : readies (stepWorkflow id).
Proof. unfold stepWorkflow. apply readies_bind; [apply state_readies|]. intros _. keeps. Qed.

Lemma cancel_readies id n : readies (cancelWorkflowNode id n).
Proof. unfold cancelWorkflowNode. apply readies_bind; [apply state_readies|]. intros _. keeps. Qed.

Lemma complete_readies id n r o : readies (completeWorkflowNodeWithOutputs id n r o).
Proof. unfold completeWorkflowNodeWithOutputs. apply readies_bind; [apply state_readies|]. intros _. keeps. Qed.

Lemma named_readies id n f after :
  (∀ now m, same_graph m (f now m)) → (∀ now, respects grows (after now : P unit)) →
  readies (change_named id n f after).
Proof.
  intros Hf Ha. unfold change_named. apply readies_bind; [apply state_readies|]. intros _.
  keeps. by apply good_edit.
Qed.

Lemma append_readies id inputs edges key : readies (appendWorkflowNodes id inputs edges key).
Proof.
  unfold appendWorkflowNodes. apply readies_bind; [apply state_readies|]. intros _.
  apply preserves_read. intros e Hg. cbv zeta. case_match; [done|]. case_match; [done|]. case_match; [done|].
  rewrite run_call. destruct (clock (world e)) as [now w]. cbn [fst snd].
  destruct Hg as [Hd Hg He Hi].
  destruct (grow (wf e) inputs now) as [newNodes|err] eqn:Hgrow; [|by split].
  destruct (workflowEdgesFromInputs edges) as [newEdges|err]; [|by split].
  destruct (validateWorkflowEdges _ _) eqn:Hv; [by split|].
  unfold change at 1. rewrite run_update. set (e1 := set_wf _ _).
  assert (good e1) as Hg1; [|revert Hg1; generalize e1; clear].
  { apply grow_Ok in Hgrow as (_&Hok&_). unfold e1.
    split; cbn [disk wf set_wf set_nodes set_edges WNodes WEdges Summary]; [done|by apply Hok|by apply validateWorkflowEdges_ok|].
    intros nodes Hn. rewrite node_ids_app. specialize (Hi nodes Hn). set_solver. }
  change (preserves good (change_summary (touch now);;
    (if bool_decide (TrimSpace key = "") then mret tt
     else change_summary (set_append_key (TrimSpace key) (node_ids newNodes)));;
    refreshWorkflowStatus;; _ ← processWorkflowEdges; save;; mret (node_ids newNodes) : P _)).
  keeps. intros e [Hd Hg He Hi]. by split.
Qed.

(** ** Reachable disks *)

(** One call, or anything that happens to the world meanwhile. *)
Inductive wf_step : engine W → engine W → Prop :=
| step_world e w : wf_step e (mkEngine w (disk e) (wf e))
| step_create e sid id inputs edges : wf_step e (run (create sid id inputs edges) e)
| step_create_run e sid id inputs edges ri outs t : wf_step e (run (create_run sid id inputs edges ri outs t) e)
| step_state e id : wf_step e (run (workflowStateUnlocked id) e)
| step_advance e fuel id b : wf_step e (run (advanceWorkflowReadyNodes fuel id b) e)
| step_step e id : wf_step e (run (stepWorkflow id) e)
| step_append e id inputs edges key : wf_step e (run (appendWorkflowNodes id inputs edges key) e)
| step_cancel e id n : wf_step e (run (cancelWorkflowNode id n) e)
| step_complete e id n r o : wf_step e (run (completeWorkflowNodeWithOutputs id n r o) e)
| step_write e id n k v : wf_step e (run (writeWorkflowNodeOutput id n k v) e)
| step_reschedule e id n : wf_step e (run (rescheduleHumanNodeAsLLM id n) e)
| step_fail e id n r : wf_step e (run (failWorkflowHumanNode id n r) e).

Definition empty_disk : files := mkFiles ∅ ∅ ∅ ∅.

Lemma empty_disk_ok : disk_ok empty_disk.
Proof. split; cbn; intros *; by rewrite lookup_empty. Qed.

Lemma readies_disk {A} (m : P A) e : readies m → disk_ok (disk e) → disk_ok (disk (run m e)).
Proof. intros Hm Hd. exact (proj1 (Hm e Hd)). Qed.

Lemma wf_step_ok e e' : wf_step e e' → disk_ok (disk e) → disk_ok (disk e').
Proof.
  destruct 1; intros Hd; [exact Hd|..]; (apply readies_disk; [|exact Hd]).
  - apply create_readies.
  - apply create_run_readies.
  - apply state_readies.
  - apply advance_readies.
  - apply step_readies.
  - apply append_readies.
  - apply cancel_readies.
  - apply complete_readies.
  - apply named_readies; [done|]. intros now. apply calm_grows. respect.
  - apply named_readies; [done|]. intros now. apply calm_grows. respect.
  - apply named_readies; [done|]. intros now. apply calm_grows. respect.
Qed.

Lemma reachable_ok e e' : rtc wf_step e e' → disk_ok (disk e) → disk_ok (disk e').
Proof. induction 1; [done|]. intros Hd. apply IHrtc. by eapply wf_step_ok. Qed.

(** C4: Every stored workflow is a well-formed graph. Whatever the calls, their
    order, their failures and the failures of the writes in between, the nodes
    of each workflow on disk have distinct names, all their references name
    other nodes, no node depends on itself through others, and its edges have
    distinct ids and a source that exists or is appended by an edge. *)
Theorem workflow_invariant e0 e id nodes :
  disk e0 = empty_disk → rtc wf_step e0 e → node_files (disk e) !! id = Some nodes →
  graph_ok nodes ∧ ∀ edges, edge_files (disk e) !! id = Some edges → edges_ok edges nodes.
Proof.
  intros H0 Hr Hn. assert (disk_ok (disk e)) as [Hdn _ Hde].
  { eapply reachable_ok; [exact Hr|]. rewrite H0. apply empty_disk_ok. }
  split; [by apply Hdn in Hn as [_ ?]|]. intros edges He. apply Hde in He as (nodes'&Hn'&?). congruence.
Qed.

End Inv.
