(* ===== verification/WorkflowOnce.v ===== *)
(** * Durable workflows: each edge is processed once per node

    A pass over the edges leaves nothing for the next one: every pair of an edge
    and a node that has ended is recorded, and what is recorded is skipped. *)
From S2P Require Import Prelude GoStrings GoRunes JSON Cycles FlowModel FlowContracts FlowGraph FlowValidate WorkflowTypes WorkflowConditions WorkflowEngine WorkflowRun WorkflowOps WorkflowGraph WorkflowFrame.
From Stdlib Require Import Ascii ZArith Lia.

Section Once.
Context {U : Unicode} {F : FlowLib} {L : WorkflowLib} {J : JSONLib} {W : Type} {V : Services W}.

Abbreviation P := (M (engine W) string).
Abbreviation terminal n := (workflowNodeTerminal (W_Status n)).

(** ** What a pass does to the statuses *)

Definition same_end (n n' : workflowNode) : Prop := fixed n' = fixed n ∧ terminal n' = terminal n.

#[local] Instance same_end_preorder : PreOrder same_end.
Proof. split; [done|]. intros a b c [Hf Ht] [Hf' Ht']. split; congruence. Qed.

(** Nodes keep what they are and whether they have ended; new ones are pending. *)
Definition ends_kept (e e' : engine W) : Prop :=
  extension same_end (λ n : workflowNode, terminal n = false) (WNodes (wf e)) (WNodes (wf e')).

#[local] Instance ends_kept_preorder : PreOrder ends_kept.
Proof.
  split; [intros e; by apply extension_same|].
  intros e1 e2 e3. apply extension_trans; [apply _|]. intros x y [_ Hxy]. by rewrite Hxy.
Qed.

(** The same nodes as far as statuses go. *)
Lemma same_nodes_kept e e' : WNodes (wf e') = WNodes (wf e) → ends_kept e e'.
Proof. intros H. assert (ends_kept e e) as Hk by reflexivity. unfold ends_kept in *. by rewrite H. Qed.

Lemma kept_lookup e e' i (n' : workflowNode) :
  ends_kept e e' → WNodes (wf e') !! i = Some n' → terminal n' = true →
  ∃ n : workflowNode, WNodes (wf e) !! i = Some n ∧ terminal n = true ∧ fixed n' = fixed n.
Proof.
  intros (old&new&Hn&Ho&Hnew) Hi Ht. rewrite Hn in Hi. apply lookup_app_Some in Hi as [Hi|[_ Hi]].
  - apply (Forall2_lookup_r _ _ _ _ _ Ho) in Hi as (n&Hni&Hf&Hst). exists n. by rewrite <- Hst.
  - apply list_elem_of_lookup_2 in Hi. rewrite Forall_forall in Hnew. apply Hnew in Hi. congruence.
Qed.

(** A node that has ended, by name. *)
Definition ended (id : string) (e : engine W) : Prop :=
  ∃ n : workflowNode, n ∈ WNodes (wf e) ∧ W_ID n = id ∧ terminal n = true.

Lemma ended_kept id e e' : ends_kept e e' → ended id e → ended id e'.
Proof.
  intros (old&new&Hn&Ho&_) (n&Hin&Hid&Ht). apply list_elem_of_lookup in Hin as [i Hi].
  apply (Forall2_lookup_l _ _ _ _ _ Ho) in Hi as (n'&Hi'&Hf&Ht'). exists n'.
  rewrite Hn. split_and!; [apply elem_of_app; left; by eapply list_elem_of_lookup_2|by rewrite Hf|by rewrite Ht'].
Qed.

Lemma mark_kept id msg now nodes :
  NoDup (node_ids nodes) → (∃ n : workflowNode, n ∈ nodes ∧ W_ID n = id ∧ terminal n = true) →
  Forall2 same_end nodes
    (update_first (λ n : workflowNode, bool_decide (W_ID n = id)) (mark_error msg now) nodes).
Proof.
  induction nodes as [|n nodes IH]; intros Hnd (m&Hm&Hid&Ht); cbn; [constructor|].
  unfold node_ids in Hnd. rewrite fmap_cons in Hnd. apply NoDup_cons in Hnd as [Hni Hnd].
  case_bool_decide as Hn.
  - constructor; [|done].
    assert (m = n) as ->.
    { apply elem_of_cons in Hm as [->|Hm]; [done|]. exfalso. apply Hni. rewrite Hn, <- Hid.
      by apply (list_elem_of_fmap_2 (λ n : workflowNode, W_ID n)). }
    unfold same_end. rewrite Ht. unfold mark_error. by case_match.
  - constructor; [done|]. apply IH; [done|]. exists m. apply elem_of_cons in Hm as [->|Hm]; [done|by split_and!].
Qed.

Lemma mark_run id msg e :
  ∃ w now, run (markWorkflowNodeError id msg : P unit) e = mkEngine w (disk e) (set_nodes
      (update_first (λ n : workflowNode, bool_decide (W_ID n = id)) (mark_error msg now) (WNodes (wf e))) (wf e)) ∧
    out (markWorkflowNodeError id msg : P unit) e = Ok tt.
Proof.
  unfold markWorkflowNodeError. rewrite run_call, out_call. destruct (clock (world e)) as [now w]. by exists w, now.
Qed.

Lemma fire_edge_kept (n : workflowNode) j ed e :
  graph_ok (WNodes (wf e)) → ended (W_ID n) e → ends_kept e (run (fire_edge n j ed : P unit) e).
Proof.
  intros Hg He. unfold fire_edge, state. rewrite run_gets. case_match.
  - rewrite run_bind. destruct (mark_run (W_ID n) ("workflow edge " +:+ WE_ID ed +:+ " reached iteration cap "
      +:+ itoa (max_iterations ed)) e) as (w&now&->&->). rewrite run_call.
    eexists _, []. rewrite app_nil_r.
    split_and!; [done| |done]. apply mark_kept; [by apply ids_unique|exact He].
  - set (input := if bool_decide _ then _ else _). unfold change. rewrite run_update. set (e1 := set_wf _ e).
    assert (ends_kept e e1) as H1 by by apply same_nodes_kept. etransitivity; [exact H1|].
    rewrite run_bind. unfold appendWorkflowNodesFromEdge, state. rewrite run_gets, out_gets.
    destruct (over_limit _ _); [reflexivity|]. rewrite run_call, out_call.
    destruct (clock (world e1)) as [now w]. cbn [fst snd].
    destruct (grow _ _ _) as [newNodes|] eqn:Hgrow; [|by apply same_nodes_kept].
    destruct (validateWorkflowEdges _ _); [by apply same_nodes_kept|].
    exists (WNodes (wf e1)), newNodes. split_and!; [done|done|].
    apply grow_Ok in Hgrow as (_&_&Hfresh). apply Forall_forall. intros m Hm.
    destruct (Hfresh m Hm) as (Hst&_). by rewrite Hst.
Qed.

Lemma process_edge_kept (n : workflowNode) j e :
  graph_ok (WNodes (wf e)) → ended (W_ID n) e → ends_kept e (run (process_edge n j : P bool) e).
Proof.
  intros Hg He. unfold process_edge, state. rewrite run_gets. destruct (WEdges (wf e) !! j) as [ed|]; [|reflexivity].
  cbv zeta. destruct (negb _ || bool_decide (_ ∈ ProcessedEdges _)); [reflexivity|].
  unfold change_summary, change. rewrite run_update. set (e1 := set_wf _ e). rewrite run_bind. destruct (workflowEdgeConditionMatchesState _ _ n).
  - pose proof (fire_edge_kept n j ed e1 Hg He) as Hf. by destruct (out _ e1).
  - by apply same_nodes_kept.
Qed.

(** ** Loops *)

Section Loops.
Context {A : Type} (f : A → P bool).

(** A loop in which nothing changes returns [false] and leaves the state. *)
Lemma any_of_skips l e : (∀ x, x ∈ l → f x e = (e, Ok false)) → any_of f l e = (e, Ok false).
Proof.
  induction l as [|x l IH]; intros H; [done|]. cbn [any_of].
  rewrite (bind_ok _ _ _ e false) by (apply H; by left).
  rewrite (bind_ok _ _ _ e false); [done|]. apply IH. intros y ?. apply H. by right.
Qed.

(** If the loop returns [false], so did each round. *)
Lemma any_of_false l e e' :
  (∀ x e e', f x e = (e', Ok false) → e' = e) →
  any_of f l e = (e', Ok false) → e' = e ∧ ∀ x, x ∈ l → f x e = (e, Ok false).
Proof.
  intros Hf. revert e e'. induction l as [|x l IH]; intros e e'; cbn [any_of].
  { intros [= <-]. split; [done|]. by intros x ?%elem_of_nil. }
  intros (a&e1&Hx&H)%M_bind_Ok. apply M_bind_Ok in H as (b&e2&Hl&H). injection H as <- Hab.
  destruct a, b; try done. pose proof (Hf _ _ _ Hx) as ->. apply IH in Hl as [-> Hl].
  split; [done|]. intros y [->|Hy]%elem_of_cons; [done|by apply Hl].
Qed.

Lemma any_of_inv (I : engine W → Prop) l e e' b :
  (∀ x e e' b, x ∈ l → I e → f x e = (e', Ok b) → I e') → I e → any_of f l e = (e', Ok b) → I e'.
Proof.
  revert e b. induction l as [|x l IH]; intros e b Hf Hi; cbn [any_of]; [by intros [= <- _]|].
  intros (a&e1&Hx&H)%M_bind_Ok. apply M_bind_Ok in H as (c&e2&Hl&H). injection H as <- _.
  eapply IH; [|eapply Hf; [by left|exact Hi|exact Hx]|exact Hl]. intros y ???? . apply Hf. by right.
Qed.

(** What each round establishes and the others keep. *)
Lemma any_of_each (I : engine W → Prop) (Q : A → engine W → Prop) l e e' b :
  (∀ x e e' b, x ∈ l → I e → f x e = (e', Ok b) → I e' ∧ Q x e') →
  (∀ x y e e' b, y ∈ l → I e → Q x e → f y e = (e', Ok b) → Q x e') →
  I e → any_of f l e = (e', Ok b) → ∀ x, x ∈ l → Q x e'.
Proof.
  revert e b. induction l as [|x l IH]; intros e b Hf Hk Hi; cbn [any_of]; [intros _ x H; by apply elem_of_nil in H|].
  intros (a&e1&Hx&H)%M_bind_Ok. apply M_bind_Ok in H as (c&e2&Hl&H). injection H as <- _.
  destruct (Hf x e e1 a ltac:(by left) Hi Hx) as [Hi1 Hq]. intros y [->|Hy]%elem_of_cons.
  - apply (any_of_inv (λ e, I e ∧ Q x e) l e1 e2 c); [|done|exact Hl].
    intros z e3 e4 d Hz [Hi3 Hq3] Hs. split; [eapply Hf; [right; exact Hz|exact Hi3|exact Hs]|].
    eapply Hk; [right; exact Hz|exact Hi3|exact Hq3|exact Hs].
  - eapply (IH e1 c); [| |exact Hi1|exact Hl|exact Hy].
    + intros z ???? . apply Hf. by right.
    + intros z z' ???? . apply Hk. by right.
Qed.

End Loops.

(** ** Records *)

Lemma matches_head ed ed' (n n' : workflowNode) :
  edge_head ed' = edge_head ed → fixed n' = fixed n →
  workflowEdgeMatchesSource ed' n' = workflowEdgeMatchesSource ed n ∧ WE_ID ed' = WE_ID ed.
Proof.
  intros He Hn. injection He as Hid Hf Hp Hk _. unfold workflowEdgeMatchesSource. by rewrite Hid, Hf, Hp, Hk, Hn.
Qed.

(** The pair of slot [j] and [n] is recorded. *)
Definition recorded_at (n : workflowNode) (j : nat) (e : engine W) : Prop :=
  ∀ ed, WEdges (wf e) !! j = Some ed → workflowEdgeMatchesSource ed n = true →
    workflowProcessedEdgeKey (WE_ID ed) (W_ID n) ∈ ProcessedEdges (Summary (wf e)).
Definition recorded (n : workflowNode) (e : engine W) : Prop := ∀ j, recorded_at n j e.

Lemma head_lookup (e e' : engine W) j ed :
  edge_head <$> WEdges (wf e') = edge_head <$> WEdges (wf e) → WEdges (wf e') !! j = Some ed →
  ∃ ed0, WEdges (wf e) !! j = Some ed0 ∧ edge_head ed0 = edge_head ed.
Proof.
  intros H Hj. apply (f_equal (lookup j)) in H. rewrite !list_lookup_fmap, Hj in H.
  destruct (WEdges (wf e) !! j) as [ed0|]; [|done]. apply (inj Some) in H. exists ed0. by split.
Qed.

Lemma recorded_at_grows (n n' : workflowNode) j (e e' : engine W) :
  fixed n' = fixed n → edge_head <$> WEdges (wf e') = edge_head <$> WEdges (wf e) →
  ProcessedEdges (Summary (wf e)) ⊆ ProcessedEdges (Summary (wf e')) →
  recorded_at n j e → recorded_at n' j e'.
Proof.
  intros Hn He Hp Hr ed Hj Hm. destruct (head_lookup e e' j ed He Hj) as (ed0&Hj0&Hh).
  destruct (matches_head ed0 ed n n' (eq_sym Hh) Hn) as [Hm' ->]. rewrite Hm' in Hm. rewrite Hn.
  by apply Hp, Hr.
Qed.

Lemma process_edge_false (n : workflowNode) j (e e' : engine W) : process_edge n j e = (e', Ok false) → e' = e.
Proof.
  unfold process_edge, state. intros (s&e1&[= <- <-]&H)%M_bind_Ok.
  destruct (WEdges (wf e) !! j); [|by injection H as <-]. cbv zeta in H.
  destruct (negb _ || bool_decide (_ ∈ ProcessedEdges _)); [by injection H as <-|].
  apply M_bind_Ok in H as (?&?&_&H). by apply M_bind_Ok in H as (?&?&_&[=]).
Qed.

Lemma process_edge_records (n : workflowNode) j (e e' : engine W) b : process_edge n j e = (e', Ok b) → recorded_at n j e'.
Proof.
  intros H ed Hj Hm. pose proof (process_edge_grows n j e) as Hg. unfold run in Hg. rewrite H in Hg. cbn in Hg.
  destruct (head_lookup e e' j ed (grows_edges _ _ Hg) Hj) as (ed0&Hj0&Hh).
  destruct (matches_head ed0 ed n n (eq_sym Hh) eq_refl) as [Hm' Hid]. rewrite Hm' in Hm. rewrite Hid.
  unfold process_edge, state in H. apply M_bind_Ok in H as (s&e1&[= <- <-]&H). rewrite Hj0 in H. cbv zeta in H.
  rewrite Hm in H. cbn [negb orb] in H. case_bool_decide as Hin.
  - injection H as <- _. done.
  - apply M_bind_Ok in H as (u&e2&Hmark&H). apply M_bind_Ok in H as (u'&e3&Hfire&[= -> _]).
    assert (ProcessedEdges (Summary (wf e2)) ⊆ ProcessedEdges (Summary (wf e'))) as Hp.
    { destruct (workflowEdgeConditionMatchesState _ _ n).
      - pose proof (fire_edge_fires n j ed0 e2) as Hf. unfold run in Hf. rewrite Hfire in Hf.
        apply fires_processed in Hf. cbn [fst] in Hf. by rewrite Hf.
      - by injection Hfire as <-. }
    apply Hp. unfold change_summary, change, update in Hmark. injection Hmark as <- _. cbn. set_solver.
Qed.

Lemma process_node_skips (n : workflowNode) (e : engine W) :
  (terminal n = true → recorded n e) → process_node n e = (e, Ok false).
Proof.
  intros Hr. unfold process_node, state. rewrite (bind_ok _ _ e e (wf e)) by done.
  destruct (terminal n); [|done]. apply any_of_skips. intros j _.
  unfold process_edge, state. rewrite (bind_ok _ _ e e (wf e)) by done.
  destruct (WEdges (wf e) !! j) as [ed|] eqn:Hj; [|done]. cbv zeta.
  destruct (workflowEdgeMatchesSource ed n) eqn:Hm; [|done]. cbn [negb orb].
  rewrite bool_decide_true; [done|]. by eapply Hr.
Qed.

(** What the loops rely on. *)
Definition ready_for (nodes : list workflowNode) (e : engine W) : Prop :=
  graph_ok (WNodes (wf e)) ∧ ∀ n : workflowNode, n ∈ nodes → terminal n = true → ended (W_ID n) e.

Lemma ready_step nodes (n : workflowNode) j (e e' : engine W) b :
  n ∈ nodes → terminal n = true → ready_for nodes e → process_edge n j e = (e', Ok b) → ready_for nodes e'.
Proof.
  intros Hin Ht [Hg He] H. pose proof (process_edge_grows n j e) as Hgr.
  pose proof (process_edge_kept n j e Hg (He n Hin Ht)) as Hk. unfold run in *. rewrite H in Hgr, Hk. cbn in *.
  split; [by apply (grows_graph _ _ Hgr)|]. intros m Hm Htm. eapply ended_kept; [exact Hk|by apply He].
Qed.

Lemma process_node_records nodes (n : workflowNode) (e e' : engine W) b :
  n ∈ nodes → ready_for nodes e → process_node n e = (e', Ok b) →
  ready_for nodes e' ∧ ends_kept e e' ∧ (terminal n = true → recorded n e').
Proof.
  intros Hin Hr H. pose proof H as H0. unfold process_node, state in H.
  apply M_bind_Ok in H as (s&e1&[= <- <-]&H). destruct (terminal n) eqn:Ht.
  2: { injection H as <- _. split_and!; [done|reflexivity|done]. }
  assert (ready_for nodes e' ∧ ends_kept e e') as [Hr' Hk'].
  { apply (any_of_inv (process_edge n) (λ e', ready_for nodes e' ∧ ends_kept e e')
      (seq 0 (length (WEdges (wf e)))) e e' b); [|split; [done|reflexivity]|done].
    intros j e1 e2 c _ [Hr1 Hk1] Hp. split; [by eapply ready_step|]. etransitivity; [exact Hk1|].
    pose proof (process_edge_kept n j e1 (proj1 Hr1) (proj2 Hr1 n Hin Ht)) as Hk2. unfold run in Hk2.
    by rewrite Hp in Hk2. }
  split_and!; [done|done|]. intros _ j ed Hj.
  assert (edge_head <$> WEdges (wf e') = edge_head <$> WEdges (wf e)) as Hh.
  { assert (respects grows (process_node n : P bool)) as Hgr.
    { unfold process_node. apply respects_bind; [apply _|apply respects_gets; apply _|]. intros s.
      case_match; [|apply respects_ret; apply _]. apply respects_any_of; [apply _|]. apply process_edge_grows. }
    specialize (Hgr e). unfold run in Hgr. rewrite H0 in Hgr. apply Hgr. }
  assert (recorded_at n j e') as Hrec; [|by apply Hrec].
  apply (any_of_each (process_edge n) (λ _, True) (recorded_at n) (seq 0 (length (WEdges (wf e)))) e e' b); [| |done|done|].
  - intros x e1 e2 c _ _ Hp. split; [done|]. by eapply process_edge_records.
  - intros x y e1 e2 c _ _ Hrec Hp. pose proof (process_edge_grows n y e1) as Hg. unfold run in Hg. rewrite Hp in Hg.
    eapply recorded_at_grows; [done|apply Hg|apply Hg|exact Hrec].
  - apply elem_of_seq. split; [lia|]. apply lookup_lt_Some in Hj. apply (f_equal length) in Hh.
    rewrite !length_fmap in Hh. lia.
Qed.

Lemma process_node_grows (n : workflowNode) : respects grows (process_node n : P bool).
Proof.
  unfold process_node. apply respects_bind; [apply _|apply respects_gets; apply _|]. intros s.
  case_match; [|apply respects_ret; apply _]. apply respects_any_of; [apply _|]. apply process_edge_grows.
Qed.

(** The rounds over all nodes of the state. *)
Lemma rounds_record (e e' : engine W) b :
  graph_ok (WNodes (wf e)) → any_of process_node (WNodes (wf e)) e = (e', Ok b) →
  ends_kept e e' ∧ ∀ n : workflowNode, n ∈ WNodes (wf e) → terminal n = true → recorded n e'.
Proof.
  intros Hg H. set (nodes := WNodes (wf e)) in *.
  assert (ready_for nodes e) as Hr.
  { split; [done|]. intros n Hn Ht. by exists n. }
  split.
  - apply (any_of_inv process_node (λ e', ready_for nodes e' ∧ ends_kept e e') nodes e e' b); [|split; [done|reflexivity]|done].
    intros n e1 e2 c Hn [Hr1 Hk1] Hp. destruct (process_node_records nodes n e1 e2 c Hn Hr1 Hp) as (?&Hk&_).
    split; [done|]. by etransitivity.
  - intros n Hn. revert n Hn.
    apply (any_of_each process_node (ready_for nodes) (λ n e, terminal n = true → recorded n e) nodes e e' b); [| |done|done].
    + intros n e1 e2 c Hn Hr1 Hp. destruct (process_node_records nodes n e1 e2 c Hn Hr1 Hp) as (?&_&?). done.
    + intros n m e1 e2 c _ _ Hrec Hp Ht j. pose proof (process_node_grows m e1) as Hgr. unfold run in Hgr. rewrite Hp in Hgr.
      eapply recorded_at_grows; [done|apply Hgr|apply Hgr|by apply Hrec].
Qed.

Lemma refresh_keeps_graph (e e' : engine W) u :
  (refreshWorkflowStatus : P unit) e = (e', Ok u) →
  WNodes (wf e') = WNodes (wf e) ∧ WEdges (wf e') = WEdges (wf e) ∧
  ProcessedEdges (Summary (wf e')) = ProcessedEdges (Summary (wf e)).
Proof.
  unfold refreshWorkflowStatus, change, update. intros [= <- _]. split_and!; [done|done|].
  pose proof (refresh_summary_ledger (WNodes (wf e)) (Summary (wf e))) as H. by injection H.
Qed.


End Once.
