(* ===== verification/WorkflowSched.v ===== *)
(** * Durable workflows: the scheduler

    A node that is started either leaves "pending" or waits for another of its
    finitely many attempts; a node is started only when its dependencies have
    completed; and the loop of [advanceWorkflowReadyNodes] ends. *)
From S2P Require Import Prelude GoStrings GoRunes JSON Cycles FlowModel FlowContracts FlowGraph FlowValidate WorkflowTypes WorkflowConditions WorkflowEngine WorkflowRun WorkflowOps WorkflowGraph WorkflowFrame WorkflowOnce.
From Stdlib Require Import Ascii ZArith Lia.

(** The attempts that a retry policy allows; none without a policy. *)
Definition allowed (p : option RetryPolicy) : Z := match p with Some p => MaxAttempts p | None => 0 end.

(** ** Where a program takes the node of a slot *)

Section Logic.
Context {U : Unicode} {F : FlowLib} {L : WorkflowLib} {J : JSONLib} {W : Type} {V : Services W}.

Abbreviation P := (M (engine W) string).
Implicit Types p q r : workflowNode → Prop.

(** From a node that satisfies [p] to one that satisfies [q], errors included. *)
Definition takes (i : nat) p {A} (m : P A) q : Prop :=
  ∀ (e : engine W) (n : workflowNode), WNodes (wf e) !! i = Some n → p n →
    ∃ n' : workflowNode, WNodes (wf (run m e)) !! i = Some n' ∧ q n'.

Lemma takes_weaken i p p' q q' {A} (m : P A) :
  (∀ n, p n → p' n) → (∀ n, q' n → q n) → takes i p' m q' → takes i p m q.
Proof. intros Hp Hq Hm e n Hn H. destruct (Hm e n Hn (Hp n H)) as (n'&?&?). eauto. Qed.

Lemma takes_ret i p q {A} (a : A) : (∀ n, p n → q n) → takes i p (mret a) q.
Proof. intros H e n Hn Hp. exists n. split; [exact Hn|by apply H]. Qed.

Lemma takes_call i p q {A B} (f : W → A * W) (k : A → P B) : (∀ a, takes i p (k a) q) → takes i p (call f ≫= k) q.
Proof. intros Hk e n Hn Hp. rewrite run_call. by apply (Hk _ _ n). Qed.

Lemma takes_call_ret i p q {A} (f : W → A * W) : (∀ n, p n → q n) → takes i p (call f : P A) q.
Proof. intros H e n Hn Hp. exists n. split; [|by apply H]. unfold run, call. by destruct (f (world e)). Qed.

Lemma takes_gets i p q {A B} (f : engine W → A) (k : A → P B) : (∀ a, takes i p (k a) q) → takes i p (gets f ≫= k) q.
Proof. intros Hk e n Hn Hp. rewrite run_gets. by apply (Hk _ _ n). Qed.

Lemma takes_edit_ret i p q f : (∀ n, p n → q (f n)) → takes i p (edit i f : P unit) q.
Proof.
  intros H e n Hn Hp. exists (f n). split; [|by apply H]. unfold run, edit, change, update. cbn.
  by rewrite list_lookup_alter_eq, Hn.
Qed.

(** After an edit, the node is the edited one. *)
Lemma takes_edit i p q f {B} (k : unit → P B) :
  takes i (λ n', ∃ n, p n ∧ n' = f n) (k tt) q → takes i p (edit i f ≫= k) q.
Proof.
  intros Hk e n Hn Hp. unfold edit, change. rewrite run_update. apply (Hk _ (f n)); [|by exists n].
  cbn. by rewrite list_lookup_alter_eq, Hn.
Qed.

Lemma takes_bind_ret i p q {A B} (a : A) (k : A → P B) : takes i p (k a) q → takes i p (mret a ≫= k) q.
Proof. intros Hk e n. apply Hk. Qed.

Lemma takes_seq i p q r {A B} (m : P A) (k : A → P B) :
  takes i p m r → (∀ n, r n → q n) → (∀ a, takes i r (k a) q) → takes i p (m ≫= k) q.
Proof.
  intros Hm Hrq Hk e n Hn Hp. destruct (Hm e n Hn Hp) as (n'&Hn'&Hr). rewrite run_bind.
  destruct (out m e); [by apply (Hk _ _ n')|]. exists n'. by split; [|apply Hrq].
Qed.

Lemma takes_seq_ok i p q r {A B} (m : P A) (k : A → P B) :
  (∀ e, is_ok (out m e) = true) → takes i p m r → (∀ a, takes i r (k a) q) → takes i p (m ≫= k) q.
Proof.
  intros Hok Hm Hk e n Hn Hp. destruct (Hm e n Hn Hp) as (n'&Hn'&Hr). rewrite run_bind.
  specialize (Hok e). destruct (out m e); [by apply (Hk _ _ n')|done].
Qed.

(** The node is at hand. *)
Lemma takes_node i p q {A} (d : A) k :
  (∀ n, p n → takes i (eq n) (k n) q) → takes i p (with_node i d k : P A) q.
Proof.
  intros Hk e n Hn Hp. unfold with_node, node. rewrite run_gets, Hn. by apply (Hk n Hp e n).
Qed.

(** ** Ends and retries *)

Definition pending (n : workflowNode) : Prop := W_Status n = workflowStatusPending.

(** The attempts are a machine integer. *)
Definition sized (n : workflowNode) : Prop := is_int (W_Attempt n).
Definition ended_at (n : workflowNode) : Prop := ¬ pending n ∧ sized n.

(** Ended, or waiting for an attempt after number [a] that its policy allows. *)
Definition settled (a : Z) (n : workflowNode) : Prop :=
  sized n ∧ (pending n → (a < W_Attempt n < allowed (W_Retry n))%Z).

Lemma ended_settled a n : ended_at n → settled a n.
Proof. by intros [??]. Qed.

Lemma next_sized n : sized n → is_int (nextWorkflowAttempt n).
Proof. unfold sized, is_int, nextWorkflowAttempt, int_min, int_max. case_match; lia. Qed.

Lemma should_retry_allowed pol a kind d : shouldWorkflowRetry pol a kind = Some d → (a < allowed pol)%Z.
Proof.
  unfold shouldWorkflowRetry. destruct pol as [pol|]; [|done].
  destruct (MaxAttempts pol <=? a)%Z eqn:Ha; [by rewrite orb_true_r|].
  apply Z.leb_gt in Ha. by intros _.
Qed.

End Logic.

Create HintDb takes discriminated.
#[export] Hint Constants Opaque : takes.

(** The status and the attempts of an edited node. *)
Ltac node_simpl :=
  cbn [W_Status W_Attempt fixed set_W_Status set_W_JobID set_W_Attempt set_W_HandoffRef set_W_Verdict
    set_W_ResultPreview set_W_Error set_W_Decision set_W_HumanTaskID set_W_Outputs set_W_NextRetryAt
    set_W_UpdatedAt set_W_StartedAt set_W_FinishedAt end_node].

(** What is left once the program has been followed. *)
Ltac node_facts :=
  intros; repeat match goal with
  | H : ∃ _, _ |- _ => destruct H
  | H : _ ∧ _ |- _ => destruct H
  | H : ended_at _ |- _ => destruct H
  end; subst; repeat match goal with H : _ = _ |- _ => clear H end;
  first
  [ assumption
  | split; [done|assumption]
  | unfold ended_at, pending, sized in *; node_simpl;
    repeat match goal with |- context [match ?x with _ => _ end] => destruct x end; node_simpl;
    try (split; [first [discriminate|assumption]|]);
    first [ assumption | discriminate | by apply next_sized | unfold is_int, int_min, int_max; lia ] ].

Ltac track :=
  repeat first
    [ progress intros
    | solve [eauto with takes nocore]
    | lazymatch goal with
      | |- takes _ _ (mret _) _ => apply takes_ret; solve [node_facts]
      | |- takes _ _ (call _ ≫= _) _ => apply takes_call
      | |- takes _ _ (call _) _ => apply takes_call_ret; solve [node_facts]
      | |- takes _ _ (gets _ ≫= _) _ => apply takes_gets
      | |- takes _ _ (state ≫= _) _ => apply takes_gets
      | |- takes _ _ (edit _ _ ≫= _) _ => apply takes_edit
      | |- takes _ _ (edit _ _) _ => apply takes_edit_ret; solve [node_facts]
      | |- takes _ _ (with_node _ _ _) _ => apply takes_node
      | |- takes _ _ (mret _ ≫= _) _ => apply takes_bind_ret
      | |- takes _ _ ((if ?b then _ else _) ≫= _) _ => destruct b
      | |- takes _ _ (_ ≫= _) _ => eapply (takes_seq _ _ _ ended_at)
      | |- takes _ _ (match _ with _ => _ end) _ => case_match
      | |- takes _ _ (let _ := _ in _) _ => cbv zeta
      | |- takes _ _ _ _ => eapply takes_weaken; [| |solve [eauto with takes nocore]]; solve [node_facts]
      | |- _ => solve [node_facts]
      end ].


Section Nodes.
Context {U : Unicode} {F : FlowLib} {L : WorkflowLib} {J : JSONLib} {W : Type} {V : Services W}.

Abbreviation P := (M (engine W) string).
Abbreviation stays i m := (takes (W:=W) i ended_at (m : P _) ended_at).
Abbreviation ends i m := (takes (W:=W) i sized (m : P _) ended_at).

Lemma stays_finalize i t : stays i (finalizeWorkflowNodeHandoff i t).
Proof. unfold finalizeWorkflowNodeHandoff. track. Qed.

#[local] Hint Resolve stays_finalize : takes.

Lemma stays_failed_handoff i : stays i (failed_handoff i).
Proof. unfold failed_handoff. track. Qed.
#[local] Hint Resolve stays_failed_handoff : takes.

Lemma ends_fail_at i e now : ends i (fail_at i e now).
Proof. unfold fail_at. track. Qed.
Lemma ends_failNode i m : ends i (failWorkflowNode i m).
Proof. unfold failWorkflowNode. track. Qed.
Lemma ends_failService i m : ends i (failWorkflowServiceNode i m).
Proof. unfold failWorkflowServiceNode. track. Qed.
Lemma stays_post i : stays i (runPostScript i).
Proof. unfold runPostScript. track. Qed.
Lemma stays_completed i p : stays i (completed_handoff i p).
Proof. unfold completed_handoff. track. Qed.
#[local] Hint Resolve ends_fail_at ends_failNode ends_failService stays_post stays_completed : takes.

Lemma ends_branch i : ends i (executeWorkflowBranch i).
Proof. unfold executeWorkflowBranch, completeWorkflowBranch. track. Qed.

Lemma ends_completeDecision i r t : ends i (completeWorkflowDecision i r t).
Proof. unfold completeWorkflowDecision. track. Qed.

Lemma ends_function i : ends i (executeWorkflowFunction i).
Proof. unfold executeWorkflowFunction, completeWorkflowFunction. track. Qed.
#[local] Hint Resolve ends_branch ends_completeDecision ends_function : takes.

Lemma ends_completeService i o : ends i (completeWorkflowService i o).
Proof. unfold completeWorkflowService. track. Qed.
#[local] Hint Resolve ends_completeService : takes.

Lemma sized_human i :
  takes (W:=W) i sized (registerWorkflowHumanTask i : P _) sized.
Proof.
  unfold registerWorkflowHumanTask. track.
Qed.

Lemma human_ok i e : is_ok (out (registerWorkflowHumanTask i : P _) e) = true.
Proof.
  unfold registerWorkflowHumanTask, with_node, node. rewrite out_gets.
  destruct (WNodes (wf e) !! i) as [n|]; [|done]. destruct (W_HumanSpec n); [|done].
  destruct (negb _); [done|]. unfold state. rewrite out_gets. cbv zeta. rewrite out_call. by case_match.
Qed.

Lemma ends_job i now : ends i (start_job i now).
Proof. unfold start_job. track. Qed.

(** A retry waits for the attempt after [a]. *)
Lemma takes_retry i p a' a d :
  (∀ n : workflowNode, p n → is_int a ∧ (a' < a < allowed (W_Retry n))%Z) →
  takes (W:=W) i p (scheduleWorkflowNodeRetry i a d : P _) (settled a').
Proof.
  intros H. unfold scheduleWorkflowNodeRetry. apply takes_call. intros now. apply takes_edit_ret.
  intros n Hn. apply H in Hn as [Hs Hr]. split; [exact Hs|intros _; exact Hr].
Qed.

(** In its attempt after number [a]. *)
Definition above (a : Z) (n : workflowNode) : Prop := sized n ∧ (a < W_Attempt n)%Z.
Abbreviation settles i a m := (takes (W:=W) i (above a) (m : P _) (settled a)).

Lemma ends_settles {A} i a (m : P A) n : ends i m → above a n → takes i (eq n) m (settled a).
Proof. intros Hm [Hs _]. eapply takes_weaken; [| |exact Hm]; [by intros ? <-|apply ended_settled]. Qed.

Lemma settles_decisionFailure i a e : settles i a (handleWorkflowDecisionFailure i e).
Proof.
  unfold handleWorkflowDecisionFailure. apply takes_node. intros n Hn. cbv zeta.
  case_match eqn:Hr.
  - apply (takes_retry _ (eq n)). intros ? <-. apply should_retry_allowed in Hr. destruct Hn as [Hs Ha]. split.
    + case_match; [by apply next_sized|exact Hs].
    + revert Hr. unfold nextWorkflowAttempt. destruct (W_Attempt n <=? 0)%Z eqn:H0; [|lia].
      apply Z.leb_le in H0. case_match; lia.
  - repeat case_match; apply ends_settles; eauto with takes nocore.
Qed.

Lemma settles_decision i a : settles i a (executeWorkflowDecision i).
Proof.
  unfold executeWorkflowDecision. apply takes_node. intros n Hn.
  destruct (W_DecisionSpec n); [|by apply ends_settles; auto with takes nocore].
  assert (∀ e, takes i (eq n) (handleWorkflowDecisionFailure i e : P _) (settled a)) as Hf.
  { intros e. eapply takes_weaken; [| |apply settles_decisionFailure]; [by intros ? <-|done]. }
  apply takes_gets. intros conf. destruct (negb conf); [apply Hf|].
  apply takes_gets. intros s. apply takes_call. intros [res|err]; [|apply Hf].
  apply ends_settles; auto with takes nocore.
Qed.

Lemma settles_service i a : settles i a (executeWorkflowService i).
Proof.
  unfold executeWorkflowService. apply takes_node. intros n Hn.
  destruct (W_ServiceSpec n); [|by apply ends_settles; auto with takes nocore].
  apply takes_gets. intros s. apply takes_call. intros [o|[msg kind|]].
  - apply ends_settles; auto with takes nocore.
  - destruct (shouldWorkflowRetry _ _ _) eqn:Hr; [|apply ends_settles; auto with takes nocore].
    apply (takes_retry _ (eq n)). intros ? <-. apply should_retry_allowed in Hr. by destruct Hn.
  - apply ends_settles; auto with takes nocore.
Qed.

Lemma takes_then_ret {A B} i p q (m : P A) (b : B) : takes i p m q → takes i p (m ≫= λ _, mret b) q.
Proof. intros Hm. apply (takes_seq _ _ _ q); [done|done|]. intros _. by apply takes_ret. Qed.

Lemma settles_kind i a now : settles i a (start_kind i now).
Proof.
  unfold start_kind. apply takes_node. intros n Hn.
  assert (∀ A (m : P A), settles i a m → takes i (eq n) m (settled a)) as Hs.
  { intros A m. apply takes_weaken; [by intros ? <-|done]. }
  repeat case_bool_decide.
  - apply takes_then_ret, Hs, settles_decision.
  - apply takes_then_ret, ends_settles; [apply ends_branch|done].
  - apply (takes_seq_ok _ _ _ sized); [apply human_ok| |].
    + eapply takes_weaken; [| |apply sized_human]; [intros ? <-; apply Hn|done].
    + intros [err|]; (eapply takes_weaken; [done|apply ended_settled|]); track.
  - apply takes_then_ret, ends_settles; [apply ends_function|done].
  - apply takes_then_ret, Hs, settles_service.
  - apply ends_settles; [apply ends_job|done].
Qed.

(** One attempt more. *)
Lemma start_settles i a :
  takes (W:=W) i (λ n, pending n ∧ sized n ∧ W_Attempt n = a ∧ (a < int_max)%Z) (startWorkflowNode i : P _) (settled a).
Proof.
  unfold startWorkflowNode. apply takes_call. intros now. apply takes_node. intros n (Hp&Hs&<-&Hmax).
  unfold pending in Hp. rewrite bool_decide_true by done. cbn [negb].
  apply takes_edit. cbv zeta.
  eapply (takes_weaken _ _ (above (W_Attempt n)) _ _ _); [|done|].
  { intros n' (m&<-&->). assert (is_int (W_Attempt n + 1)) as Hi.
    { revert Hs Hmax. unfold sized, is_int, int_min, int_max. lia. }
    unfold above, sized. case_match; cbn; rewrite (wrap64_id _ Hi); (split; [exact Hi|lia]). }
  apply (takes_seq_ok _ _ _ (above (W_Attempt n))).
  - intros e. unfold with_node, node. rewrite out_gets. destruct (_ !! i); [|done]. case_match; [done|].
    unfold state. rewrite out_gets. unfold out, call. by destruct (pre_script _ _ _).
  - apply takes_node. intros m Hm. case_match; [by apply takes_ret; intros ? <-|].
    apply takes_gets. intros s. apply takes_call_ret. by intros ? <-.
  - intros [err|]; [|apply settles_kind]. apply takes_then_ret.
    eapply takes_weaken; [|apply ended_settled|apply ends_fail_at]. by intros ? [? _].
Qed.

End Nodes.

(** ** What is left to do *)

(** The times that a node may still be started. *)
Definition starts_left (n : workflowNode) : nat :=
  if bool_decide (W_Status n = workflowStatusPending) then S (Z.to_nat (allowed (W_Retry n) - W_Attempt n)) else 0.

(** Machine integers, and an attempt left to count. *)
Definition paced (n : workflowNode) : Prop :=
  sized n ∧ (pending n → (W_Attempt n < int_max)%Z) ∧ (allowed (W_Retry n) <= int_max)%Z.

Lemma settled_paced a (n n' : workflowNode) :
  fixed n' = fixed n → pending n → W_Attempt n = a → paced n → settled a n' →
  paced n' ∧ starts_left n' < starts_left n.
Proof.
  intros Hf Hp Ha (Hs&_&Hal) (Hs'&Hp'). unfold starts_left. rewrite (bool_decide_true (W_Status n = _)) by done.
  split.
  - split_and!; [done| |by rewrite Hf]. intros H. apply Hp' in H. rewrite Hf in H. lia.
  - case_bool_decide as H; [|lia]. apply Hp' in H. rewrite Hf in *. lia.
Qed.

Abbreviation total := (sum_list_with starts_left).

Lemma total_alter f i nodes (n : workflowNode) :
  nodes !! i = Some n → starts_left (f n) < starts_left n → total (alter f i nodes) < total nodes.
Proof.
  intros Hi Hlt. rewrite <- (take_drop_middle nodes i n Hi) at 2.
  replace (alter f i nodes) with (take i nodes ++ f n :: drop (S i) nodes).
  - rewrite !sum_list_with_app. cbn. lia.
  - symmetry. rewrite <- (take_drop_middle nodes i n Hi) at 1. apply lookup_lt_Some in Hi.
    rewrite alter_app_r_alt by (rewrite length_take; lia). rewrite length_take. 
    replace (i - i `min` length nodes) with 0 by lia. done.
Qed.

(** ** The pass over the nodes *)

(** A node that changes was ready, and what it depends on is still completed. *)
Definition started_from (now : time) (nodes' : list workflowNode) (n n' : workflowNode) : Prop :=
  n' = n ∨ (pending n ∧ fixed n' = fixed n ∧ workflowNodeRetryDue n now = true ∧
            workflowDepsCompleted nodes' (W_DependsOn n) = true).

(** Completed nodes stay as they are. *)
Definition completed_kept (n n' : workflowNode) : Prop := n' = n ∨ (pending n ∧ fixed n' = fixed n).

Lemma by_id_Forall2 (R : workflowNode → workflowNode → Prop) nodes nodes' id n :
  (∀ x y : workflowNode, R x y → W_ID y = W_ID x) → Forall2 R nodes nodes' → by_id nodes id = Some n →
  ∃ n', by_id nodes' id = Some n' ∧ R n n'.
Proof.
  intros HR H. rewrite !by_id_last. intros Hn.
  assert (Forall2 R (filter (λ n : workflowNode, W_ID n = id) nodes)
                    (filter (λ n : workflowNode, W_ID n = id) nodes')) as Hf.
  { clear Hn. induction H as [|x y l k Hxy Hl IH]; [done|]. rewrite !filter_cons, (HR _ _ Hxy).
    destruct (decide _); [by constructor|done]. }
  apply Forall2_last in Hf. rewrite Hn in Hf. inversion Hf as [? y HR' Hx Hy|]; subst. eauto.
Qed.

Lemma deps_completed_mono nodes nodes' deps :
  Forall2 completed_kept nodes nodes' → workflowDepsCompleted nodes deps = true →
  workflowDepsCompleted nodes' deps = true.
Proof.
  intros Hk. unfold workflowDepsCompleted. rewrite !forallb_forall. intros Hd dep Hin.
  specialize (Hd dep Hin). destruct (by_id nodes (TrimSpace dep)) as [n|] eqn:Hn; [|done].
  destruct (by_id_Forall2 completed_kept nodes nodes' (TrimSpace dep) n) as (n'&->&[->|[Hp _]]); [|done|done|done|].
  - intros x y [->|[_ Hf]]; [done|by rewrite Hf].
  - apply bool_decide_eq_true in Hd. unfold pending in Hp. rewrite Hp in Hd. done.
Qed.

Definition started (now : time) (nodes nodes' : list workflowNode) : Prop :=
  Forall2 (started_from now nodes') nodes nodes'.

Lemma started_kept now nodes nodes' : started now nodes nodes' → Forall2 completed_kept nodes nodes'.
Proof. intros H. eapply Forall2_impl; [exact H|]. intros n n' [->|(?&?&_)]; [by left|by right]. Qed.

#[local] Instance started_preorder now : PreOrder (started now).
Proof.
  split.
  - intros nodes. apply Forall_Forall2_diag, Forall_forall. intros n _. by left.
  - intros n1 n2 n3 H12 H23. pose proof (started_kept _ _ _ H23) as Hk. unfold started in *.
    apply Forall2_same_length_lookup_2.
    { apply Forall2_length in H12, H23. congruence. }
    intros i x z Hx Hz. destruct (Forall2_lookup_l _ _ _ _ _ H12 Hx) as (y&Hy&Hxy).
    destruct (Forall2_lookup_l _ _ _ _ _ H23 Hy) as (z'&Hz'&Hyz). replace z' with z in * by congruence.
    destruct Hxy as [->|(Hp&Hf&Hd&Hc)]; [done|]. right. split_and!; [done| |done|by eapply deps_completed_mono].
    destruct Hyz as [->|(_&Hf'&_)]; [done|]. by rewrite Hf'.
Qed.

Section Pass.
Context {U : Unicode} {F : FlowLib} {L : WorkflowLib} {J : JSONLib} {W : Type} {V : Services W}.

Abbreviation P := (M (engine W) string).
Implicit Types e : engine W.

(** Starting a ready node. *)
Lemma start_one_slot now i e (n : workflowNode) :
  WNodes (wf e) !! i = Some n → ready (wf e) now n = true →
  started now (WNodes (wf e)) (WNodes (wf (run (startWorkflowNode i : P _) e))).
Proof.
  intros Hi Hr. destruct (touches_start i e) as (_&_&_&f&Hf&->).
  unfold ready in Hr. apply andb_true_iff in Hr as [[Hp Hd]%andb_true_iff Hdue]. apply bool_decide_eq_true in Hp.
  assert (Forall2 completed_kept (WNodes (wf e)) (alter f i (WNodes (wf e)))) as Hk.
  { apply Forall2_same_length_lookup_2; [by rewrite length_alter|]. intros j x y Hx.
    destruct (decide (i = j)) as [<-|]; [rewrite list_lookup_alter_eq, Hx|rewrite list_lookup_alter_ne, Hx by done];
      cbn; intros [= <-]; [right|by left]. split; [unfold pending; congruence|apply Hf]. }
  apply Forall2_same_length_lookup_2; [by rewrite length_alter|]. intros j x y Hx.
  destruct (decide (i = j)) as [<-|]; [rewrite list_lookup_alter_eq, Hx|rewrite list_lookup_alter_ne, Hx by done];
    cbn; intros [= <-]; [right|by left]. replace x with n in * by congruence.
  split_and!; [done|apply Hf|done|by eapply deps_completed_mono].
Qed.

Lemma start_counts i e (n : workflowNode) :
  Forall paced (WNodes (wf e)) → WNodes (wf e) !! i = Some n → pending n →
  let nodes' := WNodes (wf (run (startWorkflowNode i : P _) e)) in
  Forall paced nodes' ∧ total nodes' < total (WNodes (wf e)).
Proof.
  intros Hpaced Hi Hp. destruct (touches_start i e) as (_&_&_&f&Hf&Hn').
  assert (paced n) as Hpn by by eapply Forall_lookup_1.
  destruct (start_settles i (W_Attempt n) e n Hi) as (n'&Hin'&Hset).
  { destruct Hpn as (?&Hlt&_). split_and!; [done|done|done|by apply Hlt]. }
  rewrite Hn' in Hin'. rewrite list_lookup_alter_eq, Hi in Hin'. injection Hin' as <-.
  destruct (settled_paced (W_Attempt n) n (f n)) as [Hpf Hlt]; [apply Hf|done..|].
  rewrite Hn'. split; [|by eapply total_alter].
  apply Forall_lookup. intros j x. destruct (decide (i = j)) as [<-|].
  - rewrite list_lookup_alter_eq, Hi. by intros [= <-].
  - rewrite list_lookup_alter_ne by done. by apply Forall_lookup_1.
Qed.

Lemma start_ready_started deadline now slots a st e :
  started now (WNodes (wf e)) (WNodes (wf (run (start_ready deadline now slots a st : P _) e))).
Proof.
  revert a st e. induction slots as [|i slots IH]; intros a st e; [reflexivity|].
  cbn [start_ready]. unfold state. rewrite run_gets.
  destruct (WNodes (wf e) !! i) as [n|] eqn:Hi; [|reflexivity].
  destruct (ready (wf e) now n) eqn:Hr; cbn [negb]; [|apply IH].
  rewrite run_bind. pose proof (start_one_slot now i e n Hi Hr) as H1.
  destruct (out (startWorkflowNode i) e) as [[id ok]|err]; [|exact H1]. cbv zeta.
  rewrite run_call. etransitivity; [exact H1|]. destruct (context_done _ _) as [stopped w]. cbn [fst snd].
  destruct stopped; [reflexivity|]. exact (IH _ _ (mkEngine w _ (wf _))).
Qed.

(** C16: A node is started only when it may be. In one pass of the scheduler over
    the nodes, however it ends, a node that changes in any way was pending, its
    retry was due, and every node it depends on had completed and is still
    completed when the pass is over; no other node changes. *)
Theorem scheduler_safe deadline now slots a st e i (n n' : workflowNode) :
  WNodes (wf e) !! i = Some n →
  WNodes (wf (run (start_ready deadline now slots a st : P _) e)) !! i = Some n' → n' ≠ n →
  W_Status n = workflowStatusPending ∧ workflowNodeRetryDue n now = true ∧
  workflowDepsCompleted (WNodes (wf (run (start_ready deadline now slots a st : P _) e))) (W_DependsOn n) = true.
Proof.
  intros Hn Hn' Hne. pose proof (start_ready_started deadline now slots a st e) as H.
  destruct (Forall2_lookup_lr _ _ _ _ _ _ H Hn Hn') as [->|(?&_&?&?)]; [done|]. by split_and!.
Qed.

(** What a pass does to the count of starts, and what it returns. *)
Lemma start_ready_counts deadline now slots a st e e' a' st' :
  Forall paced (WNodes (wf e)) → start_ready deadline now slots a st e = (e', Ok (a', st')) →
  Forall paced (WNodes (wf e')) ∧ total (WNodes (wf e')) ≤ total (WNodes (wf e)) ∧
  (a' = true → a = true ∨ total (WNodes (wf e')) < total (WNodes (wf e))).
Proof.
  revert a st e. induction slots as [|i slots IH]; intros a st e Hp; cbn [start_ready].
  { intros [= <- <- _]. split_and!; [done|done|by left]. }
  unfold state. intros (s&e0&[= <- <-]&H)%M_bind_Ok.
  destruct (WNodes (wf e) !! i) as [n|] eqn:Hi; [|injection H as <- <- _; split_and!; [done|done|by left]].
  destruct (ready (wf e) now n) eqn:Hr; cbn [negb] in H; [|by apply IH in H].
  apply M_bind_Ok in H as ([id ok]&e1&Hs&H). pose proof Hr as [[Hpe _]%andb_true_iff _]%andb_true_iff.
  apply bool_decide_eq_true in Hpe.
  destruct (start_counts i e n Hp Hi Hpe) as [Hp1 Hlt]. unfold run in Hp1, Hlt. rewrite Hs in Hp1, Hlt. cbn in Hp1, Hlt.
  cbv zeta in H. apply M_bind_Ok in H as (stopped&e2&Hc&H). unfold call in Hc.
  destruct (context_done deadline (world e1)) as [b w]. injection Hc as <- <-. destruct b.
  - injection H as <- <- _. split_and!; [done|cbn; lia|right; cbn; lia].
  - apply IH in H as (?&Hle&_); [|done]. cbn in Hle. split_and!; [done|lia|right; lia].
Qed.

Lemma start_ready_idle deadline now slots st e e' st' :
  start_ready deadline now slots false st e = (e', Ok (false, st')) →
  e' = e ∧ ∀ i n, i ∈ slots → WNodes (wf e) !! i = Some n → 
    Forall (λ j, is_Some (WNodes (wf e) !! j)) slots → ready (wf e) now n = false.
Proof.
  assert (∀ slots st e e' st', start_ready deadline now slots true st e ≠ (e', Ok (false, st'))) as Htrue.
  { clear. induction slots as [|i slots IH]; intros st e e' st'; cbn [start_ready]; [by intros [=]|].
    unfold state. intros (s&e0&[= <- <-]&H)%M_bind_Ok. destruct (_ !! i); [|by injection H].
    destruct (ready _ _ _); cbn [negb] in H; [|by apply IH in H].
    apply M_bind_Ok in H as ([id ok]&e1&_&H). cbv zeta in H. apply M_bind_Ok in H as (b&e2&_&H).
    destruct b; [by injection H|by apply IH in H]. }
  revert st e. induction slots as [|i slots IH]; intros st e; cbn [start_ready].
  { intros [= <- _]. split; [done|]. by intros i n ?%elem_of_nil. }
  unfold state. intros (s&e0&[= <- <-]&H)%M_bind_Ok. destruct (WNodes (wf e) !! i) as [m|] eqn:Hi.
  - destruct (ready (wf e) now m) eqn:Hr; cbn [negb] in H.
    + apply M_bind_Ok in H as ([id ok]&e1&_&H). cbv zeta in H. apply M_bind_Ok in H as (b&e2&_&H).
      destruct b; [by injection H|by apply Htrue in H].
    + apply IH in H as [-> H]. split; [done|]. intros j n Hj Hn [_ Hall]%Forall_cons.
      apply elem_of_cons in Hj as [->|Hj]; [congruence|by eapply H].
  - injection H as <- _. split; [done|]. intros j n _ _ [[m Hm] _]%Forall_cons. congruence.
Qed.

End Pass.
