(* ===== verification/WorkflowAdvance.v ===== *)
(** * Durable workflows: the scheduler's loop ends

    Each round of [advanceWorkflowReadyNodes] that does anything uses up a start
    of a node or a pair of an edge and a node. Both are bounded: the retry
    policies bound the starts, and the limit on the nodes bounds the pairs. *)
From S2P Require Import Prelude GoStrings GoRunes JSON Cycles FlowModel FlowContracts FlowGraph FlowValidate WorkflowTypes WorkflowConditions WorkflowEngine WorkflowRun WorkflowOps WorkflowGraph WorkflowFrame WorkflowInv WorkflowOnce WorkflowSched.
From Stdlib Require Import Ascii ZArith Lia.

(** The keys of these edges and nodes. *)
Definition keys (edgeIDs nodeIDs : list string) : gset string :=
  list_to_set (edgeIDs ≫= λ e, workflowProcessedEdgeKey e <$> nodeIDs).

Lemma elem_of_keys es ns k :
  k ∈ keys es ns ↔ ∃ e n, e ∈ es ∧ n ∈ ns ∧ k = workflowProcessedEdgeKey e n.
Proof.
  unfold keys. rewrite elem_of_list_to_set, list_elem_of_bind. setoid_rewrite list_elem_of_fmap. naive_solver.
Qed.

Lemma keys_mono es ns ns' : ns ⊆ ns' → keys es ns ⊆ keys es ns'.
Proof. intros H k. rewrite !elem_of_keys. intros (e&n&?&?&->). exists e, n. auto. Qed.

Lemma keys_app es ns ns' : keys es (ns ++ ns') = keys es ns ∪ keys es ns'.
Proof.
  apply set_eq. intros k. rewrite elem_of_union, !elem_of_keys. setoid_rewrite elem_of_app. naive_solver.
Qed.

Lemma keys_size es ns : size (keys es ns) ≤ length es * length ns.
Proof.
  assert (∀ l : list string, size (list_to_set l : gset string) ≤ length l) as Hl.
  { induction l as [|x l IH]; cbn; [by rewrite size_empty|]. rewrite size_union_alt, size_singleton.
    assert (size (list_to_set l ∖ {[x]} : gset string) ≤ size (list_to_set l : gset string)); [|lia].
    apply subseteq_size. set_solver. }
  unfold keys. etrans; [apply Hl|]. clear Hl. induction es as [|e es IH]; cbn; [lia|].
  rewrite length_app, length_fmap. lia.
Qed.

(** The pairs that may still be processed: those of the nodes there are, and of
    those that the limit leaves room for. *)
Definition room (es ns : list string) (processed : gset string) : nat :=
  size (keys es ns ∖ processed) + length es * (Nat.max (Z.to_nat workflowMaxNodes) (length ns) - length ns).

Lemma room_step es ns new p p' :
  p ⊆ p' → p' ⊆ p ∪ keys es ns → (new = [] ∨ (Z.of_nat (length (ns ++ new)) <= workflowMaxNodes)%Z) →
  room es (ns ++ new) p' + size p' ≤ room es ns p + size p.
Proof.
  intros Hp Hk Hnew. unfold room. set (limit := Z.to_nat workflowMaxNodes).
  assert (size (keys es (ns ++ new) ∖ p') ≤ size (keys es ns ∖ p') + length es * length new) as H1.
  { rewrite keys_app. pose proof (keys_size es new). etrans; [|apply Nat.add_le_mono_l; exact H].
    etrans; [apply (subseteq_size _ ((keys es ns ∖ p') ∪ keys es new)); set_solver|].
    rewrite size_union_alt. apply Nat.add_le_mono_l, subseteq_size. set_solver. }
  assert (size (keys es ns ∖ p') + size p' ≤ size (keys es ns ∖ p) + size p) as H2.
  { replace (keys es ns ∖ p') with ((keys es ns ∖ p) ∖ (p' ∖ p)) by set_solver.
    rewrite size_difference by set_solver. rewrite (size_difference p' p) by done.
    pose proof (subseteq_size _ _ Hp). assert (size (p' ∖ p) ≤ size (keys es ns ∖ p)) as H3 by (apply subseteq_size; set_solver).
    rewrite size_difference in H3 by done. lia. }
  assert (length es * length new + length es * (Nat.max limit (length (ns ++ new)) - length (ns ++ new)) ≤
          length es * (Nat.max limit (length ns) - length ns)); [|lia].
  destruct Hnew as [->|Hnew]; [rewrite app_nil_r; cbn; lia|].
  rewrite <- Nat.mul_add_distr_l. apply Nat.mul_le_mono_l. rewrite length_app in *. lia.
Qed.

(** The starts that a template gives its nodes. *)
Definition starts_of (p : option RetryPolicy) : nat := S (Z.to_nat (allowed (normalizeWorkflowRetryPolicy p))).
Definition template (ed : workflowEdge) : option RetryPolicy := I_Retry (WE_Append ed).

Section Spends.
Context {U : Unicode} {F : FlowLib} {L : WorkflowLib} {J : JSONLib} {W : Type} {V : Services W}.
Context (B : nat) (ns : list string).

Abbreviation P := (M (engine W) string).
Implicit Types e : engine W.

Definition fits (p : option RetryPolicy) : Prop :=
  starts_of p ≤ B ∧ (allowed (normalizeWorkflowRetryPolicy p) <= int_max)%Z.
Definition calmer (n n' : workflowNode) : Prop := starts_left n' ≤ starts_left n ∧ (paced n → paced n').
Definition light (n : workflowNode) : Prop := starts_left n ≤ B ∧ paced n.

#[local] Instance calmer_preorder : PreOrder calmer.
Proof. split; [by split|]. intros a b c [? ?] [? ?]. split; [lia|auto]. Qed.

(** What processing edges costs, for the nodes of these names. *)
Record spends e e' : Prop := {
  spends_templates : template <$> WEdges (wf e') = template <$> WEdges (wf e);
  spends_edges : edge_ids (WEdges (wf e')) = edge_ids (WEdges (wf e));
  spends_nodes : Forall fits (template <$> WEdges (wf e)) → extension calmer light (WNodes (wf e)) (WNodes (wf e'));
  spends_keys : ProcessedEdges (Summary (wf e')) ⊆
    ProcessedEdges (Summary (wf e)) ∪ keys (edge_ids (WEdges (wf e))) ns;
}.

#[export] Instance spends_preorder : PreOrder spends.
Proof.
  split.
  - intros e. split; [done|done|by intros; apply extension_same|set_solver].
  - intros e1 e2 e3 [Ht He Hn Hk] [Ht' He' Hn' Hk']. split; [congruence|congruence| |].
    + intros H. eapply extension_trans; [apply _| |by apply Hn|apply Hn'; by rewrite Ht].
      intros x y [Hle Hp] [Hb Hx]. split; [lia|auto].
    + rewrite He in Hk'. etrans; [exact Hk'|]. apply union_subseteq. split; [exact Hk|apply union_subseteq_r].
Qed.

(** The nodes and the edges stay, and the keys. *)
Lemma spends_same e e' :
  WNodes (wf e') = WNodes (wf e) → WEdges (wf e') = WEdges (wf e) →
  ProcessedEdges (Summary (wf e')) = ProcessedEdges (Summary (wf e)) → spends e e'.
Proof.
  intros Hn He Hk. split; [by rewrite He|by rewrite He| |rewrite Hk; set_solver].
  intros _. rewrite Hn. by apply extension_same.
Qed.

Lemma mark_calmer id msg now nodes :
  Forall2 calmer nodes (update_first (λ n : workflowNode, bool_decide (W_ID n = id)) (mark_error msg now) nodes).
Proof.
  induction nodes as [|n nodes IH]; cbn; [done|]. case_bool_decide; constructor; try done.
  assert (¬ pending (mark_error msg now n) ∧ W_Attempt (mark_error msg now n) = W_Attempt n ∧
    fixed (mark_error msg now n) = fixed n) as (Hp&Ha&Hf).
  { unfold pending, mark_error. by case_match. }
  unfold calmer, paced, sized, starts_left. rewrite Ha, Hf, bool_decide_false by done. split; [lia|].
  intros (?&_&?). by split_and!.
Qed.

Lemma grow_light s input now newNodes :
  fits (I_Retry input) → grow s [input] now = Ok newNodes → Forall light newNodes.
Proof.
  intros Hfit H. unfold grow in H. apply result_bind_Ok in H as (nn&Hnn&H).
  destruct (validateWorkflowDeps _); [done|]. injection H as <-.
  cbn [workflowNodesFromInputs] in Hnn. apply result_bind_Ok in Hnn as (n&Hn&Hnn). injection Hnn as <-.
  apply node_from_input_Ok in Hn as (_&_&(Hs&Ha&_)&kind&prompt&d&b&Heq). constructor; [|done].
  assert (W_Retry n = normalizeWorkflowRetryPolicy (I_Retry input)) as Hr by by rewrite Heq.
  destruct Hfit as [Hb Hm]. unfold light, starts_left, paced, sized, pending. rewrite Hr, Hs, Ha.
  rewrite bool_decide_true by done. unfold starts_of in Hb. rewrite Z.sub_0_r. split; [done|].
  split_and!; [done|done|done].
Qed.

Lemma spends_expand source iteration j e :
  template <$> alter (expanded_edge source iteration) j (WEdges (wf e)) = template <$> WEdges (wf e) ∧
  edge_ids (alter (expanded_edge source iteration) j (WEdges (wf e))) = edge_ids (WEdges (wf e)).
Proof.
  split; apply list_eq; intros k; unfold edge_ids; rewrite !list_lookup_fmap;
    (destruct (decide (j = k)) as [<-|]; [rewrite list_lookup_alter_eq|by rewrite list_lookup_alter_ne]);
    by destruct (WEdges (wf e) !! j).
Qed.

Lemma fire_edge_spends (n : workflowNode) j ed e :
  template ed ∈ template <$> WEdges (wf e) → spends e (run (fire_edge n j ed : P unit) e).
Proof.
  intros Hed. unfold fire_edge, state. rewrite run_gets. case_match.
  - rewrite run_bind. destruct (mark_run (W_ID n) ("workflow edge " +:+ WE_ID ed +:+ " reached iteration cap "
      +:+ itoa (max_iterations ed)) e) as (w&now&->&->). rewrite run_call.
    split; [done|done| |cbn; set_solver]. intros _. apply extension_same, mark_calmer.
  - set (iteration := wrap64 _).
    set (input := if bool_decide _ then _ else _).
    assert (I_Retry input = template ed) as Hi by by unfold input; case_match.
    clearbody input. unfold change. rewrite run_update. set (e1 := set_wf _ e).
    destruct (spends_expand (W_ID n) iteration j e) as [Ht He].
    assert (spends e e1) as H1.
    { split; [exact Ht|exact He|by intros; apply extension_same|cbn; set_solver]. }
    etransitivity; [exact H1|].
    assert (template ed ∈ template <$> WEdges (wf e1)) as Hed1 by by rewrite (spends_templates _ _ H1).
    clearbody e1. clear -Hi Hed1.
    rewrite run_bind. unfold appendWorkflowNodesFromEdge, state. rewrite run_gets, out_gets.
    destruct (over_limit _ _); [reflexivity|]. rewrite run_call, out_call.
    destruct (clock (world e1)) as [now w]. cbn [fst snd].
    destruct (grow _ _ _) as [newNodes|] eqn:Hgrow; [|by apply spends_same].
    destruct (validateWorkflowEdges _ _); [by apply spends_same|].
    split; [done|done| |cbn; set_solver]. intros Hfit.
    exists (WNodes (wf e1)), newNodes. split_and!; [done|done|]. eapply grow_light; [|exact Hgrow].
    rewrite Hi. by eapply Forall_forall.
Qed.

Lemma process_edge_spends (n : workflowNode) j : W_ID n ∈ ns → respects spends (process_edge n j : P bool).
Proof.
  intros Hn. apply respects_read. intros e. destruct (WEdges (wf e) !! j) as [ed|] eqn:Hj; [|reflexivity].
  cbv zeta. destruct (negb _ || bool_decide (_ ∈ ProcessedEdges _)); [reflexivity|].
  unfold change_summary, change. rewrite run_update. set (e1 := set_wf _ e).
  assert (template ed ∈ template <$> WEdges (wf e)) as Hed.
  { apply list_elem_of_fmap_2. by eapply list_elem_of_lookup_2. }
  assert (spends e e1) as H1.
  { split; [done|done|by intros; apply extension_same|]. cbn. apply union_subseteq. split; [|set_solver].
    apply singleton_subseteq_l, elem_of_union_r, elem_of_keys. exists (WE_ID ed), (W_ID n).
    split_and!; [|done|done]. apply list_elem_of_fmap_2. by eapply list_elem_of_lookup_2. }
  etransitivity; [exact H1|]. rewrite run_bind. destruct (workflowEdgeConditionMatchesState _ _ n).
  - pose proof (fire_edge_spends n j ed e1 Hed) as Hf. by destruct (out _ e1).
  - by destruct (out (mret tt) e1).
Qed.

End Spends.

(** ** One round *)

Section Rounds.
Context {U : Unicode} {F : FlowLib} {L : WorkflowLib} {J : JSONLib} {W : Type} {V : Services W}.

Abbreviation P := (M (engine W) string).
Implicit Types e : engine W.

Lemma respects_any_of_in (R : engine W → engine W → Prop) `{!PreOrder R} {A} (f : A → P bool) l :
  (∀ x, x ∈ l → respects R (f x)) → respects R (any_of f l).
Proof.
  induction l as [|x l IH]; intros Hf; cbn [any_of]; [apply respects_ret; apply _|].
  apply respects_bind; [apply _|apply Hf; by left|]. intros a. apply respects_bind; [apply _| |].
  - apply IH. intros y ?. apply Hf. by right.
  - intros b. apply respects_ret; apply _.
Qed.

Definition processed e : gset string := ProcessedEdges (Summary (wf e)).

Lemma process_spends B e : spends B (node_ids (WNodes (wf e))) e (run (processWorkflowEdges : P bool) e).
Proof.
  assert (∀ n : workflowNode, n ∈ WNodes (wf e) → W_ID n ∈ node_ids (WNodes (wf e))) as Hns.
  { intros n. apply (list_elem_of_fmap_2 (λ n : workflowNode, W_ID n)). }
  generalize dependent (node_ids (WNodes (wf e))). intros ns Hns.
  assert (∀ e' (b : bool), spends B ns e'
    (run (if b then now ← call clock; change_summary (touch now);; s ← state;
                    (if bool_decide (S_Status (Summary s) = workflowStatusError) then mret tt else refreshWorkflowStatus);;
                    mret true else mret false : P bool) e')) as Hend.
  { intros e' [|]; [|reflexivity]. rewrite run_call. unfold change_summary, change. rewrite run_update.
    unfold state. rewrite run_gets, run_bind. set (e1 := set_wf _ _).
    assert (spends B ns e' e1) as H1 by by apply spends_same.
    case_bool_decide; [exact H1|]. etransitivity; [exact H1|].
    destruct (refresh_keeps_graph e1 (run refreshWorkflowStatus e1) tt) as (?&?&?); [done|]. by apply spends_same. }
  unfold processWorkflowEdges, state. rewrite run_gets. destruct (is_nil _); [reflexivity|].
  rewrite run_bind.
  assert (spends B ns e (run (any_of process_node (WNodes (wf e)) : P bool) e)) as Hr.
  { apply (respects_any_of_in (spends B ns)). intros n Hn. unfold process_node.
    apply respects_bind; [apply _|apply respects_gets; apply _|]. intros s.
    case_match; [|apply respects_ret; apply _]. apply (respects_any_of_in (spends B ns)). intros j _.
    apply process_edge_spends. by apply Hns. }
  destruct (out _ e) as [b|err]; [|exact Hr]. etransitivity; [exact Hr|apply Hend].
Qed.

(** A round that answers [true] has marked a pair. *)
Lemma any_of_marks {A} (f : A → P bool) l e e' :
  (∀ x, respects grows (f x)) → (∀ x e e', f x e = (e', Ok true) → size (processed e) < size (processed e')) →
  any_of f l e = (e', Ok true) → size (processed e) < size (processed e').
Proof.
  intros Hg Hf. assert (∀ m e e' b, respects grows (m : P bool) → m e = (e', Ok b) → size (processed e) ≤ size (processed e')) as Hle.
  { intros m e1 e2 b Hm H. specialize (Hm e1). unfold run in Hm. rewrite H in Hm.
    apply subseteq_size, (grows_processed _ _ Hm). }
  revert e. induction l as [|x l IH]; intros e; cbn [any_of]; [by intros [=]|].
  intros (a&e1&Hx&H)%M_bind_Ok. apply M_bind_Ok in H as (b&e2&Hl&H). injection H as <- Hab.
  pose proof (Hle _ _ _ _ (Hg x) Hx). pose proof (Hle _ _ _ _ (respects_any_of grows f l Hg) Hl).
  destruct a; [apply Hf in Hx; lia|]. destruct b; [apply IH in Hl; lia|done].
Qed.

Lemma process_edge_marks (n : workflowNode) j e e' :
  process_edge n j e = (e', Ok true) → size (processed e) < size (processed e').
Proof.
  intros H. unfold process_edge, state in H. apply M_bind_Ok in H as (s&e1&[= <- <-]&H).
  destruct (WEdges (wf e) !! j) as [ed|]; [|done]. cbv zeta in H.
  destruct (negb _ || bool_decide (_ ∈ ProcessedEdges _)) eqn:Hskip; [done|].
  apply orb_false_iff in Hskip as [_ Hnew]. apply bool_decide_eq_false in Hnew.
  apply M_bind_Ok in H as (u&e2&Hmark&H). apply M_bind_Ok in H as (u'&e3&Hfire&[= ->]).
  assert (processed e2 = {[workflowProcessedEdgeKey (WE_ID ed) (W_ID n)]} ∪ processed e) as H2.
  { unfold change_summary, change, update in Hmark. by injection Hmark as <- _. }
  assert (processed e' = processed e2) as ->.
  { destruct (workflowEdgeConditionMatchesState _ _ n); [|by injection Hfire as ->].
    pose proof (fire_edge_fires n j ed e2) as Hf. unfold run in Hf. rewrite Hfire in Hf.
    apply (fires_processed _ _ _ Hf). }
  rewrite H2, size_union by set_solver. rewrite size_singleton. unfold processed. lia.
Qed.

Lemma process_marks e e' :
  (processWorkflowEdges : P bool) e = (e', Ok true) → size (processed e) < size (processed e').
Proof.
  unfold processWorkflowEdges, state. intros (s&e1&[= <- <-]&H)%M_bind_Ok. destruct (is_nil _); [done|].
  apply M_bind_Ok in H as (b&e2&Hr&H). destruct b; [|done].
  assert (size (processed e) < size (processed e2)) as Hlt.
  { eapply any_of_marks; [apply process_node_grows| |exact Hr]. intros n e3 e4. unfold process_node, state.
    intros (s&e5&[= <- <-]&H')%M_bind_Ok. case_match; [|done].
    eapply any_of_marks; [|apply process_edge_marks|exact H']. intros j. apply process_edge_grows. }
  enough (processed e' = processed e2) as -> by done.
  apply M_bind_Ok in H as (now&e3&Hc&H). unfold call in Hc. destruct (clock (world e2)) as [t w]. injection Hc as <- <-.
  apply M_bind_Ok in H as (u&e4&[= <- _]&H). apply M_bind_Ok in H as (s&e5&[= <- <-]&H).
  apply M_bind_Ok in H as (u'&e6&Hs&[= <-]). case_bool_decide; [by injection Hs as <-|].
  apply refresh_keeps_graph in Hs as (_&_&Hp). exact Hp.
Qed.

End Rounds.

(** ** The loop *)

Section Loop.
Context {U : Unicode} {F : FlowLib} {L : WorkflowLib} {J : JSONLib} {W : Type} {V : Services W}.

Abbreviation P := (M (engine W) string).
Implicit Types e : engine W.

(** What the loop may still do, when no template gives more than [B] starts. *)
Definition work (B : nat) (s : workflowState) : nat :=
  room (edge_ids (WEdges s)) (node_ids (WNodes s)) (ProcessedEdges (Summary s)) * S B + total (WNodes s).

(** The states in which the loop works: machine integers. *)
Definition steady (B : nat) e : Prop := Forall paced (WNodes (wf e)) ∧ Forall (fits B) (template <$> WEdges (wf e)).

Lemma total_calmer l k : Forall2 calmer l k → total k ≤ total l.
Proof. induction 1 as [|x y l k [? _]]; cbn; lia. Qed.

Lemma total_light B l : Forall (light B) l → total l ≤ B * length l.
Proof. induction 1 as [|x l [? _]]; cbn; lia. Qed.

Lemma process_steady B e : steady B e → steady B (run (processWorkflowEdges : P bool) e).
Proof.
  intros [Hp Hf]. destruct (process_spends B e) as [Ht _ Hn _]. split; [|by rewrite Ht].
  destruct (Hn Hf) as (old&new&->&Ho&Hl). apply Forall_app. split.
  - clear -Ho Hp. induction Ho as [|x y l k [_ Hxy] Ho IH]; [done|]. apply Forall_cons in Hp as [? ?]. constructor; auto.
  - eapply Forall_impl; [exact Hl|]. by intros n [_ ?].
Qed.

Lemma process_work B e e' b :
  steady B e → (processWorkflowEdges : P bool) e = (e', Ok b) →
  work B (wf e') ≤ work B (wf e) ∧ (b = true → work B (wf e') < work B (wf e)).
Proof.
  intros [_ Hf] H. pose proof (process_spends B e) as Hs. pose proof (process_grows e) as Hg.
  assert (b = true → size (processed e) < size (processed e')) as Hb by (intros ->; by apply process_marks).
  unfold run in Hs, Hg. rewrite H in Hs, Hg. cbn in Hs, Hg. destruct Hs as [_ Hed Hn Hk].
  pose proof (grows_processed _ _ Hg) as Hsub.
  destruct (Hn Hf) as (old&new&Heq&Ho&Hl). destruct (grows_nodes _ _ Hg) as (old'&new'&Heq'&Ho'&Hc&Hlim).
  assert (old = old' ∧ new = new') as [<- <-].
  { apply app_inj_1; [|congruence]. apply Forall2_length in Ho, Ho'. congruence. }
  assert (node_ids (WNodes (wf e')) = node_ids (WNodes (wf e)) ++ node_ids new) as Hids.
  { rewrite Heq, node_ids_app. by rewrite (same_graph_ids _ _ (same_fixed_graph _ _ Ho')). }
  assert (node_ids new = [] ∨ (Z.of_nat (length (node_ids (WNodes (wf e)) ++ node_ids new)) <= workflowMaxNodes)%Z) as Hlim'.
  { destruct Hlim as [->|Hlim]; [by left|right]. rewrite <- Hids. unfold node_ids. by rewrite length_fmap. }
  pose proof (room_step (edge_ids (WEdges (wf e))) _ _ _ _ Hsub Hk Hlim') as Hroom.
  unfold work. rewrite Hed, Hids. rewrite Heq, sum_list_with_app.
  apply total_calmer in Ho. apply total_light in Hl. unfold processed in Hb.
  set (r' := room _ _ (ProcessedEdges (Summary (wf e')))) in *. set (r := room _ _ (ProcessedEdges (Summary (wf e)))) in *.
  set (d := size (ProcessedEdges (Summary (wf e')))) in *. set (d0 := size (ProcessedEdges (Summary (wf e)))) in *.
  assert (r' * S B + B * length new + (d - d0) ≤ r * S B); [|split; [lia|intros Hx; specialize (Hb Hx); lia]].
  assert (r' + (d - d0) ≤ r) as H1 by lia. assert (length new ≤ d - d0) as H2 by lia.
  clear -H1 H2. nia.
Qed.

Lemma start_steady B deadline now slots a st e e' a' st' :
  steady B e → start_ready deadline now slots a st e = (e', Ok (a', st')) →
  steady B e' ∧ work B (wf e') ≤ work B (wf e) ∧ (a' = true → a = true ∨ work B (wf e') < work B (wf e)).
Proof.
  intros [Hp Hf] H. destruct (start_ready_counts _ _ _ _ _ _ _ _ _ Hp H) as (Hp'&Hle&Hlt).
  pose proof (evolves_start_ready deadline now slots a st e) as He. unfold run in He. rewrite H in He. cbn in He.
  destruct He as (_&He&Hl&Hn). injection Hl as _ _ _ Hk.
  assert (work B (wf e') + total (WNodes (wf e)) = work B (wf e) + total (WNodes (wf e'))) as Hw.
  { unfold work. rewrite He, Hk, (same_graph_ids _ _ (same_fixed_graph _ _ Hn)). lia. }
  split_and!; [|lia|].
  - split; [done|]. by rewrite He.
  - intros Ha. destruct (Hlt Ha); [by left|right; lia].
Qed.

(** With more fuel than work the loop ends. *)
Lemma advance_loop_ends B fuel deadline now changed st e :
  steady B e → work B (wf e) < fuel → out (advance_loop fuel deadline now changed st : P _) e ≠ Ok None.
Proof.
  revert changed st e. induction fuel as [|fuel IH]; intros changed st e Hs Hw; [lia|]. cbn [advance_loop].
  unfold state. rewrite out_gets. case_match; [done|]. rewrite out_call.
  destruct (context_done deadline (world e)) as [stopped w]. cbn [fst snd]. destruct stopped; [done|].
  set (e1 := mkEngine w (disk e) (wf e)). rewrite out_bind.
  destruct (start_ready deadline now (seq 0 (length (WNodes (wf e)))) false st e1) as [e2 r] eqn:Hst.
  unfold out at 1. rewrite Hst. unfold run at 1. rewrite Hst. cbn [snd fst].
  destruct r as [[a' st']|err]; [|done]. destruct (start_steady B _ _ _ _ _ e1 _ _ _ Hs Hst) as (Hs2&Hle&Hlt).
  cbv zeta. rewrite out_bind.
  destruct (processWorkflowEdges e2) as [e3 r] eqn:Hpr.
  unfold out at 1. rewrite Hpr. unfold run at 1. rewrite Hpr. cbn [snd fst]. destruct r as [b|err]; [|done].
  pose proof (process_steady B e2 Hs2) as Hs3. unfold run in Hs3. rewrite Hpr in Hs3. cbn in Hs3.
  destruct (process_work B e2 e3 b Hs2 Hpr) as [Hle' Hlt'].
  destruct (a' || b) eqn:Hab; [|done]. apply IH; [done|]. change (wf e1) with (wf e) in *.
  apply orb_true_iff in Hab as [Ha|Hb]; [destruct (Hlt Ha); [done|lia]|specialize (Hlt' Hb); lia].
Qed.

End Loop.

(** ** From the stored workflow *)

Section Stored.
Context {U : Unicode} {F : FlowLib} {L : WorkflowLib} {J : JSONLib} {W : Type} {V : Services W}.

Abbreviation P := (M (engine W) string).
Implicit Types e : engine W.
Abbreviation kept i m := (takes (W:=W) i paced (m : P _) paced).

Lemma ended_paced (n n' : workflowNode) : fixed n' = fixed n → paced n → (∃ a, settled a n') → paced n'.
Proof.
  intros Hf (_&_&Ha) [a [Hs Hp]]. split_and!; [done| |by rewrite Hf]. intros H. apply Hp in H. rewrite Hf in H. lia.
Qed.

Lemma takes_settled i {A} (m : P A) :
  respects (touches i) m → takes i paced m (λ n, paced n ∨ ∃ a, settled a n) → kept i m.
Proof.
  intros Ht Hm e n Hn Hp. destruct (Hm e n Hn Hp) as (n'&Hn'&Hq). exists n'. split; [done|].
  destruct Hq as [?|Hq]; [done|]. eapply ended_paced; [|exact Hp|exact Hq].
  destruct (Ht e) as (_&_&_&f&Hf&Hfn). rewrite Hfn, list_lookup_alter_eq, Hn in Hn'. injection Hn' as <-. apply Hf.
Qed.

Lemma takes_other i j p {A} (m : P A) : i ≠ j → respects (touches j) m → takes i p m p.
Proof.
  intros Hij Ht e n Hn Hp. destruct (Ht e) as (_&_&_&f&_&->). exists n.
  by rewrite list_lookup_alter_ne.
Qed.

Lemma ends_settle i now st err o j :
  st ≠ workflowStatusPending → takes (W:=W) i sized (settle_job i now st err o j : P _) ended_at.
Proof.
  intros Hst. unfold settle_job. apply takes_edit.
  pose proof (stays_finalize (W:=W) i (J_Result j)). pose proof (stays_post (W:=W) i).
  eapply (takes_weaken _ _ ended_at); [|done|].
  { intros n (m&Hm&->). cbv zeta. unfold ended_at, pending, sized.
    destruct o; node_simpl; split; try exact Hst; by apply next_sized. }
  apply (takes_seq _ _ _ ended_at); [done|done|]. intros err'.
  apply (takes_seq _ _ _ ended_at); [destruct err'; track|done|]. intros u. track.
Qed.

Lemma kept_refresh_node now i j : kept i (refresh_node now j).
Proof.
  destruct (decide (i = j)) as [<-|Hij]; [|by apply (takes_other i j); [|apply touches_refresh]].
  apply takes_settled; [apply touches_refresh|]. unfold refresh_node. apply takes_node. intros n Hn.
  assert (∀ A (m : P A), takes i sized m ended_at → takes i (eq n) m (λ n, paced n ∨ ∃ a, settled a n)) as Hends.
  { intros A m. apply takes_weaken; [by intros ? <-; apply Hn|].
    intros n' Hn'. right. exists 0%Z. by apply ended_settled. }
  case_match; [by apply takes_ret; intros ? <-; left|].
  apply takes_call. intros [job|]; [|by apply takes_ret; intros ? <-; left].
  case_match; [by apply takes_ret; intros ? <-; left|].
  case_match; [|case_match].
  - destruct (job_outputs n (J_Result job)); apply takes_then_ret, Hends, ends_settle; done.
  - apply takes_then_ret, Hends, ends_settle. done.
  - destruct (shouldWorkflowRetry _ _ _) eqn:Hr; [|by apply takes_then_ret, Hends, ends_settle].
    apply takes_then_ret. eapply takes_weaken; [done| |apply (takes_retry _ (eq n) (W_Attempt n - 1))].
    + intros n' Hn'. right. by exists (W_Attempt n - 1)%Z.
    + intros ? <-. apply should_retry_allowed in Hr. destruct Hn as [Hs _]. split; [exact Hs|lia].
Qed.

Lemma takes_summary i p q f {B} (k : unit → P B) : takes i p (k tt) q → takes i p (change_summary f ≫= k) q.
Proof. intros Hk e n Hn. unfold change_summary, change. rewrite run_update. by apply Hk. Qed.

Lemma kept_any_of {A} i (f : A → P bool) l : (∀ x, kept i (f x)) → kept i (any_of f l).
Proof.
  intros Hf. induction l as [|x l IH]; cbn [any_of]; [by apply takes_ret|].
  apply (takes_seq _ _ _ paced); [done|done|]. intros a.
  apply (takes_seq _ _ _ paced); [done|done|]. intros b. by apply takes_ret.
Qed.

Lemma kept_status i {B} (k : unit → P B) : kept i (k tt) → kept i (refreshWorkflowStatus ≫= k).
Proof. intros Hk e n Hn. unfold refreshWorkflowStatus, change. rewrite run_update. by apply Hk. Qed.

Lemma kept_refresh i : kept i refreshWorkflowNodes.
Proof.
  unfold refreshWorkflowNodes. apply takes_call. intros now. apply takes_gets. intros s.
  apply (takes_seq _ _ _ paced); [apply kept_any_of; intros j; apply kept_refresh_node|done|].
  intros [|]; [|by apply takes_ret]. apply takes_summary, kept_status. by apply takes_ret.
Qed.

Lemma kept_expire_nodes now i j k : kept i (expire_nodes now j k).
Proof.
  revert j. induction k as [|k IH]; intros j; cbn [expire_nodes]; [by apply takes_ret|].
  apply (takes_seq _ _ _ paced); [|done|intros; apply IH].
  assert (respects (touches j) (with_node j tt (λ n : workflowNode,
    if live (W_Status n) then
      (if bool_decide (W_Status n = workflowStatusRunning) && negb (bool_decide (TrimSpace (W_JobID n) = ""))
       then call (cancel_job (W_JobID n)) else mret tt);;
      edit j (end_node workflowStatusCanceled "flow run deadline exceeded" now)
    else mret tt) : P unit)) as Ht by respect.
  destruct (decide (i = j)) as [<-|Hij]; [|by apply (takes_other i j)].
  apply takes_settled; [exact Ht|]. apply takes_node. intros n Hn.
  case_match; [|by apply takes_ret; intros ? <-; left].
  apply (takes_seq _ _ _ paced); [|by left|].
  - case_match; [apply takes_call_ret|apply takes_ret]; by intros ? <-.
  - intros u. apply takes_edit_ret. intros m (Hs&_). right. exists 0%Z. apply ended_settled. by split.
Qed.

Lemma kept_expire now i : kept i (expireWorkflowRun now).
Proof.
  unfold expireWorkflowRun. apply takes_gets. intros s. cbv zeta.
  repeat case_match; try (by apply takes_ret); [apply takes_summary; by apply takes_ret|].
  apply (takes_seq _ _ _ paced); [apply kept_expire_nodes|done|]. intros u. apply takes_summary. by apply takes_ret.
Qed.

Lemma kept_finalize i : kept i finalizeWorkflowRunOutputs.
Proof.
  unfold finalizeWorkflowRunOutputs, fail_run. apply takes_gets. intros s. cbv zeta.
  repeat case_match; try (by apply takes_ret); apply takes_summary; by apply takes_ret.
Qed.

(** What keeps each node keeps the state. *)
Lemma kept_steady B {A} (m : P A) : respects evolves m → (∀ i, kept i m) → preserves (steady B) m.
Proof.
  intros He Hk e [Hp Hf]. destruct (He e) as (_&Hed&_&Hn). split; [|by rewrite Hed].
  apply Forall_lookup. intros i n' Hi. destruct (Forall2_lookup_r _ _ _ _ _ Hn Hi) as (n&Hin&_).
  destruct (Hk i e n Hin) as (n2&Hi2&?); [by eapply Forall_lookup_1|]. congruence.
Qed.

(** Saving leaves the state at hand. *)
Definition same_state e e' : Prop := wf e' = wf e.

#[local] Instance same_state_preorder : PreOrder same_state.
Proof. split; [done|]. intros a b c. unfold same_state. congruence. Qed.

Lemma save_state : respects same_state (save : P unit).
Proof.
  assert (∀ path f, respects same_state (write path f : P unit)) as Hw.
  { intros path f e. destruct (write_cases path f e) as (?&?&?&->&_). done. }
  assert (∀ f, (∀ e, same_state e (f e)) → respects same_state (update f : P unit)) as Hu by done.
  unfold save. respect; try apply Hw. by apply Hu.
Qed.

(** The restriction on what is stored: machine integers in the nodes and in the
    retry policies of the templates, and an attempt left for pending nodes. *)
Definition stored_paced (d : files) (id : string) : Prop :=
  (∀ nodes, node_files d !! id = Some nodes → Forall paced nodes) ∧
  ∀ edges, edge_files d !! id = Some edges →
    Forall (λ p, (allowed (normalizeWorkflowRetryPolicy p) <= int_max)%Z) (template <$> edges).

(** The most starts that one of the templates gives. *)
Definition most_starts (edges : list workflowEdge) : nat := max_list (starts_of <$> (template <$> edges)).

Lemma most_starts_fits edges :
  Forall (λ p, (allowed (normalizeWorkflowRetryPolicy p) <= int_max)%Z) (template <$> edges) →
  Forall (fits (most_starts edges)) (template <$> edges).
Proof.
  unfold most_starts. generalize (template <$> edges). intros ps Hps. apply Forall_forall. intros p Hp. split.
  - apply max_list_elem_of_le. by apply list_elem_of_fmap_2.
  - rewrite Forall_forall in Hps. by apply Hps.
Qed.

Lemma load_steady id e :
  stored_paced (disk e) (TrimSpace id) → is_ok (out (load id : P unit) e) = true → ∃ B, steady B (run (load id : P unit) e).
Proof.
  intros [Hn He]. unfold load. destruct (validateWorkflowID _); [done|]. rewrite run_gets, out_gets.
  destruct (summaries (disk e) !! TrimSpace id) as [sum|]; [|done].
  destruct (node_files (disk e) !! TrimSpace id) as [nodes|]; [|done]. intros _.
  specialize (Hn nodes eq_refl). destruct (edge_files (disk e) !! TrimSpace id) as [edges|].
  - exists (most_starts edges). split; [cbn|by apply most_starts_fits, He]. apply Forall_fmap.
    eapply Forall_impl; [exact Hn|done].
  - exists 0. split; [cbn|constructor]. apply Forall_fmap. eapply Forall_impl; [exact Hn|done].
Qed.

Lemma state_steady id e :
  stored_paced (disk e) (TrimSpace id) → is_ok (out (workflowStateUnlocked id : P unit) e) = true →
  ∃ B, steady B (run (workflowStateUnlocked id : P unit) e).
Proof.
  intros Hd. unfold workflowStateUnlocked. rewrite run_bind, out_bind.
  pose proof (load_steady id e Hd) as Hl. destruct (out (load id) e) as [u|err]; [|done].
  destruct (Hl eq_refl) as [B HB]. clear Hl. intros _. exists B. revert HB. generalize (run (load id) e).
  change (preserves (steady B) (changed ← refreshWorkflowNodes; edgeChanged ← processWorkflowEdges;
    now ← call clock; expired ← expireWorkflowRun now; finalized ← finalizeWorkflowRunOutputs;
    if (changed || edgeChanged || expired || finalized : bool) then save else mret tt : P unit)).
  apply preserves_bind; [apply kept_steady; [auto with respect|apply kept_refresh]|]. intros a.
  apply preserves_bind; [exact (process_steady B)|]. intros b.
  apply preserves_bind; [intros e1 H1; unfold run, call; by destruct (clock (world e1))|]. intros now.
  apply preserves_bind; [apply kept_steady; [auto with respect|apply kept_expire]|]. intros c.
  apply preserves_bind; [apply kept_steady; [auto with respect|apply kept_finalize]|]. intros f.
  case_match; [|apply preserves_ret]. intros e1. unfold steady. by rewrite (save_state e1).
Qed.

(** The fuel of [advanceWorkflowReadyNodes], given the state it starts from. *)
Definition advance_fuel (s : workflowState) : nat := S (work (most_starts (WEdges s)) s).

(** C15: The scheduler's loop ends. Whatever the nodes, the edges and the services
    do, [advanceWorkflowReadyNodes] on a stored workflow never runs out of the
    fuel [advance_fuel] computes from the state at its beginning: each round
    uses up a start that a retry policy allows, or a pair of an edge and a node,
    of which the limit on the nodes leaves finitely many. *)
Theorem advance_terminates id b fuel e :
  stored_paced (disk e) (TrimSpace id) →
  advance_fuel (wf (run (workflowStateUnlocked id : P unit) e)) ≤ fuel →
  out (advanceWorkflowReadyNodes fuel id b : P _) e ≠ Ok None.
Proof.
  intros Hd. pose proof (state_steady id e Hd) as Hs. unfold advanceWorkflowReadyNodes. rewrite out_bind.
  destruct (out (workflowStateUnlocked id) e) as [u|err]; [|done]. destruct (Hs eq_refl) as [B0 [Hp Hf]]. clear Hs.
  generalize dependent (run (workflowStateUnlocked id : P unit) e). intros e1 Hp Hf Hfuel.
  assert (steady (most_starts (WEdges (wf e1))) e1) as Hs.
  { split; [done|]. apply most_starts_fits. eapply Forall_impl; [exact Hf|]. by intros p [_ ?]. }
  unfold advance_fuel in Hfuel. generalize dependent (most_starts (WEdges (wf e1))). intros B Hw Hs. clear B0 Hf Hp.
  unfold state. rewrite out_gets. case_match; [done|]. cbv zeta.
  set (enable := b && _). rewrite out_bind.
  assert (∃ e2, run (if enable then change_summary enable_auto else mret tt : P unit) e1 = e2 ∧
    out (if enable then change_summary enable_auto else mret tt : P unit) e1 = Ok tt ∧
    steady B e2 ∧ work B (wf e2) = work B (wf e1)) as (e2&->&->&Hs2&Hw2).
  { destruct enable; eexists; (split_and!; [done|done|exact Hs|done]). }
  rewrite out_call. set (e3 := mkEngine _ _ _). rewrite out_bind.
  pose proof (advance_loop_ends B fuel (RunTimeoutAt (Summary (wf e1))) (clock (world e2)).1 enable [] e3 Hs2) as Hloop.
  destruct (out (advance_loop _ _ _ _ _) e3) as [[[c st]|]|err]; [|exfalso; apply Hloop; [cbn; lia|done]|done].
  rewrite out_call, out_bind. destruct (out (expireWorkflowRun _) _) as [ex|err]; [|done].
  cbv zeta. rewrite out_bind. destruct (out _ _) as [u1|err]; [|done]. rewrite out_bind.
  destruct (out refreshWorkflowStatus _) as [u2|err]; [|done]. rewrite out_bind.
  destruct (out finalizeWorkflowRunOutputs _) as [fin|err]; [|done]. rewrite out_bind.
  destruct (out _ _) as [u3|err]; [|done]. rewrite out_bind. by destruct (out _ _).
Qed.

(** ** Nothing is left *)

Lemma process_false e e' : (processWorkflowEdges : P bool) e = (e', Ok false) → e' = e.
Proof.
  unfold processWorkflowEdges, state. intros (s&e1&[= <- <-]&H)%M_bind_Ok. destruct (is_nil _); [by injection H|].
  apply M_bind_Ok in H as (b&e2&Hr&H). destruct b.
  - apply M_bind_Ok in H as (?&?&_&H). apply M_bind_Ok in H as (?&?&_&H).
    apply M_bind_Ok in H as (?&?&_&H). by apply M_bind_Ok in H as (?&?&_&[=]).
  - injection H as ->. apply any_of_false in Hr as [-> _]; [done|]. clear. intros n e e'. unfold process_node, state.
    intros (s&e1&[= <- <-]&H)%M_bind_Ok. case_match; [|by injection H].
    apply any_of_false in H as [-> _]; [done|]. intros j e1 e2. apply process_edge_false.
Qed.

(** No node can be started at [now], and no edge has anything left to process. *)
Definition quiet (now : time) e : Prop :=
  Forall (λ n, ready (wf e) now n = false) (WNodes (wf e)) ∧ (processWorkflowEdges : P bool) e = (e, Ok false).

Lemma advance_loop_quiet fuel deadline now changed st e e' r :
  (∀ d w, (context_done d w).1 = false) → advance_loop fuel deadline now changed st e = (e', Ok (Some r)) →
  workflowTerminalStatus (S_Status (Summary (wf e'))) = true ∨ quiet now e'.
Proof.
  intros Hctx. revert changed st e. induction fuel as [|fuel IH]; intros changed st e; [done|]. cbn [advance_loop].
  unfold state. intros (s&e0&[= <- <-]&H)%M_bind_Ok.
  destruct (workflowTerminalStatus (S_Status (Summary (wf e)))) eqn:Ht; [injection H as <- _; by left|].
  apply M_bind_Ok in H as (stopped&e1&Hc&H). unfold call in Hc. pose proof (Hctx deadline (world e)) as Hno.
  destruct (context_done deadline (world e)) as [? w]. cbn in Hno. subst. injection Hc as <- <-.
  set (e1 := mkEngine w (disk e) (wf e)) in *. apply M_bind_Ok in H as ([a' st']&e2&Hst&H). cbv zeta in H.
  apply M_bind_Ok in H as (b&e3&Hpr&H). destruct (a' || b) eqn:Hab; [by apply IH in H|].
  injection H as <- _. apply orb_false_iff in Hab as [-> ->]. pose proof (process_false _ _ Hpr) as ->.
  apply start_ready_idle in Hst as [-> Hr]. right. split; [|exact Hpr].
  apply Forall_lookup. intros i n Hi. apply (Hr i n); [|exact Hi|].
  - apply elem_of_seq. apply lookup_lt_Some in Hi. cbn in Hi. lia.
  - apply Forall_forall. intros j Hj. apply lookup_lt_is_Some. apply elem_of_seq in Hj. cbn. lia.
Qed.

(** C17: The scheduler leaves nothing undone. On machine integers and with fuel
    enough, and unless the context is done or an edge fails to append its node,
    the loop returns, and then either the run has ended, or no node is ready any
    more (at the time that the loop took at its beginning) and no edge has
    anything left to process. *)
Theorem advance_quiesces B fuel deadline now changed st e e' r :
  steady B e → work B (wf e) < fuel → (∀ d w, (context_done d w).1 = false) →
  advance_loop fuel deadline now changed st e = (e', r) →
  (∃ err, r = Err err) ∨
  ((∃ started, r = Ok (Some started)) ∧
   (workflowTerminalStatus (S_Status (Summary (wf e'))) = true ∨ quiet now e')).
Proof.
  intros Hs Hw Hctx H. pose proof (advance_loop_ends B fuel deadline now changed st e Hs Hw) as Hend.
  unfold out in Hend. rewrite H in Hend. cbn in Hend. destruct r as [[r|]|err]; [|done|left; eauto].
  right. split; [eauto|]. by eapply advance_loop_quiet.
Qed.

End Stored.
