(* ===== verification/WorkflowSpec.v ===== *)
(** * Durable workflows: the store and the loops

    What is saved is loaded again; an append with a key happens once; and the
    two edges of a loop part the nodes they start from. *)
From S2P Require Import Prelude GoStrings GoRunes ShellPolicy JSON Cycles FlowModel FlowContracts FlowGraph FlowValidate WorkflowTypes WorkflowConditions WorkflowEngine WorkflowRun WorkflowOps WorkflowGraph WorkflowFrame WorkflowInv WorkflowOnce WorkflowSched WorkflowAdvance.
From Stdlib Require Import Ascii ZArith Lia SpecFloat.

(** ** Values *)

Lemma encoded_object_idemp m : encoded_object (encoded_object m) = encoded_object m.
Proof.
  unfold encoded_object. rewrite <- list_fmap_compose. apply list_fmap_ext. intros _ [k v] _. cbn.
  by rewrite encoded_idemp.
Qed.

Lemma encoded_node_idemp n : encoded_node (encoded_node n) = encoded_node n.
Proof.
  unfold encoded_node. destruct n as [? ? ? ? ? ? ? ? [d|] ? ? ? ? ? ?]; cbn; rewrite encoded_object_idemp; [|done].
  unfold encoded_decision. cbn. by rewrite encoded_object_idemp.
Qed.

Lemma encoded_summary_idemp s : encoded_summary (encoded_summary s) = encoded_summary s.
Proof. unfold encoded_summary. cbn. by rewrite !encoded_object_idemp. Qed.

Lemma normalizeWorkflowStrings_idemp l : normalizeWorkflowStrings (normalizeWorkflowStrings l) = normalizeWorkflowStrings l.
Proof.
  assert (∀ l, (∀ s, s ∈ l → TrimSpace s = s ∧ s ≠ "") → NoDup l → normalizeWorkflowStrings l = l) as Hid.
  { clear. intros l Hl Hnd. unfold normalizeWorkflowStrings.
    assert (TrimSpace <$> l = l) as ->.
    { rewrite <- (list_fmap_id l) at 2. apply list_fmap_ext. intros i x Hx. apply list_elem_of_lookup_2 in Hx. by apply Hl. }
    rewrite filter_all by (apply Forall_forall; intros s Hs; by apply Hl). by apply dedup_id. }
  apply Hid.
  - intros s Hs. apply normalizeWorkflowStrings_clean in Hs as [[? ?] _]. done.
  - apply NoDup_dedup.
Qed.

Section Nodes.
Context {U : Unicode}.

Lemma normalizeWorkflowHandoffPolicy_idemp p b :
  normalizeWorkflowHandoffPolicy (normalizeWorkflowHandoffPolicy p b) b = normalizeWorkflowHandoffPolicy p b.
Proof.
  unfold normalizeWorkflowHandoffPolicy at 2 3. cbv zeta. case_bool_decide as H; [|by destruct b].
  revert H. generalize (ToLower (TrimSpace p)). intros q Hq.
  repeat (apply elem_of_cons in Hq as [->|Hq]; [done|]). by apply elem_of_nil in Hq.
Qed.

Lemma normalizeWorkflowNodeKind_idemp k f :
  normalizeWorkflowNodeKind (normalizeWorkflowNodeKind k f) f = normalizeWorkflowNodeKind k f.
Proof.
  unfold normalizeWorkflowNodeKind. cbv zeta. destruct (bool_decide (TrimSpace k = "")) eqn:Hk; rewrite !TrimSpace_idemp.
  - by destruct (bool_decide (TrimSpace f = "")).
  - by rewrite Hk.
Qed.

Lemma normalizeWorkflowHandoffMaxBytes_idemp z :
  normalizeWorkflowHandoffMaxBytes (normalizeWorkflowHandoffMaxBytes z) = normalizeWorkflowHandoffMaxBytes z.
Proof.
  unfold normalizeWorkflowHandoffMaxBytes, workflowDefaultHandoffMaxBytes, workflowMaxHandoffMaxBytes.
  destruct (z <=? 0)%Z eqn:H0; [done|]. destruct (32000 <? z)%Z eqn:H1; [done|]. by rewrite H0, H1.
Qed.

Lemma load_node_idemp (n : workflowNode) : load_node (load_node n) = load_node n.
Proof.
  unfold load_node. destruct n as [[] ? ? ? ? ? ? ? ? ? ? ? ? ? ?].
  cbn -[normalizeWorkflowHandoffPolicy normalizeWorkflowNodeKind normalizeWorkflowHandoffMaxBytes normalizeWorkflowStrings].
  rewrite normalizeWorkflowHandoffPolicy_idemp, normalizeWorkflowNodeKind_idemp, normalizeWorkflowHandoffMaxBytes_idemp,
    normalizeWorkflowStrings_idemp.
  by destruct (_ && _).
Qed.

Lemma load_encoded (n : workflowNode) : encoded_node (load_node n) = load_node (encoded_node n).
Proof. done. Qed.

End Nodes.

(** ** The store *)

Section Store.
Context {U : Unicode} {F : FlowLib} {L : WorkflowLib} {J : JSONLib} {W : Type} {V : Services W}.

Abbreviation P := (M (engine W) string).
Implicit Types e : engine W.

(** What comes back of a state. *)
Definition reloaded (s : workflowState) : workflowState :=
  mkState (encoded_summary (Summary s)) (load_node <$> (encoded_node <$> WNodes s)) (WEdges s).

Lemma reloaded_idemp s : reloaded (reloaded s) = reloaded s.
Proof.
  unfold reloaded. cbn [Summary WNodes WEdges]. rewrite encoded_summary_idemp. f_equal.
  rewrite <- !list_fmap_compose. apply list_fmap_ext. intros _ n _. cbn [compose].
  unfold compose. by rewrite load_encoded, load_node_idemp, encoded_node_idemp.
Qed.

Lemma valid_id_trimmed id : validateWorkflowID id = None → TrimSpace id = id.
Proof.
  unfold validateWorkflowID. repeat (case_match; [done|]). destruct (all_bytes id_byte id) eqn:Hid; [|done].
  intros _. apply TrimSpace_plain. revert Hid. apply all_bytes_impl. intros a. unfold id_byte, plain, is_byte.
  rewrite !orb_true_iff, !bool_decide_eq_true. unfold lower_ascii, upper_ascii, is_digit.
  rewrite !andb_true_iff, !N.leb_le. intros Ha.
  repeat destruct Ha as [Ha|Ha]; try lia; subst; vm_compute; by split.
Qed.

(** The files after a save that has succeeded. *)
Definition saved (s : workflowState) (d : files) : files :=
  let id := S_ID (Summary s) in
  mkFiles ({[id]} ∪ dirs d) (<[id := encoded_summary (Summary s)]> (summaries d))
    (<[id := encoded_node <$> WNodes s]> (node_files d))
    (if is_nil (WEdges s) then base.delete id (edge_files d) else <[id := WEdges s]> (edge_files d)).

Lemma write_Ok path f e e' u : (write path f : P unit) e = (e', Ok u) → wf e' = wf e ∧ disk e' = f (disk e).
Proof.
  intros H. destruct (write_cases path f e) as (w&r&d&Hrun&Hout&Hc). unfold run, out in *. rewrite H in *. cbn in *.
  subst. destruct Hc as [[_ [err ?]]|[-> _]]; done.
Qed.

Lemma save_Ok e e' u : (save : P unit) e = (e', Ok u) → wf e' = wf e ∧ disk e' = saved (wf e) (disk e).
Proof.
  unfold save, state. intros (s&e0&[= <- <-]&H)%M_bind_Ok. cbv zeta in H.
  apply M_bind_Ok in H as (?&e1&[Hw1 Hd1]%write_Ok&H). apply M_bind_Ok in H as (?&e2&[Hw2 Hd2]%write_Ok&H).
  apply M_bind_Ok in H as (?&e3&[Hw3 Hd3]%write_Ok&H). unfold saved. destruct (is_nil (WEdges (wf e))).
  - injection H as <- _. split; [cbn; congruence|]. cbn. by rewrite Hd3, Hd2, Hd1.
  - apply write_Ok in H as [Hw4 Hd4]. split; [congruence|]. by rewrite Hd4, Hd3, Hd2, Hd1.
Qed.

(** C26: What has been saved is loaded. Once a save of a workflow with a valid
    name has succeeded, loading it succeeds and gives back the state, with its
    values as JSON keeps them and its nodes normalised; and nothing more is lost
    by saving and loading again. *)
Theorem save_load_roundtrip e e' u e'' r :
  validateWorkflowID (S_ID (Summary (wf e))) = None →
  (save : P unit) e = (e', Ok u) → (load (S_ID (Summary (wf e))) : P unit) e' = (e'', r) →
  r = Ok tt ∧ wf e'' = reloaded (wf e) ∧ reloaded (wf e'') = wf e''.
Proof.
  intros Hid [Hw Hd]%save_Ok Hl. unfold load in Hl. cbv zeta in Hl. rewrite (valid_id_trimmed _ Hid), Hid in Hl.
  unfold gets in Hl. unfold mbind, M_bind in Hl. rewrite Hd in Hl. unfold saved in Hl. cbn [summaries node_files edge_files] in Hl.
  rewrite !lookup_insert_eq in Hl. unfold update in Hl. injection Hl as <- <-. cbn [wf set_wf].
  assert (default [] ((if is_nil (WEdges (wf e)) then base.delete (S_ID (Summary (wf e))) (edge_files (disk e))
            else <[S_ID (Summary (wf e)) := WEdges (wf e)]> (edge_files (disk e))) !! S_ID (Summary (wf e))) = WEdges (wf e)) as He.
  { destruct (WEdges (wf e)); cbn; [by rewrite lookup_delete_eq|by rewrite lookup_insert_eq]. }
  rewrite He. split_and!; [done|done|apply reloaded_idemp].
Qed.

(** ** Appending once *)

(** The keys of the workflow at hand, and that its file has them too. *)
Definition keys_stored (id : string) e : Prop :=
  S_ID (Summary (wf e)) = id ∧
  ∃ sum, summaries (disk e) !! id = Some sum ∧ AppendKeys sum = AppendKeys (Summary (wf e)).

Lemma grows_stored id e e' : grows e e' → keys_stored id e → keys_stored id e'.
Proof.
  intros Hg [Hid (sum&Hs&Hk)]. split; [by rewrite (grows_name _ _ Hg)|]. exists sum.
  by rewrite (grows_disk _ _ Hg), (grows_keys _ _ Hg).
Qed.

Lemma save_stored id e e' u : S_ID (Summary (wf e)) = id → (save : P unit) e = (e', Ok u) → keys_stored id e'.
Proof.
  intros Hid [Hw Hd]%save_Ok. split; [by rewrite Hw|]. exists (encoded_summary (Summary (wf e))).
  rewrite Hd, Hw. unfold saved. cbn [summaries]. rewrite Hid. split; [by rewrite lookup_insert_eq|done].
Qed.

Lemma respects_step {A} (m : P A) e e' r : respects grows m → m e = (e', r) → grows e e'.
Proof. intros Hm H. specialize (Hm e). unfold run in Hm. by rewrite H in Hm. Qed.

Lemma state_stored id e e' u :
  disk_ok (disk e) → (workflowStateUnlocked id : P unit) e = (e', Ok u) →
  keys_stored (TrimSpace id) e' ∧
  ∀ sum, summaries (disk e) !! TrimSpace id = Some sum → AppendKeys (Summary (wf e')) = AppendKeys sum.
Proof.
  intros Hd. unfold workflowStateUnlocked. intros (u0&e1&Hl&H)%M_bind_Ok.
  assert (keys_stored (TrimSpace id) e1 ∧
    ∀ sum, summaries (disk e) !! TrimSpace id = Some sum → AppendKeys (Summary (wf e1)) = AppendKeys sum) as [Hk Hs].
  { unfold load in Hl. cbv zeta in Hl. destruct (validateWorkflowID _); [done|].
    apply M_bind_Ok in Hl as (d&e0&[= <- <-]&Hl). destruct (summaries (disk e) !! TrimSpace id) as [sum|] eqn:Hsum; [|done].
    destruct (node_files (disk e) !! TrimSpace id); [|done]. injection Hl as <- _. split.
    - split; [by eapply disk_summaries|]. by exists sum.
    - by intros ? [= <-]. }
  clear Hl. assert (∀ A (m : P A) r a e2, respects grows m → m a = (e2, r) → keys_stored (TrimSpace id) a →
    keys_stored (TrimSpace id) e2 ∧ AppendKeys (Summary (wf e2)) = AppendKeys (Summary (wf a))) as Hgo.
  { intros A m r a e2 Hm H2 Ha. pose proof (respects_step _ _ _ _ Hm H2) as Hg.
    split; [by eapply grows_stored|]. apply (grows_keys _ _ Hg). }
  apply M_bind_Ok in H as (a&e2&H2&H). apply Hgo in H2 as [Hk2 He2]; [|auto with respect|done].
  apply M_bind_Ok in H as (b&e3&H3&H). apply Hgo in H3 as [Hk3 He3]; [|auto with respect|done].
  apply M_bind_Ok in H as (c&e4&H4&H). apply Hgo in H4 as [Hk4 He4]; [|apply calm_grows; auto with respect|done].
  apply M_bind_Ok in H as (d&e5&H5&H). apply Hgo in H5 as [Hk5 He5]; [|auto with respect|done].
  apply M_bind_Ok in H as (f&e6&H6&H). apply Hgo in H6 as [Hk6 He6]; [|auto with respect|done].
  case_match; [|injection H as <- _; split; [done|intros sum Hsum; rewrite <- (Hs sum Hsum); congruence]].
  split; [eapply save_stored; [apply Hk6|exact H]|]. apply save_Ok in H as [Hw _].
  intros sum Hsum. rewrite <- (Hs sum Hsum). congruence.
Qed.

Lemma append_stored id inputs edges key e e1 ids :
  disk_ok (disk e) → (appendWorkflowNodes id inputs edges key : P _) e = (e1, Ok ids) → TrimSpace key ≠ "" →
  keys_stored (TrimSpace id) e1 ∧ default [] (AppendKeys (Summary (wf e1)) !! TrimSpace key) = ids.
Proof.
  intros Hd H Hkey. unfold appendWorkflowNodes in H. apply M_bind_Ok in H as (u&e2&Hst&H).
  apply state_stored in Hst as [Hk _]; [|done]. unfold state in H. apply M_bind_Ok in H as (s&e3&[= <- <-]&H). cbv zeta in H.
  rewrite (bool_decide_false (TrimSpace key = "")) in H by done. cbn [negb andb] in H.
  destruct (is_nil (default [] _)) eqn:Hnil; cbn [negb] in H; [|injection H as <- <-; by split].
  destruct (is_nil inputs && is_nil edges); [done|]. destruct (over_limit _ _); [done|].
  apply M_bind_Ok in H as (now&e3&Hc&H). unfold call in Hc. destruct (clock (world e2)) as [t w]. injection Hc as <- <-.
  destruct (grow _ _ _) as [nn|]; [|done]. destruct (workflowEdgesFromInputs edges) as [ne|]; [|done].
  destruct (validateWorkflowEdges _ _); [done|].
  apply M_bind_Ok in H as (?&e3&[= <- _]&H). apply M_bind_Ok in H as (?&e3&[= <- _]&H).
  apply M_bind_Ok in H as (?&e3&[= <- _]&H).
  match type of H with _ ?a = _ => set (e3 := a) in H end.
  assert (S_ID (Summary (wf e3)) = TrimSpace id ∧
    AppendKeys (Summary (wf e3)) !! TrimSpace key = Some (node_ids nn)) as [Hid Hin].
  { split; [apply Hk|]. unfold e3. cbn. by rewrite lookup_insert_eq. }
  clearbody e3. apply M_bind_Ok in H as (?&e4&H4&H). apply respects_step in H4; [|auto with respect].
  apply M_bind_Ok in H as (?&e5&H5&H). apply respects_step in H5; [|auto with respect].
  apply M_bind_Ok in H as (?&e6&H6&H). injection H as <- <-. pose proof (transitivity H4 H5) as Hg.
  split; [eapply save_stored; [|exact H6]; by rewrite (grows_name _ _ Hg)|].
  apply save_Ok in H6 as [-> _]. by rewrite (grows_keys _ _ Hg), Hin.
Qed.


End Store.

(** ** The edges of a loop *)

Section Loops.
Context {U : Unicode} {L : WorkflowLib}.

Lemma matches_when_not c (n : workflowNode) :
  workflowConditionMatchesNode (when_not c) n = negb (workflowConditionMatchesNode c n).
Proof. unfold when_not. cbn. by rewrite !andb_true_r. Qed.

Lemma normalize_when_not c :
  normalizeWorkflowEdgeCondition (when_not c) = when_not (normalizeWorkflowEdgeCondition c).
Proof. reflexivity. Qed.

(** A loop goes on or ends. For an exit condition that names no node, the
    normalised conditions of the loop's two edges, to go on and to exit, part the
    nodes they may start from: in every state exactly one of them holds of a
    node that has ended. *)
Theorem loop_edges_partition nodes c (n : workflowNode) :
  TrimSpace (C_Node c) = "" →
  workflowEdgeConditionMatchesState nodes (normalizeWorkflowEdgeCondition (when_not c)) n =
  negb (workflowEdgeConditionMatchesState nodes (normalizeWorkflowEdgeCondition c) n).
Proof.
  intros Hc. rewrite normalize_when_not. unfold workflowEdgeConditionMatchesState, condition_target.
  rewrite matches_when_not. assert (C_Node (normalizeWorkflowEdgeCondition c) = "") as -> by by destruct c.
  by rewrite !bool_decide_true.
Qed.

End Loops.

(** * The workflow engine at work

    A small world in which workflows run: those on which the theorems apply, and
    those where the engine falls short. *)

#[local] Existing Instance ascii_tables.

#[local] Instance bare_json : JSONLib := {|
  Unmarshal_object s :=
    if bool_decide (s = "{}") then Ok (Some []) else if bool_decide (s = "null") then Ok None else Err "unexpected text";
  Unmarshal_any s := if bool_decide (s = "null") then Ok JNull else Err "unexpected text";
  Valid s := bool_decide (s ∈ ["{}"; "null"]);
  Marshal v := match v with JNull => Some "null" | _ => Some "{}" end;
|}.

#[local] Instance plain_flow_lib : FlowLib := {|
  quote s := String dquote (s +:+ String dquote "");
  ParseURL s := None;
|}.

#[local] Instance plain_workflow_lib : WorkflowLib := {|
  Sprint v := match v with JString s => s | _ => "value" end;
  Pow x y := fone;
  int64_beyond f := 0%Z;
  duration_text d := itoa d;
  Unmarshal_verdict s := None;
  Marshal_decision d := "{}";
|}.

(** A world with a clock, files that cannot be written, and what functions and
    services answer. *)
Record scene := mkScene {
  tick : Z;
  broken : list string;
  function_answer : json;
  service_answer : object;
}.

#[local] Instance scene_services : Services scene := {|
  clock w := (tick w, mkScene (tick w + 1) (broken w) (function_answer w) (service_answer w));
  context_done deadline w := (false, w);
  pre_script s n w := (None, w);
  post_script s n w := (tt, w);
  has_decision_caller w := false;
  Decide s n spec w := (Err "no caller", w);
  runWorkflowFunction spec ctx timeout w := (Ok (function_answer w), w);
  callWorkflowService s spec timeout w := (Ok (service_answer w), w);
  save_human_task id queue n w := (None, w);
  workflowNodePrompt s n w := (Ok (W_Prompt n), w);
  resolveAgentRef n w := (None, w);
  start_subagent s n prompt w := (Ok ("job_" +:+ W_ID n), w);
  get_job id w := (Some (mkJob "completed" "" "done"), w);
  cancel_job id w := (tt, w);
  write_handoff id n text w := (None, w);
  write_file path w := (if bool_decide (path ∈ broken w) then Some "no space left on device" else None, w);
  stat_error path w := (None, w);
|}.

Abbreviation P := (M (engine scene) string).

Definition calm : scene := mkScene 1 [] (JObject [("ok", JBool true)]) [].
Definition blank_summary : workflowSummary := mkSummary "" "" "" "" [] [] [] false 0 false ∅ ∅ ∅ 0 0.
Definition start (w : scene) : engine scene := mkEngine w empty_disk (mkState blank_summary [] []).

(** ** Building blocks *)

Definition code : workflowFunctionSpec := mkFunctionSpec "js" "return {}" "" "" 0 "" "" None.
Definition node_input (id kind : string) (deps : list string) : workflowNodeInput :=
  mkNodeInput id kind "" "work" 0 deps "" [] 0 None "" "" [] None None None None (Some code) None "" "" [].
Definition function_node (id : string) (deps : list string) : workflowNodeInput := node_input id "function" deps.
Definition agent_node (id : string) (deps : list string) : workflowNodeInput := node_input id "step" deps.
Definition edge_from_to (id from prefix : string) (c : Condition) (append : workflowNodeInput) (max : Z) : workflowEdge :=
  mkEdge_ id from prefix "" c append max "".

(** A chain of two nodes, and an edge that follows the second. *)
Definition chain : list workflowNodeInput := [function_node "a" []; function_node "b" ["a"]].
Definition follow : workflowEdge :=
  edge_from_to "next" "b" "" (when_status "completed") (function_node "c" ["{source}"]) 3.

Definition chain_created : engine scene := run (create "" "w" chain [follow] : P unit) (start calm).

Definition statuses (e : engine scene) : list (string * string) :=
  (λ n : workflowNode, (W_ID n, W_Status n)) <$> WNodes (wf e).
Definition stored (e : engine scene) (id : string) : list (string * string * list string) :=
  (λ n : workflowNode, (W_ID n, W_Status n, W_DependsOn n)) <$> default [] (node_files (disk e) !! id).

Example chain_runs :
  let e := run (advanceWorkflowReadyNodes 100 "w" true : P _) chain_created in
  stored e "w" = [("a", "completed", []); ("b", "completed", ["a"]); ("c", "completed", ["b"])] ∧
  S_Status (Summary (wf e)) = "completed" ∧ ProcessedEdges (Summary (wf e)) = {["next|b"]}.
Proof. split_and!; vm_compute; reflexivity. Qed.

(** ** The theorems apply *)

Definition chain_advanced : engine scene := run (advanceWorkflowReadyNodes 100 "w" true : P _) chain_created.

Lemma workflow_invariant_witness :
  graph_ok (default [] (node_files (disk chain_advanced) !! "w")).
Proof.
  destruct (node_files (disk chain_advanced) !! "w") as [nodes|] eqn:Hn; [|by vm_compute in Hn].
  apply (workflow_invariant (start calm) chain_advanced "w" nodes).
  - reflexivity.
  - apply (rtc_l _ _ chain_created); [exact (step_create (start calm) "" "w" chain [follow])|].
    apply rtc_once. exact (step_advance chain_created 100 "w" true).
  - exact Hn.
Defined.

Definition chain_nodes : list workflowNode :=
  Eval vm_compute in default [] (node_files (disk chain_created) !! "w").

Lemma validateWorkflowDeps_exact_witness :
  validateWorkflowDeps chain_nodes = None ↔
  (∀ n r, n ∈ chain_nodes → r ∈ refs n → r ∈ node_ids chain_nodes ∧ r ≠ W_ID n) ∧ acyclic (deps_of chain_nodes).
Proof.
  apply (validateWorkflowDeps_exact chain_nodes).
  - apply (bool_decide_unpack _). vm_compute. exact I.
  - assert (Forall (λ n : workflowNode, Forall (λ r, TrimSpace r = r ∧ r ≠ "") (refs n)) chain_nodes) as H.
    { apply (bool_decide_unpack _). vm_compute. exact I. }
    intros n r Hn Hr. rewrite Forall_forall in H. specialize (H n Hn). rewrite Forall_forall in H. by apply H.
Defined.

Lemma returned {A} (m : P A) e a : out m e = Ok a → m e = (run m e, Ok a).
Proof. unfold run, out. destruct (m e) as [e' r]. cbn. by intros ->. Qed.

Lemma graph_ok_checked nodes :
  NoDup (node_ids nodes) ∧ "" ∉ node_ids nodes ∧
    Forall (λ n : workflowNode, Forall (λ r, TrimSpace r = r ∧ r ≠ "") (refs n)) nodes →
  validateWorkflowDeps nodes = None → graph_ok nodes.
Proof.
  intros (Hnd&Hne&Hc) Hv.
  assert (∀ n r, n ∈ nodes → r ∈ refs n → clean r) as Hc'.
  { intros n r Hn. rewrite Forall_forall in Hc. specialize (Hc n Hn). rewrite Forall_forall in Hc. apply Hc. }
  apply validate_deps_exact in Hv as [Hk Ha]; [|done|done]. by split.
Qed.

(** The chain at hand, both of its nodes completed but no edge processed. *)
Definition chain_done : engine scene :=
  mkEngine calm empty_disk (mkState blank_summary (set_W_Status workflowStatusCompleted <$> chain_nodes) [follow]).


(** The chain as it was created. *)
Definition chain_fresh : engine scene := mkEngine calm empty_disk (mkState blank_summary chain_nodes [follow]).

Definition chain_passed : engine scene := run (start_ready 0 9 [0; 1] false [] : P _) chain_fresh.
Definition no_such_node : workflowNode := Eval vm_compute in node_of_input "" "" "" None None 0 (function_node "" []).
Definition b_before : workflowNode := Eval vm_compute in default no_such_node (chain_nodes !! 1).
Definition b_after : workflowNode := Eval vm_compute in default no_such_node (WNodes (wf chain_passed) !! 1).

Lemma scheduler_safe_witness :
  W_Status b_before = workflowStatusPending ∧ workflowNodeRetryDue b_before 9 = true ∧
  workflowDepsCompleted (WNodes (wf chain_passed)) (W_DependsOn b_before) = true.
Proof.
  apply (scheduler_safe 0 9 [0; 1] false [] chain_fresh 1 b_before b_after).
  - reflexivity.
  - vm_compute. reflexivity.
  - intros H. apply (f_equal W_Status) in H. discriminate H.
Defined.

Lemma chain_paced : stored_paced (disk chain_created) "w".
Proof.
  split.
  - intros nodes Hn. assert (nodes = chain_nodes) as ->.
    { apply (inj Some). rewrite <- Hn. vm_compute. reflexivity. }
    unfold chain_nodes. repeat constructor; vm_compute; try discriminate; intros _; reflexivity.
  - intros edges He. assert (edges = [set_append (WE_Append follow) (mkEdge_ "next" "b" "" "" (when_status "completed") (WE_Append follow) 3 "next")]) as ->.
    { apply (inj Some). rewrite <- He. vm_compute. reflexivity. }
    repeat constructor; vm_compute; discriminate.
Qed.

Lemma advance_terminates_witness : out (advanceWorkflowReadyNodes 500 "w" true : P _) chain_created ≠ Ok None.
Proof.
  apply (advance_terminates "w" true 500 chain_created).
  - exact chain_paced.
  - apply (bool_decide_unpack _). vm_compute. exact I.
Defined.

Definition chain_looped : engine scene := run (advance_loop 500 0 9 true [] : P _) chain_fresh.

Lemma advance_quiesces_witness : quiet 9 chain_looped ∧ statuses chain_looped = [("a", "completed"); ("b", "completed"); ("c", "completed")].
Proof.
  split; [|vm_compute; reflexivity].
  assert (∃ st, out (advance_loop 500 0 9 true [] : P _) chain_fresh = Ok (Some st)) as [st Hst] by (eexists; vm_compute; reflexivity).
  destruct (advance_quiesces 1 500 0 9 true [] chain_fresh chain_looped (Ok (Some st))) as [[err ?]|[_ [Ht|Hq]]].
  - split; [unfold chain_fresh, chain_nodes|].
    + repeat constructor; vm_compute; try discriminate; intros _; reflexivity.
    + repeat constructor; vm_compute; discriminate.
  - apply (bool_decide_unpack _). vm_compute. exact I.
  - reflexivity.
  - apply (returned _ _ _ Hst).
  - discriminate.
  - vm_compute in Ht. discriminate Ht.
  - exact Hq.
Defined.

Definition chain_saved : engine scene := run (save : P unit) chain_created.

Lemma save_load_roundtrip_witness :
  wf (run (load "w" : P unit) chain_saved) = reloaded (wf chain_created).
Proof.
  assert (S_ID (Summary (wf chain_created)) = "w") as Hid by (vm_compute; reflexivity).
  apply (save_load_roundtrip chain_created chain_saved tt _ (Ok tt)).
  - vm_compute. reflexivity.
  - apply returned. vm_compute. reflexivity.
  - rewrite Hid. apply returned. vm_compute. reflexivity.
Defined.

Lemma chain_disk_ok : disk_ok (disk chain_created).
Proof. apply (wf_step_ok (start calm) chain_created); [constructor|apply empty_disk_ok]. Qed.

Definition appended : engine scene :=
  run (appendWorkflowNodes "w" [agent_node "d" ["b"]] [] "key" : P _) chain_created.


Definition exit : Condition := when_status "completed".

Lemma loop_edges_partition_witness :
  workflowEdgeConditionMatchesState [] (normalizeWorkflowEdgeCondition exit) b_after = true ∧
  workflowEdgeConditionMatchesState [] (normalizeWorkflowEdgeCondition (when_not exit)) b_after =
    negb (workflowEdgeConditionMatchesState [] (normalizeWorkflowEdgeCondition exit) b_after).
Proof.
  split; [vm_compute; reflexivity|]. apply (loop_edges_partition [] exit b_after). vm_compute. reflexivity.
Defined.

(** ** Where the engine falls short *)

(** One template for every node called w and a number. *)
Definition each : workflowEdge :=
  edge_from_to "each" "" "w_" (when_status "completed") (agent_node "sum_{source}" ["{source}"]) 5.
Definition fan : engine scene :=
  run (create "" "w" [function_node "w_1" []; function_node "w_2" []] [each] : P unit) (start calm).

(** The same call with a full disk for the nodes, and again with room. *)
Definition with_world (w : scene) (e : engine scene) : engine scene := mkEngine w (disk e) (wf e).
Definition full_disk : scene := mkScene 50 ["w/nodes.json"] (function_answer calm) [].
Definition torn : engine scene := run (advanceWorkflowReadyNodes 100 "w" true : P _) (with_world full_disk chain_created).
Definition resumed : engine scene := run (advanceWorkflowReadyNodes 100 "w" true : P _) (with_world calm torn).

(** A function that streams events and declares them. *)
Definition streaming : scene := mkScene 1 [] (JArray [JObject [("ok", JBool true)]]) [].
Definition events_spec : VarDef := mkVarDef "events" "array" "" true "" "".
Definition stream_node : workflowNodeInput :=
  mkNodeInput "s" "function" "" "" 0 [] "" [] 0 None "" "" [] None None None None (Some code) None "" "" [events_spec].
Definition streamed : engine scene :=
  run (advanceWorkflowReadyNodes 100 "w" true : P _) (run (create "" "w" [stream_node] [] : P unit) (start streaming)).

(** A service that answers with a number, and an edge that compares it. *)
Definition serving : scene :=
  mkScene 1 [] JNull [("body", JObject [("n", JGo "json.Number" (JNum (float_of_int 7)))])].
Definition get : workflowServiceSpec := mkServiceSpec "GET" "https://host" ∅ "" None None.
Definition service_node : workflowNodeInput :=
  mkNodeInput "s" "service" "" "" 0 [] "" [] 0 None "" "" [] None None None None None (Some get) "" "" [].
Definition above_five : FieldCompare := mkFieldCompare "body.n" "gt" (JNum (float_of_int 5)).
Definition when_above : Condition := mkCondition "" "" "" "" None (Some above_five) None [] [].
Definition served : engine scene :=
  run (advanceWorkflowReadyNodes 100 "w" true : P _)
    (run (create "" "w" [service_node] [edge_from_to "big" "s" "" when_above (agent_node "t" []) 3] : P unit) (start serving)).

(** A network policy for the code of a function. *)
Definition closed_network : NetworkPolicy := mkNetwork "deny_all" [] [] false 0 0.
Definition closed_code : workflowFunctionSpec := mkFunctionSpec "js" "return {}" "" "" 0 "" "" (Some closed_network).
Definition closed_node : workflowNodeInput :=
  mkNodeInput "f" "function" "" "" 0 [] "" [] 0 None "" "" [] None None None None (Some closed_code) None "" "" [].

(** A loop that ends when another node has completed. *)
Definition exit_on_a : Condition := mkCondition "completed" "" "a" "" None None None [] [].
Definition b_failed : workflowNode := set_W_Status workflowStatusError b_before.
Definition a_completed : workflowNode := default no_such_node (WNodes (wf chain_passed) !! 0).

