(* ===== verification/WorkflowCompile.v ===== *)
(** * From compiled flows to workflows ([internal/agent/workflow_flow_compile.go])

    The adapter that turns a compiled flow into the inputs of the engine, and
    what becomes of a flow when it is run. *)
From S2P Require Import Prelude GoStrings GoRunes ShellPolicy JSON FlowModel FlowContracts FlowValidate FlowCompile FlowExamples WorkflowTypes WorkflowConditions WorkflowEngine WorkflowRun WorkflowOps WorkflowGraph.
From Stdlib Require Import Ascii ZArith Lia.

Definition flowKindToEngine (k : string) : string :=
  if bool_decide (k = KindStep) then "subagent_task"
  else if bool_decide (k = KindLLM) then "llm_task"
  else if bool_decide (k = KindDecision) then workflowNodeKindDecision
  else if bool_decide (k = KindBranch) then workflowNodeKindBranch
  else if bool_decide (k = KindHuman) then workflowNodeKindUserInput
  else if bool_decide (k = KindFunction) then workflowNodeKindFunction
  else if bool_decide (k = KindService) then workflowNodeKindService
  else k.

Fixpoint flowConditionToWorkflow (c : Condition) : Condition :=
  match c with
  | mkCondition status verdict node choice confidence output not_ all_ any_ =>
      mkCondition status verdict node choice
        ((λ c, mkNumCompare (Num_Op c) (Num_Value c)) <$> confidence)
        ((λ c, mkFieldCompare (F_Path c) (F_Op c) (F_Value c)) <$> output)
        match not_ with Some c => Some (flowConditionToWorkflow c) | None => None end
        (map flowConditionToWorkflow all_) (map flowConditionToWorkflow any_)
  end.

(** The shorter of the two timeouts of a node, in milliseconds. *)
Definition node_timeout_ms (timeoutSec timeoutMS : Z) : Z :=
  if (0 <? timeoutSec)%Z then
    let nodeTimeoutMS := wrap64 (timeoutSec * 1000) in
    if (timeoutMS <=? 0)%Z || (nodeTimeoutMS <? timeoutMS)%Z then nodeTimeoutMS else timeoutMS
  else timeoutMS.

(** A template without dependencies keeps its lists nil, which are empty here. *)
Definition compileFlowNode (n : CompiledNode) : workflowNodeInput :=
  mkNodeInput (CN_ID n) (flowKindToEngine (CN_Kind n)) (CN_Title n) (CN_Prompt n) (CN_TimeoutSec n)
    (CN_DependsOn n) "" (CN_HandoffFrom n) 0 None (CN_AgentType n) (CN_AgentRef n) (CN_WriteScope n)
    ((λ p, mkRetry (MaxAttempts p) (InitialIntervalMS p) (BackoffCoefficient p) (MaxIntervalMS p) (Jitter p)
             (RetryOn p) (NonRetryable p)) <$> CN_Retry n)
    ((λ d, mkDecisionSpec (Provider d) (CN_Prompt n) (DecisionType d)
             ((λ ch, mkChoice (Choice_ID ch) (Choice_Label ch)) <$> Choices d)
             (node_timeout_ms (CN_TimeoutSec n) (D_TimeoutMS d)) (OnError d) (DefaultChoice d)) <$> CN_Decision n)
    ((λ h, mkHumanSpec (Queue h) (AssigneePolicy h) (Form h) (node_timeout_ms (CN_TimeoutSec n) (H_TimeoutMS h))
             (OnTimeout h) (ResultVar h)) <$> CN_Human n)
    ((λ b, mkBranchSpec (CB_Source b)
             ((λ c, mkBranchCase (CC_Name c) (CC_To c) (flowConditionToWorkflow (CC_Condition c))) <$> CB_Cases b)
             (CB_DefaultTo b)) <$> CN_Branch n)
    ((λ f, mkFunctionSpec (Runtime f) (F_Source f) (Ref f) (Handler f) (CN_TimeoutSec n) (InputSchema f)
             (OutputSchema f) None) <$> CN_Function n)
    ((λ s, mkServiceSpec (Method s) (URL s) (Headers s) (S_Body s) (Auth s) None) <$> CN_Service n)
    (CN_PreScript n) (CN_PostScript n)
    ((λ v, mkVarDef (V_Name v) (V_Type v) (V_Desc v) (V_Required v) "" (V_Schema v)) <$> CN_Outputs n).

(** The network policy of the flow, on a node that goes out. *)
Definition with_network (network : option NetworkPolicy) (i : workflowNodeInput) : workflowNodeInput :=
  mkNodeInput (I_ID i) (I_Kind i) (I_Title i) (I_Prompt i) (I_TimeoutSec i) (I_DependsOn i) (I_HandoffPolicy i)
    (I_HandoffFrom i) (I_HandoffMaxBytes i) (I_PreviewMerge i) (I_AgentType i) (I_AgentRef i) (I_WriteScope i)
    (I_Retry i) (I_Decision i) (I_Human i) (I_Branch i)
    ((λ f, mkFunctionSpec (WF_Runtime f) (WF_Source f) (WF_Ref f) (WF_Handler f) (WF_TimeoutSec f) (WF_InputSchema f)
             (WF_OutputSchema f) network) <$> I_Function i)
    ((λ s, mkServiceSpec (WS_Method s) (WS_URL s) (WS_Headers s) (WS_Body s) (WS_Auth s) network) <$> I_Service i)
    (I_PreScript i) (I_PostScript i) (I_OutputSpec i).

Definition compileFlowEdge (network : option NetworkPolicy) (e : CompiledEdge) : workflowEdgeInput :=
  mkEdge_ (CE_ID e) (CE_From e) (FromPrefix e) "" (flowConditionToWorkflow (CE_When e))
    (with_network network (compileFlowNode (Append e))) (CE_MaxIterations e) (CE_IterationKey e).

(** [compileFlowNode] never fails, so neither does the whole. *)
Definition compileFlowToWorkflowInputs (c : option Compiled) :
    result string (list workflowNodeInput * list workflowEdgeInput) :=
  match c with
  | None => Err "nil compiled flow"
  | Some c =>
      Ok ((λ n, with_network (Comp_Network c) (compileFlowNode n)) <$> Comp_Nodes c,
          compileFlowEdge (Comp_Network c) <$> Comp_Edges c)
  end.

(** ** Lemmas *)

(** The engine's conditions are those of the flow. *)
Lemma flowConditionToWorkflow_id c : flowConditionToWorkflow c = c.
Proof.
  revert c. fix IH 1. intros [status verdict node choice confidence output not_ all_ any_].
  cbn [flowConditionToWorkflow]. f_equal.
  - by destruct confidence as [[]|].
  - by destruct output as [[]|].
  - destruct not_ as [c|]; [f_equal; apply IH|done].
  - induction all_ as [|c l IHl]; [done|]. cbn. f_equal; [apply IH|apply IHl].
  - induction any_ as [|c l IHl]; [done|]. cbn. f_equal; [apply IH|apply IHl].
Qed.

Section Runs.
Context {U : Unicode} {F : FlowLib}.

(** What the run keeps of a compiled node. *)
Definition runs_as (network : option NetworkPolicy) (cn : CompiledNode) (n : workflowNode) : Prop :=
  W_ID n = TrimSpace (CN_ID cn) ∧
  W_Kind n = normalizeWorkflowNodeKind (flowKindToEngine (CN_Kind cn)) (W_ID n) ∧
  W_DependsOn n = normalizeWorkflowStrings (CN_DependsOn cn) ∧
  W_HandoffFrom n = normalizeWorkflowStrings (CN_HandoffFrom cn) ∧
  W_Retry n = normalizeWorkflowRetryPolicy (CN_Retry cn) ∧
  W_PreScript n = CN_PreScript cn ∧ W_PostScript n = CN_PostScript cn ∧
  W_Status n = workflowStatusPending ∧ W_Attempt n = 0%Z ∧
  (∀ s, W_ServiceSpec n = Some s → WS_Network s = network).

Lemma retry_copy (p : option RetryPolicy) :
  (λ p, mkRetry (MaxAttempts p) (InitialIntervalMS p) (BackoffCoefficient p) (MaxIntervalMS p) (Jitter p)
          (RetryOn p) (NonRetryable p)) <$> p = p.
Proof. by destruct p as [[]|]. Qed.

Lemma node_runs_as network seen now cn n :
  TrimSpace (CN_ID cn) ≠ "" →
  node_from_input seen now (with_network network (compileFlowNode cn)) = Ok n → runs_as network cn n.
Proof.
  intros Hid H. unfold node_from_input in H. cbn [I_ID with_network compileFlowNode] in H.
  rewrite (bool_decide_false (TrimSpace (CN_ID cn) = "")) in H by done. cbv zeta in H.
  case_bool_decide; [done|].
  apply result_bind_Ok in H as (d&_&H). apply result_bind_Ok in H as (b&_&H).
  match type of H with (if ?c then _ else _) = _ => destruct c end; [done|]. injection H as <-.
  unfold runs_as, node_of_input, with_network, compileFlowNode.
  cbn [fixed W_ID W_Kind W_DependsOn W_HandoffFrom W_Retry W_PreScript W_PostScript W_Status W_Attempt W_ServiceSpec
    I_Kind I_DependsOn I_HandoffFrom I_Retry I_PreScript I_PostScript I_Service].
  rewrite retry_copy. split_and!; try reflexivity.
  intros s. case_match; [|done]. destruct (CN_Service cn); [|done]. by intros [= <-].
Qed.

Lemma nodes_run_as network seen now cns nodes :
  Forall (λ cn, TrimSpace (CN_ID cn) ≠ "") cns →
  workflowNodesFromInputs seen now ((λ n, with_network network (compileFlowNode n)) <$> cns) = Ok nodes →
  Forall2 (runs_as network) cns nodes.
Proof.
  intros Hne. revert seen nodes. induction Hne as [|cn cns Hcn Hcns IH]; intros seen nodes; cbn.
  { intros [= <-]. constructor. }
  intros (n&Hn&H)%result_bind_Ok. apply result_bind_Ok in H as (rest&Hr&H). injection H as <-.
  constructor; [by eapply node_runs_as|by eapply IH].
Qed.

(** C24: A run is the flow. The graph that a run of a compiled flow starts from
    has one node for each compiled node, in the same order: with its trimmed id,
    the engine's kind for its kind, its dependencies, handoffs, retry policy and
    scripts, and with the flow's network policy on each service; it is pending
    and has had no attempt. *)
Theorem run_is_flow c inputs edgeInputs now nodes edges :
  Forall (λ cn, TrimSpace (CN_ID cn) ≠ "") (Comp_Nodes c) →
  compileFlowToWorkflowInputs (Some c) = Ok (inputs, edgeInputs) → build inputs edgeInputs now = Ok (nodes, edges) →
  Forall2 (runs_as (Comp_Network c)) (Comp_Nodes c) nodes ∧ graph_ok nodes ∧ edges_ok edges nodes.
Proof.
  intros Hne [= <- <-] H. unfold build in H. apply result_bind_Ok in H as (ns&Hns&H).
  destruct (validateWorkflowDeps ns) eqn:Hv; [done|]. apply result_bind_Ok in H as (es&_&H).
  destruct (validateWorkflowEdges es ns) eqn:Hve; [done|]. injection H as <- <-.
  split_and!; [by eapply nodes_run_as|by eapply new_graph_ok|by apply validateWorkflowEdges_ok].
Qed.

End Runs.

(** * Running the flows of the examples

    The compiled flows of [FlowExamples] as workflows: one that runs, and one
    that is accepted although no run of it can be created. *)

#[local] Existing Instance ascii_tables.
#[local] Existing Instance plain_flow_lib.

(** What a run of a compiled flow starts from. *)
Definition run_graph (c : Compiled) : result string (list workflowNode * list workflowEdge) :=
  '(inputs, edges) ← compileFlowToWorkflowInputs (Some c); build inputs edges 1.

Definition review_inputs : list workflowNodeInput * list workflowEdge :=
  match compileFlowToWorkflowInputs (Some review_compiled) with Ok p => p | Err _ => ([], []) end.
Definition review_graph : list workflowNode * list workflowEdge :=
  Eval vm_compute in match run_graph review_compiled with Ok p => p | Err _ => ([], []) end.

Lemma run_is_flow_witness :
  (λ n : workflowNode, (W_ID n, W_Kind n, W_DependsOn n)) <$> review_graph.1 =
    [("check", "subagent_task", ["write"]); ("route", "branch", ["check"]); ("write", "subagent_task", [])] ∧
  Forall2 (runs_as None) (Comp_Nodes review_compiled) review_graph.1 ∧ graph_ok review_graph.1 ∧
  edges_ok review_graph.2 review_graph.1.
Proof.
  split; [vm_compute; reflexivity|].
  apply (run_is_flow review_compiled review_inputs.1 review_inputs.2 1).
  - apply (bool_decide_unpack _). vm_compute. exact I.
  - reflexivity.
  - vm_compute. reflexivity.
Defined.

(** The node that waits for one that only an edge appends. *)
Definition dangling_compiled : Compiled := the (compiled dangling_flow) nothing.

Example dangling_never_runs :
  dependencies dangling_compiled = [("b", ["a"]); ("s", [])] ∧
  run_graph dangling_compiled = Err "workflow node b depends on unknown node a".
Proof. split; vm_compute; reflexivity. Qed.
