(* ===== verification/SessionTypes.v ===== *)
(** * Flow sessions: the data ([internal/agent/flow_session_store.go])

    The structs of a long-lived flow session: its durable record, the events of
    its journal, what runs of its regions report. A [uint64] is an integer
    modulo [2 ^ 64]; a map whose order nothing depends on is a [gmap]; a raw JSON
    payload is its text. *)
From S2P Require Import Prelude GoStrings GoRunes JSON FlowModel WorkflowTypes.
From Stdlib Require Import Ascii ZArith Lia SpecFloat.

Definition MaxFlowSessionEventPayloadBytes : Z := 65536.
Definition maxFlowSessionEventSources : Z := 128.
Definition maxFlowSessionEventReadLimit : Z := 500.
Definition maxFlowSessionPendingEvents : Z := 256.
Definition maxFlowSessionOutputBatchBytes : Z := 65536.
Definition FlowSessionOutputEventType : string := "session.output".

(** [uint64] *)
Definition wrapu64 (z : Z) : Z := (z mod 2 ^ 64)%Z.

(** The errors of the package, with what is wrapped in them; [Gap] is the error
    of a journal that does not continue its snapshot, [Fault] one of the
    operating system or of the JSON encoder. *)
Inductive session_error :=
| ErrFlowSessionNotFound (id : string)
| ErrFlowSessionConflict (msg : string)
| ErrFlowSessionEventTooLarge
| ErrFlowSessionPendingLimit
| ErrFlowSessionPendingEvents
| ErrFlowSessionStaleSignal
| ErrFlowSessionStaleWork
| Gap (expected found : Z)
| Undecodable (msg : string)
| Fault (msg : string)
| Invalid (msg : string).

(** ** Events *)

(** The fields of an input that are written to the journal. *)
Record FlowSessionEventInput := mkInput {
  In_Source : string;
  In_SourceSequence : Z;
  In_Type : string;
  In_CorrelationID : string;
  In_OccurredAt : time;
  In_Payload : string;
  In_LaneID : string;
  In_LaneClass : string;
  In_DeadlineMS : Z;
  In_OverloadPolicy : string;
}.

Record FlowSessionEvent := mkEvent {
  Ev_SessionID : string;
  Ev_FlowID : string;
  Ev_Version : string;
  Ev_Digest : string;
  Ev_Source : string;
  Ev_SourceSequence : Z;
  Ev_Sequence : Z;
  Ev_StateVersion : Z;
  Ev_Type : string;
  Ev_CorrelationID : string;
  Ev_OccurredAt : time;
  Ev_ReceivedAt : time;
  Ev_Payload : string;
}.

Definition event_eta (e : FlowSessionEvent) : FlowSessionEvent :=
  mkEvent (Ev_SessionID e) (Ev_FlowID e) (Ev_Version e) (Ev_Digest e) (Ev_Source e) (Ev_SourceSequence e)
    (Ev_Sequence e) (Ev_StateVersion e) (Ev_Type e) (Ev_CorrelationID e) (Ev_OccurredAt e) (Ev_ReceivedAt e) (Ev_Payload e).
Definition set_Ev_Payload (p : string) (e : FlowSessionEvent) : FlowSessionEvent :=
  ltac:(with_field event_eta Ev_Payload e p).

Record FlowSessionEventReceipt := mkReceipt { Rc_SessionID : string; Rc_Sequence : Z; Rc_Duplicate : bool }.

Record flowSessionSourceCursor := mkCursor {
  Cur_SourceSequence : Z;
  Cur_EventSequence : Z;
  Cur_Hash : string;
}.

(** ** Outputs and executions *)

Record flowSessionOutput := mkOutput {
  Out_OutputID : string;
  Out_InputSequence : Z;
  Out_InputEventType : string;
  Out_InputSource : string;
  Out_InputSourceSeq : Z;
  Out_CorrelationID : string;
  Out_NodeID : string;
  Out_Outputs : object;
}.

Record FlowSessionOutputSnapshot := mkSnapshot {
  Sn_OutputID : string;
  Sn_InputEventType : string;
  Sn_InputSource : string;
  Sn_InputSourceSeq : Z;
  Sn_CorrelationID : string;
  Sn_NodeID : string;
  Sn_Outputs : object;
}.

Record FlowSessionNodeExecution := mkNodeExecution { NE_NodeID : string; NE_Status : string; NE_DurationMS : Z }.

Record FlowSessionExecutionSummary := mkExecution {
  Ex_Delivery : string;
  Ex_LaneID : string;
  Ex_InputSequence : Z;
  Ex_EventType : string;
  Ex_Source : string;
  Ex_SourceSequence : Z;
  Ex_CorrelationID : string;
  Ex_Status : string;
  Ex_StartedAt : time;
  Ex_CompletedAt : time;
  Ex_DurationMS : Z;
  Ex_Nodes : list FlowSessionNodeExecution;
  Ex_OutputCount : Z;
}.

(** ** The record *)

Record flowSessionRecord := mkRecord {
  FS_SessionID : string;
  FS_FlowID : string;
  FS_Version : string;
  FS_Digest : string;
  FS_Status : string;
  FS_Inputs : object;
  FS_State : object;
  FS_LastSequence : Z;
  FS_ProcessedSequence : Z;
  FS_StateVersion : Z;
  FS_ExecutionGeneration : Z;
  FS_LastError : string;
  FS_LastProcessedEventType : string;
  FS_LastProcessedNodes : list string;
  FS_LastBranchRoutes : gmap string string;
  FS_LastExecution : option FlowSessionExecutionSummary;
  FS_LatestSignalOutputs : list FlowSessionOutputSnapshot;
  FS_PendingOutputEvents : list FlowSessionEvent;
  FS_SourceCursors : gmap string flowSessionSourceCursor;
  FS_StartedAt : time;
  FS_UpdatedAt : time;
  FS_EndedAt : time;
}.

Definition record_eta (r : flowSessionRecord) : flowSessionRecord :=
  mkRecord (FS_SessionID r) (FS_FlowID r) (FS_Version r) (FS_Digest r) (FS_Status r) (FS_Inputs r) (FS_State r)
    (FS_LastSequence r) (FS_ProcessedSequence r) (FS_StateVersion r) (FS_ExecutionGeneration r) (FS_LastError r)
    (FS_LastProcessedEventType r) (FS_LastProcessedNodes r) (FS_LastBranchRoutes r) (FS_LastExecution r)
    (FS_LatestSignalOutputs r) (FS_PendingOutputEvents r) (FS_SourceCursors r) (FS_StartedAt r) (FS_UpdatedAt r)
    (FS_EndedAt r).

Definition set_FS_Status (v : string) (r : flowSessionRecord) : flowSessionRecord :=
  ltac:(with_field record_eta FS_Status r v).
Definition set_FS_State (v : object) (r : flowSessionRecord) : flowSessionRecord :=
  ltac:(with_field record_eta FS_State r v).
Definition set_FS_Inputs (v : object) (r : flowSessionRecord) : flowSessionRecord :=
  ltac:(with_field record_eta FS_Inputs r v).
Definition set_FS_LastSequence (v : Z) (r : flowSessionRecord) : flowSessionRecord :=
  ltac:(with_field record_eta FS_LastSequence r v).
Definition set_FS_ProcessedSequence (v : Z) (r : flowSessionRecord) : flowSessionRecord :=
  ltac:(with_field record_eta FS_ProcessedSequence r v).
Definition set_FS_StateVersion (v : Z) (r : flowSessionRecord) : flowSessionRecord :=
  ltac:(with_field record_eta FS_StateVersion r v).
Definition set_FS_ExecutionGeneration (v : Z) (r : flowSessionRecord) : flowSessionRecord :=
  ltac:(with_field record_eta FS_ExecutionGeneration r v).
Definition set_FS_LastError (v : string) (r : flowSessionRecord) : flowSessionRecord :=
  ltac:(with_field record_eta FS_LastError r v).
Definition set_FS_LastProcessedEventType (v : string) (r : flowSessionRecord) : flowSessionRecord :=
  ltac:(with_field record_eta FS_LastProcessedEventType r v).
Definition set_FS_LastProcessedNodes (v : list string) (r : flowSessionRecord) : flowSessionRecord :=
  ltac:(with_field record_eta FS_LastProcessedNodes r v).
Definition set_FS_LastBranchRoutes (v : gmap string string) (r : flowSessionRecord) : flowSessionRecord :=
  ltac:(with_field record_eta FS_LastBranchRoutes r v).
Definition set_FS_LastExecution (v : option FlowSessionExecutionSummary) (r : flowSessionRecord) : flowSessionRecord :=
  ltac:(with_field record_eta FS_LastExecution r v).
Definition set_FS_LatestSignalOutputs (v : list FlowSessionOutputSnapshot) (r : flowSessionRecord) : flowSessionRecord :=
  ltac:(with_field record_eta FS_LatestSignalOutputs r v).
Definition set_FS_PendingOutputEvents (v : list FlowSessionEvent) (r : flowSessionRecord) : flowSessionRecord :=
  ltac:(with_field record_eta FS_PendingOutputEvents r v).
Definition set_FS_SourceCursors (v : gmap string flowSessionSourceCursor) (r : flowSessionRecord) : flowSessionRecord :=
  ltac:(with_field record_eta FS_SourceCursors r v).
Definition set_FS_UpdatedAt (v : time) (r : flowSessionRecord) : flowSessionRecord :=
  ltac:(with_field record_eta FS_UpdatedAt r v).
Definition set_FS_EndedAt (v : time) (r : flowSessionRecord) : flowSessionRecord :=
  ltac:(with_field record_eta FS_EndedAt r v).

Definition bump_generation (r : flowSessionRecord) : flowSessionRecord :=
  set_FS_ExecutionGeneration (wrapu64 (FS_ExecutionGeneration r + 1)) r.
Definition bump_version (r : flowSessionRecord) : flowSessionRecord :=
  set_FS_StateVersion (wrapu64 (FS_StateVersion r + 1)) r.

(** ** Files and JSON *)

(** [encoding/json] on events and outputs, SHA-256 in hexadecimal, and the
    format of times. *)
Class SessionLib : Type := {
  marshal_event : FlowSessionEvent → result string string;
  unmarshal_event : string → result string FlowSessionEvent;
  (** A raw payload as [json.Marshal] writes it, and as [json.MarshalIndent]
      writes it inside a summary. *)
  Compact : string → string;
  Indent : string → string;
  (** The text of one JSON object, decoded and written again. *)
  canonical_object : string → result string string;
  marshal_output : flowSessionOutput → result string string;
  marshal_snapshot : FlowSessionOutputSnapshot → result string string;
  sha256_hex : string → string;
  RFC3339Nano : time → string;
}.

(** What is read back of an event that has been written. *)
Definition journaled `{SessionLib} (e : FlowSessionEvent) : FlowSessionEvent := set_Ev_Payload (Compact (Ev_Payload e)) e.

(** Valid UTF-8. *)
Definition is_text (s : string) : Prop := encode (runes s) = s.

(** The texts of an event. *)
Definition text_event (e : FlowSessionEvent) : Prop :=
  is_text (Ev_SessionID e) ∧ is_text (Ev_FlowID e) ∧ is_text (Ev_Version e) ∧ is_text (Ev_Digest e) ∧
  is_text (Ev_Source e) ∧ is_text (Ev_Type e) ∧ is_text (Ev_CorrelationID e).

Definition newline : ascii := ascii_of_N 10.

(** What the store relies on: a written event is one line that is read back as
    it was, with its payload compact, and no proper prefix of the line is an
    event; a carriage return after an event is blank; a payload is the same compact however it has been indented, and that
    of an output is compact. *)
Class SessionLaws `{L : SessionLib} : Prop := {
  marshal_line e s : marshal_event e = Ok s → part newline s ∧ s ≠ "";
  unmarshal_marshal e s : text_event e → marshal_event e = Ok s → unmarshal_event s = Ok (journaled e);
  unmarshal_prefix e p q : p ≠ "" → q ≠ "" → marshal_event e = Ok (p +:+ q) → ∃ err, unmarshal_event p = Err err;
  unmarshal_cr s e : unmarshal_event (s +:+ String (ascii_of_N 13) "") = Ok e → unmarshal_event s = Ok e;
  marshal_end e s : marshal_event e = Ok s → TrimSuffix s (String (ascii_of_N 13) "") = s;
  marshal_indented e : marshal_event (set_Ev_Payload (Indent (Ev_Payload e)) e) = marshal_event e;
  Compact_Indent p : Compact (Indent p) = Compact p;
  Compact_idemp p : Compact (Compact p) = Compact p;
  canonical_compact p q : canonical_object p = Ok q → Compact q = q;
  marshal_output_compact o p : marshal_output o = Ok p → Compact p = p ∧ p ≠ "";
}.

(** What [summary.json] gives back of a record. *)
Definition encoded_object (o : object) : object := (λ '(k, v), (k, encoded v)) <$> o.
Definition encoded_snapshot (s : FlowSessionOutputSnapshot) : FlowSessionOutputSnapshot :=
  mkSnapshot (Sn_OutputID s) (Sn_InputEventType s) (Sn_InputSource s) (Sn_InputSourceSeq s) (Sn_CorrelationID s)
    (Sn_NodeID s) (encoded_object (Sn_Outputs s)).
Definition encoded_event `{SessionLib} (e : FlowSessionEvent) : FlowSessionEvent := set_Ev_Payload (Indent (Ev_Payload e)) e.
Definition encoded_record `{SessionLib} (r : flowSessionRecord) : flowSessionRecord :=
  set_FS_Inputs (encoded_object (FS_Inputs r))
    (set_FS_State (encoded_object (FS_State r))
      (set_FS_LatestSignalOutputs (encoded_snapshot <$> FS_LatestSignalOutputs r)
        (set_FS_PendingOutputEvents (encoded_event <$> FS_PendingOutputEvents r) r))).

(** [flowSessionEventHash] *)
Definition zero_byte : string := String (ascii_of_N 0) "".
Definition flowSessionEventHash `{SessionLib} (type correlationID : string) (occurredAt : time) (payload : string) : string :=
  let at_ := if (occurredAt =? 0)%Z then "" else RFC3339Nano occurredAt in
  sha256_hex (type +:+ zero_byte +:+ correlationID +:+ zero_byte +:+ at_ +:+ zero_byte +:+ payload).
