(* ===== verification/SessionJournal.v ===== *)
(** * Flow sessions: the journal ([appendFlowSessionEvent], [readLastFlowSessionEvent])

    The file [events.jsonl] of a session, byte by byte: how an event is appended,
    and how the last one is read back after an append that a crash has cut
    short. Every call of the operating system can fail, and a write that fails
    may have stored any part of its data; a crash is a call after which nothing
    else happens. What survives is what the process has written: a loss of power
    is not modelled here. *)
From S2P Require Import Prelude GoStrings GoRunes JSON FlowModel WorkflowTypes SessionTypes.
From Stdlib Require Import Ascii ZArith Lia.

(** The operating system: the clock, which never reads the zero time; the
    operations that leave the files as they are, or fail; and how many of the
    given bytes a write stores. *)
Class Storage (W : Type) : Type := {
  now : W → time * W;
  io_result : string → W → option string * W;
  bytes_written : string → W → nat * option string * W;
  now_set w : (now w).1 ≠ 0%Z;
}.

(** The directory of one session: its journal and its summary, if they exist. *)
Record session_dir (W : Type) := mkDir {
  disk_world : W;
  events_file : option string;
  summary_file : option flowSessionRecord;
}.
Arguments mkDir {W}. Arguments disk_world {W}. Arguments events_file {W}. Arguments summary_file {W}.

Definition set_events {W} (f : option string) (d : session_dir W) : session_dir W := mkDir (disk_world d) f (summary_file d).
Definition set_summary {W} (s : option flowSessionRecord) (d : session_dir W) : session_dir W :=
  mkDir (disk_world d) (events_file d) s.
Definition set_disk_world {W} (w : W) (d : session_dir W) : session_dir W := mkDir w (events_file d) (summary_file d).

(** The first [n] bytes, and the last newline. *)
Fixpoint stake (n : nat) (s : string) : string :=
  match n, s with S n, String a s => String a (stake n s) | _, _ => "" end.
Fixpoint LastIndexByte (s : string) (c : ascii) : option nat :=
  match s with
  | "" => None
  | String a s =>
      match LastIndexByte s c with
      | Some i => Some (S i)
      | None => if bool_decide (a = c) then Some 0 else None
      end
  end.

Section Journal.
Context {L : SessionLib} {W : Type} {V : Storage W}.

Abbreviation P := (M (session_dir W) session_error).

Definition read_clock : P time := λ d, let '(t, w) := now (disk_world d) in (set_disk_world w d, Ok t).
Definition io (op : string) : P unit := λ d,
  let '(e, w) := io_result op (disk_world d) in
  (set_disk_world w d, match e with Some e => Err (Fault e) | None => Ok tt end).

(** [file.Write] at the end of the journal. *)
Definition write_bytes (data : string) : P unit := λ d,
  let '(n, e, w) := bytes_written data (disk_world d) in
  let n := Nat.min n (String.length data) in
  (set_events (Some (default "" (events_file d) +:+ stake n data)) (set_disk_world w d),
   match e with
   | Some e => Err (Fault e)
   | None => if bool_decide (n = String.length data) then Ok tt else Err (Fault "short write")
   end).

(** [os.OpenFile] with [O_CREATE]. *)
Definition open_journal : P unit :=
  io "open";;
  update (λ d, set_events (Some (default "" (events_file d))) d).

Definition appendFlowSessionEvent (e : FlowSessionEvent) : P unit :=
  match marshal_event e with
  | Err err => throw (Fault err)
  | Ok data =>
      open_journal;;
      write_bytes (data +:+ String newline "");;
      io "sync";;
      io "close"
  end.

(** ** The last event *)

(** The end of the file without its last newlines, and whether it had any. *)
Fixpoint skip_newlines (content : string) (end_ : nat) (finalNewline : bool) : P (nat * bool) :=
  match end_ with
  | 0 => mret (0, finalNewline)
  | S n =>
      io "read";;
      if bool_decide (String.get n content = Some newline) then skip_newlines content n true
      else mret (end_, finalNewline)
  end.

Definition chunkSize : nat := 4096.
Lemma chunkSize_pos : 0 < chunkSize.
Proof. unfold chunkSize. lia. Qed.

(** Where the line begins that ends at [searchEnd]; one round for each chunk. *)
Fixpoint line_start (fuel : nat) (content : string) (searchEnd : nat) : P nat :=
  match fuel with
  | 0 => mret 0
  | S fuel =>
      if bool_decide (searchEnd = 0) then mret 0
      else
        let chunkStart := searchEnd - chunkSize in
        io "read";;
        match LastIndexByte (stake (searchEnd - chunkStart) (sdrop chunkStart content)) newline with
        | Some index => mret (chunkStart + index + 1)
        | None => line_start fuel content chunkStart
        end
  end.

Definition truncate (n : nat) : P unit :=
  io "truncate";;
  update (λ d, set_events (stake n <$> events_file d) d).

(** A tail that no newline ends is completed when it is an event, and dropped
    when it is not; then the line before it is the last. *)
Fixpoint read_last (fuel : nat) : P (option FlowSessionEvent) :=
  match fuel with
  | 0 => throw (Invalid "out of fuel")
  | S fuel =>
      f ← gets events_file;
      match f with
      | None => mret None
      | Some content =>
          io "open";;
          io "stat";;
          '(end_, finalNewline) ← skip_newlines content (String.length content) false;
          if bool_decide (end_ = 0) then mret None
          else
            lineStart ← line_start (S end_) content end_;
            io "read";;
            match unmarshal_event (stake (end_ - lineStart) (sdrop lineStart content)) with
            | Err err =>
                if (finalNewline : bool) then throw (Undecodable err)
                else truncate lineStart;; io "sync";; read_last fuel
            | Ok event =>
                (if (finalNewline : bool) then mret tt else write_bytes (String newline "");; io "sync");;
                mret (Some event)
            end
      end
  end.

(** After a tail has been dropped the file ends with a newline or is empty: the
    second pass does not come back for a third. *)
Definition readLastFlowSessionEvent : P (option FlowSessionEvent) := read_last 2.

(** ** Strings *)

Lemma stake_app p q : stake (String.length p) (p +:+ q) = p.
Proof. induction p as [|a p IH]; [by destruct q|]. rewrite app_cons_s. simpl. by rewrite IH. Qed.

Lemma stake_app_more n p q : stake (String.length p + n) (p +:+ q) = p +:+ stake n q.
Proof. induction p as [|a p IH]; [done|]. rewrite !app_cons_s. simpl. by rewrite IH. Qed.

Lemma stake_drop n s : stake n s +:+ sdrop n s = s.
Proof. revert s. induction n as [|n IH]; intros [|a s]; try done. simpl. by rewrite app_cons_s, IH. Qed.

Lemma stake_all s : stake (String.length s) s = s.
Proof. pose proof (stake_app s "") as H. by rewrite app_nil_r_s in H. Qed.

Lemma length_sdrop n s : String.length (sdrop n s) = String.length s - n.
Proof. revert s. induction n as [|n IH]; intros [|a s]; try done. apply IH. Qed.

Lemma sdrop_app_le n p q : n ≤ String.length p → sdrop n (p +:+ q) = sdrop n p +:+ q.
Proof.
  revert p. induction n as [|n IH]; intros [|a p] H; try done; [simpl in H; lia|].
  rewrite app_cons_s. apply IH. simpl in H. lia.
Qed.

Lemma sdrop_app_more n p q : sdrop (String.length p + n) (p +:+ q) = sdrop n q.
Proof. induction p as [|a p IH]; [done|]. rewrite app_cons_s. exact IH. Qed.

Lemma get_app a p q : String.get (String.length p) (p +:+ String a q) = Some a.
Proof. induction p as [|b p IH]; [done|]. rewrite app_cons_s. exact IH. Qed.

Lemma part_app_iff c p q : part c (p +:+ q) ↔ part c p ∧ part c q.
Proof.
  induction p as [|a p IH]; [rewrite app_nil_l_s; by split; [|intros [_ ?]]|].
  rewrite app_cons_s, !part_cons. naive_solver.
Qed.

Lemma snoc_inv s : s ≠ "" → ∃ p a, s = p +:+ String a "".
Proof.
  induction s as [|a s IH]; [done|]. intros _. destruct s as [|b s]; [by exists "", a|].
  destruct IH as (p&c&->); [done|]. exists (String a p), c. by rewrite app_cons_s.
Qed.

Lemma LastIndexByte_part c s : part c s → LastIndexByte s c = None.
Proof.
  induction s as [|a s IH]; [done|]. intros [Ha Hs]%part_cons. simpl.
  by rewrite IH, bool_decide_false by done.
Qed.

Lemma LastIndexByte_last c p q : part c q → LastIndexByte (p +:+ String c q) c = Some (String.length p).
Proof.
  intros Hq. induction p as [|a p IH]; [|rewrite app_cons_s; simpl; by rewrite IH].
  rewrite app_nil_l_s. simpl. by rewrite LastIndexByte_part, bool_decide_true.
Qed.

(** ** What a file holds *)

Fixpoint journal_text (ls : list string) : string :=
  match ls with [] => "" | l :: ls => l +:+ String newline (journal_text ls) end.

Definition line_of (l : string) (e : FlowSessionEvent) : Prop :=
  part newline l ∧ l ≠ "" ∧ unmarshal_event l = Ok e.

(** The events of the complete lines, and the tail that no newline ends. *)
Definition holds (f : option string) (evs : list FlowSessionEvent) (tail : string) : Prop :=
  ∃ ls, default "" f = journal_text ls +:+ tail ∧ Forall2 line_of ls evs ∧ part newline tail.

(** The tail counts when it is a whole event. *)
Definition repaired (evs : list FlowSessionEvent) (tail : string) : list FlowSessionEvent :=
  if bool_decide (tail = "") then evs
  else match unmarshal_event tail with Ok e => evs ++ [e] | Err _ => evs end.

(** What a journal means, and that nothing is left to repair. *)
Definition settled (f : option string) (evs : list FlowSessionEvent) : Prop :=
  ∃ evs0 tail, holds f evs0 tail ∧ evs = repaired evs0 tail.
Definition clean_journal (f : option string) (evs : list FlowSessionEvent) : Prop := holds f evs "".

Lemma clean_settled f evs : clean_journal f evs → settled f evs.
Proof. intros H. by exists evs, "". Qed.

Lemma journal_text_app ls ls' : journal_text (ls ++ ls') = journal_text ls +:+ journal_text ls'.
Proof. induction ls as [|l ls IH]; [done|]. simpl. by rewrite IH, app_assoc_s, app_cons_s. Qed.

Lemma journal_text_line ls l : journal_text (ls ++ [l]) = journal_text ls +:+ l +:+ String newline "".
Proof. by rewrite journal_text_app. Qed.

(** Where a line may begin. *)
Definition at_start (p : string) : Prop := p = "" ∨ ∃ q, p = q +:+ String newline "".

Lemma journal_text_start ls : at_start (journal_text ls).
Proof.
  destruct ls as [|l ls _] using rev_ind; [by left|]. right. exists (journal_text ls +:+ l).
  by rewrite journal_text_line, app_assoc_s.
Qed.

(** ** Calls of the operating system *)

Definition faulty {A} (r : result session_error A) : Prop := ∃ m, r = Err (Fault m).

(** A program that leaves the files as they are, and returns [a] or a fault. *)
Definition looks {A} (m : P A) (a : A) : Prop :=
  ∀ d d' r, m d = (d', r) →
    events_file d' = events_file d ∧ summary_file d' = summary_file d ∧ (r = Ok a ∨ faulty r).

Lemma looks_ret {A} (a : A) : looks (mret a) a.
Proof. intros d d' r [= <- <-]. auto. Qed.

Lemma looks_io op : looks (io op) tt.
Proof.
  intros d d' r. unfold io. destruct (io_result op (disk_world d)) as [[e|] w]; intros [= <- <-].
  - split_and!; [done|done|right; by eexists].
  - auto.
Qed.

Lemma looks_bind {A B} (m : P A) (k : A → P B) a b : looks m a → looks (k a) b → looks (m ≫= k) b.
Proof.
  intros Hm Hk d d' r H. unfold mbind, M_bind in H. destruct (m d) as [d1 r1] eqn:H1.
  destruct (Hm _ _ _ H1) as (He&Hs&[->|[e ->]]).
  - destruct (Hk _ _ _ H) as (He'&Hs'&Hr). split_and!; [congruence|congruence|done].
  - injection H as <- <-. split_and!; [done|done|right; by eexists].
Qed.

Lemma write_spec data d d' r :
  write_bytes data d = (d', r) →
  summary_file d' = summary_file d ∧
  ∃ p q, data = p +:+ q ∧ events_file d' = Some (default "" (events_file d) +:+ p) ∧
    (r = Ok tt ∧ q = "" ∨ faulty r).
Proof.
  unfold write_bytes. destruct (bytes_written data (disk_world d)) as [[n e] w]. cbv zeta.
  set (k := Nat.min n _). intros [= <- <-]. split; [done|].
  exists (stake k data), (sdrop k data). rewrite stake_drop. split_and!; [done|done|].
  destruct e as [e|]; [right; by eexists|]. case_bool_decide as Hk; [left|right; by eexists].
  split; [done|]. rewrite Hk. pose proof (stake_drop (String.length data) data) as H. rewrite stake_all in H.
  destruct (sdrop _ data) as [|a t]; [done|]. apply (f_equal String.length) in H.
  rewrite length_app_s in H. simpl in H. lia.
Qed.

Lemma truncate_spec n d d' r :
  truncate n d = (d', r) →
  summary_file d' = summary_file d ∧
  (events_file d' = events_file d ∧ faulty r ∨ events_file d' = stake n <$> events_file d ∧ r = Ok tt).
Proof.
  unfold truncate, mbind, M_bind. destruct (io "truncate" d) as [d1 r1] eqn:H1.
  destruct (looks_io _ _ _ _ H1) as (He&Hs&[->|[e ->]]); intros [= <- <-]; cbn.
  - split; [done|]. right. by rewrite He.
  - split; [done|]. left. split; [done|by eexists].
Qed.

(** ** Where the last line is *)

Fixpoint skipped (content : string) (end_ : nat) (final : bool) : nat * bool :=
  match end_ with
  | 0 => (0, final)
  | S n => if bool_decide (String.get n content = Some newline) then skipped content n true else (end_, final)
  end.

Lemma skip_looks content end_ final : looks (skip_newlines content end_ final) (skipped content end_ final).
Proof.
  revert final. induction end_ as [|n IH]; intros final; [apply looks_ret|]. simpl.
  eapply looks_bind; [apply looks_io|]. case_bool_decide; [apply IH|apply looks_ret].
Qed.

Lemma skipped_newline s final :
  skipped (s +:+ String newline "") (S (String.length s)) final = skipped (s +:+ String newline "") (String.length s) true.
Proof. simpl. by rewrite get_app, bool_decide_true. Qed.

Lemma skipped_stop p a q final :
  a ≠ newline → skipped (p +:+ String a q) (S (String.length p)) final = (S (String.length p), final).
Proof. intros Ha. simpl. rewrite get_app, bool_decide_false; [done|]. naive_solver. Qed.

(** Skipping the newlines after a line. *)
Lemma skipped_line pre l final :
  part newline l → l ≠ "" →
  skipped (pre +:+ l) (String.length (pre +:+ l)) final = (String.length (pre +:+ l), final) ∧
  skipped (pre +:+ l +:+ String newline "") (String.length (pre +:+ l +:+ String newline "")) final =
    (String.length (pre +:+ l), true).
Proof.
  intros Hp (p&a&->)%snoc_inv. apply part_app_iff in Hp as [_ [Ha _]%part_cons].
  assert (∀ q, String.length (pre +:+ p +:+ String a q) = S (String.length (pre +:+ p) + String.length q)) as Hlen.
  { intros q. rewrite !length_app_s. simpl. lia. }
  rewrite (Hlen ""), Nat.add_0_r. split.
  - rewrite <- app_assoc_s. by apply skipped_stop.
  - assert (pre +:+ (p +:+ String a "") +:+ String newline "" = (pre +:+ p +:+ String a "") +:+ String newline "") as ->
      by by rewrite !app_assoc_s.
    rewrite length_app_s, Nat.add_comm. change (String.length (String newline "")) with 1. cbn [Nat.add].
    rewrite skipped_newline, (Hlen ""), Nat.add_0_r.
    assert ((pre +:+ p +:+ String a "") +:+ String newline "" = (pre +:+ p) +:+ String a (String newline "")) as ->
      by by rewrite !app_assoc_s, !app_cons_s.
    by apply skipped_stop.
Qed.

Fixpoint started (fuel : nat) (content : string) (searchEnd : nat) : nat :=
  match fuel with
  | 0 => 0
  | S fuel =>
      if bool_decide (searchEnd = 0) then 0
      else
        let chunkStart := searchEnd - chunkSize in
        match LastIndexByte (stake (searchEnd - chunkStart) (sdrop chunkStart content)) newline with
        | Some index => chunkStart + index + 1
        | None => started fuel content chunkStart
        end
  end.

Lemma start_looks fuel content searchEnd : looks (line_start fuel content searchEnd) (started fuel content searchEnd).
Proof.
  revert searchEnd. induction fuel as [|fuel IH]; intros searchEnd; [apply looks_ret|].
  cbn [line_start started]. case_bool_decide; [apply looks_ret|]. cbv zeta.
  eapply looks_bind; [apply looks_io|]. case_match; [apply looks_ret|apply IH].
Qed.

(** The chunks find the newline before a line, however long it is. *)
Lemma started_line fuel pre l rest :
  at_start pre → part newline l → String.length (pre +:+ l) < fuel →
  started fuel (pre +:+ l +:+ rest) (String.length (pre +:+ l)) = String.length pre.
Proof.
  intros Hpre. revert l rest. induction fuel as [|fuel IH]; intros l rest Hl Hf; [lia|].
  cbn [started]. rewrite length_app_s in *. case_bool_decide as Hz; [lia|].
  cbv zeta. generalize chunkSize_pos. generalize chunkSize. intros c Hc.
  set (k := String.length pre + String.length l - c). destruct (decide (k < String.length pre)) as [Hk|Hk].
  - rewrite sdrop_app_le by lia.
    assert (String.length pre + String.length l - k = String.length (sdrop k pre +:+ l)) as ->
      by (rewrite length_app_s, length_sdrop; lia).
    rewrite <- app_assoc_s, stake_app. destruct Hpre as [->|[q ->]]; [simpl in Hk; lia|].
    rewrite length_app_s in Hk. simpl in Hk. rewrite sdrop_app_le by lia.
    rewrite app_assoc_s, app_cons_s, app_nil_l_s, LastIndexByte_last by done.
    rewrite length_sdrop, length_app_s. simpl. lia.
  - assert (∃ j, k = String.length pre + j ∧ j ≤ String.length l ∧ String.length pre + j < fuel) as (j&->&Hj&Hjf)
      by (exists (k - String.length pre); lia).
    rewrite sdrop_app_more, sdrop_app_le by done.
    assert (String.length pre + String.length l - (String.length pre + j) = String.length (sdrop j l)) as ->
      by (rewrite length_sdrop; lia).
    pose proof (stake_drop j l) as Hsplit. rewrite stake_app.
    assert (String.length (stake j l) = j) as Hlen.
    { apply (f_equal String.length) in Hsplit. rewrite length_app_s, length_sdrop in Hsplit. lia. }
    assert (part newline (stake j l) ∧ part newline (sdrop j l)) as [Hp1 Hp2] by (apply part_app_iff; by rewrite Hsplit).
    rewrite LastIndexByte_part by done. rewrite <- Hsplit at 1. rewrite app_assoc_s.
    assert (String.length pre + j = String.length (pre +:+ stake j l)) as -> by (rewrite length_app_s; lia).
    apply IH; [done|]. by rewrite length_app_s, Hlen.
Qed.

(** ** Reading the last event *)

Lemma looks_then {A B} (m : P A) (k : A → P B) a d d' r :
  looks m a → (m ≫= k) d = (d', r) →
  ∃ d1, events_file d1 = events_file d ∧ summary_file d1 = summary_file d ∧
    (d' = d1 ∧ faulty r ∨ k a d1 = (d', r)).
Proof.
  intros Hm H. unfold mbind, M_bind in H. destruct (m d) as [d1 r1] eqn:H1.
  destruct (Hm _ _ _ H1) as (He&Hs&[->|[e ->]]); exists d1; (split; [done|split; [done|]]); [by right|].
  left. injection H as <- <-. split; [done|by eexists].
Qed.

(** What happens once the last line has been found. *)
Definition on_line (fuel : nat) (final : bool) (start : nat) (l : string) : P (option FlowSessionEvent) :=
  match unmarshal_event l with
  | Err err => if final then throw (Undecodable err) else truncate start;; io "sync";; read_last fuel
  | Ok event => (if final then mret tt else write_bytes (String newline "");; io "sync");; mret (Some event)
  end.

Lemma read_line fuel pre l (final : bool) d d' r :
  at_start pre → part newline l → l ≠ "" →
  events_file d = Some (pre +:+ l +:+ (if final then String newline "" else "")) →
  read_last (S fuel) d = (d', r) →
  ∃ d1, events_file d1 = events_file d ∧ summary_file d1 = summary_file d ∧
    (d' = d1 ∧ faulty r ∨ on_line fuel final (String.length pre) l d1 = (d', r)).
Proof.
  intros Hpre Hl Hne Hf H. cbn [read_last] in H. set (content := pre +:+ _) in *.
  assert (skipped content (String.length content) false = (String.length (pre +:+ l), final)) as Hskip.
  { unfold content. destruct final; [|rewrite app_nil_r_s]; by apply skipped_line. }
  assert (started (S (String.length (pre +:+ l))) content (String.length (pre +:+ l)) = String.length pre) as Hstart.
  { unfold content. apply started_line; [done|done|lia]. }
  assert (stake (String.length (pre +:+ l) - String.length pre) (sdrop (String.length pre) content) = l) as Hline.
  { unfold content. rewrite sdrop_app, length_app_s.
    replace (String.length pre + String.length l - String.length pre) with (String.length l) by lia. apply stake_app. }
  unfold mbind at 1, M_bind at 1, gets in H. rewrite Hf in H. fold content in H.
  revert H. generalize (looks_io "open"), (looks_io "stat"). clearbody content. intros Ho Hst H.
  apply (looks_then _ _ _ _ _ _ Ho) in H as (d1&He1&Hs1&H). destruct H as [[-> Hr]|H]; [eauto 10|].
  apply (looks_then _ _ _ _ _ _ Hst) in H as (d2&He2&Hs2&H). destruct H as [[-> Hr]|H]; [exists d2; split_and!; try congruence; auto|].
  apply (looks_then _ _ _ _ _ _ (skip_looks _ _ _)) in H as (d3&He3&Hs3&H).
  destruct H as [[-> Hr]|H]; [exists d3; split_and!; try congruence; auto|]. rewrite Hskip in H.
  rewrite bool_decide_false in H by (destruct l; [done|rewrite length_app_s; simpl; lia]).
  apply (looks_then _ _ _ _ _ _ (start_looks _ _ _)) in H as (d4&He4&Hs4&H).
  destruct H as [[-> Hr]|H]; [exists d4; split_and!; try congruence; auto|]. rewrite Hstart in H.
  apply (looks_then _ _ _ _ _ _ (looks_io "read")) in H as (d5&He5&Hs5&H).
  destruct H as [[-> Hr]|H]; [exists d5; split_and!; try congruence; auto|]. rewrite Hline in H.
  exists d5. split_and!; [congruence|congruence|by right].
Qed.

Lemma lines_snoc ls evs : Forall2 line_of ls evs →
  (ls = [] ∧ evs = []) ∨ ∃ ls' l evs' e, ls = ls' ++ [l] ∧ evs = evs' ++ [e] ∧ Forall2 line_of ls' evs' ∧ line_of l e.
Proof.
  intros H. destruct ls as [|l ls _] using rev_ind; [left; by apply Forall2_nil_inv_l in H|]. right.
  apply Forall2_app_inv_l in H as (evs'&es&H1&H2&->).
  apply Forall2_cons_inv_l in H2 as (e&es'&Hl&->%Forall2_nil_inv_l&->). eauto 10.
Qed.

(** A file without a tail is only looked at. *)
Lemma read_clean fuel evs d d' r :
  clean_journal (events_file d) evs → read_last (S fuel) d = (d', r) →
  events_file d' = events_file d ∧ summary_file d' = summary_file d ∧ (r = Ok (last evs) ∨ faulty r).
Proof.
  intros (ls&Hf&Hls&_) H. rewrite app_nil_r_s in Hf.
  destruct (lines_snoc _ _ Hls) as [[-> ->]|(ls'&l&evs'&e&->&->&_&(Hp&Hne&Hu))].
  - cbn [read_last] in H. unfold mbind at 1, M_bind at 1, gets in H.
    destruct (events_file d) as [content|] eqn:He; [|injection H as <- <-; auto].
    cbn in Hf. subst content.
    apply (looks_then _ _ _ _ _ _ (looks_io "open")) in H as (d1&He1&Hs1&H). destruct H as [[-> Hr]|H]; [rewrite <- He; auto|].
    apply (looks_then _ _ _ _ _ _ (looks_io "stat")) in H as (d2&He2&Hs2&H). destruct H as [[-> Hr]|H]; [split_and!; try congruence; auto|].
    injection H as <- <-. split_and!; try congruence. by left.
  - rewrite journal_text_line in Hf.
    destruct (events_file d) as [content|] eqn:He; [|destruct (journal_text ls'); [destruct l|]; done].
    cbn in Hf. subst content.
    destruct (read_line fuel _ l true d d' r (journal_text_start ls') Hp Hne He H) as (d1&He1&Hs1&[[-> Hr]|H1]).
    { split_and!; try congruence. by right. }
    unfold on_line in H1. rewrite Hu in H1. injection H1 as <- <-. rewrite last_snoc.
    split_and!; try congruence. by left.
Qed.

(** Reading the last event repairs the journal and keeps its meaning. It fails
    only when the operating system does, and it never runs out of fuel. *)
Lemma read_last_spec fuel evs d d' r :
  settled (events_file d) evs → read_last (S (S fuel)) d = (d', r) →
  summary_file d' = summary_file d ∧ settled (events_file d') evs ∧
  (faulty r ∨ r = Ok (last evs) ∧ clean_journal (events_file d') evs).
Proof.
  intros (evs0&tail&Hh&->) H. unfold repaired. case_bool_decide as Ht.
  { subst tail. destruct (read_clean _ _ _ _ _ Hh H) as (He&Hs&Hr). rewrite He.
    split_and!; [done|by apply clean_settled|]. destruct Hr; [by right|by left]. }
  pose proof Hh as (ls&Hf&Hls&Hp).
  destruct (events_file d) as [content|] eqn:He; [|destruct (journal_text ls); [destruct tail|]; done].
  cbn in Hf. subst content.
  assert (events_file d = Some (journal_text ls +:+ tail +:+ "")) as He' by by rewrite app_nil_r_s.
  destruct (read_line (S fuel) _ tail false d d' r (journal_text_start ls) Hp Ht He' H) as (d1&He1&Hs1&[[-> Hr]|H1]).
  { rewrite He1, He. split_and!; [done| |by left]. exists evs0, tail. split; [done|]. unfold repaired. by rewrite bool_decide_false. }
  clear H. unfold on_line in H1. destruct (unmarshal_event tail) as [e|err] eqn:Hu.
  - assert (line_of tail e) as Hline by done.
    assert (clean_journal (Some (journal_text ls +:+ tail +:+ String newline "")) (evs0 ++ [e])) as Hclean.
    { exists (ls ++ [tail]). split_and!; [cbn; by rewrite journal_text_line, app_nil_r_s|by apply Forall2_app; [done|constructor; [done|constructor]]|done]. }
    assert (settled (Some (journal_text ls +:+ tail)) (evs0 ++ [e])) as Hset.
    { exists evs0, tail. split; [done|]. unfold repaired. by rewrite bool_decide_false, Hu. }
    unfold mbind at 1, M_bind at 1 in H1. unfold mbind at 1, M_bind at 1 in H1.
    destruct (write_bytes (String newline "") d1) as [d2 r2] eqn:Hw.
    destruct (write_spec _ _ _ _ Hw) as (Hs2&p&q&Hpq&He2&Hr2). rewrite He1, He in He2. cbn in He2.
    assert (settled (events_file d2) (evs0 ++ [e])) as Hset2.
    { rewrite He2. destruct p as [|a p]; [by rewrite app_nil_r_s|]. rewrite app_cons_s in Hpq. injection Hpq as <- Hpq.
      destruct p; [|done]. rewrite app_assoc_s. by apply clean_settled. }
    destruct Hr2 as [[-> ->]|[m ->]].
    + rewrite app_nil_r_s in Hpq. subst p.
      destruct (io "sync" d2) as [d3 r3] eqn:Hio. destruct (looks_io _ _ _ _ Hio) as (He3&Hs3&[->|[m ->]]); injection H1 as <- <-.
      * rewrite He3, He2, app_assoc_s, last_snoc. split_and!; [congruence|by apply clean_settled|by right].
      * rewrite He3. split_and!; [congruence|done|left; by eexists].
    + injection H1 as <- <-. split_and!; [congruence|done|left; by eexists].
  - assert (clean_journal (Some (journal_text ls)) evs0) as Hclean.
    { exists ls. split_and!; [by rewrite app_nil_r_s|done|done]. }
    unfold mbind at 1, M_bind at 1 in H1. destruct (truncate _ d1) as [d2 r2] eqn:Ht2.
    destruct (truncate_spec _ _ _ _ Ht2) as (Hs2&[[He2 [m ->]]|[He2 ->]]).
    + injection H1 as <- <-. rewrite He2, He1, He. split_and!; [congruence| |left; by eexists].
      exists evs0, tail. split; [done|]. unfold repaired. by rewrite bool_decide_false, Hu.
    + rewrite He1, He in He2. cbn in He2. rewrite stake_app in He2.
      apply (looks_then _ _ _ _ _ _ (looks_io "sync")) in H1 as (d3&He3&Hs3&[[-> Hr]|H1]).
      { rewrite He3, He2. split_and!; [congruence|by apply clean_settled|by left]. }
      assert (clean_journal (events_file d3) evs0) as Hc3 by by rewrite He3, He2.
      destruct (read_clean _ _ _ _ _ Hc3 H1) as (He4&Hs4&Hr). rewrite He4.
      split_and!; [congruence|by apply clean_settled|]. destruct Hr; [by right|by left].
Qed.

Lemma last_event_spec evs d d' r :
  settled (events_file d) evs → readLastFlowSessionEvent d = (d', r) →
  summary_file d' = summary_file d ∧ settled (events_file d') evs ∧
  (faulty r ∨ r = Ok (last evs) ∧ clean_journal (events_file d') evs).
Proof. intros Hs H. exact (read_last_spec 0 evs d d' r Hs H). Qed.

(** ** Appending *)

(** An append writes its event or a part of it, and after a fault the journal
    means either what it has meant or one event more. *)
Lemma append_spec {X : SessionLaws} e evs d d' r :
  text_event e → clean_journal (events_file d) evs → appendFlowSessionEvent e d = (d', r) →
  summary_file d' = summary_file d ∧
  (settled (events_file d') evs ∧ faulty r ∨
   settled (events_file d') (evs ++ [journaled e]) ∧ faulty r ∨
   clean_journal (events_file d') (evs ++ [journaled e]) ∧ r = Ok tt).
Proof.
  intros Htext Hc H. unfold appendFlowSessionEvent in H.
  destruct (marshal_event e) as [line|err] eqn:Hm.
  2: { injection H as <- <-. split; [done|]. left. split; [by apply clean_settled|by eexists]. }
  destruct (marshal_line _ _ Hm) as [Hp Hne]. pose proof (unmarshal_marshal _ _ Htext Hm) as Hu.
  pose proof Hc as (ls&Hf&Hls&_). rewrite app_nil_r_s in Hf.
  assert (∀ q, part newline q → holds (Some (journal_text ls +:+ q)) evs q) as Htail by (intros q; by exists ls).
  assert (clean_journal (Some (journal_text ls +:+ line +:+ String newline "")) (evs ++ [journaled e])) as Hfull.
  { exists (ls ++ [line]). split_and!; [cbn; by rewrite journal_text_line, app_nil_r_s|by apply Forall2_app; [done|constructor; [done|constructor]]|done]. }
  unfold open_journal in H. unfold mbind at 1, M_bind at 1 in H. unfold mbind at 1, M_bind at 1 in H.
  destruct (io "open" d) as [d1 r1] eqn:Ho. destruct (looks_io _ _ _ _ Ho) as (He1&Hs1&[->|[m ->]]).
  2: { injection H as <- <-. rewrite He1. split; [done|]. left. split; [by apply clean_settled|by eexists]. }
  unfold update at 1 in H. unfold mbind at 1, M_bind at 1 in H.
  destruct (write_bytes _ _) as [d2 r2] eqn:Hw.
  destruct (write_spec _ _ _ _ Hw) as (Hs2&p&q&Hpq&He2&Hr2). cbn in Hs2, He2. rewrite He1, Hf in He2.
  assert (settled (events_file d2) evs ∨ settled (events_file d2) (evs ++ [journaled e])) as Hset.
  { rewrite He2. destruct q as [|a q].
    { rewrite app_nil_r_s in Hpq. subst p. right. by apply clean_settled. }
    destruct (snoc_inv (String a q)) as (q'&b&Hq); [done|]. rewrite Hq, <- app_assoc_s in Hpq.
    assert (line = p +:+ q') as Hline.
    { apply (f_equal String.rev) in Hpq. rewrite !rev_app_s in Hpq. injection Hpq as _ Hpq. rewrite !app_nil_l_s, <- rev_app_s in Hpq. by apply rev_inj_s in Hpq. }
    assert (part newline p) as Hpp by (rewrite Hline in Hp; by apply part_app_iff in Hp as [? _]).
    destruct (decide (p = "")) as [->|Hpe].
    { left. exists evs, "". split; [by apply Htail|]. unfold repaired. by rewrite bool_decide_true. }
    destruct (decide (q' = "")) as [->|Hqe].
    - right. rewrite app_nil_r_s in Hline. subst p. exists evs, line. split; [by apply Htail|]. unfold repaired.
      by rewrite bool_decide_false, Hu.
    - left. exists evs, p. split; [by apply Htail|]. unfold repaired. rewrite bool_decide_false by done.
      rewrite Hline in Hm. by destruct (unmarshal_prefix _ _ _ Hpe Hqe Hm) as [err ->]. }
  destruct Hr2 as [[-> ->]|[m ->]].
  2: { injection H as <- <-. split; [congruence|]. destruct Hset; [left|right; left]; (split; [done|by eexists]). }
  rewrite app_nil_r_s in Hpq. subst p.
  unfold mbind at 1, M_bind at 1 in H. destruct (io "sync" d2) as [d3 r3] eqn:Hio.
  destruct (looks_io _ _ _ _ Hio) as (He3&Hs3&[->|[m ->]]).
  2: { injection H as <- <-. split; [congruence|]. right; left. rewrite He3, He2. split; [by apply clean_settled|by eexists]. }
  destruct (looks_io _ _ _ _ H) as (He4&Hs4&Hr). split; [congruence|]. right. rewrite He4, He3, He2.
  destruct Hr as [->|Hr]; [by right|left]. split; [by apply clean_settled|done].
Qed.

End Journal.
