(* ===== verification/SessionStore.v ===== *)
(** * Flow sessions: the store ([internal/agent/flow_session_store.go])

    The operations on one session, each under the session's lock: it loads the
    record, which repairs what a crash has left behind, checks, appends to the
    journal, and replaces the summary as a whole. The directory is that of the
    session [sessionID] of the flow [flowID]. *)
From S2P Require Import Prelude GoStrings GoRunes GoPath JSON FlowModel WorkflowTypes SessionTypes SessionJournal.
From Stdlib Require Import Ascii ZArith Lia.

Definition id_rune (r : N) : bool :=
  ((r =? 95) || (r =? 45) || ((97 <=? r) && (r <=? 122)) || ((48 <=? r) && (r <=? 57)))%N.

Definition validateFlowID (id : string) : bool := forallb id_rune (runes id).
Definition validateFlowSessionID (id : string) : bool :=
  negb (bool_decide (TrimSpace id = "")) && bool_decide (Base id = id) && forallb id_rune (runes id).

Definition isActiveFlowSessionStatus (status : string) : bool := bool_decide (status ∈ ["active"; "paused"]).

(** What callers see of a record; what is in flight is added by the workers. *)
Record FlowSessionView := mkView {
  Vw_SessionID : string;
  Vw_FlowID : string;
  Vw_Version : string;
  Vw_Digest : string;
  Vw_Status : string;
  Vw_Inputs : object;
  Vw_State : object;
  Vw_LastSequence : Z;
  Vw_ProcessedSequence : Z;
  Vw_StateVersion : Z;
  Vw_ExecutionGeneration : Z;
  Vw_LastError : string;
  Vw_LastProcessedEventType : string;
  Vw_LastProcessedNodes : list string;
  Vw_LastBranchRoutes : gmap string string;
  Vw_LastExecution : option FlowSessionExecutionSummary;
  Vw_LatestSignalOutputs : list FlowSessionOutputSnapshot;
  Vw_StartedAt : time;
  Vw_UpdatedAt : time;
  Vw_EndedAt : time;
}.

Definition flowSessionView (rec : flowSessionRecord) : FlowSessionView :=
  mkView (FS_SessionID rec) (FS_FlowID rec) (FS_Version rec) (FS_Digest rec) (FS_Status rec) (FS_Inputs rec) (FS_State rec)
    (FS_LastSequence rec) (FS_ProcessedSequence rec) (FS_StateVersion rec) (FS_ExecutionGeneration rec) (FS_LastError rec)
    (FS_LastProcessedEventType rec) (FS_LastProcessedNodes rec) (FS_LastBranchRoutes rec) (FS_LastExecution rec)
    (FS_LatestSignalOutputs rec) (FS_StartedAt rec) (FS_UpdatedAt rec) (FS_EndedAt rec).

Section Store.
Context {L : SessionLib} {W : Type} {V : Storage W} (flowID sessionID : string).

Abbreviation P := (M (session_dir W) session_error).

(** [flowSessionDir]; an operation asks again later, where nothing has changed. *)
Definition flowSessionDir : option session_error :=
  if negb (validateFlowSessionID sessionID) then Some (Invalid ("invalid flow_session_id " +:+ sessionID))
  else if bool_decide (TrimSpace flowID = "") then Some (Invalid "missing flow_id")
  else if negb (validateFlowID (TrimSpace flowID)) then Some (Invalid ("invalid flow_id " +:+ flowID))
  else None.

(** [fsutil.WriteJSONAtomic]: the file is replaced or stays as it is. *)
Definition save_summary (rec : flowSessionRecord) : P unit :=
  io "save";;
  update (set_summary (Some (encoded_record rec))).

(** The record that [CreateFlowSession] creates. *)
Definition new_session (version digest : string) (inputs : object) (now : time) : flowSessionRecord :=
  mkRecord sessionID flowID version digest "active" inputs [] 0 0 0 1 "" "" [] ∅ None [] [] ∅ now now 0.

Definition createFlowSession (rec : flowSessionRecord) : P unit :=
  require flowSessionDir;;
  io "mkdir";;
  s ← gets summary_file;
  match s with
  | Some _ => throw (ErrFlowSessionConflict sessionID)
  | None => io "stat";; save_summary rec
  end.

(** ** Loading *)

Fixpoint flush_events (lastSequence : Z) (events : list FlowSessionEvent) : P unit :=
  match events with
  | [] => mret tt
  | event :: events =>
      if (Ev_Sequence event <=? lastSequence)%Z then flush_events lastSequence events
      else if negb (Ev_Sequence event =? wrapu64 (lastSequence + 1))%Z then throw (Gap lastSequence (Ev_Sequence event))
      else appendFlowSessionEvent event;; flush_events (Ev_Sequence event) events
  end.

Definition flushPendingFlowSessionOutputEventsLocked (rec : flowSessionRecord) : P flowSessionRecord :=
  if is_nil (FS_PendingOutputEvents rec) then mret rec
  else
    lastEvent ← readLastFlowSessionEvent;
    let lastSequence := match lastEvent with Some e => Ev_Sequence e | None => 0%Z end in
    flush_events lastSequence (FS_PendingOutputEvents rec);;
    let rec := set_FS_PendingOutputEvents [] rec in
    save_summary rec;;
    mret rec.

Definition recovered_cursors (rec : flowSessionRecord) (event : FlowSessionEvent) : gmap string flowSessionSourceCursor :=
  if (0 <? Ev_SourceSequence event)%Z
  then <[Ev_Source event := mkCursor (Ev_SourceSequence event) (Ev_Sequence event)
           (flowSessionEventHash (Ev_Type event) (Ev_CorrelationID event) (Ev_OccurredAt event) (Ev_Payload event))]>
         (FS_SourceCursors rec)
  else FS_SourceCursors rec.

Definition clamp_processed (rec : flowSessionRecord) : flowSessionRecord :=
  if (FS_LastSequence rec <? FS_ProcessedSequence rec)%Z then set_FS_ProcessedSequence (FS_LastSequence rec) rec else rec.

Definition end_session (event : FlowSessionEvent) (rec : flowSessionRecord) : flowSessionRecord :=
  set_FS_EndedAt (Ev_ReceivedAt event) (set_FS_ProcessedSequence (Ev_Sequence event) rec).

(** The lifecycle of a session as its journal tells it. *)
Definition recovered_status (event : FlowSessionEvent) (rec : flowSessionRecord) : flowSessionRecord :=
  if bool_decide (Ev_Type event = "session.paused") then bump_generation (set_FS_Status "paused" rec)
  else if bool_decide (Ev_Type event = "session.resumed") then bump_generation (set_FS_Status "active" rec)
  else if bool_decide (Ev_Type event = "session.completed") then bump_generation (end_session event (set_FS_Status "completed" rec))
  else if bool_decide (Ev_Type event = "session.canceled") then bump_generation (end_session event (set_FS_Status "canceled" rec))
  else rec.

(** The record with an event of the journal that it had not counted. *)
Definition recovered_record (rec : flowSessionRecord) (event : FlowSessionEvent) (updatedAt : time) : flowSessionRecord :=
  let rec := set_FS_LastSequence (Ev_Sequence event) rec in
  let rec := if (FS_StateVersion rec <? Ev_StateVersion event)%Z then set_FS_StateVersion (Ev_StateVersion event) rec else rec in
  let rec := set_FS_UpdatedAt updatedAt rec in
  let rec := set_FS_SourceCursors (recovered_cursors rec event) rec in
  recovered_status event (clamp_processed rec).

Definition recoverFlowSessionTailLocked (rec : flowSessionRecord) : P flowSessionRecord :=
  e ← readLastFlowSessionEvent;
  match e with
  | None => mret rec
  | Some event =>
      if (Ev_Sequence event <=? FS_LastSequence rec)%Z then mret rec
      else if negb (Ev_Sequence event =? wrapu64 (FS_LastSequence rec + 1))%Z
      then throw (Gap (FS_LastSequence rec) (Ev_Sequence event))
      else
        updatedAt ← (if (Ev_ReceivedAt event =? 0)%Z then read_clock else mret (Ev_ReceivedAt event));
        let rec := recovered_record rec event updatedAt in
        save_summary rec;;
        mret rec
  end.

(** What loading corrects in a record, and whether it does. *)
Definition first_generation (rec : flowSessionRecord) : flowSessionRecord :=
  if (FS_ExecutionGeneration rec =? 0)%Z then set_FS_ExecutionGeneration 1 rec else rec.
Definition raise_version (rec : flowSessionRecord) : flowSessionRecord :=
  if (FS_StateVersion rec <? FS_LastSequence rec)%Z then set_FS_StateVersion (FS_LastSequence rec) rec else rec.

Definition loadFlowSessionLocked : P flowSessionRecord :=
  require flowSessionDir;;
  io "read summary";;
  s ← gets summary_file;
  match s with
  | None => throw (ErrFlowSessionNotFound sessionID)
  | Some rec =>
      if negb (bool_decide (FS_SessionID rec = sessionID)) || negb (bool_decide (FS_FlowID rec = flowID))
      then throw (Invalid "flow session record identity mismatch")
      else
        let changed := (FS_ExecutionGeneration rec =? 0)%Z in
        rec ← flushPendingFlowSessionOutputEventsLocked (first_generation rec);
        rec ← recoverFlowSessionTailLocked rec;
        let changed := changed || (FS_LastSequence rec <? FS_ProcessedSequence rec)%Z
                       || (FS_StateVersion rec <? FS_LastSequence rec)%Z in
        let rec := raise_version (clamp_processed rec) in
        when changed (save_summary rec);;
        mret rec
  end.

(** ** Pausing, resuming, ending *)

Definition transition_event (status target : string) : result session_error string :=
  if bool_decide (target = "paused") then
    if bool_decide (status = "active") then Ok "session.paused"
    else Err (ErrFlowSessionConflict ("cannot pause session in " +:+ status))
  else if bool_decide (target = "active") then
    if bool_decide (status = "paused") then Ok "session.resumed"
    else Err (ErrFlowSessionConflict ("cannot resume session in " +:+ status))
  else if bool_decide (target = "completed") || bool_decide (target = "canceled") then
    if bool_decide (status = "active") || bool_decide (status = "paused") then Ok ("session." +:+ target)
    else Err (ErrFlowSessionConflict ("cannot end session in " +:+ status))
  else Err (Invalid ("unsupported flow session status " +:+ target)).

Definition lifecycle_event (rec : flowSessionRecord) (type : string) (now : time) : FlowSessionEvent :=
  mkEvent (FS_SessionID rec) (FS_FlowID rec) (FS_Version rec) (FS_Digest rec) "godex" 0
    (wrapu64 (FS_LastSequence rec + 1)) (wrapu64 (FS_StateVersion rec + 1)) type "" 0 now "{}".

Definition transitioned (rec : flowSessionRecord) (target : string) (event : FlowSessionEvent) (now : time) : flowSessionRecord :=
  let rec := set_FS_Status target rec in
  let rec := set_FS_LastSequence (Ev_Sequence event) rec in
  let rec := set_FS_StateVersion (Ev_StateVersion event) rec in
  let rec := set_FS_UpdatedAt now (bump_generation rec) in
  if bool_decide (target = "completed") || bool_decide (target = "canceled")
  then set_FS_ProcessedSequence (Ev_Sequence event) (set_FS_EndedAt now rec)
  else rec.

Definition transitionFlowSession (target : string) : P flowSessionRecord :=
  rec ← loadFlowSessionLocked;
  if bool_decide (FS_Status rec = target) then mret rec
  else
    match transition_event (FS_Status rec) target with
    | Err e => throw e
    | Ok eventType =>
        now ← read_clock;
        let event := lifecycle_event rec eventType now in
        appendFlowSessionEvent event;;
        let rec := transitioned rec target event now in
        save_summary rec;;
        mret rec
    end.

(** ** Submitting an event *)

Definition set_In_Payload (p : string) (i : FlowSessionEventInput) : FlowSessionEventInput :=
  mkInput (In_Source i) (In_SourceSequence i) (In_Type i) (In_CorrelationID i) (In_OccurredAt i) p
    (In_LaneID i) (In_LaneClass i) (In_DeadlineMS i) (In_OverloadPolicy i).

Definition trimmed_input (i : FlowSessionEventInput) : FlowSessionEventInput :=
  mkInput (TrimSpace (In_Source i)) (In_SourceSequence i) (TrimSpace (In_Type i)) (TrimSpace (In_CorrelationID i))
    (In_OccurredAt i) (In_Payload i) (In_LaneID i) (In_LaneClass i) (In_DeadlineMS i) (In_OverloadPolicy i).

(** [NormalizeFlowSessionEventInput] of [flow_session_ops.go]. *)
Definition NormalizeFlowSessionEventInput (input : FlowSessionEventInput) : result session_error FlowSessionEventInput :=
  let input := trimmed_input input in
  if bool_decide (In_Source input = "") || (128 <? String.length (In_Source input))
  then Err (Invalid "event source must be between 1 and 128 characters")
  else if bool_decide (In_Source input = "godex") then Err (Invalid "event source is reserved")
  else if bool_decide (In_Type input = "") || (128 <? String.length (In_Type input))
  then Err (Invalid "event type must be between 1 and 128 characters")
  else if 256 <? String.length (In_CorrelationID input) then Err (Invalid "correlation_id must not exceed 256 characters")
  else
    let payload := if bool_decide (In_Payload input = "") then "{}" else In_Payload input in
    if (MaxFlowSessionEventPayloadBytes <? Z.of_nat (String.length payload))%Z then Err ErrFlowSessionEventTooLarge
    else
      match canonical_object payload with
      | Err e => Err (Invalid e)
      | Ok canonical =>
          if (MaxFlowSessionEventPayloadBytes <? Z.of_nat (String.length canonical))%Z then Err ErrFlowSessionEventTooLarge
          else Ok (set_In_Payload canonical input)
      end.

Definition input_hash (input : FlowSessionEventInput) : string :=
  flowSessionEventHash (In_Type input) (In_CorrelationID input) (In_OccurredAt input) (In_Payload input).

(** What an event that has been submitted before returns; an error; or that it
    is to be appended. *)
Definition admit_event (rec : flowSessionRecord) (input : FlowSessionEventInput) : result session_error (option Z) :=
  let cursor := FS_SourceCursors rec !! In_Source input in
  let replay :=
    match cursor with
    | Some c =>
        if (0 <? In_SourceSequence input)%Z then
          if (In_SourceSequence input =? Cur_SourceSequence c)%Z && bool_decide (input_hash input = Cur_Hash c)
          then Ok (Some (Cur_EventSequence c))
          else if (In_SourceSequence input <=? Cur_SourceSequence c)%Z
          then Err (ErrFlowSessionConflict "source sequence is not newer")
          else Ok None
        else Ok None
    | None => Ok None
    end in
  match replay with
  | Ok None =>
      if negb (bool_decide (FS_Status rec = "active"))
      then Err (ErrFlowSessionConflict ("cannot append events to session in " +:+ FS_Status rec))
      else if (maxFlowSessionPendingEvents <=? wrapu64 (FS_LastSequence rec - FS_ProcessedSequence rec))%Z
      then Err ErrFlowSessionPendingLimit
      else if is_None cursor && (maxFlowSessionEventSources <=? Z.of_nat (size (FS_SourceCursors rec)))%Z
      then Err (ErrFlowSessionConflict "session source limit reached")
      else Ok None
  | _ => replay
  end.

Definition input_event (rec : flowSessionRecord) (input : FlowSessionEventInput) (now : time) : FlowSessionEvent :=
  mkEvent (FS_SessionID rec) (FS_FlowID rec) (FS_Version rec) (FS_Digest rec) (In_Source input) (In_SourceSequence input)
    (wrapu64 (FS_LastSequence rec + 1)) (wrapu64 (FS_StateVersion rec + 1)) (In_Type input) (In_CorrelationID input)
    (In_OccurredAt input) now (In_Payload input).

Definition appended (rec : flowSessionRecord) (input : FlowSessionEventInput) (event : FlowSessionEvent) (now : time) :
    flowSessionRecord :=
  let rec := set_FS_LastSequence (Ev_Sequence event) rec in
  let rec := set_FS_UpdatedAt now (set_FS_StateVersion (Ev_StateVersion event) rec) in
  if (0 <? In_SourceSequence input)%Z
  then set_FS_SourceCursors (<[In_Source input := mkCursor (In_SourceSequence input) (Ev_Sequence event) (input_hash input)]>
                               (FS_SourceCursors rec)) rec
  else rec.

(** The sequence of the event, and whether it is a duplicate. *)
Definition appendEvent (input : FlowSessionEventInput) : P (Z * bool) :=
  rec ← loadFlowSessionLocked;
  match admit_event rec input with
  | Err e => throw e
  | Ok (Some sequence) => mret (sequence, true)
  | Ok None =>
      now ← read_clock;
      let event := input_event rec input now in
      appendFlowSessionEvent event;;
      save_summary (appended rec input event now);;
      mret (Ev_Sequence event, false)
  end.

(** ** The results of workers *)

Definition checkpointFlowSessionCursor (sequence expectedExecutionGeneration : Z) : P unit :=
  rec ← loadFlowSessionLocked;
  if negb (FS_ExecutionGeneration rec =? expectedExecutionGeneration)%Z then throw ErrFlowSessionStaleWork
  else if negb (bool_decide (FS_Status rec = "active"))
  then throw (ErrFlowSessionConflict ("cannot process events while session is " +:+ FS_Status rec))
  else if negb (sequence =? wrapu64 (FS_ProcessedSequence rec + 1))%Z || (FS_LastSequence rec <? sequence)%Z
  then throw (ErrFlowSessionConflict "invalid processed sequence")
  else
    now ← read_clock;
    save_summary (set_FS_UpdatedAt now (bump_generation (set_FS_ProcessedSequence sequence rec))).

Definition skipped_record (rec : flowSessionRecord) (sequence : Z) (eventType : string)
    (execution : option FlowSessionExecutionSummary) (now : time) : flowSessionRecord :=
  let rec := bump_generation (bump_version (set_FS_ProcessedSequence sequence rec)) in
  let rec := set_FS_LastProcessedEventType eventType (set_FS_LastError "" rec) in
  let rec := set_FS_LastBranchRoutes ∅ (set_FS_LastProcessedNodes [] rec) in
  set_FS_UpdatedAt now (set_FS_LastExecution execution rec).

Definition cancelFlowSessionWork (sequence expectedExecutionGeneration : Z) (eventType : string)
    (execution : option FlowSessionExecutionSummary) : P bool :=
  rec ← loadFlowSessionLocked;
  if (sequence <=? FS_ProcessedSequence rec)%Z
     || negb (FS_ExecutionGeneration rec =? expectedExecutionGeneration)%Z
     || negb (bool_decide (FS_Status rec = "active"))
     || negb (sequence =? wrapu64 (FS_ProcessedSequence rec + 1))%Z
     || (FS_LastSequence rec <? sequence)%Z
  then mret false
  else
    now ← read_clock;
    let rec := skipped_record rec sequence eventType execution now in
    save_summary rec;;
    _ ← flushPendingFlowSessionOutputEventsLocked rec;
    mret true.

Definition output_event (rec : flowSessionRecord) (output : flowSessionOutput) (payload : string) (now : time) : FlowSessionEvent :=
  mkEvent (FS_SessionID rec) (FS_FlowID rec) (FS_Version rec) (FS_Digest rec) "godex" 0
    (FS_LastSequence rec) (FS_StateVersion rec) FlowSessionOutputEventType (Out_CorrelationID output) now now payload.

Fixpoint stage_events (rec : flowSessionRecord) (outputs : list flowSessionOutput) (totalBytes : Z) (now : time) :
    result session_error (flowSessionRecord * list FlowSessionEvent) :=
  match outputs with
  | [] => Ok (rec, [])
  | output :: outputs =>
      match marshal_output output with
      | Err e => Err (Fault e)
      | Ok payload =>
          let n := Z.of_nat (String.length payload) in
          if (MaxFlowSessionEventPayloadBytes <? n)%Z || (maxFlowSessionOutputBatchBytes <? totalBytes + n)%Z
          then Err ErrFlowSessionEventTooLarge
          else
            let rec := bump_version (set_FS_LastSequence (wrapu64 (FS_LastSequence rec + 1)) rec) in
            '(rec', pending) ← stage_events rec outputs (totalBytes + n) now;
            Ok (rec', output_event rec output payload now :: pending)
      end
  end.

Definition stageFlowSessionOutputEvents (rec : flowSessionRecord) (outputs : list flowSessionOutput) : P flowSessionRecord :=
  if is_nil outputs then mret rec
  else
    now ← read_clock;
    match stage_events rec outputs 0 now with
    | Err e => throw e
    | Ok (rec, pending) => mret (set_FS_PendingOutputEvents pending rec)
    end.

(** What a worker reports of the event it has processed. *)
Record work_result := mkWorkResult {
  WR_State : option object;
  WR_NodeIDs : list string;
  WR_BranchRoutes : gmap string string;
  WR_Outputs : list flowSessionOutput;
  WR_Execution : option FlowSessionExecutionSummary;
  WR_Error : string;
}.

Definition with_state (state : option object) (rec : flowSessionRecord) : flowSessionRecord :=
  match state with Some v => set_FS_State v rec | None => rec end.

Definition progressed (rec : flowSessionRecord) (inputSequence : Z) (eventType : string) (res : work_result) (now : time) :
    flowSessionRecord :=
  let rec := set_FS_LastError (WR_Error res) (with_state (WR_State res) rec) in
  let rec := bump_generation (bump_version (set_FS_ProcessedSequence inputSequence rec)) in
  let rec := set_FS_LastProcessedNodes (WR_NodeIDs res) (set_FS_LastProcessedEventType eventType rec) in
  let rec := set_FS_LastExecution (WR_Execution res) (set_FS_LastBranchRoutes (WR_BranchRoutes res) rec) in
  set_FS_UpdatedAt now rec.

Definition commitFlowSessionProgress (inputSequence expectedExecutionGeneration : Z) (eventType : string) (res : work_result) :
    P unit :=
  rec ← loadFlowSessionLocked;
  if negb (FS_ExecutionGeneration rec =? expectedExecutionGeneration)%Z then throw ErrFlowSessionStaleWork
  else if negb (bool_decide (FS_Status rec = "active"))
  then throw (ErrFlowSessionConflict ("cannot commit session work while session is " +:+ FS_Status rec))
  else if negb (inputSequence =? wrapu64 (FS_ProcessedSequence rec + 1))%Z || (FS_LastSequence rec <? inputSequence)%Z
  then throw (ErrFlowSessionConflict "input sequence is outside the pending range")
  else
    now ← read_clock;
    rec ← stageFlowSessionOutputEvents (progressed rec inputSequence eventType res now) (WR_Outputs res);
    save_summary rec;;
    _ ← flushPendingFlowSessionOutputEventsLocked rec;
    mret tt.

Definition snapshot_of (output : flowSessionOutput) : FlowSessionOutputSnapshot :=
  mkSnapshot (Out_OutputID output) (Out_InputEventType output) (Out_InputSource output) (Out_InputSourceSeq output)
    (Out_CorrelationID output) (Out_NodeID output) (Out_Outputs output).

Fixpoint snapshot_outputs (outputs : list flowSessionOutput) (totalBytes : Z) :
    result session_error (list FlowSessionOutputSnapshot) :=
  match outputs with
  | [] => Ok []
  | output :: outputs =>
      match marshal_snapshot (snapshot_of output) with
      | Err e => Err (Fault e)
      | Ok payload =>
          let n := Z.of_nat (String.length payload) in
          if (MaxFlowSessionEventPayloadBytes <? n)%Z || (maxFlowSessionOutputBatchBytes <? totalBytes + n)%Z
          then Err ErrFlowSessionEventTooLarge
          else snapshots ← snapshot_outputs outputs (totalBytes + n); Ok (snapshot_of output :: snapshots)
      end
  end.
Definition snapshotFlowSessionOutputs (outputs : list flowSessionOutput) : result session_error (list FlowSessionOutputSnapshot) :=
  snapshot_outputs outputs 0.

Definition signaled (rec : flowSessionRecord) (res : work_result) (now : time) : flowSessionRecord :=
  let rec := set_FS_LastError (WR_Error res) (with_state (WR_State res) rec) in
  let rec := bump_generation (bump_version (set_FS_LastBranchRoutes (WR_BranchRoutes res) rec)) in
  set_FS_LastExecution (WR_Execution res) (set_FS_UpdatedAt now rec).

(** The result of a signal: it names no nodes and no event. *)
Definition checkpointFlowSessionSignal (expectedStateVersion expectedExecutionGeneration : Z) (res : work_result) : P unit :=
  rec ← loadFlowSessionLocked;
  if negb (bool_decide (FS_Status rec = "active"))
  then throw (ErrFlowSessionConflict ("cannot apply signals while session is " +:+ FS_Status rec))
  else if (FS_ProcessedSequence rec <? FS_LastSequence rec)%Z then throw ErrFlowSessionPendingEvents
  else if negb (FS_StateVersion rec =? expectedStateVersion)%Z then throw ErrFlowSessionStaleSignal
  else if negb (FS_ExecutionGeneration rec =? expectedExecutionGeneration)%Z then throw ErrFlowSessionStaleSignal
  else
    now ← read_clock;
    match snapshotFlowSessionOutputs (WR_Outputs res) with
    | Err e => throw e
    | Ok latestOutputs => save_summary (set_FS_LatestSignalOutputs latestOutputs (signaled rec res now))
    end.

End Store.
