(* ===== verification/SessionSpec.v ===== *)
(** * Flow sessions: what the store promises

    A directory, whatever a crash has left in it, stands for one record and one
    journal: those that loading it without a fault gives. Each operation of the
    store is shown to be one step of this pair, or none: the abstract session has
    neither files nor faults. *)
From S2P Require Import Prelude GoStrings GoRunes GoPath JSON FlowModel WorkflowTypes WorkflowSpec SessionTypes SessionJournal SessionStore.
From Stdlib Require Import Ascii ZArith Lia.

Section Spec.
Context {L : SessionLib} {X : SessionLaws} {W : Type} {V : Storage W} (flowID sessionID : string).

Abbreviation P := (M (session_dir W) session_error).

(** ** Steps of programs *)

Lemma bind_inv {A B} (m : P A) (k : A → P B) d d' r :
  (m ≫= k) d = (d', r) →
  (∃ a d1, m d = (d1, Ok a) ∧ k a d1 = (d', r)) ∨ (∃ e, m d = (d', Err e) ∧ r = Err e).
Proof. unfold mbind, M_bind. destruct (m d) as [d1 [a|e]]; [intros; left; eauto|]. intros [= <- <-]. right. eauto. Qed.

Lemma clock_spec d d' r :
  read_clock d = (d', r) →
  ∃ t, t ≠ 0%Z ∧ r = Ok t ∧ events_file d' = events_file d ∧ summary_file d' = summary_file d.
Proof.
  unfold read_clock. pose proof (now_set (disk_world d)) as Ht. destruct (now (disk_world d)) as [t w].
  intros [= <- <-]. by exists t.
Qed.

Lemma save_spec rec d d' r :
  save_summary rec d = (d', r) →
  events_file d' = events_file d ∧
  (faulty r ∧ summary_file d' = summary_file d ∨ r = Ok tt ∧ summary_file d' = Some (encoded_record rec)).
Proof.
  intros [(a&d1&H1&H2)|(e&H1&->)]%bind_inv.
  - destruct (looks_io _ _ _ _ H1) as (He&Hs&_). injection H2 as <- <-. split; [done|]. by right.
  - destruct (looks_io _ _ _ _ H1) as (He&Hs&[?|[m [= ->]]]); [done|]. split; [done|]. left. by split; [eexists|].
Qed.

(** ** Records *)

Definition is_encoded (r : flowSessionRecord) : Prop :=
  encoded_object (FS_Inputs r) = FS_Inputs r ∧ encoded_object (FS_State r) = FS_State r ∧
  encoded_snapshot <$> FS_LatestSignalOutputs r = FS_LatestSignalOutputs r.

Record record_ok (r : flowSessionRecord) : Prop := {
  ok_session : FS_SessionID r = sessionID;
  ok_flow : FS_FlowID r = flowID;
  ok_texts : is_text sessionID ∧ is_text flowID ∧ is_text (FS_Version r) ∧ is_text (FS_Digest r);
  ok_sequences : (0 <= FS_ProcessedSequence r <= FS_LastSequence r)%Z;
  ok_version : (FS_LastSequence r <= FS_StateVersion r)%Z;
  ok_generation : (0 <= FS_ExecutionGeneration r)%Z;
  ok_encoded : is_encoded r;
}.

(** The counters of the record are not about to wrap. *)
Definition young_record (r : flowSessionRecord) : Prop :=
  (FS_StateVersion r < 2 ^ 64 - 2 ^ 17)%Z ∧ (FS_ExecutionGeneration r < 2 ^ 64 - 4)%Z.

(** The events of a journal are numbered from 1. *)
Definition numbered (evs : list FlowSessionEvent) : Prop :=
  ∀ i e, evs !! i = Some e → Ev_Sequence e = (Z.of_nat i + 1)%Z.

Lemma numbered_app evs evs' : numbered (evs ++ evs') → numbered evs.
Proof. intros H i e Hi. apply H. by apply lookup_app_l_Some. Qed.

Lemma numbered_last evs : numbered evs → from_option Ev_Sequence 0%Z (last evs) = Z.of_nat (length evs).
Proof.
  intros H. destruct evs as [|e evs _] using rev_ind; [done|]. rewrite last_snoc, length_app. cbn.
  rewrite (H (length evs) e); [lia|]. by rewrite lookup_app_r, Nat.sub_diag by done.
Qed.

Lemma numbered_snoc evs e :
  numbered evs → Ev_Sequence e = (Z.of_nat (length evs) + 1)%Z → numbered (evs ++ [e]).
Proof.
  intros H He i x [Hi|[Hl Hi]]%lookup_app_Some; [by apply H|].
  apply list_lookup_singleton_Some in Hi as [Hi <-]. rewrite He. lia.
Qed.

Lemma encoded_twice o : encoded_object (encoded_object o) = encoded_object o.
Proof.
  unfold encoded_object. rewrite <- list_fmap_compose. apply list_fmap_ext. intros _ [k v] _. cbn. by rewrite encoded_idemp.
Qed.

Lemma is_encoded_id r : is_encoded r → FS_PendingOutputEvents r = [] → encoded_record r = r.
Proof. intros (H1&H2&H3) Hp. destruct r. cbn in *. unfold encoded_record. cbn. by rewrite H1, H2, H3, Hp. Qed.

Lemma first_generation_ok r : record_ok r → record_ok (first_generation r).
Proof. intros []. unfold first_generation. case_match; [|done]. by constructor. Qed.

Lemma first_generation_id r : (0 < FS_ExecutionGeneration r)%Z → first_generation r = r.
Proof. intros H. unfold first_generation. destruct (Z.eqb_spec (FS_ExecutionGeneration r) 0); [lia|done]. Qed.

Lemma first_generation_last r : FS_LastSequence (first_generation r) = FS_LastSequence r.
Proof. unfold first_generation. by case_match. Qed.

Lemma first_generation_pending r : FS_PendingOutputEvents (first_generation r) = FS_PendingOutputEvents r.
Proof. unfold first_generation. by case_match. Qed.

Lemma first_generation_pos r : record_ok r → (0 < FS_ExecutionGeneration (first_generation r))%Z.
Proof.
  intros [_ _ _ _ _ Hg _]. unfold first_generation. destruct (Z.eqb_spec (FS_ExecutionGeneration r) 0); [done|lia].
Qed.

Lemma clamp_id r : record_ok r → clamp_processed r = r.
Proof. intros []. unfold clamp_processed. destruct (Z.ltb_spec (FS_LastSequence r) (FS_ProcessedSequence r)); [lia|done]. Qed.

Lemma raise_id r : record_ok r → raise_version r = r.
Proof. intros []. unfold raise_version. destruct (Z.ltb_spec (FS_StateVersion r) (FS_LastSequence r)); [lia|done]. Qed.

Lemma wrapu64_small z : (0 <= z < 2 ^ 64)%Z → wrapu64 z = z.
Proof. intros H. unfold wrapu64. by apply Z.mod_small. Qed.

(** ** What a directory stands for *)

(** The record that counts an event of the journal. *)
Definition caught_up (s : flowSessionRecord) (e : FlowSessionEvent) : flowSessionRecord :=
  recovered_record (first_generation s) e (Ev_ReceivedAt e).

(** With [s] the summary: nothing is left to do; or an event is in the journal
    that [s] does not count; or outputs are staged, of which some are in the
    journal. *)
Inductive stands (d : session_dir W) : flowSessionRecord → list FlowSessionEvent → Prop :=
| stands_done s evs :
    summary_file d = Some s → record_ok s → FS_PendingOutputEvents s = [] →
    settled (events_file d) evs → numbered evs → Z.of_nat (length evs) = FS_LastSequence s →
    stands d (first_generation s) evs
| stands_ahead s evs e :
    summary_file d = Some s → record_ok s → FS_PendingOutputEvents s = [] →
    settled (events_file d) (evs ++ [e]) → numbered (evs ++ [e]) → Z.of_nat (length evs) = FS_LastSequence s →
    Ev_ReceivedAt e ≠ 0%Z → (FS_LastSequence s < Ev_StateVersion e <= FS_StateVersion s + 1)%Z →
    stands d (caught_up s e) (evs ++ [e])
| stands_staged s evs staged rest :
    summary_file d = Some s → record_ok s → FS_PendingOutputEvents s = staged ++ rest →
    Forall text_event (staged ++ rest) →
    settled (events_file d) (evs ++ (journaled <$> staged)) → numbered (evs ++ (journaled <$> staged ++ rest)) →
    Z.of_nat (length evs + length (staged ++ rest)) = FS_LastSequence s →
    stands d (first_generation (set_FS_PendingOutputEvents [] s)) (evs ++ (journaled <$> staged ++ rest)).

(** A directory with nothing left to repair. *)
Record loaded (d : session_dir W) (r : flowSessionRecord) (evs : list FlowSessionEvent) : Prop := {
  loaded_summary : summary_file d = Some r;
  loaded_ok : record_ok r;
  loaded_generation : (0 < FS_ExecutionGeneration r)%Z;
  loaded_pending : FS_PendingOutputEvents r = [];
  loaded_journal : clean_journal (events_file d) evs;
  loaded_numbered : numbered evs;
  loaded_length : Z.of_nat (length evs) = FS_LastSequence r;
}.

Lemma loaded_stands d r evs : loaded d r evs → stands d r evs.
Proof.
  intros []. rewrite <- (first_generation_id r) by done. apply stands_done; try done. by apply clean_settled.
Qed.

Definition young (d : session_dir W) : Prop := ∀ s, summary_file d = Some s →
  (FS_StateVersion s < 2 ^ 64 - 2 ^ 18)%Z ∧ (FS_ExecutionGeneration s < 2 ^ 64 - 8)%Z.

Lemma young_summary d s : young d → summary_file d = Some s → young_record s.
Proof. intros H Hs. destruct (H s Hs). split; lia. Qed.

(** ** Loading *)

Lemma caught_up_ok s e :
  record_ok s → FS_PendingOutputEvents s = [] → young_record s → Ev_Sequence e = (FS_LastSequence s + 1)%Z →
  (FS_LastSequence s < Ev_StateVersion e <= FS_StateVersion s + 1)%Z →
  record_ok (caught_up s e) ∧ FS_PendingOutputEvents (caught_up s e) = [] ∧
  FS_LastSequence (caught_up s e) = Ev_Sequence e ∧ (0 < FS_ExecutionGeneration (caught_up s e))%Z ∧
  (FS_StateVersion (caught_up s e) <= FS_StateVersion s + 1)%Z ∧
  (FS_ExecutionGeneration (caught_up s e) <= FS_ExecutionGeneration s + 2)%Z.
Proof.
  intros Hs Hp [_ Hg] He Hv. pose proof (first_generation_ok s Hs) as H1. pose proof (first_generation_pos s Hs) as Hpos.
  assert (FS_LastSequence (first_generation s) = FS_LastSequence s ∧ FS_StateVersion (first_generation s) = FS_StateVersion s ∧
    FS_PendingOutputEvents (first_generation s) = [] ∧ (FS_ExecutionGeneration (first_generation s) < 2 ^ 64 - 4)%Z ∧
    (FS_ExecutionGeneration (first_generation s) <= FS_ExecutionGeneration s + 1)%Z) as (Hl&Hsv&Hp1&Hg1&Hg2).
  { unfold first_generation. destruct (Z.eqb_spec (FS_ExecutionGeneration s) 0); cbn; split_and!; done || lia. }
  unfold caught_up. generalize dependent (first_generation s). intros r [Hid Hfl Htx Hsq Hver Hge Henc] Hpos Hl Hsv Hp1 Hg1 Hg2.
  assert (wrapu64 (FS_ExecutionGeneration r + 1) = FS_ExecutionGeneration r + 1)%Z as Hw by (rewrite wrapu64_small; lia).
  unfold recovered_record, clamp_processed.
  set (r1 := set_FS_SourceCursors _ _).
  assert (FS_LastSequence r1 = Ev_Sequence e ∧ FS_ProcessedSequence r1 = FS_ProcessedSequence r ∧
    (Ev_Sequence e <= FS_StateVersion r1 <= FS_StateVersion s + 1)%Z ∧ FS_PendingOutputEvents r1 = [] ∧
    FS_ExecutionGeneration r1 = FS_ExecutionGeneration r) as (E1&E2&E3&E4&E5).
  { unfold r1. cbn. case_match eqn:Hlt; cbn; split_and!; try done; apply Z.ltb_lt in Hlt || apply Z.ltb_ge in Hlt; lia. }
  assert (record_ok r1) as Hr1.
  { unfold r1. cbn. case_match; (constructor; cbn; [done|done|done|lia|lia|done|done]). }
  clearbody r1. rewrite E1, E2.
  destruct (Z.ltb_spec (Ev_Sequence e) (FS_ProcessedSequence r)); [lia|].
  destruct Hr1 as [R1 R2 R3 R4 R5 R6 R7].
  unfold recovered_status, end_session, bump_generation.
  repeat case_bool_decide; cbn; rewrite ?E5, ?Hw; (split_and!; [constructor; cbn; try done; lia|done|done|lia|lia|lia]).
Qed.

(** The rest of [loadFlowSessionLocked], once nothing is staged. *)
Definition load_tail (changed : bool) (rec : flowSessionRecord) : P flowSessionRecord :=
  rec ← recoverFlowSessionTailLocked rec;
  let changed := changed || (FS_LastSequence rec <? FS_ProcessedSequence rec)%Z
                 || (FS_StateVersion rec <? FS_LastSequence rec)%Z in
  let rec := raise_version (clamp_processed rec) in
  when changed (save_summary rec);;
  mret rec.

(** The record at the end of a load is already right; it is saved when the
    generation was missing. *)
Lemma load_end changed r evs d d' res :
  record_ok r → (0 < FS_ExecutionGeneration r)%Z → FS_PendingOutputEvents r = [] →
  clean_journal (events_file d) evs → numbered evs → Z.of_nat (length evs) = FS_LastSequence r →
  stands d r evs → (changed = false → summary_file d = Some r) →
  (let changed := changed || (FS_LastSequence r <? FS_ProcessedSequence r)%Z || (FS_StateVersion r <? FS_LastSequence r)%Z in
   let rec := raise_version (clamp_processed r) in
   when changed (save_summary rec);; mret rec) d = (d', res) →
  stands d' r evs ∧ (faulty res ∨ res = Ok r ∧ loaded d' r evs).
Proof.
  intros Hr Hg Hp Hc Hn Hl Hst Hsum. cbv zeta. rewrite (clamp_id r Hr), (raise_id r Hr).
  pose proof Hr as [_ _ _ Hseq Hver _ Henc].
  destruct (Z.ltb_spec (FS_LastSequence r) (FS_ProcessedSequence r)); [lia|].
  destruct (Z.ltb_spec (FS_StateVersion r) (FS_LastSequence r)); [lia|]. rewrite !orb_false_r.
  destruct changed; cbn [when].
  - intros [([]&d1&H1&H2)|(e&H1&->)]%bind_inv; destruct (save_spec _ _ _ _ H1) as (He&[[Hf Hs]|[Hok Hs]]).
    + by destruct Hf.
    + injection H2 as <- <-. rewrite (is_encoded_id r Henc Hp) in Hs.
      assert (loaded d1 r evs) as Hld by (constructor; try done; by rewrite He).
      split; [by apply loaded_stands|by right].
    + split; [|by left; destruct Hf as [m [= ->]]; eexists]. destruct Hst; [eapply stands_done|eapply stands_ahead|eapply stands_staged]; try done; congruence.
    + done.
  - intros [= <- <-]. assert (loaded d r evs) as Hld by (constructor; auto). split; [done|by right].
Qed.

(** What a directory stands for depends on its files only. *)
Lemma stands_files d d' r evs :
  summary_file d' = summary_file d → (∀ evs, settled (events_file d) evs → settled (events_file d') evs) →
  stands d r evs → stands d' r evs.
Proof.
  intros Hs He []; [eapply stands_done|eapply stands_ahead|eapply stands_staged]; try done; eauto; congruence.
Qed.

(** Nothing is ahead of the summary. *)
Lemma load_tail_done changed s evs d d' res :
  summary_file d = Some s → record_ok s → FS_PendingOutputEvents s = [] →
  settled (events_file d) evs → numbered evs → Z.of_nat (length evs) = FS_LastSequence s →
  (changed = false → (0 < FS_ExecutionGeneration s)%Z) →
  load_tail changed (first_generation s) d = (d', res) →
  stands d' (first_generation s) evs ∧ (faulty res ∨ res = Ok (first_generation s) ∧ loaded d' (first_generation s) evs).
Proof.
  intros Hs Hok Hp Hset Hn Hl Hch H.
  assert (FS_LastSequence (first_generation s) = FS_LastSequence s ∧ FS_PendingOutputEvents (first_generation s) = []) as [Hl1 Hp1]
    by (unfold first_generation; case_match; auto).
  assert (stands d (first_generation s) evs) as Hst by by apply stands_done.
  apply bind_inv in H. unfold recoverFlowSessionTailLocked in H.
  assert (∀ d1 r1, (readLastFlowSessionEvent : P _) d = (d1, r1) → stands d1 (first_generation s) evs) as Hread.
  { intros d1 r1 H1. destruct (last_event_spec _ _ _ _ Hset H1) as (Hs1&Hset1&_). eapply stands_done; congruence || done. }
  destruct H as [(a&d2&H1&H2)|(e&H1&->)].
  - apply bind_inv in H1 as [(ev&d1&Hr&H1)|(e&Hr&Hbad)]; [|done]. pose proof (Hread _ _ Hr) as Hst1.
    destruct (last_event_spec _ _ _ _ Hset Hr) as (Hs1&Hset1&[[? ?]|[[= ->] Hc1]]); [done|].
    assert (d2 = d1 ∧ a = first_generation s) as [-> ->].
    { pose proof (numbered_last evs Hn) as Hlast. destruct (last evs) as [ev|]; cbn in Hlast; [|by injection H1].
      rewrite Hl1, <- Hl, <- Hlast in H1. rewrite Z.leb_refl in H1. by injection H1. }
    eapply load_end; try done; [by apply first_generation_ok|by apply first_generation_pos|congruence|].
    intros Hf. rewrite (first_generation_id s) by auto. congruence.
  - apply bind_inv in H1 as [(ev&d1&Hr&H1)|(e'&Hr&Hbad)].
    + destruct (last_event_spec _ _ _ _ Hset Hr) as (Hs1&Hset1&[[? ?]|[[= ->] Hc1]]); [done|].
      pose proof (numbered_last evs Hn) as Hlast. destruct (last evs) as [ev|]; cbn in Hlast; [|done].
      rewrite Hl1, <- Hl, <- Hlast, Z.leb_refl in H1. done.
    + split; [by eapply Hread|]. left. destruct (last_event_spec _ _ _ _ Hset Hr) as (_&_&[[m [= ->]]|[? _]]); [|done].
      injection Hbad as ->. by eexists.
Qed.

(** An event is ahead of the summary. *)
Lemma load_tail_ahead changed s evs e d d' res :
  summary_file d = Some s → record_ok s → FS_PendingOutputEvents s = [] → young_record s →
  settled (events_file d) (evs ++ [e]) → numbered (evs ++ [e]) → Z.of_nat (length evs) = FS_LastSequence s →
  Ev_ReceivedAt e ≠ 0%Z → (FS_LastSequence s < Ev_StateVersion e <= FS_StateVersion s + 1)%Z →
  load_tail changed (first_generation s) d = (d', res) →
  stands d' (caught_up s e) (evs ++ [e]) ∧ (faulty res ∨ res = Ok (caught_up s e) ∧ loaded d' (caught_up s e) (evs ++ [e])).
Proof.
  intros Hs Hok Hp Hy Hset Hn Hl Ht Hv H.
  assert (FS_LastSequence (first_generation s) = FS_LastSequence s) as Hl1 by (unfold first_generation; by case_match).
  assert (Ev_Sequence e = (FS_LastSequence s + 1)%Z) as Hseq.
  { rewrite (Hn (length evs) e); [lia|]. by rewrite lookup_app_r, Nat.sub_diag. }
  destruct (caught_up_ok s e Hok Hp Hy Hseq Hv) as (Hcok&Hcp&Hcl&Hcg&_&_).
  destruct Hy as [Hy1 _]. pose proof (ok_version _ Hok) as Hver. pose proof (ok_sequences _ Hok) as Hsq.
  assert (∀ d1 r1, (readLastFlowSessionEvent : P _) d = (d1, r1) → stands d1 (caught_up s e) (evs ++ [e]) ∧ summary_file d1 = Some s ∧
    settled (events_file d1) (evs ++ [e])) as Hread.
  { intros d1 r1 H1. destruct (last_event_spec _ _ _ _ Hset H1) as (Hs1&Hset1&_).
    split_and!; [|congruence|done]. eapply stands_ahead; congruence || done. }
  apply bind_inv in H. unfold recoverFlowSessionTailLocked in H.
  assert (∀ d1 (a : result session_error flowSessionRecord) d2, (readLastFlowSessionEvent : P _) d = (d1, Ok (Some e)) →
    (updatedAt ← (if (Ev_ReceivedAt e =? 0)%Z then read_clock else mret (Ev_ReceivedAt e) : P time);
     let rec := recovered_record (first_generation s) e updatedAt in save_summary rec;; mret rec) d1 = (d2, a) →
    (faulty a ∧ stands d2 (caught_up s e) (evs ++ [e])) ∨
    a = Ok (caught_up s e) ∧ summary_file d2 = Some (caught_up s e) ∧ events_file d2 = events_file d1) as Hsave.
  { intros d1 a d2 Hr. rewrite (proj2 (Z.eqb_neq _ _) Ht). fold (caught_up s e).
    destruct (Hread _ _ Hr) as (Hst1&Hs1&Hset1).
    intros [(t&d0&[= <- <-]&H1)|(?&?&?)]%bind_inv; [|done]. fold (caught_up s e) in H1. cbv zeta in H1.
    apply bind_inv in H1 as [([]&d3&H3&[= <- <-])|(e'&H3&->)]; destruct (save_spec _ _ _ _ H3) as (He3&[[Hf Hs3]|[Hf Hs3]]).
    - by destruct Hf.
    - right. rewrite is_encoded_id in Hs3; [by split_and!|by destruct Hcok|done].
    - left. split; [destruct Hf as [m [= ->]]; by eexists|]. eapply stands_files; [exact Hs3|by rewrite He3|done].
    - done. }
  assert (∀ (d1 d2 : session_dir W) (a : result session_error flowSessionRecord), (readLastFlowSessionEvent : P _) d = (d1, Ok (Some e)) →
    (if (Ev_Sequence e <=? FS_LastSequence (first_generation s))%Z then mret (first_generation s)
     else if negb (Ev_Sequence e =? wrapu64 (FS_LastSequence (first_generation s) + 1))%Z
     then throw (Gap (FS_LastSequence (first_generation s)) (Ev_Sequence e))
     else updatedAt ← (if (Ev_ReceivedAt e =? 0)%Z then read_clock else mret (Ev_ReceivedAt e) : P time);
       let rec := recovered_record (first_generation s) e updatedAt in save_summary rec;; mret rec) d1 = (d2, a) →
    (faulty a ∧ stands d2 (caught_up s e) (evs ++ [e])) ∨
    a = Ok (caught_up s e) ∧ summary_file d2 = Some (caught_up s e) ∧ events_file d2 = events_file d1) as Hcase.
  { intros d1 d2 a Hr. rewrite Hl1, Hseq, wrapu64_small by lia. rewrite Z.eqb_refl.
    destruct (Z.leb_spec (FS_LastSequence s + 1) (FS_LastSequence s)); [lia|]. cbn [negb]. by apply Hsave. }
  clear Hsave. destruct H as [(a&d2&H1&H2)|(err&H1&->)].
  - apply bind_inv in H1 as [(ev&d1&Hr&H1)|(?&Hr&?)]; [|done].
    destruct (last_event_spec _ _ _ _ Hset Hr) as (Hs1&Hset1&[[? ?]|[[= ->] Hc1]]); [done|].
    rewrite last_snoc in H1, Hr. destruct (Hcase _ _ _ Hr H1) as [[[? ?] _]|([= ->]&Hs2&He2)]; [done|].
    assert (Z.of_nat (length (evs ++ [e])) = FS_LastSequence (caught_up s e)) as Hlen by (rewrite length_app, Hcl, Hseq, <- Hl; cbn; lia).
    assert (loaded d2 (caught_up s e) (evs ++ [e])) as Hld by (constructor; try done; by rewrite He2).
    apply (load_end changed _ _ d2); try done; [by destruct Hld|by apply loaded_stands].
  - apply bind_inv in H1 as [(ev&d1&Hr&H1)|(e'&Hr&Hbad)].
    + destruct (last_event_spec _ _ _ _ Hset Hr) as (Hs1&Hset1&[[? ?]|[[= ->] Hc1]]); [done|].
      rewrite last_snoc in H1, Hr. destruct (Hcase _ _ _ Hr H1) as [[[m [= ->]] ?]|(?&_)]; [|done].
      split; [done|]. left. by eexists.
    + destruct (Hread _ _ Hr) as (?&_&_). split; [done|]. left.
      destruct (last_event_spec _ _ _ _ Hset Hr) as (_&_&[[m [= ->]]|[? _]]); [|done]. injection Hbad as ->. by eexists.
Qed.

(** ** Staged outputs *)

Lemma flush_skips done rest last d :
  Forall (λ e, (Ev_Sequence e <= last)%Z) done → (flush_events last (done ++ rest) : P unit) d = flush_events last rest d.
Proof. induction 1 as [|e done He _ IH]; [by destruct rest|]. cbn [flush_events app]. by rewrite (proj2 (Z.leb_le _ _) He). Qed.

(** Flushing appends the events that are missing, or some of them. *)
Lemma flush_rest evs rest d d' res :
  Forall text_event rest → clean_journal (events_file d) evs → numbered (evs ++ (journaled <$> rest)) →
  (Z.of_nat (length evs + length rest) < 2 ^ 64)%Z →
  (flush_events (Z.of_nat (length evs)) rest : P unit) d = (d', res) →
  summary_file d' = summary_file d ∧
  ∃ new missing, rest = new ++ missing ∧ settled (events_file d') (evs ++ (journaled <$> new)) ∧
    (faulty res ∨ res = Ok tt ∧ missing = [] ∧ clean_journal (events_file d') (evs ++ (journaled <$> new))).
Proof.
  revert evs d. induction rest as [|e rest IH]; intros evs d Ht Hc Hn Hlen H.
  { cbn in H. injection H as <- <-. split; [done|]. exists [], [].
    assert (evs ++ (journaled <$> []) = evs) as -> by apply app_nil_r. split_and!; [done|by apply clean_settled|by right]. }
  apply Forall_cons in Ht as [He Ht]. cbn [fmap list_fmap length] in Hn, Hlen.
  assert (Ev_Sequence e = (Z.of_nat (length evs) + 1)%Z) as Hseq.
  { apply (Hn (length evs) (journaled e)). by rewrite lookup_app_r, Nat.sub_diag. }
  cbn [flush_events] in H. rewrite Hseq, wrapu64_small, Z.eqb_refl in H by lia.
  destruct (Z.leb_spec (Z.of_nat (length evs) + 1) (Z.of_nat (length evs))); [lia|]. cbn [negb] in H.
  apply bind_inv in H as [([]&d1&H1&H2)|(err&H1&->)]; destruct (append_spec _ _ _ _ _ He Hc H1) as (Hs1&Hcase).
  - destruct Hcase as [[_ [? ?]]|[[_ [? ?]]|[Hc1 _]]]; [done|done|].
    replace (Z.of_nat (length evs) + 1)%Z with (Z.of_nat (length (evs ++ [journaled e]))) in H2 by (rewrite length_app; cbn; lia).
    destruct (IH (evs ++ [journaled e]) d1) as (Hs2&new&missing&->&Hset&Hres); [done|done|by rewrite <- app_assoc| |done|].
    { rewrite length_app. cbn. lia. }
    split; [congruence|]. exists (e :: new), missing. rewrite <- app_assoc in Hset, Hres. by split_and!.
  - split; [done|]. destruct Hcase as [[Hset Hf]|[[Hset Hf]|[_ ?]]]; [| |done].
    + exists [], (e :: rest). assert (evs ++ (journaled <$> []) = evs) as -> by apply app_nil_r. split_and!; [done|done|]. left. destruct Hf as [m [= ->]]. by eexists.
    + exists [e], rest. split_and!; [done|done|]. left. destruct Hf as [m [= ->]]. by eexists.
Qed.

(** The same from a journal that has some of the staged events. *)
Lemma flush_staged evs done rest d d' res :
  Forall text_event (done ++ rest) → clean_journal (events_file d) (evs ++ (journaled <$> done)) →
  numbered (evs ++ (journaled <$> done ++ rest)) → (Z.of_nat (length evs + length (done ++ rest)) < 2 ^ 64)%Z →
  (flush_events (Z.of_nat (length evs + length done)) (done ++ rest) : P unit) d = (d', res) →
  summary_file d' = summary_file d ∧
  ∃ done' missing, done ++ rest = done' ++ missing ∧ settled (events_file d') (evs ++ (journaled <$> done')) ∧
    (faulty res ∨ res = Ok tt ∧ missing = [] ∧ clean_journal (events_file d') (evs ++ (journaled <$> done'))).
Proof.
  intros Ht Hc Hn Hlen H. rewrite flush_skips in H.
  - rewrite fmap_app, app_assoc in Hn. apply Forall_app in Ht as [_ Ht].
    replace (length evs + length done) with (length (evs ++ (journaled <$> done))) in H by (by rewrite length_app, length_fmap).
    assert (Z.of_nat (length (evs ++ (journaled <$> done)) + length rest) < 2 ^ 64)%Z as Hlen'
      by (rewrite length_app, length_fmap; rewrite length_app in Hlen; lia).
    destruct (flush_rest _ _ _ _ _ Ht Hc Hn Hlen' H) as (Hs&new&missing&->&Hset&Hres).
    split; [done|]. exists (done ++ new), missing. rewrite fmap_app, (app_assoc evs). split_and!; [by rewrite app_assoc|done|done].
  - apply Forall_forall. intros e [i Hi]%list_elem_of_lookup. pose proof (lookup_lt_Some _ _ _ Hi) as Hlt.
    assert (Ev_Sequence (journaled e) = (Z.of_nat (length evs + i) + 1)%Z) as Heq.
    { apply Hn. rewrite lookup_app_r by lia. replace (length evs + i - length evs) with i by lia.
      rewrite list_lookup_fmap, lookup_app_l by done. by rewrite Hi. }
    cbn in Heq. lia.
Qed.

(** The summary may hold the staged events indented. *)
Lemma staged_stands s evs a b d :
  summary_file d = Some s → record_ok s → Forall text_event (a ++ b) →
  FS_PendingOutputEvents s = encoded_event <$> (a ++ b) ∨ FS_PendingOutputEvents s = a ++ b →
  settled (events_file d) (evs ++ (journaled <$> a)) → numbered (evs ++ (journaled <$> a ++ b)) →
  Z.of_nat (length evs + length (a ++ b)) = FS_LastSequence s →
  stands d (first_generation (set_FS_PendingOutputEvents [] s)) (evs ++ (journaled <$> a ++ b)).
Proof.
  intros Hs Hok Ht Hps Hset Hn Hlen. destruct Hps as [Hps|Hps]; [|by eapply (stands_staged d s)].
  assert (∀ l : list FlowSessionEvent, journaled <$> (encoded_event <$> l) = journaled <$> l) as Hj.
  { intros l. rewrite <- list_fmap_compose. apply list_fmap_ext. intros _ e _. cbn.
    unfold journaled, encoded_event. cbn. by rewrite Compact_Indent. }
  rewrite <- Hj, fmap_app in Hn |- *. apply (stands_staged d s); try done.
  - by rewrite Hps, fmap_app.
  - rewrite <- fmap_app. apply Forall_fmap. eapply Forall_impl; [exact Ht|done].
  - by rewrite Hj.
  - by rewrite <- fmap_app, length_fmap.
Qed.

(** The staged events of a record, of which the journal has some, reach the
    journal, or some more of them do. The record may hold values that its summary
    holds encoded. *)
Lemma flush_spec s evs staged rest rec d d' res :
  summary_file d = Some s → record_ok s → (FS_LastSequence s < 2 ^ 64)%Z →
  Forall text_event (staged ++ rest) → FS_PendingOutputEvents rec = staged ++ rest → staged ++ rest ≠ [] →
  FS_PendingOutputEvents s = encoded_event <$> (staged ++ rest) ∨ FS_PendingOutputEvents s = staged ++ rest →
  settled (events_file d) (evs ++ (journaled <$> staged)) → numbered (evs ++ (journaled <$> staged ++ rest)) →
  Z.of_nat (length evs + length (staged ++ rest)) = FS_LastSequence s →
  encoded_record (set_FS_PendingOutputEvents [] rec) = first_generation (set_FS_PendingOutputEvents [] s) →
  (flushPendingFlowSessionOutputEventsLocked rec : P _) d = (d', res) →
  let r := first_generation (set_FS_PendingOutputEvents [] s) in
  stands d' r (evs ++ (journaled <$> staged ++ rest)) ∧
  (faulty res ∨ res = Ok (set_FS_PendingOutputEvents [] rec) ∧ loaded d' r (evs ++ (journaled <$> staged ++ rest))).
Proof.
  intros Hs Hok Hy Ht Hp Hne Hps Hset Hn Hlen Hrec H. cbv zeta. set (r := first_generation _) in *.
  unfold flushPendingFlowSessionOutputEventsLocked in H. rewrite Hp in H.
  assert (is_nil (staged ++ rest) = false) as Hnil by (by destruct (staged ++ rest)). rewrite Hnil in H.
  assert (∀ a b c, summary_file c = Some s → staged ++ rest = a ++ b → settled (events_file c) (evs ++ (journaled <$> a)) →
    stands c r (evs ++ (journaled <$> staged ++ rest))) as Hstands.
  { intros a b c Hc Hab Hset'. rewrite Hab in *. by apply (staged_stands s). }
  apply bind_inv in H as [(last&d1&H1&H)|(err&H1&->)]; destruct (last_event_spec _ _ _ _ Hset H1) as (Hs1&Hset1&Hcase).
  2: { destruct Hcase as [Hf|[? _]]; [|done]. split; [by eapply Hstands; [congruence|done|done]|left].
       destruct Hf as [m [= ->]]. by eexists. }
  destruct Hcase as [[? ?]|[[= ->] Hc1]]; [done|].
  assert (match list.last (evs ++ (journaled <$> staged)) with Some e => Ev_Sequence e | None => 0%Z end =
          Z.of_nat (length evs + length staged)) as Hlast.
  { assert (numbered (evs ++ (journaled <$> staged))) as Hn1 by (rewrite fmap_app, app_assoc in Hn; by apply numbered_app in Hn).
    apply numbered_last in Hn1. rewrite length_app, length_fmap in Hn1. by destruct (list.last _). }
  cbv zeta in H. rewrite Hlast in H.
  apply bind_inv in H as [([]&d2&H2&H)|(err&H2&->)];
    destruct (flush_staged _ _ _ _ _ _ Ht Hc1 Hn ltac:(lia) H2) as (Hs2&done'&missing&Heq&Hset2&Hres).
  2: { destruct Hres as [Hf|[? _]]; [|done]. split; [by eapply Hstands; [congruence|done|done]|left].
       destruct Hf as [m [= ->]]. by eexists. }
  destruct Hres as [[? ?]|(_&->&Hc2)]; [done|]. rewrite app_nil_r in Heq. subst done'.
  assert (stands d2 r (evs ++ (journaled <$> staged ++ rest))) as Hst2
    by (eapply (Hstands (staged ++ rest) []); [congruence|by rewrite app_nil_r|by apply clean_settled]).
  apply bind_inv in H as [([]&d3&H3&H)|(err&H3&->)]; destruct (save_spec _ _ _ _ H3) as (He3&[[Hf Hs3]|[Hf Hs3]]).
  - by destruct Hf.
  - injection H as <- <-. rewrite Hrec in Hs3.
    assert (record_ok (set_FS_PendingOutputEvents [] s)) as Hok0 by (destruct Hok; by constructor).
    assert (loaded d3 r (evs ++ (journaled <$> staged ++ rest))) as Hld.
    { constructor; try done; [by apply first_generation_ok|by apply first_generation_pos|by apply first_generation_pending|by rewrite He3|].
      unfold r. by rewrite first_generation_last, length_app, length_fmap. }
    split; [by apply loaded_stands|by right].
  - split; [|left; destruct Hf as [m [= ->]]; by eexists]. eapply stands_files; [exact Hs3|by rewrite He3|done].
  - done.
Qed.

(** ** Loading *)

(** The names of the flow and of the session are valid. *)
Context (Hdir : flowSessionDir flowID sessionID = None).

Abbreviation load := (loadFlowSessionLocked flowID sessionID : P flowSessionRecord).

Lemma stands_summary d r evs : stands d r evs → ∃ s, summary_file d = Some s ∧ record_ok s.
Proof. intros []; eauto. Qed.

(** A load without pending outputs is its tail. *)
Lemma load_unfold d d' s res :
  summary_file d = Some s → record_ok s → load d = (d', res) →
  ∃ d1, events_file d1 = events_file d ∧ summary_file d1 = summary_file d ∧
    (d' = d1 ∧ faulty res ∨
     (rec ← flushPendingFlowSessionOutputEventsLocked (first_generation s); load_tail (FS_ExecutionGeneration s =? 0)%Z rec) d1 =
       (d', res)).
Proof.
  intros Hs Hok H. unfold loadFlowSessionLocked in H. rewrite Hdir in H. cbn [require] in H.
  apply bind_inv in H as [([]&d0&[= <-]&H)|(e&[= ?]&_)].
  apply (looks_then _ _ _ _ _ _ (looks_io "read summary")) in H as (d1&He&Hs1&H).
  exists d1. split_and!; [done|done|]. destruct H as [H|H]; [by left|right].
  apply bind_inv in H as [(a&d2&[= <- <-]&H)|(e&[= ?]&_)]. rewrite Hs1, Hs in H.
  rewrite (ok_session _ Hok), (ok_flow _ Hok), !bool_decide_true in H by done. cbn [negb orb] in H.
  cbv zeta in H. exact H.
Qed.

Lemma load_plain (d d1 : session_dir W) s d' res :
  events_file d1 = events_file d → summary_file d1 = Some s → FS_PendingOutputEvents s = [] →
  (rec ← flushPendingFlowSessionOutputEventsLocked (first_generation s); load_tail (FS_ExecutionGeneration s =? 0)%Z rec) d1 =
    (d', res) →
  load_tail (FS_ExecutionGeneration s =? 0)%Z (first_generation s) d1 = (d', res).
Proof.
  intros He Hs Hp H. unfold flushPendingFlowSessionOutputEventsLocked in H.
  by rewrite first_generation_pending, Hp in H.
Qed.

(** Loading a directory that stands for a record and a journal gives them back
    or fails, with a fault of the operating system; it changes neither. *)
Lemma load_spec d d' r evs res :
  young d → stands d r evs → load d = (d', res) →
  stands d' r evs ∧ (faulty res ∨ res = Ok r ∧ loaded d' r evs).
Proof.
  intros Hy Hst H. destruct (stands_summary _ _ _ Hst) as (s&Hs&Hok).
  destruct (load_unfold _ _ _ _ Hs Hok H) as (d1&He1&Hs1&Hcase). clear H.
  assert (stands d1 r evs) as Hst1 by (eapply stands_files; [exact Hs1|by rewrite He1|done]).
  destruct Hcase as [[-> Hf]|H]; [split; [done|by left]|].
  assert (∀ s', summary_file d = Some s' → s' = s) as Huniq by (intros s' ?; congruence).
  pose proof (young_summary _ _ Hy Hs) as Hys. rewrite Hs in Hs1. destruct Hst as
    [s' evs Hs' _ Hp Hset Hn Hl|s' evs e Hs' _ Hp Hset Hn Hl Ht Hv|s' evs staged rest Hs' _ Hp Ht Hset Hn Hl];
    apply Huniq in Hs' as ->; rewrite <- He1 in Hset.
  - eapply load_plain in H; [|done..]. eapply load_tail_done; try done. intros Hg%Z.eqb_neq. destruct Hok. lia.
  - eapply load_plain in H; [|done..]. by eapply load_tail_ahead.
  - destruct (decide (staged ++ rest = [])) as [Hnil|Hnil].
    { apply app_nil in Hnil as [-> ->]. cbn in Hp, Hl, Hset, Hn |- *. rewrite app_nil_r in *.
      assert (set_FS_PendingOutputEvents [] s = s) as -> by (destruct s; cbn in *; by subst).
      eapply load_plain in H; [|done..]. eapply load_tail_done; try done; [rewrite <- Hl; by rewrite Nat.add_0_r|].
      intros Hg%Z.eqb_neq. destruct Hok. lia. }
    assert (set_FS_PendingOutputEvents [] (first_generation s) = first_generation (set_FS_PendingOutputEvents [] s)) as Hcomm
      by (unfold first_generation; cbn; by case_match).
    assert (FS_PendingOutputEvents (first_generation s) = staged ++ rest) as Hp1 by by rewrite first_generation_pending.
    pose proof (first_generation_ok s Hok) as Hok1.
    set (s2 := set_FS_PendingOutputEvents [] s) in *.
    assert (record_ok s2) as Hok2 by (destruct Hok; by constructor).
    pose proof (first_generation_pos s2 Hok2) as Hpos. pose proof (first_generation_ok s2 Hok2) as Hok3.
    assert (encoded_record (set_FS_PendingOutputEvents [] (first_generation s)) = first_generation s2) as Henc.
    { rewrite Hcomm. apply is_encoded_id; [by destruct Hok3|by rewrite first_generation_pending]. }
    assert (FS_LastSequence s < 2 ^ 64)%Z as Hbound by (destruct Hok, Hys; lia).
    apply bind_inv in H as [(rec&d2&H1&H)|(err&H1&->)];
      destruct (flush_spec s evs staged rest (first_generation s) _ _ _ Hs1 Hok Hbound Ht Hp1 Hnil (or_intror Hp) Hset Hn Hl
        Henc H1) as [Hst2 Hres]; fold s2 in Hst2, Hres.
    + destruct Hres as [[? ?]|([= ->]&[Hs2 _ _ _ Hc2 _ _])]; [done|]. rewrite Hcomm in H.
      assert (first_generation (first_generation s2) = first_generation s2) as Hidem by by apply first_generation_id.
      pose proof (load_tail_done (FS_ExecutionGeneration s =? 0)%Z (first_generation s2) (evs ++ (journaled <$> staged ++ rest)) d2 d' res) as Hd.
      rewrite Hidem in Hd. apply Hd; try done; [by rewrite first_generation_pending|by apply clean_settled|].
      by rewrite first_generation_last, length_app, length_fmap.
    + destruct Hres as [Hf|[? _]]; [|done]. split; [done|left]. destruct Hf as [m [= ->]]. by eexists.
Qed.

(** The counters of the session are not about to wrap either. *)
Lemma stands_young d r evs : young d → stands d r evs → young_record r.
Proof.
  intros Hy Hst. destruct Hst as [s evs Hs Hok Hp Hset Hn Hl|s evs e Hs Hok Hp Hset Hn Hl Ht Hv|s evs staged rest Hs Hok Hp Ht Hset Hn Hl];
    destruct (Hy s Hs) as [Hy1 Hy2].
  - unfold first_generation. case_match; split; cbn; lia.
  - assert (Ev_Sequence e = (FS_LastSequence s + 1)%Z) as Hseq.
    { rewrite (Hn (length evs) e); [lia|]. by rewrite lookup_app_r, Nat.sub_diag. }
    destruct (caught_up_ok s e Hok Hp (young_summary _ _ Hy Hs) Hseq Hv) as (_&_&_&_&?&?). split; lia.
  - unfold first_generation. cbn. case_match; split; cbn; lia.
Qed.

(** What follows a load starts from a directory with nothing left to repair. *)
Lemma after_load {A} (k : flowSessionRecord → P A) d d' r evs res :
  young d → stands d r evs → (rec ← load; k rec) d = (d', res) →
  (faulty res ∧ stands d' r evs) ∨ ∃ d1, loaded d1 r evs ∧ young_record r ∧ k r d1 = (d', res).
Proof.
  intros Hy Hst [(a&d1&H1&H2)|(e&H1&->)]%bind_inv; destruct (load_spec _ _ _ _ _ Hy Hst H1) as [Hst' Hcase].
  - destruct Hcase as [[? ?]|([= ->]&Hld)]; [done|]. right. exists d1. split_and!; [done|by eapply stands_young|done].
  - destruct Hcase as [[m [= ->]]|[? _]]; [|done]. left. split; [by eexists|done].
Qed.

End Spec.
