(* ===== verification/SessionReads.v ===== *)
(** * Flow sessions: reading the journal ([flowSessionEvents], [flowSessionEventPage])

    The events after a sequence, and the same page by page from a byte offset.
    The scanner of [bufio] gives the lines of the file one by one; a line that
    its buffer cannot hold is an error. *)
From S2P Require Import Prelude GoStrings GoRunes GoPath JSON FlowModel WorkflowTypes SessionTypes SessionJournal SessionStore SessionSpec.
From Stdlib Require Import Ascii ZArith Lia.

Definition maxTokenSize : Z := 1048576.
Definition carriage : ascii := ascii_of_N 13.

(** [bufio.ScanLines] without its carriage return. *)
Definition dropCR (line : string) : string := TrimSuffix line (String carriage "").

Section Reads.
Context {L : SessionLib} {W : Type} {V : Storage W} (flowID sessionID : string).

Abbreviation P := (M (session_dir W) session_error).

(** What the scanner does with the next line, before the loop has looked at the
    sequence. *)
Definition scan_line (line : string) : result session_error FlowSessionEvent :=
  if (maxTokenSize <=? Z.of_nat (String.length line))%Z then Err (Fault "token too long")
  else match unmarshal_event (dropCR line) with Ok event => Ok event | Err e => Err (Undecodable e) end.

(** The events after a sequence, at most [limit] of them, from the lines of the
    journal; the text after the last newline is a line unless it is empty. *)
Fixpoint scan_events (lines : list string) (after : Z) (limit : nat) : result session_error (list FlowSessionEvent) :=
  match lines with
  | [] | [""] => Ok []
  | line :: lines =>
      event ← scan_line line;
      if (after <? Ev_Sequence event)%Z then
        if limit <=? 1 then Ok [event]
        else events ← scan_events lines after (limit - 1); Ok (event :: events)
      else scan_events lines after limit
  end.

Definition flowSessionEvents (after : Z) (limit : nat) : P (list FlowSessionEvent) :=
  _ ← loadFlowSessionLocked flowID sessionID;
  f ← gets events_file;
  match f with
  | None => mret []
  | Some content =>
      io "open";;
      io "read";;
      match scan_events (Split content newline) after limit with Ok events => mret events | Err e => throw e end
  end.

(** ** Pages *)

(** [file.ReadAt] of the byte after a line: an error counts as no newline. *)
Definition newline_at (content : string) (offset : Z) : M (session_dir W) session_error bool := λ d,
  let '(e, w) := io_result "read" (disk_world d) in
  (set_disk_world w d, Ok (is_None e && bool_decide (String.get (Z.to_nat offset) content = Some newline))).

(** The events of a page and the offset after it; the offset comes with an error
    too. *)
Abbreviation page := (Z * result session_error (list FlowSessionEvent))%type.

Fixpoint scan_page (content : string) (lines : list string) (after nextOffset : Z) (limit : nat) : P page :=
  match lines with
  | [] | [""] => mret (nextOffset, Ok [])
  | line :: lines =>
      match scan_line line with
      | Err e => mret (nextOffset, Err e)
      | Ok event =>
          let nextOffset := (nextOffset + Z.of_nat (String.length (dropCR line)))%Z in
          newline ← (if (nextOffset <? Z.of_nat (String.length content))%Z then newline_at content nextOffset else mret false);
          let nextOffset := if (newline : bool) then (nextOffset + 1)%Z else nextOffset in
          if (after <? Ev_Sequence event)%Z then
            if limit <=? 1 then mret (nextOffset, Ok [event])
            else
              '(nextOffset, events) ← scan_page content lines after nextOffset (limit - 1);
              mret (nextOffset, events ← events; Ok (event :: events))
          else scan_page content lines after nextOffset limit
      end
  end.

(** An error before the first line comes with the offset of the caller. *)
Definition at_offset (offset : Z) (m : P page) : P page := λ d,
  match m d with (d', Err e) => (d', Ok (offset, Err e)) | (d', Ok p) => (d', Ok p) end.

Definition flowSessionEventPage (after offset : Z) (limit : nat) : P page :=
  at_offset offset (
    if (offset <? 0)%Z then throw (Invalid "flow session event offset must not be negative")
    else
      _ ← loadFlowSessionLocked flowID sessionID;
      f ← gets events_file;
      match f with
      | None => if (offset =? 0)%Z then mret (0%Z, Ok []) else throw (Fault "events.jsonl does not exist")
      | Some content =>
          io "open";;
          io "stat";;
          if (Z.of_nat (String.length content) <? offset)%Z
          then throw (Invalid "flow session event offset exceeds journal size")
          else
            io "seek";;
            io "read";;
            scan_page content (Split (sdrop (Z.to_nat offset) content) newline) after offset limit
      end).

(** The limits that [Agent.FlowSessionEvents] and [Agent.FlowSessionEventPage]
    set. *)
Definition read_limit (limit : Z) : nat :=
  Z.to_nat (if (limit <=? 0)%Z then 100 else if (maxFlowSessionEventReadLimit <? limit)%Z then maxFlowSessionEventReadLimit else limit).
Definition FlowSessionEvents (afterSequence limit : Z) : P (list FlowSessionEvent) :=
  flowSessionEvents afterSequence (read_limit limit).
Definition FlowSessionEventPage (afterSequence offset limit : Z) : P page :=
  flowSessionEventPage afterSequence offset (read_limit limit).

(** ** Lines *)

Lemma Split_journal ls tail : Forall (part newline) ls → part newline tail → Split (journal_text ls +:+ tail) newline = ls ++ [tail].
Proof.
  intros Hls Ht. induction Hls as [|l ls Hl _ IH]; [exact Ht|]. simpl.
  by rewrite app_assoc_s, app_cons_s, Split_app, IH, Hl.
Qed.

Lemma dropCR_cases l : dropCR l = l ∨ l = dropCR l +:+ String carriage "".
Proof.
  unfold dropCR, TrimSuffix. change (String.rev (String carriage "")) with (String carriage "").
  unfold TrimPrefix. destruct (HasPrefix (String.rev l) (String carriage "")) eqn:H; [right|left; apply rev_involutive_s].
  apply HasPrefix_iff in H as [t Ht]. rewrite Ht, sdrop_app.
  by rewrite <- (rev_involutive_s l), Ht, rev_app_s.
Qed.

Lemma scan_line_of {X : SessionLaws} l e : line_of l e → scan_line l = Ok e ∨ faulty (scan_line l).
Proof.
  intros (_&_&Hu). unfold scan_line. case_match; [right; by eexists|left].
  destruct (dropCR_cases l) as [->|Hl]; [by rewrite Hu|]. rewrite Hl in Hu. by rewrite (unmarshal_cr _ _ Hu).
Qed.

Lemma scan_events_lines {X : SessionLaws} ls evs after limit :
  Forall2 line_of ls evs →
  scan_events (ls ++ [""]) after limit = Ok (take (Nat.max 1 limit) (filter (λ e, (after < Ev_Sequence e)%Z) evs)) ∨
  faulty (scan_events (ls ++ [""]) after limit).
Proof.
  intros H. revert limit. induction H as [|l e ls evs Hl _ IH]; intros limit; [by left; destruct limit|].
  assert (scan_events ((l :: ls) ++ [""]) after limit =
    (event ← scan_line l;
     if (after <? Ev_Sequence event)%Z then
       if limit <=? 1 then Ok [event]
       else events ← scan_events (ls ++ [""]) after (limit - 1); Ok (event :: events)
     else scan_events (ls ++ [""]) after limit)) as ->.
  { destruct Hl as (_&Hne&_). by destruct l; [|destruct ls]. }
  destruct (scan_line_of _ _ Hl) as [->|[m ->]]; [|right; by eexists]. cbn [mbind result_bind].
  rewrite filter_cons. destruct (Z.ltb_spec after (Ev_Sequence e)); [rewrite decide_True by done|rewrite decide_False by lia; apply IH].
  destruct (Nat.leb_spec limit 1); [left; by rewrite Nat.max_l by lia|].
  destruct (IH (limit - 1)) as [->|[m ->]]; [left|right; by eexists]. cbn [mbind result_bind].
  rewrite !Nat.max_r by lia. by destruct limit as [|n]; [lia|rewrite Nat.sub_succ, Nat.sub_0_r].
Qed.

Lemma stands_same (d d' : session_dir W) r evs :
  events_file d' = events_file d → summary_file d' = summary_file d →
  stands flowID sessionID d r evs → stands flowID sessionID d' r evs.
Proof. intros He Hs. eapply stands_files; [done|by rewrite He]. Qed.

(** Reading is loading and looking. *)
Lemma events_spec {X : SessionLaws} (Hdir : flowSessionDir flowID sessionID = None) d d' r evs after limit res :
  young d → stands flowID sessionID d r evs → flowSessionEvents after limit d = (d', res) →
  stands flowID sessionID d' r evs ∧
  (faulty res ∨ res = Ok (take (Nat.max 1 limit) (filter (λ e, (after < Ev_Sequence e)%Z) evs))).
Proof.
  intros Hy Hst H. apply (after_load _ _ Hdir _ _ _ _ _ _ Hy Hst) in H as [[Hf Hst']|(d1&Hld&_&H)]; [split; [done|by left]|].
  apply bind_inv in H as [(f&d2&[= <- <-]&H)|(e&?&_)]; [|done]. pose proof (loaded_stands _ _ _ _ _ Hld) as Hst1.
  destruct (loaded_journal _ _ _ _ _ Hld) as (ls&Hc&Hls&_). rewrite app_nil_r_s in Hc.
  destruct (events_file d1) as [content|] eqn:Hf; cbn in Hc.
  - subst content.
    assert (Split (journal_text ls) newline = ls ++ [""]) as Hsp.
    { rewrite <- (app_nil_r_s (journal_text ls)). apply Split_journal; [|done].
      apply Forall_lookup. intros i l Hi. by destruct (Forall2_lookup_l _ _ _ _ _ Hls Hi) as (e&_&Hl&_). }
    rewrite Hsp in H.
    assert (looks (io "open";; io "read") tt) as Hio by (eapply looks_bind; apply looks_io).
    apply bind_inv in H as [([]&d2&H1&H)|(e&H1&->)]; destruct (looks_io _ _ _ _ H1) as (He1&Hs1&Hr1).
    2: { split; [|by left; destruct Hr1 as [?|[m [= ->]]]; [|eexists]]. by apply (stands_same d1). }
    apply bind_inv in H as [([]&d3&H2&H)|(e&H2&->)]; destruct (looks_io _ _ _ _ H2) as (He2&Hs2&Hr2).
    2: { split; [|by left; destruct Hr2 as [?|[m [= ->]]]; [|eexists]].
         by apply (stands_same d1); congruence. }
    assert (stands flowID sessionID d3 r evs) as Hst3 by by apply (stands_same d1); congruence.
    destruct (scan_events_lines _ _ after limit Hls) as [Hscan|[m Hscan]]; rewrite Hscan in H; injection H as <- <-;
      (split; [done|]); [by right|left; by eexists].
  - injection H as <- <-. split; [done|]. right. destruct ls as [|l ls]; [|by destruct l].
    apply Forall2_nil_inv_l in Hls as ->. by destruct limit.
Qed.

(** In a numbered journal the events after a sequence are the rest of it. *)
Lemma filter_numbered evs after :
  numbered evs → (0 <= after)%Z → filter (λ e, (after < Ev_Sequence e)%Z) evs = drop (Z.to_nat after) evs.
Proof.
  intros Hn Ha. induction evs as [|e evs IH] using rev_ind; [by rewrite drop_nil|].
  rewrite filter_app, IH by (by eapply numbered_app). cbn [filter list_filter].
  assert (Ev_Sequence e = Z.of_nat (length evs) + 1)%Z as He.
  { rewrite (Hn (length evs) e); [done|]. by rewrite lookup_app_r, Nat.sub_diag. }
  case_decide.
  - rewrite drop_app_le by lia. done.
  - rewrite !drop_ge; [done|rewrite length_app; cbn; lia|lia].
Qed.

(** ** Pages, one after the other *)

(** A line that the store has written. *)
Definition written (l : string) (e : FlowSessionEvent) : Prop :=
  text_event e ∧ marshal_event e = Ok l ∧ (Z.of_nat (String.length l) < maxTokenSize)%Z.

Lemma scan_written {X : SessionLaws} l e : written l e → scan_line l = Ok (journaled e) ∧ dropCR l = l.
Proof.
  intros (Ht&Hm&Hlen). pose proof (marshal_end _ _ Hm) as Hend. split; [|done]. unfold scan_line, dropCR.
  change carriage with (ascii_of_N 13). rewrite Hend, (unmarshal_marshal _ _ Ht Hm). case_match eqn:Hb; [|done].
  apply Z.leb_le in Hb. lia.
Qed.

Lemma newline_after pre l t (d : session_dir W) :
  (∀ op w, (io_result op w).1 = None) →
  ∃ d', newline_at (pre +:+ l +:+ String newline t) (Z.of_nat (String.length (pre +:+ l))) d = (d', Ok true) ∧
    events_file d' = events_file d ∧ summary_file d' = summary_file d.
Proof.
  intros Hio. unfold newline_at. specialize (Hio "read" (disk_world d)).
  destruct (io_result "read" (disk_world d)) as [e w]. cbn in Hio. subst e. exists (set_disk_world w d). split; [|done].
  rewrite <- (app_assoc_s pre), Nat2Z.id, get_app. by rewrite bool_decide_true.
Qed.

(** A page holds the events of the lines that its offset passes over. *)
Lemma scan_page_exact {X : SessionLaws} ls evs pre after limit (d : session_dir W) :
  (∀ op w, (io_result op w).1 = None) → Forall2 written ls evs →
  ∃ d' k, scan_page (pre +:+ journal_text ls) (ls ++ [""]) after (Z.of_nat (String.length pre)) limit d =
      (d', Ok (Z.of_nat (String.length (pre +:+ journal_text (take k ls))),
               Ok (filter (λ e, (after < Ev_Sequence e)%Z) (take k (journaled <$> evs))))) ∧
    events_file d' = events_file d ∧ summary_file d' = summary_file d ∧
    (length ls ≤ k ∨ length (filter (λ e, (after < Ev_Sequence e)%Z) (take k (journaled <$> evs))) = Nat.max 1 limit).
Proof.
  intros Hio H. revert pre limit d. induction H as [|l e ls evs Hl _ IH]; intros pre limit d.
  { exists d, 0. split_and!; [by cbn; rewrite app_nil_r_s|done|done|by left; cbn; lia]. }
  destruct (scan_written _ _ Hl) as [Hscan Hcr]. destruct Hl as (_&Hm&_). destruct (marshal_line _ _ Hm) as [_ Hne].
  set (pre' := (pre +:+ l +:+ String newline "")%string).
  assert (pre +:+ journal_text (l :: ls) = pre' +:+ journal_text ls)%string as Hcontent
    by (unfold pre'; cbn; by rewrite !app_assoc_s, app_cons_s).
  assert (Z.of_nat (String.length pre) + Z.of_nat (String.length l) = Z.of_nat (String.length (pre +:+ l)%string))%Z as Hoff
    by (rewrite length_app_s; lia).
  assert (Z.of_nat (String.length (pre +:+ l)%string) + 1 = Z.of_nat (String.length pre'))%Z as Hnext
    by (unfold pre'; rewrite !length_app_s; cbn; lia).
  assert (Z.of_nat (String.length (pre +:+ l)%string) < Z.of_nat (String.length (pre +:+ journal_text (l :: ls))%string))%Z as Hlt
    by (cbn; rewrite !length_app_s; cbn; lia).
  destruct (newline_after pre l (journal_text ls) d Hio) as (d1&Hnl&He1&Hs1).
  assert (∀ d', scan_page (pre +:+ journal_text (l :: ls)) ((l :: ls) ++ [""]) after (Z.of_nat (String.length pre)) limit d = d' ↔
    (if (after <? Ev_Sequence e)%Z then
       if limit <=? 1 then mret (Z.of_nat (String.length pre'), Ok [journaled e])
       else
         '(nextOffset, events) ← scan_page (pre' +:+ journal_text ls) (ls ++ [""]) after (Z.of_nat (String.length pre')) (limit - 1);
         mret (nextOffset, events ← events; Ok (journaled e :: events))
     else scan_page (pre' +:+ journal_text ls) (ls ++ [""]) after (Z.of_nat (String.length pre')) limit) d1 = d') as Hunfold.
  { intros d'. rewrite <- Hcontent, <- Hnext. cbn [scan_page app]. destruct l as [|a l]; [done|].
    destruct (ls ++ [""]) as [|l1 ls1] eqn:Hls; [by destruct ls|]. rewrite Hscan, Hcr. cbv zeta.
    rewrite Hoff. apply Z.ltb_lt in Hlt. rewrite Hlt. rewrite (bind_ok _ _ _ _ _ Hnl). done. }
  clear Hscan Hcr Hm Hnl Hlt Hnext Hoff. assert (∀ k, pre' +:+ journal_text (take k ls) = pre +:+ journal_text (take (S k) (l :: ls)))%string as Htake
    by (intros k; unfold pre'; cbn; by rewrite !app_assoc_s, app_cons_s).
  change (Ev_Sequence e) with (Ev_Sequence (journaled e)) in Hunfold.
  assert (∀ k, filter (λ e, (after < Ev_Sequence e)%Z) (take (S k) (journaled <$> e :: evs)) =
    if (after <? Ev_Sequence (journaled e))%Z
    then journaled e :: filter (λ e, (after < Ev_Sequence e)%Z) (take k (journaled <$> evs))
    else filter (λ e, (after < Ev_Sequence e)%Z) (take k (journaled <$> evs))) as Hfilter.
  { intros k. cbn [fmap list_fmap take]. rewrite filter_cons.
    destruct (Z.ltb_spec after (Ev_Sequence (journaled e))); [by rewrite decide_True|by rewrite decide_False by lia]. }
  destruct (after <? Ev_Sequence (journaled e))%Z.
  - destruct (Nat.leb_spec limit 1) as [Hlim|Hlim].
    + exists d1, 1. rewrite Hunfold, Hfilter, <- Htake, take_0. cbn [journal_text]. rewrite app_nil_r_s, take_0.
      split_and!; [done|done|done|right; cbn; lia].
    + destruct (IH pre' (limit - 1) d1) as (d2&k&Hk&He2&Hs2&Hdone). exists d2, (S k). rewrite Hunfold, Hfilter, <- Htake.
      rewrite (bind_ok _ _ _ _ _ Hk). split_and!; [done|congruence|congruence|].
      destruct Hdone as [?|Hlen]; [left; cbn; lia|right; cbn [length]; rewrite Hlen; lia].
  - destruct (IH pre' limit d1) as (d2&k&Hk&He2&Hs2&Hdone). exists d2, (S k). rewrite Hunfold, Hfilter, <- Htake.
    split_and!; [done|congruence|congruence|]. destruct Hdone as [?|Hlen]; [left; cbn; lia|by right].
Qed.

(** A page follows the one before it. From an offset at the start of a line,
    a page returns an offset at the start of a line, and the events after the
    sequence among exactly the lines in between, in their order; it stops when
    it has as many as it may or there are no more lines. Pages read one after
    the other, each from the offset of the one before, lose no event and repeat
    none. *)
Theorem page_follows {X : SessionLaws} ls1 ls2 evs after limit (d : session_dir W) :
  (∀ op w, (io_result op w).1 = None) → Forall2 written ls2 evs →
  let content := journal_text (ls1 ++ ls2) in
  let offset k := Z.of_nat (String.length (journal_text (ls1 ++ take k ls2))) in
  ∃ d' k,
    scan_page content (Split (sdrop (Z.to_nat (offset 0)) content) newline) after (offset 0) limit d =
      (d', Ok (offset k, Ok (filter (λ e, (after < Ev_Sequence e)%Z) (take k (journaled <$> evs))))) ∧
    events_file d' = events_file d ∧ summary_file d' = summary_file d ∧
    (length ls2 ≤ k ∨ length (filter (λ e, (after < Ev_Sequence e)%Z) (take k (journaled <$> evs))) = Nat.max 1 limit).
Proof.
  intros Hio Hw. cbv zeta. setoid_rewrite journal_text_app. rewrite take_0. cbn [journal_text].
  rewrite app_nil_r_s, Nat2Z.id, sdrop_app.
  assert (Split (journal_text ls2) newline = ls2 ++ [""]) as ->; [|by apply scan_page_exact].
  rewrite <- (app_nil_r_s (journal_text ls2)). apply Split_journal; [|done]. apply Forall_lookup. intros i l Hi.
  destruct (Forall2_lookup_l _ _ _ _ _ Hw Hi) as (e&_&_&Hm&_). by destruct (marshal_line _ _ Hm).
Qed.

End Reads.
