(* ===== verification/SessionRefine.v ===== *)
(** * Flow sessions: the store refines an abstract session

    [step] is what an operation means for a record and a journal: a function of
    the times it reads, without files. [perform] runs the operation on a
    directory. Whatever faults happen in between, [perform] takes the directory
    to one that stands for the same session or for the one [step] gives, and its
    reply is that of [step] unless it is a fault. *)
From S2P Require Import Prelude GoStrings GoRunes GoPath JSON FlowModel WorkflowTypes SessionTypes SessionJournal SessionStore SessionSpec.
From Stdlib Require Import Ascii ZArith Lia.

Inductive operation :=
| OpLoad
| OpTransition (target : string)
| OpAppend (input : FlowSessionEventInput)
| OpCheckpoint (sequence generation : Z)
| OpCancel (sequence generation : Z) (eventType : string) (execution : option FlowSessionExecutionSummary)
| OpCommit (sequence generation : Z) (eventType : string) (res : work_result)
| OpSignal (version generation : Z) (res : work_result).

Inductive reply :=
| RRecord (r : flowSessionRecord)
| RSequence (n : Z) (duplicate : bool)
| RCanceled (b : bool)
| RDone.

(** The types of the events that the store itself writes for the lifecycle. *)
Definition lifecycle_types : list string := ["session.paused"; "session.resumed"; "session.completed"; "session.canceled"].

Section Refine.
Context {L : SessionLib} {X : SessionLaws} {W : Type} {V : Storage W} (flowID sessionID : string).

Abbreviation P := (M (session_dir W) session_error).

Definition perform (op : operation) : P reply :=
  match op with
  | OpLoad => r ← loadFlowSessionLocked flowID sessionID; mret (RRecord r)
  | OpTransition target => r ← transitionFlowSession flowID sessionID target; mret (RRecord r)
  | OpAppend input => '(n, dup) ← appendEvent flowID sessionID input; mret (RSequence n dup)
  | OpCheckpoint n g => checkpointFlowSessionCursor flowID sessionID n g;; mret RDone
  | OpCancel n g type ex => b ← cancelFlowSessionWork flowID sessionID n g type ex; mret (RCanceled b)
  | OpCommit n g type res => commitFlowSessionProgress flowID sessionID n g type res;; mret RDone
  | OpSignal v g res => checkpointFlowSessionSignal flowID sessionID v g res;; mret RDone
  end.

(** ** The abstract session *)

(** The result of work on an event is due: it is of this generation, of an
    active session, and of the next event. *)
Definition due (r : flowSessionRecord) (n g : Z) : option session_error :=
  if negb (FS_ExecutionGeneration r =? g)%Z then Some ErrFlowSessionStaleWork
  else if negb (bool_decide (FS_Status r = "active")) then
    Some (ErrFlowSessionConflict ("while session is " +:+ FS_Status r))
  else if negb (n =? FS_ProcessedSequence r + 1)%Z || (FS_LastSequence r <? n)%Z
  then Some (ErrFlowSessionConflict "sequence") else None.

Definition staged_outputs (r : flowSessionRecord) (outputs : list flowSessionOutput) (t : time) :
    result session_error (flowSessionRecord * list FlowSessionEvent) :=
  if is_nil outputs then Ok (r, []) else stage_events r outputs 0 t.

(** The record, the new events of the journal, and the reply. *)
Definition outcome : Type := result session_error (flowSessionRecord * list FlowSessionEvent * reply).
Definition becomes (r : flowSessionRecord) (new : list FlowSessionEvent) (rep : reply) : outcome := Ok (r, new, rep).

Definition step (op : operation) (t1 t2 : time) (r : flowSessionRecord) : outcome :=
  match op with
  | OpLoad => becomes r [] (RRecord r)
  | OpTransition target =>
      if bool_decide (FS_Status r = target) then becomes r [] (RRecord r)
      else
        type ← transition_event (FS_Status r) target;
        let e := lifecycle_event r type t1 in
        let r' := transitioned r target e t1 in
        becomes r' [journaled e] (RRecord r')
  | OpAppend input =>
      known ← admit_event r input;
      match known with
      | Some n => becomes r [] (RSequence n true)
      | None =>
          let e := input_event r input t1 in
          becomes (appended r input e t1) [journaled e] (RSequence (FS_LastSequence r + 1) false)
      end
  | OpCheckpoint n g =>
      match due r n g with
      | Some e => Err e
      | None => becomes (set_FS_UpdatedAt t1 (bump_generation (set_FS_ProcessedSequence n r))) [] RDone
      end
  | OpCancel n g type ex =>
      match due r n g with
      | Some _ => becomes r [] (RCanceled false)
      | None => becomes (skipped_record r n type ex t1) [] (RCanceled true)
      end
  | OpCommit n g type res =>
      match due r n g with
      | Some e => Err e
      | None =>
          '(r', staged) ← staged_outputs (progressed r n type res t1) (WR_Outputs res) t2;
          becomes (encoded_record r') (journaled <$> staged) RDone
      end
  | OpSignal v g res =>
      if negb (bool_decide (FS_Status r = "active"))
      then Err (ErrFlowSessionConflict ("cannot apply signals while session is " +:+ FS_Status r))
      else if (FS_ProcessedSequence r <? FS_LastSequence r)%Z then Err ErrFlowSessionPendingEvents
      else if negb (FS_StateVersion r =? v)%Z || negb (FS_ExecutionGeneration r =? g)%Z then Err ErrFlowSessionStaleSignal
      else
        latest ← snapshotFlowSessionOutputs (WR_Outputs res);
        becomes (encoded_record (set_FS_LatestSignalOutputs latest (signaled r res t1))) [] RDone
  end.

(** Two errors are the same up to the text of a conflict. *)
Definition same_error (e e' : session_error) : Prop :=
  match e, e' with ErrFlowSessionConflict _, ErrFlowSessionConflict _ => True | _, _ => e = e' end.

(** What callers guarantee: texts are valid UTF-8, payloads are compact, and an
    event does not bear the name of the store's own. *)
Definition plain_op (op : operation) : Prop :=
  match op with
  | OpAppend input =>
      is_text (In_Source input) ∧ is_text (In_Type input) ∧ is_text (In_CorrelationID input) ∧
      Compact (In_Payload input) = In_Payload input ∧ In_Type input ∉ lifecycle_types
  | OpCommit _ _ _ res => Forall (λ o, is_text (Out_CorrelationID o)) (WR_Outputs res)
  | _ => True
  end.

(** ** Saving and appending *)

Context (Hdir : flowSessionDir flowID sessionID = None).

Abbreviation stands := (stands flowID sessionID).
Abbreviation loaded := (loaded flowID sessionID).
Abbreviation record_ok := (record_ok flowID sessionID).

Lemma save_step (d d' : session_dir W) r rec evs res :
  loaded d r evs → record_ok (encoded_record rec) → FS_PendingOutputEvents rec = [] →
  FS_LastSequence rec = FS_LastSequence r → (0 < FS_ExecutionGeneration rec)%Z →
  save_summary rec d = (d', res) →
  (faulty res ∧ stands d' r evs) ∨ (res = Ok tt ∧ loaded d' (encoded_record rec) evs).
Proof.
  intros Hl Hok Hp Hlast Hg H. destruct (save_spec _ _ _ _ H) as (He&[[Hf Hs]|[-> Hs]]).
  - left. split; [done|]. eapply stands_files; [exact Hs|by rewrite He|by apply loaded_stands].
  - right. split; [done|]. destruct Hl. constructor; try done.
    + cbn. by rewrite Hp.
    + by rewrite He.
    + by cbn; rewrite Hlast.
Qed.

Lemma append_step (d d' : session_dir W) r evs e res :
  loaded d r evs → young_record r → text_event e → Ev_Sequence e = (FS_LastSequence r + 1)%Z →
  Ev_StateVersion e = (FS_StateVersion r + 1)%Z → Ev_ReceivedAt e ≠ 0%Z →
  appendFlowSessionEvent e d = (d', res) →
  (faulty res ∧ stands d' r evs) ∨
  (summary_file d' = Some r ∧ stands d' (caught_up r (journaled e)) (evs ++ [journaled e]) ∧
     (faulty res ∨ res = Ok tt ∧ clean_journal (events_file d') (evs ++ [journaled e]))).
Proof.
  intros Hl Hy Htx Hseq Hsv Ht H. destruct (append_spec _ _ _ _ _ Htx (loaded_journal _ _ _ _ _ Hl) H) as (Hs&Hcase).
  rewrite (loaded_summary _ _ _ _ _ Hl) in Hs.
  assert (settled (events_file d') (evs ++ [journaled e]) → stands d' (caught_up r (journaled e)) (evs ++ [journaled e])) as Hst.
  { intros Hset. destruct Hl as [_ Hok _ Hp _ Hn Hlen]. apply stands_ahead; try done.
    - apply numbered_snoc; [done|]. cbn. lia.
    - cbn. rewrite Hsv. destruct Hok. lia. }
  destruct Hcase as [[Hset Hf]|[[Hset Hf]|[Hc ->]]].
  - left. split; [done|]. destruct Hl as [Hsum Hok Hg Hp _ Hn Hlen]. rewrite <- (first_generation_id r) by done.
    by apply stands_done.
  - right. split_and!; [done|by apply Hst|by left].
  - right. split_and!; [done|by apply Hst, clean_settled|right; done].
Qed.

Lemma transition_types status target type :
  transition_event status target = Ok type →
  (target, type) ∈ [("paused", "session.paused"); ("active", "session.resumed");
                    ("completed", "session.completed"); ("canceled", "session.canceled")].
Proof.
  unfold transition_event. repeat case_bool_decide; subst; intros [= <-]; apply (bool_decide_unpack _); vm_compute; exact I.
Qed.

(** The record after an event that is recovered is the one that is written when
    nothing fails. *)
Lemma transitioned_caught_up r target type t :
  record_ok r → young_record r → (0 < FS_ExecutionGeneration r)%Z → transition_event (FS_Status r) target = Ok type →
  transitioned r target (lifecycle_event r type t) t = caught_up r (journaled (lifecycle_event r type t)).
Proof.
  intros [_ _ _ Hsq Hver _ _] [Hy _] Hg Htype. unfold caught_up. rewrite (first_generation_id r) by done.
  unfold recovered_record, recovered_cursors, clamp_processed, journaled, lifecycle_event, transitioned. cbn.
  rewrite !wrapu64_small by lia.
  destruct (Z.ltb_spec (FS_StateVersion r) (FS_StateVersion r + 1)); [|lia]. cbn.
  destruct (Z.ltb_spec (FS_LastSequence r + 1) (FS_ProcessedSequence r)); [lia|]. unfold recovered_status. cbn.
  apply transition_types in Htype. rewrite !elem_of_cons, elem_of_nil in Htype.
  destruct Htype as [[= -> ->]|[[= -> ->]|[[= -> ->]|[[= -> ->]|[]]]]]; destruct r; reflexivity.
Qed.

Lemma appended_caught_up r input t :
  record_ok r → young_record r → (0 < FS_ExecutionGeneration r)%Z →
  Compact (In_Payload input) = In_Payload input → In_Type input ∉ lifecycle_types →
  appended r input (input_event r input t) t = caught_up r (journaled (input_event r input t)).
Proof.
  intros [_ _ _ Hsq Hver _ _] [Hy _] Hg Hc Htype. unfold caught_up. rewrite (first_generation_id r) by done.
  unfold recovered_record, recovered_cursors, clamp_processed, journaled, input_event, appended. cbn.
  rewrite !wrapu64_small by lia. rewrite Hc.
  destruct (Z.ltb_spec (FS_StateVersion r) (FS_StateVersion r + 1)); [|lia]. cbn.
  destruct (Z.ltb_spec (FS_LastSequence r + 1) (FS_ProcessedSequence r)); [lia|]. unfold recovered_status. cbn.
  unfold lifecycle_types in Htype. rewrite !not_elem_of_cons in Htype. destruct Htype as (?&?&?&?&_).
  rewrite !bool_decide_false by done. case_match; by destruct r.
Qed.

(** An event is appended and the record that counts it is saved. *)
Lemma journal_and_save {A} (a : A) (d d' : session_dir W) r evs e rec res :
  loaded d r evs → young_record r → text_event e → Ev_Sequence e = (FS_LastSequence r + 1)%Z →
  Ev_StateVersion e = (FS_StateVersion r + 1)%Z → Ev_ReceivedAt e ≠ 0%Z → rec = caught_up r (journaled e) →
  (appendFlowSessionEvent e;; save_summary rec;; mret a) d = (d', res) →
  (faulty res ∧ stands d' r evs) ∨ (faulty res ∧ stands d' rec (evs ++ [journaled e])) ∨
  (res = Ok a ∧ loaded d' rec (evs ++ [journaled e])).
Proof.
  intros Hld Hyr Htx Hseq Hsv Ht -> H. pose proof (loaded_ok _ _ _ _ _ Hld) as Hok.
  assert (∀ B (r0 : result session_error B) m, r0 = Err (Fault m) → faulty r0) as Hfault by (intros B r0 m ->; by eexists).
  apply bind_inv in H as [([]&d3&H3&H)|(err&H3&->)];
    destruct (append_step _ _ _ _ _ _ Hld Hyr Htx Hseq Hsv Ht H3) as [[Hf Hst3]|(Hs3&Hst3&Hcase)].
  - by destruct Hf.
  - destruct Hcase as [[? ?]|[_ Hc3]]; [done|].
    apply bind_inv in H as [([]&d4&H4&H)|(err&H4&->)]; destruct (save_spec _ _ _ _ H4) as (He4&[[Hf Hs4]|[Hk Hs4]]).
    + by destruct Hf.
    + injection H as <- <-. right. right. split; [done|].
      destruct (caught_up_ok flowID sessionID r (journaled e) Hok (loaded_pending _ _ _ _ _ Hld) Hyr Hseq) as (Hok'&Hp'&Hl'&Hg'&_&_).
      { cbn. rewrite Hsv. destruct Hok. lia. }
      rewrite is_encoded_id in Hs4 by (done || by destruct Hok').
      assert (Ev_Sequence (journaled e) = Z.of_nat (length evs) + 1)%Z as Hn.
      { change (Ev_Sequence (journaled e)) with (Ev_Sequence e). by rewrite Hseq, (loaded_length _ _ _ _ _ Hld). }
      constructor; try done; [by rewrite He4|by apply numbered_snoc; [destruct Hld|]|rewrite Hl', Hn, length_app; cbn; lia].
    + right. left. split; [by destruct Hf as [m [= ->]]; eexists|]. eapply stands_files; [exact Hs4|by rewrite He4|done].
    + done.
  - left. split; [by destruct Hf as [m [= ->]]; eexists|done].
  - destruct Hcase as [Hf|[? _]]; [|done]. right. left. split; [by destruct Hf as [m [= ->]]; eexists|done].
Qed.

(** ** Each operation *)

(** A run of the operation, from a directory that stands for [r] and [evs]. *)
Definition refines (op : operation) (r : flowSessionRecord) (evs : list FlowSessionEvent) (d' : session_dir W)
    (res : result session_error reply) : Prop :=
  (faulty res ∧ (stands d' r evs ∨
     ∃ t1 t2 r' new rep, step op t1 t2 r = Ok (r', new, rep) ∧ stands d' r' (evs ++ new))) ∨
  (∃ t1 t2, match step op t1 t2 r with
            | Ok (r', new, rep) => res = Ok rep ∧ stands d' r' (evs ++ new)
            | Err e => (∃ e', res = Err e' ∧ same_error e e') ∧ stands d' r evs
            end).

Lemma refines_fault op r evs d' res : faulty res → stands d' r evs → refines op r evs d' res.
Proof. intros. left. split; [done|by left]. Qed.

Lemma refines_reply op r evs d' rep t1 t2 r' new :
  step op t1 t2 r = Ok (r', new, rep) → stands d' r' (evs ++ new) → refines op r evs d' (Ok rep).
Proof. intros Hs Hst. right. exists t1, t2. by rewrite Hs. Qed.

Lemma refines_same op r evs d' rep t1 t2 :
  step op t1 t2 r = Ok (r, [], rep) → stands d' r evs → refines op r evs d' (Ok rep).
Proof. intros Hs Hst. eapply refines_reply; [exact Hs|]. by rewrite app_nil_r. Qed.

Lemma refines_error op r evs d' e e' t1 t2 :
  step op t1 t2 r = Err e → same_error e e' → stands d' r evs → refines op r evs d' (Err e').
Proof. intros Hs He Hst. right. exists t1, t2. rewrite Hs. split; [by exists e'|done]. Qed.

Lemma same_error_refl e : same_error e e.
Proof. by destruct e. Qed.

Lemma reply_inv {A} (m : P A) (f : A → reply) d d' res :
  (a ← m; mret (f a)) d = (d', res) →
  ∃ res0, m d = (d', res0) ∧ res = match res0 with Ok a => Ok (f a) | Err e => Err e end.
Proof.
  intros [(a&d1&H1&[= <- <-])|(e&H1&->)]%bind_inv; eexists; (split; [exact H1|done]).
Qed.

Lemma faulty_reply {A} (f : A → reply) (res0 : result session_error A) :
  faulty res0 → faulty (match res0 with Ok a => Ok (f a) | Err e => Err e end).
Proof. intros [m ->]. by eexists. Qed.

Lemma record_text_event r e :
  record_ok r → Ev_SessionID e = FS_SessionID r → Ev_FlowID e = FS_FlowID r → Ev_Version e = FS_Version r →
  Ev_Digest e = FS_Digest r → is_text (Ev_Source e) → is_text (Ev_Type e) → is_text (Ev_CorrelationID e) → text_event e.
Proof.
  intros Hok H1 H2 H3 H4 Hs Ht Hc. destruct Hok as [E1 E2 (?&?&?&?) _ _ _ _]. unfold text_event.
  rewrite H1, H2, H3, H4, E1, E2. by split_and!.
Qed.

(** Reading the clock changes no file. *)
Lemma clock_loaded {A} (k : time → P A) (d d' : session_dir W) r evs res :
  loaded d r evs → (t ← read_clock; k t) d = (d', res) →
  ∃ t d1, t ≠ 0%Z ∧ loaded d1 r evs ∧ k t d1 = (d', res).
Proof.
  intros Hld [(t&d1&H1&H)|(e&H1&->)]%bind_inv; destruct (clock_spec _ _ _ H1) as (t'&Ht&Hr&He&Hs); [|done].
  injection Hr as <-. exists t, d1. split_and!; [done| |done]. destruct Hld. constructor; try done; congruence.
Qed.

(** What is stale or out of order is refused before anything is read. *)
Lemma due_None r n g :
  due r n g = None ↔ FS_ExecutionGeneration r = g ∧ FS_Status r = "active" ∧
    n = (FS_ProcessedSequence r + 1)%Z ∧ (n <= FS_LastSequence r)%Z.
Proof.
  unfold due. destruct (Z.eqb_spec (FS_ExecutionGeneration r) g); cbn; [|naive_solver].
  case_bool_decide; cbn; [|naive_solver]. destruct (Z.eqb_spec n (FS_ProcessedSequence r + 1)); cbn; [|naive_solver].
  destruct (Z.ltb_spec (FS_LastSequence r) n); split; try done; lia.
Qed.

Lemma due_cases {A} r n g m1 m2 (k : P A) d d' res :
  (if negb (FS_ExecutionGeneration r =? g)%Z then throw ErrFlowSessionStaleWork
   else if negb (bool_decide (FS_Status r = "active")) then throw (ErrFlowSessionConflict m1)
   else if negb (n =? FS_ProcessedSequence r + 1)%Z || (FS_LastSequence r <? n)%Z then throw (ErrFlowSessionConflict m2)
   else k) d = (d', res) →
  (∃ e e', due r n g = Some e ∧ res = Err e' ∧ d' = d ∧ same_error e e') ∨ (due r n g = None ∧ k d = (d', res)).
Proof.
  unfold due. repeat case_match; try (intros [= <- <-]; left; do 2 eexists; by split_and!). all: by right.
Qed.

Lemma load_refines d d' r evs res :
  young d → stands d r evs → perform OpLoad d = (d', res) → refines OpLoad r evs d' res.
Proof.
  intros Hy Hst (res0&H&->)%reply_inv. destruct (load_spec _ _ Hdir _ _ _ _ _ Hy Hst H) as [Hst' [[m ->]|[-> _]]].
  - apply refines_fault; [by eexists|done].
  - by apply (refines_same _ _ _ _ _ 0%Z 0%Z).
Qed.

Lemma transition_refines target d d' r evs res :
  young d → stands d r evs → perform (OpTransition target) d = (d', res) → refines (OpTransition target) r evs d' res.
Proof.
  intros Hy Hst (res0&H&->)%reply_inv. unfold transitionFlowSession in H.
  apply (after_load _ _ Hdir _ _ _ _ _ _ Hy Hst) in H as [[Hf Hst']|(d1&Hld&Hyr&H)].
  { apply refines_fault; [by apply faulty_reply|done]. }
  pose proof (loaded_stands _ _ _ _ _ Hld) as Hst1.
  case_bool_decide as Hsame.
  { injection H as <- <-. eapply (refines_same _ _ _ _ _ 0%Z 0%Z); [|done]. cbn. by rewrite bool_decide_true. }
  destruct (transition_event (FS_Status r) target) as [type|e] eqn:Htype.
  2: { injection H as <- <-. eapply (refines_error _ _ _ _ _ _ 0%Z 0%Z); [|apply same_error_refl|done].
       cbn. by rewrite bool_decide_false, Htype. }
  apply (clock_loaded _ _ _ _ _ _ Hld) in H as (t&d2&Ht&Hld2&H). cbv zeta in H. set (ev := lifecycle_event r type t) in *.
  pose proof (loaded_ok _ _ _ _ _ Hld) as Hok. pose proof (loaded_generation _ _ _ _ _ Hld) as Hg.
  assert (Ev_Sequence ev = FS_LastSequence r + 1 ∧ Ev_StateVersion ev = FS_StateVersion r + 1)%Z as [Hseq Hsv].
  { destruct Hok, Hyr. unfold ev. cbn. rewrite !wrapu64_small by lia. done. }
  assert (text_event ev) as Htx.
  { eapply record_text_event; try done. apply transition_types in Htype. rewrite !elem_of_cons, elem_of_nil in Htype.
    by destruct Htype as [[= -> ->]|[[= -> ->]|[[= -> ->]|[[= -> ->]|[]]]]]. }
  assert (step (OpTransition target) t 0 r = Ok (transitioned r target ev t, [journaled ev], RRecord (transitioned r target ev t))) as Hstep.
  { cbn [step]. by rewrite bool_decide_false, Htype. }
  pose proof (transitioned_caught_up r target type t Hok Hyr Hg Htype) as Hcu. fold ev in Hcu.
  destruct (journal_and_save _ _ _ _ _ _ _ _ Hld2 Hyr Htx Hseq Hsv Ht Hcu H) as [[Hf Hst3]|[[Hf Hst3]|[-> Hld3]]].
  - apply refines_fault; [by apply faulty_reply|done].
  - left. split; [by apply faulty_reply|]. right. exists t, 0%Z. do 3 eexists. by split.
  - eapply refines_reply; [exact Hstep|by apply loaded_stands].
Qed.

Lemma append_refines input d d' r evs res :
  young d → stands d r evs → plain_op (OpAppend input) → perform (OpAppend input) d = (d', res) →
  refines (OpAppend input) r evs d' res.
Proof.
  intros Hy Hst (Ht1&Ht2&Ht3&Hcompact&Htype) H. cbn [perform] in H.
  assert (∃ res0, appendEvent flowID sessionID input d = (d', res0) ∧
    res = match res0 with Ok (n, dup) => Ok (RSequence n dup) | Err e => Err e end) as (res0&H0&->).
  { apply bind_inv in H as [([n dup]&d1&H1&[= <- <-])|(e&H1&->)]; eexists; (split; [exact H1|done]). }
  clear H. unfold appendEvent in H0.
  apply (after_load _ _ Hdir _ _ _ _ _ _ Hy Hst) in H0 as [[[m ->] Hst']|(d1&Hld&Hyr&H)].
  { apply refines_fault; [by eexists|done]. }
  pose proof (loaded_stands _ _ _ _ _ Hld) as Hst1.
  destruct (admit_event r input) as [[n|]|e] eqn:Hadmit.
  - injection H as <- <-. eapply (refines_same _ _ _ _ _ 0%Z 0%Z); [|done]. cbn [step]. by rewrite Hadmit.
  - apply (clock_loaded _ _ _ _ _ _ Hld) in H as (t&d2&Ht&Hld2&H). cbv zeta in H. set (ev := input_event r input t) in *.
    pose proof (loaded_ok _ _ _ _ _ Hld) as Hok. pose proof (loaded_generation _ _ _ _ _ Hld) as Hg.
    assert (Ev_Sequence ev = FS_LastSequence r + 1 ∧ Ev_StateVersion ev = FS_StateVersion r + 1)%Z as [Hseq Hsv].
    { destruct Hok, Hyr. unfold ev. cbn. rewrite !wrapu64_small by lia. done. }
    assert (text_event ev) as Htx by by eapply record_text_event.
    assert (step (OpAppend input) t 0 r = Ok (appended r input ev t, [journaled ev], RSequence (Ev_Sequence ev) false)) as Hstep.
    { cbn [step]. rewrite Hadmit, Hseq. done. }
    pose proof (appended_caught_up r input t Hok Hyr Hg Hcompact Htype) as Hcu. fold ev in Hcu.
    destruct (journal_and_save _ _ _ _ _ _ _ _ Hld2 Hyr Htx Hseq Hsv Ht Hcu H) as [[[m ->] Hst3]|[[[m ->] Hst3]|[-> Hld3]]].
    + apply refines_fault; [by eexists|done].
    + left. split; [by eexists|]. right. exists t, 0%Z. do 3 eexists. by split.
    + eapply refines_reply; [exact Hstep|by apply loaded_stands].
  - injection H as <- <-. eapply (refines_error _ _ _ _ _ _ 0%Z 0%Z); [|apply same_error_refl|done].
    cbn [step]. by rewrite Hadmit.
Qed.

(** The last step of an operation that only changes the record. *)
Lemma save_refines op r rec evs d d' res rep t1 t2 :
  loaded d r evs → record_ok (encoded_record rec) → FS_PendingOutputEvents rec = [] →
  FS_LastSequence rec = FS_LastSequence r → (0 < FS_ExecutionGeneration rec)%Z →
  step op t1 t2 r = Ok (encoded_record rec, [], rep) →
  (save_summary rec;; mret rep) d = (d', res) → refines op r evs d' res.
Proof.
  intros Hld Hok Hp Hlast Hg Hstep [([]&d1&H1&[= <- <-])|(e&H1&->)]%bind_inv;
    destruct (save_step _ _ _ _ _ _ Hld Hok Hp Hlast Hg H1) as [[[m Hf] Hst]|[Hr Hld']]; simplify_eq.
  - eapply refines_reply; [exact Hstep|]. rewrite app_nil_r. by apply loaded_stands.
  - apply refines_fault; [by eexists|done].
Qed.

Lemma bump_small r : (0 <= FS_ExecutionGeneration r < 2 ^ 64 - 1)%Z →
  FS_ExecutionGeneration (bump_generation r) = (FS_ExecutionGeneration r + 1)%Z.
Proof. intros. unfold bump_generation. cbn. by rewrite wrapu64_small by lia. Qed.

Lemma checkpoint_refines n g d d' r evs res :
  young d → stands d r evs → perform (OpCheckpoint n g) d = (d', res) → refines (OpCheckpoint n g) r evs d' res.
Proof.
  intros Hy Hst H. cbn [perform] in H. apply (reply_inv _ (λ _, RDone)) in H as (res0&H&->).
  unfold checkpointFlowSessionCursor in H.
  apply (after_load _ _ Hdir _ _ _ _ _ _ Hy Hst) in H as [[Hf Hst']|(d1&Hld&Hyr&H)].
  { apply refines_fault; [by apply (faulty_reply (λ _, RDone))|done]. }
  pose proof (loaded_stands _ _ _ _ _ Hld) as Hst1. pose proof (loaded_ok _ _ _ _ _ Hld) as Hok.
  pose proof Hyr as [Hyv Hyg]. pose proof (ok_sequences _ _ _ Hok). pose proof (ok_version _ _ _ Hok).
  pose proof (loaded_generation _ _ _ _ _ Hld) as Hg. rewrite wrapu64_small in H by lia.
  apply due_cases in H as [(e&e'&Hdue&->&->&He)|[Hdue H]].
  - eapply (refines_error _ _ _ _ _ _ 0%Z 0%Z); [|exact He|done]. cbn [step]. by rewrite Hdue.
  - pose proof Hdue as (<-&Hact&->&Hle)%due_None.
    apply (clock_loaded _ _ _ _ _ _ Hld) in H as (t&d2&Ht&Hld2&H).
    set (rec := set_FS_UpdatedAt _ _) in H.
    assert (encoded_record rec = rec) as Henc.
    { apply is_encoded_id; [by destruct Hok|]. by apply (loaded_pending _ _ _ _ _ Hld). }
    assert (FS_ExecutionGeneration rec = FS_ExecutionGeneration r + 1)%Z as Hgen by (unfold rec; cbn; rewrite wrapu64_small; lia).
    eapply (save_refines _ r rec evs d2 d' _ RDone t 0%Z Hld2).
    + rewrite Henc. destruct Hok. constructor; try done; cbn; try lia. by rewrite wrapu64_small; lia.
    + by apply (loaded_pending _ _ _ _ _ Hld).
    + done.
    + lia.
    + cbn [step]. by rewrite Hdue, Henc.
    + unfold mbind, M_bind. rewrite H. by destruct res0.
Qed.

Lemma cancel_refines n g type ex d d' r evs res :
  young d → stands d r evs → perform (OpCancel n g type ex) d = (d', res) → refines (OpCancel n g type ex) r evs d' res.
Proof.
  intros Hy Hst H. cbn [perform] in H. apply (reply_inv _ RCanceled) in H as (res0&H&->). unfold cancelFlowSessionWork in H.
  apply (after_load _ _ Hdir _ _ _ _ _ _ Hy Hst) in H as [[Hf Hst']|(d1&Hld&Hyr&H)].
  { apply refines_fault; [by apply (faulty_reply RCanceled)|done]. }
  pose proof (loaded_stands _ _ _ _ _ Hld) as Hst1. pose proof (loaded_ok _ _ _ _ _ Hld) as Hok.
  pose proof Hyr as [Hyv Hyg]. pose proof (ok_sequences _ _ _ Hok). pose proof (ok_version _ _ _ Hok).
  pose proof (loaded_generation _ _ _ _ _ Hld) as Hg. rewrite wrapu64_small in H by lia.
  destruct (due r n g) as [e|] eqn:Hdue.
  - case_match eqn:Hguard.
    { injection H as <- <-. eapply (refines_same _ _ _ _ _ 0%Z 0%Z); [|done]. cbn [step]. by rewrite Hdue. }
    exfalso. assert (due r n g = None) as Hno; [|congruence]. apply due_None.
    rewrite !orb_false_iff, !negb_false_iff, bool_decide_eq_true, !Z.eqb_eq, Z.leb_gt, Z.ltb_ge in Hguard.
    destruct Hguard as ((((?&?)&?)&?)&?). by split_and!.
  - pose proof Hdue as (<-&Hact&->&Hle)%due_None.
    rewrite Z.eqb_refl, (bool_decide_true (FS_Status r = "active")), Z.eqb_refl in H by done. cbn [negb orb] in H.
    destruct (Z.leb_spec (FS_ProcessedSequence r + 1) (FS_ProcessedSequence r)); [lia|].
    destruct (Z.ltb_spec (FS_LastSequence r) (FS_ProcessedSequence r + 1)); [lia|]. cbn [orb] in H.
    apply (clock_loaded _ _ _ _ _ _ Hld) in H as (t&d2&Ht&Hld2&H). cbv zeta in H.
    remember (skipped_record r (FS_ProcessedSequence r + 1) type ex t) as rec eqn:Hrec.
    assert (FS_PendingOutputEvents rec = []) as Hp by (subst; apply (loaded_pending _ _ _ _ _ Hld)).
    assert (is_encoded rec) as Henc' by (subst; by destruct Hok). pose proof (is_encoded_id rec Henc' Hp) as Henc.
    assert (FS_ExecutionGeneration rec = FS_ExecutionGeneration r + 1)%Z as Hgen by (subst; cbn; rewrite wrapu64_small; lia).
    assert (record_ok rec) as Hrok by (subst; destruct Hok; constructor; try done; cbn; rewrite ?wrapu64_small; lia).
    assert (FS_LastSequence rec = FS_LastSequence r) as Hlast by by subst.
    assert (step (OpCancel (FS_ProcessedSequence r + 1) (FS_ExecutionGeneration r) type ex) t 0%Z r =
      Ok (encoded_record rec, [], RCanceled true)) as Hstep by (cbn [step]; by rewrite Hdue, Henc, Hrec).
    clear Hrec. eapply (save_refines _ r rec evs d2 d' _ (RCanceled true) t 0%Z Hld2); try done; [by rewrite Henc|lia|].
    apply bind_inv in H as [([]&d3&Hsv&H)|(e&Hsv&->)].
    + unfold flushPendingFlowSessionOutputEventsLocked in H. rewrite Hp in H. injection H as <- <-.
      by rewrite (bind_ok _ _ _ _ _ Hsv).
    + by rewrite (bind_err _ _ _ _ _ Hsv).
Qed.

Lemma encoded_record_encoded rec : is_encoded (encoded_record rec).
Proof.
  split_and!; cbn; [apply encoded_twice|apply encoded_twice|]. rewrite <- list_fmap_compose.
  apply list_fmap_ext. intros _ s _. cbn. unfold encoded_snapshot. cbn. by rewrite encoded_twice.
Qed.

(** A record of the same session, with counters in order. *)
Lemma encoded_ok r rec :
  record_ok r → FS_SessionID rec = FS_SessionID r → FS_FlowID rec = FS_FlowID r → FS_Version rec = FS_Version r →
  FS_Digest rec = FS_Digest r → (0 <= FS_ProcessedSequence rec <= FS_LastSequence rec)%Z →
  (FS_LastSequence rec <= FS_StateVersion rec)%Z → (0 <= FS_ExecutionGeneration rec)%Z → record_ok (encoded_record rec).
Proof.
  intros [] E1 E2 E3 E4 ???.
  assert (FS_SessionID (encoded_record rec) = FS_SessionID rec ∧ FS_FlowID (encoded_record rec) = FS_FlowID rec ∧
    FS_Version (encoded_record rec) = FS_Version rec ∧ FS_Digest (encoded_record rec) = FS_Digest rec) as (F1&F2&F3&F4) by done.
  constructor; rewrite ?F1, ?F2, ?F3, ?F4, ?E1, ?E2, ?E3, ?E4; try done. apply encoded_record_encoded.
Qed.

Lemma signal_refines v g wr d d' r evs res :
  young d → stands d r evs → perform (OpSignal v g wr) d = (d', res) → refines (OpSignal v g wr) r evs d' res.
Proof.
  intros Hy Hst H. cbn [perform] in H. apply (reply_inv _ (λ _, RDone)) in H as (res0&H&->).
  unfold checkpointFlowSessionSignal in H.
  apply (after_load _ _ Hdir _ _ _ _ _ _ Hy Hst) in H as [[Hf Hst']|(d1&Hld&Hyr&H)].
  { apply refines_fault; [by apply (faulty_reply (λ _, RDone))|done]. }
  pose proof (loaded_stands _ _ _ _ _ Hld) as Hst1. pose proof (loaded_ok _ _ _ _ _ Hld) as Hok.
  pose proof Hyr as [Hyv Hyg]. pose proof (loaded_generation _ _ _ _ _ Hld) as Hg.
  assert (∀ e, step (OpSignal v g wr) 0 0 r = Err e → throw e d1 = (d', res0) →
    refines (OpSignal v g wr) r evs d' (match res0 with Ok _ => Ok RDone | Err e => Err e end)) as Herr.
  { intros e He [= <- <-]. eapply refines_error; [exact He|apply same_error_refl|done]. }
  destruct (negb (bool_decide (FS_Status r = "active"))) eqn:Hact.
  { eapply Herr; [|exact H]. cbn [step]. by rewrite Hact. }
  destruct (FS_ProcessedSequence r <? FS_LastSequence r)%Z eqn:Hpend.
  { eapply Herr; [|exact H]. cbn [step]. by rewrite Hact, Hpend. }
  destruct (negb (FS_StateVersion r =? v)%Z) eqn:Hv.
  { eapply Herr; [|exact H]. cbn [step]. by rewrite Hact, Hpend, Hv. }
  destruct (negb (FS_ExecutionGeneration r =? g)%Z) eqn:Hgen.
  { eapply Herr; [|exact H]. cbn [step]. by rewrite Hact, Hpend, Hv, Hgen. }
  apply (clock_loaded _ _ _ _ _ _ Hld) in H as (t&d2&Ht&Hld2&H).
  destruct (snapshotFlowSessionOutputs (WR_Outputs wr)) as [latest|e] eqn:Hsn.
  2: { injection H as <- <-. eapply (refines_error _ _ _ _ _ _ t 0%Z); [|apply same_error_refl|by apply loaded_stands].
       cbn [step]. by rewrite Hact, Hpend, Hv, Hgen, Hsn. }
  remember (set_FS_LatestSignalOutputs latest (signaled r wr t)) as rec eqn:Hrec.
  assert (step (OpSignal v g wr) t 0 r = Ok (encoded_record rec, [], RDone)) as Hstep
    by (cbn [step]; by rewrite Hact, Hpend, Hv, Hgen, Hsn, Hrec).
  assert (FS_LastSequence rec = FS_LastSequence r ∧ FS_ProcessedSequence rec = FS_ProcessedSequence r ∧
    FS_PendingOutputEvents rec = [] ∧ FS_SessionID rec = FS_SessionID r ∧ FS_FlowID rec = FS_FlowID r ∧
    FS_Version rec = FS_Version r ∧ FS_Digest rec = FS_Digest r ∧
    FS_StateVersion rec = wrapu64 (FS_StateVersion r + 1) ∧ FS_ExecutionGeneration rec = wrapu64 (FS_ExecutionGeneration r + 1))%Z
    as (E1&E2&E3&E4&E5&E6&E7&E8&E9).
  { subst rec. unfold signaled, with_state. pose proof (loaded_pending _ _ _ _ _ Hld). destruct (WR_State wr); by split_and!. }
  clear Hrec. pose proof (ok_sequences _ _ _ Hok). pose proof (ok_version _ _ _ Hok). rewrite wrapu64_small in E8, E9 by lia.
  eapply (save_refines _ r rec evs d2 d' _ RDone t 0%Z Hld2); try done; [apply (encoded_ok r); try done; lia|lia|].
  unfold mbind, M_bind. rewrite H. by destruct res0.
Qed.

(** ** Committing with outputs *)

Definition texts (r : flowSessionRecord) : Prop :=
  is_text (FS_SessionID r) ∧ is_text (FS_FlowID r) ∧ is_text (FS_Version r) ∧ is_text (FS_Digest r).

(** Staging numbers the outputs on from the last event; each takes a byte at
    least of the batch, so that there are not too many. *)
Lemma stage_spec outputs r total t r' staged :
  Forall (λ o, is_text (Out_CorrelationID o)) outputs → texts r →
  (0 <= total <= maxFlowSessionOutputBatchBytes)%Z → (0 <= FS_LastSequence r <= FS_StateVersion r)%Z →
  (FS_StateVersion r + maxFlowSessionOutputBatchBytes - total < 2 ^ 64)%Z →
  stage_events r outputs total t = Ok (r', staged) →
  (Z.of_nat (length staged) + total <= maxFlowSessionOutputBatchBytes)%Z ∧
  r' = set_FS_StateVersion (FS_StateVersion r + Z.of_nat (length staged))
         (set_FS_LastSequence (FS_LastSequence r + Z.of_nat (length staged)) r) ∧
  Forall text_event staged ∧ length staged = length outputs ∧
  ∀ i e, staged !! i = Some e → Ev_Sequence e = (FS_LastSequence r + Z.of_nat i + 1)%Z.
Proof.
  revert r total r' staged. induction outputs as [|o outputs IH]; intros r total r' staged Ho Hr Htot Hl Hsv; cbn [stage_events].
  { intros [= <- <-]. split_and!; [cbn; lia| |done|done|done].
    change (Z.of_nat (length [])) with 0%Z. rewrite !Z.add_0_r. by destruct r. }
  apply Forall_cons in Ho as [Ho Hos]. destruct (marshal_output o) as [payload|] eqn:Hm; [|done].
  destruct (marshal_output_compact _ _ Hm) as [_ Hne].
  assert (0 < Z.of_nat (String.length payload))%Z as Hpos by (destruct payload; [done|cbn; lia]).
  destruct (orb _ _) eqn:Hbig; [done|]. apply orb_false_iff in Hbig as [_ Hbig%Z.ltb_ge].
  rewrite (wrapu64_small (FS_LastSequence r + 1)) by lia.
  remember (bump_version (set_FS_LastSequence (FS_LastSequence r + 1) r)) as r1 eqn:Hr1.
  intros [[r2 rest] [Hst [= <- <-]]]%result_bind_Ok.
  assert (FS_LastSequence r1 = FS_LastSequence r + 1 ∧ FS_StateVersion r1 = FS_StateVersion r + 1)%Z as [E1 E2].
  { subst r1. cbn. by rewrite wrapu64_small by lia. }
  destruct (IH r1 (total + Z.of_nat (String.length payload))%Z r2 rest) as (H1&->&H3&H4&H5); try done; try lia.
  { subst r1. exact Hr. }
  split_and!.
  - cbn. lia.
  - rewrite E1, E2. cbn [length]. rewrite Nat2Z.inj_succ, <- !Z.add_1_l, !Z.add_assoc. subst r1. by destruct r.
  - constructor; [|done]. subst r1. destruct Hr as (?&?&?&?). by split_and!.
  - cbn. by rewrite H4.
  - intros [|i] e Hi; [injection Hi as <-; cbn; lia|]. rewrite (H5 i e Hi), E1. lia.
Qed.

Lemma numbered_staged evs staged n :
  numbered evs → Z.of_nat (length evs) = n → (∀ i e, staged !! i = Some e → Ev_Sequence e = (n + Z.of_nat i + 1)%Z) →
  numbered (evs ++ (journaled <$> staged)).
Proof.
  intros Hn <- Hs i e [Hi|[Hlen Hi]]%lookup_app_Some; [by apply Hn|].
  apply list_lookup_fmap_Some in Hi as (e0&->&Hi). cbn. rewrite (Hs _ _ Hi). lia.
Qed.

(** Saving a record with staged outputs commits them: what follows a crash
    flushes them. *)
Lemma staged_refines op r r1 staged evs d d' res t1 t2 :
  loaded d r evs → record_ok (encoded_record r1) → FS_PendingOutputEvents r1 = [] → (0 < FS_ExecutionGeneration r1)%Z →
  FS_LastSequence r1 = (FS_LastSequence r + Z.of_nat (length staged))%Z → (FS_LastSequence r1 < 2 ^ 64)%Z →
  Forall text_event staged → staged ≠ [] →
  (∀ i e, staged !! i = Some e → Ev_Sequence e = (FS_LastSequence r + Z.of_nat i + 1)%Z) →
  step op t1 t2 r = Ok (encoded_record r1, journaled <$> staged, RDone) →
  (save_summary (set_FS_PendingOutputEvents staged r1);;
   _ ← flushPendingFlowSessionOutputEventsLocked (set_FS_PendingOutputEvents staged r1); mret RDone) d = (d', res) →
  refines op r evs d' res.
Proof.
  intros Hld Hok Hp Hg Hlast Hbound Ht Hne Hseq Hstep H.
  apply bind_inv in H as [([]&d2&H1&H)|(e&H1&->)]; destruct (save_spec _ _ _ _ H1) as (He&[[Hf Hs]|[Hr Hs]]).
  - by destruct Hf.
  - set (s := encoded_record (set_FS_PendingOutputEvents staged r1)) in *.
    assert (set_FS_PendingOutputEvents [] s = encoded_record r1) as Hs0 by (unfold s, encoded_record; cbn; by rewrite Hp).
    assert (record_ok s) as Hsok by (destruct Hok; by constructor).
    assert (first_generation (encoded_record r1) = encoded_record r1) as Hfg by by apply first_generation_id.
    assert (encoded_record (set_FS_PendingOutputEvents [] (set_FS_PendingOutputEvents staged r1)) =
            first_generation (set_FS_PendingOutputEvents [] s)) as Hrec.
    { rewrite Hs0, Hfg. unfold encoded_record. cbn. by rewrite Hp. }
    destruct Hld as [Hsum Hrok Hrg Hrp Hc Hn Hlen].
    assert (numbered (evs ++ (journaled <$> [] ++ staged))) as Hnum by by eapply numbered_staged.
    assert (settled (events_file d2) (evs ++ (journaled <$> []))) as Hset
      by (rewrite He; cbn; rewrite app_nil_r; by apply clean_settled).
    assert (Z.of_nat (length evs + length ([] ++ staged)) = FS_LastSequence s) as Hls
      by (change (FS_LastSequence s) with (FS_LastSequence r1); cbn; lia).
    assert (FS_PendingOutputEvents (set_FS_PendingOutputEvents staged r1) = [] ++ staged) as Hp1 by done.
    assert (FS_PendingOutputEvents s = encoded_event <$> ([] ++ staged)) as Hp2 by done.
    assert (∀ res1 (d3 : session_dir W), (flushPendingFlowSessionOutputEventsLocked (set_FS_PendingOutputEvents staged r1) : P _) d2 = (d3, res1) →
      stands d3 (encoded_record r1) (evs ++ (journaled <$> staged)) ∧ (faulty res1 ∨ is_ok res1 = true)) as Hflush.
    { intros res1 d3 H3. rewrite <- Hfg, <- Hs0.
      destruct (flush_spec _ _ s evs [] staged _ _ _ _ Hs Hsok Hbound Ht Hp1 Hne (or_introl Hp2) Hset Hnum Hls Hrec H3)
        as [Hst [Hf|[-> _]]]; (split; [exact Hst|]); [by left|by right]. }
    apply bind_inv in H as [(r3&d3&H3&[= <- <-])|(e&H3&->)]; destruct (Hflush _ _ H3) as [Hst [[m Hf]|Hf]]; simplify_eq/=.
    + by eapply refines_reply.
    + left. split; [by eexists|right]. exists t1, t2. do 3 eexists. by split.
  - apply refines_fault; [by destruct Hf as [m [= ->]]; eexists|].
    eapply stands_files; [exact Hs|by rewrite He|by apply loaded_stands].
  - done.
Qed.

(** The clock is read and the outputs are staged. *)
Lemma stage_inv rec outputs d d' (res : result session_error flowSessionRecord) :
  is_nil outputs = false → stageFlowSessionOutputEvents rec outputs d = (d', res) →
  ∃ t d1, read_clock d = (d1, Ok t) ∧ d' = d1 ∧
    res = match stage_events rec outputs 0 t with Ok (rec', pending) => Ok (set_FS_PendingOutputEvents pending rec') | Err e => Err e end.
Proof.
  unfold stageFlowSessionOutputEvents. intros -> [(t&d1&H1&H2)|(e&H1&_)]%bind_inv.
  - exists t, d1. destruct (stage_events rec outputs 0 t) as [[r1 pending]|e]; injection H2 as <- <-; by split_and!.
  - destruct (clock_spec _ _ _ H1) as (?&?&?&?). done.
Qed.

Definition commit_staged (rec : flowSessionRecord) : P unit :=
  save_summary rec;; _ ← flushPendingFlowSessionOutputEventsLocked rec; mret tt.

Lemma commit_staged_reply (rec : flowSessionRecord) d d' (res : result session_error unit) :
  commit_staged rec d = (d', res) →
  (save_summary rec;; _ ← flushPendingFlowSessionOutputEventsLocked rec; mret RDone) d =
    (d', match res with Ok _ => Ok RDone | Err e => Err e end).
Proof.
  intros [([]&d5&H5&H)|(e&H5&->)]%bind_inv; [|by rewrite (bind_err _ _ _ _ _ H5)].
  rewrite (bind_ok _ _ _ _ _ H5).
  apply bind_inv in H as [(r5&d6&H6&[= <- <-])|(e&H6&->)]; [by rewrite (bind_ok _ _ _ _ _ H6)|by rewrite (bind_err _ _ _ _ _ H6)].
Qed.

(** A record for the next event, of the session of [r]. *)
Record continues (r rec : flowSessionRecord) : Prop := {
  co_last : FS_LastSequence rec = FS_LastSequence r;
  co_processed : (0 <= FS_ProcessedSequence rec <= FS_LastSequence r)%Z;
  co_pending : FS_PendingOutputEvents rec = [];
  co_session : FS_SessionID rec = FS_SessionID r;
  co_flow : FS_FlowID rec = FS_FlowID r;
  co_version : FS_Version rec = FS_Version r;
  co_digest : FS_Digest rec = FS_Digest r;
  co_state : (FS_StateVersion rec = FS_StateVersion r + 1)%Z;
  co_generation : (0 < FS_ExecutionGeneration rec)%Z;
}.

Lemma staged_facts r rec r2 staged outputs t :
  record_ok r → young_record r → continues r rec → is_nil outputs = false →
  Forall (λ o, is_text (Out_CorrelationID o)) outputs → stage_events rec outputs 0 t = Ok (r2, staged) →
  record_ok (encoded_record r2) ∧ FS_PendingOutputEvents r2 = [] ∧ (0 < FS_ExecutionGeneration r2)%Z ∧
  FS_LastSequence r2 = (FS_LastSequence r + Z.of_nat (length staged))%Z ∧ (FS_LastSequence r2 < 2 ^ 64)%Z ∧
  Forall text_event staged ∧ staged ≠ [] ∧
  ∀ i e, staged !! i = Some e → Ev_Sequence e = (FS_LastSequence r + Z.of_nat i + 1)%Z.
Proof.
  intros Hok [Hyv _] [E1 E2 E3 E4 E5 E6 E7 E8 E9] Hnil Htx Hstage.
  pose proof (ok_version _ _ _ Hok) as Hver. pose proof (ok_sequences _ _ _ Hok) as Hsq.
  assert (texts rec) as Htexts by (unfold texts; rewrite E4, E5, E6, E7; destruct Hok as [-> -> ? _ _ _ _]; done).
  assert (maxFlowSessionOutputBatchBytes <= 2 ^ 16)%Z as Hmax by (by vm_compute).
  assert (0 <= 0 <= maxFlowSessionOutputBatchBytes)%Z as H0 by (split; by vm_compute).
  destruct (stage_spec _ _ _ _ _ _ Htx Htexts H0 ltac:(rewrite E1, E8; lia) ltac:(rewrite E8; lia) Hstage)
    as (Hn&->&Hts&Hlen&Hseq).
  generalize dependent maxFlowSessionOutputBatchBytes. intros m Hmax _ Hn. rewrite E1 in Hseq.
  assert (staged ≠ []) as Hne by (intros ->; by destruct outputs). clear Hstage Htx Hnil Hlen.
  split_and!; [|exact E3|exact E9|cbn; by rewrite E1|cbn; lia|done|done|done].
  apply (encoded_ok r); try done; cbn; lia.
Qed.

Lemma outputs_refines op r rec evs outputs d d' (res : result session_error unit) t :
  loaded d r evs → young_record r → continues r rec → is_nil outputs = false →
  Forall (λ o, is_text (Out_CorrelationID o)) outputs →
  (∀ t2, step op t t2 r = '(r', staged) ← stage_events rec outputs 0 t2; becomes (encoded_record r') (journaled <$> staged) RDone) →
  (rec ← stageFlowSessionOutputEvents rec outputs; commit_staged rec) d = (d', res) →
  refines op r evs d' (match res with Ok _ => Ok RDone | Err e => Err e end).
Proof.
  intros Hld Hyr Hco Hnil Htx Hstep H. pose proof (loaded_ok _ _ _ _ _ Hld) as Hok.
  apply bind_inv in H as [(r1&d3&H3&H)|(e&H3&->)]; apply (stage_inv _ _ _ _ _ Hnil) in H3 as (t2&d4&Ht2&->&H3);
    destruct (clock_spec _ _ _ Ht2) as (_&_&_&He4&Hs4); specialize (Hstep t2);
    (assert (loaded d4 r evs) as Hld4 by (destruct Hld; constructor; try done; congruence));
    destruct (stage_events rec outputs 0 t2) as [[r2 staged]|e1] eqn:Hstage.
  2, 3: discriminate H3.
  - injection H3 as ->. apply commit_staged_reply in H.
    destruct (staged_facts r rec r2 staged outputs t2 Hok Hyr Hco Hnil Htx Hstage) as (Hrec&Hp&Hg&Hlast&Hb&Hts&Hne&Hseq).
    by apply (staged_refines op r r2 staged evs d4 d' _ t t2 Hld4 Hrec Hp Hg Hlast Hb Hts Hne Hseq Hstep).
  - injection H3 as <-. eapply refines_error; [exact Hstep|apply same_error_refl|by apply loaded_stands].
Qed.

Lemma commit_refines n g type wr d d' r evs res :
  young d → stands d r evs → plain_op (OpCommit n g type wr) → perform (OpCommit n g type wr) d = (d', res) →
  refines (OpCommit n g type wr) r evs d' res.
Proof.
  intros Hy Hst Htx H. cbn [perform] in H. apply (reply_inv _ (λ _, RDone)) in H as (res0&H&->).
  unfold commitFlowSessionProgress in H.
  apply (after_load _ _ Hdir _ _ _ _ _ _ Hy Hst) in H as [[Hf Hst']|(d1&Hld&Hyr&H)].
  { apply refines_fault; [by apply (faulty_reply (λ _, RDone))|done]. }
  pose proof (loaded_stands _ _ _ _ _ Hld) as Hst1. pose proof (loaded_ok _ _ _ _ _ Hld) as Hok.
  pose proof Hyr as [Hyv Hyg]. pose proof (ok_sequences _ _ _ Hok) as Hsq. pose proof (ok_version _ _ _ Hok) as Hver.
  pose proof (loaded_generation _ _ _ _ _ Hld) as Hg. rewrite wrapu64_small in H by lia.
  apply due_cases in H as [(e&e'&Hdue&->&->&He)|[Hdue H]].
  { eapply (refines_error _ _ _ _ _ _ 0%Z 0%Z); [|exact He|done]. cbn [step]. by rewrite Hdue. }
  pose proof Hdue as (<-&Hact&->&Hle)%due_None.
  apply (clock_loaded _ _ _ _ _ _ Hld) in H as (t&d2&Ht&Hld2&H).
  remember (progressed r (FS_ProcessedSequence r + 1) type wr t) as rec eqn:Hrec.
  assert (FS_LastSequence rec = FS_LastSequence r ∧ FS_ProcessedSequence rec = FS_ProcessedSequence r + 1 ∧
    FS_PendingOutputEvents rec = [] ∧ FS_SessionID rec = FS_SessionID r ∧ FS_FlowID rec = FS_FlowID r ∧
    FS_Version rec = FS_Version r ∧ FS_Digest rec = FS_Digest r ∧
    FS_StateVersion rec = wrapu64 (FS_StateVersion r + 1) ∧ FS_ExecutionGeneration rec = wrapu64 (FS_ExecutionGeneration r + 1))%Z
    as (E1&E2&E3&E4&E5&E6&E7&E8&E9).
  { subst rec. unfold progressed, with_state. pose proof (loaded_pending _ _ _ _ _ Hld). destruct (WR_State wr); by split_and!. }
  rewrite wrapu64_small in E8, E9 by lia.
  set (op := OpCommit _ _ _ _).
  assert (∀ t2, step op t t2 r = '(r', staged) ← staged_outputs rec (WR_Outputs wr) t2; becomes (encoded_record r') (journaled <$> staged) RDone) as Hstep.
  { intros t2. unfold op. cbn [step]. by rewrite Hdue, Hrec. }
  clearbody op. clear Hrec. unfold stageFlowSessionOutputEvents in H. unfold staged_outputs in Hstep.
  destruct (is_nil (WR_Outputs wr)) eqn:Hnil.
  - eapply (save_refines _ r rec evs d2 d' _ RDone t 0%Z Hld2); try done; [apply (encoded_ok r); try done; lia|lia|].
    apply bind_inv in H as [(r1&d3&[= <- <-]&H)|(?&?&?)]; [|done].
    apply bind_inv in H as [([]&d4&H4&H)|(e&H4&->)]; [|by rewrite (bind_err _ _ _ _ _ H4)].
    unfold flushPendingFlowSessionOutputEventsLocked in H. rewrite E3 in H. injection H as <- <-.
    by rewrite (bind_ok _ _ _ _ _ H4).
  - eapply (outputs_refines op r rec evs (WR_Outputs wr) d2 d' res0 t Hld2); try done; [by constructor; try done; lia|].
    unfold stageFlowSessionOutputEvents, commit_staged. by rewrite Hnil.
Qed.

Lemma perform_refines op d d' r evs res :
  young d → stands d r evs → plain_op op → perform op d = (d', res) → refines op r evs d' res.
Proof.
  intros Hy Hst Hop. destruct op.
  - by apply load_refines.
  - by apply transition_refines.
  - by apply append_refines.
  - by apply checkpoint_refines.
  - by apply cancel_refines.
  - by apply commit_refines.
  - by apply signal_refines.
Qed.

End Refine.
