(* ===== verification/SessionHistory.v ===== *)
(** * Flow sessions: histories

    What holds over any sequence of operations on the directory of a session,
    with any faults in between: the calls are those of an abstract session, work
    is committed in order and once, an acknowledged event stays, a session that
    has ended stays as it is. *)
From S2P Require Import Prelude GoStrings GoRunes GoPath JSON FlowModel WorkflowTypes SessionTypes SessionJournal SessionStore SessionSpec SessionReads SessionRefine.
From Stdlib Require Import Ascii ZArith Lia Sorted.

Section History.
Context {L : SessionLib} {X : SessionLaws} {W : Type} {V : Storage W} (flowID sessionID : string).
Context (Hdir : flowSessionDir flowID sessionID = None).

Abbreviation stands := (stands flowID sessionID).
Abbreviation perform := (perform flowID sessionID).
Abbreviation answer := (result session_error reply).

(** The operations of a process, one after the other, on a directory whose
    counters are not about to wrap. *)
Inductive runs : session_dir W → list operation → list answer → session_dir W → Prop :=
| runs_nil d : runs d [] [] d
| runs_cons d op d1 res ops rs d' :
    young d → plain_op op → perform op d = (d1, res) → runs d1 ops rs d' → runs d (op :: ops) (res :: rs) d'.

(** One call, seen from outside: it is done, it is refused, or it is a fault
    before or after it is done. *)
Inductive call (op : operation) : answer → flowSessionRecord → list FlowSessionEvent → flowSessionRecord → list FlowSessionEvent → Prop :=
| call_done t1 t2 r evs r' new rep : step op t1 t2 r = Ok (r', new, rep) → call op (Ok rep) r evs r' (evs ++ new)
| call_refused t1 t2 r evs e e' : step op t1 t2 r = Err e → same_error e e' → call op (Err e') r evs r evs
| call_lost m r evs : call op (Err (Fault m)) r evs r evs
| call_unacknowledged t1 t2 m r evs r' new rep :
    step op t1 t2 r = Ok (r', new, rep) → call op (Err (Fault m)) r evs r' (evs ++ new).

Inductive calls : list operation → list answer → flowSessionRecord → list FlowSessionEvent →
    flowSessionRecord → list FlowSessionEvent → Prop :=
| calls_nil r evs : calls [] [] r evs r evs
| calls_cons op ops res rs r evs r1 evs1 r' evs' :
    call op res r evs r1 evs1 → calls ops rs r1 evs1 r' evs' → calls (op :: ops) (res :: rs) r evs r' evs'.

Lemma perform_call op d d' r evs res :
  young d → stands d r evs → plain_op op → perform op d = (d', res) →
  ∃ r' evs', stands d' r' evs' ∧ call op res r evs r' evs'.
Proof.
  intros Hy Hst Hop H. destruct (perform_refines _ _ Hdir _ _ _ _ _ _ Hy Hst Hop H)
    as [[[m ->] [Hst'|(t1&t2&r'&new&rep&Hs&Hst')]]|(t1&t2&Hs)].
  - exists r, evs. split; [done|constructor].
  - exists r', (evs ++ new). split; [done|]. by eapply call_unacknowledged.
  - destruct (step op t1 t2 r) as [[[r' new] rep]|e] eqn:Hstep.
    + destruct Hs as [-> Hst']. exists r', (evs ++ new). split; [done|]. by eapply call_done.
    + destruct Hs as [(e'&->&He) Hst']. exists r, evs. split; [done|]. by eapply call_refused.
Qed.

Lemma runs_calls d ops rs d' r evs :
  runs d ops rs d' → stands d r evs → ∃ r' evs', stands d' r' evs' ∧ calls ops rs r evs r' evs'.
Proof.
  intros H. revert r evs. induction H as [d|d op d1 res ops rs d' Hy Hop Hp _ IH]; intros r evs Hst.
  { exists r, evs. split; [done|constructor]. }
  destruct (perform_call _ _ _ _ _ _ Hy Hst Hop Hp) as (r1&evs1&Hst1&Hc).
  destruct (IH _ _ Hst1) as (r'&evs'&Hst'&Hcs). exists r', evs'. split; [done|by econstructor].
Qed.

(** ** What a directory stands for is well formed *)

Lemma stands_ok (d : session_dir W) r evs : young d → stands d r evs →
  record_ok flowID sessionID r ∧ young_record r ∧ (0 < FS_ExecutionGeneration r)%Z ∧
  FS_LastSequence r = Z.of_nat (length evs) ∧ numbered evs.
Proof.
  intros Hy Hst. pose proof (stands_young _ _ _ _ _ Hy Hst) as Hyr. split_and!; [|done|..];
  destruct Hst as [s evs Hs Hok Hp Hset Hn Hl|s evs e Hs Hok Hp Hset Hn Hl Ht Hv|s evs staged rest Hs Hok Hp Ht Hset Hn Hl];
    try (assert (Ev_Sequence e = (FS_LastSequence s + 1)%Z) as Hseq;
      [rewrite (Hn (length evs) e); [lia|by rewrite lookup_app_r, Nat.sub_diag]|
       destruct (caught_up_ok _ _ s e Hok Hp (young_summary _ _ Hy Hs) Hseq Hv) as (Hok'&_&Hl'&Hg'&_&_)]);
    try (assert (record_ok flowID sessionID (set_FS_PendingOutputEvents [] s)) as Hok' by (destruct Hok; by constructor)); try done.
  - by apply first_generation_ok.
  - by apply first_generation_ok.
  - by eapply first_generation_pos.
  - by eapply first_generation_pos.
  - by rewrite first_generation_last.
  - rewrite Hl', length_app. cbn. lia.
  - rewrite first_generation_last, length_app, length_fmap. cbn. lia.
Qed.

(** ** Steps *)

(** What every step leaves in order. *)
Lemma transition_ends status target type :
  transition_event status target = Ok type → status = "active" ∨ status = "paused".
Proof. unfold transition_event. repeat case_bool_decide; subst; naive_solver. Qed.

Lemma staged_counters r outputs t r' staged :
  staged_outputs r outputs t = Ok (r', staged) →
  FS_ProcessedSequence r' = FS_ProcessedSequence r ∧ FS_ExecutionGeneration r' = FS_ExecutionGeneration r.
Proof.
  unfold staged_outputs. destruct (is_nil outputs); [by intros [= <- _]|].
  generalize 0%Z as total. revert r r' staged. induction outputs as [|o outputs IH]; intros r r' staged total; cbn [stage_events].
  { by intros [= <- _]. }
  destruct (marshal_output o); [|done]. destruct (orb _ _); [done|].
  intros ([r2 rest]&[H1 H2]%IH&[= <- _])%result_bind_Ok. by rewrite H1, H2.
Qed.

Lemma step_monotone op t1 t2 r r' new rep :
  record_ok flowID sessionID r → young_record r → step op t1 t2 r = Ok (r', new, rep) →
  (FS_ProcessedSequence r <= FS_ProcessedSequence r')%Z ∧ (FS_ExecutionGeneration r <= FS_ExecutionGeneration r')%Z.
Proof.
  intros [_ _ _ Hsq Hver Hgen _] [Hyv Hyg] Hs.
  assert (wrapu64 (FS_ExecutionGeneration r + 1) = FS_ExecutionGeneration r + 1)%Z as Hw by (apply wrapu64_small; lia).
  assert (wrapu64 (FS_LastSequence r + 1) = FS_LastSequence r + 1)%Z as Hw2 by (apply wrapu64_small; lia).
  destruct op; cbn [step] in Hs.
  - injection Hs as <- _ _. lia.
  - case_bool_decide; [injection Hs as <- _ _; lia|]. apply result_bind_Ok in Hs as (type&_&Hs).
    injection Hs as <- _ _. unfold transitioned, lifecycle_event. case_match; cbn; rewrite Hw, ?Hw2; lia.
  - apply result_bind_Ok in Hs as ([m|]&_&Hs); injection Hs as <- _ _; [lia|]. unfold appended. case_match; cbn; lia.
  - destruct (due r sequence generation) eqn:Hd; [done|]. apply due_None in Hd. injection Hs as <- _ _. cbn. rewrite Hw. lia.
  - destruct (due r sequence generation) eqn:Hd; [injection Hs as <- _ _; lia|].
    apply due_None in Hd. injection Hs as <- _ _. cbn. rewrite Hw. lia.
  - destruct (due r sequence generation) eqn:Hd; [done|]. apply due_None in Hd.
    apply result_bind_Ok in Hs as ([r2 staged]&Hst&Hs). injection Hs as <- _ _.
    apply staged_counters in Hst as [Hp Hg]. cbn. rewrite Hp, Hg. unfold progressed, with_state.
    destruct (WR_State res); cbn; rewrite Hw; lia.
  - repeat (case_match; try done). apply result_bind_Ok in Hs as (latest&_&Hs). injection Hs as <- _ _.
    cbn. unfold signaled, with_state. destruct (WR_State res); cbn; rewrite Hw; lia.
Qed.

Lemma call_appends op res r evs r' evs' : call op res r evs r' evs' → ∃ new, evs' = evs ++ new.
Proof. intros []; try (exists []; by rewrite app_nil_r); by eexists. Qed.

Lemma calls_append ops rs r evs r' evs' : calls ops rs r evs r' evs' → ∃ new, evs' = evs ++ new.
Proof.
  intros H. induction H as [|? ? ? ? ? ? ? ? ? ? Hc _ [new ->]]; [exists []; by rewrite app_nil_r|].
  destruct (call_appends _ _ _ _ _ _ Hc) as [new' ->]. exists (new' ++ new). by rewrite app_assoc.
Qed.

Lemma call_monotone op res r evs r' evs' :
  record_ok flowID sessionID r → young_record r → call op res r evs r' evs' →
  (FS_ProcessedSequence r <= FS_ProcessedSequence r')%Z ∧ (FS_ExecutionGeneration r <= FS_ExecutionGeneration r')%Z.
Proof. intros Hok Hy Hc. inversion Hc; subst; try lia; by eapply step_monotone. Qed.

(** ** Sessions that have ended *)

Definition ended (r : flowSessionRecord) : Prop := FS_Status r = "completed" ∨ FS_Status r = "canceled".

Lemma ended_step op t1 t2 r r' new rep :
  ended r → step op t1 t2 r = Ok (r', new, rep) → r' = r ∧ new = [].
Proof.
  intros He. assert (FS_Status r ≠ "active" ∧ FS_Status r ≠ "paused") as [Hna Hnp] by (by split; destruct He as [-> | ->]).
  assert (∀ n g, due r n g ≠ None) as Hdue by (intros n g H%due_None; tauto).
  destruct op; cbn [step].
  - by intros [= <- <- _].
  - case_bool_decide; [by intros [= <- <- _]|]. intros (type&Ht&_)%result_bind_Ok. by apply transition_ends in Ht as [].
  - intros ([n|]&Hadm&H)%result_bind_Ok; [by injection H as <- <- _|]. exfalso. unfold admit_event in Hadm.
    repeat (case_match; try done). all: by case_bool_decide.
  - by destruct (due r _ _) eqn:Hd; [|destruct (Hdue _ _ Hd)].
  - destruct (due r _ _) eqn:Hd; [by intros [= <- <- _]|destruct (Hdue _ _ Hd)].
  - by destruct (due r _ _) eqn:Hd; [|destruct (Hdue _ _ Hd)].
  - by rewrite bool_decide_false by done.
Qed.

(** C9: A session that has ended stays as it is. From a directory that stands
    for a completed or canceled session, whatever operations are called and
    whatever faults there are, the directory stands for the same record and the
    same journal. *)
Theorem ended_stays d ops rs d' r evs :
  stands d r evs → ended r → runs d ops rs d' → stands d' r evs.
Proof.
  intros Hst He Hr. destruct (runs_calls _ _ _ _ _ _ Hr Hst) as (r'&evs'&Hst'&Hc).
  assert (r' = r ∧ evs' = evs) as [-> ->]; [|done]. clear Hst Hst' Hr.
  induction Hc as [|op ops res rs r evs r1 evs1 r' evs' Hc _ IH]; [done|].
  assert (r1 = r ∧ evs1 = evs) as [-> ->]; [|by apply IH].
  inversion Hc as [? ? ? ? ? ? ? Hs| | |? ? ? ? ? ? ? ? Hs]; subst; try done;
    destruct (ended_step _ _ _ _ _ _ _ He Hs) as [-> ->]; by rewrite app_nil_r.
Qed.

(** ** Work *)

(** The event that a call has acknowledged as processed, and the generation of
    the worker. *)
Definition processed_by (op : operation) (res : answer) : option (Z * Z) :=
  match op, res with
  | OpCheckpoint n g, Ok RDone | OpCancel n g _ _, Ok (RCanceled true) | OpCommit n g _ _, Ok RDone => Some (n, g)
  | _, _ => None
  end.

Definition processed (ops : list operation) (rs : list answer) : list (Z * Z) :=
  omap (λ '(op, res), processed_by op res) (zip ops rs).

Definition before (p q : Z * Z) : Prop := (p.1 < q.1)%Z ∧ (p.2 < q.2)%Z.

Lemma processed_step op t1 t2 r r' new rep n g :
  record_ok flowID sessionID r → young_record r → step op t1 t2 r = Ok (r', new, rep) → processed_by op (Ok rep) = Some (n, g) →
  n = (FS_ProcessedSequence r + 1)%Z ∧ g = FS_ExecutionGeneration r ∧
  FS_ProcessedSequence r' = n ∧ FS_ExecutionGeneration r' = (g + 1)%Z.
Proof.
  intros [_ _ _ Hsq Hver Hgen _] [Hyv Hyg] Hs Hp.
  assert (wrapu64 (FS_ExecutionGeneration r + 1) = FS_ExecutionGeneration r + 1)%Z as Hw by (apply wrapu64_small; lia).
  destruct op; try done; cbn [step] in Hs; destruct (due r _ _) eqn:Hd; try done; try (by injection Hs as <- <- <-);
    try (apply due_None in Hd as (<-&_&->&_)).
  - injection Hs as <- <- <-. injection Hp as <- <-. by rewrite <- Hw.
  - injection Hs as <- <- <-. injection Hp as <- <-. by rewrite <- Hw.
  - apply result_bind_Ok in Hs as ([r2 staged]&Hst&Hs). injection Hs as <- <- <-. injection Hp as <- <-.
    apply staged_counters in Hst as [Hp Hg]. cbn. rewrite Hp, Hg, <- Hw. unfold progressed, with_state. by destruct (WR_State res).
Qed.

(** C8: Work is done in order and once. Among the calls that acknowledge an
    event as processed, with its result, without one, or skipped, each has a
    greater sequence and a greater generation than the one before it, however
    many workers call, in whatever order, with results however late, and
    whatever faults and restarts there are in between: no event is processed
    twice, and no worker of an old generation is heard. *)
Theorem work_in_order d ops rs d' r evs :
  stands d r evs → runs d ops rs d' → StronglySorted before (processed ops rs).
Proof.
  intros Hst Hr. apply (proj1 (B := Forall (λ p, FS_ProcessedSequence r < p.1 ∧ FS_ExecutionGeneration r <= p.2)%Z (processed ops rs))).
  revert r evs Hst. induction Hr as [d|d op d1 res ops rs d' Hy Hop Hp Hr IH]; intros r evs Hst; [by split; constructor|].
  destruct (stands_ok _ _ _ Hy Hst) as (Hok&Hyr&_).
  destruct (perform_call _ _ _ _ _ _ Hy Hst Hop Hp) as (r1&evs1&Hst1&Hc).
  destruct (call_monotone _ _ _ _ _ _ Hok Hyr Hc) as [Hm1 Hm2]. destruct (IH _ _ Hst1) as [Hs Hall].
  assert (Forall (λ p, FS_ProcessedSequence r < p.1 ∧ FS_ExecutionGeneration r <= p.2)%Z (processed ops rs)) as Hall'
    by (eapply Forall_impl; [exact Hall|intros p; cbn; lia]).
  unfold processed. cbn [zip zip_with omap list_omap]. fold (processed ops rs).
  destruct (processed_by op res) as [[n g]|] eqn:Hn; [|done].
  assert (∃ t1 t2 new rep, step op t1 t2 r = Ok (r1, new, rep) ∧ res = Ok rep) as (t1&t2&new&rep&Hstep&->).
  { inversion Hc; subst; try (by destruct op). by do 4 eexists. }
  destruct (processed_step _ _ _ _ _ _ _ _ _ Hok Hyr Hstep Hn) as (->&->&E1&E2). split.
  - constructor; [done|]. eapply Forall_impl; [exact Hall|]. intros p. unfold before. cbn. lia.
  - constructor; [cbn; lia|done].
Qed.

(** ** Events *)

(** The event that an input becomes. *)
Definition event_of (input : FlowSessionEventInput) (n : Z) (e : FlowSessionEvent) : Prop :=
  Ev_Sequence e = n ∧ Ev_Source e = In_Source input ∧ Ev_SourceSequence e = In_SourceSequence input ∧
  Ev_Type e = In_Type input ∧ Ev_CorrelationID e = In_CorrelationID input ∧ Ev_OccurredAt e = In_OccurredAt input ∧
  Ev_Payload e = In_Payload input.

Lemma input_event_of r input t :
  record_ok flowID sessionID r → young_record r → Compact (In_Payload input) = In_Payload input →
  event_of input (FS_LastSequence r + 1) (journaled (input_event r input t)).
Proof. intros [] [] Hc. unfold event_of. cbn. rewrite wrapu64_small by lia. by rewrite Hc. Qed.

(** An event with a sequence of its source is known once it is in. *)
Lemma admit_again r input t :
  (0 < In_SourceSequence input)%Z → record_ok flowID sessionID r → young_record r →
  admit_event (appended r input (input_event r input t) t) input = Ok (Some (FS_LastSequence r + 1)%Z).
Proof.
  intros Hpos [] []. unfold appended. apply Z.ltb_lt in Hpos. rewrite Hpos. unfold admit_event. cbn.
  rewrite lookup_insert_eq, Hpos, Z.eqb_refl, bool_decide_true by done. cbn. by rewrite wrapu64_small by lia.
Qed.

(** What calls of [OpAppend] do. *)
Lemma append_call input res r evs r' evs' :
  call (OpAppend input) res r evs r' evs' →
  (r' = r ∧ evs' = evs ∧ (∀ n dup, res = Ok (RSequence n dup) → dup = true ∧ admit_event r input = Ok (Some n))) ∨
  (admit_event r input = Ok None ∧ (∀ n dup, res = Ok (RSequence n dup) → dup = false ∧ n = FS_LastSequence r + 1)%Z ∧
   ∃ t, r' = appended r input (input_event r input t) t ∧ evs' = evs ++ [journaled (input_event r input t)]).
Proof.
  intros Hc. inversion Hc as [? ? ? ? ? ? ? Hs|? ? ? ? ? ? Hs| |? ? ? ? ? ? ? ? Hs]; subst; try (by left); cbn [step] in Hs.
  all: apply result_bind_Ok in Hs as ([known|]&Hadm&Hs); injection Hs as <- <- <-;
    [left; rewrite app_nil_r|right]; split_and!; try done; try (by eexists); by intros n dup [= <- <-].
Qed.

(** C7: An event is in the journal once, however often it is sent. If an event
    with a sequence of its source is new to the session, and is sent again and
    again, whatever faults there are, until a call answers, then the journal
    has the event once, right after those before, at the sequence that the
    answer names. *)
Theorem retry_once input d rs n dup d' r evs :
  stands d r evs → (0 < In_SourceSequence input)%Z → admit_event r input = Ok None →
  runs d (replicate (S (length rs)) (OpAppend input)) (rs ++ [Ok (RSequence n dup)]) d' →
  ∃ r' e, stands d' r' (evs ++ [e]) ∧ n = (FS_LastSequence r + 1)%Z ∧ event_of input n e.
Proof.
  intros Hst Hpos Hadm Hr. assert (plain_op (OpAppend input) ∧ young d) as [(_&_&_&Hc&_) Hy] by (by inversion Hr).
  destruct (stands_ok _ _ _ Hy Hst) as (Hok&Hyr&_). destruct (runs_calls _ _ _ _ _ _ Hr Hst) as (r'&evs'&Hst'&Hcalls).
  assert (∃ t, r' = appended r input (input_event r input t) t ∧ evs' = evs ++ [journaled (input_event r input t)] ∧
    n = (FS_LastSequence r + 1)%Z) as (t&->&->&->); [|by do 2 eexists; split; [exact Hst'|split; [done|by apply input_event_of]]].
  clear Hr Hst Hst' Hy.
  assert (∀ t rs n dup r1 evs1 r' evs', calls (replicate (S (length rs)) (OpAppend input)) (rs ++ [Ok (RSequence n dup)]) r1 evs1 r' evs' →
    r1 = appended r input (input_event r input t) t → r' = r1 ∧ evs' = evs1 ∧ n = (FS_LastSequence r + 1)%Z) as Hagain.
  { intros t. clear -Hpos Hok Hyr. induction rs as [|res rs IH]; intros n dup r1 evs1 r' evs' Hcs Hr1;
      inversion Hcs as [|? ? ? ? ? ? r2 evs2 ? ? Hcall Hcs']; subst;
      pose proof (admit_again r input t Hpos Hok Hyr) as Hknown;
      destruct (append_call _ _ _ _ _ _ Hcall) as [(->&->&Hrep)|(Hnew&_)]; try congruence.
    - inversion Hcs'; subst. destruct (Hrep n dup eq_refl) as [_ Hn]. split_and!; congruence.
    - by eapply IH. }
  revert n dup r' evs' Hcalls. induction rs as [|res rs IH]; intros n dup r' evs' Hcs;
    inversion Hcs as [|? ? ? ? ? ? r2 evs2 ? ? Hcall Hcs']; subst;
    destruct (append_call _ _ _ _ _ _ Hcall) as [(->&->&Hrep)|(_&Hrep&t&->&->)].
  - destruct (Hrep n dup eq_refl). congruence.
  - inversion Hcs'; subst. destruct (Hrep n dup eq_refl) as [_ ->]. by exists t.
  - by eapply IH.
  - destruct (Hagain t rs n dup _ _ _ _ Hcs' eq_refl) as (->&->&->). by exists t.
Qed.

(** C6: An acknowledged event stays. Once an append has answered with a new
    sequence, then after any further operations and any faults, reading the
    journal from just before that sequence returns that very event, unless
    the read itself meets a fault. *)
Theorem acknowledged_events_stay input ops n rs d d' d2 r evs res :
  stands d r evs → runs d (OpAppend input :: ops) (Ok (RSequence n false) :: rs) d' → young d' →
  flowSessionEvents flowID sessionID (n - 1) 1 d' = (d2, res) →
  faulty res ∨ ∃ e, res = Ok [e] ∧ event_of input n e.
Proof.
  intros Hst Hr Hy' Hread. destruct (runs_calls _ _ _ _ _ _ Hr Hst) as (r'&evs'&Hst'&Hcs).
  assert (plain_op (OpAppend input) ∧ young d) as [(_&_&_&Hc&_) Hy] by (by inversion Hr).
  destruct (stands_ok _ _ _ Hy Hst) as (Hok&Hyr&_&Hlen&_). destruct (stands_ok _ _ _ Hy' Hst') as (_&_&_&_&Hn').
  inversion Hcs as [|? ? ? ? ? ? r1 evs1 ? ? Hcall Hrest]; subst.
  destruct (append_call _ _ _ _ _ _ Hcall) as [(_&_&Hrep)|(_&Hrep&t&->&->)]; destruct (Hrep n false eq_refl) as [Hd Hn]; [done|].
  destruct (calls_append _ _ _ _ _ _ Hrest) as [new ->].
  destruct (events_spec _ _ Hdir _ _ _ _ _ _ _ Hy' Hst' Hread) as [_ [?|Hres]]; [by left|right].
  rewrite filter_numbered in Hres by (done || lia).
  assert (Z.to_nat (n - 1) = length evs) as Hdrop by lia. rewrite Hdrop, <- app_assoc, drop_app_length in Hres.
  eexists. split; [exact Hres|]. rewrite Hn. by apply input_event_of.
Qed.

(** ** Sessions from their creation on *)

Lemma create_spec version digest inputs t (d d' : session_dir W) :
  is_text sessionID → is_text flowID → is_text version → is_text digest → events_file d = None →
  createFlowSession flowID sessionID (new_session flowID sessionID version digest inputs t) d = (d', Ok tt) →
  stands d' (encoded_record (new_session flowID sessionID version digest inputs t)) [].
Proof.
  intros H1 H2 H3 H4 He H. set (rec := new_session _ _ _ _ _ _) in *. unfold createFlowSession in H. rewrite Hdir in H.
  apply bind_inv in H as [([]&d1&[= <-]&H)|(?&?&?)]; [|done].
  apply bind_inv in H as [([]&d2&Hio&H)|(?&?&?)]; [|done]. destruct (looks_io _ _ _ _ Hio) as (He2&_&_).
  apply bind_inv in H as [(s&d3&[= <- <-]&H)|(?&?&?)]; [|done]. destruct (summary_file d2); [done|].
  apply bind_inv in H as [([]&d4&Hio4&H)|(?&?&?)]; [|done]. destruct (looks_io _ _ _ _ Hio4) as (He4&_&_).
  destruct (save_spec _ _ _ _ H) as (He5&[[[m Hf] _]|[_ Hs]]); [done|].
  assert (record_ok flowID sessionID (encoded_record rec)) as Hok by (constructor; try done; apply encoded_record_encoded).
  rewrite <- (first_generation_id (encoded_record rec)) by done. apply stands_done; try done.
  apply clean_settled. exists []. rewrite He5, He4, He2, He. split; [done|]. split; [constructor|done].
Qed.


End History.
