(* ===== verification/SessionExamples.v ===== *)
(** * Flow sessions: a store to run

    A codec of events, and an operating system whose failures are given in
    advance, with which the theorems on sessions are put to work, and which show
    where the store does something else than it means to. *)
From S2P Require Import Prelude GoStrings GoRunes GoPath JSON FlowModel WorkflowTypes SessionTypes SessionJournal SessionStore SessionSpec SessionReads SessionRefine SessionHistory.
From Stdlib Require Import Ascii ZArith Lia Sorted.

(** ** A self-delimiting code *)

Class Code (A : Type) := {
  enc : A → list bool;
  dec : list bool → option (A * list bool);
  dec_enc a t : dec (enc a ++ t) = Some (a, t);
  dec_more s a t u : dec s = Some (a, t) → dec (s ++ u) = Some (a, t ++ u);
}.

Fixpoint enc_string (s : string) : list bool :=
  match s with
  | "" => [false]
  | String (Ascii a b c d e f g h) s => true :: a :: b :: c :: d :: e :: f :: g :: h :: enc_string s
  end.
Fixpoint dec_string (l : list bool) : option (string * list bool) :=
  match l with
  | false :: t => Some ("", t)
  | true :: a :: b :: c :: d :: e :: f :: g :: h :: t =>
      match dec_string t with Some (s, r) => Some (String (Ascii a b c d e f g h) s, r) | None => None end
  | _ => None
  end.

Lemma dec_string_more : ∀ l s t u, dec_string l = Some (s, t) → dec_string (l ++ u) = Some (s, t ++ u).
Proof.
  fix IH 1. intros [|[] l] s t u; [done| |by intros [= <- <-]].
  do 8 (destruct l as [|? l]; [done|]). cbn. destruct (dec_string l) as [[s' r]|] eqn:H; [|done].
  intros [= <- <-]. by rewrite (IH l _ _ u H).
Qed.

#[export, refine] Instance string_code : Code string := { enc := enc_string; dec := dec_string; dec_enc := _; dec_more := dec_string_more }.
Proof. intros s. induction s as [|[] s IH]; intros t; [done|]. cbn. by rewrite IH. Defined.

Fixpoint enc_pos (p : positive) : list bool :=
  match p with xH => [false] | xO p => true :: false :: enc_pos p | xI p => true :: true :: enc_pos p end.
Fixpoint dec_pos (l : list bool) : option (positive * list bool) :=
  match l with
  | false :: t => Some (xH, t)
  | true :: b :: t =>
      match dec_pos t with Some (p, r) => Some ((if b : bool then xI p else xO p), r) | None => None end
  | _ => None
  end.

Lemma dec_pos_more : ∀ l p t u, dec_pos l = Some (p, t) → dec_pos (l ++ u) = Some (p, t ++ u).
Proof.
  fix IH 1. intros [|[] l] p t u; [done| |by intros [= <- <-]].
  destruct l as [|b l]; [done|]. cbn. destruct (dec_pos l) as [[q r]|] eqn:H; [|done].
  intros [= <- <-]. by rewrite (IH l _ _ u H).
Qed.

#[export, refine] Instance pos_code : Code positive := { enc := enc_pos; dec := dec_pos; dec_enc := _; dec_more := dec_pos_more }.
Proof. intros p. induction p as [p IH|p IH|]; intros t; cbn; by rewrite ?IH. Defined.

#[export, refine] Instance prod_code {A B} `{Code A, Code B} : Code (A * B) := {
  enc p := enc p.1 ++ enc p.2;
  dec l := match dec l with
           | Some (a, t) => match dec t with Some (b, u) => Some ((a, b), u) | None => None end
           | None => None
           end;
  dec_enc := _;
  dec_more := _;
}.
Proof.
  - intros [a b] t. cbn. by rewrite <- app_assoc, !dec_enc.
  - intros s [a b] t u. cbn. destruct (dec s) as [[a' t']|] eqn:Ha; [|done].
    destruct (dec t') as [[b' u']|] eqn:Hb; [|done]. intros [= <- <- <-].
    by rewrite (dec_more _ _ _ u Ha), (dec_more _ _ _ u Hb).
Defined.

#[export, refine] Instance Z_code : Code Z := {
  enc z := match z with Z0 => [false] | Zpos p => true :: false :: enc p | Zneg p => true :: true :: enc p end;
  dec l := match l with
           | false :: t => Some (Z0, t)
           | true :: b :: t => match dec t with Some (p, r) => Some ((if b : bool then Zneg p else Zpos p), r) | None => None end
           | _ => None
           end;
  dec_enc := _;
  dec_more := _;
}.
Proof.
  - intros [|p|p] t; [done|..]; cbn; pose proof (dec_enc p t) as H; cbn in H; by rewrite H.
  - intros [|[] l] z t u; [done| |by intros [= <- <-]]. destruct l as [|b l]; [done|]. cbn.
    destruct (dec_pos l) as [[q r]|] eqn:H; [|done]. intros [= <- <-]. by rewrite (dec_pos_more _ _ _ u H).
Defined.

(** An event as a tuple. *)
Definition event_tuple (e : FlowSessionEvent) :=
  (Ev_SessionID e, (Ev_FlowID e, (Ev_Version e, (Ev_Digest e, (Ev_Source e, (Ev_SourceSequence e, (Ev_Sequence e,
   (Ev_StateVersion e, (Ev_Type e, (Ev_CorrelationID e, (Ev_OccurredAt e, (Ev_ReceivedAt e, Ev_Payload e)))))))))))).

(** ** Texts of bits *)

Fixpoint bits_text (l : list bool) : string :=
  match l with [] => "" | b :: l => String (if (b : bool) then "1" else "0")%char (bits_text l) end.
Fixpoint text_bits (s : string) : option (list bool) :=
  match s with
  | "" => Some []
  | String a s =>
      match text_bits s with
      | Some l => if bool_decide (a = "1"%char) then Some (true :: l) else if bool_decide (a = "0"%char) then Some (false :: l) else None
      | None => None
      end
  end.

Lemma text_bits_text l : text_bits (bits_text l) = Some l.
Proof. induction l as [|[] l IH]; cbn; by rewrite ?IH. Qed.

Lemma text_bits_app s t l : text_bits (s +:+ t) = Some l → ∃ l1 l2, l = l1 ++ l2 ∧ text_bits s = Some l1 ∧ text_bits t = Some l2.
Proof.
  revert l. induction s as [|a s IH]; intros l; [intros H; by exists [], l|]. rewrite app_cons_s. cbn.
  destruct (text_bits (s +:+ t)) as [l'|]; [|done]. destruct (IH _ eq_refl) as (l1&l2&->&->&Ht).
  repeat case_bool_decide; intros [= <-]; [by exists (true :: l1), l2|by exists (false :: l1), l2].
Qed.

Lemma text_bits_nil s : text_bits s = Some [] → s = "".
Proof. destruct s as [|a s]; [done|]. cbn. destruct (text_bits s); [|done]. by repeat case_bool_decide. Qed.

Lemma bits_text_part c l : c ≠ "0"%char → c ≠ "1"%char → part c (bits_text l).
Proof. intros H0 H1. induction l as [|[] l IH]; [done|..]; by apply part_cons. Qed.

#[export] Instance text_lib : SessionLib := {
  marshal_event e := Ok (bits_text (enc (event_tuple e)));
  unmarshal_event s :=
    match text_bits s with
    | Some l =>
        match dec l with
        | Some ((a, (b, (c, (d, (e, (f, (g, (h, (i, (j, (k, (m, n)))))))))))), []) => Ok (mkEvent a b c d e f g h i j k m n)
        | _ => Err "invalid"
        end
    | None => Err "invalid character"
    end;
  Compact p := p;
  Indent p := p;
  canonical_object p := Ok p;
  marshal_output o := Ok ("{" +:+ Out_NodeID o +:+ "}");
  marshal_snapshot s := Ok ("{" +:+ Sn_NodeID s +:+ "}");
  sha256_hex s := s;
  RFC3339Nano t := "";
}.

Lemma unmarshal_text e : unmarshal_event (bits_text (enc (event_tuple e))) = Ok e.
Proof.
  cbn [unmarshal_event text_lib]. rewrite text_bits_text.
  pose proof (dec_enc (event_tuple e) []) as H. rewrite app_nil_r in H. rewrite H. by destruct e.
Qed.

Lemma journaled_text e : journaled e = e.
Proof. by destruct e. Qed.

Lemma marshal_inv e s : marshal_event e = Ok s → s = bits_text (enc (event_tuple e)).
Proof. intros H. by injection H. Qed.

#[export] Instance text_laws : SessionLaws.
Proof.
  split.
  - intros e s ->%marshal_inv. split; [by apply bits_text_part|]. by destruct e as [[|[]]].
  - intros e s _ ->%marshal_inv. by rewrite unmarshal_text, journaled_text.
  - intros e p q _ Hq H%marshal_inv. cbn [unmarshal_event text_lib].
    pose proof (text_bits_text (enc (event_tuple e))) as Hb. rewrite <- H in Hb.
    apply text_bits_app in Hb as (l1&l2&Hl&->&Ht). destruct (dec l1) as [[t [|]]|] eqn:Hd; [|by repeat case_match; eexists|by eexists].
    exfalso. apply (dec_more _ _ _ l2) in Hd. pose proof (dec_enc (event_tuple e) []) as He. rewrite app_nil_r in He.
    rewrite Hl, Hd in He. injection He as _ ->. by apply Hq, text_bits_nil.
  - intros s e. cbn [unmarshal_event text_lib]. destruct (text_bits _) as [l|] eqn:Hb; [|done].
    by apply text_bits_app in Hb as (l1&l2&->&_&[=]).
  - intros e s ->%marshal_inv. destruct (dropCR_cases (bits_text (enc (event_tuple e)))) as [H|H]; [exact H|].
    exfalso. pose proof (text_bits_text (enc (event_tuple e))) as Hb. rewrite H in Hb.
    by apply text_bits_app in Hb as (l1&l2&_&_&[=]).
  - intros e. by destruct e.
  - done.
  - done.
  - done.
  - intros o p [= <-]. done.
Qed.

(** ** An operating system with given failures *)

(** Whether each of the next calls fails; all that follow succeed. *)
#[export, refine] Instance faults : Storage (list bool) := {
  now w := (1%Z, w);
  io_result op w := match w with [] => (None, []) | b :: w => ((if b : bool then Some ("no " +:+ op) else None), w) end;
  bytes_written data w :=
    match w with
    | [] => (String.length data, None, [])
    | b :: w => if b : bool then (7, Some "no space", w) else (String.length data, None, w)
    end;
  now_set w := _;
}.
Proof. done. Defined.

Definition empty_dir (w : list bool) : session_dir (list bool) := mkDir w None None.
Definition fs1 : flowSessionRecord := new_session "flow" "fs_1" "v1" "d" [] 1.
Definition created : session_dir (list bool) := (createFlowSession "flow" "fs_1" fs1 (empty_dir [])).1.

Fixpoint run_all (ops : list operation) (d : session_dir (list bool)) : session_dir (list bool) * list (result session_error reply) :=
  match ops with
  | [] => (d, [])
  | op :: ops => let '(d, res) := perform "flow" "fs_1" op d in let '(d, rs) := run_all ops d in (d, res :: rs)
  end.

Definition reading (n : Z) : FlowSessionEventInput := mkInput "device" n "reading" "" 0 "{}" "" "" 0 "".

#[export] Instance plain_op_dec op : Decision (plain_op op).
Proof. destruct op; cbn; unfold is_text; apply _. Defined.

Definition youngb (d : session_dir (list bool)) : bool :=
  match summary_file d with
  | Some s => (FS_StateVersion s <? 2 ^ 64 - 2 ^ 18)%Z && (FS_ExecutionGeneration s <? 2 ^ 64 - 8)%Z
  | None => true
  end.

Lemma youngb_young d : youngb d = true → young d.
Proof. unfold youngb, young. intros H s Hs. rewrite Hs in H. apply andb_true_iff in H as [?%Z.ltb_lt ?%Z.ltb_lt]. done. Qed.

(** Whether the theorems on histories apply to a run. *)
Fixpoint plain_run (ops : list operation) (d : session_dir (list bool)) : bool :=
  match ops with
  | [] => true
  | op :: ops => youngb d && bool_decide (plain_op op) && plain_run ops (perform "flow" "fs_1" op d).1
  end.

Lemma run_all_runs ops d rs :
  plain_run ops d = true → (run_all ops d).2 = rs → runs "flow" "fs_1" d ops rs (run_all ops d).1.
Proof.
  revert d rs. induction ops as [|op ops IH]; intros d rs; [intros _ <-; constructor|]. cbn [plain_run run_all].
  intros [[Hy Hop]%andb_true_iff Hrest]%andb_true_iff. destruct (perform "flow" "fs_1" op d) as [d1 res] eqn:Hp. cbn in Hrest.
  specialize (IH d1 _ Hrest eq_refl). destruct (run_all ops d1) as [d2 rs2]. intros <-.
  econstructor; [by apply youngb_young|by apply bool_decide_eq_true_1 in Hop|exact Hp|exact IH].
Qed.

Lemma example_dir : flowSessionDir "flow" "fs_1" = None.
Proof. by vm_compute. Qed.

Lemma created_ok : createFlowSession "flow" "fs_1" fs1 (empty_dir []) = (created, Ok tt).
Proof. by vm_compute. Qed.

Lemma created_stands : stands "flow" "fs_1" created (encoded_record fs1) [].
Proof. by apply (create_spec "flow" "fs_1" example_dir "v1" "d" [] 1 (empty_dir [])); vm_compute. Qed.

Lemma stands_record d r evs d1 r0 :
  youngb d = true → stands "flow" "fs_1" d r evs → perform "flow" "fs_1" OpLoad d = (d1, Ok (RRecord r0)) → r = r0.
Proof.
  intros Hy Hst (res&H&Hres)%reply_inv. apply youngb_young in Hy.
  destruct (load_spec _ _ example_dir _ _ _ _ _ Hy Hst H) as [_ [[m ->]|[-> _]]]; [done|]. by injection Hres.
Qed.

(** ** The theorems at work *)

(** An event is sent three times: the write is cut short, then the summary
    cannot be saved, then it is known. *)
Definition flaky : session_dir (list bool) := set_disk_world ([false; false; true] ++ replicate 14 false ++ [true]) created.
Definition thrice : list operation := replicate 3 (OpAppend (reading 7)).
Definition lost {A} (op : string) : result session_error A := Err (Fault ("no " +:+ op)).

Example thrice_answers : (run_all thrice flaky).2 = [lost "space"; lost "save"; Ok (RSequence 1 true)].
Proof. by vm_compute. Qed.

Lemma flaky_stands : stands "flow" "fs_1" flaky (encoded_record fs1) [].
Proof. by apply (stands_same "flow" "fs_1" created), created_stands. Qed.

Lemma retry_once_witness :
  (run_all thrice flaky).2 = [lost "space"; lost "save"; Ok (RSequence 1 true)] ∧
  ∃ r e, stands "flow" "fs_1" (run_all thrice flaky).1 r [e] ∧ 1%Z = (FS_LastSequence (encoded_record fs1) + 1)%Z ∧ event_of (reading 7) 1 e.
Proof.
  split; [exact thrice_answers|].
  apply (retry_once "flow" "fs_1" example_dir (reading 7) flaky [lost "space"; lost "save"] 1 true _ _ [] flaky_stands).
  - reflexivity.
  - vm_compute. reflexivity.
  - apply (run_all_runs thrice); vm_compute; reflexivity.
Defined.

(** Two events come in, the first is worked on twice, the session ends. *)
Definition done_with (n g : Z) : operation := OpCommit n g "reading" (mkWorkResult None [] ∅ [] None "").
Definition a_day : list operation :=
  [OpAppend (reading 1); OpAppend (reading 2); done_with 1 1; done_with 1 1; OpCancel 2 2 "reading" None; OpTransition "completed"].

Lemma work_in_order_witness :
  processed a_day (run_all a_day created).2 = [(1, 1); (2, 2)]%Z ∧
  StronglySorted before (processed a_day (run_all a_day created).2).
Proof.
  split; [vm_compute; reflexivity|]. apply (work_in_order "flow" "fs_1" example_dir created _ _ (run_all a_day created).1 _ _ created_stands).
  apply run_all_runs; vm_compute; reflexivity.
Defined.

Definition evening : session_dir (list bool) := (run_all a_day created).1.
Definition next_day : list operation := [OpAppend (reading 3); OpTransition "active"; done_with 3 4; OpTransition "canceled"].

Lemma ended_stays_witness :
  ∃ r evs, stands "flow" "fs_1" evening r evs ∧ ended r ∧ stands "flow" "fs_1" (run_all next_day evening).1 r evs.
Proof.
  destruct (runs_calls "flow" "fs_1" example_dir created a_day (run_all a_day created).2 evening _ [] ltac:(apply run_all_runs; by vm_compute) created_stands)
    as (r&evs&Hst&_).
  assert (ended r) as He.
  { destruct (run_all [OpLoad] evening) as [d1 rs] eqn:H. vm_compute in H. injection H as Hd Hrs.
    left. rewrite (stands_record evening r evs evening (match (run_all [OpLoad] evening).2 with [Ok (RRecord r0)] => r0 | _ => r end));
      [by vm_compute|by vm_compute|done|by vm_compute]. }
  exists r, evs. split; [exact Hst|]. split; [exact He|].
  apply (ended_stays "flow" "fs_1" example_dir evening next_day (run_all next_day evening).2 _ r evs Hst He).
  apply run_all_runs; vm_compute; reflexivity.
Defined.

Definition morning : list operation := [OpAppend (reading 2); done_with 1 1; OpTransition "paused"].

Lemma acknowledged_events_stay_witness :
  (run_all (OpAppend (reading 1) :: morning) created).2 = [Ok (RSequence 1 false); Ok (RSequence 2 false); Ok RDone;
    Ok (RRecord (match (run_all morning (run_all [OpAppend (reading 1)] created).1).2 with [_; _; Ok (RRecord r)] => r | _ => fs1 end))] ∧
  let read := flowSessionEvents "flow" "fs_1" 0 1 (run_all (OpAppend (reading 1) :: morning) created).1 in
  faulty read.2 ∨ ∃ e, read.2 = Ok [e] ∧ event_of (reading 1) 1 e.
Proof.
  split; [vm_compute; reflexivity|].
  apply (acknowledged_events_stay "flow" "fs_1" example_dir (reading 1) morning 1
    (tail (run_all (OpAppend (reading 1) :: morning) created).2) created (run_all (OpAppend (reading 1) :: morning) created).1
    (flowSessionEvents "flow" "fs_1" 0 1 (run_all (OpAppend (reading 1) :: morning) created).1).1 (encoded_record fs1) [] _ created_stands).
  - apply run_all_runs; vm_compute; reflexivity.
  - apply youngb_young. vm_compute. reflexivity.
  - apply surjective_pairing.
Defined.


(** An operating system that never fails. *)
#[export, refine] Instance reliable : Storage () := {
  now w := (1%Z, w);
  io_result op w := (None, w);
  bytes_written data w := (String.length data, None, w);
  now_set w := _;
}.
Proof. done. Defined.

Definition first_event : FlowSessionEvent := input_event fs1 (reading 1) 1.
Definition second_event : FlowSessionEvent := set_Ev_Payload "{2}" first_event.
Definition line_text (e : FlowSessionEvent) : string := bits_text (enc (event_tuple e)).

Lemma page_follows_witness :
  ∃ d' k, scan_page (W := ()) (journal_text ([line_text first_event] ++ [line_text second_event]))
      (Split (sdrop (String.length (journal_text [line_text first_event]))
                (journal_text ([line_text first_event] ++ [line_text second_event]))) newline) 0
      (Z.of_nat (String.length (journal_text ([line_text first_event] ++ take 0 [line_text second_event])))) 1 (mkDir tt None None) =
      (d', Ok (Z.of_nat (String.length (journal_text ([line_text first_event] ++ take k [line_text second_event]))),
               Ok (filter (λ e, (0 < Ev_Sequence e)%Z) (take k (journaled <$> [second_event]))))) ∧
    events_file d' = None ∧ summary_file d' = None ∧
    (1 ≤ k ∨ length (filter (λ e, (0 < Ev_Sequence e)%Z) (take k (journaled <$> [second_event]))) = 1).
Proof.
  apply (page_follows [line_text first_event] [line_text second_event] [second_event] 0 1 (mkDir tt None None)); [done|].
  constructor; [|constructor]. split; [|split].
  - vm_compute. repeat split.
  - reflexivity.
  - vm_compute. reflexivity.
Defined.

(** ** Where the store does something else than it means to *)

(** An event of a device that bears the name of one of the store's own. *)
Definition spoof : FlowSessionEventInput := mkInput "device" 1 "session.canceled" "" 0 "{}" "" "" 0 "".
Definition unsaved : session_dir (list bool) := set_disk_world (replicate 5 false ++ [true]) created.

(** The status that the last call reports. *)
Definition final_status (rs : list (result session_error reply)) : option string :=
  match last rs with Some (Ok (RRecord r)) => Some (FS_Status r) | _ => None end.

Definition two_events : session_dir (list bool) := (run_all [OpAppend (reading 1); OpAppend (reading 2)] created).1.

(** What a loss of power leaves when the summary, which is renamed into place
    without being synchronised, goes back to an earlier one. *)
Definition old_summary (old new : session_dir (list bool)) : session_dir (list bool) :=
  mkDir [] (events_file new) (summary_file old).

Definition read_page (after offset : Z) (d : session_dir (list bool)) : option (Z * result session_error (list Z)) :=
  match (flowSessionEventPage "flow" "fs_1" after offset 1 d).2 with
  | Ok (o, r) => Some (o, match r with Ok events => Ok (Ev_Sequence <$> events) | Err e => Err e end)
  | Err _ => None
  end.

