(* ===== verification/LoopGuard.v ===== *)
(** * Conversations: the loop guard ([internal/core/conversation/loop_guard.go])

    After each batch of tools the runner asks the guard whether the model goes
    in circles: the same call with the same result, a poll that brings nothing
    new, a cycle of two or three calls, a todo item that nobody updates, rounds
    that write nothing. The guard answers with feedback for the model, or stops
    the conversation. Its counters are far from the ends of an [int]. *)
From S2P Require Import Prelude GoStrings GoRunes JSON FlowModel.
From Stdlib Require Import Ascii ZArith Lia SpecFloat.

(** SHA-256 in hexadecimal, the verbs [%v] and [%q]. *)
Class GuardLib : Type := {
  sha256_hex : string → string;
  Sprint : json → string;
  quote : string → string;
}.

(** ** Tools *)

Record ExecutedTool := mkTool {
  ID : string;
  Name : string;
  Input : option (list (string * json));
  Output : string;
  Error : string;
  ArtifactPaths : list string;
  Code : string;
  RecoveryHint : string;
  TimedOut : bool;
  DurationMS : Z;
}.

Definition no_tool : ExecutedTool := mkTool "" "" None "" "" [] "" "" false 0.

Section Tools.
Context {U : Unicode} {J : JSONLib} {G : GuardLib}.

(** [tool.Input[key].(string)] *)
Definition input_string (key : string) (tool : ExecutedTool) : string :=
  match Input tool ≫= field key with Some (JString s) => s | _ => "" end.

Definition input_value (tool : ExecutedTool) : json :=
  match Input tool with Some m => JObject m | None => JNull end.

Definition isSubagentPollingToolCall (tool : ExecutedTool) : bool :=
  EqualFold (TrimSpace (Name tool)) "subagent" &&
  bool_decide (ToLower (TrimSpace (input_string "action" tool)) ∈ ["status"; "logs"; "list"]).

Definition isBackgroundPollingToolCall (tool : ExecutedTool) : bool :=
  EqualFold (TrimSpace (Name tool)) "background" &&
  EqualFold (TrimSpace (input_string "action" tool)) "check".

Definition isPollingToolCall (tool : ExecutedTool) : bool :=
  let name := ToLower (TrimSpace (Name tool)) in
  if bool_decide (name = "tool_exchange") then true
  else if bool_decide (name = "background") then isBackgroundPollingToolCall tool
  else if bool_decide (name = "subagent") then isSubagentPollingToolCall tool
  else false.

Definition isNoProgressPollingToolCall (tool : ExecutedTool) : bool :=
  if EqualFold (TrimSpace (Name tool)) "background" then isBackgroundPollingToolCall tool
  else isSubagentPollingToolCall tool.

Definition isBenignRepeatableToolCall (tool : ExecutedTool) : bool :=
  if negb (EqualFold (TrimSpace (Name tool)) "browser") then false
  else if negb (EqualFold (TrimSpace (input_string "action" tool)) "wait") then false
  else bool_decide (TrimSpace (input_string "text" tool) = "").

Definition isTerminalPollingStatus (status : string) : bool :=
  bool_decide (ToLower (TrimSpace status) ∈
    ["completed"; "canceled"; "cancelled"; "interrupted"; "timeout"; "error"; "failed"; "success"]).

(** ** Fingerprints *)

Definition hashString (value : string) : string := sha256_hex value.

Definition executedToolFingerprint (tool : ExecutedTool) : string :=
  let payload := JObject [("name", JString (Name tool)); ("input", input_value tool);
                          ("output", JString (Output tool)); ("error", JString (Error tool))] in
  sha256_hex
    match Marshal payload with
    | Some data => data
    | None => Name tool +:+ ":" +:+ Sprint (input_value tool) +:+ ":" +:+ Output tool +:+ ":" +:+ Error tool
    end.

Definition pollingToolInputFingerprint (tool : ExecutedTool) : string :=
  if negb (isPollingToolCall tool) then ""
  else
    sha256_hex
      match Marshal (JObject [("name", JString (Name tool)); ("input", input_value tool)]) with
      | Some data => data
      | None => Name tool +:+ ":" +:+ Sprint (input_value tool)
      end.

Definition projected_keys : list string :=
  ["status"; "last_phase"; "last_tool_id"; "last_tool_name"; "progress_count"; "finished_at"; "error"; "count"; "total";
   "task_id"; "exit_code"].

Definition set_field (k : string) (v : json) (m : list (string * json)) : list (string * json) :=
  filter (λ kv, kv.1 ≠ k) m ++ [(k, v)].

(** The fields of the latest step of progress. *)
Definition latest_progress (progress : list json) (m : list (string * json)) : list (string * json) :=
  match last progress with
  | Some (JObject latest) =>
      foldl (λ m key, match field key latest with Some v => set_field ("last_progress_" +:+ key) v m | None => m end) m
        ["phase"; "tool_id"; "tool_name"; "error"; "result"]
  | _ => m
  end.

Definition pollingToolMapProjection (payload : list (string * json)) : list (string * json) * bool :=
  let copied := omap (λ key, pair key <$> field key payload) projected_keys in
  let sha (key name : string) m :=
    match field key payload with
    | Some (JString s) => if negb (bool_decide (TrimSpace s = "")) then set_field name (JString (hashString s)) m else m
    | _ => m
    end in
  let m := sha "result_preview" "result_preview_sha" (sha "output" "output_sha" copied) in
  let m :=
    match field "progress" payload with
    | Some (JArray progress) =>
        latest_progress progress (set_field "progress_count" (JGo "int" (JNum (binary_normalize 53 1024 (Z.of_nat (length progress)) 0 false))) m)
    | _ => m
    end in
  (m, isTerminalPollingStatus match field "status" payload with Some (JString s) => s | _ => "" end).

Fixpoint pollingToolSemanticProjection (value : json) : json * bool :=
  match value with
  | JArray items =>
      let projected := pollingToolSemanticProjection <$> items in
      (JArray (fst <$> projected), negb (is_nil items) && forallb snd projected)
  | JObject payload => let '(m, terminal) := pollingToolMapProjection payload in (JObject m, terminal)
  | _ => (value, false)
  end.

Definition pollingToolSemanticFingerprint (tool : ExecutedTool) : string * bool :=
  match Unmarshal_any (Output tool) with
  | Err _ => (executedToolFingerprint tool, false)
  | Ok payload =>
      let '(projection, terminal) := pollingToolSemanticProjection payload in
      (sha256_hex match Marshal projection with Some data => data | None => Sprint projection end, terminal)
  end.


(** ** Progress *)

(** [strings.ReplaceAll(s, old, "")] *)
Fixpoint remove_all (fuel : nat) (old s : string) : string :=
  match fuel with
  | 0 => s
  | S fuel =>
      match s with
      | "" => ""
      | String a s' =>
          if HasPrefix s old && negb (bool_decide (old = "")) then remove_all fuel old (sdrop (String.length old) s)
          else String a (remove_all fuel old s')
      end
  end.

Definition bashCommandWritesFile (command : string) : bool :=
  let cmd := ToLower (TrimSpace command) in
  let cmd := remove_all (String.length cmd) "2>&1" cmd in
  Contains cmd ">>" || Contains cmd ">" || Contains cmd "tee" || Contains cmd "touch" || Contains cmd "mkdir".

Definition toolMakesProgress (tool : ExecutedTool) : bool :=
  if bool_decide (Name tool ∈ ["edit_file"; "write_file"; "todo_write"]) then true
  else if bool_decide (Name tool = "memory") then EqualFold (TrimSpace (input_string "action" tool)) "remember"
  else if bool_decide (Name tool = "bash") then bashCommandWritesFile (input_string "command" tool)
  else false.

Definition executedContainsMutation (executed : list ExecutedTool) : bool := existsb toolMakesProgress executed.
Definition executedContainsNonTodoWrite (executed : list ExecutedTool) : bool :=
  existsb (λ tool, negb (bool_decide (TrimSpace (Name tool) = "todo_write"))) executed.

(** ** Cycles *)

Definition repeatedToolCycleWindow : nat := 12.

Definition keep_recent (recent : list string) : list string :=
  if repeatedToolCycleWindow <? length recent then drop (length recent - repeatedToolCycleWindow) recent else recent.

Definition appendRecentToolFingerprints (recent : list string) (executed : list ExecutedTool) : list string :=
  foldl (λ recent tool, keep_recent (recent ++ [executedToolFingerprint tool])) recent executed.

Definition hashLoopGuardStrings (values : list string) : string :=
  sha256_hex (Join values (String (ascii_of_N 0) "")).

(** The calls from the [cycleLen]-th on are those of the first cycle. *)
Fixpoint cycle_matches (tail : list string) (cycleLen i : nat) (fuel : nat) : bool :=
  match fuel with
  | 0 => true
  | S fuel => bool_decide (tail !! i = tail !! (i mod cycleLen)) && cycle_matches tail cycleLen (S i) fuel
  end.

Definition repeats (recent : list string) (cycleLen : nat) : option (nat * string) :=
  let needed := cycleLen * 3 in
  if length recent <? needed then None
  else
    let tail := drop (length recent - needed) recent in
    if cycle_matches tail cycleLen cycleLen (needed - cycleLen) then Some (cycleLen, hashLoopGuardStrings tail) else None.

Definition repeatedToolCycleV2 (recent : list string) : option (nat * string) :=
  match repeats recent 2 with Some r => Some r | None => repeats recent 3 end.

End Tools.

(** ** The guard *)

Inductive loopGuardAction := loopGuardAllow | loopGuardRecover | loopGuardAbort.
Inductive LoopGuardMode := LoopGuardModeStrict | LoopGuardModeBalanced | LoopGuardModeWarn.

Record loopGuardConfig := mkConfig {
  MaxRepeatedTools : Z;
  MaxRepeatedPollingTools : Z;
  MaxStalledTaskPollingTools : Z;
  MaxRecoveries : Z;
  MaxNoMutationRounds : Z;
  Mode : LoopGuardMode;
  StaleTodoThreshold : Z;
}.

Record loopGuard := mkGuard {
  config : loopGuardConfig;
  repeated : gmap string Z;
  polling : gmap string (Z * string);
  recent : list string;
  recovered : gmap string Z;
  totalRecovery : Z;
  noMutationRounds : Z;
  noMutationRecovered : Z;
  staleRecovered : gmap Z Z;
}.

Record loopGuardDecision := mkDecision {
  D_Action : loopGuardAction;
  D_Reason : string;
  D_Fingerprint : string;
  D_Tool : ExecutedTool;
  D_Count : Z;
  D_CycleLength : nat;
  D_Feedback : string;
  D_RecoveryHint : string;
  D_AbortReason : string;
}.

Definition allow : loopGuardDecision := mkDecision loopGuardAllow "" "" no_tool 0 0 "" "" "".
Definition detected (reason fingerprint : string) (tool : ExecutedTool) (count : Z) (cycleLen : nat) : loopGuardDecision :=
  mkDecision loopGuardAllow reason fingerprint tool count cycleLen "" "" "".

Definition guard_eta (g : loopGuard) : loopGuard :=
  mkGuard (config g) (repeated g) (polling g) (recent g) (recovered g) (totalRecovery g) (noMutationRounds g)
    (noMutationRecovered g) (staleRecovered g).
Definition set_repeated (v : gmap string Z) (g : loopGuard) : loopGuard := ltac:(with_field guard_eta repeated g v).
Definition set_polling (v : gmap string (Z * string)) (g : loopGuard) : loopGuard := ltac:(with_field guard_eta polling g v).
Definition set_recent (v : list string) (g : loopGuard) : loopGuard := ltac:(with_field guard_eta recent g v).
Definition set_recovered (v : gmap string Z) (g : loopGuard) : loopGuard := ltac:(with_field guard_eta recovered g v).
Definition set_totalRecovery (v : Z) (g : loopGuard) : loopGuard := ltac:(with_field guard_eta totalRecovery g v).
Definition set_noMutationRounds (v : Z) (g : loopGuard) : loopGuard := ltac:(with_field guard_eta noMutationRounds g v).
Definition set_noMutationRecovered (v : Z) (g : loopGuard) : loopGuard := ltac:(with_field guard_eta noMutationRecovered g v).
Definition set_staleRecovered (v : gmap Z Z) (g : loopGuard) : loopGuard := ltac:(with_field guard_eta staleRecovered g v).

Definition newLoopGuard (c : loopGuardConfig) : loopGuard :=
  let c := if (MaxRecoveries c <? 0)%Z
           then mkConfig (MaxRepeatedTools c) (MaxRepeatedPollingTools c) (MaxStalledTaskPollingTools c) 0
                  (MaxNoMutationRounds c) (Mode c) (StaleTodoThreshold c)
           else c in
  mkGuard c ∅ ∅ [] ∅ 0 0 0 ∅.

(** [m[k]] and [m[k]++] *)
Definition count `{Countable K} (k : K) (m : gmap K Z) : Z := default 0%Z (m !! k).
Definition increment `{Countable K} (k : K) (m : gmap K Z) : gmap K Z := <[k := (count k m + 1)%Z]> m.

Definition mode_text (m : LoopGuardMode) : string :=
  match m with LoopGuardModeStrict => "strict" | LoopGuardModeBalanced => "balanced" | LoopGuardModeWarn => "warn" end.

Section Guard.
Context {U : Unicode} {J : JSONLib} {G : GuardLib}.

Definition normalizeLoopGuardMode (mode : string) : LoopGuardMode :=
  let mode := ToLower (TrimSpace mode) in
  if bool_decide (mode = "balanced") then LoopGuardModeBalanced
  else if bool_decide (mode = "warn") then LoopGuardModeWarn
  else LoopGuardModeStrict.

(** *** Texts *)

Definition firstNonEmpty (values : list string) : string :=
  default "" (TrimSpace <$> find_first (λ v, negb (bool_decide (TrimSpace v = ""))) values).

Definition tool_name (d : loopGuardDecision) : string :=
  let tool := TrimSpace (Name (D_Tool d)) in
  if bool_decide (tool = "") then "unknown_tool" else tool.

Definition Summary (d : loopGuardDecision) : string :=
  let reason := D_Reason d in
  if bool_decide (reason = "tool_cycle") then
    reason +:+ " detected involving " +:+ tool_name d +:+ "; cycle length " +:+ itoa (Z.of_nat (D_CycleLength d)) +:+ " repeated"
  else if bool_decide (reason = "no_mutation_spiral") then
    reason +:+ ": " +:+ itoa (D_Count d) +:+ " consecutive tool rounds without any file mutation (last tool: " +:+ tool_name d +:+ ")"
  else if bool_decide (reason = "stale_todo_in_progress") then
    reason +:+ " detected; an in_progress todo item has not been updated for " +:+ itoa (D_Count d) +:+ " turns"
  else reason +:+ " detected for " +:+ tool_name d +:+ " after " +:+ itoa (D_Count d) +:+ " repeat(s)".

Definition truncateLoopGuardText (value : string) (limit : nat) : string :=
  let value := TrimSpace value in
  if bool_decide (value = "") || (limit =? 0) then value
  else if length (runes value) <=? limit then value else encode (take limit (runes value)) +:+ "...".

(** An absent input is a nil map, not a nil value. *)
Definition marshalLoopGuardValue (value : json) : string := match Marshal value with Some data => data | None => Sprint value end.

Definition AbortMessage (d : loopGuardDecision) : string :=
  let reason := if bool_decide (TrimSpace (D_AbortReason d) = "") then "loop guard determined there was no progress"
                else TrimSpace (D_AbortReason d) in
  if bool_decide (D_Reason d = "stale_todo_in_progress") then
    Summary d +:+ "; " +:+ reason +:+ "; stale_count=" +:+ itoa (D_Count d)
  else
    Summary d +:+ "; " +:+ reason +:+ "; last tool=" +:+ firstNonEmpty [TrimSpace (Name (D_Tool d)); "unknown_tool"] +:+
    "; count=" +:+ itoa (D_Count d) +:+
    "; input=" +:+ truncateLoopGuardText (marshalLoopGuardValue (input_value (D_Tool d))) 240 +:+
    "; output=" +:+ truncateLoopGuardText (Output (D_Tool d)) 240 +:+
    "; error=" +:+ truncateLoopGuardText (Error (D_Tool d)) 180.

Definition recovery_budget (recovery maxRecovery : Z) : string :=
  if (maxRecovery <? 0)%Z then "Recovery #" +:+ itoa recovery +:+ " (unlimited)."
  else "Recovery budget: " +:+ itoa recovery +:+ "/" +:+ itoa maxRecovery +:+ ".".

Definition lf : string := String (ascii_of_N 10) "".

Definition loopGuardFeedback (d : loopGuardDecision) (recovery maxRecovery : Z) : string :=
  Join ["Runtime feedback: loop_guard_recovery."; "Reason: " +:+ Summary d +:+ "."; recovery_budget recovery maxRecovery;
    "Do not repeat the same tool call, query, polling request, or tool sequence again.";
    "Use the tool result/error already in context as evidence, change strategy, try a meaningfully different input/tool, or provide a concise diagnostic handoff to the user."] lf.

Definition noMutationFeedback (d : loopGuardDecision) (recovery maxRecovery : Z) : string :=
  Join ["Runtime feedback: loop_guard_recovery."; "Reason: " +:+ Summary d +:+ "."; recovery_budget recovery maxRecovery;
    "You have executed tools for " +:+ itoa (D_Count d) +:+ " rounds without modifying any file or producing a final answer.";
    "If you are doing DEEP RESEARCH, that is fine: write your findings so far to a notes file (write_file) to checkpoint progress, then continue researching.";
    "If you have enough information, produce your final answer now without further tool calls.";
    "If you need to implement changes, start writing them now (edit_file/write_file)."] lf.

Definition staleTodoFeedback (itemID : Z) (content activeForm : string) (recovery maxRecovery : Z) : string :=
  let heading := if bool_decide (TrimSpace content = "") then "item " +:+ itoa itemID else TrimSpace content in
  let form := TrimSpace activeForm in
  Join (["Runtime feedback: stale_todo_in_progress.";
         "Reason: in_progress todo " +:+ quote heading +:+ " has not been updated for multiple turns while non-todo tools keep executing."] ++
        (if bool_decide (form = "") then [] else ["Active form on file: " +:+ quote form +:+ "."]) ++
        [recovery_budget recovery maxRecovery;
         "Call todo_write now to: (1) mark this item completed if the work is done, (2) flip it to the next pending item, or (3) split it into smaller steps and update the plan.";
         "Do not advance to the next sub-step without first reflecting the current state in the todo list."]) lf.

Definition loopGuardAbortHint : string :=
  "Loop guard already attempted runtime feedback or exhausted recovery budget; review the latest tool result/error and avoid repeating the same strategy before retrying.".

(** *** Decisions *)

Definition aborted (reason : string) (d : loopGuardDecision) : loopGuardDecision :=
  mkDecision loopGuardAbort (D_Reason d) (D_Fingerprint d) (D_Tool d) (D_Count d) (D_CycleLength d) (D_Feedback d)
    loopGuardAbortHint reason.
Definition recovering (feedback hint : string) (d : loopGuardDecision) : loopGuardDecision :=
  mkDecision loopGuardRecover (D_Reason d) (D_Fingerprint d) (D_Tool d) (D_Count d) (D_CycleLength d) feedback hint (D_AbortReason d).

Definition resetCountsAfterRecovery (d : loopGuardDecision) (g : loopGuard) : loopGuard :=
  let fp := D_Fingerprint d in
  if HasPrefix fp "identical:" then set_repeated (delete (TrimPrefix fp "identical:") (repeated g)) g
  else if HasPrefix fp "polling:" then
    let key := (Cut (TrimPrefix fp "polling:") (ascii_of_N 58)).1.1 in
    set_polling (delete key (polling g)) g
  else if HasPrefix fp "cycle:" then set_recent [] g
  else g.

Definition with_fingerprint (d : loopGuardDecision) : loopGuardDecision :=
  if bool_decide (D_Fingerprint d = "")
  then mkDecision (D_Action d) (D_Reason d) (D_Reason d) (D_Tool d) (D_Count d) (D_CycleLength d) (D_Feedback d) (D_RecoveryHint d) (D_AbortReason d)
  else d.

Definition decide (d : loopGuardDecision) (g : loopGuard) : loopGuard * loopGuardDecision :=
  let d := with_fingerprint d in
  let n := (totalRecovery g + 1)%Z in
  let recover g feedback hint :=
    let d := recovering feedback hint d in (resetCountsAfterRecovery d (set_totalRecovery n g), d) in
  let counted g := set_recovered (increment (D_Fingerprint d) (recovered g)) g in
  match Mode (config g) with
  | LoopGuardModeWarn =>
      recover g (loopGuardFeedback d n (-1))
        ("Loop guard recovery " +:+ itoa n +:+ " (warn-only mode) asked the model to change strategy.")
  | LoopGuardModeBalanced =>
      recover (counted g) (loopGuardFeedback d n (-1))
        ("Loop guard recovery " +:+ itoa n +:+ " (balanced mode) asked the model to change strategy.")
  | LoopGuardModeStrict =>
      if (MaxRecoveries (config g) <=? 0)%Z then (g, aborted "loop guard recovery is disabled" d)
      else if (0 <? count (D_Fingerprint d) (recovered g))%Z
      then (g, aborted "same loop pattern repeated after runtime feedback" d)
      else if (MaxRecoveries (config g) <=? totalRecovery g)%Z then (g, aborted "loop guard recovery budget exhausted" d)
      else
        recover (counted g) (loopGuardFeedback d n (MaxRecoveries (config g)))
          ("Loop guard recovery " +:+ itoa n +:+ "/" +:+ itoa (MaxRecoveries (config g)) +:+
           " asked the model to change strategy before aborting.")
  end.

Definition decideNoMutation (d : loopGuardDecision) (g : loopGuard) : loopGuard * loopGuardDecision :=
  let n := (noMutationRecovered g + 1)%Z in
  (set_noMutationRecovered n g,
   recovering (noMutationFeedback d n (-1))
     ("Loop guard recovery " +:+ itoa n +:+ " (no-mutation spiral never aborts; write a file or answer to reset).") d).

Definition decideStaleTodo (d : loopGuardDecision) (itemID : Z) (content activeForm : string) (g : loopGuard) :
    loopGuard * loopGuardDecision :=
  let n := (totalRecovery g + 1)%Z in
  let stale := (count itemID (staleRecovered g) + 1)%Z in
  let counted := set_totalRecovery n (set_staleRecovered (increment itemID (staleRecovered g)) g) in
  match Mode (config g) with
  | LoopGuardModeWarn | LoopGuardModeBalanced =>
      (counted, recovering (staleTodoFeedback itemID content activeForm stale (-1))
         ("Loop guard recovery " +:+ itoa n +:+ " (" +:+ mode_text (Mode (config g)) +:+
          " mode) reminded the model to update the stale in_progress todo item.") d)
  | LoopGuardModeStrict =>
      if (MaxRecoveries (config g) <=? 0)%Z then (g, aborted "loop guard recovery is disabled" d)
      else if (MaxRecoveries (config g) <=? count itemID (staleRecovered g))%Z
      then (g, aborted "same in_progress todo item stayed stale after runtime feedback" d)
      else if (MaxRecoveries (config g) <=? totalRecovery g)%Z then (g, aborted "loop guard recovery budget exhausted" d)
      else
        (counted, recovering (staleTodoFeedback itemID content activeForm stale (MaxRecoveries (config g)))
           ("Loop guard recovery " +:+ itoa n +:+ "/" +:+ itoa (MaxRecoveries (config g)) +:+
            " reminded the model to update the stale in_progress todo item.") d)
  end.

(** *** Detectors *)

Definition benignRepeatableToolCountPrefix : string := "benign-repeatable:".

Definition clearBenignRepeatableToolCounts (counts : gmap string Z) : gmap string Z :=
  filter (λ kv, HasPrefix kv.1 benignRepeatableToolCountPrefix = false) counts.

Definition detection : Type := option (ExecutedTool * Z * string).

Fixpoint repeated_execution (limit : Z) (executed : list ExecutedTool) (counts : gmap string Z) : gmap string Z * detection :=
  match executed with
  | [] => (counts, None)
  | tool :: executed =>
      if isNoProgressPollingToolCall tool then repeated_execution limit executed counts
      else
        let benign := isBenignRepeatableToolCall tool in
        let counts := if benign then counts else clearBenignRepeatableToolCounts counts in
        let fingerprint := (if benign then benignRepeatableToolCountPrefix else "") +:+ executedToolFingerprint tool in
        let counts := increment fingerprint counts in
        if (limit <=? count fingerprint counts)%Z then (counts, Some (tool, count fingerprint counts, fingerprint))
        else repeated_execution limit executed counts
  end.

Definition repeatedToolExecution (executed : list ExecutedTool) (g : loopGuard) : loopGuard * detection :=
  let limit := MaxRepeatedTools (config g) in
  if (limit <=? 0)%Z then (g, None)
  else let '(counts, found) := repeated_execution limit executed (repeated g) in (set_repeated counts g, found).

Fixpoint polling_execution (inputLimit stalledLimit : Z) (executed : list ExecutedTool) (polls : gmap string (Z * string)) :
    gmap string (Z * string) * detection :=
  match executed with
  | [] => (polls, None)
  | tool :: executed =>
      let fingerprint := pollingToolInputFingerprint tool in
      let '(n, known) := default (0%Z, "") (polls !! fingerprint) in
      if bool_decide (fingerprint = "") then polling_execution inputLimit stalledLimit executed polls
      else if isNoProgressPollingToolCall tool then
        if (stalledLimit <=? 0)%Z then polling_execution inputLimit stalledLimit executed polls
        else
          let '(semantic, terminal) := pollingToolSemanticFingerprint tool in
          if terminal then polling_execution inputLimit stalledLimit executed (delete fingerprint polls)
          else
            let n := if bool_decide (known = semantic) then (n + 1)%Z else 1%Z in
            let polls := <[fingerprint := (n, semantic)]> polls in
            if (stalledLimit <=? n)%Z then (polls, Some (tool, n, fingerprint +:+ ":" +:+ semantic))
            else polling_execution inputLimit stalledLimit executed polls
      else if (inputLimit <=? 0)%Z then polling_execution inputLimit stalledLimit executed polls
      else
        let n := (n + 1)%Z in
        let polls := <[fingerprint := (n, known)]> polls in
        if (inputLimit <=? n)%Z then (polls, Some (tool, n, fingerprint))
        else polling_execution inputLimit stalledLimit executed polls
  end.

Definition repeatedPollingToolExecution (executed : list ExecutedTool) (g : loopGuard) : loopGuard * detection :=
  let inputLimit := MaxRepeatedPollingTools (config g) in
  let stalledLimit := MaxStalledTaskPollingTools (config g) in
  if (inputLimit <=? 0)%Z && (stalledLimit <=? 0)%Z then (g, None)
  else let '(polls, found) := polling_execution inputLimit stalledLimit executed (polling g) in (set_polling polls g, found).

(** A todo in progress that has not changed for the given number of turns: its
    id, content and active form. *)
Definition todoStalenessProvider : Type := Z → option (Z * string * string).

Definition stale_todo (executed : list ExecutedTool) (staleProvider : option todoStalenessProvider) (g : loopGuard) :
    option (Z * string * string) :=
  match staleProvider with
  | Some provider =>
      if (0 <? StaleTodoThreshold (config g))%Z && executedContainsNonTodoWrite executed
      then provider (StaleTodoThreshold (config g)) else None
  | None => None
  end.

(** The count of rounds without a write, and whether it has come to the end. *)
Definition no_mutation (executed : list ExecutedTool) (g : loopGuard) : loopGuard * bool :=
  if (0 <? MaxNoMutationRounds (config g))%Z then
    if executedContainsMutation executed then (set_noMutationRounds 0 g, false)
    else
      let n := (noMutationRounds g + 1)%Z in
      if (MaxNoMutationRounds (config g) <=? n)%Z then (set_noMutationRounds 0 g, true) else (set_noMutationRounds n g, false)
  else (g, false).

Definition Observe (executed : list ExecutedTool) (staleProvider : option todoStalenessProvider) (g : loopGuard) :
    loopGuard * loopGuardDecision :=
  match last executed with
  | None => (g, allow)
  | Some last =>
      match repeatedToolExecution executed g with
      | (g, Some (tool, n, fingerprint)) => decide (detected "identical_tool_result" ("identical:" +:+ fingerprint) tool n 0) g
      | (g, None) =>
          match repeatedPollingToolExecution executed g with
          | (g, Some (tool, n, fingerprint)) => decide (detected "stalled_polling" ("polling:" +:+ fingerprint) tool n 0) g
          | (g, None) =>
              match stale_todo executed staleProvider g with
              | Some (itemID, content, activeForm) =>
                  decideStaleTodo (detected "stale_todo_in_progress" ("stale_todo:" +:+ itoa itemID) no_tool (StaleTodoThreshold (config g)) 0)
                    itemID content activeForm g
              | None =>
                  match no_mutation executed g with
                  | (g, true) =>
                      decideNoMutation (detected "no_mutation_spiral" "no_mutation" last (MaxNoMutationRounds (config g)) 0) g
                  | (g, false) =>
                      let g := set_recent (appendRecentToolFingerprints (recent g) executed) g in
                      match repeatedToolCycleV2 (recent g) with
                      | Some (cycleLen, fingerprint) => decide (detected "tool_cycle" ("cycle:" +:+ fingerprint) last 3 cycleLen) g
                      | None => (g, allow)
                      end
                  end
              end
          end
      end
  end.

End Guard.

(** * Conversations: what the loop guard guarantees

    In the lenient modes the guard never stops a conversation. In the strict
    mode it gives feedback a bounded number of times, and a conversation that
    repeats a call with the same result is stopped, whatever else it does in
    between. The search for cycles is exact. *)

(** Digits and letters only. *)
Class GuardLaws `{GuardLib} : Prop := { hash_hex s : part ":"%char (sha256_hex s) }.

Section Spec.
Context {U : Unicode} {J : JSONLib} {G : GuardLib}.

(** The decisions on one batch after the other, each with what the provider of
    stale todos says. *)
Definition round : Type := list ExecutedTool * option todoStalenessProvider.
Fixpoint watch (rounds : list round) (g : loopGuard) : loopGuard * list loopGuardDecision :=
  match rounds with
  | [] => (g, [])
  | (executed, provider) :: rounds =>
      let '(g, d) := Observe executed provider g in
      let '(g, ds) := watch rounds g in
      (g, d :: ds)
  end.

(** ** Counters *)

Lemma count_increment `{Countable K} (k k' : K) (m : gmap K Z) :
  count k (increment k' m) = if bool_decide (k = k') then (count k m + 1)%Z else count k m.
Proof.
  unfold count at 1, increment. case_bool_decide as Hk; [subst; by rewrite lookup_insert_eq|by rewrite lookup_insert_ne].
Qed.

Lemma count_delete `{Countable K} (k k' : K) (m : gmap K Z) :
  count k (delete k' m) = if bool_decide (k = k') then 0%Z else count k m.
Proof.
  unfold count. case_bool_decide as Hk; [subst; by rewrite lookup_delete_eq|by rewrite lookup_delete_ne].
Qed.

Lemma count_clear f counts :
  HasPrefix f benignRepeatableToolCountPrefix = false → count f (clearBenignRepeatableToolCounts counts) = count f counts.
Proof.
  intros Hf. unfold count, clearBenignRepeatableToolCounts. rewrite map_lookup_filter.
  destruct (counts !! f); [|done]. cbn. by rewrite option_guard_True.
Qed.

(** A fingerprint is not that of a benign call. *)
Lemma part_not_benign f : part ":"%char f → HasPrefix f benignRepeatableToolCountPrefix = false.
Proof.
  intros Hf. destruct (HasPrefix f _) eqn:H; [|done]. apply HasPrefix_iff in H as [r ->].
  vm_compute in Hf. by repeat match goal with H : part _ _ |- _ => apply part_cons in H as [? ?] end.
Qed.

(** ** Repeated calls *)

(** Running the first detector raises no count past the limit without saying so. *)
Lemma repeated_execution_spec limit executed counts counts' found f :
  part ":"%char f → repeated_execution limit executed counts = (counts', found) → (count f counts < limit)%Z →
  (count f counts <= count f counts')%Z ∧
  match found with
  | Some (tool, n, fp) => fp ≠ f → (count f counts' < limit)%Z
  | None => (count f counts' < limit)%Z
  end.
Proof.
  intros Hf. revert counts. induction executed as [|tool executed IH]; intros counts; cbn [repeated_execution].
  { intros [= <- <-]. split; [lia|done]. }
  destruct (isNoProgressPollingToolCall tool); [by apply IH|]. cbv zeta.
  set (counts1 := if isBenignRepeatableToolCall tool then counts else _).
  set (fp := ((if isBenignRepeatableToolCall tool then _ else _) +:+ _)%string).
  assert (count f counts1 = count f counts) as Hc1.
  { unfold counts1. destruct (isBenignRepeatableToolCall tool); [done|]. by apply count_clear, part_not_benign. }
  rewrite <- Hc1. clearbody counts1 fp. clear Hc1. intros H Hlt.
  pose proof (count_increment f fp counts1) as Hinc.
  destruct (Z.leb_spec limit (count fp (increment fp counts1))) as [Hle|Hle].
  - injection H as <- <-. rewrite Hinc. case_bool_decide; [subst; split; [lia|done]|split; [lia|done]].
  - assert (count f counts1 <= count f (increment fp counts1) < limit)%Z as [H1 H2].
    { rewrite Hinc. case_bool_decide as Hk; [|lia]. subst fp. lia. }
    destruct (IH _ H H2) as [H3 H4]. split; [lia|done].
Qed.

(** A batch of one plain call counts it. *)
Definition alone (f : string) (executed : list ExecutedTool) : bool :=
  match executed with
  | [tool] => negb (isNoProgressPollingToolCall tool) && negb (isBenignRepeatableToolCall tool) &&
              bool_decide (executedToolFingerprint tool = f)
  | _ => false
  end.

Lemma repeated_execution_alone limit executed counts f :
  part ":"%char f → alone f executed = true →
  ∃ counts', count f counts' = (count f counts + 1)%Z ∧
    ((∃ tool n, repeated_execution limit executed counts = (counts', Some (tool, n, f))) ∨
     (count f counts' < limit)%Z ∧ repeated_execution limit executed counts = (counts', None)).
Proof.
  intros Hf Ha. destruct executed as [|tool [|]]; try done. cbn in Ha.
  apply andb_true_iff in Ha as [[Hp%negb_true_iff Hb%negb_true_iff]%andb_true_iff Hfp%bool_decide_eq_true_1].
  cbn [repeated_execution]. rewrite Hp, Hb. cbv zeta. rewrite app_nil_l_s, Hfp.
  exists (increment f (clearBenignRepeatableToolCounts counts)).
  rewrite !count_increment, bool_decide_true, count_clear by (done || by apply part_not_benign). split; [done|].
  destruct (Z.leb_spec limit (count f counts + 1)); [left; eauto|right; split; [lia|done]].
Qed.

(** ** Decisions *)

Definition spent (f : string) (g : loopGuard) : Z := count ("identical:" +:+ f) (recovered g).

Lemma reset_fields d g :
  config (resetCountsAfterRecovery d g) = config g ∧ recovered (resetCountsAfterRecovery d g) = recovered g ∧
  totalRecovery (resetCountsAfterRecovery d g) = totalRecovery g ∧
  repeated (resetCountsAfterRecovery d g) =
    if HasPrefix (D_Fingerprint d) "identical:" then delete (TrimPrefix (D_Fingerprint d) "identical:") (repeated g) else repeated g.
Proof. unfold resetCountsAfterRecovery. repeat case_match; done. Qed.

(** A recovery in the strict mode: the first for this fingerprint, and within
    the budget. *)
Lemma decide_strict d g g' d' :
  Mode (config g) = LoopGuardModeStrict → D_Fingerprint d ≠ "" → decide d g = (g', d') → D_Action d' ≠ loopGuardAbort →
  D_Action d' = loopGuardRecover ∧ D_Reason d' = D_Reason d ∧ config g' = config g ∧
  recovered g' = increment (D_Fingerprint d) (recovered g) ∧ (count (D_Fingerprint d) (recovered g) <= 0)%Z ∧
  totalRecovery g' = (totalRecovery g + 1)%Z ∧ (totalRecovery g < MaxRecoveries (config g))%Z ∧
  repeated g' = if HasPrefix (D_Fingerprint d) "identical:" then delete (TrimPrefix (D_Fingerprint d) "identical:") (repeated g) else repeated g.
Proof.
  intros Hm Hne. unfold decide, with_fingerprint. rewrite bool_decide_false, Hm by done. cbv zeta.
  destruct (Z.leb_spec (MaxRecoveries (config g)) 0); [by intros [= <- <-]|].
  destruct (Z.ltb_spec 0 (count (D_Fingerprint d) (recovered g))); [by intros [= <- <-]|].
  destruct (Z.leb_spec (MaxRecoveries (config g)) (totalRecovery g)); [by intros [= <- <-]|].
  intros [= <- <-] _. split; [done|]. split; [done|].
  match goal with |- context [resetCountsAfterRecovery ?d0 ?g0] => destruct (reset_fields d0 g0) as (->&->&->&->) end.
  by split_and!.
Qed.

(** Nothing that the other detectors do touches the counts of calls. *)
Definition same_calls (g g' : loopGuard) : Prop :=
  config g' = config g ∧ repeated g' = repeated g ∧ ∀ f, spent f g' = spent f g.

Lemma decide_other d g g' d' :
  Mode (config g) = LoopGuardModeStrict → D_Fingerprint d ≠ "" → (∀ f, D_Fingerprint d ≠ "identical:" +:+ f) →
  decide d g = (g', d') → D_Action d' ≠ loopGuardAbort → same_calls g g'.
Proof.
  intros Hm Hne Hid H Ha. destruct (decide_strict _ _ _ _ Hm Hne H Ha) as (_&_&Hc&Hr&_&_&_&Hrep).
  assert (HasPrefix (D_Fingerprint d) "identical:" = false) as Hpre.
  { destruct (HasPrefix _ _) eqn:E; [|done]. apply HasPrefix_iff in E as [t Ht]. by apply Hid in Ht. }
  rewrite Hpre in Hrep. split_and!; [done|done|]. intros f. unfold spent. rewrite Hr, count_increment, bool_decide_false; [done|].
  intros E. by apply (Hid f).
Qed.

Lemma decideStaleTodo_other d i a b g g' d' :
  decideStaleTodo d i a b g = (g', d') → same_calls g g'.
Proof. unfold decideStaleTodo. repeat case_match; intros [= <- <-]; done. Qed.

(** An observation is the first detector, or the others. *)
Lemma Observe_cases executed provider g g' d :
  Observe executed provider g = (g', d) → executed ≠ [] →
  Mode (config g) = LoopGuardModeStrict → D_Action d ≠ loopGuardAbort →
  ∃ g1 found, repeatedToolExecution executed g = (g1, found) ∧
    match found with
    | Some (tool, n, fp) => decide (detected "identical_tool_result" ("identical:" +:+ fp) tool n 0) g1 = (g', d)
    | None => same_calls g1 g'
    end.
Proof.
  unfold Observe. destruct (last executed) as [lst|] eqn:Hlast; [|by apply last_None in Hlast]. intros H _ Hm Ha.
  destruct (repeatedToolExecution executed g) as [g1 found] eqn:Hrep. exists g1, found. split; [done|].
  assert (config g1 = config g) as Hc1.
  { unfold repeatedToolExecution in Hrep. destruct (_ <=? _)%Z; [by injection Hrep as <- _|].
    destruct (repeated_execution _ _ _). by injection Hrep as <- _. }
  destruct found as [[[tool n] fp]|]; [done|]. rewrite <- Hc1 in Hm.
  destruct (repeatedPollingToolExecution executed g1) as [g2 found2] eqn:Hpoll.
  assert (same_calls g1 g2) as (Hc2&Hr2&Hs2).
  { unfold repeatedPollingToolExecution in Hpoll. destruct (_ && _); [by injection Hpoll as <- _|].
    destruct (polling_execution _ _ _ _). by injection Hpoll as <- _. }
  assert (∀ g3, same_calls g2 g3 → same_calls g1 g3) as Htrans.
  { intros g3 (E1&E2&E3). split_and!; [congruence|congruence|]. intros f. by rewrite E3. }
  rewrite <- Hc2 in Hm. destruct found2 as [[[tool n] fp]|].
  { apply Htrans. eapply decide_other; [exact Hm| |intros f|exact H|exact Ha]; done. }
  destruct (stale_todo executed provider g2) as [[[i a] b]|]; [by eapply Htrans, decideStaleTodo_other|].
  destruct (no_mutation executed g2) as [g3 stuck] eqn:Hmut.
  assert (same_calls g2 g3) as Hs3 by (unfold no_mutation in Hmut; repeat case_match; by simplify_eq).
  destruct stuck; [injection H as <- <-; by apply Htrans|]. destruct Hs3 as (Hc3&Hr3&Hs3).
  assert (∀ g4, same_calls g3 g4 → same_calls g1 g4) as Htrans3.
  { intros g4 (E1&E2&E3). apply Htrans. split_and!; [congruence|congruence|]. intros f. by rewrite E3. }
  rewrite <- Hc3 in Hm. destruct (repeatedToolCycleV2 _) as [[len fp]|]; [|injection H as <- <-; by apply Htrans3].
  set (g4 := set_recent _ g3) in *. assert (same_calls g3 g4) as Hs4 by done.
  apply Htrans3. eapply (decide_other _ g4); [exact Hm| |intros f|exact H|exact Ha]; done.
Qed.

(** ** A repeated call ends the conversation *)

(** The repetitions of a call so far: those since the last feedback, and a
    limit's worth if there was feedback. *)
Definition potential (limit : Z) (f : string) (g : loopGuard) : Z := (count f (repeated g) + limit * spent f g)%Z.

Lemma Observe_potential executed provider g g' d f :
  part ":"%char f → Mode (config g) = LoopGuardModeStrict → (0 < MaxRepeatedTools (config g))%Z →
  (count f (repeated g) < MaxRepeatedTools (config g))%Z → (0 <= spent f g <= 1)%Z →
  Observe executed provider g = (g', d) → D_Action d ≠ loopGuardAbort →
  config g' = config g ∧ (count f (repeated g') < MaxRepeatedTools (config g))%Z ∧ (0 <= spent f g' <= 1)%Z ∧
  (potential (MaxRepeatedTools (config g)) f g + (if alone f executed then 1 else 0) <= potential (MaxRepeatedTools (config g)) f g')%Z.
Proof.
  intros Hf Hm Hlim Hlt Hsp H Ha. destruct (base.decide (executed = [])) as [->|Hne].
  { injection H as <- <-. split_and!; try done; try lia. cbn. lia. }
  destruct (Observe_cases _ _ _ _ _ H Hne Hm Ha) as (g1&found&Hrep&Hcase). clear H.
  unfold repeatedToolExecution in Hrep. destruct (Z.leb_spec (MaxRepeatedTools (config g)) 0); [lia|].
  destruct (repeated_execution _ executed (repeated g)) as [counts fnd] eqn:Hex. injection Hrep as <- <-.
  destruct (repeated_execution_spec _ _ _ _ _ _ Hf Hex Hlt) as [Hmono Hbound].
  assert (alone f executed = true → count f counts = (count f (repeated g) + 1)%Z ∧
    ((∃ tool n, fnd = Some (tool, n, f)) ∨ fnd = None)) as Halone.
  { intros Hal. destruct (repeated_execution_alone (MaxRepeatedTools (config g)) executed (repeated g) f Hf Hal) as (c&Hc&[(t&n&E)|[_ E]]);
      rewrite E in Hex; injection Hex as <- <-; eauto 10. }
  unfold potential. set (limit := MaxRepeatedTools (config g)) in *. destruct fnd as [[[tool n] fp]|].
  - destruct (decide_strict (detected "identical_tool_result" ("identical:" +:+ fp) tool n 0) (set_repeated counts g) g' d Hm ltac:(done) Hcase Ha)
      as (_&_&Hc'&Hr'&Hzero&_&_&Hrep'). cbn [D_Fingerprint detected] in *.
    rewrite (proj2 (HasPrefix_iff _ _) (ex_intro _ fp eq_refl)), TrimPrefix_app in Hrep'. cbn in Hc', Hr', Hzero, Hrep'.
    change (count ("identical:" +:+ fp) (recovered g)) with (spent fp g) in Hzero.
    assert (spent f g' = if bool_decide (f = fp) then spent f g + 1 else spent f g)%Z as Hs'.
    { unfold spent. rewrite Hr', count_increment. destruct (base.decide (f = fp)) as [->|Hfp]; [by rewrite !bool_decide_true|].
      rewrite !bool_decide_false; [done|done|]. intros E. apply Hfp. by injection E. }
    rewrite Hc', Hrep', Hs', count_delete. split; [done|]. case_bool_decide as Hfp.
    + subst fp. destruct (alone f executed); split_and!; try lia; nia.
    + specialize (Hbound (λ E, Hfp (eq_sym E))). split_and!; try lia.
      destruct (alone f executed); [|lia]. destruct (Halone eq_refl) as [_ [(?&?&E)|E]]; [|done]. injection E as _ _ ->. done.
  - destruct Hcase as (Hc'&Hr'&Hs'). cbn in Hc', Hr'. specialize (Hs' f). change (spent f (set_repeated counts g)) with (spent f g) in Hs'.
    rewrite Hc', Hr', Hs'. split_and!; try done; try lia.
    destruct (alone f executed); [destruct (Halone eq_refl) as [-> _]|]; lia.
Qed.

(** A conversation that repeats itself is stopped. In the strict mode,
    among the rounds of a conversation that the guard lets go on, those that
    consist of one and the same call with the same result (which is neither a
    poll nor an idle wait) are fewer than twice the limit of repeated calls:
    whatever else the model does in between, whatever the other detectors say,
    the guard gives feedback at the limit and stops at twice the limit at the
    latest. *)
Theorem repetition_stopped {X : GuardLaws} c rounds tool :
  Mode c = LoopGuardModeStrict → (0 < MaxRepeatedTools c)%Z →
  Forall (λ d, D_Action d ≠ loopGuardAbort) (watch rounds (newLoopGuard c)).2 →
  (Z.of_nat (length (filter (λ r, alone (executedToolFingerprint tool) r.1 = true) rounds)) < 2 * MaxRepeatedTools c)%Z.
Proof.
  intros Hm Hlim Ha. set (f := executedToolFingerprint tool). assert (part ":"%char f) as Hf by apply hash_hex.
  assert (∀ rounds g, Mode (config g) = LoopGuardModeStrict → MaxRepeatedTools (config g) = MaxRepeatedTools c →
    (count f (repeated g) < MaxRepeatedTools c)%Z → (0 <= spent f g <= 1)%Z →
    Forall (λ d, D_Action d ≠ loopGuardAbort) (watch rounds g).2 →
    (potential (MaxRepeatedTools c) f g + Z.of_nat (length (filter (λ r, alone f r.1 = true) rounds)) < 2 * MaxRepeatedTools c)%Z) as Hgen.
  { clear rounds Ha. induction rounds as [|[executed provider] rounds IH]; intros g Hmg Hl Hlt Hsp; cbn [watch].
    { intros _. cbn. unfold potential. nia. }
    destruct (Observe executed provider g) as [g1 d] eqn:Hob. destruct (watch rounds g1) as [g2 ds] eqn:Hw.
    intros [Hd Hds]%Forall_cons.
    destruct (Observe_potential executed provider g g1 d f Hf Hmg ltac:(lia) ltac:(lia) Hsp Hob Hd) as (Hc&Hlt1&Hsp1&Hpot).
    rewrite Hl in Hlt1, Hpot.
    specialize (IH g1 ltac:(congruence) ltac:(congruence) Hlt1 Hsp1). rewrite Hw in IH. specialize (IH Hds).
    rewrite filter_cons. cbn [fst]. destruct (alone f executed); [rewrite decide_True by done; cbn [length]|rewrite decide_False by done]; unfold round in *; lia. }
  assert (Mode (config (newLoopGuard c)) = Mode c ∧ MaxRepeatedTools (config (newLoopGuard c)) = MaxRepeatedTools c ∧
    potential (MaxRepeatedTools c) f (newLoopGuard c) = 0%Z) as (E1&E2&E3).
  { unfold newLoopGuard, potential, spent, count. destruct (_ <? _)%Z; cbn; rewrite !lookup_empty; split_and!; cbn; lia || done. }
  specialize (Hgen rounds (newLoopGuard c)). rewrite E1, E2, E3, Z.add_0_l in Hgen. by apply Hgen.
Qed.

(** ** The budget of feedback *)

(** Feedback that the budget counts. *)
Definition spends (d : loopGuardDecision) : bool :=
  match D_Action d with loopGuardRecover => negb (bool_decide (D_Reason d = "no_mutation_spiral")) | _ => false end.

Record books (g : loopGuard) : Prop := {
  books_recovered fp : (count fp (recovered g) <= totalRecovery g)%Z;
  books_stale i : (count i (staleRecovered g) <= totalRecovery g)%Z;
  books_total : (0 <= totalRecovery g <= MaxRecoveries (config g))%Z;
}.

(** What a decision does to the books. *)
Definition booked (g g' : loopGuard) (d : loopGuardDecision) : Prop :=
  config g' = config g ∧ books g' ∧ totalRecovery g' = (totalRecovery g + if spends d then 1 else 0)%Z ∧
  (D_Action d = loopGuardAbort → (0 < MaxRecoveries (config g))%Z → (0 < totalRecovery g)%Z).

Lemma count_increment_le `{Countable K} (k k' : K) (m : gmap K Z) n :
  (∀ k, count k m <= n)%Z → (count k (increment k' m) <= n + 1)%Z.
Proof. intros Hm. rewrite count_increment. specialize (Hm k). case_bool_decide; lia. Qed.

Lemma reset_stale d g : staleRecovered (resetCountsAfterRecovery d g) = staleRecovered g.
Proof. unfold resetCountsAfterRecovery. by repeat case_match. Qed.

(** Nothing changes when the guard stops the conversation. *)
#[local] Ltac refused_books := split_and!; try done; cbn; try intros _; lia.

Lemma decide_booked d g g' d' :
  Mode (config g) = LoopGuardModeStrict → D_Reason d ≠ "no_mutation_spiral" → books g → decide d g = (g', d') → booked g g' d'.
Proof.
  intros Hm Hr Hb. pose proof Hb as [Hrec Hst Htot]. unfold decide.
  assert (D_Reason (with_fingerprint d) = D_Reason d) as Hr' by (unfold with_fingerprint; by case_bool_decide).
  generalize dependent (with_fingerprint d). intros d1 Hr1. rewrite Hm. cbv zeta. rewrite <- Hr1 in Hr.
  destruct (Z.leb_spec (MaxRecoveries (config g)) 0); [intros [= <- <-]; refused_books|].
  destruct (Z.ltb_spec 0 (count (D_Fingerprint d1) (recovered g))) as [Hc|Hc].
  { intros [= <- <-]. specialize (Hrec (D_Fingerprint d1)). refused_books. }
  destruct (Z.leb_spec (MaxRecoveries (config g)) (totalRecovery g)); [intros [= <- <-]; refused_books|].
  intros [= <- <-]. unfold booked.
  match goal with |- context [resetCountsAfterRecovery ?d0 ?g0] =>
    destruct (reset_fields d0 g0) as (E1&E2&E3&_); pose proof (reset_stale d0 g0) as E4 end.
  rewrite E1, E3. unfold spends. cbn [recovering D_Action D_Reason]. rewrite bool_decide_false by done.
  split_and!; [done| |by cbn|done]. constructor; rewrite ?E1, ?E2, ?E3, ?E4.
  - intros fp. cbn. by apply count_increment_le.
  - intros i. cbn. specialize (Hst i). lia.
  - cbn. lia.
Qed.

Lemma decideStaleTodo_booked d i a b g g' d' :
  Mode (config g) = LoopGuardModeStrict → D_Reason d ≠ "no_mutation_spiral" → books g →
  decideStaleTodo d i a b g = (g', d') → booked g g' d'.
Proof.
  intros Hm Hr Hb. pose proof Hb as [Hrec Hst Htot]. unfold decideStaleTodo. rewrite Hm. cbv zeta.
  destruct (Z.leb_spec (MaxRecoveries (config g)) 0); [intros [= <- <-]; refused_books|].
  destruct (Z.leb_spec (MaxRecoveries (config g)) (count i (staleRecovered g))).
  { intros [= <- <-]. specialize (Hst i). refused_books. }
  destruct (Z.leb_spec (MaxRecoveries (config g)) (totalRecovery g)); [intros [= <- <-]; refused_books|].
  intros [= <- <-]. unfold booked, spends. cbn. rewrite bool_decide_false by done. split_and!; [done| |by cbn|done].
  constructor; cbn; [|intros j; by apply count_increment_le|lia]. intros fp. specialize (Hrec fp). lia.
Qed.

(** What the detectors count is in no book. *)
Definition same_books (g g' : loopGuard) : Prop :=
  config g' = config g ∧ recovered g' = recovered g ∧ staleRecovered g' = staleRecovered g ∧ totalRecovery g' = totalRecovery g.

Lemma booked_after g g1 g' d : same_books g g1 → booked g1 g' d → booked g g' d.
Proof. intros (E1&_&_&E4) (H1&H2&H3&H4). rewrite E1 in *. rewrite E4 in *. by split_and!. Qed.

Lemma books_same g g1 : same_books g g1 → books g → books g1.
Proof. intros (E1&E2&E3&E4) []. constructor; rewrite ?E1, ?E2, ?E3, ?E4; done. Qed.

Lemma same_books_allow g g1 : books g → same_books g g1 → booked g g1 allow.
Proof. intros Hb Hs. pose proof (books_same _ _ Hs Hb). destruct Hs as (E1&_&_&E4). split_and!; try done. cbn. lia. Qed.

Lemma Observe_booked executed provider g g' d :
  Mode (config g) = LoopGuardModeStrict → books g → Observe executed provider g = (g', d) → booked g g' d.
Proof.
  intros Hm Hb. unfold Observe. destruct (last executed) as [lst|]; [|intros [= <- <-]; by apply same_books_allow].
  destruct (repeatedToolExecution executed g) as [g1 found] eqn:H1.
  assert (same_books g g1) as Hs1 by (unfold repeatedToolExecution in H1; repeat case_match; by simplify_eq).
  destruct found as [[[tool n] fp]|].
  { intros H. eapply booked_after; [exact Hs1|]. destruct Hs1 as (E1&?). eapply decide_booked; [by rewrite E1| |by eapply books_same|exact H]. done. }
  destruct (repeatedPollingToolExecution executed g1) as [g2 found2] eqn:H2.
  assert (same_books g g2) as Hs2.
  { unfold repeatedPollingToolExecution in H2. repeat case_match; by simplify_eq. }
  destruct found2 as [[[tool n] fp]|].
  { intros H. eapply booked_after; [exact Hs2|]. destruct Hs2 as (E1&?). eapply decide_booked; [by rewrite E1| |by eapply books_same|exact H]. done. }
  destruct (stale_todo executed provider g2) as [[[i a] b]|].
  { intros H. eapply booked_after; [exact Hs2|]. destruct Hs2 as (E1&?). eapply decideStaleTodo_booked; [by rewrite E1| |by eapply books_same|exact H]. done. }
  destruct (no_mutation executed g2) as [g3 stuck] eqn:H3.
  assert (same_books g g3) as Hs3 by (unfold no_mutation in H3; repeat case_match; by simplify_eq).
  destruct stuck.
  { intros [= <- <-]. eapply booked_after; [exact Hs3|]. pose proof (books_same _ _ Hs3 Hb) as Hb3. split_and!; try done; [by destruct Hb3; constructor|change (spends _) with false; cbn; lia]. }
  destruct (repeatedToolCycleV2 _) as [[len fp]|].
  - intros H. set (g4 := set_recent _ g3) in *. assert (same_books g g4) as Hs4 by exact Hs3.
    eapply booked_after; [exact Hs4|]. pose proof Hs4 as (E1&_). eapply decide_booked; [by rewrite E1| |by eapply books_same|exact H]. done.
  - intros [= <- <-]. by apply same_books_allow.
Qed.

(** The guard gives feedback within its budget, and stops nobody without
    warning. In the strict mode the pieces of feedback that count, over a whole
    conversation, are at most as many as the configuration allows; and when it
    allows some, the conversation is stopped only after one of them. *)
Theorem recovery_budget_kept c rounds :
  Mode c = LoopGuardModeStrict →
  let ds := (watch rounds (newLoopGuard c)).2 in
  (Z.of_nat (length (filter (λ d, spends d = true) ds)) <= Z.max 0 (MaxRecoveries c))%Z ∧
  ((0 < MaxRecoveries c)%Z → ∀ i d, ds !! i = Some d → D_Action d = loopGuardAbort →
     ∃ j d', j < i ∧ ds !! j = Some d' ∧ spends d' = true).
Proof.
  intros Hm. cbv zeta.
  assert (∀ rounds g, Mode (config g) = LoopGuardModeStrict → books g →
    (totalRecovery g + Z.of_nat (length (filter (λ d, spends d = true) (watch rounds g).2)) <= MaxRecoveries (config g))%Z ∧
    ((0 < MaxRecoveries (config g))%Z → ∀ i d, (watch rounds g).2 !! i = Some d → D_Action d = loopGuardAbort →
       (0 < totalRecovery g)%Z ∨ ∃ j d', j < i ∧ (watch rounds g).2 !! j = Some d' ∧ spends d' = true)) as Hgen.
  { clear. induction rounds as [|[executed provider] rounds IH]; intros g Hm Hb; cbn [watch].
    { split; [destruct Hb; cbn; lia|done]. }
    destruct (Observe executed provider g) as [g1 d] eqn:Hob.
    destruct (Observe_booked _ _ _ _ _ Hm Hb Hob) as (Hc&Hb1&Htot&Habort).
    destruct (IH g1 ltac:(congruence) Hb1) as [Hlen Hwarn]. destruct (watch rounds g1) as [g2 ds]. cbn [snd] in *. rewrite Hc in *. split.
    - rewrite filter_cons. destruct (spends d); [rewrite decide_True by done; cbn [length]|rewrite decide_False by done]; lia.
    - intros Hpos [|i] d'; cbn [lookup list_lookup]; [intros [= <-] Ha; left; by apply Habort|].
      intros Hi Ha. destruct (spends d) eqn:Hs; [right; exists 0, d; cbn; split_and!; [lia|done|done]|].
      destruct (Hwarn Hpos i d' Hi Ha) as [H0|(j&d2&Hj&Hd2&Hs2)]; [left; lia|right; exists (S j), d2; split_and!; [lia|done|done]]. }
  assert (Mode (config (newLoopGuard c)) = LoopGuardModeStrict ∧ MaxRecoveries (config (newLoopGuard c)) = Z.max 0 (MaxRecoveries c) ∧
    totalRecovery (newLoopGuard c) = 0%Z ∧ books (newLoopGuard c)) as (E1&E2&E3&Hb).
  { unfold newLoopGuard. destruct (Z.ltb_spec (MaxRecoveries c) 0); cbn; split_and!; try done; try lia;
      constructor; cbn; intros; try lia; unfold count; by rewrite lookup_empty. }
  destruct (Hgen rounds (newLoopGuard c) E1 Hb) as [H1 H2]. rewrite E2, E3 in H1, H2. split; [lia|].
  intros Hpos i d Hi Ha. destruct (H2 ltac:(lia) i d Hi Ha) as [?|H]; [lia|exact H].
Qed.

(** Who may be stopped. The guard stops a conversation only in the strict
    mode, and never because its rounds write nothing. *)
Theorem abort_only_strict executed provider g :
  let d := (Observe executed provider g).2 in
  D_Action d = loopGuardAbort → Mode (config g) = LoopGuardModeStrict ∧ D_Reason d ≠ "no_mutation_spiral".
Proof.
  cbv zeta. assert (∀ d g1, (D_Reason d ≠ "no_mutation_spiral") → config g1 = config g → D_Action (LoopGuard.decide d g1).2 = loopGuardAbort →
    Mode (config g) = LoopGuardModeStrict ∧ D_Reason (LoopGuard.decide d g1).2 ≠ "no_mutation_spiral") as Hdec.
  { intros d g1 Hr <-. unfold LoopGuard.decide.
    assert (D_Reason (with_fingerprint d) = D_Reason d) as Hr' by (unfold with_fingerprint; by case_bool_decide).
    destruct (Mode (config g1)); cbn; [|done|done]. repeat case_match; cbn; rewrite Hr'; done. }
  unfold Observe. destruct (last executed) as [lst|]; [|done].
  destruct (repeatedToolExecution executed g) as [g1 found] eqn:H1.
  assert (config g1 = config g) as E1 by (unfold repeatedToolExecution in H1; repeat case_match; by simplify_eq).
  destruct found as [[[tool n] fp]|]; [by apply Hdec|].
  destruct (repeatedPollingToolExecution executed g1) as [g2 found2] eqn:H2.
  assert (config g2 = config g) as E2 by (unfold repeatedPollingToolExecution in H2; repeat case_match; by simplify_eq).
  destruct found2 as [[[tool n] fp]|]; [by apply Hdec|].
  destruct (stale_todo executed provider g2) as [[[i a] b]|].
  { unfold decideStaleTodo. rewrite E2. destruct (Mode (config g)); cbn; [|done|done]. repeat case_match; done. }
  destruct (no_mutation executed g2) as [g3 stuck] eqn:H3.
  assert (config g3 = config g) as E3 by (unfold no_mutation in H3; repeat case_match; by simplify_eq).
  destruct stuck; [done|]. destruct (repeatedToolCycleV2 _) as [[len fp]|]; [by apply Hdec|done].
Qed.

(** ** Cycles *)

(** The calls end with the same [n] calls three times. *)
Definition thrice (n : nat) (calls : list string) : Prop :=
  ∃ earlier block, length block = n ∧ calls = earlier ++ block ++ block ++ block.

Lemma repeats_exact n calls : n = 2 ∨ n = 3 → (∃ h, repeats calls n = Some (n, h)) ↔ thrice n calls.
Proof.
  intros Hn. unfold repeats. cbv zeta. destruct (Nat.ltb_spec (length calls) (n * 3)) as [Hlt|Hge].
  { split; [by intros [? ?]|]. intros (e&b&Hb&->). rewrite !length_app in Hlt. lia. }
  remember (drop (length calls - n * 3) calls) as tail eqn:Htail.
  assert (length tail = n * 3) as Hlen by (subst tail; rewrite length_drop; lia).
  assert (calls = take (length calls - n * 3) calls ++ tail) as Hsplit by (subst tail; by rewrite take_drop).
  assert (cycle_matches tail n n (n * 3 - n) = true ↔ ∃ block, length block = n ∧ tail = block ++ block ++ block) as Hm.
  { clear Htail Hsplit. destruct Hn as [-> | ->].
    - destruct tail as [|a [|b [|c [|d [|e [|f [|]]]]]]]; try done. cbn. rewrite !andb_true_iff, !bool_decide_eq_true. split.
      + intros ([= ->]&[= ->]&[= ->]&[= ->]&_). by exists [a; b].
      + intros ([|x [|y [|]]]&Hl&H); try done. by injection H as <- <- <- <- <- <-.
    - destruct tail as [|a [|b [|c [|d [|e [|f [|g [|h [|i [|]]]]]]]]]]; try done. cbn. rewrite !andb_true_iff, !bool_decide_eq_true. split.
      + intros ([= ->]&[= ->]&[= ->]&[= ->]&[= ->]&[= ->]&_). by exists [a; b; c].
      + intros ([|x [|y [|z [|]]]]&Hl&H); try done. by injection H as <- <- <- <- <- <- <- <- <-. }
  destruct (cycle_matches tail n n (n * 3 - n)).
  - split; [|by eexists]. intros _. destruct (proj1 Hm eq_refl) as (b&Hb&Ht). exists (take (length calls - n * 3) calls), b.
    split; [done|]. by rewrite <- Ht.
  - split; [by intros [? ?]|]. intros (e&b&Hb&Hc). exfalso. assert (false = true); [|done]. apply Hm. exists b. split; [done|].
    rewrite Hc in Hsplit. apply app_inj_2 in Hsplit as [_ Ht]; [done|]. rewrite Hlen, !length_app. lia.
Qed.

(** The search for cycles is exact. It reports a cycle of two or three calls
    if and only if the recent calls end with the same two, or three, calls three
    times in a row, and of both it reports the shorter. *)
Theorem guard_cycles_exact calls n :
  (∃ h, repeatedToolCycleV2 calls = Some (n, h)) ↔ (n = 2 ∧ thrice 2 calls) ∨ (n = 3 ∧ thrice 3 calls ∧ ¬ thrice 2 calls).
Proof.
  pose proof (repeats_exact 2 calls (or_introl eq_refl)) as H2. pose proof (repeats_exact 3 calls (or_intror eq_refl)) as H3.
  assert (∀ k r, repeats calls k = Some r → r.1 = k) as Hk by (intros k r; unfold repeats; cbv zeta; repeat case_match; by intros [= <-]).
  unfold repeatedToolCycleV2. destruct (repeats calls 2) as [[k h]|] eqn:E2.
  - pose proof (Hk _ _ E2) as Hk2. cbn in Hk2. subst k. split.
    + intros [h' [= <- _]]. left. split; [done|]. apply H2. by eexists.
    + intros [[-> _]|(_&_&Hn)]; [by eexists|]. exfalso. apply Hn, H2. by eexists.
  - split.
    + intros [h' E3]. right. pose proof (Hk _ _ E3) as Hn. cbn in Hn. subst n. split; [done|]. split; [apply H3; by eexists|].
      intros Ht%H2. by destruct Ht.
    + intros [[-> Ht%H2]|(->&Ht%H3&_)]; [by destruct Ht|exact Ht].
Qed.

End Spec.
