(* ===== verification/Sanitize.v ===== *)
(** * Conversations: the messages that a provider is sent

    [SanitizeMessagesForProvider] of [internal/core/conversation/runner.go] and
    the shortening of large tool results of
    [internal/core/modelcontext/tool_results.go]. Uses of tools that no result
    answers are left out, so that what is sent only grows at its end. *)
From S2P Require Import Prelude GoStrings GoRunes JSON FlowModel SessionJournal LoopGuard.
From Stdlib Require Import Ascii ZArith Lia SpecFloat.

(** ** Messages ([internal/contracts/protocol/protocol.go]) *)

Inductive BlockType := BlockText | BlockImage | BlockToolUse | BlockToolResult | BlockThinking | OtherBlock (name : string).

Record ImageSource := mkImage { Im_Type : string; Im_MediaType : string; Im_Data : string }.

Record Block := mkBlock {
  B_Type : BlockType;
  B_Text : string;
  B_Source : option ImageSource;
  B_ID : string;
  B_Name : string;
  B_Input : option (list (string * json));
  B_ToolUseID : string;
  B_Content : string;
  B_IsError : bool;
  B_Signature : string;
  B_Redacted : bool;
  B_Index : Z;
}.

Record APIMessage := mkMessage { Role : string; Content : list Block; ReasoningContent : string }.

Definition RoleUser : string := "user".
Definition RoleAssistant : string := "assistant".

Definition TextBlock (text : string) : Block := mkBlock BlockText text None "" "" None "" "" false "" false 0.
(** A copy of decoded arguments. The copy of an empty map or array is a nil map
    or slice, which is encoded as [null]; values of other Go types, which no
    decoded argument has but those nil ones, are left as they are. *)
Definition nil_map : json := JGo "map[string]interface {}" JNull.
Definition nil_slice : json := JGo "[]interface {}" JNull.
Fixpoint cloneValue (v : json) : json :=
  match v with
  | JObject [] => nil_map
  | JObject m => JObject ((λ '(k, v), (k, cloneValue v)) <$> m)
  | JArray [] => nil_slice
  | JArray l => JArray (cloneValue <$> l)
  | _ => v
  end.
Definition cloneMap (m : option (list (string * json))) : option (list (string * json)) :=
  match m with
  | None | Some [] => None
  | Some m => Some ((λ '(k, v), (k, cloneValue v)) <$> m)
  end.
Definition ToolUseBlock (id name : string) (input : option (list (string * json))) : Block :=
  mkBlock BlockToolUse "" None id name (cloneMap input) "" "" false "" false 0.
Definition ToolResultBlock (toolUseID content : string) : Block :=
  mkBlock BlockToolResult "" None "" "" None toolUseID content false "" false 0.

(** ** Large results *)

Definition MaxVisibleToolResultBytes : nat := 32 * 1024.
Definition ToolResultPreviewHead : nat := 3 * 1024.
Definition ToolResultPreviewTail : nat := 1024.

Definition ValidString (s : string) : bool := bool_decide (encode (runes s) = s).

(** The longest valid prefix of at most [end_] bytes, and the first valid suffix
    from [start] on. *)
Fixpoint valid_end (text : string) (end_ : nat) : nat :=
  match end_ with 0 => 0 | S n => if ValidString (stake end_ text) then end_ else valid_end text n end.
Fixpoint valid_start (text : string) (start fuel : nat) : nat :=
  match fuel with
  | 0 => start
  | S fuel => if (start <? String.length text) && negb (ValidString (sdrop start text)) then valid_start text (S start) fuel else start
  end.

Definition validPrefix (text : string) (maxBytes : nat) : string :=
  if String.length text <=? maxBytes then text else stake (valid_end text maxBytes) text.
Definition validSuffix (text : string) (maxBytes : nat) : string :=
  if String.length text <=? maxBytes then text
  else if maxBytes =? 0 then ""
  else sdrop (valid_start text (String.length text - maxBytes) (S maxBytes)) text.

Definition TooLargeForModel (text : string) : bool := MaxVisibleToolResultBytes <? String.length text.

Definition two_lines : string := String (ascii_of_N 10) (String (ascii_of_N 10) "").
Definition TruncatedPreview (text : string) : string :=
  if String.length text <=? ToolResultPreviewHead + ToolResultPreviewTail then text
  else validPrefix text ToolResultPreviewHead +:+ two_lines +:+ "...[tool result truncated]..." +:+ two_lines +:+
       validSuffix text ToolResultPreviewTail.

Record LargeToolResultSummary := mkLarge {
  Lg_Status : string;
  Lg_ToolName : string;
  Lg_ToolUseID : string;
  Lg_Bytes : Z;
  Lg_SHA256 : string;
  Lg_ArtifactPath : string;
  Lg_Transcript : string;
  Lg_Preview : string;
  Lg_Note : string;
}.

Definition set_Lg_Preview (p : string) (s : LargeToolResultSummary) : LargeToolResultSummary :=
  mkLarge (Lg_Status s) (Lg_ToolName s) (Lg_ToolUseID s) (Lg_Bytes s) (Lg_SHA256 s) (Lg_ArtifactPath s) (Lg_Transcript s) p (Lg_Note s).
Definition with_defaults (s : LargeToolResultSummary) : LargeToolResultSummary :=
  mkLarge (if bool_decide (Lg_Status s = "") then "tool_result_truncated" else Lg_Status s) (Lg_ToolName s) (Lg_ToolUseID s)
    (Lg_Bytes s) (Lg_SHA256 s) (Lg_ArtifactPath s) (Lg_Transcript s) (Lg_Preview s)
    (if bool_decide (Lg_Note s = "")
     then "Large tool result was removed from model-visible context; use the referenced artifact or transcript for full output."
     else Lg_Note s).

Section Sanitize.
Context {J : JSONLib} {G : GuardLib}.

(** The fields as the tags of the struct name them, without the empty ones. *)
Definition optional (k v : string) : list (string * json) := if bool_decide (v = "") then [] else [(k, JString v)].
Definition summary_json (s : LargeToolResultSummary) : json :=
  JObject ([("status", JString (Lg_Status s))] ++ optional "tool_name" (Lg_ToolName s) ++ optional "tool_use_id" (Lg_ToolUseID s) ++
    [("bytes", JGo "int" (JNum (binary_normalize 53 1024 (Lg_Bytes s) 0 false))); ("sha256", JString (Lg_SHA256 s))] ++
    optional "artifact_path" (Lg_ArtifactPath s) ++ optional "transcript" (Lg_Transcript s) ++ optional "preview" (Lg_Preview s) ++
    optional "note" (Lg_Note s)).

Definition dq : string := String dquote "".
Definition bare_summary (s : LargeToolResultSummary) : string :=
  "{" +:+ dq +:+ "status" +:+ dq +:+ ":" +:+ dq +:+ "tool_result_truncated" +:+ dq +:+ "," +:+ dq +:+ "bytes" +:+ dq +:+ ":" +:+
  itoa (Lg_Bytes s) +:+ "," +:+ dq +:+ "sha256" +:+ dq +:+ ":" +:+ quote (Lg_SHA256 s) +:+ "}".

Definition too_long (data : string) : bool := MaxVisibleToolResultBytes <? String.length data.

Definition SummaryJSON (s : LargeToolResultSummary) : string :=
  let s := with_defaults s in
  match Marshal (summary_json s) with
  | None => bare_summary s
  | Some data =>
      let shorter := if too_long data && negb (bool_decide (Lg_Preview s = "")) then set_Lg_Preview (validPrefix (Lg_Preview s) 2048) s else s in
      match (if too_long data && negb (bool_decide (Lg_Preview s = "")) then Marshal (summary_json shorter) else Some data) with
      | None => bare_summary s
      | Some data =>
          if too_long data then
            match Marshal (summary_json (set_Lg_Preview "" shorter)) with Some data => data | None => bare_summary s end
          else data
      end
  end.

(** The result that the model sees. *)
Definition visible_content (toolUseID content : string) : string :=
  if TooLargeForModel content then
    SummaryJSON (mkLarge "" "" toolUseID (Z.of_nat (String.length content)) (sha256_hex content) "" "" (TruncatedPreview content) "")
  else content.

(** ** Sanitizing *)

Definition blank (s : string) : bool := bool_decide (TrimSpace s = "").

(** The ids of the uses seen so far, and of those that a later result answers. *)
Definition resolve_block (st : gset string * gset string) (block : Block) : gset string * gset string :=
  let '(seen, resolved) := st in
  match B_Type block with
  | BlockToolUse => if negb (blank (B_ID block)) then ({[B_ID block]} ∪ seen, resolved) else st
  | BlockToolResult => if bool_decide (B_ToolUseID block ∈ seen) then (seen, {[B_ToolUseID block]} ∪ resolved) else st
  | _ => st
  end.
Definition resolvedToolUses (messages : list APIMessage) : gset string :=
  (foldl (λ st msg, foldl resolve_block st (Content msg)) (∅, ∅) messages).2.

(** What becomes of a block: the open uses, and the block that is sent. *)
Definition sanitize_block (resolved : gset string) (assistant : bool) (openTools : gset string) (block : Block) : gset string * list Block :=
  match B_Type block with
  | BlockText => (openTools, if negb (blank (B_Text block)) then [TextBlock (B_Text block)] else [])
  | BlockImage => (openTools, if is_None (B_Source block) then [] else [block])
  | BlockToolUse =>
      if assistant && negb (blank (B_ID block)) && negb (blank (B_Name block)) && bool_decide (B_ID block ∈ resolved)
      then ({[B_ID block]} ∪ openTools, [ToolUseBlock (B_ID block) (B_Name block) (B_Input block)])
      else (openTools, [])
  | BlockToolResult =>
      if blank (B_ToolUseID block) then (openTools, [])
      else if negb (bool_decide (B_ToolUseID block ∈ openTools)) then (openTools, [])
      else (openTools ∖ {[B_ToolUseID block]}, [ToolResultBlock (B_ToolUseID block) (visible_content (B_ToolUseID block) (B_Content block))])
  | _ => (openTools, [])
  end.

Fixpoint sanitizeBlocks (blocks : list Block) (openTools : gset string) (assistant : bool) (resolved : gset string) :
    gset string * list Block :=
  match blocks with
  | [] => (openTools, [])
  | block :: blocks =>
      let '(openTools, here) := sanitize_block resolved assistant openTools block in
      let '(openTools, rest) := sanitizeBlocks blocks openTools assistant resolved in
      (openTools, here ++ rest)
  end.

Definition onlyUserMergeable (blocks : list Block) : bool :=
  forallb (λ b, match B_Type b with BlockToolUse | BlockToolResult => false | _ => true end) blocks.

(** A message joins the one before it, or is added. *)
Definition add_message (out : list APIMessage) (role : string) (blocks : list Block) (reasoning : string) : list APIMessage :=
  let added := out ++ [mkMessage role blocks (if bool_decide (role = RoleAssistant) then reasoning else "")] in
  match last out with
  | Some prev =>
      if bool_decide (role = RoleUser) && bool_decide (Role prev = RoleUser) && onlyUserMergeable (Content prev) && onlyUserMergeable blocks
      then take (length out - 1) out ++
             [mkMessage (Role prev) (Content prev ++ [TextBlock two_lines] ++ blocks) (ReasoningContent prev)]
      else added
  | None => added
  end.

Definition sanitize_message (resolved : gset string) (st : list APIMessage * gset string) (msg : APIMessage) :
    list APIMessage * gset string :=
  let '(out, openTools) := st in
  let '(openTools, blocks) := sanitizeBlocks (Content msg) openTools (bool_decide (Role msg = RoleAssistant)) resolved in
  if is_nil blocks then (out, openTools)
  else
    let role := if blank (Role msg) then RoleUser else TrimSpace (Role msg) in
    (add_message out role blocks (ReasoningContent msg), openTools).

Definition SanitizeMessagesForProvider (messages : list APIMessage) : list APIMessage :=
  (foldl (sanitize_message (resolvedToolUses messages)) ([], ∅) messages).1.

End Sanitize.

(** * Conversations: what a provider is sent is well formed

    Every use of a tool is answered by a later result, every result answers an
    earlier use, nothing blank is sent; and as a conversation grows, what is
    sent grows at its end. *)

(** ** Well-formed messages *)

(** The uses that are open after some blocks; [None] when a result answers none. *)
Definition open_after (openTools : gset string) (block : Block) : option (gset string) :=
  match B_Type block with
  | BlockToolUse => Some ({[B_ID block]} ∪ openTools)
  | BlockToolResult => if bool_decide (B_ToolUseID block ∈ openTools) then Some (openTools ∖ {[B_ToolUseID block]}) else None
  | _ => Some openTools
  end.
Fixpoint opens (openTools : gset string) (blocks : list Block) : option (gset string) :=
  match blocks with [] => Some openTools | block :: blocks => open ← open_after openTools block; opens open blocks end.

Definition block_ok (assistant : bool) (block : Block) : Prop :=
  match B_Type block with
  | BlockText => B_Text block ≠ ""
  | BlockImage => B_Source block ≠ None
  | BlockToolUse => assistant = true ∧ blank (B_ID block) = false ∧ blank (B_Name block) = false
  | BlockToolResult => blank (B_ToolUseID block) = false
  | _ => False
  end.

Definition message_ok (msg : APIMessage) : Prop :=
  Role msg ≠ "" ∧ Content msg ≠ [] ∧ Forall (block_ok (bool_decide (Role msg = RoleAssistant))) (Content msg).

(** What a provider accepts. *)
Definition well_formed (messages : list APIMessage) : Prop :=
  Forall message_ok messages ∧ opens ∅ (messages ≫= Content) = Some ∅.

(** The ids of the uses. *)
Definition uses (blocks : list Block) : list string :=
  omap (λ b, match B_Type b with BlockToolUse => Some (B_ID b) | _ => None end) blocks.

Section Spec.
Context {J : JSONLib} {G : GuardLib}.

Lemma opens_app o l1 l2 : opens o (l1 ++ l2) = o' ← opens o l1; opens o' l2.
Proof. revert o. induction l1 as [|b l1 IH]; intros o; [done|]. cbn. destruct (open_after o b); [apply IH|done]. Qed.

(** ** One block after the other *)

Definition state : Type := gset string * list Block.
Definition walk_block (resolved : gset string) (st : gset string * list Block) (ab : bool * Block) : gset string * list Block :=
  let '(o, here) := sanitize_block resolved ab.1 st.1 ab.2 in (o, st.2 ++ here).
Definition walk (resolved : gset string) (st : gset string * list Block) (blocks : list (bool * Block)) : gset string * list Block :=
  foldl (walk_block resolved) st blocks.

Lemma walk_message resolved o out assistant blocks :
  walk resolved (o, out) (pair assistant <$> blocks) =
    let '(o', here) := sanitizeBlocks blocks o assistant resolved in (o', out ++ here).
Proof.
  revert o out. induction blocks as [|b blocks IH]; intros o out; cbn; [by rewrite app_nil_r|].
  unfold walk_block at 2. cbn. destruct (sanitize_block resolved assistant o b) as [o1 here].
  fold (walk resolved (o1, out ++ here) (pair assistant <$> blocks)). rewrite IH.
  destruct (sanitizeBlocks blocks o1 assistant resolved) as [o2 rest]. by rewrite app_assoc.
Qed.

Lemma walk_app resolved st l1 l2 : walk resolved st (l1 ++ l2) = walk resolved (walk resolved st l1) l2.
Proof. apply foldl_app. Qed.

(** What is sent of a block keeps the account of open uses. *)
Lemma sanitize_block_opens resolved assistant o b o' here :
  sanitize_block resolved assistant o b = (o', here) → opens o here = Some o' ∧ Forall (block_ok assistant) here.
Proof.
  unfold sanitize_block. destruct (B_Type b) eqn:Ht.
  - destruct (blank (B_Text b)) eqn:Hb; cbn; intros [= <- <-]; (split; [done|]); [done|]. constructor; [|done].
    cbn. intros E. rewrite E in Hb. done.
  - destruct (B_Source b) eqn:Hs; cbn; intros [= <- <-]; [|done]. cbn. unfold open_after. rewrite Ht. split; [done|].
    constructor; [|done]. unfold block_ok. by rewrite Ht, Hs.
  - destruct assistant; cbn; [|by intros [= <- <-]]. destruct (blank (B_ID b)) eqn:H1; cbn; [by intros [= <- <-]|].
    destruct (blank (B_Name b)) eqn:H2; cbn; [by intros [= <- <-]|]. case_bool_decide; intros [= <- <-]; [|done].
    split; [done|]. constructor; [|done]. by cbn.
  - destruct (blank (B_ToolUseID b)) eqn:H1; [by intros [= <- <-]|]. case_bool_decide as H2; cbn; intros [= <- <-]; [|done].
    cbn. rewrite bool_decide_true by done. split; [done|]. constructor; [|done]. by cbn.
  - by intros [= <- <-].
  - by intros [= <- <-].
Qed.

Lemma sanitizeBlocks_opens blocks o assistant resolved o' here :
  sanitizeBlocks blocks o assistant resolved = (o', here) → opens o here = Some o' ∧ Forall (block_ok assistant) here.
Proof.
  revert o o' here. induction blocks as [|b blocks IH]; intros o o' here; cbn; [by intros [= <- <-]|].
  destruct (sanitize_block resolved assistant o b) as [o1 h1] eqn:H1.
  destruct (sanitizeBlocks blocks o1 assistant resolved) as [o2 h2] eqn:H2. intros [= <- <-].
  destruct (sanitize_block_opens _ _ _ _ _ _ H1) as [E1 F1]. destruct (IH _ _ _ H2) as [E2 F2].
  rewrite opens_app, E1. split; [exact E2|by apply Forall_app].
Qed.

(** ** Uses that are answered *)

Definition answered (id : string) (l : list (bool * Block)) : Prop :=
  ∃ ab, ab ∈ l ∧ B_Type ab.2 = BlockToolResult ∧ B_ToolUseID ab.2 = id.

Lemma foldl_bind {A B C} (f : A → B → A) (g : C → list B) a l : foldl (λ a c, foldl f a (g c)) a l = foldl f a (l ≫= g).
Proof. revert a. induction l as [|c l IH]; intros a; [done|]. cbn. by rewrite IH, foldl_app. Qed.

(** A use, and a result after it. *)
Definition use_then_result (id : string) (l : list Block) : Prop :=
  ∃ l1 b1 l2 b2 l3, l = l1 ++ b1 :: l2 ++ b2 :: l3 ∧ B_Type b1 = BlockToolUse ∧ B_ID b1 = id ∧
    B_Type b2 = BlockToolResult ∧ B_ToolUseID b2 = id.

Lemma use_then_result_app id l l' : use_then_result id l → use_then_result id (l ++ l').
Proof. intros (l1&b1&l2&b2&l3&->&H). exists l1, b1, l2, b2, (l3 ++ l'). by rewrite <- app_assoc, <- app_comm_cons, <- app_assoc. Qed.

Lemma resolve_spec l :
  (∀ id, id ∈ (foldl resolve_block (∅, ∅) l).1 → ∃ l1 b l2, l = l1 ++ b :: l2 ∧ B_Type b = BlockToolUse ∧ B_ID b = id) ∧
  (∀ id, id ∈ (foldl resolve_block (∅, ∅) l).2 → use_then_result id l).
Proof.
  induction l as [|b l [IH1 IH2]] using rev_ind; [split; set_solver|]. rewrite foldl_app. cbn [foldl].
  destruct (foldl resolve_block (∅, ∅) l) as [seen resolved]. cbn [fst snd] in *.
  assert (∀ id, id ∈ seen → ∃ l1 b0 l2, l ++ [b] = l1 ++ b0 :: l2 ∧ B_Type b0 = BlockToolUse ∧ B_ID b0 = id) as Hseen.
  { intros id (l1&b0&l2&->&H)%IH1. exists l1, b0, (l2 ++ [b]). by rewrite <- app_assoc, <- app_comm_cons. }
  assert (∀ id, id ∈ resolved → use_then_result id (l ++ [b])) as Hres by (intros id H%IH2; by apply use_then_result_app).
  unfold resolve_block. destruct (B_Type b) eqn:Ht; try done.
  - destruct (negb (blank (B_ID b))); cbn; [|done]. split; [|done]. intros id [->%elem_of_singleton|H]%elem_of_union; [|by apply Hseen].
    by exists l, b, [].
  - case_bool_decide as Hin; cbn; [|done]. split; [done|]. intros id [->%elem_of_singleton|H]%elem_of_union; [|by apply Hres].
    destruct (IH1 _ Hin) as (l1&b0&l2&->&H1&H2). exists l1, b0, l2, b, []. rewrite <- app_assoc, <- app_comm_cons. by split_and!.
Qed.

Lemma resolved_spec messages id : id ∈ resolvedToolUses messages → use_then_result id (messages ≫= Content).
Proof. unfold resolvedToolUses. rewrite foldl_bind. apply resolve_spec. Qed.

(** A use is in one place. *)
Lemma use_place l p b q p' b' q' :
  NoDup (uses l) → l = p ++ b :: q → l = p' ++ b' :: q' → B_Type b = BlockToolUse → B_Type b' = BlockToolUse → B_ID b = B_ID b' →
  q = q'.
Proof.
  intros Hn -> H Hb Hb' Hid.
  assert (∀ p b q, B_Type b = BlockToolUse → uses (p ++ b :: q) = uses p ++ B_ID b :: uses q) as Huses.
  { intros p0 b0 q0 E. unfold uses. rewrite omap_app. cbn. by rewrite E. }
  assert (∀ p b k b' q', B_Type b = BlockToolUse → B_Type b' = BlockToolUse → B_ID b = B_ID b' →
    NoDup (uses ((p ++ b :: k) ++ b' :: q')) → False) as Htwice.
  { intros p0 b0 k b1 q1 E E1 E2. rewrite Huses, Huses by done. rewrite E2, <- app_assoc. intros [_ [_ Hnd]]%NoDup_app.
    rewrite <- app_comm_cons in Hnd. apply NoDup_cons in Hnd as [Hnd _]. apply Hnd, elem_of_app. right. constructor. }
  apply app_eq_inv in H as [([|x k]&->&H)|([|x k]&->&H)].
  - by injection H.
  - injection H as <- ->. exfalso. by eapply (Htwice p' b' k b q).
  - by injection H.
  - injection H as <- ->. exfalso. eapply (Htwice p b k b' q'); try done. by rewrite <- app_assoc.
Qed.

(** A walk whose uses are all answered leaves none open. *)
Lemma walk_closes resolved l o out :
  (∀ id, id ∈ o → answered id l ∧ blank id = false) →
  (∀ p a b q, l = p ++ (a, b) :: q → B_Type b = BlockToolUse → B_ID b ∈ resolved → answered (B_ID b) q) →
  (walk resolved (o, out) l).1 = ∅.
Proof.
  revert o out. induction l as [|[a b] l IH]; intros o out Ho Hres; cbn.
  { apply set_eq. intros id. split; [|set_solver]. intros Hid. destruct (Ho id Hid) as [(ab&Hin&_) _]. by apply not_elem_of_nil in Hin. }
  assert (∀ id, id ∈ o → (B_Type b = BlockToolResult → B_ToolUseID b ≠ id) → answered id l) as Hrest.
  { intros id Hid Hne. destruct (Ho id Hid) as [(ab&[->|Hin]%elem_of_cons&Ht&Hi) _]; [by destruct (Hne Ht)|by exists ab]. }
  assert (∀ p a0 b0 q, l = p ++ (a0, b0) :: q → B_Type b0 = BlockToolUse → B_ID b0 ∈ resolved → answered (B_ID b0) q) as Hres'
    by (intros p a0 b0 q ->; by apply (Hres ((a, b) :: p) a0)).
  unfold walk_block at 2. cbn. destruct (sanitize_block resolved a o b) as [o1 here] eqn:Hs.
  apply IH; [|exact Hres']. clear IH Hres'. unfold sanitize_block in Hs.
  assert (B_Type b ≠ BlockToolResult → ∀ id, id ∈ o → answered id l ∧ blank id = false) as Hkeep
    by (intros Hne id Hid; split; [by apply Hrest|by apply Ho]).
  destruct (B_Type b) eqn:Ht; try (injection Hs as <- _; by apply Hkeep).
  - destruct (a && negb (blank (B_ID b)) && negb (blank (B_Name b)) && bool_decide (B_ID b ∈ resolved)) eqn:Hc;
      [|injection Hs as <- _; by apply Hkeep].
    injection Hs as <- _. apply andb_true_iff in Hc as [[[_ Hb%negb_true_iff]%andb_true_iff _]%andb_true_iff Hin%bool_decide_eq_true_1].
    intros id [->%elem_of_singleton|Hid]%elem_of_union; [|by apply Hkeep]. split; [|done]. by apply (Hres [] a b l).
  - destruct (blank (B_ToolUseID b)) eqn:Hb.
    { injection Hs as <- _. intros id Hid. split; [|by apply Ho]. apply Hrest; [done|]. intros _ E. destruct (Ho id Hid) as [_ Hbl]. congruence. }
    case_bool_decide as Hin; injection Hs as <- _.
    + intros id [Hid Hne]%elem_of_difference. split; [|by apply Ho]. apply Hrest; [done|]. intros _ E. apply Hne. by apply elem_of_singleton.
    + intros id Hid. split; [|by apply Ho]. apply Hrest; [done|]. intros _ E. subst id. by apply Hin.
Qed.

(** ** Messages *)

Definition flagged (messages : list APIMessage) : list (bool * Block) :=
  messages ≫= λ m, pair (bool_decide (Role m = RoleAssistant)) <$> Content m.

Lemma flagged_blocks messages : snd <$> flagged messages = messages ≫= Content.
Proof.
  unfold flagged. induction messages as [|m messages IH]; [done|]. cbn. rewrite fmap_app, IH. f_equal.
  rewrite <- list_fmap_compose. by rewrite list_fmap_id.
Qed.

(** The open uses do not depend on how blocks are spread over messages. *)
Lemma fold_open resolved messages out o here :
  (foldl (sanitize_message resolved) (out, o) messages).2 = (walk resolved (o, here) (flagged messages)).1.
Proof.
  revert out o here. induction messages as [|m messages IH]; intros out o here; [done|].
  change (flagged (m :: messages)) with ((pair (bool_decide (Role m = RoleAssistant)) <$> Content m) ++ flagged messages).
  rewrite walk_app, walk_message. cbn [foldl]. unfold sanitize_message at 2. destruct (sanitizeBlocks (Content m) o _ resolved) as [o1 blocks].
  destruct (is_nil blocks); apply IH.
Qed.

(** A message that is added keeps the account. *)
Lemma block_ok_any b assistant : block_ok false b → block_ok assistant b.
Proof. unfold block_ok. destruct (B_Type b); naive_solver. Qed.

Lemma add_message_ok out role blocks reasoning o o' :
  Forall message_ok out → opens ∅ (out ≫= Content) = Some o → role ≠ "" → blocks ≠ [] →
  Forall (block_ok (bool_decide (role = RoleAssistant))) blocks → opens o blocks = Some o' →
  Forall message_ok (add_message out role blocks reasoning) ∧ opens ∅ (add_message out role blocks reasoning ≫= Content) = Some o'.
Proof.
  intros Hout Ho Hrole Hne Hb Hob. unfold add_message.
  assert (∀ r, Forall message_ok (out ++ [mkMessage role blocks r]) ∧ opens ∅ ((out ++ [mkMessage role blocks r]) ≫= Content) = Some o') as Hadded.
  { intros r. split; [apply Forall_app; split; [done|]; by repeat constructor|]. rewrite bind_app, opens_app, Ho. cbn. by rewrite app_nil_r. }
  destruct (last out) as [prev|] eqn:Hlast; [|apply Hadded].
  destruct (bool_decide (role = RoleUser) && bool_decide (Role prev = RoleUser) && onlyUserMergeable (Content prev) && onlyUserMergeable blocks) eqn:Hm;
    [|apply Hadded].
  apply andb_true_iff in Hm as [[[Hr%bool_decide_eq_true_1 Hp%bool_decide_eq_true_1]%andb_true_iff _]%andb_true_iff _].
  apply last_Some in Hlast as [init ->]. rewrite length_app. cbn [length]. rewrite Nat.add_sub, take_app_length.
  apply Forall_app in Hout as [Hinit Hprev]. apply Forall_singleton in Hprev as (Hpr&Hpc&Hpb). split.
  - apply Forall_app. split; [done|]. apply Forall_singleton. split; [done|]. cbn [Content Role]. split; [by destruct (Content prev)|].
    rewrite Hp in Hpb. rewrite Hr in Hb. cbn in Hpb, Hb. apply Forall_app. split.
    + eapply Forall_impl; [exact Hpb|]. intros b. apply block_ok_any.
    + constructor; [by cbn|]. eapply Forall_impl; [exact Hb|]. intros b. apply block_ok_any.
  - rewrite bind_app in Ho |- *. cbn [mbind list_bind Content] in Ho |- *. rewrite app_nil_r in Ho |- *.
    rewrite app_assoc, opens_app, Ho. done.
Qed.

Lemma sanitize_message_ok resolved out o m out' o' :
  Forall message_ok out → opens ∅ (out ≫= Content) = Some o → sanitize_message resolved (out, o) m = (out', o') →
  Forall message_ok out' ∧ opens ∅ (out' ≫= Content) = Some o'.
Proof.
  intros Hout Ho. unfold sanitize_message.
  destruct (sanitizeBlocks (Content m) o _ resolved) as [o1 blocks] eqn:Hs. destruct (sanitizeBlocks_opens _ _ _ _ _ _ Hs) as [Hob Hok].
  destruct blocks as [|b blocks]; cbn [is_nil]; intros [= <- <-].
  { split; [done|]. injection Hob as <-. done. }
  apply (add_message_ok _ _ _ _ o); try done.
  - unfold blank. destruct (bool_decide (TrimSpace (Role m) = "")) eqn:E; [discriminate|by apply bool_decide_eq_false_1 in E].
  - unfold blank. destruct (base.decide (Role m = RoleAssistant)) as [E|E].
    + rewrite (bool_decide_true _ E) in Hok. rewrite E. exact Hok.
    + rewrite (bool_decide_false _ E) in Hok. eapply Forall_impl; [exact Hok|]. intros x. apply block_ok_any.
Qed.

(** C14: What a provider is sent is well formed. If the uses of tools in a
    history have distinct ids, then whatever else is in it (uses without
    results, results without uses, results twice or before their use, blank
    texts, ids and names, blocks that do not belong to their role), the messages
    that are sent have a role and blocks, no empty text, uses only of the
    assistant and with id and name; every result answers a use before it that
    no other result has answered, and at the end every use is answered. *)
Theorem sanitized_well_formed messages :
  NoDup (uses (messages ≫= Content)) → well_formed (SanitizeMessagesForProvider messages).
Proof.
  intros Hnd. unfold SanitizeMessagesForProvider. set (resolved := resolvedToolUses messages).
  assert (∀ ms out o, Forall message_ok out → opens ∅ (out ≫= Content) = Some o →
    Forall message_ok (foldl (sanitize_message resolved) (out, o) ms).1 ∧
    opens ∅ ((foldl (sanitize_message resolved) (out, o) ms).1 ≫= Content) = Some (foldl (sanitize_message resolved) (out, o) ms).2) as Hfold.
  { induction ms as [|m ms IH]; intros out o Hout Ho; [done|]. cbn [foldl]. destruct (sanitize_message resolved (out, o) m) as [out1 o1] eqn:Hs.
    destruct (sanitize_message_ok _ _ _ _ _ _ Hout Ho Hs). by apply IH. }
  destruct (Hfold messages [] ∅ ltac:(constructor) eq_refl) as [H1 H2]. split; [exact H1|].
  rewrite H2, (fold_open resolved messages [] ∅ []). f_equal. apply walk_closes; [set_solver|].
  intros p a b q Hl Hb (l1&b1&l2&b2&l3&Hall&Hb1&Hid&Hb2&Hid2)%resolved_spec.
  assert (messages ≫= Content = (snd <$> p) ++ b :: (snd <$> q)) as Hall' by (rewrite <- flagged_blocks, Hl; by rewrite fmap_app).
  pose proof (use_place _ _ _ _ _ _ _ Hnd Hall' Hall Hb Hb1 (eq_sym Hid)) as Hq.
  assert (b2 ∈ snd <$> q) as Hin by (rewrite Hq; apply elem_of_app; right; constructor).
  apply list_elem_of_fmap in Hin as ([a2 b2']&E&Hin). cbn in E. subst b2'. by exists (a2, b2).
Qed.

(** ** Growing histories *)

(** The same message, perhaps with more blocks. *)
Definition extends (m m' : APIMessage) : Prop :=
  Role m' = Role m ∧ ReasoningContent m' = ReasoningContent m ∧ ∃ more, Content m' = Content m ++ more.

(** All but the last message stay, and the last at most grows. *)
Definition grows (out out' : list APIMessage) : Prop :=
  out = [] ∨ ∃ init m m' rest, out = init ++ [m] ∧ extends m m' ∧ out' = init ++ m' :: rest.

Lemma blocks_extend_refl m : extends m m.
Proof. split_and!; try done. exists []. by rewrite app_nil_r. Qed.

Lemma grows_refl out : grows out out.
Proof.
  destruct out as [|m out _] using rev_ind; [by left|]. right. exists out, m, m, []. by split_and!; [|apply blocks_extend_refl|].
Qed.

Lemma grows_add out out' role blocks reasoning : grows out out' → grows out (add_message out' role blocks reasoning).
Proof.
  intros [->|(init&m&m'&rest&->&Hm&->)]; [by left|]. right. exists init, m.
  assert (∀ x, (init ++ m' :: rest) ++ [x] = init ++ m' :: (rest ++ [x])) as Hadd by (intros x; by rewrite <- app_assoc).
  unfold add_message. destruct rest as [|x rest _] using rev_ind.
  - rewrite last_snoc, length_app, Nat.add_sub, take_app_length. case_match; [|exists m'; eexists; by rewrite Hadd].
    destruct Hm as (H1&H2&more&H3). eexists _, []. split; [done|]. split; [|done]. split_and!; [done|done|]. cbn. rewrite H3, <- app_assoc. by eexists.
  - assert (init ++ m' :: rest ++ [x] = (init ++ m' :: rest) ++ [x]) as -> by by rewrite <- app_assoc.
    rewrite last_snoc, length_app, Nat.add_sub, take_app_length. exists m'.
    case_match; eexists; (split; [done|]); (split; [done|]); by rewrite <- !app_assoc.
Qed.

Lemma sanitizeBlocks_ext blocks o assistant r r' :
  (∀ id, id ∈ uses blocks → id ∈ r ↔ id ∈ r') → sanitizeBlocks blocks o assistant r = sanitizeBlocks blocks o assistant r'.
Proof.
  revert o. induction blocks as [|b blocks IH]; intros o Hr; [done|]. cbn.
  assert (sanitize_block r assistant o b = sanitize_block r' assistant o b) as ->.
  { unfold sanitize_block. destruct (B_Type b) eqn:Ht; try done.
    assert (bool_decide (B_ID b ∈ r) = bool_decide (B_ID b ∈ r')) as ->; [|done].
    apply bool_decide_ext, Hr. unfold uses. cbn. rewrite Ht. constructor. }
  destruct (sanitize_block r' assistant o b) as [o1 here]. rewrite IH; [done|]. intros id Hid. apply Hr. unfold uses in *. cbn.
  destruct (B_Type b); try done. by constructor.
Qed.

Lemma resolve_mono l st : st.1 ⊆ (foldl resolve_block st l).1 ∧ st.2 ⊆ (foldl resolve_block st l).2.
Proof.
  revert st. induction l as [|b l IH]; intros [seen resolved]; [done|]. cbn [foldl].
  destruct (IH (resolve_block (seen, resolved) b)) as [H1 H2].
  assert (seen ⊆ (resolve_block (seen, resolved) b).1 ∧ resolved ⊆ (resolve_block (seen, resolved) b).2) as [H3 H4].
  { unfold resolve_block. destruct (B_Type b); repeat case_match; cbn; set_solver. }
  cbn [fst snd] in *. split; set_solver.
Qed.

(** What is sent grows at its end. If no use of the history is answered
    only by what comes later, then when the history grows, the messages that
    were sent before are sent again in the same order, each as it was but the
    last, to which blocks may have been added: the prefix that the provider has
    cached stays valid. *)
Theorem sanitized_prefix messages more :
  (∀ id, id ∈ uses (messages ≫= Content) → id ∈ resolvedToolUses (messages ++ more) → id ∈ resolvedToolUses messages) →
  grows (SanitizeMessagesForProvider messages) (SanitizeMessagesForProvider (messages ++ more)).
Proof.
  intros Hres. unfold SanitizeMessagesForProvider. rewrite foldl_app.
  set (r := resolvedToolUses messages) in *. set (r' := resolvedToolUses (messages ++ more)) in *.
  assert (∀ id, id ∈ uses (messages ≫= Content) → id ∈ r ↔ id ∈ r') as Hsame.
  { intros id Hid. split; [|by apply Hres]. unfold r, r', resolvedToolUses. rewrite !foldl_bind, bind_app, foldl_app. apply resolve_mono. }
  assert (∀ ms st, (∀ id, id ∈ uses (ms ≫= Content) → id ∈ r ↔ id ∈ r') → foldl (sanitize_message r') st ms = foldl (sanitize_message r) st ms) as Hext.
  { induction ms as [|m ms IH]; intros [out o] Hms; [done|]. cbn [foldl].
    assert (sanitize_message r' (out, o) m = sanitize_message r (out, o) m) as ->.
    { unfold sanitize_message. rewrite (sanitizeBlocks_ext (Content m) o _ r r'); [done|]. intros id Hid. apply Hms. unfold uses. cbn.
      rewrite omap_app. apply elem_of_app. by left. }
    apply IH. intros id Hid. apply Hms. unfold uses. cbn. rewrite omap_app. apply elem_of_app. by right. }
  rewrite (Hext messages ([], ∅) Hsame). destruct (foldl (sanitize_message r) ([], ∅) messages) as [out o]. cbn [fst].
  assert (∀ ms out' o, grows out out' → grows out (foldl (sanitize_message r') (out', o) ms).1) as Hgrow; [|apply Hgrow, grows_refl].
  induction ms as [|m ms IH]; intros out' o' Hg; [done|]. cbn [foldl]. unfold sanitize_message at 2.
  destruct (sanitizeBlocks (Content m) o' _ r') as [o1 blocks]. destruct (is_nil blocks); apply IH; [done|by apply grows_add].
Qed.

End Spec.
