(* ===== verification/TurnErrors.v ===== *)
(** * Conversations: errors of a turn ([internal/core/conversation/turn_error.go])

    An error of Go with what it wraps is a chain of layers, the outermost first;
    the empty chain is [nil]. [errors.Is] and [errors.As] look for a layer. The
    classification decides whether the runner asks the model again; the client
    has one of its own ([shouldRetryError] of [client.go]), and the two agree. *)
From S2P Require Import Prelude GoStrings GoRunes.
From Stdlib Require Import ZArith Lia.

(** ** Errors *)

Inductive TurnErrorClass := TurnErrorUnknown | TurnErrorRetryable | TurnErrorTransient | TurnErrorNonRetryable.

#[export] Instance TurnErrorClass_eq : EqDecision TurnErrorClass.
Proof. solve_decision. Defined.

Definition class_text (c : TurnErrorClass) : string :=
  match c with
  | TurnErrorRetryable => "retryable"
  | TurnErrorTransient => "transient"
  | TurnErrorNonRetryable => "non_retryable"
  | TurnErrorUnknown => "unknown"
  end.

(** What the program asks of an error. *)
Inductive layer :=
| Plain (text : string)
| ErrMaxTurnsReached
| ErrRepeatedToolCalls
| Canceled
| DeadlineExceeded
| EOF
| UnexpectedEOF
(** Any other error of the package [net]. *)
| NetError (text : string) (timeout temporary : bool)
(** An error of [net/url] around the next layer. *)
| UrlError (text : string)
| ApiStatusError (StatusCode : Z) (Message : string)
| RetryableTurnError (msg : string)
| TransientTurnError (msg : string)
| NonRetryableTurnError (msg : string)
| ErrPermissionPending (text RequestID : string).

#[export] Instance layer_eq : EqDecision layer.
Proof. solve_decision. Defined.

Definition error : Type := list layer.

Definition layer_text (l : layer) : string :=
  match l with
  | Plain text => text
  | ErrMaxTurnsReached => "conversation runner reached max turns"
  | ErrRepeatedToolCalls => "conversation runner repeated identical tool calls"
  | Canceled => "context canceled"
  | DeadlineExceeded => "context deadline exceeded"
  | EOF => "EOF"
  | UnexpectedEOF => "unexpected EOF"
  | NetError text _ _ => text
  | UrlError text => text
  | ApiStatusError _ message => message
  | RetryableTurnError msg | TransientTurnError msg | NonRetryableTurnError msg => msg
  | ErrPermissionPending text _ => text
  end.
(** [err.Error()] *)
Definition Error_ (err : error) : string := default "" (layer_text <$> head err).

(** [errors.Is] *)
Definition Is (err : error) (target : layer) : bool := bool_decide (target ∈ err).

(** [errors.As]: the first layer that fits, with all that it wraps. *)
Section As.
Context {A : Type} (fits : error → option A).
Fixpoint As (err : error) : option A :=
  match err with
  | [] => None
  | _ :: cause => match fits err with Some a => Some a | None => As cause end
  end.
End As.

(** An error of [net/url] asks the error that it wraps. *)
Fixpoint Timeout_ (err : error) : bool :=
  match err with
  | NetError _ timeout _ :: _ => timeout
  | DeadlineExceeded :: _ => true
  | UrlError _ :: cause => Timeout_ cause
  | _ => false
  end.
Fixpoint Temporary (err : error) : bool :=
  match err with
  | NetError _ _ temporary :: _ => temporary
  | DeadlineExceeded :: _ => true
  | UrlError _ :: cause => Temporary cause
  | _ => false
  end.

Definition as_net (err : error) : option error :=
  match err with NetError _ _ _ :: _ | DeadlineExceeded :: _ | UrlError _ :: _ => Some err | _ => None end.
Definition as_url (err : error) : option error := match err with UrlError _ :: cause => Some cause | _ => None end.
Definition as_status (err : error) : option (Z * string) :=
  match err with ApiStatusError code message :: _ => Some (code, message) | _ => None end.
Definition as_class (err : error) : option TurnErrorClass :=
  match err with
  | RetryableTurnError _ :: _ => Some TurnErrorRetryable
  | TransientTurnError _ :: _ => Some TurnErrorTransient
  | NonRetryableTurnError _ :: _ => Some TurnErrorNonRetryable
  | _ => None
  end.
Definition as_nonRetryable (err : error) : option string :=
  match err with NonRetryableTurnError msg :: _ => Some msg | _ => None end.
Definition as_pending (err : error) : option string :=
  match err with ErrPermissionPending _ id :: _ => Some id | _ => None end.

(** An error of the network that may pass. *)
Definition passing (err : error) : bool :=
  match As as_net err with Some net => Timeout_ net || Temporary net | None => false end.

(** ** Classification *)

Definition status_class (StatusCode : Z) : TurnErrorClass :=
  if bool_decide (StatusCode ∈ [408; 429; 503; 504]%Z) then TurnErrorTransient
  else if (500 <=? StatusCode)%Z then TurnErrorRetryable
  else if (400 <=? StatusCode)%Z then TurnErrorNonRetryable
  else TurnErrorUnknown.

(** The error that an error of [net/url] wraps is classified anew; it is shorter. *)
Fixpoint classify (fuel : nat) (err : error) : TurnErrorClass :=
  match fuel with
  | 0 => TurnErrorUnknown
  | S fuel =>
      match As as_class err with
      | Some class => class
      | None =>
          if Is err Canceled then TurnErrorNonRetryable
          else if Is err DeadlineExceeded then TurnErrorTransient
          else if passing err then TurnErrorTransient
          else if Is err EOF || Is err UnexpectedEOF then TurnErrorRetryable
          else
            match As as_url err with
            | Some cause => classify fuel cause
            | None => match As as_status err with Some (code, _) => status_class code | None => TurnErrorUnknown end
            end
      end
  end.
Definition ClassifyTurnError (err : error) : TurnErrorClass := classify (S (length err)) err.

Definition status_retried (StatusCode : Z) : bool :=
  bool_decide (StatusCode ∈ [408; 429; 502; 503; 504]%Z) || (500 <=? StatusCode)%Z.

Fixpoint should_retry (fuel : nat) (err : error) : bool :=
  match fuel with
  | 0 => false
  | S fuel =>
      if Is err Canceled || Is err DeadlineExceeded then false
      else if passing err then true
      else if Is err EOF || Is err UnexpectedEOF then true
      else
        match As as_url err with
        | Some cause => should_retry fuel cause
        | None => match As as_status err with Some (code, _) => status_retried code | None => false end
        end
  end.
Definition shouldRetryError (err : error) : bool := should_retry (S (length err)) err.

Section Texts.
Context {U : Unicode}.

Definition context_markers : list string :=
  ["context_length_exceeded"; "maximum context length"; "context length exceeded"; "context window"; "too many tokens";
   "token limit"; "prompt is too long"; "input is too long"; "reduce the length"; "max context"].

Definition IsContextLengthError (err : error) : bool :=
  match As as_status err with
  | None => false
  | Some (code, message) =>
      bool_decide (code = 400 ∨ code = 422)%Z && existsb (Contains (ToLower message)) context_markers
  end.

Definition genericTurnFailureMessage : string :=
  "That turn failed and couldn't be completed. The details are in the operator error log.".

Definition TurnFailureMessage (err : error) : string :=
  match As as_nonRetryable err with
  | Some msg => if bool_decide (TrimSpace msg = "") then genericTurnFailureMessage else msg
  | None => genericTurnFailureMessage
  end.

(** An error that ends the conversation after its tool: a call that waits for
    an approval. *)
Definition shouldStopAfterTool (err : error) : bool := match As as_pending err with Some _ => true | None => false end.

End Texts.

Definition formatAPIError (statusCode : Z) (body : string) : error :=
  [ApiStatusError statusCode ("API error: " +:+ itoa statusCode +:+ ": " +:+ TrimSpace body)].

(** ** The classification *)

(** The fuel is enough: an error is asked about at most once per layer. *)
Lemma As_url_shorter err cause : As as_url err = Some cause → length cause < length err.
Proof.
  induction err as [|l err IH]; [done|]. cbn [As]. destruct (as_url (l :: err)) eqn:Hf.
  - destruct l; try done. cbn in Hf. simplify_eq. intros [= ->]. cbn. lia.
  - intros H. specialize (IH H). cbn. lia.
Qed.

Lemma classify_fuel n m err : length err < n → length err < m → classify n err = classify m err.
Proof.
  revert m err. induction n as [|n IH]; intros m err Hn Hm; [lia|]. destruct m as [|m]; [lia|]. cbn [classify].
  destruct (As as_class err); [done|]. repeat case_match; try done. apply IH; apply As_url_shorter in H3; lia.
Qed.

Lemma should_retry_fuel n m err : length err < n → length err < m → should_retry n err = should_retry m err.
Proof.
  revert m err. induction n as [|n IH]; intros m err Hn Hm; [lia|]. destruct m as [|m]; [lia|]. cbn [should_retry].
  repeat case_match; try done. apply IH; apply As_url_shorter in H2; lia.
Qed.

Lemma As_class_suffix err cause : As as_class err = None → As as_url err = Some cause → As as_class cause = None.
Proof.
  induction err as [|l err IH]; [done|]. cbn [As]. destruct (as_class (l :: err)) eqn:Hc; [done|].
  destruct (as_url (l :: err)) eqn:Hf; [|intros ? ?; by apply IH].
  destruct l; try done. cbn in Hf. injection Hf as <-. by intros Hn [= ->].
Qed.

Lemma Is_suffix err cause x : As as_url err = Some cause → x ∈ cause → x ∈ err.
Proof.
  induction err as [|l err IH]; [done|]. cbn [As]. destruct (as_url (l :: err)) eqn:Hf.
  - destruct l; try done. cbn in Hf. injection Hf as <-. intros [= ->]. by right.
  - intros H ?. right. by apply IH.
Qed.

Lemma status_agrees code :
  (status_class code = TurnErrorRetryable ∨ status_class code = TurnErrorTransient) ↔ status_retried code = true.
Proof.
  unfold status_class, status_retried. rewrite orb_true_iff, bool_decide_eq_true, Z.leb_le.
  assert (code ∈ [408; 429; 503; 504]%Z → code ∈ [408; 429; 502; 503; 504]%Z) as Hin by set_solver.
  assert (code ∈ [408; 429; 502; 503; 504]%Z → code ∈ [408; 429; 503; 504]%Z ∨ 500 <= code)%Z as Hin'.
  { rewrite !elem_of_cons. intros [?|[?|[?|[?|[?|[]%elem_of_nil]]]]]; lia. }
  case_bool_decide as H; [naive_solver|]. destruct (Z.leb_spec 500 code); [naive_solver|].
  destruct (400 <=? code)%Z; split; try naive_solver lia.
Qed.

(** The runner and the client agree on what is tried again. An error
    without a class of its own is retryable or transient for the runner exactly
    when the client tries again, or when a deadline has passed and nobody has
    cancelled: that only the runner tries again. *)
Theorem classification_agrees err :
  As as_class err = None →
  (ClassifyTurnError err = TurnErrorRetryable ∨ ClassifyTurnError err = TurnErrorTransient) ↔
  shouldRetryError err = true ∨ (DeadlineExceeded ∈ err ∧ Canceled ∉ err).
Proof.
  unfold ClassifyTurnError, shouldRetryError. assert (length err < S (length err)) as Hl by lia. revert Hl.
  generalize (S (length err)) as n. intros n. revert err. induction n as [|n IH]; intros err Hl Hc; [lia|]. cbn [classify should_retry].
  rewrite Hc. destruct (Is err Canceled) eqn:Hcan; [apply bool_decide_eq_true in Hcan|apply bool_decide_eq_false in Hcan]; cbn [orb]; [naive_solver|].
  destruct (Is err DeadlineExceeded) eqn:Hdead; [apply bool_decide_eq_true in Hdead; naive_solver|apply bool_decide_eq_false in Hdead].
  destruct (passing err); [naive_solver|]. destruct (Is err EOF || Is err UnexpectedEOF); [naive_solver|].
  destruct (As as_url err) as [cause|] eqn:Hurl.
  - pose proof (As_url_shorter _ _ Hurl). rewrite (IH cause) by (lia || by eapply As_class_suffix).
    assert (DeadlineExceeded ∉ cause) by (intros ?; by eapply Hdead, Is_suffix). naive_solver.
  - destruct (As as_status err) as [[code ?]|]; [rewrite status_agrees|]; naive_solver.
Qed.
