(* ===== verification/Messages.v ===== *)
(** * Conversations: messages ([internal/contracts/protocol/protocol.go])

    What the program keeps of a conversation: messages of blocks with their
    metadata, how they are made from a response and turned into those of a
    request, and how a block is written to the history and read back. *)
From S2P Require Import Prelude GoStrings GoRunes JSON FlowModel LoopGuard Sanitize.
From Stdlib Require Import ZArith Lia.

(** ** Types *)

Record Attachment := mkAttachment {
  At_ID : string;
  At_Name : string;
  At_MIMEType : string;
  At_Path : string;
  At_URL : string;
  At_SizeBytes : Z;
}.

Record ContentPart := mkPart {
  Part_Type : string;
  Part_Text : string;
  Part_MIMEType : string;
  Part_Attachment : option Attachment;
}.

Definition MessageKind : Type := string.
Definition KindSummary : MessageKind := "summary".

Record Metadata := mkMetadata {
  Md_Kind : MessageKind;
  Md_Ephemeral : bool;
  Md_Transcript : string;
  Md_Source : string;
  Md_Sender : string;
  Md_Timestamp : string;
  Md_Text : string;
  Md_Parts : list ContentPart;
  Md_Attachments : list Attachment;
  Md_AppObjectType : string;
  Md_AppObjectID : string;
  Md_AppObjectTitle : string;
  Md_ReasoningContent : string;
}.

Record Message := mkMsg { Msg_Role : string; Msg_Content : list Block; Msg_Metadata : option Metadata }.

Record ToolSchema := mkSchema { Sch_Name : string; Sch_Description : string; Sch_InputSchema : option (list (string * json)) }.

Record Request := mkReq {
  Rq_Model : string;
  Rq_MaxTokens : Z;
  Rq_ReasoningEffort : string;
  Rq_System : string;
  Rq_Messages : list APIMessage;
  Rq_Tools : list ToolSchema;
  Rq_Stream : bool;
  Rq_PromptCacheKey : string;
  Rq_PromptCacheRetention : string;
  Rq_RuntimeTail : string;
  Rq_IncludeReasoningContent : bool;
  Rq_AnthropicNative : bool;
}.
Definition request_eta (r : Request) : Request :=
  mkReq (Rq_Model r) (Rq_MaxTokens r) (Rq_ReasoningEffort r) (Rq_System r) (Rq_Messages r) (Rq_Tools r) (Rq_Stream r)
    (Rq_PromptCacheKey r) (Rq_PromptCacheRetention r) (Rq_RuntimeTail r) (Rq_IncludeReasoningContent r) (Rq_AnthropicNative r).
Definition set_Rq_MaxTokens (v : Z) (r : Request) : Request := ltac:(with_field request_eta Rq_MaxTokens r v).
Definition set_Rq_Messages (v : list APIMessage) (r : Request) : Request := ltac:(with_field request_eta Rq_Messages r v).

Record Usage := mkUsage {
  U_InputTokens : Z;
  U_OutputTokens : Z;
  U_CacheReadTokens : Z;
  U_CacheWriteTokens : Z;
  U_Estimated : bool;
  U_CacheReadTokensAnthropic : Z;
  U_CacheWriteTokensAnthropic : Z;
}.
Definition Normalize (u : Usage) : Usage :=
  mkUsage (U_InputTokens u) (U_OutputTokens u)
    (if (U_CacheReadTokens u =? 0)%Z then U_CacheReadTokensAnthropic u else U_CacheReadTokens u)
    (if (U_CacheWriteTokens u =? 0)%Z then U_CacheWriteTokensAnthropic u else U_CacheWriteTokens u)
    (U_Estimated u) 0 0.

Record Response := mkResp {
  Rs_Content : list Block;
  Rs_StopReason : string;
  Rs_ReasoningContent : string;
  Rs_Usage : option Usage;
}.

(** ** Blocks *)

Definition ImageBlock (mediaType data : string) : Block :=
  mkBlock BlockImage "" (Some (mkImage "base64" mediaType data)) "" "" None "" "" false "" false 0.
Definition ThinkingBlock (text signature : string) (redacted : bool) : Block :=
  mkBlock BlockThinking text None "" "" None "" "" false signature redacted 0.
Definition ToolErrorResultBlock (toolUseID content : string) : Block :=
  mkBlock BlockToolResult "" None "" "" None toolUseID content true "" false 0.
Definition set_B_IsError (v : bool) (b : Block) : Block :=
  mkBlock (B_Type b) (B_Text b) (B_Source b) (B_ID b) (B_Name b) (B_Input b) (B_ToolUseID b) (B_Content b) v (B_Signature b)
    (B_Redacted b) (B_Index b).

(** The index on the wire is not copied. *)
Definition clone_block (b : Block) : Block :=
  mkBlock (B_Type b) (B_Text b) (B_Source b) (B_ID b) (B_Name b) (cloneMap (B_Input b)) (B_ToolUseID b) (B_Content b)
    (B_IsError b) (B_Signature b) (B_Redacted b) 0.
Definition cloneBlocks (blocks : list Block) : list Block := clone_block <$> blocks.

Definition BlocksText (blocks : list Block) : string :=
  foldr (λ b text, match B_Type b with BlockText => B_Text b +:+ text | _ => text end) "" blocks.

Definition ToolUses (blocks : list Block) : list Block :=
  omap (λ b, match B_Type b with
             | BlockToolUse => Some (mkBlock BlockToolUse "" None (B_ID b) (B_Name b) (cloneMap (B_Input b)) "" "" false "" false 0)
             | _ => None
             end) blocks.

Definition HasToolUse (blocks : list Block) : bool :=
  existsb (λ b, match B_Type b with BlockToolUse => true | _ => false end) blocks.

Definition blockTextOrDefault (b : Block) : string :=
  if negb (bool_decide (B_Text b = "")) then B_Text b
  else if negb (bool_decide (B_Content b = "")) then B_Content b
  else B_Name b.

Definition api_block (b : Block) : list Block :=
  match B_Type b with
  | BlockText => [TextBlock (B_Text b)]
  | BlockImage => match B_Source b with Some source => [ImageBlock (Im_MediaType source) (Im_Data source)] | None => [] end
  | BlockToolUse => [ToolUseBlock (B_ID b) (B_Name b) (cloneMap (B_Input b))]
  | BlockToolResult => [set_B_IsError (B_IsError b) (ToolResultBlock (B_ToolUseID b) (B_Content b))]
  | BlockThinking => [ThinkingBlock (B_Text b) (B_Signature b) (B_Redacted b)]
  | OtherBlock _ => if bool_decide (blockTextOrDefault b = "") then [] else [TextBlock (blockTextOrDefault b)]
  end.
Definition apiBlocks (blocks : list Block) : list Block := blocks ≫= api_block.

(** ** Messages *)

Definition NewMessage (role : string) (blocks : list Block) : Message := mkMsg role (cloneBlocks blocks) None.
Definition NewTextMessage (role text : string) : Message := NewMessage role [TextBlock text].

Definition no_metadata : Metadata := mkMetadata "" false "" "" "" "" "" [] [] "" "" "" "".
Definition NewEphemeralTextMessage (kind : MessageKind) (text : string) : Message :=
  mkMsg RoleUser [TextBlock text] (Some (mkMetadata kind true "" "" "" "" "" [] [] "" "" "" "")).
Definition NewSummaryMessage (text transcript : string) : Message :=
  mkMsg RoleUser [TextBlock text] (Some (mkMetadata KindSummary false transcript "" "" "" "" [] [] "" "" "" "")).

Definition response_block (b : Block) : list Block :=
  match B_Type b with
  | BlockText => [TextBlock (B_Text b)]
  | BlockToolUse => [ToolUseBlock (B_ID b) (B_Name b) (B_Input b)]
  | BlockThinking => [ThinkingBlock (B_Text b) (B_Signature b) (B_Redacted b)]
  | _ => []
  end.
Definition MessageFromResponse (resp : Response) : Message :=
  mkMsg RoleAssistant (Rs_Content resp ≫= response_block)
    (if blank (Rs_ReasoningContent resp) then None
     else Some (mkMetadata "" false "" "" "" "" "" [] [] "" "" "" (Rs_ReasoningContent resp))).

Definition MessageText (m : Message) : string := BlocksText (Msg_Content m).

(** A message of the user that counts as what the user last said. *)
Definition persistent_user (m : Message) : bool :=
  bool_decide (Msg_Role m = RoleUser)
  && negb (match Msg_Metadata m with Some d => Md_Ephemeral d || bool_decide (Md_Kind d = KindSummary) | None => false end)
  && negb (blank (MessageText m)).
Definition LatestPersistentUserText (messages : list Message) : string :=
  match last (filter (λ m, persistent_user m = true) messages) with Some m => TrimSpace (MessageText m) | None => "" end.

Definition api_message (m : Message) : APIMessage :=
  let content := apiBlocks (Msg_Content m) in
  mkMessage (Msg_Role m) (if is_nil content then [TextBlock "(message content unavailable)"] else content)
    (match Msg_Metadata m with
     | Some d => if bool_decide (Msg_Role m = RoleAssistant) then Md_ReasoningContent d else ""
     | None => ""
     end).
Definition ToAPIMessages (messages : list Message) : list APIMessage := api_message <$> messages.

Definition NewRequest (model : string) (maxTokens : Z) (reasoningEffort system : string) (messages : list Message)
    (tools : list ToolSchema) : Request :=
  mkReq model maxTokens reasoningEffort system (ToAPIMessages messages) tools false "" "" "" false false.

Definition ToolSchemaFromMap (schema : list (string * json)) : ToolSchema :=
  let text k := match field k schema with Some (JString s) => s | _ => "" end in
  mkSchema (text "name") (text "description")
    (cloneMap match field "input_schema" schema with Some (JObject m) => Some m | _ => None end).

(** ** Blocks in the history *)

Definition type_text (t : BlockType) : string :=
  match t with
  | BlockText => "text" | BlockImage => "image" | BlockToolUse => "tool_use" | BlockToolResult => "tool_result"
  | BlockThinking => "thinking" | OtherBlock name => name
  end.
Definition type_of (s : string) : BlockType :=
  match find_first (λ t, bool_decide (type_text t = s)) [BlockText; BlockImage; BlockToolUse; BlockToolResult; BlockThinking] with
  | Some t => t
  | None => OtherBlock s
  end.

Definition text_unless_empty (k v : string) : list (string * json) := if bool_decide (v = "") then [] else [(k, JString v)].
Definition source_json (s : ImageSource) : json :=
  JObject ([("type", JString (Im_Type s))] ++ text_unless_empty "media_type" (Im_MediaType s) ++ text_unless_empty "data" (Im_Data s)).
Definition source_field (b : Block) : list (string * json) :=
  match B_Source b with Some s => [("source", source_json s)] | None => [] end.

(** The fields that are written, by the type of the block. *)
Definition written_fields (b : Block) : list (string * json) :=
  match B_Type b with
  | BlockText => [("text", JString (B_Text b))]
  | BlockImage => source_field b
  | BlockToolUse => [("id", JString (B_ID b)); ("name", JString (B_Name b)); ("input", JObject (default [] (B_Input b)))]
  | BlockToolResult =>
      [("tool_use_id", JString (B_ToolUseID b)); ("content", JString (B_Content b))] ++
      (if B_IsError b then [("is_error", JBool true)] else [])
  | BlockThinking => ("thinking", JString (B_Text b)) :: text_unless_empty "signature" (B_Signature b)
  | OtherBlock _ =>
      text_unless_empty "text" (B_Text b) ++ source_field b ++ text_unless_empty "id" (B_ID b) ++
      text_unless_empty "name" (B_Name b) ++ (match B_Input b with Some m => [("input", JObject m)] | None => [] end) ++
      text_unless_empty "tool_use_id" (B_ToolUseID b) ++ text_unless_empty "content" (B_Content b) ++
      text_unless_empty "signature" (B_Signature b)
  end.
(** The value that [MarshalJSON] encodes. *)
Definition MarshalJSON (b : Block) : json := JObject (("type", JString (type_text (B_Type b))) :: written_fields b).

(** What [encoding/json] makes of an object, by the tags of the struct: a field
    that is missing or [null] is left empty, one of another type is an error. *)
Definition read_text (k : string) (m : list (string * json)) : option string :=
  match field k m with Some (JString s) => Some s | None | Some JNull => Some "" | _ => None end.
Definition read_flag (k : string) (m : list (string * json)) : option bool :=
  match field k m with Some (JBool b) => Some b | None | Some JNull => Some false | _ => None end.
Definition read_object (k : string) (m : list (string * json)) : option (option (list (string * json))) :=
  match field k m with Some (JObject o) => Some (Some o) | None | Some JNull => Some None | _ => None end.
Definition read_source (m : list (string * json)) : option (option ImageSource) :=
  read_object "source" m ≫= λ o,
  match o with
  | None => Some None
  | Some s => type ← read_text "type" s; media ← read_text "media_type" s; data ← read_text "data" s; Some (Some (mkImage type media data))
  end.
Definition read_block (v : json) : option Block :=
  match v with
  | JObject m =>
      type ← read_text "type" m;
      text ← read_text "text" m;
      source ← read_source m;
      id ← read_text "id" m;
      name ← read_text "name" m;
      input ← read_object "input" m;
      use ← read_text "tool_use_id" m;
      content ← read_text "content" m;
      failed ← read_flag "is_error" m;
      signature ← read_text "signature" m;
      redacted ← read_flag "redacted" m;
      Some (mkBlock (type_of type) text source id name input use content failed signature redacted 0)
  | _ => None
  end.

(** ** Reading back *)

Lemma field_app {A} k (l1 l2 : list (string * A)) :
  field k (l1 ++ l2) = match field k l1 with Some v => Some v | None => field k l2 end.
Proof. unfold field. induction l1 as [|kv l1 IH]; [done|]. cbn. destruct (bool_decide (kv.1 = k)); [done|exact IH]. Qed.

Definition encoded_fields (m : list (string * json)) : list (string * json) := (λ '(k, v), (k, encoded v)) <$> m.

Lemma encoded_unless k v : encoded_fields (text_unless_empty k v) = text_unless_empty k v.
Proof. unfold text_unless_empty. by case_match. Qed.

Lemma field_unless k k' v :
  field k (text_unless_empty k' v) = if bool_decide (k = k') then (if bool_decide (v = "") then None else Some (JString v)) else None.
Proof.
  unfold text_unless_empty, field. destruct (bool_decide (v = "")); cbn; [by case_match|].
  destruct (base.decide (k = k')) as [->|H]; [by rewrite !bool_decide_true|]. rewrite !bool_decide_false; [done|done|by apply not_eq_sym].
Qed.

(** What is kept of a block: the fields that its type has; of a thinking block
    only the signature. *)
Definition kept_block (b : Block) : Block :=
  match B_Type b with
  | BlockText => TextBlock (B_Text b)
  | BlockImage => mkBlock BlockImage "" (B_Source b) "" "" None "" "" false "" false 0
  | BlockToolUse => mkBlock BlockToolUse "" None (B_ID b) (B_Name b) (Some (encoded_fields (default [] (B_Input b)))) "" "" false "" false 0
  | BlockToolResult => set_B_IsError (B_IsError b) (ToolResultBlock (B_ToolUseID b) (B_Content b))
  | BlockThinking => ThinkingBlock "" (B_Signature b) false
  | OtherBlock name =>
      mkBlock (OtherBlock name) (B_Text b) (B_Source b) (B_ID b) (B_Name b) (encoded_fields <$> B_Input b) (B_ToolUseID b) (B_Content b)
        false (B_Signature b) false 0
  end.

Lemma read_text_unless k k' v l :
  read_text k (text_unless_empty k' v ++ l) = if bool_decide (k = k' ∧ v ≠ "") then Some v else read_text k l.
Proof.
  unfold read_text. rewrite field_app, field_unless. destruct (base.decide (k = k')) as [->|H].
  - rewrite (bool_decide_true (k' = k')) by done. destruct (base.decide (v = "")) as [->|Hv].
    + rewrite bool_decide_true by done. rewrite bool_decide_false by naive_solver. done.
    + rewrite bool_decide_false by done. by rewrite bool_decide_true.
  - rewrite (bool_decide_false (k = k')) by done. rewrite bool_decide_false by naive_solver. done.
Qed.

Lemma read_source_written s l : read_source (("source", encoded (source_json s)) :: l) = Some (Some s).
Proof.
  destruct s as [t m d]. unfold source_json, text_unless_empty. cbn [Im_Type Im_MediaType Im_Data].
  destruct (bool_decide (m = "")) eqn:Hm, (bool_decide (d = "")) eqn:Hd;
    repeat match goal with H : bool_decide _ = true |- _ => apply bool_decide_eq_true in H as -> end; reflexivity.
Qed.

Ltac each_text :=
  repeat match goal with |- context [bool_decide (?v = "")] => destruct (bool_decide (v = "")) eqn:?H end;
  repeat match goal with H : bool_decide _ = true |- _ => apply bool_decide_eq_true in H as -> end.

Lemma read_image s : read_block (encoded (MarshalJSON (mkBlock BlockImage "" (Some s) "" "" None "" "" false "" false 0))) =
  Some (mkBlock BlockImage "" (Some s) "" "" None "" "" false "" false 0).
Proof. destruct s as [t m d]. cbn -[bool_decide]. unfold text_unless_empty. each_text; reflexivity. Qed.

(** A block of a type that the program does not know. *)
Lemma read_other name text source id title input use content signature failed redacted index :
  type_of name = OtherBlock name →
  read_block (encoded (MarshalJSON (mkBlock (OtherBlock name) text source id title input use content failed signature redacted index))) =
  Some (mkBlock (OtherBlock name) text source id title (encoded_fields <$> input) use content false signature false 0).
Proof.
  intros Hname. unfold MarshalJSON, written_fields, text_unless_empty.
  cbn [B_Type B_Text B_Source B_ID B_Name B_Input B_ToolUseID B_Content B_IsError B_Signature type_text].
  destruct source as [[t m d]|], input as [o|]; unfold source_field, source_json, text_unless_empty; cbn [B_Source Im_Type Im_MediaType Im_Data];
    each_text; rewrite <- Hname; reflexivity.
Qed.

Lemma encoded_fields_twice m : encoded_fields (encoded_fields m) = encoded_fields m.
Proof. unfold encoded_fields. induction m as [|[k v] m IH]; [done|]. cbn. by rewrite encoded_idemp, IH. Qed.

Lemma encoded_object_twice m : encoded (JObject (encoded_fields m)) = encoded (JObject m).
Proof. change (JObject (encoded_fields (encoded_fields m)) = JObject (encoded_fields m)). by rewrite encoded_fields_twice. Qed.

(** A block survives the history. What is read back of a block is the block
    with the fields that its type has, its arguments as they are encoded, and an
    absent map of arguments as an empty one; and writing it again gives the same
    value, but for a thinking block, whose text is lost. *)
Theorem history_roundtrip b :
  (∀ name, B_Type b = OtherBlock name → type_of name = OtherBlock name) →
  read_block (encoded (MarshalJSON b)) = Some (kept_block b) ∧
  (B_Type b ≠ BlockThinking → encoded (MarshalJSON (kept_block b)) = encoded (MarshalJSON b)).
Proof.
  intros Hother. destruct b as [ty text source id name input use content failed signature redacted index]. cbn [B_Type] in *.
  destruct ty as [| | | | |other]; unfold kept_block; cbn [B_Type].
  - by split.
  - split; [|by split]. destruct source as [s|]; [apply (read_image s)|reflexivity].
  - split; [reflexivity|]. intros _. set (m := default [] input).
    transitivity (JObject [("type", JString "tool_use"); ("id", JString id); ("name", JString name); ("input", encoded (JObject (encoded_fields m)))]);
      [reflexivity|]. by rewrite encoded_object_twice.
  - split; [by destruct failed|]. intros _. reflexivity.
  - split; [|done]. unfold MarshalJSON, written_fields, text_unless_empty. cbn [B_Type B_Signature B_Text]. each_text; reflexivity.
  - split; [by apply read_other, Hother|]. intros _. unfold MarshalJSON, written_fields.
    cbn [B_Type B_Text B_Source B_ID B_Name B_Input B_ToolUseID B_Content B_Signature type_text]. unfold source_field. cbn [B_Source].
    destruct input as [m|]; [|done]. cbn [fmap option_fmap option_map].
    assert (∀ l l', encoded (JObject ((l ++ [("input", JObject (encoded_fields m))]) ++ l')) = encoded (JObject ((l ++ [("input", JObject m)]) ++ l'))) as E.
    { intros l l'. change (JObject (encoded_fields ((l ++ [("input", JObject (encoded_fields m))]) ++ l')) = JObject (encoded_fields ((l ++ [("input", JObject m)]) ++ l'))).
      unfold encoded_fields at 1 3. rewrite !fmap_app. cbn [fmap list_fmap]. by rewrite encoded_object_twice. }
    set (rest := text_unless_empty "tool_use_id" use ++ _). rewrite !app_assoc, !app_comm_cons. apply E.
Qed.
