(* ===== verification/Runner.v ===== *)
(** * Conversations: running the tools of a turn
    ([ExecuteToolUsesWithOptions] of [internal/core/conversation/runner.go])

    The calls of an assistant message run one after the other, each against its
    time limit and a watchdog, and each gives one result. What runs outside the
    program (the tool, the filter, the frontends) is a function of a world; the
    race between the tool, the watchdog and the deadline is decided by it. *)
From S2P Require Import Prelude GoStrings GoRunes JSON FlowModel LoopGuard Sanitize TurnErrors Messages.
From Stdlib Require Import ZArith Lia.

(** Arguments of a call. *)
Definition arguments : Type := option (list (string * json)).

Record ToolExecutionResult := mkExec {
  TR_Output : string;
  TR_ArtifactPaths : list string;
  TR_Code : string;
  TR_RecoveryHint : string;
  TR_TimedOut : bool;
}.
Definition no_execution : ToolExecutionResult := mkExec "" [] "" "" false.

Record ToolStuckEvent := mkStuck {
  St_ID : string;
  St_Name : string;
  St_Input : arguments;
  St_Elapsed : Z;
  St_Timeout : Z;
  St_Threshold : Z;
}.

(** How the wait for a tool ends: the tool returns, or its context is done. *)
Inductive tool_end :=
| ToolDone (result : ToolExecutionResult) (err : error)
| ContextDone (err : error).

Class RunWorld (W : Type) : Type := {
  (** [ctx.Err()] *)
  ctx_err : W → error;
  (** The clock, in nanoseconds. *)
  clock : W → Z;
  (** Waiting for a tool that runs beside the runner: with its time limit; with
      the watchdog as well, [None] when that barks first; and further on. *)
  race : Z → (W → W * (ToolExecutionResult * error)) → W → W * tool_end;
  race_watched : Z → Z → (W → W * (ToolExecutionResult * error)) → W → W * option tool_end;
  race_on : W → W * tool_end;
  (** [%s] of a duration. *)
  duration_text : Z → string;
}.

Definition second : Z := 1000000000.
Definition millisecond : Z := 1000000.

Definition toolStuckWarningAfter (timeout : Z) : Z :=
  if (timeout <=? 2 * second)%Z then 0
  else
    let half := Z.quot timeout 2 in
    if (30 * second <? half)%Z then (30 * second)%Z else if (half <? second)%Z then second else half.

Section Texts.
Context {U : Unicode} {J : JSONLib} {G : GuardLib}.

Definition recoveryHintForToolFailure (name code : string) : string :=
  let tool := ToLower (TrimSpace name) in
  if bool_decide (code = "tool_timeout") then
    if bool_decide (tool = "browser") then "Browser action timed out. Consider retrying with a smaller action timeout, using web_fetch/web_search for static content, taking a screenshot, or switching to code/static analysis."
    else if bool_decide (tool = "web_fetch" ∨ tool = "web_search") then "Network lookup timed out. Try a narrower query, fetch a specific URL, or answer from available local context."
    else if bool_decide (tool = "bash" ∨ tool = "background") then "Shell command timed out. Try a narrower command, add command-level timeout, or run as a background task."
    else "Tool timed out. Try a narrower operation, a cheaper alternative tool, or continue from available context."
  else if bool_decide (tool = "browser") then "Browser tool failed. Consider web_fetch/web_search for static pages, a fresh browser snapshot, or a simpler browser action."
  else "Tool failed. Use the error and any preserved output to choose a safer fallback or ask for clarification.".

Definition classifyToolErrorCode (err : error) : string :=
  if is_nil err then ""
  else if Is err DeadlineExceeded then "tool_timeout"
  else
    let text := ToLower (TrimSpace (Error_ err)) in
    if Contains text "timed out" || Contains text "deadline exceeded" then "tool_timeout"
    else if Contains text "permission" then "permission_denied"
    else if Contains text "not found" || Contains text "unknown" then "tool_unavailable"
    else "tool_error".

(** The fields of the report on a failed call. *)
Definition failure_payload (name : string) (err : error) (execution : ToolExecutionResult) : json :=
  let code := if blank (TR_Code execution) then classifyToolErrorCode err else TrimSpace (TR_Code execution) in
  let hint := if blank (TR_RecoveryHint execution) then recoveryHintForToolFailure name code else TrimSpace (TR_RecoveryHint execution) in
  let report status code hint more :=
    [("status", JString status); ("code", JString code); ("tool", JString (TrimSpace name));
     ("error", JString (TrimSpace (Error_ err))); ("recovery_hint", JString hint)] ++ more in
  JObject
    ((match As as_pending err with
      | Some id =>
          report "permission_pending" "permission_pending"
            "Wait for approval before retrying this exact tool call. The user can approve once, pattern, timebox, count, or session scope."
            [("request_id", JString (TrimSpace (TrimSpace id)))]
      | None => report "error" code hint []
      end) ++
     (if blank (TR_Output execution) then [] else [("output", JString (TR_Output execution))]) ++
     (if is_nil (TR_ArtifactPaths execution) then [] else [("artifact_paths", JGo "[]string" (JArray (JString <$> TR_ArtifactPaths execution)))]) ++
     (if TR_TimedOut execution then [("timed_out", JBool true)] else [])).

Definition formatToolFailureOutput (name : string) (err : error) (execution : ToolExecutionResult) : string :=
  match Marshal (failure_payload name err execution) with
  | Some data => data
  | None =>
      if blank (TR_Output execution) then "Error: " +:+ Error_ err
      else "Error: " +:+ Error_ err +:+ lf +:+ TR_Output execution
  end.

Definition skippedToolOutput (status : string) : string :=
  "{" +:+ dq +:+ "status" +:+ dq +:+ ":" +:+ quote status +:+ "," +:+ dq +:+ "note" +:+ dq +:+ ":" +:+ dq +:+
  "Tool execution was skipped because an earlier tool in the same assistant message stopped the conversation." +:+ dq +:+ "}".

End Texts.

(** ** Running *)

Section Run.
Context {W : Type} {RW : RunWorld W} {U : Unicode} {J : JSONLib} {G : GuardLib}.

(** A callback that may be missing. *)
Definition notify {A} (f : option (A → W → W)) (a : A) (w : W) : W := match f with Some f => f a w | None => w end.

Definition tool_runner : Type := string → arguments → W → W * (ToolExecutionResult * error).

(** What a call gives when the wait for it has ended. *)
Definition tool_outcome (name : string) (timeout : Z) (e : tool_end) : ToolExecutionResult * error :=
  match e with
  | ToolDone result err => (result, err)
  | ContextDone err =>
      if Is err DeadlineExceeded
      then (mkExec "" [] "tool_timeout" (recoveryHintForToolFailure name "tool_timeout") true,
            [Plain ("tool " +:+ quote name +:+ " timed out after " +:+ duration_text timeout)])
      else (no_execution, err)
  end.

Definition executeToolWithTimeout (timeout : Z) (id name : string) (input : arguments) (run : tool_runner) (stuckWarningAfter : Z)
    (onStuck : option (ToolStuckEvent → W → W)) (w : W) : W * (ToolExecutionResult * error) :=
  if (timeout <=? 0)%Z then run name input w
  else if (0 <? stuckWarningAfter)%Z && (stuckWarningAfter <? timeout)%Z then
    match race_watched timeout stuckWarningAfter (run name input) w with
    | (w, Some e) => (w, tool_outcome name timeout e)
    | (w, None) =>
        let w := notify onStuck (mkStuck (TrimSpace id) (TrimSpace name) (cloneMap input) stuckWarningAfter timeout stuckWarningAfter) w in
        let '(w, e) := race_on w in
        (w, tool_outcome name timeout e)
    end
  else let '(w, e) := race timeout (run name input) w in (w, tool_outcome name timeout e).

Record ExecuteToolOptions := mkExecOptions {
  EO_Timeout : Z;
  EO_StuckWarningAfter : Z;
  EO_OnStuck : option (ToolStuckEvent → W → W);
}.

Section Uses.
Variable run : tool_runner.
Variable onStarted : option (Block → W → W).
Variable onFinished : option (ExecutedTool → W → W).
Variable tool_filter : option (ExecutedTool → W → W * ExecutedTool).
Variable options : ExecuteToolOptions.

(** The filter sees the call and may change what the model sees, not which
    call it was or whether it failed. *)
Definition filtered (tool : ExecutedTool) (w : W) : W * ExecutedTool :=
  match tool_filter with
  | None => (w, tool)
  | Some f =>
      let '(w, t) := f tool w in
      (w, mkTool (ID tool) (Name tool) (cloneMap (Input tool)) (Output t) (Error tool) (ArtifactPaths t) (Code t) (RecoveryHint t)
            (TimedOut t) (DurationMS t))
  end.

(** One call: what is recorded of it, its result, and its error. *)
Definition execute_tool (block : Block) (w : W) : W * (ExecutedTool * Block * error) :=
  let w := notify onStarted block w in
  let startedAt := clock w in
  let '(w, (execution, err)) :=
    executeToolWithTimeout (EO_Timeout options) (B_ID block) (B_Name block) (B_Input block) run (EO_StuckWarningAfter options)
      (EO_OnStuck options) w in
  let durationMS := Z.quot (clock w - startedAt) millisecond in
  let output := if is_nil err then TR_Output execution else formatToolFailureOutput (B_Name block) err execution in
  let tool := mkTool (B_ID block) (B_Name block) (cloneMap (B_Input block)) output (Error_ err) (TR_ArtifactPaths execution)
                (TrimSpace (TR_Code execution)) (TrimSpace (TR_RecoveryHint execution)) (TR_TimedOut execution) durationMS in
  let '(w, tool) := filtered tool w in
  let result := set_B_IsError (negb (blank (Error tool))) (ToolResultBlock (B_ID block) (Output tool)) in
  (notify onFinished tool w, (tool, result, err)).

Definition skipped_result (block : Block) : Block :=
  ToolResultBlock (B_ID block) (skippedToolOutput "skipped_due_to_pending_approval").

Fixpoint execute_uses (uses : list Block) (w : W) : W * (list Block * list ExecutedTool * error) :=
  match uses with
  | [] => (w, ([], [], []))
  | block :: uses =>
      let '(w, (tool, result, err)) := execute_tool block w in
      if shouldStopAfterTool err then (w, (result :: (skipped_result <$> uses), [tool], err))
      else
        let '(w, (results, executed, err)) := execute_uses uses w in
        (w, (result :: results, tool :: executed, err))
  end.

Definition ExecuteToolUsesWithOptions (blocks : list Block) (w : W) : W * (Message * list ExecutedTool * error) :=
  let toolUses := ToolUses blocks in
  if is_nil toolUses then (w, (mkMsg "" [] None, [], []))
  else
    let '(w, (results, executed, err)) := execute_uses toolUses w in
    (w, (NewMessage RoleUser results, executed, err)).

End Uses.
End Run.

(** * Conversations: the runner
    ([internal/core/conversation/runner.go], [runner_execution.go])

    The loop between the model and the tools. A turn builds a request, calls the
    model, appends what it says to the history, runs the tools it asks for,
    appends their results, and asks the loop guard. The callbacks of the
    frontends and of the history are functions of a world. The times that
    [OnModelRequest] is given are left out; a caller that returns no error
    returns a response. *)

Record PhaseEvent := mkPhase {
  Ph_Phase : string;
  Ph_Iteration : Z;
  Ph_Model : string;
  Ph_Message : string;
  Ph_ToolID : string;
  Ph_ToolName : string;
  Ph_RecoveryHint : string;
}.
Definition PhaseModelRequest : string := "model_request".
Definition PhaseAwaitingTools : string := "awaiting_tools".
Definition PhaseToolsCompleted : string := "tools_completed".
Definition PhaseFinalResponse : string := "final_response".
Definition PhaseError : string := "error".
Definition PhaseInterrupted : string := "interrupted".
Definition PhaseContextSanitized : string := "context_sanitized".
Definition PhaseInjectionDrained : string := "injection_drained".
Definition PhaseRecoveryAttempt : string := "recovery_attempted".

Record InjectionDrain := mkDrain {
  Dr_Messages : list Message;
  Dr_Count : Z;
  Dr_Remaining : Z;
  Dr_InjectionCycle : Z;
  Dr_Mode : string;
  Dr_Summary : string;
}.
Definition no_drain : InjectionDrain := mkDrain [] 0 0 0 "" "".

Record Result := mkRunResult {
  LastAssistantText : string;
  Turns : Z;
  Completed : bool;
  Stopped : bool;
  HadInjections : bool;
  Rs_RecoveryHint : string;
}.
Definition result_eta (r : Result) : Result :=
  mkRunResult (LastAssistantText r) (Turns r) (Completed r) (Stopped r) (HadInjections r) (Rs_RecoveryHint r).
Definition set_LastAssistantText (v : string) (r : Result) : Result := ltac:(with_field result_eta LastAssistantText r v).
Definition set_Turns (v : Z) (r : Result) : Result := ltac:(with_field result_eta Turns r v).
Definition set_Completed (v : bool) (r : Result) : Result := ltac:(with_field result_eta Completed r v).
Definition set_Stopped (v : bool) (r : Result) : Result := ltac:(with_field result_eta Stopped r v).
Definition set_HadInjections (v : bool) (r : Result) : Result := ltac:(with_field result_eta HadInjections r v).
Definition set_Rs_RecoveryHint (v : string) (r : Result) : Result := ltac:(with_field result_eta Rs_RecoveryHint r v).

Record runnerOptions := mkOptions {
  maxTurns : Z;
  toolTimeout : Z;
  maxRepeatedTools : Z;
  maxRepeatedPollingTools : Z;
  maxStalledTaskPollingTools : Z;
  maxEmptyResponses : Z;
  maxLengthRecoveries : Z;
  maxModelRetries : Z;
  maxContextOverflowRecoveries : Z;
  maxInjectionsPerTurn : Z;
  maxInjectionCycles : Z;
  maxLoopGuardRecoveries : Z;
  maxNoMutationRounds : Z;
  loopGuardMode : LoopGuardMode;
}.

Definition minute : Z := 60 * second.
Definition defaultToolTimeout : Z := 30 * minute.
Definition defaultMaxRepeatedTools : Z := 8.
Definition defaultMaxRepeatedPollingTools : Z := 5.
Definition defaultMaxStalledTaskPollingTools : Z := 8.
Definition defaultMaxEmptyResponses : Z := 3.
Definition defaultMaxLengthRecoveries : Z := 4.
Definition defaultMaxModelRetries : Z := 2.
Definition defaultMaxInjectionsPerTurn : Z := 8.
Definition defaultMaxInjectionCycles : Z := 4.
Definition defaultMaxLoopGuardRecoveries : Z := 5.
Definition defaultMaxNoMutationRounds : Z := 12.
Definition maxReasoningLengthRecoveries : Z := 2.

Definition newLoopGuard_ (o : runnerOptions) : loopGuard :=
  newLoopGuard (mkConfig (maxRepeatedTools o) (maxRepeatedPollingTools o) (maxStalledTaskPollingTools o)
    (maxLoopGuardRecoveries o) (maxNoMutationRounds o) (loopGuardMode o) 0).

Section Runner.
Context {W : Type}.

(** What the runner tells a streaming client. *)
Record StreamHandler := mkHandler {
  OnTextDelta : option (string → W → W);
  OnThinkingDelta : string → string → W → W;
  OnStreamStarted : W → W;
}.

Inductive Caller :=
| CallOnly (Call : Request → W → W * result error Response)
| CallStream (Stream : Request → StreamHandler → W → W * result error Response).

Record Runner := mkRunner {
  R_Caller : option Caller;
  BuildRequest : option (W → W * result error Request);
  AppendAssistant : option (Message → W → W);
  AppendToolResults : option (Message → W → W);
  AppendRuntimeFeedback : option (Message → W → W);
  ExecuteTool : option (string → arguments → W → W * (ToolExecutionResult * error));
  OnAssistantText : option (string → W → W);
  OnAssistantTextDelta : option (string → W → W);
  OnAssistantThinkingDelta : option (string → W → W);
  R_OnStreamStarted : option (W → W);
  OnModelRequest : option (Request → option Response → W → W);
  OnContextOverflow : option (W → W * bool);
  OnExecutedTools : option (list ExecutedTool → W → W);
  OnToolStarted : option (Block → W → W);
  OnToolFinished : option (ExecutedTool → W → W);
  OnToolStuck : option (ToolStuckEvent → W → W);
  OnPhase : option (PhaseEvent → W → W);
  DrainInjections : option (Z → W → W * result error InjectionDrain);
  AppendInjectedMessages : option (list Message → W → W);
  ToolResultFilter : option (ExecutedTool → W → W * ExecutedTool);
  AfterTurn : option (W → W);
  StopAfterTools : option (W → W * bool);
  R_MaxTurns : Z;
  R_MaxEmptyResponses : Z;
  R_MaxLengthRecoveries : Z;
  R_MaxNoMutationRounds : Z;
  R_MaxInjectionsPerTurn : Z;
  R_MaxInjectionCycles : Z;
  R_MaxRepeatedTools : Z;
  R_MaxRepeatedPollingTools : Z;
  R_MaxStalledTaskPollingTools : Z;
  R_MaxLoopGuardRecoveries : Z;
  R_MaxModelRetries : Z;
  R_MaxContextOverflowRecoveries : Z;
  (** [None] is the empty mode. *)
  R_LoopGuardMode : option LoopGuardMode;
  R_ToolTimeout : Z;
}.

Definition or_default (v d : Z) : Z := if (v <=? 0)%Z then d else v.

Definition normalizedOptions (r : Runner) : runnerOptions :=
  mkOptions (or_default (R_MaxTurns r) 1) (or_default (R_ToolTimeout r) defaultToolTimeout)
    (or_default (R_MaxRepeatedTools r) defaultMaxRepeatedTools)
    (or_default (R_MaxRepeatedPollingTools r) defaultMaxRepeatedPollingTools)
    (or_default (R_MaxStalledTaskPollingTools r) defaultMaxStalledTaskPollingTools)
    (or_default (R_MaxEmptyResponses r) defaultMaxEmptyResponses)
    (or_default (R_MaxLengthRecoveries r) defaultMaxLengthRecoveries)
    (or_default (R_MaxModelRetries r) defaultMaxModelRetries)
    (Z.max 0 (R_MaxContextOverflowRecoveries r))
    (or_default (R_MaxInjectionsPerTurn r) defaultMaxInjectionsPerTurn)
    (or_default (R_MaxInjectionCycles r) defaultMaxInjectionCycles)
    (or_default (R_MaxLoopGuardRecoveries r) defaultMaxLoopGuardRecoveries)
    (or_default (R_MaxNoMutationRounds r) defaultMaxNoMutationRounds)
    (default LoopGuardModeStrict (R_LoopGuardMode r)).

(** ** The state of a run *)

Record state := mkState {
  world : W;
  res : Result;
  emptyResponses : Z;
  lengthRecoveries : Z;
  reasoningLengthRecoveries : Z;
  injectionCycles : Z;
  reasoningMaxTokens : Z;
  guard : loopGuard;
}.
Definition state_eta (s : state) : state :=
  mkState (world s) (res s) (emptyResponses s) (lengthRecoveries s) (reasoningLengthRecoveries s) (injectionCycles s)
    (reasoningMaxTokens s) (guard s).
Definition set_world (v : W) (s : state) : state := ltac:(with_field state_eta world s v).
Definition set_res (v : Result) (s : state) : state := ltac:(with_field state_eta res s v).
Definition set_emptyResponses (v : Z) (s : state) : state := ltac:(with_field state_eta emptyResponses s v).
Definition set_lengthRecoveries (v : Z) (s : state) : state := ltac:(with_field state_eta lengthRecoveries s v).
Definition set_reasoningLengthRecoveries (v : Z) (s : state) : state := ltac:(with_field state_eta reasoningLengthRecoveries s v).
Definition set_injectionCycles (v : Z) (s : state) : state := ltac:(with_field state_eta injectionCycles s v).
Definition set_reasoningMaxTokens (v : Z) (s : state) : state := ltac:(with_field state_eta reasoningMaxTokens s v).
Definition set_guard (v : loopGuard) (s : state) : state := ltac:(with_field state_eta guard s v).

(** How a run ends early: with its result and an error, or without a result. *)
Inductive stop :=
| Fails (e : error)
| NoResult (e : error)
| OutOfFuel.

Notation Run_ := (M state stop).

Definition act (f : W → W) : Run_ unit := update (λ s, set_world (f (world s)) s).
Definition ask {A} (f : W → W * A) : Run_ A := λ s, let '(w, a) := f (world s) in (set_world w s, Ok a).
Definition on_result (f : Result → Result) : Run_ unit := update (λ s, set_res (f (res s)) s).
Definition hinted (hint : string) : Run_ unit := on_result (set_Rs_RecoveryHint hint).

(** ** The turns *)

Section Turns.
Context {RW : RunWorld W} {U : Unicode} {J : JSONLib} {G : GuardLib}.
Variable r : Runner.
Variable options : runnerOptions.

Definition emitPhase (event : PhaseEvent) : Run_ unit := act (notify (OnPhase r) event).

Definition diagnosticRecoveryHint (iteration : Z) (executed : list ExecutedTool) : string :=
  Join (["Runner stopped at iteration " +:+ itoa iteration +:+ "."] ++
        (match last executed with Some tool => ["Last completed tool: " +:+ TrimSpace (Name tool) +:+ "."] | None => [] end) ++
        ["Use resume or retry from the persisted checkpoint after reviewing the timeline phase events."]) " ".

Definition recovery (iteration : Z) (req : Request) (message hint : string) : Run_ unit :=
  emitPhase (mkPhase PhaseRecoveryAttempt iteration (Rq_Model req) message "" "" hint).

Definition inject (text : string) : Run_ unit :=
  match AppendInjectedMessages r with Some f => act (f [NewTextMessage RoleUser text]) | None => mret tt end.

Definition tryDrainInjections : Run_ InjectionDrain :=
  cycles ← gets injectionCycles;
  match DrainInjections r, AppendInjectedMessages r with
  | Some drain, Some append =>
      if (maxInjectionCycles options <=? cycles)%Z then mret no_drain
      else
        drained ← ask (drain (maxInjectionsPerTurn options));
        match drained with
        | Err _ => mret no_drain
        | Ok d =>
            if is_nil (Dr_Messages d) then mret no_drain
            else
              update (set_injectionCycles (cycles + 1)%Z);;
              let n := if (Dr_Count d <=? 0)%Z then Z.of_nat (length (Dr_Messages d)) else Dr_Count d in
              let d := mkDrain (Dr_Messages d) n (Dr_Remaining d) (cycles + 1) (Dr_Mode d) (Dr_Summary d) in
              act (append (Dr_Messages d));;
              emitPhase (mkPhase PhaseInjectionDrained (cycles + 1) "" (Dr_Summary d) "" "" "");;
              mret d
        end
  | _, _ => mret no_drain
  end.

(** *** The model *)

Definition buildTurnRequest (build : W → W * result error Request) (iteration : Z) : Run_ Request :=
  built ← ask build;
  match built with
  | Err e => emitPhase (mkPhase PhaseError iteration "" (Error_ e) "" "" "");; throw (NoResult e)
  | Ok req =>
      cap ← gets reasoningMaxTokens;
      let req := if (0 <? cap)%Z && ((Rq_MaxTokens req <=? 0)%Z || (cap <? Rq_MaxTokens req)%Z) then set_Rq_MaxTokens cap req else req in
      let req := set_Rq_Messages (SanitizeMessagesForProvider (Rq_Messages req)) req in
      emitPhase (mkPhase PhaseContextSanitized iteration (Rq_Model req) "" "" "" "");;
      emitPhase (mkPhase PhaseModelRequest iteration (Rq_Model req) "" "" "" "");;
      mret req
  end.

Definition stream_handler : StreamHandler :=
  mkHandler (OnAssistantTextDelta r)
    (λ thinking _ w, if bool_decide (thinking = "") then w else notify (OnAssistantThinkingDelta r) thinking w)
    (match R_OnStreamStarted r with Some f => f | None => id end).

(** The answer, and whether it was streamed. *)
Definition callModel (caller : Caller) (req : Request) : Run_ (result error Response * bool) :=
  let observed (answer : result error Response) (streamed : bool) : Run_ (result error Response * bool) :=
    match OnModelRequest r with
    | Some f => act (f req (match answer with Ok resp => Some resp | Err _ => None end))
    | None => mret tt
    end;;
    mret (answer, streamed) in
  match caller with
  | CallStream stream => answer ← ask (stream req stream_handler); observed answer true
  | CallOnly call => answer ← ask (call req); observed answer false
  end.

(** The history is too long: it is compacted and the request built again. *)
Definition rebuild (build : W → W * result error Request) (compact : W → W * bool) : Run_ (option Request) :=
  compacted ← ask compact;
  if (compacted : bool) then
    built ← ask build;
    match built with
    | Ok req => mret (Some (set_Rq_Messages (SanitizeMessagesForProvider (Rq_Messages req)) req))
    | Err _ => mret None
    end
  else mret None.

Definition recover_overflow (build : W → W * result error Request) (req : Request) (iteration overflows : Z) (callErr : error) :
    Run_ (Z * option Request) :=
  match OnContextOverflow r with
  | Some compact =>
      if IsContextLengthError callErr && (overflows <? maxContextOverflowRecoveries options)%Z then
        recovery iteration req
          ("provider context overflow; compacting and retrying (" +:+ itoa (overflows + 1) +:+ "/" +:+
           itoa (maxContextOverflowRecoveries options) +:+ "): " +:+ Error_ callErr)
          "The provider rejected the request for exceeding its context window; the runner compacted history and retried.";;
        rebuilt ← rebuild build compact;
        mret ((overflows + 1)%Z, rebuilt)
      else mret (overflows, None)
  | None => mret (overflows, None)
  end.

Definition abandon (phase : string) (iteration : Z) (req : Request) (err : error) {A} : Run_ A :=
  on_result (set_Stopped true);;
  hinted (diagnosticRecoveryHint iteration []);;
  emitPhase (mkPhase phase iteration (Rq_Model req) (Error_ err) "" "" (diagnosticRecoveryHint iteration []));;
  throw (Fails err).

Definition retryable (class : TurnErrorClass) : bool := bool_decide (class = TurnErrorRetryable ∨ class = TurnErrorTransient).

Fixpoint call_model (fuel : nat) (caller : Caller) (build : W → W * result error Request) (iteration attempt overflows : Z) (req : Request) :
    Run_ (Response * bool * Request) :=
  match fuel with
  | 0 => throw OutOfFuel
  | S fuel =>
      answered ← callModel caller req;
      match answered.1 with
      | Ok resp => mret (resp, answered.2, req)
      | Err callErr =>
          ctxErr ← gets (λ s, ctx_err (world s));
          if Is ctxErr Canceled || Is callErr Canceled then abandon PhaseInterrupted iteration req callErr
          else
            recovered ← recover_overflow build req iteration overflows callErr;
            match recovered.2 with
            | Some req => call_model fuel caller build iteration (attempt + 1) recovered.1 req
            | None =>
                let class := ClassifyTurnError callErr in
                if retryable class && (attempt <? maxModelRetries options)%Z then
                  recovery iteration req
                    ("model error classified as " +:+ class_text class +:+ "; retrying (" +:+ itoa (attempt + 1) +:+ "/" +:+
                     itoa (maxModelRetries options) +:+ "): " +:+ Error_ callErr)
                    (diagnosticRecoveryHint iteration []);;
                  call_model fuel caller build iteration (attempt + 1) recovered.1 req
                else abandon PhaseError iteration req callErr
            end
      end
  end.

(** Enough for every retry and every compaction. *)
Definition calls_fuel : nat := Z.to_nat (maxModelRetries options + maxContextOverflowRecoveries options + 1).
Definition callModelForTurn (caller : Caller) (build : W → W * result error Request) (req : Request) (iteration : Z) :
    Run_ (Response * bool * Request) :=
  call_model calls_fuel caller build iteration 0 0 req.

(** *** What the model says *)

Definition recoverEmptyResponse (req : Request) (resp : Response) (iteration : Z) : Run_ unit :=
  reasoned ← gets reasoningLengthRecoveries;
  empty ← gets emptyResponses;
  if bool_decide (Rs_StopReason resp = "length") && negb (blank (Rs_ReasoningContent resp)) && (reasoned <? maxReasoningLengthRecoveries)%Z then
    update (set_reasoningLengthRecoveries (reasoned + 1)%Z);;
    let budget := if (Rq_MaxTokens req <=? 0)%Z then 4096%Z else Rq_MaxTokens req in
    update (set_reasoningMaxTokens (Z.quot budget 2));;
    recovery iteration req
      ("model exhausted output budget on reasoning; requesting direct answer with reduced output budget (" +:+ itoa (Z.quot budget 2) +:+ ")")
      "The provider's reasoning consumed the output token budget; the runner capped the budget and requested a direct, concise answer.";;
    inject "Your previous response consumed its entire output token budget on reasoning and produced no answer. The output budget has been reduced. Do NOT use it for reasoning: answer directly with the final result now, in plain text, as concisely as possible."
  else if (empty <? maxEmptyResponses options)%Z then
    update (set_emptyResponses (empty + 1)%Z);;
    recovery iteration req "empty model response; retrying" "Retrying the model request because the provider returned an empty response."
  else
    on_result (set_Stopped true);;
    hinted (diagnosticRecoveryHint iteration []);;
    let err := [Plain ("LLM provider returned empty responses " +:+ itoa empty +:+ " times in a row; aborting instead of producing a fake handoff (provider/gateway may reject the request shape, the model may have exhausted its output budget on reasoning, or the provider is overloaded)")] in
    emitPhase (mkPhase PhaseError iteration (Rq_Model req) (Error_ err) "" "" (diagnosticRecoveryHint iteration []));;
    drained ← tryDrainInjections;
    if (0 <? Dr_Count drained)%Z then on_result (set_HadInjections true) else throw (Fails err).

Definition appendAssistantResponse (message : Message) (streamed : bool) : Run_ unit :=
  if is_nil (Msg_Content message) then mret tt
  else
    act (notify (AppendAssistant r) message);;
    let text := MessageText message in
    if bool_decide (text = "") then mret tt
    else
      on_result (set_LastAssistantText text);;
      when (negb streamed) (act (notify (OnAssistantTextDelta r) text));;
      act (notify (OnAssistantText r) text).

Definition after_turn : Run_ unit := match AfterTurn r with Some f => act f | None => mret tt end.

(** [true]: the run is complete; [false]: another turn. *)
Definition handleFinalResponse (req : Request) (resp : Response) (assistant : Message) (iteration : Z) : Run_ bool :=
  lengths ← gets lengthRecoveries;
  if bool_decide (Rs_StopReason resp = "length") && negb (blank (MessageText assistant)) && (lengths <? maxLengthRecoveries options)%Z then
    update (set_lengthRecoveries (lengths + 1)%Z);;
    recovery iteration req "model response reached length limit; requesting continuation"
      "The provider stopped because of the output length limit; the runner requested continuation.";;
    inject "Continue exactly where the previous response stopped. Do not repeat completed content.";;
    mret false
  else
    emitPhase (mkPhase PhaseFinalResponse iteration (Rq_Model req) "" "" "" "");;
    drained ← tryDrainInjections;
    if (0 <? Dr_Count drained)%Z then on_result (set_HadInjections true);; mret false
    else after_turn;; on_result (set_Completed true);; mret true.

(** *** Tools *)

Definition run_tools (run : tool_runner) (blocks : list Block) : Run_ (Message * list ExecutedTool * error) :=
  ask (ExecuteToolUsesWithOptions run (OnToolStarted r) (OnToolFinished r) (ToolResultFilter r)
         (mkExecOptions (toolTimeout options) (toolStuckWarningAfter (toolTimeout options)) (OnToolStuck r)) blocks).

Definition observe (executed : list ExecutedTool) : Run_ loopGuardDecision :=
  λ s, let '(g, d) := Observe executed None (guard s) in (set_guard g s, Ok d).

Definition loop_abort (iteration : Z) (executed : list ExecutedTool) (d : loopGuardDecision) {A} : Run_ A :=
  on_result (set_Stopped true);;
  hinted (TrimSpace (diagnosticRecoveryHint iteration executed +:+ " " +:+ D_RecoveryHint d));;
  throw (Fails [Plain (layer_text ErrRepeatedToolCalls +:+ ": " +:+ AbortMessage d); ErrRepeatedToolCalls]).

Definition no_feedback (d : loopGuardDecision) : loopGuardDecision :=
  mkDecision loopGuardAbort (D_Reason d) (D_Fingerprint d) (D_Tool d) (D_Count d) (D_CycleLength d) (D_Feedback d) (D_RecoveryHint d)
    "loop guard recovery was requested but runtime feedback is unavailable".

(** What follows once the guard lets the tools pass. *)
Definition after_tools (req : Request) (iteration : Z) (executed : list ExecutedTool) (toolErr : error) : Run_ bool :=
  ctxErr ← gets (λ s, ctx_err (world s));
  (if is_nil toolErr then mret tt
   else if Is ctxErr Canceled || Is toolErr Canceled || shouldStopAfterTool toolErr then
     on_result (set_Stopped true);;
     hinted (diagnosticRecoveryHint iteration executed);;
     throw (Fails toolErr)
   else
     recovery iteration req ("tool_error_recovery: " +:+ Error_ toolErr)
       "The tool error was appended as a tool result so the model can choose another approach.");;
  match StopAfterTools r with
  | None => mret false
  | Some f =>
      stopped ← ask f;
      when stopped (on_result (set_Stopped true));;
      mret stopped
  end.

Definition judged (req : Request) (iteration : Z) (executed : list ExecutedTool) (toolErr : error) (d : loopGuardDecision) : Run_ bool :=
  match D_Action d with
  | loopGuardRecover =>
      match AppendRuntimeFeedback r with
      | None => loop_abort iteration executed (no_feedback d)
      | Some append =>
          act (append (NewTextMessage RoleUser (D_Feedback d)));;
          emitPhase (mkPhase PhaseRecoveryAttempt iteration (Rq_Model req) ("loop_guard_recovery: " +:+ Summary d)
                       (ID (D_Tool d)) (Name (D_Tool d)) (D_RecoveryHint d));;
          mret false
      end
  | loopGuardAbort => loop_abort iteration executed d
  | loopGuardAllow => after_tools req iteration executed toolErr
  end.

Definition handleToolResponse (run : tool_runner) (req : Request) (resp : Response) (iteration : Z) : Run_ bool :=
  emitPhase (mkPhase PhaseAwaitingTools iteration (Rq_Model req) "" "" "" "");;
  ran ← run_tools run (Rs_Content resp);
  let '(results, executed, toolErr) := ran in
  when (negb (is_nil (Msg_Content results))) (act (notify (AppendToolResults r) results));;
  when (negb (is_nil executed)) (act (notify (OnExecutedTools r) executed));;
  after_turn;;
  emitPhase (mkPhase PhaseToolsCompleted iteration (Rq_Model req) "" "" "" "");;
  drained ← tryDrainInjections;
  when (0 <? Dr_Count drained)%Z (on_result (set_HadInjections true));;
  d ← observe executed;
  judged req iteration executed toolErr d.

(** *** The loop *)

Definition answered_turn (run : tool_runner) (req : Request) (resp : Response) (streamed : bool) (iteration : Z) : Run_ bool :=
  let assistant := MessageFromResponse resp in
  if negb (HasToolUse (Rs_Content resp)) && blank (MessageText assistant)
  then recoverEmptyResponse req resp iteration;; mret false
  else
    appendAssistantResponse assistant streamed;;
    if negb (HasToolUse (Rs_Content resp)) then handleFinalResponse req resp assistant iteration
    else handleToolResponse run req resp iteration.

Definition take_turn (caller : Caller) (build : W → W * result error Request) (run : tool_runner) (iteration : Z) : Run_ bool :=
  on_result (set_Turns iteration);;
  req ← buildTurnRequest build iteration;
  called ← callModelForTurn caller build req iteration;
  let '(resp, streamed, req) := called in
  answered_turn run req resp streamed iteration.

Fixpoint turns (n : nat) (turn : Z) (caller : Caller) (build : W → W * result error Request) (run : tool_runner) : Run_ unit :=
  match n with
  | 0 => hinted (diagnosticRecoveryHint (maxTurns options) []);; throw (Fails [ErrMaxTurnsReached])
  | S n =>
      done ← take_turn caller build run (turn + 1);
      if (done : bool) then mret tt else turns n (turn + 1) caller build run
  end.

End Turns.

Section Start.
Context {RW : RunWorld W} {U : Unicode} {J : JSONLib} {G : GuardLib}.

Definition no_result : Result := mkRunResult "" 0 false false false "".
Definition initial (o : runnerOptions) (w : W) : state := mkState w no_result 0 0 0 0 0 (newLoopGuard_ o).

(** The result, if there is one, and the error, if there is one; [None] when
    the fuel runs out. *)
Definition Run (r : Runner) (w : W) : W * option (option Result * error) :=
  match R_Caller r, BuildRequest r, ExecuteTool r with
  | None, _, _ => (w, Some (None, [Plain "missing caller"]))
  | _, None, _ => (w, Some (None, [Plain "missing request builder"]))
  | _, _, None => (w, Some (None, [Plain "missing tool executor"]))
  | Some caller, Some build, Some run =>
      let o := normalizedOptions r in
      let '(s, out) := turns r o (Z.to_nat (maxTurns o)) 0 caller build run (initial o w) in
      (world s,
       match out with
       | Ok _ => Some (Some (res s), [])
       | Err (Fails e) => Some (Some (res s), e)
       | Err (NoResult e) => Some (None, e)
       | Err OutOfFuel => None
       end)
  end.

End Start.
End Runner.
Arguments Runner : clear implicits.
Arguments Caller : clear implicits.
Arguments StreamHandler : clear implicits.
Arguments state : clear implicits.
