(* ===== verification/RunnerSpec.v ===== *)
(** * Conversations: what a run guarantees

    A run ends, and asks the model a bounded number of times; it leaves a history
    in which every call of a tool is followed by its result; it stops a model
    that repeats itself. The histories and frontends behind the callbacks are
    behind the interface [Host]. *)
From S2P Require Import Prelude GoStrings GoRunes JSON FlowModel LoopGuard Sanitize TurnErrors Messages Runner.
From Stdlib Require Import Ascii ZArith Lia.

(** ** Histories *)

Definition is_use (b : Block) : bool := match B_Type b with BlockToolUse => true | _ => false end.
Definition is_result (b : Block) : bool := match B_Type b with BlockToolResult => true | _ => false end.
Definition uses_of (m : Message) : list string := B_ID <$> filter (λ b, is_use b = true) (Msg_Content m).
Definition results_of (m : Message) : list string := B_ToolUseID <$> filter (λ b, is_result b = true) (Msg_Content m).

(** A message without calls and results. *)
Definition plain (m : Message) : Prop := uses_of m = [] ∧ results_of m = [].

(** A message that calls tools, and the message with their results, one for
    each call and in their order. *)
Definition exchange (call answer : Message) : Prop :=
  Msg_Role call = RoleAssistant ∧ uses_of call ≠ [] ∧ results_of call = [] ∧
  Msg_Role answer = RoleUser ∧ uses_of answer = [] ∧ results_of answer = uses_of call.

(** Every message with calls is followed at once by their results. *)
Inductive paired : list Message → Prop :=
| paired_nil : paired []
| paired_plain h m : paired h → plain m → paired (h ++ [m])
| paired_exchange h call answer : paired h → exchange call answer → paired (h ++ [call; answer]).

Lemma paired_more h ms : paired h → Forall plain ms → paired (h ++ ms).
Proof.
  intros Hh Hms. induction ms as [|m ms IH] using rev_ind; [by rewrite app_nil_r|].
  apply Forall_app in Hms as [? Hm]. apply Forall_cons in Hm as [Hm _]. rewrite app_assoc. apply paired_plain; [by apply IH|done].
Qed.

(** ** The interface *)

(** The history, the number of calls of the model, and the batches of tools
    that have run. *)
Record view := mkView { history : list Message; calls : Z; batches : list (list ExecutedTool) }.

Section Host.
Context {W : Type} {RW : RunWorld W}.
Variable look : W → view.

Definition quiet (f : W → W) : Prop := ∀ w, look (f w) = look w.
Definition quietly {A} (f : option (A → W → W)) : Prop := ∀ a, quiet (notify f a).
Definition reads {A} (f : option (W → W * A)) : Prop := ∀ g, f = Some g → ∀ w, look (g w).1 = look w.

(** What the callbacks may do: those of the history append what they are given,
    a compaction leaves no call without its result, and the others touch neither
    the history nor the model. Errors are not nil. *)
Class Host (r : Runner W) : Prop := {
  host_build : reads (BuildRequest r);
  host_build_error build w e : BuildRequest r = Some build → (build w).2 = Err e → e ≠ [];
  host_call call req w : R_Caller r = Some (CallOnly call) →
    look (call req w).1 = mkView (history (look w)) (calls (look w) + 1) (batches (look w));
  host_stream stream req w : R_Caller r = Some (CallStream stream) →
    look (stream req (stream_handler r) w).1 = mkView (history (look w)) (calls (look w) + 1) (batches (look w));
  host_call_error call req w e : R_Caller r = Some (CallOnly call) → (call req w).2 = Err e → e ≠ [];
  host_stream_error stream req w e : R_Caller r = Some (CallStream stream) → (stream req (stream_handler r) w).2 = Err e → e ≠ [];
  host_assistant m w : look (notify (AppendAssistant r) m w) = mkView (history (look w) ++ [m]) (calls (look w)) (batches (look w));
  host_results m w : look (notify (AppendToolResults r) m w) = mkView (history (look w) ++ [m]) (calls (look w)) (batches (look w));
  host_feedback f m w : AppendRuntimeFeedback r = Some f → look (f m w) = mkView (history (look w) ++ [m]) (calls (look w)) (batches (look w));
  host_inject f ms w : AppendInjectedMessages r = Some f → look (f ms w) = mkView (history (look w) ++ ms) (calls (look w)) (batches (look w));
  host_drain f n w : DrainInjections r = Some f → look (f n w).1 = look w;
  host_drained f n w d : DrainInjections r = Some f → (f n w).2 = Ok d → Forall plain (Dr_Messages d);
  host_compact f w : OnContextOverflow r = Some f →
    calls (look (f w).1) = calls (look w) ∧ batches (look (f w).1) = batches (look w) ∧
    (paired (history (look w)) → paired (history (look (f w).1)));
  host_executed tools w : look (notify (OnExecutedTools r) tools w) =
    mkView (history (look w)) (calls (look w)) (batches (look w) ++ [tools]);
  host_tool f name input w : ExecuteTool r = Some f → look (f name input w).1 = look w;
  host_filter f tool w : ToolResultFilter r = Some f → look (f tool w).1 = look w;
  host_race t f w : (∀ w, look (f w).1 = look w) → look (race t f w).1 = look w;
  host_race_watched t u f w : (∀ w, look (f w).1 = look w) → look (race_watched t u f w).1 = look w;
  host_race_on w : look (race_on w).1 = look w;
  host_started : quietly (OnToolStarted r);
  host_finished : quietly (OnToolFinished r);
  host_stuck : quietly (OnToolStuck r);
  host_phase : quietly (OnPhase r);
  host_text : quietly (OnAssistantText r);
  host_delta : quietly (OnAssistantTextDelta r);
  host_request req resp f : OnModelRequest r = Some f → quiet (f req resp);
  host_after f : AfterTurn r = Some f → quiet f;
  host_stop : reads (StopAfterTools r);
}.

End Host.

(** ** Tools *)

Section Tools.
Context {W : Type} {RW : RunWorld W} {U : Unicode} {J : JSONLib} {G : GuardLib}.
Variables (run : tool_runner (W:=W)) (onStarted : option (Block → W → W)) (onFinished : option (ExecutedTool → W → W))
  (tool_filter : option (ExecutedTool → W → W * ExecutedTool)) (options : ExecuteToolOptions (W:=W)).

Lemma execute_tool_result block w w' tool result err :
  execute_tool run onStarted onFinished tool_filter options block w = (w', (tool, result, err)) →
  result = set_B_IsError (negb (blank (Error_ err))) (ToolResultBlock (B_ID block) (Output tool)) ∧
  ID tool = B_ID block ∧ Name tool = B_Name block ∧ Error tool = Error_ err.
Proof.
  unfold execute_tool, filtered. destruct (executeToolWithTimeout _ _ _ _ _ _ _ _) as [w1 [execution e]].
  destruct tool_filter as [f|]; [destruct (f _ _) as [w2 t]|]; intros [= <- <- <- <-]; done.
Qed.

(** Every call has one result, in order, and the calls that ran are the first. *)
Lemma execute_uses_results uses w w' results executed err :
  execute_uses run onStarted onFinished tool_filter options uses w = (w', (results, executed, err)) →
  B_ToolUseID <$> results = B_ID <$> uses ∧ Forall (λ b, B_Type b = BlockToolResult) results ∧
  (ID <$> executed) `prefix_of` (B_ID <$> uses) ∧ (uses ≠ [] → executed ≠ []).
Proof.
  revert w w' results executed err. induction uses as [|block uses IH]; intros w w' results executed err; cbn [execute_uses].
  { intros [= <- <- <- <-]. split_and!; try done; constructor. }
  destruct (execute_tool _ _ _ _ _ _ _) as [w1 [[tool res] e]] eqn:Ht.
  destruct (execute_tool_result _ _ _ _ _ _ Ht) as (->&Hid&_&_). destruct (shouldStopAfterTool e).
  - intros [= <- <- <- <-]. cbn. split_and!; try done.
    + f_equal. by rewrite <- list_fmap_compose.
    + constructor; [done|]. apply Forall_fmap, Forall_true. done.
    + rewrite Hid. apply prefix_cons, prefix_nil.
  - destruct (execute_uses _ _ _ _ _ uses w1) as [w2 [[rs ts] e2]] eqn:Hu. intros [= <- <- <- <-].
    destruct (IH _ _ _ _ _ Hu) as (H1&H2&H3&_). cbn. rewrite H1, Hid. split_and!; try done; [by constructor|by apply prefix_cons].
Qed.

(** The only errors that reach the runner are those that stop it. *)
Lemma tools_error_stops blocks w w' results executed err :
  ExecuteToolUsesWithOptions run onStarted onFinished tool_filter options blocks w = (w', (results, executed, err)) →
  err = [] ∨ shouldStopAfterTool err = true.
Proof.
  unfold ExecuteToolUsesWithOptions. case_match; [by intros [= <- <- <- <-]; left|].
  destruct (execute_uses _ _ _ _ _ _ _) as [w1 [[rs ts] e]] eqn:Hu. intros [= <- <- <- <-]. clear H. revert w w1 rs ts e Hu.
  induction (ToolUses blocks) as [|block uses IH]; intros w w1 rs ts e; cbn [execute_uses]; [intros [= <- <- <- <-]; by left|].
  destruct (execute_tool _ _ _ _ _ _ _) as [w2 [[t res] e2]]. destruct (shouldStopAfterTool e2) eqn:Hs; [intros [= <- <- <- <-]; by right|].
  destruct (execute_uses _ _ _ _ _ uses w2) as [w3 [[rs2 ts2] e3]] eqn:Hu2. intros [= <- <- <- <-]. by eapply IH.
Qed.

End Tools.

(** ** Steps *)

Section Steps.
Context {W : Type} {RW : RunWorld W} {U : Unicode} {J : JSONLib} {G : GuardLib}.
Context {look : W → view} (r : Runner W) {HH : Host look r} (o : runnerOptions).

(** A step that nobody sees, and a step that may add plain messages. *)
Definition unseen (s s' : state W) : Prop := look (world s') = look (world s) ∧ guard s' = guard s.
Definition says (s s' : state W) : Prop :=
  ∃ ms, Forall plain ms ∧ guard s' = guard s ∧
    look (world s') = mkView (history (look (world s)) ++ ms) (calls (look (world s))) (batches (look (world s))).

#[local] Instance unseen_preorder : PreOrder unseen.
Proof. split; [by split|]. intros a b c [H1 H2] [H3 H4]. split; congruence. Qed.

#[local] Instance says_preorder : PreOrder says.
Proof.
  split.
  - intros s. exists []. rewrite app_nil_r. split_and!; [constructor|done|by destruct (look _)].
  - intros a b c (m1&F1&G1&E1) (m2&F2&G2&E2). exists (m1 ++ m2). split_and!; [by apply Forall_app|congruence|].
    rewrite E2, E1. cbn. by rewrite app_assoc.
Qed.

Lemma unseen_says s s' : unseen s s' → says s s'.
Proof. intros [H1 H2]. exists []. rewrite app_nil_r, H1. split_and!; [by apply Forall_nil_2|done|]. by destruct (look (world s)). Qed.

Lemma respects_act (f : W → W) : quiet look f → respects unseen (act f).
Proof. intros Hf s. split; [apply Hf|done]. Qed.

Lemma respects_ask {A} (f : W → W * A) : (∀ w, look (f w).1 = look w) → respects unseen (ask f).
Proof. intros Hf s. unfold respects, run, ask. specialize (Hf (world s)). destruct (f (world s)). by split. Qed.

Lemma respects_speak (f : W → W) ms :
  Forall plain ms → (∀ w, look (f w) = mkView (history (look w) ++ ms) (calls (look w)) (batches (look w))) → respects says (act f).
Proof. intros Hms Hf s. exists ms. split_and!; [done|done|apply Hf]. Qed.

Lemma respects_unseen_says {A} (m : M (state W) stop A) : respects unseen m → respects says m.
Proof. apply respects_sub, unseen_says. Qed.

Lemma respects_setter (f : state W → state W) : (∀ s, world (f s) = world s ∧ guard (f s) = guard s) → respects (E:=stop) unseen (update f).
Proof. intros Hf s. destruct (Hf s) as [E1 E2]. split; cbn; [by rewrite E1|done]. Qed.

Lemma respects_when {S E} (R : S → S → Prop) `{!PreOrder R} b (m : M S E unit) : respects R m → respects R (when b m).
Proof. destruct b; [done|]. intros _ s. cbn. reflexivity. Qed.

#[local] Hint Resolve respects_setter respects_act respects_when : respect.

(** Walks through a program, case by case. *)
Ltac walk :=
  repeat first
    [ by eauto 3 with respect nocore
    | by (apply respects_unseen_says; eauto 3 with respect nocore)
    | by apply respects_setter
    | by apply respects_unseen_says, respects_setter
    | apply respects_bind; [typeclasses eauto| |intros ?]
    | apply respects_gets; typeclasses eauto | apply respects_ret; typeclasses eauto | apply respects_throw; typeclasses eauto
    | apply respects_when; [typeclasses eauto|]
    | progress cbv zeta
    | case_match ].

Lemma emitPhase_unseen e : respects unseen (emitPhase r e).
Proof. apply respects_act, (host_phase look (r:=r)). Qed.
Lemma on_result_unseen f : respects unseen (on_result (W:=W) f).
Proof. by apply respects_setter. Qed.
Lemma hinted_unseen h : respects unseen (hinted (W:=W) h).
Proof. apply on_result_unseen. Qed.
Lemma recovery_unseen i req m h : respects unseen (recovery r i req m h).
Proof. apply emitPhase_unseen. Qed.
Lemma after_turn_unseen : respects unseen (after_turn r).
Proof. unfold after_turn. destruct (AfterTurn r) eqn:H; [by apply respects_act, (host_after look (r:=r) _ H)|apply respects_ret, _]. Qed.
Lemma text_unseen text : respects unseen (act (notify (OnAssistantText r) text)).
Proof. apply respects_act, (host_text look (r:=r)). Qed.
Lemma delta_unseen text : respects unseen (act (notify (OnAssistantTextDelta r) text)).
Proof. apply respects_act, (host_delta look (r:=r)). Qed.
#[local] Hint Resolve text_unseen delta_unseen : respect.
#[local] Hint Resolve emitPhase_unseen on_result_unseen hinted_unseen recovery_unseen after_turn_unseen : respect.

Lemma plain_text role text : plain (NewTextMessage role text).
Proof. done. Qed.

Lemma inject_says text : respects says (inject r text).
Proof.
  unfold inject. destruct (AppendInjectedMessages r) as [f|] eqn:H; [|apply respects_ret, _].
  apply (respects_speak _ [NewTextMessage RoleUser text]); [by repeat constructor|]. intros w. by eapply (host_inject look (r:=r)).
Qed.
#[local] Hint Resolve inject_says : respect.

Lemma tryDrainInjections_says : respects says (tryDrainInjections r o).
Proof.
  unfold tryDrainInjections. apply respects_bind; [apply _|apply respects_gets, _|intros cycles].
  destruct (DrainInjections r) as [drain|] eqn:Hd; [|apply respects_ret, _].
  destruct (AppendInjectedMessages r) as [app|] eqn:Ha; [|apply respects_ret, _]. case_match; [apply respects_ret, _|].
  intros s. unfold respects. rewrite run_bind. unfold ask at 1 2, run at 1 2, out at 1.
  pose proof (host_drain look (r:=r) _ (maxInjectionsPerTurn o) (world s) Hd) as Hl. pose proof (λ d, host_drained look (r:=r) drain (maxInjectionsPerTurn o) (world s) d Hd) as Hp. destruct (drain _ _) as [w [d|e]]; cbn [fst snd] in *.
  - specialize (Hp d eq_refl). transitivity (set_world w s); [apply unseen_says; by split|].
    assert (respects says (act (app (Dr_Messages d)))) as Hsay.
    { apply (respects_speak _ (Dr_Messages d) Hp). intros w'. by eapply (host_inject look (r:=r)). }
    revert Hsay. generalize (set_world w s). intros s0 Hsay. revert s0. walk.
  - apply unseen_says. by split.
Qed.
#[local] Hint Resolve tryDrainInjections_says : respect.

Lemma recoverEmptyResponse_says req resp i : respects says (recoverEmptyResponse r o req resp i).
Proof. unfold recoverEmptyResponse. walk. Qed.

Lemma handleFinalResponse_says req resp m i : respects says (handleFinalResponse r o req resp m i).
Proof. unfold handleFinalResponse. walk. Qed.

Lemma after_tools_unseen req i executed err : respects unseen (after_tools r req i executed err).
Proof.
  unfold after_tools. walk. all: apply respects_ask; intros w; by eapply host_stop.
Qed.

(** *** Asking the model *)

(** At most [k] calls of the model; the history may have been compacted. *)
Definition asks (k : Z) (s s' : state W) : Prop :=
  (calls (look (world s')) <= calls (look (world s)) + k)%Z ∧ batches (look (world s')) = batches (look (world s)) ∧
  guard s' = guard s ∧ (paired (history (look (world s))) → paired (history (look (world s')))).

Lemma unseen_asks s s' : unseen s s' → asks 0 s s'.
Proof. intros [E1 E2]. unfold asks. rewrite E1. split_and!; try done; lia. Qed.

Lemma asks_trans j k s1 s2 s3 : asks j s1 s2 → asks k s2 s3 → asks (j + k) s1 s3.
Proof. intros (A1&B1&G1&P1) (A2&B2&G2&P2). split_and!; [lia|congruence|congruence|auto]. Qed.

Lemma asks_mono j k s s' : (j <= k)%Z → asks j s s' → asks k s s'.
Proof. intros H (A&B&C&D). split_and!; [lia|done..]. Qed.

#[local] Instance asks_preorder : PreOrder (asks 0).
Proof. split; [intros s; by apply unseen_asks|]. intros s1 s2 s3. apply (asks_trans 0 0). Qed.

Context (caller : Caller W) (build : W → W * result error Request) (Hcaller : R_Caller r = Some caller) (Hbuild : BuildRequest r = Some build).

Lemma build_unseen : respects unseen (ask build).
Proof. apply respects_ask. by apply (host_build look (r:=r)). Qed.
#[local] Hint Resolve build_unseen : respect.

Lemma buildTurnRequest_unseen i : respects unseen (buildTurnRequest r build i).
Proof. unfold buildTurnRequest. walk. Qed.

Lemma model_asked (f : W → W * result error Response) s :
  (∀ w, look (f w).1 = mkView (history (look w)) (calls (look w) + 1) (batches (look w))) → asks 1 s (run (ask f) s).
Proof.
  intros Hf. unfold run, ask. specialize (Hf (world s)). destruct (f (world s)) as [w a]. cbn in *.
  unfold asks. cbn. rewrite Hf. cbn. split_and!; done || lia.
Qed.

Lemma callModel_asks req s : asks 1 s (run (callModel r caller req) s).
Proof.
  assert (∀ (f : W → W * result error Response) (b : bool),
    (∀ w, look (f w).1 = mkView (history (look w)) (calls (look w) + 1) (batches (look w))) →
    asks 1 s (run (answer ← ask f;
                   match OnModelRequest r with
                   | Some g => act (g req (match answer with Ok resp => Some resp | Err _ => None end))
                   | None => mret tt
                   end;; mret (answer, b)) s)) as Hgen.
  { intros f b Hf. rewrite run_bind. pose proof (model_asked f s Hf) as H1.
    destruct (out (ask f) s) as [answer|]; [|done]. apply (asks_trans 1 0 _ _ _ H1), unseen_asks. revert H1.
    generalize (run (ask f) s). intros s1 _. revert s1.
    apply respects_bind; [apply _| |intros ?; apply respects_ret, _].
    destruct (OnModelRequest r) as [g|] eqn:Hg; [|apply respects_ret, _]. apply respects_act. by apply (host_request look (r:=r)). }
  unfold callModel. destruct caller as [call|stream]; apply Hgen; intros w; [by apply (host_call look (r:=r))|by apply (host_stream look (r:=r))].
Qed.

Lemma recover_overflow_asks req i n e : respects (asks 0) (recover_overflow r o build req i n e).
Proof.
  assert (∀ {A} (m : M (state W) stop A), respects unseen m → respects (asks 0) m) as Hu.
  { intros A m. apply respects_sub. intros s s'. apply unseen_asks. }
  unfold recover_overflow. destruct (OnContextOverflow r) as [compact|] eqn:Hc; [|apply respects_ret, _].
  case_match; [|apply respects_ret, _]. apply respects_bind; [apply _|apply Hu, recovery_unseen|intros _].
  apply respects_bind; [apply _| |intros ?; apply respects_ret, _]. unfold rebuild.
  apply respects_bind; [apply _| |intros [|]; [|apply respects_ret, _]].
  - intros s. unfold run, ask. pose proof (host_compact look (r:=r) compact (world s) Hc) as (H1&H2&H3).
    destruct (compact (world s)) as [w b]. cbn in *. split_and!; cbn; [lia|done|done|done].
  - apply Hu. walk.
Qed.

Lemma abandon_unseen p i req e {A} : respects unseen (abandon (A:=A) r p i req e).
Proof. unfold abandon. walk. Qed.

Lemma asks_bind {A B} (m : M (state W) stop A) (k : A → M (state W) stop B) j l s :
  (0 <= l)%Z → asks j s (run m s) → (∀ a, asks l (run m s) (run (k a) (run m s))) → asks (j + l) s (run (m ≫= k) s).
Proof.
  intros Hl Hm Hk. rewrite run_bind. destruct (out m s); [by eapply asks_trans|]. eapply asks_mono; [|exact Hm]. lia.
Qed.

Lemma call_model_asks fuel i attempt n req s :
  asks (Z.of_nat fuel) s (run (call_model r o fuel caller build i attempt n req) s).
Proof.
  revert attempt n req s. induction fuel as [|fuel IH]; intros attempt n req s; cbn [call_model]; [by apply unseen_asks|].
  replace (Z.of_nat (S fuel)) with (1 + Z.of_nat fuel)%Z by lia. apply asks_bind; [lia|apply callModel_asks|intros [[resp|e] b]].
  { eapply asks_mono; [|by apply unseen_asks]; lia. }
  cbn [fst snd]. generalize (run (callModel r caller req) s). clear s. intros s. rewrite run_gets.
  case_match; [eapply asks_mono; [|apply unseen_asks, abandon_unseen]; lia|].
  replace (Z.of_nat fuel) with (0 + Z.of_nat fuel)%Z by lia. apply asks_bind; [lia|apply recover_overflow_asks|intros [n' [req'|]]]; [apply IH|].
  cbn [fst snd]. case_match; [|eapply asks_mono; [|apply unseen_asks, abandon_unseen]; lia].
  replace (Z.of_nat fuel) with (0 + Z.of_nat fuel)%Z by lia. apply asks_bind; [lia|apply unseen_asks, recovery_unseen|intros _]. apply IH.
Qed.

(** *** How a step ends *)

(** A step never runs out of fuel, and its errors are not nil. *)
Definition ends {A} (res : Prelude.result stop A) : Prop :=
  match res with Err OutOfFuel => False | Err (Fails e) | Err (NoResult e) => e ≠ [] | Ok _ => True end.
Definition sound {A} (m : M (state W) stop A) : Prop := ∀ s, ends (out m s).

Lemma sound_ret {A} (a : A) : sound (mret a).
Proof. by intros s. Qed.
Lemma sound_gets {A} (f : state W → A) : sound (gets f).
Proof. by intros s. Qed.
Lemma sound_writing f : sound (update f).
Proof. by intros s. Qed.
Lemma sound_ask {A} (f : W → W * A) : sound (ask f).
Proof. intros s. unfold out, ask. by destruct (f (world s)). Qed.
Lemma sound_fails {A} e : e ≠ [] → sound (A:=A) (throw (Fails e)).
Proof. by intros He s. Qed.
Lemma sound_when b (m : M (state W) stop unit) : sound m → sound (when b m).
Proof. destruct b; [done|]. intros _. apply sound_ret. Qed.
Lemma sound_watching l : sound (observe l).
Proof. intros s. unfold out, observe. by destruct (Observe l None (guard s)). Qed.
Lemma sound_bind {A B} (m : M (state W) stop A) (k : A → M (state W) stop B) : sound m → (∀ a, sound (k a)) → sound (m ≫= k).
Proof. intros Hm Hk s. rewrite out_bind. specialize (Hm s). destruct (out m s); [apply Hk|done]. Qed.

#[local] Hint Resolve sound_ret sound_gets sound_writing sound_ask sound_watching : sound.
Ltac sound :=
  repeat first
    [ by eauto 2 with sound nocore | apply sound_bind; [|intros ?] | apply sound_when | by apply sound_fails | progress cbv zeta | case_match ].

Lemma sound_act (f : W → W) : sound (act f).
Proof. apply sound_writing. Qed.
Lemma sound_emitPhase e : sound (emitPhase r e).
Proof. apply sound_act. Qed.
Lemma sound_on_result f : sound (on_result (W:=W) f).
Proof. apply sound_writing. Qed.
Lemma sound_inject t : sound (inject r t).
Proof. unfold inject. case_match; [apply sound_act|apply sound_ret]. Qed.
Lemma sound_after_turn : sound (after_turn r).
Proof. unfold after_turn. case_match; [apply sound_act|apply sound_ret]. Qed.
#[local] Hint Resolve sound_act sound_emitPhase sound_on_result sound_inject sound_after_turn : sound.
Lemma sound_recovery i req m h : sound (recovery r i req m h).
Proof. apply sound_emitPhase. Qed.
Lemma sound_hinted h : sound (hinted (W:=W) h).
Proof. apply sound_on_result. Qed.
Lemma sound_drain : sound (tryDrainInjections r o).
Proof. unfold tryDrainInjections. sound. Qed.
#[local] Hint Resolve sound_recovery sound_hinted sound_drain : sound.

Lemma sound_abandon p i req e {A} : e ≠ [] → sound (abandon (A:=A) r p i req e).
Proof. intros He. unfold abandon. sound. Qed.
Lemma sound_loop_abort i l d {A} : sound (loop_abort (W:=W) (A:=A) i l d).
Proof. unfold loop_abort. sound. Qed.
Lemma sound_empty req resp i : sound (recoverEmptyResponse r o req resp i).
Proof. unfold recoverEmptyResponse. sound. Qed.
Lemma sound_final req resp m i : sound (handleFinalResponse r o req resp m i).
Proof. unfold handleFinalResponse. sound. Qed.
Lemma sound_assistant m b : sound (appendAssistantResponse r m b).
Proof. unfold appendAssistantResponse. sound. Qed.
Lemma sound_after_tools req i l e : sound (after_tools r req i l e).
Proof. unfold after_tools. sound. all: destruct e; [done|by apply sound_fails]. Qed.
#[local] Hint Resolve sound_loop_abort sound_empty sound_final sound_assistant sound_after_tools : sound.
Lemma sound_judged req i l e d : sound (judged r req i l e d).
Proof. unfold judged. sound. Qed.
#[local] Hint Resolve sound_judged : sound.
Lemma sound_tools run req resp i : sound (handleToolResponse r o run req resp i).
Proof. unfold handleToolResponse, run_tools. sound. Qed.
#[local] Hint Resolve sound_tools : sound.

Lemma sound_build i : sound (buildTurnRequest r build i).
Proof.
  intros s. unfold buildTurnRequest. rewrite out_bind. unfold ask at 1 2, out at 1.
  pose proof (host_build_error look (r:=r) build (world s)) as He. destruct (build (world s)) as [w [req|e]]; cbn [snd].
  - apply sound_bind; [apply sound_gets|intros cap]. sound.
  - rewrite out_bind. cbn. by eapply He.
Qed.

Lemma callModel_error req s a : out (callModel r caller req) s = Ok a → ∀ e, a.1 = Err e → e ≠ [].
Proof.
  unfold callModel. cbv zeta. destruct caller as [call|stream].
  - pose proof (host_call_error look (r:=r) call req (world s)) as He. rewrite out_bind. unfold ask at 1, out at 1.
    destruct (call req (world s)) as [w answer]. cbn [snd fst] in *.
    rewrite out_bind. destruct (out _ _); [|done]. intros [= <-] e [= ->]. by apply He.
  - pose proof (host_stream_error look (r:=r) stream req (world s)) as He. rewrite out_bind. unfold ask at 1, out at 1.
    destruct (stream req (stream_handler r) (world s)) as [w answer]. cbn [snd fst] in *.
    rewrite out_bind. destruct (out _ _); [|done]. intros [= <-] e [= ->]. by apply He.
Qed.

Lemma recover_overflow_counts req i n e s a :
  out (recover_overflow r o build req i n e) s = Ok a →
  a.1 = n ∧ a.2 = None ∨ a.1 = (n + 1)%Z ∧ (n < maxContextOverflowRecoveries o)%Z.
Proof.
  unfold recover_overflow. destruct (OnContextOverflow r) as [compact|]; [|intros [= <-]; by left].
  destruct (IsContextLengthError e); [|intros [= <-]; by left]. cbn [andb].
  destruct (Z.ltb_spec n (maxContextOverflowRecoveries o)); [|intros [= <-]; by left].
  rewrite out_bind. destruct (out (recovery _ _ _ _ _) s); [|done]. rewrite out_bind.
  destruct (out (rebuild _ _) _); [|done]. intros [= <-]. by right.
Qed.

(** Every retry uses up an attempt or a compaction. *)
Lemma sound_call_model fuel i attempt n req :
  (Z.max 0 (maxModelRetries o - attempt) + Z.max 0 (maxContextOverflowRecoveries o - n) < Z.of_nat fuel)%Z →
  sound (call_model r o fuel caller build i attempt n req).
Proof.
  revert attempt n req. induction fuel as [|fuel IH]; intros attempt n req Hf s; [lia|]. cbn [call_model]. rewrite out_bind.
  destruct (out (callModel r caller req) s) as [[[resp|e] b]|] eqn:Hc; cbn [fst snd]; [done| |].
  - pose proof (callModel_error _ _ _ Hc e eq_refl) as He. rewrite out_bind. cbn [gets out snd].
    case_match; [by apply sound_abandon|]. rewrite out_bind.
    destruct (out (recover_overflow _ _ _ _ _ _ _) _) as [[n' next]|] eqn:Ho; cbn [fst snd].
    + apply recover_overflow_counts in Ho as [[E1 E2]|[E1 E2]]; cbn in E1, E2; subst.
      * case_match; [|by apply sound_abandon]. apply andb_prop in H0 as [_ H0%Z.ltb_lt]. apply sound_bind; [apply sound_recovery|intros _].
        apply IH. lia.
      * destruct next; [apply IH; lia|]. case_match; [|by apply sound_abandon]. apply sound_bind; [apply sound_recovery|intros _].
        apply IH. lia.
    + assert (sound (recover_overflow r o build req i n e)) as Hs by (unfold recover_overflow, rebuild; sound).
      match type of Ho with out _ ?s' = _ => specialize (Hs s') end. by rewrite Ho in Hs.
  - assert (sound (callModel r caller req)) as Hs by (unfold callModel; sound). specialize (Hs s). by rewrite Hc in Hs.
Qed.

(** *** Tools and their results *)

Context (tool : tool_runner (W:=W)) (Htool : ExecuteTool r = Some tool).

Definition tool_options : ExecuteToolOptions (W:=W) :=
  mkExecOptions (toolTimeout o) (toolStuckWarningAfter (toolTimeout o)) (OnToolStuck r).
Definition execute (blocks : list Block) (w : W) : W * (Message * list ExecutedTool * error) :=
  ExecuteToolUsesWithOptions tool (OnToolStarted r) (OnToolFinished r) (ToolResultFilter r) tool_options blocks w.

Lemma execute_tool_look block w :
  look (execute_tool tool (OnToolStarted r) (OnToolFinished r) (ToolResultFilter r) tool_options block w).1 = look w.
Proof.
  unfold execute_tool. set (w0 := notify (OnToolStarted r) block w). assert (look w0 = look w) as E0 by apply (host_started look (r:=r)).
  rewrite <- E0. generalize w0. clear w0 E0 w. intros w.
  assert (∀ t id name input u, look (executeToolWithTimeout t id name input tool u (OnToolStuck r) w).1 = look w) as Hrun.
  { intros t id name input u. unfold executeToolWithTimeout. case_match; [by apply (host_tool look (r:=r))|].
    assert (∀ w, look (tool name input w).1 = look w) as Ht by (intros; by apply (host_tool look (r:=r))).
    case_match.
    - pose proof (host_race_watched look (r:=r) t u (tool name input) w Ht) as H1. destruct (race_watched _ _ _ _) as [w1 [e|]]; [done|].
      set (w2 := notify _ _ _). assert (look w2 = look w1) as E2 by apply (host_stuck look (r:=r)).
      pose proof (host_race_on look (r:=r) w2) as H2. destruct (race_on w2). cbn in *. congruence.
    - pose proof (host_race look (r:=r) t (tool name input) w Ht) as H1. by destruct (race _ _ _). }
  specialize (Hrun (EO_Timeout tool_options) (B_ID block) (B_Name block) (B_Input block) (EO_StuckWarningAfter tool_options)).
  cbn [EO_OnStuck tool_options] in *. destruct (executeToolWithTimeout _ _ _ _ _ _ _ _) as [w1 [execution err]]. cbn [fst] in Hrun.
  unfold filtered. destruct (ToolResultFilter r) as [f|] eqn:Hf.
  - match goal with |- context [f ?t w1] => pose proof (host_filter look (r:=r) f t w1 Hf) as H1; destruct (f t w1) as [w2 t2] end.
    cbn [fst] in *. etransitivity; [apply (host_finished look (r:=r))|]. congruence.
  - cbn [fst]. etransitivity; [apply (host_finished look (r:=r))|]. exact Hrun.
Qed.

Lemma execute_look blocks w : look (execute blocks w).1 = look w.
Proof.
  unfold execute, ExecuteToolUsesWithOptions. case_match; [done|]. clear H.
  assert (∀ uses w, look (execute_uses tool (OnToolStarted r) (OnToolFinished r) (ToolResultFilter r) tool_options uses w).1 = look w) as Hu.
  { intros uses. induction uses as [|block uses IH]; intros w0; [done|]. cbn [execute_uses]. pose proof (execute_tool_look block w0) as H1.
    destruct (execute_tool _ _ _ _ _ _ _) as [w1 [[t res] e]]. case_match; [exact H1|]. specialize (IH w1).
    destruct (execute_uses _ _ _ _ _ uses w1) as [w2 [[? ?] ?]]. cbn in *. congruence. }
  specialize (Hu (ToolUses blocks) w). by destruct (execute_uses _ _ _ _ _ _ _) as [w1 [[? ?] ?]].
Qed.

Lemma uses_of_response resp : uses_of (MessageFromResponse resp) = B_ID <$> ToolUses (Rs_Content resp).
Proof.
  unfold uses_of, MessageFromResponse, ToolUses. cbn. induction (Rs_Content resp) as [|b l IH]; [done|]. cbn.
  rewrite filter_app, fmap_app, IH. unfold response_block. by destruct (B_Type b).
Qed.

Lemma results_of_response resp : results_of (MessageFromResponse resp) = [].
Proof.
  unfold results_of, MessageFromResponse. cbn. induction (Rs_Content resp) as [|b l IH]; [done|]. cbn.
  rewrite filter_app, fmap_app, IH. unfold response_block. by destruct (B_Type b).
Qed.

Lemma no_tool_uses blocks : HasToolUse blocks = false ↔ ToolUses blocks = [].
Proof. unfold HasToolUse, ToolUses. induction blocks as [|b l IH]; [done|]. cbn. destruct (B_Type b); cbn; naive_solver. Qed.

Lemma execute_exchange resp w w' results executed err :
  HasToolUse (Rs_Content resp) = true → execute (Rs_Content resp) w = (w', (results, executed, err)) →
  exchange (MessageFromResponse resp) results ∧ executed ≠ [] ∧ Msg_Content results ≠ [].
Proof.
  intros Huse. assert (ToolUses (Rs_Content resp) ≠ []) as Hne.
  { intros H%no_tool_uses. congruence. }
  unfold execute, ExecuteToolUsesWithOptions. destruct (is_nil (ToolUses (Rs_Content resp))) eqn:Hnil; [by destruct (ToolUses _)|].
  destruct (execute_uses _ _ _ _ _ _ _) as [w1 [[rs ts] e]] eqn:Hu. intros [= <- <- <- <-].
  destruct (execute_uses_results _ _ _ _ _ _ _ _ _ _ _ Hu) as (Hids&Hall&_&Hex). unfold exchange.
  rewrite uses_of_response, results_of_response.
  assert (uses_of (NewMessage RoleUser rs) = [] ∧ results_of (NewMessage RoleUser rs) = B_ToolUseID <$> rs) as [E1 E2].
  { clear Hids Hu. unfold uses_of, results_of, NewMessage, cloneBlocks. cbn. induction Hall as [|b rs Hb Hall [IH1 IH2]]; [done|]. cbn.
    unfold is_use, is_result in *. cbn. rewrite Hb. cbn. split; [exact IH1|]. rewrite decide_True by done. cbn. f_equal. exact IH2. }
  rewrite E1, E2. split_and!; try done; [by intros ?%fmap_nil_inv|by apply Hex|].
  intros Hc. cbn in Hc. apply fmap_nil_inv in Hc as ->. cbn in Hids. by destruct (ToolUses _).
Qed.

Lemma run_bind_ok {A B} (m : M (state W) stop A) (k : A → M (state W) stop B) s s' a :
  m s = (s', Ok a) → run (m ≫= k) s = run (k a) s'.
Proof. intros H. unfold run. by rewrite (bind_ok _ _ _ _ _ H). Qed.
Lemma out_bind_ok {A B} (m : M (state W) stop A) (k : A → M (state W) stop B) s s' a :
  m s = (s', Ok a) → out (m ≫= k) s = out (k a) s'.
Proof. intros H. unfold out. by rewrite (bind_ok _ _ _ _ _ H). Qed.

Lemma drain_ok s : ∃ d, out (tryDrainInjections r o) s = Ok d.
Proof.
  unfold tryDrainInjections. rewrite out_gets. repeat case_match; try by eexists.
  rewrite out_bind. unfold ask, out at 1. cbn. destruct (p _ _) as [w' [d|e]]; cbn; [|by eexists]. case_match; by eexists.
Qed.

Lemma after_turn_ok s : out (after_turn r) s = Ok tt.
Proof. unfold after_turn. by case_match. Qed.

Lemma judged_says req i l e d : respects says (judged r req i l e d).
Proof.
  unfold judged. destruct (D_Action d).
  - apply respects_unseen_says, after_tools_unseen.
  - destruct (AppendRuntimeFeedback r) as [f|] eqn:Hf.
    + apply respects_bind; [apply _| |intros _; walk].
      apply (respects_speak _ [NewTextMessage RoleUser (D_Feedback d)]); [by repeat constructor|]. intros w. by apply (host_feedback look (r:=r)).
    + unfold loop_abort. walk.
  - unfold loop_abort. walk.
Qed.

Lemma judged_goes_on req i l e d s : is_ok (out (judged r req i l e d) s) = true → D_Action d ≠ loopGuardAbort.
Proof. unfold judged. by destruct (D_Action d). Qed.

(** The end of a round of tools: the guard is asked, and what follows is said. *)
Lemma judge_round req i executed toolErr s :
  let m := drained ← tryDrainInjections r o;
           when (0 <? Dr_Count drained)%Z (on_result (set_HadInjections true));;
           d ← observe executed;
           judged r req i executed toolErr d in
  ∃ ms d, Forall plain ms ∧
    look (world (run m s)) = mkView (history (look (world s)) ++ ms) (calls (look (world s))) (batches (look (world s))) ∧
    Observe executed None (guard s) = (guard (run m s), d) ∧
    (is_ok (out m s) = true → D_Action d ≠ loopGuardAbort).
Proof.
  cbv zeta. rewrite run_bind, out_bind. pose proof (tryDrainInjections_says s) as H1. destruct (drain_ok s) as [dr ->].
  set (s1 := run (tryDrainInjections r o) s) in *. rewrite run_bind, out_bind, run_when, out_when.
  set (s2 := if (0 <? Dr_Count dr)%Z then run (on_result (set_HadInjections true)) s1 else s1).
  assert (unseen s1 s2) as H2 by (subst s2; case_match; done).
  assert ((if (0 <? Dr_Count dr)%Z then out (on_result (set_HadInjections true)) s1 else Ok tt) = Ok tt) as -> by by case_match.
  destruct (Observe executed None (guard s2)) as [g d] eqn:Ho.
  assert (observe executed s2 = (set_guard g s2, Ok d)) as Hob by (unfold observe; by rewrite Ho).
  rewrite (run_bind_ok _ _ _ _ _ Hob), (out_bind_ok _ _ _ _ _ Hob).
  destruct (judged_says req i executed toolErr d (set_guard g s2)) as (ms2&F2&G2&E2). destruct H1 as (ms1&F1&G1&E1), H2 as [E0 G0].
  exists (ms1 ++ ms2), d. split_and!; [by apply Forall_app| | |apply judged_goes_on].
  - rewrite E2. cbn. rewrite E0, E1. cbn. by rewrite app_assoc.
  - rewrite G2. cbn. by rewrite <- G1, <- G0, Ho.
Qed.

Lemma handle_tools req resp i h s :
  HasToolUse (Rs_Content resp) = true → history (look (world s)) = h ++ [MessageFromResponse resp] →
  let m := handleToolResponse r o tool req resp i in
  ∃ answer ms executed d, exchange (MessageFromResponse resp) answer ∧ Forall plain ms ∧ executed ≠ [] ∧
    look (world (run m s)) = mkView ((h ++ [MessageFromResponse resp; answer]) ++ ms) (calls (look (world s))) (batches (look (world s)) ++ [executed]) ∧
    Observe executed None (guard s) = (guard (run m s), d) ∧
    (is_ok (out m s) = true → D_Action d ≠ loopGuardAbort).
Proof.
  intros Huse Hh. cbv zeta. unfold handleToolResponse.
  rewrite (run_bind_ok _ _ _ _ _ (eq_refl : emitPhase r _ s = _)), (out_bind_ok _ _ _ _ _ (eq_refl : emitPhase r _ s = _)).
  set (s1 := set_world _ s). assert (unseen s s1) as [E1 G1] by apply emitPhase_unseen.
  change (run_tools r o tool (Rs_Content resp)) with (ask (execute (Rs_Content resp))).
  pose proof (execute_look (Rs_Content resp) (world s1)) as E2.
  destruct (execute (Rs_Content resp) (world s1)) as [w2 [[answer executed] err]] eqn:Hx. cbn [fst snd] in *.
  assert (ask (execute (Rs_Content resp)) s1 = (set_world w2 s1, Ok (answer, executed, err))) as Ha by (unfold ask; by rewrite Hx).
  rewrite (run_bind_ok _ _ _ _ _ Ha), (out_bind_ok _ _ _ _ _ Ha).
  destruct (execute_exchange _ _ _ _ _ _ Huse Hx) as (Hex&Hne&Hnc).
  assert (is_nil (Msg_Content answer) = false) as -> by by destruct (Msg_Content answer).
  assert (is_nil executed = false) as -> by by destruct executed. cbn [negb when].
  set (s2 := set_world w2 s1) in *. set (f := notify (AppendToolResults r) answer). set (g := notify (OnExecutedTools r) executed).
  rewrite (run_bind_ok _ _ _ _ _ (eq_refl : act f s2 = _)), (out_bind_ok _ _ _ _ _ (eq_refl : act f s2 = _)).
  set (s3 := set_world _ s2).
  rewrite (run_bind_ok _ _ _ _ _ (eq_refl : act g s3 = _)), (out_bind_ok _ _ _ _ _ (eq_refl : act g s3 = _)).
  set (s4 := set_world _ s3).
  assert (look (world s4) = mkView (h ++ [MessageFromResponse resp; answer]) (calls (look (world s))) (batches (look (world s)) ++ [executed]) ∧ guard s4 = guard s) as [E4 G4].
  { split; [|exact G1]. cbn. subst f g. rewrite (host_executed look (r:=r)), (host_results look (r:=r)). cbn. by rewrite E2, E1, Hh, <- app_assoc. }
  rewrite run_bind, out_bind, after_turn_ok. pose proof (after_turn_unseen s4) as [E5 G5]. set (s5 := run (after_turn r) s4) in *.
  rewrite (run_bind_ok _ _ _ _ _ (eq_refl : emitPhase r _ s5 = _)), (out_bind_ok _ _ _ _ _ (eq_refl : emitPhase r _ s5 = _)).
  set (s6 := set_world _ s5). assert (unseen s5 s6) as [E6 G6] by apply emitPhase_unseen.
  destruct (judge_round req i executed err s6) as (ms&d&F&E7&Ho&Hok). exists answer, ms, executed, d. split_and!; try done.
  - rewrite E7, E6, E5, E4. done.
  - rewrite <- Ho. congruence.
Qed.

(** *** A turn *)

Lemma assistant_appended m b s :
  Msg_Content m ≠ [] →
  let s' := run (appendAssistantResponse r m b) s in
  out (appendAssistantResponse r m b) s = Ok tt ∧ guard s' = guard s ∧
  look (world s') = mkView (history (look (world s)) ++ [m]) (calls (look (world s))) (batches (look (world s))).
Proof.
  intros Hm. cbv zeta. unfold appendAssistantResponse. destruct (is_nil (Msg_Content m)) eqn:E; [by destruct (Msg_Content m)|].
  set (f := notify (AppendAssistant r) m).
  rewrite (run_bind_ok _ _ _ _ _ (eq_refl : act f s = _)), (out_bind_ok _ _ _ _ _ (eq_refl : act f s = _)).
  set (s1 := set_world _ s).
  assert (look (world s1) = mkView (history (look (world s)) ++ [m]) (calls (look (world s))) (batches (look (world s)))) as E1
    by apply (host_assistant look (r:=r)).
  rewrite <- E1. change (guard s) with (guard s1). generalize s1. clear E1 s1. intros s1. cbv zeta. case_match; [done|].
  assert (respects unseen (on_result (W:=W) (set_LastAssistantText (MessageText m));;
    when (negb b) (act (notify (OnAssistantTextDelta r) (MessageText m)));; act (notify (OnAssistantText r) (MessageText m)))) as Hq by walk.
  destruct (Hq s1) as [H1 H2]. split_and!; [by destruct b|done|done].
Qed.

(** What a turn does to the batches and to the guard. *)
Definition round_of (s s' : state W) (goes_on : bool) : Prop :=
  (batches (look (world s')) = batches (look (world s)) ∧ guard s' = guard s) ∨
  ∃ executed d, executed ≠ [] ∧ batches (look (world s')) = batches (look (world s)) ++ [executed] ∧
    Observe executed None (guard s) = (guard s', d) ∧ (goes_on = true → D_Action d ≠ loopGuardAbort).

Definition turned (k : Z) (s s' : state W) (goes_on : bool) : Prop :=
  (calls (look (world s')) <= calls (look (world s)) + k)%Z ∧ (paired (history (look (world s))) → paired (history (look (world s')))) ∧
  round_of s s' goes_on.

Lemma says_turned s s' b : says s s' → turned 0 s s' b.
Proof.
  intros (ms&F&E1&E2). unfold turned, round_of. rewrite E2. cbn. split_and!; [lia|intros ?; by apply paired_more|left; done].
Qed.

Lemma turned_after j k s1 s2 s3 b : asks j s1 s2 → turned k s2 s3 b → turned (j + k) s1 s3 b.
Proof.
  intros (A1&A2&A3&A4) (B1&B2&B3). unfold turned, round_of in *. rewrite <- A2, <- A3. split_and!; [lia|auto|exact B3].
Qed.

Lemma answered_turned req resp b i s :
  turned 0 s (run (answered_turn r o tool req resp b i) s) (is_ok (out (answered_turn r o tool req resp b i) s)).
Proof.
  unfold answered_turn. cbv zeta. set (m := MessageFromResponse resp). destruct (HasToolUse (Rs_Content resp)) eqn:Huse; cbn [negb andb].
  - assert (Msg_Content m ≠ []) as Hm.
    { intros Hm. assert (ToolUses (Rs_Content resp) = []) as H%no_tool_uses; [|congruence].
      apply (fmap_nil_inv B_ID). rewrite <- uses_of_response. unfold uses_of. fold m. by rewrite Hm. }
    destruct (assistant_appended m b s Hm) as (E1&E2&E3). rewrite run_bind, out_bind, E1.
    set (s1 := run (appendAssistantResponse r m b) s) in *.
    destruct (handle_tools req resp i (history (look (world s))) s1 Huse ltac:(by rewrite E3)) as (answer&ms&l&d&Hex&F&Hl&E4&Ho&Hok).
    unfold turned, round_of. rewrite E4, E3. cbn. split_and!; [lia|intros Hp; by apply paired_more; [apply paired_exchange|]|].
    right. exists l, d. by rewrite <- E2.
  - destruct (blank (MessageText m)) eqn:Hb; cbn [andb].
    + apply says_turned. assert (respects says (recoverEmptyResponse r o req resp i;; mret false)) as H; [|apply H].
      apply respects_bind; [apply _|apply recoverEmptyResponse_says|intros _; apply respects_ret, _].
    + assert (Msg_Content m ≠ []) as Hm by (intros Hm; unfold MessageText in Hb; by rewrite Hm in Hb).
      destruct (assistant_appended m b s Hm) as (E1&E2&E3). rewrite run_bind, out_bind, E1.
      set (s1 := run (appendAssistantResponse r m b) s) in *.
      destruct (handleFinalResponse_says req resp m i s1) as (ms&F&E4&E5). unfold turned, round_of. rewrite E5, E3. cbn.
      split_and!; [lia| |left; split; [done|congruence]]. intros Hp. apply paired_more; [|done]. apply paired_plain; [done|].
      split; [|apply results_of_response]. subst m. rewrite uses_of_response. apply no_tool_uses in Huse. by rewrite Huse.
Qed.

Lemma turned_mono j k s s' b : (j <= k)%Z → turned j s s' b → turned k s s' b.
Proof. intros H (A&B&C). split_and!; [lia|done|done]. Qed.

Lemma take_turn_turned i s :
  let m := take_turn r o caller build tool i in turned (Z.of_nat (calls_fuel o)) s (run m s) (is_ok (out m s)).
Proof.
  cbv zeta. unfold take_turn. set (f := set_Turns i).
  rewrite (run_bind_ok _ _ _ _ _ (eq_refl : on_result f s = _)), (out_bind_ok _ _ _ _ _ (eq_refl : on_result f s = _)).
  set (s1 := set_res _ s). assert (unseen s s1) as H1%unseen_asks by done.
  replace (Z.of_nat (calls_fuel o)) with (0 + Z.of_nat (calls_fuel o))%Z by lia. eapply turned_after; [exact H1|].
  rewrite run_bind, out_bind. pose proof (buildTurnRequest_unseen i s1) as H2.
  destruct (out (buildTurnRequest r build i) s1) as [req|e]; [|eapply turned_mono, says_turned, unseen_says, H2; lia].
  replace (Z.of_nat (calls_fuel o)) with (0 + Z.of_nat (calls_fuel o))%Z by lia. eapply turned_after; [by apply unseen_asks|].
  rewrite run_bind, out_bind. unfold callModelForTurn. set (s2 := run (buildTurnRequest r build i) s1).
  pose proof (call_model_asks (calls_fuel o) i 0 0 req s2) as H3. set (s3 := run (call_model _ _ _ _ _ _ _ _ _) s2) in *.
  replace (Z.of_nat (calls_fuel o)) with (Z.of_nat (calls_fuel o) + 0)%Z by lia. eapply turned_after; [exact H3|].
  destruct (out _ s2) as [[[resp b] req2]|e]; [apply answered_turned|]. by apply says_turned, unseen_says.
Qed.

Lemma sound_take_turn i : (0 <= maxModelRetries o)%Z → (0 <= maxContextOverflowRecoveries o)%Z → sound (take_turn r o caller build tool i).
Proof.
  intros H1 H2. unfold take_turn. apply sound_bind; [apply sound_on_result|intros _]. apply sound_bind; [apply sound_build|intros req].
  apply sound_bind; [apply sound_call_model; unfold calls_fuel; lia|intros [[resp b] req2]].
  unfold answered_turn. cbv zeta. sound.
Qed.

(** *** The result *)

(** A step that neither completes the run nor begins a turn. *)
Definition same_turn (s s' : state W) : Prop := Completed (res s') = Completed (res s) ∧ Turns (res s') = Turns (res s).
#[local] Instance same_turn_preorder : PreOrder same_turn.
Proof. split; [by split|]. intros a b c [H1 H2] [H3 H4]. split; congruence. Qed.

Lemma same_turn_update (f : state W → state W) :
  (∀ s, Completed (res (f s)) = Completed (res s) ∧ Turns (res (f s)) = Turns (res s)) → respects (E:=stop) same_turn (update f).
Proof. done. Qed.
Lemma same_turn_act (f : W → W) : respects same_turn (act f).
Proof. done. Qed.
Lemma same_turn_ask {A} (f : W → W * A) : respects same_turn (ask f).
Proof. intros s. unfold run, ask. by destruct (f (world s)). Qed.
Lemma same_turn_phase e : respects same_turn (emitPhase r e).
Proof. done. Qed.
Lemma same_turn_recovery i req m h : respects same_turn (recovery r i req m h).
Proof. done. Qed.
Lemma same_turn_observe l : respects same_turn (observe (W:=W) l).
Proof. intros s. unfold run, observe. by destruct (Observe l None (guard s)). Qed.
#[local] Hint Resolve same_turn_act same_turn_ask same_turn_phase same_turn_recovery same_turn_observe : turns.
Ltac stays :=
  repeat first
    [ by eauto 2 with turns nocore | by apply same_turn_update
    | apply respects_bind; [typeclasses eauto| |intros ?]
    | apply respects_gets; typeclasses eauto | apply respects_ret; typeclasses eauto | apply respects_throw; typeclasses eauto
    | apply respects_when; [typeclasses eauto|] | progress cbv zeta | case_match ].

Lemma same_turn_inject t : respects same_turn (inject r t).
Proof. unfold inject. stays. Qed.
Lemma same_turn_after : respects same_turn (after_turn r).
Proof. unfold after_turn. stays. Qed.
Lemma same_turn_drain : respects same_turn (tryDrainInjections r o).
Proof. unfold tryDrainInjections. stays. Qed.
Lemma same_turn_abandon p i req e {A} : respects same_turn (abandon (A:=A) r p i req e).
Proof. unfold abandon, hinted, on_result. stays. Qed.
Lemma same_turn_loop_abort i l d {A} : respects same_turn (loop_abort (W:=W) (A:=A) i l d).
Proof. unfold loop_abort, hinted, on_result. stays. Qed.
#[local] Hint Resolve same_turn_inject same_turn_after same_turn_drain same_turn_abandon same_turn_loop_abort : turns.
Lemma same_turn_empty req resp i : respects same_turn (recoverEmptyResponse r o req resp i).
Proof. unfold recoverEmptyResponse, hinted, on_result. stays. Qed.
Lemma same_turn_assistant m b : respects same_turn (appendAssistantResponse r m b).
Proof. unfold appendAssistantResponse, on_result. stays. Qed.
Lemma same_turn_build i : respects same_turn (buildTurnRequest r build i).
Proof. unfold buildTurnRequest. stays. Qed.
Lemma same_turn_model req : respects same_turn (callModel r caller req).
Proof. unfold callModel. stays. Qed.
Lemma same_turn_overflow req i n e : respects same_turn (recover_overflow r o build req i n e).
Proof. unfold recover_overflow, rebuild. stays. Qed.
Lemma same_turn_after_tools req i l e : respects same_turn (after_tools r req i l e).
Proof. unfold after_tools, hinted, on_result. stays. Qed.
#[local] Hint Resolve same_turn_empty same_turn_assistant same_turn_build same_turn_model same_turn_overflow same_turn_after_tools : turns.
Lemma same_turn_judged req i l e d : respects same_turn (judged r req i l e d).
Proof. unfold judged. stays. Qed.
#[local] Hint Resolve same_turn_judged : turns.
Lemma same_turn_tools req resp i : respects same_turn (handleToolResponse r o tool req resp i).
Proof. unfold handleToolResponse, run_tools, on_result. stays. Qed.
Lemma same_turn_call_model fuel i attempt n req : respects same_turn (call_model r o fuel caller build i attempt n req).
Proof. revert attempt n req. induction fuel as [|fuel IH]; intros attempt n req; cbn [call_model]; stays. Qed.
#[local] Hint Resolve same_turn_tools same_turn_call_model : turns.

Lemma after_tools_stops req i l e s : out (after_tools r req i l e) s = Ok true → Stopped (res (run (after_tools r req i l e) s)) = true.
Proof.
  unfold after_tools. rewrite run_gets, out_gets, run_bind, out_bind. destruct (out _ s) as [[]|]; [|done].
  destruct (StopAfterTools r) as [f|]; [|done]. rewrite run_bind, out_bind. destruct (out (ask f) _) as [[]|]; done.
Qed.

Lemma judged_stops req i l e d s : out (judged r req i l e d) s = Ok true → Stopped (res (run (judged r req i l e d) s)) = true.
Proof. unfold judged. destruct (D_Action d); [apply after_tools_stops|by case_match|done]. Qed.

(** What holds at the end holds if it holds at the end of what comes last. *)
Lemma ends_with {A B} (P : state W → Prop) (b : B) (m : M (state W) stop A) (k : A → M (state W) stop B) s :
  (∀ a s, out (k a) s = Ok b → P (run (k a) s)) → out (m ≫= k) s = Ok b → P (run (m ≫= k) s).
Proof. intros Hk. rewrite run_bind, out_bind. destruct (out m s); [apply Hk|done]. Qed.

Lemma tools_stop req resp i s :
  out (handleToolResponse r o tool req resp i) s = Ok true → Stopped (res (run (handleToolResponse r o tool req resp i) s)) = true.
Proof.
  unfold handleToolResponse. apply (ends_with (λ s, Stopped (res s) = true)). intros _. clear s. intros s.
  apply (ends_with (λ s, Stopped (res s) = true)). intros [[answer executed] err]. clear s. intros s.
  do 5 (apply (ends_with (λ s, Stopped (res s) = true)); intros ?; clear s; intros s).
  do 2 (apply (ends_with (λ s, Stopped (res s) = true)); intros ?; clear s; intros s). apply judged_stops.
Qed.

(** The run is completed exactly by a final response. *)
Lemma final_completes req resp m i s :
  let f := handleFinalResponse r o req resp m i in
  Turns (res (run f s)) = Turns (res s) ∧
  match out f s with Ok true => Completed (res (run f s)) = true | _ => Completed (res (run f s)) = Completed (res s) end.
Proof.
  cbv zeta. unfold handleFinalResponse. rewrite run_gets, out_gets. case_match.
  - match goal with |- context [run ?m s] => assert (respects same_turn m) as Hs by (stays); destruct (Hs s) as [E1 E2] end.
    split; [exact E2|]. rewrite E1, !out_bind. by repeat case_match.
  - rewrite run_bind, out_bind. cbn [emitPhase act update out fst snd]. set (s1 := run (emitPhase r _) s).
    assert (same_turn s s1) as [A1 A2] by done. rewrite run_bind, out_bind. pose proof (same_turn_drain s1) as [B1 B2].
    destruct (drain_ok s1) as [dr ->]. set (s2 := run (tryDrainInjections r o) s1) in *. case_match.
    + split; [by transitivity (Turns (res s2)); [|rewrite B2]|by transitivity (Completed (res s2)); [|rewrite B1]].
    + rewrite run_bind, out_bind, after_turn_ok. pose proof (same_turn_after s2) as [C1 C2]. split; [|done].
      transitivity (Turns (res (run (after_turn r) s2))); [done|]. by rewrite C2, B2.
Qed.

(** What the rest of a turn makes of the result. *)
Definition settles (s s' : state W) (res' : Prelude.result stop bool) : Prop :=
  Turns (res s') = Turns (res s) ∧ (Completed (res s') = true → Completed (res s) = true ∨ res' = Ok true) ∧
  (res' = Ok true → Completed (res s') = true ∨ Stopped (res s') = true).

Lemma settles_same s s' res' : same_turn s s' → res' ≠ Ok true → settles s s' res'.
Proof. intros [E1 E2] H. unfold settles. rewrite E1, E2. split_and!; [done|by left|done]. Qed.

Lemma settles_bind {A} (m : M (state W) stop A) (k : A → M (state W) stop bool) s :
  respects same_turn m → (∀ a s, settles s (run (k a) s) (out (k a) s)) → settles s (run (m ≫= k) s) (out (m ≫= k) s).
Proof.
  intros Hm Hk. rewrite run_bind, out_bind. specialize (Hm s). destruct (out m s) as [a|e]; [|by apply settles_same].
  destruct Hm as [E1 E2], (Hk a (run m s)) as (A1&A2&A3). unfold settles. rewrite <- E1, <- E2. done.
Qed.

Lemma answered_settles req resp b i s :
  let m := answered_turn r o tool req resp b i in settles s (run m s) (out m s).
Proof.
  cbv zeta. unfold answered_turn. cbv zeta. case_match.
  { apply settles_bind; [stays|]. intros _ s'. by apply settles_same. }
  apply settles_bind; [stays|]. clear s. intros _ s. case_match.
  - destruct (final_completes req resp (MessageFromResponse resp) i s) as [A1 A2]. unfold settles. rewrite A1.
    destruct (out _ s) as [[]|]; rewrite A2; split_and!; auto; done.
  - destruct (same_turn_tools req resp i s) as [A1 A2]. unfold settles. rewrite A1, A2.
    split_and!; [done|by left|]. intros H'. right. by apply tools_stop.
Qed.

Lemma take_turn_result i s :
  let m := take_turn r o caller build tool i in
  Turns (res (run m s)) = i ∧ (Completed (res (run m s)) = true → Completed (res s) = true ∨ out m s = Ok true) ∧
  (out m s = Ok true → Completed (res (run m s)) = true ∨ Stopped (res (run m s)) = true).
Proof.
  cbv zeta. unfold take_turn. set (f := set_Turns i).
  rewrite (run_bind_ok _ _ _ _ _ (eq_refl : on_result f s = _)), (out_bind_ok _ _ _ _ _ (eq_refl : on_result f s = _)).
  set (s1 := set_res _ s). match goal with |- context [out ?m s1 = Ok true] => assert (settles s1 (run m s1) (out m s1)) as H; [|exact H] end.
  apply settles_bind; [stays|]. intros req s2. apply settles_bind; [apply same_turn_call_model|].
  intros [[resp b] req2] s3. apply answered_settles.
Qed.

End Steps.

(** ** Runs *)

Section Runs.
Context {W : Type} {RW : RunWorld W} {U : Unicode} {J : JSONLib} {G : GuardLib}.
Context {look : W → view} (r : Runner W) {HH : Host look r}.

Notation repeats f := (λ executed, alone f executed = true).

Section Loop.
Context (o : runnerOptions) (caller : Caller W) (build : W → W * result error Request) (tool : tool_runner (W:=W)).
Context (Hcaller : R_Caller r = Some caller) (Hbuild : BuildRequest r = Some build) (Htool : ExecuteTool r = Some tool).
Notation loop n turn := (turns r o n turn caller build tool).

Lemma turns_calls n turn s :
  (calls (look (world (run (loop n turn) s))) <= calls (look (world s)) + Z.of_nat n * Z.of_nat (calls_fuel o))%Z ∧
  (paired (history (look (world s))) → paired (history (look (world (run (loop n turn) s))))).
Proof.
  revert turn s. induction n as [|n IH]; intros turn s; cbn [turns].
  { split; [change (world (run _ s)) with (world s); lia|done]. }
  destruct (take_turn_turned r o caller build Hcaller Hbuild tool Htool (turn + 1) s) as (A1&A2&_).
  rewrite run_bind, Nat2Z.inj_succ, Z.mul_succ_l. set (s1 := run (take_turn _ _ _ _ _ _) s) in *.
  assert (0 <= Z.of_nat n * Z.of_nat (calls_fuel o))%Z by lia.
  destruct (out _ s) as [[|]|]; [split; [change (run (mret tt) s1) with s1; lia|exact A2]| |split; [lia|exact A2]].
  destruct (IH (turn + 1)%Z s1) as [B1 B2]. split; [lia|auto].
Qed.

Lemma turns_sound n turn : (0 <= maxModelRetries o)%Z → (0 <= maxContextOverflowRecoveries o)%Z → sound (loop n turn).
Proof.
  intros H1 H2. revert turn. induction n as [|n IH]; intros turn; cbn [turns].
  - apply sound_bind; [apply sound_hinted|intros _]. by apply sound_fails.
  - apply sound_bind; [by apply (sound_take_turn (look:=look))|]. intros [|]; [apply sound_ret|apply IH].
Qed.

(** The repetitions of a call, against what the guard has counted. *)
Lemma turns_repetitions {X : GuardLaws} f n turn s :
  part ":"%char f → Mode (config (guard s)) = LoopGuardModeStrict → (0 < MaxRepeatedTools (config (guard s)))%Z →
  (count f (repeated (guard s)) < MaxRepeatedTools (config (guard s)))%Z → (0 <= spent f (guard s) <= 1)%Z →
  ∃ more, batches (look (world (run (loop n turn) s))) = batches (look (world s)) ++ more ∧
    (potential (MaxRepeatedTools (config (guard s))) f (guard s) + Z.of_nat (length (filter (repeats f) more)) <=
     2 * MaxRepeatedTools (config (guard s)))%Z.
Proof.
  intros Hf. revert turn s. induction n as [|n IH]; intros turn s Hm Hlim Hlt Hsp; cbn [turns].
  { exists []. rewrite app_nil_r. split; [done|]. cbn. unfold potential. nia. }
  destruct (take_turn_turned r o caller build Hcaller Hbuild tool Htool (turn + 1) s) as (_&_&Hround).
  rewrite run_bind. set (s1 := run (take_turn _ _ _ _ _ _) s) in *. destruct (out (take_turn _ _ _ _ _ _) s) as [done|e] eqn:Ho.
  - assert (∃ more, batches (look (world s1)) = batches (look (world s)) ++ more ∧ config (guard s1) = config (guard s) ∧
      (count f (repeated (guard s1)) < MaxRepeatedTools (config (guard s)))%Z ∧ (0 <= spent f (guard s1) <= 1)%Z ∧
      (potential (MaxRepeatedTools (config (guard s))) f (guard s) + Z.of_nat (length (filter (repeats f) more)) <=
       potential (MaxRepeatedTools (config (guard s))) f (guard s1))%Z) as (m1&E1&E2&E3&E4&E5).
    { destruct Hround as [[E1 ->]|(executed&d&_&E1&Hob&Ha)].
      - exists []. rewrite app_nil_r. cbn. split_and!; try done; lia.
      - destruct (Observe_potential _ _ _ _ _ _ Hf Hm Hlim Hlt Hsp Hob (Ha eq_refl)) as (A1&A2&A3&A4). exists [executed].
        split_and!; try done; try lia. rewrite filter_cons, filter_nil.
        destruct (alone f executed); [rewrite decide_True by done|rewrite decide_False by done]; cbn [length]; lia. }
    destruct done.
    + exists m1. split; [exact E1|]. eapply Z.le_trans; [exact E5|]. unfold potential. nia.
    + destruct (IH (turn + 1)%Z s1) as (m2&F1&F2); [by rewrite E2..|by rewrite E2| |]; [done|].
      exists (m1 ++ m2). rewrite F1, E1, app_assoc. split; [done|]. rewrite E2 in F2. rewrite filter_app, length_app. lia.
  - destruct Hround as [[E1 _]|(executed&d&_&E1&_&_)].
    + exists []. rewrite app_nil_r. split; [done|]. cbn. unfold potential. nia.
    + exists [executed]. split; [done|]. assert (Z.of_nat (length (filter (repeats f) [executed])) <= 1)%Z by
        (rewrite filter_cons, filter_nil; case_match; cbn; lia). unfold potential. nia.
Qed.

Lemma turns_result n turn s s' res' :
  (loop n turn) s = (s', res') → Completed (res s) = false →
  (turn + 1 <= Turns (res s') <= turn + Z.of_nat n ∨ Z.of_nat n = 0)%Z ∧
  (Completed (res s') = true → res' = Ok tt) ∧ (res' = Ok tt → Completed (res s') = true ∨ Stopped (res s') = true).
Proof.
  revert turn s. induction n as [|n IH]; intros turn s Hrun Hc.
  { injection Hrun as <- <-. cbn. split_and!; [by right|by rewrite Hc|done]. }
  cbn [turns] in Hrun. destruct (take_turn_result r o caller build Hcaller tool (turn + 1) s) as (A1&A2&A3).
  unfold mbind, M_bind in Hrun. unfold run, out in A1, A2, A3. destruct (take_turn _ _ _ _ _ _ s) as [s1 [[|]|e]]; cbn [fst snd] in *.
  - injection Hrun as <- <-. split_and!; [left; lia|done|intros _; by apply A3].
  - assert (Completed (res s1) = false) as Hc1 by (destruct (Completed (res s1)); [destruct (A2 eq_refl); congruence|done]).
    destruct (IH _ _ Hrun Hc1) as (B1&B2&B3). split_and!; [|done|done]. destruct B1 as [B1|B1]; [left; lia|]. destruct n; [|lia]. left. injection Hrun as <- <-. cbn in *. lia.
  - injection Hrun as <- <-. split_and!; [left; lia|intros H; destruct (A2 H); congruence|done].
Qed.

End Loop.

Lemma normalized_positive : let o := normalizedOptions r in
  (0 < maxTurns o ∧ 0 < maxModelRetries o ∧ 0 <= maxContextOverflowRecoveries o ∧ 0 < maxRepeatedTools o)%Z.
Proof. unfold normalizedOptions, or_default, defaultMaxModelRetries, defaultMaxRepeatedTools. cbn. repeat case_match; lia. Qed.





End Runs.
