(* ===== verification/ConversationExamples.v ===== *)
(** * Conversations at work

    A small encoder and digest, with which the theorems on the loop guard and on
    the messages for a provider are applied, and the places where these do
    something else than they are said to. *)
From S2P Require Import Prelude GoStrings GoRunes ShellPolicy JSON FlowModel SessionJournal LoopGuard Sanitize TurnErrors Messages Runner RunnerSpec.
From Stdlib Require Import Ascii ZArith Lia.

#[local] Existing Instance ascii_tables.

(** The strings of a value, one after the other. *)
Fixpoint text_of (v : json) : string :=
  match v with
  | JString s => s +:+ ","
  | JArray l => foldr (λ v s, text_of v +:+ s) "" l
  | JObject m => foldr (λ '(k, v) s, k +:+ text_of v +:+ s) "" m
  | JGo _ v => text_of v
  | _ => ""
  end.

#[local] Instance text_json : JSONLib := {|
  Unmarshal_object s := Err "unexpected text";
  Unmarshal_any s := Err "unexpected text";
  Valid s := false;
  Marshal v := Some (text_of v);
|}.

Fixpoint without_colons (s : string) : string :=
  match s with "" => "" | String a s => if bool_decide (a = ":"%char) then without_colons s else String a (without_colons s) end.

#[local] Instance plain_guard_lib : GuardLib := {|
  sha256_hex s := without_colons s;
  Sprint v := text_of v;
  quote s := s;
|}.

#[local] Instance plain_guard_laws : GuardLaws.
Proof.
  constructor. intros s. cbn. induction s as [|a s IH]; [done|]. cbn. case_bool_decide; [done|]. by apply part_cons.
Qed.

Definition tool (name action output : string) : ExecutedTool :=
  mkTool "" name (Some [("action", JString action)]) output "" [] "" "" false 0.
Definition reading : ExecutedTool := tool "read_file" "a.go" "package a".
Definition writing (n : Z) : ExecutedTool := tool "write_file" "b.go" (itoa n).

Definition twice_once : loopGuardConfig := mkConfig 2 0 0 1 0 LoopGuardModeStrict 0.
Definition just (t : ExecutedTool) : round := ([t], None).
Definition actions (rounds : list round) (c : loopGuardConfig) : list loopGuardAction := D_Action <$> (watch rounds (newLoopGuard c)).2.

Definition three_reads : list round := [just reading; just reading; just (writing 1); just reading].

Lemma repetition_stopped_witness :
  Forall (λ d, D_Action d ≠ loopGuardAbort) (watch three_reads (newLoopGuard twice_once)).2 ∧
  (Z.of_nat (length (filter (λ r : round, alone (executedToolFingerprint reading) r.1 = true) three_reads)) < 2 * 2)%Z ∧
  length (filter (λ r : round, alone (executedToolFingerprint reading) r.1 = true) three_reads) = 3 ∧
  actions (three_reads ++ [just reading]) twice_once =
    [loopGuardAllow; loopGuardRecover; loopGuardAllow; loopGuardAllow; loopGuardAbort].
Proof.
  assert (Forall (λ d, D_Action d ≠ loopGuardAbort) (watch three_reads (newLoopGuard twice_once)).2) as Ha
    by (repeat constructor; vm_compute; discriminate).
  split; [exact Ha|]. split; [|split; vm_compute; reflexivity].
  apply (repetition_stopped twice_once three_reads reading); [reflexivity|reflexivity|exact Ha].
Defined.

Lemma recovery_budget_kept_witness :
  let ds := (watch (three_reads ++ [just reading]) (newLoopGuard twice_once)).2 in
  (Z.of_nat (length (filter (λ d, spends d = true) ds)) <= Z.max 0 1)%Z ∧
  ∃ j d', j < 4 ∧ ds !! j = Some d' ∧ spends d' = true.
Proof.
  pose proof (recovery_budget_kept twice_once (three_reads ++ [just reading]) eq_refl) as [H1 H2]. split; [exact H1|].
  eapply (H2 eq_refl 4); [vm_compute; reflexivity|reflexivity].
Defined.

Lemma abort_only_strict_witness :
  let g := (watch three_reads (newLoopGuard twice_once)).1 in
  D_Action (Observe [reading] None g).2 = loopGuardAbort ∧ Mode (config g) = LoopGuardModeStrict ∧
  D_Reason (Observe [reading] None g).2 ≠ "no_mutation_spiral".
Proof.
  assert (D_Action (Observe [reading] None (watch three_reads (newLoopGuard twice_once)).1).2 = loopGuardAbort) as Ha by (vm_compute; reflexivity).
  split; [exact Ha|]. exact (abort_only_strict [reading] None (watch three_reads (newLoopGuard twice_once)).1 Ha).
Defined.

(** ** What it does not do *)

Definition ping : ExecutedTool := tool "ping" "" "".
Definition pong : ExecutedTool := tool "pong" "" "".
Definition patient : loopGuardConfig := mkConfig 0 0 0 5 0 LoopGuardModeStrict 0.
Definition balls (l : list ExecutedTool) : list round := just <$> l.
Definition three_times (l : list ExecutedTool) : list ExecutedTool := l ++ l ++ l.

(** Where the guard does something else than it is said to. The counts of
    equal calls are not of consecutive ones: a file that is read again after
    each write is taken for a loop. A redirection of the errors to a file, and
    any command in which the letters [tee] occur, counts as writing a file. A
    cycle that goes on one call later has another fingerprint: it is given
    feedback again, where the cycle that goes on in step is stopped. *)
Theorem guard_gaps :
  actions [just reading; just (writing 1); just (writing 2); just reading] twice_once =
    [loopGuardAllow; loopGuardAllow; loopGuardAllow; loopGuardRecover] ∧
  bashCommandWritesFile "grep -rn main . 2>/dev/null" = true ∧ bashCommandWritesFile "cat committee.txt" = true ∧
  last (actions (balls (three_times [ping; pong] ++ three_times [pong; ping])) patient) = Some loopGuardRecover ∧
  last (actions (balls (three_times [ping; pong] ++ three_times [ping; pong])) patient) = Some loopGuardAbort.
Proof. by vm_compute. Qed.

(** ** Messages *)

Definition ask : APIMessage := mkMessage "user" [TextBlock "read a.go"] "".
Definition call (ids : list string) : APIMessage := mkMessage "assistant" ((λ id, ToolUseBlock id "read_file" None) <$> ids) "".
Definition failed_result (id : string) : Block := mkBlock BlockToolResult "" None "" "" None id "no such file" true "" false 0.
Definition reply (ids : list string) : APIMessage := mkMessage "user" (failed_result <$> ids) "".

(** A call that was interrupted, a result nobody asked for, and a blank text. *)
Definition broken_history : list APIMessage :=
  [ask; call ["t1"; "t2"]; reply ["t1"; "t3"; "t1"]; mkMessage " " [TextBlock " "] ""; mkMessage "" [TextBlock "go on"] ""].

Lemma sanitized_well_formed_witness :
  NoDup (uses (broken_history ≫= Content)) ∧ well_formed (SanitizeMessagesForProvider broken_history) ∧
  SanitizeMessagesForProvider broken_history =
    [ask; call ["t1"]; mkMessage "user" [ToolResultBlock "t1" "no such file"] ""; mkMessage "user" [TextBlock "go on"] ""].
Proof.
  assert (NoDup (uses (broken_history ≫= Content))) as Hnd by (apply (bool_decide_unpack _); vm_compute; exact I).
  split; [exact Hnd|]. split; [exact (sanitized_well_formed broken_history Hnd)|]. vm_compute. reflexivity.
Defined.

Definition earlier : list APIMessage := [ask; call ["t1"]; reply ["t1"]; ask].
Definition later : list APIMessage := [ask; call ["t4"]; reply ["t4"]].

Lemma sanitized_prefix_witness :
  grows (SanitizeMessagesForProvider earlier) (SanitizeMessagesForProvider (earlier ++ later)) ∧
  length (SanitizeMessagesForProvider earlier) = 4 ∧ length (SanitizeMessagesForProvider (earlier ++ later)) = 6.
Proof.
  split; [|split; vm_compute; reflexivity]. apply (sanitized_prefix earlier later). intros id Hid _.
  assert (id = "t1") as -> by (vm_compute in Hid; apply elem_of_cons in Hid as [->|Hid]; [reflexivity|by apply not_elem_of_nil in Hid]).
  apply (bool_decide_unpack _). vm_compute. exact I.
Defined.

(** Where the messages for a provider are not what they should be. When an
    id is used again, the second use is sent although no result answers it. The
    mark of a failed call, which the clients would pass on, is taken from every
    result. An empty array among the arguments of a call is sent back as
    [null]. *)
Theorem sanitize_gaps :
  ¬ well_formed (SanitizeMessagesForProvider [ask; call ["t1"]; reply ["t1"]; call ["t1"]]) ∧
  B_IsError (failed_result "t1") = true ∧
  B_IsError <$> (SanitizeMessagesForProvider [ask; call ["t1"]; reply ["t1"]] ≫= Content) = [false; false; false] ∧
  fmap (M:=option) (λ m, encoded (JObject m)) (B_Input (ToolUseBlock "t1" "todo_write" (Some [("items", JArray [])]))) =
    Some (JObject [("items", JNull)]).
Proof.
  split; [|by vm_compute]. intros [_ H]. vm_compute in H. discriminate H.
Qed.

(** * Conversations: the runner at work

    A world in which the model follows a script and the history is a list, in
    which the theorems about runs are applied, and the places where a run does
    something else than it is said to. *)

#[local] Existing Instance ascii_tables.
#[local] Existing Instance text_json.
#[local] Existing Instance plain_guard_lib.
#[local] Existing Instance plain_guard_laws.

(** What the model will say, the history, the requests, the batches of tools,
    and what the user has typed in the meantime. *)
Record desk := mkDesk {
  script : list (result error Response);
  kept : list Message;
  requests : list Request;
  ran : list (list ExecutedTool);
  inbox : list Message;
}.

Definition look_at (d : desk) : view := mkView (kept d) (Z.of_nat (length (requests d))) (ran d).

Lemma look_batches d : batches (look_at d) = ran d.
Proof. reflexivity. Qed.

#[local] Instance desk_world : RunWorld desk := {|
  ctx_err _ := [];
  clock _ := 0%Z;
  race _ f d := let '(d, (r, e)) := f d in (d, ToolDone r e);
  race_watched _ _ f d := let '(d, (r, e)) := f d in (d, Some (ToolDone r e));
  race_on d := (d, ContextDone [DeadlineExceeded]);
  duration_text := itoa;
|}.

Definition ask_model (req : Request) (d : desk) : desk * result error Response :=
  match script d with
  | [] => (mkDesk [] (kept d) (requests d ++ [req]) (ran d) (inbox d), Err [Plain "no more"])
  | Ok resp :: rest => (mkDesk rest (kept d) (requests d ++ [req]) (ran d) (inbox d), Ok resp)
  | Err e :: rest => (mkDesk rest (kept d) (requests d ++ [req]) (ran d) (inbox d), Err (if is_nil e then [Plain "error"] else e))
  end.
Definition say (ms : list Message) (d : desk) : desk := mkDesk (script d) (kept d ++ ms) (requests d) (ran d) (inbox d).
Definition note_tools (tools : list ExecutedTool) (d : desk) : desk := mkDesk (script d) (kept d) (requests d) (ran d ++ [tools]) (inbox d).
Definition read_inbox (d : desk) : desk * result error InjectionDrain :=
  (mkDesk (script d) (kept d) (requests d) (ran d) [], Ok (mkDrain ((λ m, NewTextMessage RoleUser (MessageText m)) <$> inbox d) 0 0 0 "" "")).
(** A compaction that keeps nothing. *)
Definition forget (d : desk) : desk * bool := (mkDesk (script d) [] (requests d) (ran d) (inbox d), true).

Definition run_tool (name : string) (input : arguments) (d : desk) : desk * (ToolExecutionResult * error) :=
  if bool_decide (name = "deploy") then (d, (no_execution, [ErrPermissionPending "deploy requires approval" "p1"]))
  else (d, (mkExec "package a" [] "" "" false, [])).

Definition runner (maxEmpty maxNoMutation maxRepeated turns : Z) : Runner desk :=
  mkRunner (Some (CallOnly ask_model))
    (Some (λ d, (d, Ok (NewRequest "m" 4096 "" "" (kept d) []))))
    (Some (λ m, say [m])) (Some (λ m, say [m])) (Some (λ m, say [m])) (Some run_tool)
    None None None None None (Some forget) (Some note_tools) None None None None
    (Some (λ _, read_inbox)) (Some say) None None None
    turns maxEmpty 0 maxNoMutation 0 0 maxRepeated 0 0 0 0 1 None 0.

#[local] Instance desk_host a b c n : Host look_at (runner a b c n).
Proof.
  constructor; cbn; try done; try (by intros; simplify_eq).
  - intros g [= <-] w. done.
  - intros call req w [= <-]. unfold ask_model, look_at. destruct (script w) as [|[resp|e] rest]; cbn; f_equal; rewrite length_app; cbn; lia.
  - intros call req w e [= <-]. unfold ask_model. destruct (script w) as [|[resp|e'] rest]; cbn; intros [= <-]; [done|].
    by destruct e'.
  - intros f n0 w d [= <-] [= <-]. cbn. apply Forall_fmap, Forall_true. intros m. by apply plain_text.
  - intros f w [= <-]. cbn. split_and!; try done. intros _. constructor.
  - intros f name input w [= <-]. unfold run_tool. by case_bool_decide.
  - intros t f w Hf. specialize (Hf w). by destruct (f w) as [d [r e]].
  - intros t u f w Hf. specialize (Hf w). by destruct (f w) as [d [r e]].
Qed.

(** ** What the model says *)

Definition speak (text : string) : result error Response := Ok (mkResp [TextBlock text] "end_turn" "" None).
Definition silence : result error Response := Ok (mkResp [] "end_turn" "" None).
Definition thoughts : result error Response := Ok (mkResp [] "length" "hm" None).
Definition use (calls : list (string * string)) : result error Response :=
  Ok (mkResp ((λ c, ToolUseBlock c.1 c.2 (Some [("path", JString "a.go")])) <$> calls) "tool_use" "" None).
Definition too_many_tokens : result error Response := Err [ApiStatusError 400 "prompt is too long"].

Definition question : Message := NewTextMessage RoleUser "fix it".
Definition start (s : list (result error Response)) : desk := mkDesk s [question] [] [] [].

(** Two calls, then one that waits for an approval, and one that is skipped. *)
Definition two_turns : desk := start [use [("t1", "read_file"); ("t2", "read_file")]; use [("t3", "deploy"); ("t4", "read_file")]].

Definition usual : Runner desk := runner 0 0 0 10.



Definition stubborn : desk := start (repeat (use [("t1", "read_file")]) 9).



(** A rate limit within an error of the HTTP client: both sides try again. *)
Lemma classification_agrees_witness :
  let err := [Plain "send"; UrlError "Post: too many requests"; ApiStatusError 429 "slow down"] in
  ClassifyTurnError err = TurnErrorTransient ∧ shouldRetryError err = true.
Proof.
  cbv zeta. split; [vm_compute; reflexivity|].
  destruct (classification_agrees [Plain "send"; UrlError "Post: too many requests"; ApiStatusError 429 "slow down"] eq_refl) as [H _].
  destruct (H (or_intror eq_refl)) as [H1|[H1 _]]; [exact H1|]. exfalso. apply (bool_decide_pack _) in H1. vm_compute in H1. exact H1.
Defined.

Lemma history_roundtrip_witness :
  let call := ToolUseBlock "t1" "read_file" (Some [("path", JString "a.go")]) in
  let thought := ThinkingBlock "first look at a.go" "sig" false in
  read_block (encoded (MarshalJSON call)) = Some call ∧
  read_block (encoded (MarshalJSON thought)) = Some (ThinkingBlock "" "sig" false).
Proof.
  cbv zeta.
  destruct (history_roundtrip (ToolUseBlock "t1" "read_file" (Some [("path", JString "a.go")])) ltac:(discriminate)) as [H1 _].
  destruct (history_roundtrip (ThinkingBlock "first look at a.go" "sig" false) ltac:(discriminate)) as [H2 _].
  split; [exact H1|exact H2].
Defined.

(** ** What a run does not do *)

Definition with_inbox (ms : list Message) (d : desk) : desk := mkDesk (script d) (kept d) (requests d) (ran d) ms.
Definition outcome (r : Runner desk) (d : desk) : option (bool * bool * error) :=
  match (Run r d).2 with Some (Some res, e) => Some (Completed res, Stopped res, e) | _ => None end.

